(* ===== verification/_CoqProject ===== *)
-Q . S2P
Prelude.v
GoBytes.v
GoHash.v
GoJson.v
GoDecode.v
GoUrl.v
GoJsonEq.v
Profile.v
Hpke.v
Envelope.v
Response.v
RespBind.v
Async.v
Signature.v
Attest.v
GoHttp.v
Walk.v
Client.v
Stream.v
RateLimit.v
Endpoint.v
Preview.v
Chain.v
Ground.v
Sha384.v
Runtime.v
Boot.v
GoText.v
Yaml.v
Load.v
Block.v
Review.v
Baseline.v
Judge.v
GoServe.v
Evidence.v
Identity.v
Warmer.v
Direct.v
Provenance.v
Platform.v
Front.v
Serving.v
Catalog.v
Gateway.v
