(* ===== verification/Prelude.v ===== *)
(** * The 0G private-compute end-to-end encryption client, verified

    The repository is the client side of an end-to-end encrypted inference network: a
    user's request is sealed to a provider's enclave, travels through an untrusted router
    and a broker, and the answer comes back sealed. This library models the protocol
    ([src/protocol]), the client that speaks it ([src/client/core], [route], [chain],
    [endpoint], [sig]) and the evidence it demands of a provider ([src/client/evidence],
    [src/client/compose], [src/protocol/attest]), and proves what they promise.

    ** The parts, and the files that model them

    Go's own library, as far as the program uses it (executable, no parameters):
    - [Prelude]: results, guards, bounded retries, maps as the program walks them, tactics.
    - [GoBytes] (hex, base64, [strings]), [GoText] ([Contains], [ReplaceAll],
      [path.Clean]), [GoUrl], [GoHttp] (headers, requests, bodies), [GoHash] (SHA-256,
      HMAC, HKDF), [Sha384].
    - [GoJson], [GoDecode], [GoJsonEq]: [encoding/json] on token trees that keep every
      spelling, its round trips, and the equality of data that canonicalisation respects.

    The protocol:
    - [Profile] and [Envelope] (protocol/wire/envelope.go, binding.go): the table of
      profiles, sealing and opening requests. [Response] (response.go): the sealer and the
      opener of a stream, with their state. [RespBind] (respbind.go) and [Async] (async.go):
      responses bound to the client's key, and results opened later. [Hpke]
      (protocol/crypto): the interface to the HPKE library.
    - [Signature] (protocol/proof, client/sig): the text that binds an exchange, its
      signature and the signer's recovery. [Attest] (protocol/attest): what a quote says.

    One call of the client:
    - [Walk] (core/resolve.go, keyrefresh.go, the loop of client.go): candidates tried in
      order under a budget, with at most one re-keying each. [Client] (client.go, verify.go,
      async.go) is the attempt of a buffered answer and of a job's submission, [Stream]
      (stream.go) the streamed one. The three share the loop of [Walk].
    - [Endpoint] (client/endpoint): what a surface does to a request before it is sealed.
    - [Preview] (route/route.go): asking the router for candidates, without the payload.
      [Ground] (route.go): turning a candidate into a provider, against its quote and the
      chain. [Direct] (direct.go, sigfetch.go): one provider's URL instead of the router,
      and the fetch of a signature. [Identity] (provideridentity.go) and [Warmer]
      (warmer.go): what a status page is told of the providers, and the sweeps that keep
      it and the quote cache warm. [RateLimit] (ratelimit.go, quotecache.go, respbind.go): the bounded state of
      the route. [Chain] (client/chain): reading the chain, and the cache in front of it.

    Evidence about a provider:
    - [Boot] (evidence/mrconfig.go, appcompose.go, osimage.go, manifest.go, ...): what a
      CVM booted. [Runtime] (rtmr3.go): what it has run since.
    - [Yaml] and [Load] (compose.go, composeload.go): reading a manifest as docker compose
      does. [Block] (composeblock.go): the canonical form of a service, with and without
      its own image. [Review] (composereview.go, composecontroller.go): every rule.
      [Baseline] (composebaseline.go): the manifest against the recorded deployment.
    - [Judge] (route/runtimerelease.go, composebaseline.go, enforce.go, untrusted.go): the
      judge of broker builds, shared by every request, and the gate in front of a provider.
    - [Provenance] (client/provenance): the verifier of broker builds that the judge asks,
      with its registry client, its trust root and its memory of verdicts.
    - [Evidence] (evidence/evidence.go, imageorigin.go): the check of a whole endpoint, from
      the bundle it serves to whether the code it runs was published.
    - [Platform] (client/dcap, client/dstack, client/release): the collateral a quote is
      verified with, the guest agent of one's own CVM, and the published manifests.

    The HTTP front end:
    - [GoServe] (net/http's server side as far as it is used: the writer, requests as they
      arrive, and the matching of [ServeMux]'s patterns, cleaning and redirects included).
    - [Front] (openaiproxy/auth.go, cookie.go, cors.go, limit.go, bodyread.go, async.go,
      ...): one wrapper or handler each, from a request and a state to a state.
    - [Serving] (openaiproxy/proxy.go): a sealed surface, buffered, streamed or submitted.
    - [Catalog] (cmd/gateway/catalogcache.go): the single-flight cache of the catalog.
    - [Gateway] (cmd/gateway/main.go, sealmodels.go, routerproxy.go, ...): the handler of
      the gateway, which puts the others together.

    The parts compose as the code composes them. [Envelope]'s theorems are stated over
    [SealRequestFor]; [Client.posts_sealed] lifts them to whatever a call posts;
    [Ground.routed_posts_attested] instantiates the client's resolver with the router of
    [Ground], so a post, of a buffered call or a streamed one, is sealed under a key an
    attested quote vouched for; [Judge]'s gate
    puts [Runtime] and [Baseline] in front of that, and [Provenance.sealed_to_releases]
    puts the verifier of builds behind the gate; [Serving] runs the client of a surface,
    and [Gateway.sealed_stays_sealed] says of the whole handler what [Client.posts_sealed]
    says of a call.

    ** How code becomes definitions

    A Go function is a definition of the same name, its early returns are [Err] of a
    result or the guards of an option, its loops are structural recursions, and what it
    writes besides (metrics, posts, deliveries) is a log of events. An error is a
    constructor per kind with the values that decide something, not the sentence: what a
    message says is kept only where code reads it. Durations and times are nanoseconds in
    [Z], without overflow: the code's are far below 2^63. Machine integers are kept at
    their width where the code lets them wrap or reads them from the wire ([Chain]'s
    uint64, [Response]'s sequence numbers, [GoHash]'s words). A nil slice or pointer is
    [None] where the code tells it from an empty one. Run-time panics are values ([EPanic],
    [None]) where the code can reach them.

    What is outside a component is a class of functions over a world [W]: [Outside] for
    the transport, [RouterOutside] for the router, [World] for the clock and the caller's
    cancellation. A call outside takes a world to the next, so anything may happen between
    two of them. State shared by requests is a record inside the world, reached through
    accessors, and what the others do to it meanwhile is an explicit step ([between] in
    [Ground], the sequences of moves in [Judge]).

    Parameters, each a class whose laws state the documented behaviour of code that is not
    under src: HPKE ([HpkeLib], [HpkeLaws]), JCS ([Jcs]), the curve and Keccak behind
    signature recovery, the quote verifier ([quoteParser]), [url.Parse], YAML ([YamlLib],
    [YamlLaws]), compose-go ([ComposeGo]), Sigstore and its TUF root ([Sigstore]),
    go-tdx-guest, DNS answers, JSON-RPC, HTTP round trips, the faults of a file system. Every
    theorem with such a hypothesis has a witness over a concrete instance. Collision
    resistance is never assumed: theorems that need it produce the collision.

    ** Bounds and fuel

    Recursions are structural wherever they can be. The rest: [parse] nests to 10000 levels
    as the decoder does, with the text's length as fuel for a level; a stream's read loop
    has one more step than its body has lines, which is proved to be enough
    ([Stream.stream_ends]); replacements and splits have their text's length; decimal
    printing has 20 digits for 64-bit values; a CNAME chain has the code's 8 hops, a
    compose text the code's 16 documents; a token challenge has its text's length, which is
    enough ([Provenance.challenge_enough]); waiting in [Judge] takes the patience the
    deadline leaves. Retries count down on the code's own counters.

    ** What the theorems show

    - Confidentiality: nothing sealed is in an envelope, a preview, or anything a call posts
      ([Envelope], [Preview], [Client], [Ground]); the gateway hands no request to the
      router that it was to seal, and no job's key, in the spellings its guard folds
      ([Gateway], where examples name two it does not).
    - Integrity: what an enclave opens is what was sealed, beside the cleartext it was
      sealed with; frames open only in their place; responses open only for the key they
      were bound to; a signature covers the exchange ([Envelope], [Response], [RespBind],
      [Signature], [Stream]), and what a caller of a surface is sent is what was opened
      ([Serving]). A build is a release only by its signed provenance ([Provenance]), an
      endpoint passes only for what its quote commits to ([Evidence]), and the status page
      shows only what was verified ([Warmer]).
    - Round trips: requests, streams, async results, report data, image records, the
      identity file.
    - Exactness: verification, the baseline comparison, image grammars and path verdicts
      hold exactly when their specification does ([Attest], [Baseline], [Runtime], [Review]);
      an origin is allowed, and a model sealed, exactly when the list says so ([Front],
      [Gateway]).
    - State: the limiter refines its specification, the caches are bounded and vouch for
      what they return, the invariants of the judge, of the catalog cache, of the identity
      store and of the verifier's memory hold in every reachable state ([RateLimit],
      [Chain], [Judge], [Catalog], [Identity], [Provenance]); collateral is used no longer
      than its time ([Platform]).
    - Progress: an honest broker is understood and its signature accepted, a rotation is followed, a job comes home, a
      provider that is what it should be is let through, an honest deployment passes, a
      healthy fleet is swept, one release's bundle is enough; loops end, and within their
      budgets, where what they call keeps its deadlines ([Client], [Stream], [Ground],
      [Walk], [Judge], [Evidence], [Warmer], [Direct], [Provenance]).
    - Errors: manifests that do not load never pass ([Baseline.load_failures]), an outage of
      the registry rejects no build ([Provenance]), a write that fails leaves the file that
      was there ([Platform]), and each branch of the verifiers is characterised by the
      iff-statements above.

    ** Not modelled, and why

    - Sockets, dialling and TLS: an exchange is a function of the request and the world.
    - Splitting a multipart body, [net.SplitHostPort] and MIME types: standard library code
      whose answers are arguments.
    - Identity of YAML nodes: the copies made before a node is changed are not written out,
      and the recover around the review's fields is not needed by total functions.
    - The other commands, flags and the wiring of [main], the assembly of the identity
      documents, metrics; the mock upstream, a test double. *)

From Stdlib Require Export Ascii String ZArith Lia.
From stdpp Require Export base gmap strings list sorting.

#[global] Open Scope string_scope.
#[global] Open Scope list_scope.
#[global] Open Scope Z_scope.

(** ** Results: Go's [(T, error)] returns *)

Inductive result (E A : Type) : Type :=
| Ok (a : A)
| Err (e : E).
Arguments Ok {E A} a.
Arguments Err {E A} e.

#[export] Instance result_ret E : MRet (result E) := fun _ a => Ok a.
#[export] Instance result_bind E : MBind (result E) :=
  fun _ _ f r => match r with Ok a => f a | Err e => Err e end.
#[export] Instance result_fmap E : FMap (result E) :=
  fun _ _ f r => match r with Ok a => Ok (f a) | Err e => Err e end.
#[export] Instance result_eq_dec E A `{EqDecision E} `{EqDecision A} : EqDecision (result E A).
Proof. solve_decision. Defined.

(** A Go [if bad { return err }] guard. *)
Definition refuse {E} (bad : bool) (e : E) : result E unit :=
  if bad then Err e else Ok tt.

(** A Go [for _, x := range l { if err := f(x); err != nil { return err } }]. *)
Fixpoint each {E A} (f : A -> result E unit) (l : list A) : result E unit :=
  match l with
  | [] => Ok tt
  | x :: l => _ ← f x; each f l
  end.

Definition of_option {E A} (o : option A) (e : E) : result E A :=
  match o with Some a => Ok a | None => Err e end.

(** [errors.Wrap]-style relabelling of an error. *)
Definition map_err {E F A} (f : E -> F) (r : result E A) : result F A :=
  match r with Ok a => Ok a | Err e => Err (f e) end.

Definition ok_or {E A} (d : A) (r : result E A) : A :=
  match r with Ok a => a | Err _ => d end.

Definition is_ok {E A} (r : result E A) : bool :=
  match r with Ok _ => true | Err _ => false end.

Section result_lemmas.
Context {E : Type}.

Lemma bind_ok {A B} (r : result E A) (f : A -> result E B) b :
  (r ≫= f) = Ok b <-> exists a, r = Ok a /\ f a = Ok b.
Proof.
  destruct r; cbn; split.
  - eauto.
  - intros (a' & [= ->] & ?); done.
  - done.
  - intros (a' & ? & ?); done.
Qed.

Lemma bind_ok_l {A B} (a : A) (f : A -> result E B) : (Ok a ≫= f) = f a.
Proof. done. Qed.

Lemma refuse_ok b (e : E) : refuse b e = Ok tt <-> b = false.
Proof. by destruct b. Qed.

Lemma each_ok {A} (f : A -> result E unit) l :
  each f l = Ok tt <-> Forall (fun x => f x = Ok tt) l.
Proof.
  induction l as [|x l IH]; cbn; [by split|].
  rewrite Forall_cons, <-IH. destruct (f x) as [[]|]; cbn; naive_solver.
Qed.

Lemma of_option_ok {A} (o : option A) (e : E) a : of_option o e = Ok a <-> o = Some a.
Proof. destruct o; cbn; naive_solver. Qed.

Lemma map_err_ok {F A} (f : E -> F) (r : result E A) a : map_err f r = Ok a <-> r = Ok a.
Proof. destruct r; cbn; naive_solver. Qed.

Lemma is_ok_true {A} (r : result E A) : is_ok r = true <-> exists a, r = Ok a.
Proof. destruct r; cbn; naive_solver. Qed.

Lemma each_app {A} (f : A -> result E unit) l1 l2 :
  each f (l1 ++ l2) = (_ ← each f l1; each f l2).
Proof. induction l1 as [|x l1 IH]; cbn; [done|]. rewrite IH. by destruct (f x). Qed.
End result_lemmas.

Create HintDb wire discriminated.
Create Rewrite HintDb wire.
#[export] Hint Rewrite @bind_ok_l : wire.

(** Case analysis on every bind, guard and option of a hypothesis that says a
    computation returned [Ok]. *)
Ltac inv_ok :=
  repeat match goal with
  | H : mbind _ _ = Ok _ |- _ => apply bind_ok in H; destruct H as (? & ? & H)
  | H : refuse _ _ = Ok _ |- _ =>
      let e := fresh in
      match type of H with _ = Ok ?u => assert (u = tt) as e by (by destruct u) end;
      rewrite ?e in H; clear e; apply refuse_ok in H
  | H : of_option _ _ = Ok _ |- _ => apply of_option_ok in H
  | H : map_err _ _ = Ok _ |- _ => apply map_err_ok in H
  | H : mret _ = Ok _ |- _ => injection H as H
  | H : Ok _ = Ok _ |- _ => injection H as H
  | H : Err _ = Ok _ |- _ => discriminate H
  | H : (if ?b then Err _ else _) = Ok _ |- _ => destruct b eqn:?; [discriminate H|]
  | H : (if ?b then _ else Err _) = Ok _ |- _ => destruct b eqn:?; [|discriminate H]
  | H : (match ?o with Some _ => _ | None => Err _ end) = Ok _ |- _ =>
      destruct o eqn:?; [|discriminate H]
  | H : (match ?o with Some _ => Err _ | None => _ end) = Ok _ |- _ =>
      destruct o eqn:?; [discriminate H|]
  | u : unit |- _ => destruct u
  end.

(** ** Boolean tests on strings and lists *)

Definition streqb : string -> string -> bool := String.eqb.

(** Go's [slices.Contains] on strings. *)
Definition contains (l : list string) (x : string) : bool := existsb (String.eqb x) l.

(** Presence of a key in a Go map. *)
Definition has_key {A} (m : gmap string A) (k : string) : bool :=
  match m !! k with Some _ => true | None => false end.

Lemma contains_spec l x : contains l x = true <-> x ∈ l.
Proof.
  unfold contains. rewrite existsb_exists. setoid_rewrite list_elem_of_In.
  split; [intros (y & ? & ->%String.eqb_eq); done|].
  intros; exists x; split; [done|apply String.eqb_refl].
Qed.

Lemma contains_false l x : contains l x = false <-> x ∉ l.
Proof. rewrite <-contains_spec. by destruct (contains l x). Qed.

Lemma has_key_true {A} (m : gmap string A) k : has_key m k = true <-> is_Some (m !! k).
Proof. unfold has_key. destruct (m !! k); split; [eauto|done|done|by intros [??]]. Qed.

Lemma has_key_false {A} (m : gmap string A) k : has_key m k = false <-> m !! k = None.
Proof. unfold has_key. by destruct (m !! k). Qed.

#[export] Hint Rewrite contains_spec contains_false @has_key_true @has_key_false : wire.

(** Case analysis on boolean operators in hypotheses. *)
Ltac bool_hyps :=
  repeat match goal with
  | H : andb _ _ = true |- _ => apply andb_true_iff in H; destruct H
  | H : orb _ _ = false |- _ => apply orb_false_iff in H; destruct H
  | H : negb _ = true |- _ => apply negb_true_iff in H
  | H : negb _ = false |- _ => apply negb_false_iff in H
  | H : contains _ _ = true |- _ => apply contains_spec in H
  | H : contains _ _ = false |- _ => apply contains_false in H
  | H : has_key _ _ = false |- _ => apply has_key_false in H
  | H : has_key _ _ = true |- _ => apply has_key_true in H
  | H : String.eqb _ _ = true |- _ => apply String.eqb_eq in H
  | H : String.eqb _ _ = false |- _ => apply String.eqb_neq in H
  end.

(** ** Bytes: Go's [[]byte] as a list of 8-bit characters *)

Abbreviation bytes := (list ascii).

Definition bytes_of (s : string) : bytes := list_ascii_of_string s.
Definition str_of (b : bytes) : string := string_of_list_ascii b.

Lemma bytes_of_str_of b : bytes_of (str_of b) = b.
Proof. apply list_ascii_of_string_of_list_ascii. Qed.
Lemma str_of_bytes_of s : str_of (bytes_of s) = s.
Proof. apply string_of_list_ascii_of_string. Qed.

#[export] Hint Rewrite bytes_of_str_of str_of_bytes_of : wire.

#[export] Instance str_of_inj : Inj eq eq str_of.
Proof. intros x y H. by rewrite <-(bytes_of_str_of x), H, bytes_of_str_of. Qed.
#[export] Instance bytes_of_inj : Inj eq eq bytes_of.
Proof. intros x y H. by rewrite <-(str_of_bytes_of x), H, str_of_bytes_of. Qed.

Lemma bytes_of_app s t : bytes_of (s +:+ t) = bytes_of s ++ bytes_of t.
Proof. induction s as [|c s IH]; [done|]. change (c :: bytes_of (s +:+ t) = c :: bytes_of s ++ bytes_of t). by rewrite IH. Qed.

Lemma length_bytes_of s : String.length s = length (bytes_of s).
Proof. unfold bytes_of. induction s as [|c s IH]; cbn; [done|by rewrite IH]. Qed.

(** The numeric value of a byte, 0 to 255, and its inverse modulo 256. *)
Definition bval (c : ascii) : Z := Z.of_N (N_of_ascii c).
Definition byte_of (z : Z) : ascii := ascii_of_N (Z.to_N (z mod 256)).

Lemma bval_range c : 0 <= bval c < 256.
Proof. unfold bval. pose proof (N_ascii_bounded c). lia. Qed.

Lemma byte_of_bval c : byte_of (bval c) = c.
Proof.
  unfold byte_of. rewrite Z.mod_small by apply bval_range.
  unfold bval. rewrite N2Z.id. apply ascii_N_embedding.
Qed.

Lemma bval_byte_of z : bval (byte_of z) = z mod 256.
Proof.
  unfold bval, byte_of. pose proof (Z.mod_pos_bound z 256 ltac:(lia)).
  rewrite N_ascii_embedding by lia. lia.
Qed.

Lemma bval_byte_of_small z : 0 <= z < 256 -> bval (byte_of z) = z.
Proof. intros. rewrite bval_byte_of. by apply Z.mod_small. Qed.

#[export] Hint Rewrite byte_of_bval : wire.
