(* ===== verification/GoBytes.v ===== *)
(** * GoBytes: the byte and string routines of Go's standard library

    The parts of [encoding/hex], [encoding/base64] and [strings] the program
    calls, as executable definitions, with the round trips the protocol's
    components rely on. *)

From S2P Require Import Prelude.

(** ** Character classes and ASCII folding *)

Definition in_range (c : ascii) (lo hi : Z) : bool := (lo <=? bval c) && (bval c <=? hi).
Definition is_digit (c : ascii) : bool := in_range c 48 57.
Definition is_lower (c : ascii) : bool := in_range c 97 122.
Definition is_upper (c : ascii) : bool := in_range c 65 90.

Definition upper (c : ascii) : ascii := if is_lower c then byte_of (bval c - 32) else c.
Definition lower (c : ascii) : ascii := if is_upper c then byte_of (bval c + 32) else c.

(** [strings.ToLower] on ASCII input (addresses are ASCII hex). *)
Definition to_lower (s : string) : string := str_of (map lower (bytes_of s)).

(** Unicode simple case folding restricted to what folds onto ASCII: besides the
    letter case, U+017F (bytes C5 BF) folds to [s] and U+212A (E2 84 AA) to [k]. *)
Fixpoint fold_ascii (l : bytes) : bytes :=
  match l with
  | a :: ((b :: ((c :: r3) as r2)) as r1) =>
      if (bval a =? 226) && (bval b =? 132) && (bval c =? 170) then "K"%char :: fold_ascii r3
      else if (bval a =? 197) && (bval b =? 191) then "S"%char :: fold_ascii r2
      else upper a :: fold_ascii r1
  | [a; b] => if (bval a =? 197) && (bval b =? 191) then ["S"%char] else [upper a; upper b]
  | [a] => [upper a]
  | [] => []
  end.

(** [strings.EqualFold]; exact when either argument is ASCII. *)
Definition equal_fold (a b : string) : bool :=
  bool_decide (fold_ascii (bytes_of a) = fold_ascii (bytes_of b)).

(** [strings.HasPrefix] and [strings.TrimPrefix]. *)
Fixpoint strip_prefix (p l : bytes) : option bytes :=
  match p, l with
  | [], _ => Some l
  | x :: p, y :: l => if Ascii.eqb x y then strip_prefix p l else None
  | _ :: _, [] => None
  end.
Definition has_prefix (s p : string) : bool :=
  match strip_prefix (bytes_of p) (bytes_of s) with Some _ => true | None => false end.
Definition trim_prefix (s p : string) : string :=
  match strip_prefix (bytes_of p) (bytes_of s) with Some r => str_of r | None => s end.

Lemma strip_prefix_spec p l r : strip_prefix p l = Some r <-> l = p ++ r.
Proof.
  revert l. induction p as [|x p IH]; intros l; cbn; [split; [by intros [= ->]|by intros ->]|].
  destruct l as [|y l]; [done|]. destruct (Ascii.eqb_spec x y) as [->|Hne].
  - rewrite IH. split; [by intros ->|by intros [= ->]].
  - split; [done|intros [= -> _]; done].
Qed.

Lemma has_prefix_iff s p : has_prefix s p = true <-> exists r, bytes_of s = bytes_of p ++ r.
Proof.
  unfold has_prefix. destruct (strip_prefix (bytes_of p) (bytes_of s)) as [r|] eqn:E.
  - apply strip_prefix_spec in E. split; [eauto|done].
  - split; [done|]. intros [r Hr]. apply strip_prefix_spec in Hr. congruence.
Qed.

(** The white space [strings.TrimSpace] removes: the ASCII blanks and the UTF-8
    encodings of the Unicode White_Space characters. *)
Definition space_seqs : list bytes :=
  map (fun z => [byte_of z]) [9; 10; 11; 12; 13; 32] ++
  map (map byte_of)
    ([[194; 133]; [194; 160]; [225; 154; 128]; [226; 128; 168]; [226; 128; 169];
      [226; 128; 175]; [226; 129; 159]; [227; 128; 128]] ++
     map (fun k => [226; 128; 128 + k]) [0; 1; 2; 3; 4; 5; 6; 7; 8; 9; 10]).

Definition strip_any (ps : list bytes) (l : bytes) : option bytes :=
  foldr (fun p acc => match strip_prefix p l with Some r => Some r | None => acc end) None ps.

Fixpoint trim_left_fuel (n : nat) (ps : list bytes) (l : bytes) : bytes :=
  match n with
  | O => l
  | S n => match strip_any ps l with Some r => trim_left_fuel n ps r | None => l end
  end.

Definition trim_left (ps : list bytes) (l : bytes) : bytes := trim_left_fuel (length l) ps l.

Definition trim_space_bytes (l : bytes) : bytes :=
  rev (trim_left (map (@rev ascii) space_seqs) (rev (trim_left space_seqs l))).

Definition trim_space (s : string) : string := str_of (trim_space_bytes (bytes_of s)).

(** [strings.LastIndex(s, sep)] for a one-byte separator, as the split it is used for. *)
Fixpoint split_last (sep : ascii) (l : bytes) : option (bytes * bytes) :=
  match l with
  | [] => None
  | c :: l =>
      match split_last sep l with
      | Some (a, b) => Some (c :: a, b)
      | None => if Ascii.eqb c sep then Some ([], l) else None
      end
  end.

(** [strings.Cut(s, sep)] for a one-byte separator. *)
Fixpoint split_first (sep : ascii) (l : bytes) : option (bytes * bytes) :=
  match l with
  | [] => None
  | c :: l =>
      if Ascii.eqb c sep then Some ([], l)
      else match split_first sep l with
           | Some (a, b) => Some (c :: a, b)
           | None => None
           end
  end.

Lemma split_last_none sep l : sep ∉ l -> split_last sep l = None.
Proof.
  induction l as [|c l IH]; [done|]. rewrite not_elem_of_cons. intros [? ?]. cbn.
  rewrite IH by done. destruct (Ascii.eqb_spec c sep); congruence.
Qed.

Lemma split_last_app sep a b : sep ∉ b -> split_last sep (a ++ sep :: b) = Some (a, b).
Proof.
  intros Hb. induction a as [|c a IH]; cbn.
  - rewrite split_last_none by done. by rewrite Ascii.eqb_refl.
  - by rewrite IH.
Qed.

Lemma split_last_some sep l a b : split_last sep l = Some (a, b) -> l = a ++ sep :: b /\ sep ∉ b.
Proof.
  revert a b. induction l as [|c l IH]; intros a b; cbn; [done|].
  destruct (split_last sep l) as [[a' b']|] eqn:E.
  - intros [= <- <-]. destruct (IH _ _ eq_refl) as [-> ?]. done.
  - destruct (Ascii.eqb_spec c sep); [|done]. intros [= <- <-]. subst. split; [done|].
    clear IH. induction l as [|x l IH]; [set_solver|]. cbn in E.
    destruct (split_last sep l) as [[]|]; [done|].
    destruct (Ascii.eqb_spec x sep); [done|]. rewrite not_elem_of_cons; split; [done|auto].
Qed.

Lemma split_first_app sep a b : sep ∉ a -> split_first sep (a ++ sep :: b) = Some (a, b).
Proof.
  induction a as [|c a IH]; cbn.
  - by rewrite Ascii.eqb_refl.
  - rewrite not_elem_of_cons. intros [? ?]. rewrite IH by done.
    destruct (Ascii.eqb_spec c sep); congruence.
Qed.

(** ** [encoding/hex] *)

Definition hex_digit (z : Z) : ascii := if z <? 10 then byte_of (48 + z) else byte_of (87 + z).
Definition hex_val (c : ascii) : option Z :=
  if is_digit c then Some (bval c - 48)
  else if in_range c 97 102 then Some (bval c - 87)
  else if in_range c 65 70 then Some (bval c - 55)
  else None.

(** [hex.EncodeToString]. *)
Fixpoint hex_encode (l : bytes) : bytes :=
  match l with
  | [] => []
  | c :: l => hex_digit (bval c / 16) :: hex_digit (bval c mod 16) :: hex_encode l
  end.

(** [hex.DecodeString]: both cases accepted, an odd length refused. *)
Fixpoint hex_decode (l : bytes) : option bytes :=
  match l with
  | [] => Some []
  | a :: b :: l =>
      x ← hex_val a; y ← hex_val b; r ← hex_decode l; Some (byte_of (16 * x + y) :: r)
  | [_] => None
  end.

(** All the integers of [[0, n)], to discharge finite checks by computation. *)
Definition zrange (n : nat) : list Z := map Z.of_nat (seq 0 n).

Lemma zrange_forall n (P : Z -> Prop) `{!forall z, Decision (P z)} :
  bool_decide (Forall P (zrange n)) = true -> forall z, 0 <= z < Z.of_nat n -> P z.
Proof.
  rewrite bool_decide_eq_true, Forall_forall. intros HF z Hz. apply HF, list_elem_of_In.
  apply in_map_iff. exists (Z.to_nat z). split; [lia|]. apply in_seq. lia.
Qed.

(** Decides a statement about every byte by running it on the 256 of them. *)
Definition all_bytes : list ascii := map byte_of (zrange 256).

Lemma all_bytes_forall (P : ascii -> Prop) `{!forall c, Decision (P c)} :
  bool_decide (Forall P all_bytes) = true -> forall c, P c.
Proof.
  rewrite bool_decide_eq_true, Forall_forall. intros HF c. apply HF, list_elem_of_In.
  apply in_map_iff. exists (bval c). split; [apply byte_of_bval|].
  unfold zrange. apply in_map_iff. exists (Z.to_nat (bval c)).
  pose proof (bval_range c). split; [lia|]. apply in_seq. lia.
Qed.

Lemma hex_val_digit z : 0 <= z < 16 -> hex_val (hex_digit z) = Some z.
Proof.
  apply (zrange_forall 16 (fun z => hex_val (hex_digit z) = Some z)). vm_compute; done.
Qed.

Lemma hex_decode_encode l : hex_decode (hex_encode l) = Some l.
Proof.
  induction l as [|c l IH]; [done|]. cbn -[hex_val hex_digit].
  pose proof (bval_range c).
  rewrite !hex_val_digit, IH by (try apply Z.mod_pos_bound; try split; try apply Z.div_pos;
    try apply Z.div_lt_upper_bound; lia). cbn.
  rewrite <-Z.div_mod by lia. by rewrite byte_of_bval.
Qed.

Lemma hex_encode_length l : length (hex_encode l) = (2 * length l)%nat.
Proof. induction l; cbn; lia. Qed.

Lemma hex_encode_inj l1 l2 : hex_encode l1 = hex_encode l2 -> l1 = l2.
Proof.
  intros H. assert (Some l1 = Some l2) as [=] by (by rewrite <-!hex_decode_encode, H). done.
Qed.

(** A lower-case hex digit. *)
Definition is_lower_hex (c : ascii) : bool := is_digit c || in_range c 97 102.

Lemma hex_digit_lower z : 0 <= z < 16 -> is_lower_hex (hex_digit z) = true.
Proof. by apply (zrange_forall 16 (fun z => is_lower_hex (hex_digit z) = true)). Qed.

Lemma hex_encode_lower l : Forall (fun c => is_lower_hex c = true) (hex_encode l).
Proof.
  induction l as [|c l IH]; [constructor|]. pose proof (bval_range c).
  cbn -[hex_digit]. repeat constructor; [| |done]; apply hex_digit_lower.
  - split; [apply Z.div_pos; lia|apply Z.div_lt_upper_bound; lia].
  - apply Z.mod_pos_bound; lia.
Qed.

(** ** [encoding/base64]: RawURLEncoding *)

Definition b64_alphabet : bytes :=
  bytes_of "ABCDEFGHIJKLMNOPQRSTUVWXYZabcdefghijklmnopqrstuvwxyz0123456789-_".

Definition b64_char (z : Z) : ascii := nth (Z.to_nat z) b64_alphabet "A"%char.

Definition b64_val (c : ascii) : option Z :=
  if is_upper c then Some (bval c - 65)
  else if is_lower c then Some (bval c - 71)
  else if is_digit c then Some (bval c + 4)
  else if Ascii.eqb c "-" then Some 62
  else if Ascii.eqb c "_" then Some 63
  else None.

Fixpoint b64_encode (l : bytes) : bytes :=
  match l with
  | a :: b :: c :: r =>
      let x := bval a in let y := bval b in let z := bval c in
      b64_char (x / 4) :: b64_char (x mod 4 * 16 + y / 16) ::
      b64_char (y mod 16 * 4 + z / 64) :: b64_char (z mod 64) :: b64_encode r
  | [a; b] =>
      let x := bval a in let y := bval b in
      [b64_char (x / 4); b64_char (x mod 4 * 16 + y / 16); b64_char (y mod 16 * 4)]
  | [a] => let x := bval a in [b64_char (x / 4); b64_char (x mod 4 * 16)]
  | [] => []
  end.

Definition is_newline (c : ascii) : bool := (bval c =? 10) || (bval c =? 13).

(** Quanta of four characters; [strict] also refuses non-zero trailing bits. *)
Fixpoint b64_quanta (strict : bool) (l : bytes) : option bytes :=
  match l with
  | a :: b :: c :: d :: r =>
      x ← b64_val a; y ← b64_val b; z ← b64_val c; w ← b64_val d;
      t ← b64_quanta strict r;
      Some (byte_of (x * 4 + y / 16) :: byte_of (y mod 16 * 16 + z / 4) ::
            byte_of (z mod 4 * 64 + w) :: t)
  | [a; b; c] =>
      x ← b64_val a; y ← b64_val b; z ← b64_val c;
      if strict && negb (z mod 4 =? 0) then None
      else Some [byte_of (x * 4 + y / 16); byte_of (y mod 16 * 16 + z / 4)]
  | [a; b] =>
      x ← b64_val a; y ← b64_val b;
      if strict && negb (y mod 16 =? 0) then None else Some [byte_of (x * 4 + y / 16)]
  | [_] => None
  | [] => Some []
  end.

(** [base64.RawURLEncoding.DecodeString]: CR and LF are skipped wherever they
    appear, with and without [.Strict()]. *)
Definition b64_decode (strict : bool) (l : bytes) : option bytes :=
  b64_quanta strict (List.filter (fun c => negb (is_newline c)) l).

Lemma b64_val_char z : 0 <= z < 64 -> b64_val (b64_char z) = Some z.
Proof.
  apply (zrange_forall 64 (fun z => b64_val (b64_char z) = Some z)). vm_compute; done.
Qed.

Definition b64_safe (c : ascii) : bool :=
  is_lower c || is_upper c || is_digit c || Ascii.eqb c "-" || Ascii.eqb c "_".

Lemma b64_char_safe z : b64_safe (b64_char z) = true.
Proof.
  unfold b64_char. destruct (nth_in_or_default (Z.to_nat z) b64_alphabet "A"%char) as [H| ->]; [|done].
  apply list_elem_of_In in H. revert H. generalize (nth (Z.to_nat z) b64_alphabet "A"%char).
  by apply (proj1 (Forall_forall (fun c => b64_safe c = true) b64_alphabet)); repeat constructor.
Qed.

(** Strong induction in steps of three. *)
Lemma list_ind3 {A} (P : list A -> Prop) :
  P [] -> (forall a, P [a]) -> (forall a b, P [a; b]) ->
  (forall a b c r, P r -> P (a :: b :: c :: r)) -> forall l, P l.
Proof.
  intros H0 H1 H2 H3. fix IH 1. intros [|a [|b [|c r]]]; [done|done|done|]. apply H3, IH.
Qed.

Lemma b64_encode_safe l : Forall (fun c => b64_safe c = true) (b64_encode l).
Proof.
  induction l using list_ind3; cbn -[b64_char]; repeat constructor; try apply b64_char_safe; done.
Qed.

Lemma b64_safe_no_newline l :
  Forall (fun c => b64_safe c = true) l -> List.filter (fun c => negb (is_newline c)) l = l.
Proof.
  induction 1 as [|c l Hc _ IH]; [done|]. cbn. rewrite IH.
  assert (negb (is_newline c) = true) as ->; [|done].
  revert c Hc. by apply (all_bytes_forall (fun c => b64_safe c = true -> negb (is_newline c) = true)).
Qed.

Lemma b64_decode_encode strict l : b64_decode strict (b64_encode l) = Some l.
Proof.
  unfold b64_decode. rewrite b64_safe_no_newline by apply b64_encode_safe.
  induction l as [|a|a b|a b c r IH] using list_ind3; cbn -[b64_char b64_val]; [done|..];
    repeat match goal with x : ascii |- _ =>
      lazymatch goal with H : 0 <= bval x < 256 |- _ => fail | _ => pose proof (bval_range x) end end;
    rewrite !b64_val_char by (Z.div_mod_to_equations; lia); cbn; rewrite ?IH; cbn.
  - replace ((bval a mod 4 * 16) mod 16) with 0 by (Z.div_mod_to_equations; lia).
    rewrite andb_false_r. do 2 f_equal.
    etransitivity; [|apply byte_of_bval]. f_equal. Z.div_mod_to_equations; lia.
  - replace ((bval b mod 16 * 4) mod 4) with 0 by (Z.div_mod_to_equations; lia).
    rewrite andb_false_r. repeat f_equal;
      (etransitivity; [|apply byte_of_bval]; f_equal; Z.div_mod_to_equations; lia).
  - repeat f_equal; (etransitivity; [|apply byte_of_bval]; f_equal; Z.div_mod_to_equations; lia).
Qed.

Lemma b64_encode_inj l1 l2 : b64_encode l1 = b64_encode l2 -> l1 = l2.
Proof.
  intros H. assert (Some l1 = Some l2) as [=] by (by rewrite <-!(b64_decode_encode true), H). done.
Qed.

Lemma b64_char_val c z : b64_val c = Some z -> b64_char z = c /\ 0 <= z < 64.
Proof.
  set (good := fun z => Ascii.eqb (b64_char z) c && (0 <=? z) && (z <? 64)).
  assert (from_option good true (b64_val c) = true) as Hz.
  { unfold good. revert c good. apply (all_bytes_forall (fun c =>
      from_option (fun z => Ascii.eqb (b64_char z) c && (0 <=? z) && (z <? 64)) true (b64_val c) = true)).
    by vm_compute. }
  intros H. rewrite H in Hz. cbn in Hz. unfold good in Hz. bool_hyps. split; [|lia].
  by apply Ascii.eqb_eq.
Qed.

Lemma list_ind4 {A} (P : list A -> Prop) :
  P [] -> (forall a, P [a]) -> (forall a b, P [a; b]) -> (forall a b c, P [a; b; c]) ->
  (forall a b c d r, P r -> P (a :: b :: c :: d :: r)) -> forall l, P l.
Proof.
  intros H0 H1 H2 H3 H4. fix IH 1. intros [|a [|b [|c [|d r]]]]; [done|done|done|done|]. apply H4, IH.
Qed.

(** A strict decode is canonical: re-encoding gives the characters back. *)
Lemma b64_encode_quanta l d : b64_quanta true l = Some d -> b64_encode d = l.
Proof.
  assert (forall x y : Z, x = y -> b64_char x = b64_char y) as Hc by congruence.
  revert d. induction l as [|a|a b|a b c|a b c e r IH] using list_ind4; intros d;
    cbn -[b64_char b64_val byte_of]; intros H.
  - by injection H as <-.
  - done.
  - destruct (b64_val a) as [x|] eqn:Ea; [|done]. destruct (b64_val b) as [y|] eqn:Eb; [|done].
    cbn -[b64_char byte_of] in H. apply b64_char_val in Ea as [<- Hx], Eb as [<- Hy].
    destruct (Z.eqb_spec (y mod 16) 0); [|done]. injection H as <-. cbn -[b64_char byte_of].
    rewrite bval_byte_of_small by (Z.div_mod_to_equations; lia).
    repeat f_equal; Z.div_mod_to_equations; lia.
  - destruct (b64_val a) as [x|] eqn:Ea; [|done]. destruct (b64_val b) as [y|] eqn:Eb; [|done].
    destruct (b64_val c) as [z|] eqn:Ec; [|done].
    cbn -[b64_char byte_of] in H. apply b64_char_val in Ea as [<- Hx], Eb as [<- Hy], Ec as [<- Hz].
    destruct (Z.eqb_spec (z mod 4) 0); [|done]. injection H as <-. cbn -[b64_char byte_of].
    rewrite !bval_byte_of_small by (Z.div_mod_to_equations; lia).
    repeat f_equal; Z.div_mod_to_equations; lia.
  - destruct (b64_val a) as [x|] eqn:Ea; [|done]. destruct (b64_val b) as [y|] eqn:Eb; [|done].
    destruct (b64_val c) as [z|] eqn:Ec; [|done]. destruct (b64_val e) as [w|] eqn:Ee; [|done].
    cbn -[b64_char byte_of b64_quanta] in H. destruct (b64_quanta true r) as [t|] eqn:Er; [|done].
    apply b64_char_val in Ea as [<- Hx], Eb as [<- Hy], Ec as [<- Hz], Ee as [<- Hw].
    injection H as <-. cbn -[b64_char byte_of]. rewrite (IH t eq_refl).
    rewrite !bval_byte_of_small by (Z.div_mod_to_equations; lia).
    repeat f_equal; Z.div_mod_to_equations; lia.
Qed.

#[export] Hint Rewrite hex_decode_encode b64_decode_encode : wire.
#[export] Hint Resolve b64_encode_safe hex_encode_lower : wire.

(** ** What [strings.TrimSpace] leaves alone *)

(** Printable ASCII, which [strings.TrimSpace] leaves alone. *)
Definition graph (c : ascii) : bool := in_range c 33 126.

Lemma strip_any_head ps c l :
  forallb (fun p => match p with x :: _ => negb (Ascii.eqb x c) | [] => false end) ps = true ->
  strip_any ps (c :: l) = None.
Proof.
  induction ps as [|p ps IH]; [done|]. cbn. rewrite andb_true_iff. intros [Hp Hps].
  destruct p as [|x p]; [done|]. cbn. apply negb_true_iff in Hp. rewrite Hp. by apply IH.
Qed.

(** No sequence of [ps] starts with [c]. *)
Definition no_head (ps : list bytes) (c : ascii) : bool :=
  forallb (fun p => match p with x :: _ => negb (Ascii.eqb x c) | [] => false end) ps.

Lemma graph_not_space c : graph c = true ->
  no_head space_seqs c = true /\ no_head (map (@rev ascii) space_seqs) c = true.
Proof.
  revert c. apply (all_bytes_forall (fun c => graph c = true ->
    no_head space_seqs c = true /\ no_head (map (@rev ascii) space_seqs) c = true)).
  vm_compute. reflexivity.
Qed.

Lemma trim_left_graph ps l :
  (forall c r, l = c :: r -> strip_any ps (c :: r) = None) -> trim_left ps l = l.
Proof. intros Hl. unfold trim_left. destruct l as [|c r]; [done|]. cbn. by rewrite (Hl _ _ eq_refl). Qed.

Lemma trim_space_graph l : Forall (fun c => graph c = true) l -> trim_space_bytes l = l.
Proof.
  intros Hl. unfold trim_space_bytes.
  rewrite (trim_left_graph space_seqs), trim_left_graph; [apply rev_involutive|..].
  - intros c r E. apply strip_any_head. apply graph_not_space.
    assert (Forall (fun c => graph c = true) (rev l)) as Hr by by apply Forall_rev.
    rewrite E in Hr. by inversion Hr.
  - intros c r ->. apply strip_any_head. apply graph_not_space. by inversion Hl.
Qed.

Lemma trim_space_ends c l d :
  graph c = true -> graph d = true -> trim_space_bytes (c :: l ++ [d]) = c :: l ++ [d].
Proof.
  intros Hc Hd. unfold trim_space_bytes.
  rewrite (trim_left_graph space_seqs), trim_left_graph; [apply rev_involutive|..].
  - intros e r. rewrite app_comm_cons, rev_app_distr. change (rev [d]) with [d]. cbn [app]. intros [= <- _].
    apply strip_any_head. by apply graph_not_space.
  - intros e r [= <- _]. apply strip_any_head. by apply graph_not_space.
Qed.
