(* ===== verification/GoHash.v ===== *)
(** * GoHash: [crypto/sha256] and [crypto/hkdf]

    SHA-256 (FIPS 180-4), HMAC (RFC 2104) and HKDF (RFC 5869) as executable
    functions on bytes, with the output lengths the protocol relies on. The
    theorems that need collision resistance are stated as reductions: they
    produce a pair of distinct inputs with the same digest. *)

From S2P Require Import Prelude GoBytes.

(** ** 32-bit words *)

Definition w32 (z : Z) : Z := Z.land z 4294967295.
Definition add32 (x y : Z) : Z := w32 (x + y).
Definition rotr (n x : Z) : Z := Z.lor (Z.shiftr x n) (w32 (Z.shiftl x (32 - n))).
Definition not32 (x : Z) : Z := Z.lxor x 4294967295.

Definition Ch (x y z : Z) : Z := Z.lxor (Z.land x y) (Z.land (not32 x) z).
Definition Maj (x y z : Z) : Z := Z.lxor (Z.lxor (Z.land x y) (Z.land x z)) (Z.land y z).
Definition Sigma0 (x : Z) : Z := Z.lxor (Z.lxor (rotr 2 x) (rotr 13 x)) (rotr 22 x).
Definition Sigma1 (x : Z) : Z := Z.lxor (Z.lxor (rotr 6 x) (rotr 11 x)) (rotr 25 x).
Definition sigma0 (x : Z) : Z := Z.lxor (Z.lxor (rotr 7 x) (rotr 18 x)) (Z.shiftr x 3).
Definition sigma1 (x : Z) : Z := Z.lxor (Z.lxor (rotr 17 x) (rotr 19 x)) (Z.shiftr x 10).

(** FIPS 180-4 takes its constants from the first primes: thirty-two bits of the
    fractional parts of their cube roots (the round constants) and, for the first
    eight, of their square roots (the initial state). *)
Definition is_prime (n : Z) : bool :=
  forallb (fun d => negb (n mod d =? 0)) (map Z.of_nat (seq 2 (Z.to_nat n - 2))).
Definition primes : list Z :=
  Eval vm_compute in List.filter is_prime (map Z.of_nat (seq 2 310)).

(** The integer cube root of a number below 2^105, bit by bit. *)
Definition cbrt (n : Z) : Z :=
  fold_left (fun r b => let r' := r + 2 ^ Z.of_nat b in if r' * r' * r' <=? n then r' else r)
    (rev (seq 0 35)) 0.

Definition sha_k : list Z := Eval vm_compute in map (fun p => w32 (cbrt (p * 2 ^ 96))) primes.

(** The eight working variables. *)
Record sha_state := St { sa : Z; sb : Z; sc : Z; sd : Z; se : Z; sf : Z; sg : Z; sh : Z }.

Definition sha_init : sha_state :=
  match map (fun p => w32 (Z.sqrt (p * 2 ^ 64))) (take 8 primes) with
  | [a; b; c; d; e; f; g; h] => St a b c d e f g h
  | _ => St 0 0 0 0 0 0 0 0
  end.

Definition sha_round (s : sha_state) (kw : Z * Z) : sha_state :=
  let t1 := add32 (add32 (add32 (sh s) (Sigma1 (se s))) (Ch (se s) (sf s) (sg s)))
                  (add32 kw.1 kw.2) in
  let t2 := add32 (Sigma0 (sa s)) (Maj (sa s) (sb s) (sc s)) in
  St (add32 t1 t2) (sa s) (sb s) (sc s) (add32 (sd s) t1) (se s) (sf s) (sg s).

(** The message schedule: [w] holds the last 16 words, oldest first. *)
Fixpoint sha_schedule (n : nat) (w : list Z) : list Z :=
  match n with
  | O => w
  | S n =>
      match w with
      | x0 :: rest =>
          let nx := add32 (add32 (sigma1 (nth 13 rest 0)) (nth 8 rest 0))
                          (add32 (sigma0 (nth 0 rest 0)) x0) in
          x0 :: sha_schedule n (rest ++ [nx])
      | [] => []
      end
  end.

Definition word_be (b : bytes) : Z := fold_left (fun acc c => 256 * acc + bval c) b 0.

Fixpoint words_be (n : nat) (b : bytes) : list Z :=
  match n with O => [] | S n => word_be (take 4 b) :: words_be n (drop 4 b) end.

Definition sha_add (s t : sha_state) : sha_state :=
  St (add32 (sa s) (sa t)) (add32 (sb s) (sb t)) (add32 (sc s) (sc t)) (add32 (sd s) (sd t))
     (add32 (se s) (se t)) (add32 (sf s) (sf t)) (add32 (sg s) (sg t)) (add32 (sh s) (sh t)).

Definition sha_block (s : sha_state) (b : bytes) : sha_state :=
  sha_add s (fold_left sha_round (zip sha_k (sha_schedule 48 (words_be 16 b))) s).

Fixpoint sha_blocks (n : nat) (s : sha_state) (b : bytes) : sha_state :=
  match n with O => s | S n => sha_blocks n (sha_block s (take 64 b)) (drop 64 b) end.

(** Big-endian encodings. *)
Fixpoint be_bytes (n : nat) (z : Z) : bytes :=
  match n with O => [] | S n => be_bytes n (z / 256) ++ [byte_of z] end.

Definition sha_pad (m : bytes) : bytes :=
  let len := Z.of_nat (length m) in
  m ++ byte_of 128 :: repeat (byte_of 0) (Z.to_nat ((55 - len) mod 64)) ++ be_bytes 8 (8 * len).

Definition sha_out (s : sha_state) : bytes :=
  be_bytes 4 (sa s) ++ be_bytes 4 (sb s) ++ be_bytes 4 (sc s) ++ be_bytes 4 (sd s) ++
  be_bytes 4 (se s) ++ be_bytes 4 (sf s) ++ be_bytes 4 (sg s) ++ be_bytes 4 (sh s).

(** [sha256.Sum256]. *)
Definition sha256 (m : bytes) : bytes :=
  let p := sha_pad m in sha_out (sha_blocks (Nat.div (length p) 64) sha_init p).

Lemma be_bytes_length n z : length (be_bytes n z) = n.
Proof. revert z. induction n; intros; cbn; [done|]. rewrite length_app, IHn. cbn. lia. Qed.

Lemma sha256_length m : length (sha256 m) = 32%nat.
Proof. unfold sha256, sha_out. by rewrite !length_app, !be_bytes_length. Qed.

#[global] Opaque sha256.

(** ** HMAC and HKDF over SHA-256 *)

Definition xor_bytes (k : Z) (b : bytes) : bytes := map (fun c => byte_of (Z.lxor k (bval c))) b.

Definition hmac_key (k : bytes) : bytes :=
  let k := if Nat.ltb 64 (length k) then sha256 k else k in
  k ++ repeat (byte_of 0) (64 - length k).

Definition hmac (k m : bytes) : bytes :=
  sha256 (xor_bytes 92 (hmac_key k) ++ sha256 (xor_bytes 54 (hmac_key k) ++ m)).

Lemma hmac_length k m : length (hmac k m) = 32%nat.
Proof. apply sha256_length. Qed.

(** A nil salt is a string of zeros of the hash's length. *)
Definition hkdf_extract (secret salt : bytes) : bytes :=
  hmac (match salt with [] => repeat (byte_of 0) 32 | _ => salt end) secret.

Fixpoint hkdf_blocks (n : nat) (i : Z) (prk prev info : bytes) : bytes :=
  match n with
  | O => []
  | S n => let t := hmac prk (prev ++ info ++ [byte_of i]) in
           t ++ hkdf_blocks n (i + 1) prk t info
  end.

Lemma hkdf_blocks_length n i prk prev info :
  length (hkdf_blocks n i prk prev info) = (32 * n)%nat.
Proof.
  revert i prev. induction n; intros; cbn [hkdf_blocks]; [done|].
  rewrite length_app, hmac_length, IHn. lia.
Qed.

(** [hkdf.Key(sha256.New, secret, salt, info, keyLength)] for a length within the
    [255 * 32] bytes the standard allows. *)
Definition hkdf_key (secret salt info : bytes) (len : nat) : bytes :=
  take len (hkdf_blocks (Nat.div (len + 31) 32) 1 (hkdf_extract secret salt) [] info).

Lemma hkdf_key_length secret salt info len : length (hkdf_key secret salt info len) = len.
Proof.
  unfold hkdf_key. rewrite length_take, hkdf_blocks_length.
  pose proof (Nat.div_mod_eq (len + 31) 32). pose proof (Nat.mod_upper_bound (len + 31) 32). lia.
Qed.

#[global] Opaque hkdf_key.

(** What a theorem that compares digests assumes of SHA-256: it does not collide on
    the messages of a given list. *)
Definition collision_free (l : list bytes) : Prop :=
  Forall (fun x => Forall (fun y => sha256 x = sha256 y -> x = y) l) l.

Lemma collision_free_eq l x y :
  collision_free l -> x ∈ l -> y ∈ l -> sha256 x = sha256 y -> x = y.
Proof.
  unfold collision_free. rewrite Forall_forall. intros Hl Hx Hy.
  specialize (Hl _ Hx). rewrite Forall_forall in Hl. by apply Hl.
Qed.

(** The same, checked with one digest per message. *)
Definition distinct_digests (l : list bytes) : bool :=
  let ps := map (fun x => (x, sha256 x)) l in
  forallb (fun p => forallb (fun q => negb (bool_decide (p.2 = q.2)) || bool_decide (p.1 = q.1)) ps) ps.

Lemma distinct_digests_ok l : distinct_digests l = true -> collision_free l.
Proof.
  unfold distinct_digests, collision_free. rewrite forallb_forall, Forall_forall. intros Hl x Hx.
  apply Forall_forall. intros y Hy E.
  assert (forall z, z ∈ l -> In (z, sha256 z) (map (fun x => (x, sha256 x)) l)) as Hin
    by (intros z Hz; apply in_map_iff; exists z; split; [done|by apply list_elem_of_In]).
  specialize (Hl _ (Hin _ Hx)). rewrite forallb_forall in Hl. specialize (Hl _ (Hin _ Hy)). cbn [fst snd] in Hl.
  rewrite (bool_decide_eq_true_2 _ E) in Hl. by apply bool_decide_eq_true_1 in Hl.
Qed.
