(* ===== verification/GoJson.v ===== *)
(** * GoJson: the part of Go's [encoding/json] the protocol uses

    A [json.RawMessage] is modelled by its token tree [json]: white space between
    tokens is dropped, and every string and number keeps its spelling, so that what
    [json.Marshal] writes back ([print] of [compact]) is the text Go writes. The
    file holds the scanner ([parse]), the writer ([print]), the string codec
    ([quote], [unquote]), [Unmarshal] into each Go type the program decodes into,
    and the two round trips: [parse (print j) = j] and [unquote (quote s) = s]. *)

From S2P Require Import Prelude GoBytes.

(** ** Token trees *)

#[warnings="-register-all"]
Inductive json :=
| JNull
| JBool (b : bool)
| JNum (lit : bytes)                     (* the literal's characters *)
| JStr (raw : bytes)                     (* the spelling between the quotes *)
| JArr (l : list json)
| JObj (l : list (bytes * json)).        (* members in source order, keys as spelled *)

Section json_induction.
Context (P : json -> Prop).
Context (Hnull : P JNull) (Hbool : forall b, P (JBool b)).
Context (Hnum : forall l, P (JNum l)) (Hstr : forall r, P (JStr r)).
Context (Harr : forall l, Forall P l -> P (JArr l)).
Context (Hobj : forall l, Forall (fun kv => P kv.2) l -> P (JObj l)).

Fixpoint json_rect' (j : json) : P j :=
  match j with
  | JNull => Hnull
  | JBool b => Hbool b
  | JNum l => Hnum l
  | JStr r => Hstr r
  | JArr l => Harr l ((fix go (l : list json) : Forall P l :=
      match l with
      | [] => List.Forall_nil _
      | j :: l => List.Forall_cons _ _ _ (json_rect' j) (go l)
      end) l)
  | JObj l => Hobj l ((fix go (l : list (bytes * json)) : Forall (fun kv => P kv.2) l :=
      match l with
      | [] => List.Forall_nil _
      | kv :: l => List.Forall_cons _ _ _ (json_rect' kv.2) (go l)
      end) l)
  end.
End json_induction.

#[export] Instance json_eq_dec : EqDecision json.
Proof.
  refine (fix go (x y : json) : Decision (x = y) :=
    match x, y with
    | JNull, JNull => left eq_refl
    | JBool a, JBool b => cast_if (decide (a = b))
    | JNum a, JNum b => cast_if (decide (a = b))
    | JStr a, JStr b => cast_if (decide (a = b))
    | JArr a, JArr b => cast_if (@decide (a = b) (@list_eq_dec _ go a b))
    | JObj a, JObj b =>
        cast_if (@decide (a = b) (@list_eq_dec _ (fun p q =>
          match p, q with
          | (k1, v1), (k2, v2) =>
              match decide (k1 = k2), go v1 v2 with
              | left _, left _ => left _
              | _, _ => right _
              end
          end) a b))
    | _, _ => right _
    end); abstract congruence.
Defined.

(** ** Lexical level *)

Definition quote_char : ascii := Ascii false true false false false true false false.
Definition backslash : ascii := "\"%char.

Definition is_ws (c : ascii) : bool :=
  (bval c =? 32) || (bval c =? 9) || (bval c =? 10) || (bval c =? 13).

Fixpoint skip_ws (l : bytes) : bytes :=
  match l with
  | c :: r => if is_ws c then skip_ws r else l
  | [] => []
  end.

Definition is_hex (c : ascii) : bool := match hex_val c with Some _ => true | None => false end.

(** One-letter escapes and the byte each stands for. *)
Definition escape_val (c : ascii) : option ascii :=
  if Ascii.eqb c quote_char then Some quote_char
  else if Ascii.eqb c backslash then Some backslash
  else if Ascii.eqb c "/" then Some "/"%char
  else if Ascii.eqb c "b" then Some (byte_of 8)
  else if Ascii.eqb c "f" then Some (byte_of 12)
  else if Ascii.eqb c "n" then Some (byte_of 10)
  else if Ascii.eqb c "r" then Some (byte_of 13)
  else if Ascii.eqb c "t" then Some (byte_of 9)
  else None.

Definition prepend (p : bytes) (o : option (bytes * bytes)) : option (bytes * bytes) :=
  match o with Some (a, b) => Some (p ++ a, b) | None => None end.

(** After an opening quote: the spelling up to the closing quote, and the rest. *)
Fixpoint scan_str (l : bytes) : option (bytes * bytes) :=
  match l with
  | [] => None
  | c :: l =>
      if Ascii.eqb c quote_char then Some ([], l)
      else if Ascii.eqb c backslash then
        match l with
        | e :: l =>
            if Ascii.eqb e "u" then
              match l with
              | h1 :: h2 :: h3 :: h4 :: l =>
                  if is_hex h1 && is_hex h2 && is_hex h3 && is_hex h4
                  then prepend [c; e; h1; h2; h3; h4] (scan_str l) else None
              | _ => None
              end
            else match escape_val e with
                 | Some _ => prepend [c; e] (scan_str l)
                 | None => None
                 end
        | [] => None
        end
      else if bval c <? 32 then None
      else prepend [c] (scan_str l)
  end.

Fixpoint span_digits (l : bytes) : bytes * bytes :=
  match l with
  | c :: r => if is_digit c then let '(a, b) := span_digits r in (c :: a, b) else ([], l)
  | [] => ([], [])
  end.

Definition scan_sign (l : bytes) : bytes * bytes :=
  match l with c :: r => if Ascii.eqb c "-" then ([c], r) else ([], l) | [] => ([], []) end.

Definition scan_int (l : bytes) : option (bytes * bytes) :=
  match l with
  | c :: r =>
      if Ascii.eqb c "0" then Some ([c], r)
      else if is_digit c then Some (span_digits l)
      else None
  | [] => None
  end.

Definition scan_frac (l : bytes) : option (bytes * bytes) :=
  match l with
  | c :: r =>
      if Ascii.eqb c "." then
        let '(ds, r) := span_digits r in
        if bool_decide (ds = []) then None else Some (c :: ds, r)
      else Some ([], l)
  | [] => Some ([], [])
  end.

Definition scan_exp_digits (p l : bytes) : option (bytes * bytes) :=
  let '(ds, r) := span_digits l in
  if bool_decide (ds = []) then None else Some (p ++ ds, r).

Definition scan_exp (l : bytes) : option (bytes * bytes) :=
  match l with
  | c :: r =>
      if Ascii.eqb c "e" || Ascii.eqb c "E" then
        match r with
        | s :: r' => if Ascii.eqb s "+" || Ascii.eqb s "-"
                     then scan_exp_digits [c; s] r' else scan_exp_digits [c] r
        | [] => None
        end
      else Some ([], l)
  | [] => Some ([], [])
  end.

(** A number literal: sign, integer part without leading zeros, fraction, exponent. *)
Definition scan_num (l : bytes) : option (bytes * bytes) :=
  let '(sg, l) := scan_sign l in
  '(ip, l) ← scan_int l;
  '(fp, l) ← scan_frac l;
  '(ep, l) ← scan_exp l;
  Some (sg ++ ip ++ fp ++ ep, l).

Definition num_ok (lit : bytes) : bool := bool_decide (scan_num lit = Some (lit, [])).
Definition str_ok (raw : bytes) : bool :=
  bool_decide (scan_str (raw ++ [quote_char]) = Some (raw, [])).

(** ** Values *)

Definition expect (w : string) (j : json) (l : bytes) : option (json * bytes) :=
  match strip_prefix (bytes_of w) l with Some r => Some (j, r) | None => None end.

Section parse_step.
Context (pval : bytes -> option (json * bytes)).

Fixpoint pelems (n : nat) (l : bytes) : option (list json * bytes) :=
  match n with
  | O => None
  | S n =>
      '(v, r) ← pval l;
      match skip_ws r with
      | c :: r =>
          if Ascii.eqb c "," then '(vs, r) ← pelems n r; Some (v :: vs, r)
          else if Ascii.eqb c "]" then Some ([v], r)
          else None
      | [] => None
      end
  end.

Fixpoint pmembers (n : nat) (l : bytes) : option (list (bytes * json) * bytes) :=
  match n with
  | O => None
  | S n =>
      match skip_ws l with
      | c :: r =>
          if Ascii.eqb c quote_char then
            '(k, r) ← scan_str r;
            match skip_ws r with
            | c :: r =>
                if Ascii.eqb c ":" then
                  '(v, r) ← pval r;
                  match skip_ws r with
                  | c :: r =>
                      if Ascii.eqb c "," then '(ms, r) ← pmembers n r; Some ((k, v) :: ms, r)
                      else if Ascii.eqb c "}" then Some ([(k, v)], r)
                      else None
                  | [] => None
                  end
                else None
            | [] => None
            end
          else None
      | [] => None
      end
  end.
End parse_step.

Fixpoint pval (n : nat) (l : bytes) : option (json * bytes) :=
  match n with
  | O => None
  | S n =>
      match skip_ws l with
      | [] => None
      | c :: r =>
          if Ascii.eqb c quote_char then '(raw, r) ← scan_str r; Some (JStr raw, r)
          else if Ascii.eqb c "[" then
            match skip_ws r with
            | c' :: r' =>
                if Ascii.eqb c' "]" then Some (JArr [], r')
                else '(vs, r) ← pelems (pval n) n r; Some (JArr vs, r)
            | [] => None
            end
          else if Ascii.eqb c "{" then
            match skip_ws r with
            | c' :: r' =>
                if Ascii.eqb c' "}" then Some (JObj [], r')
                else '(ms, r) ← pmembers (pval n) n r; Some (JObj ms, r)
            | [] => None
            end
          else if Ascii.eqb c "n" then expect "null" JNull (c :: r)
          else if Ascii.eqb c "t" then expect "true" (JBool true) (c :: r)
          else if Ascii.eqb c "f" then expect "false" (JBool false) (c :: r)
          else '(lit, r) ← scan_num (c :: r); Some (JNum lit, r)
      end
  end.

(** Nesting depth; the scanner refuses more than [maxNestingDepth] levels. *)
Fixpoint jdepth (j : json) : N :=
  match j with
  | JArr l => 1 + fold_right (fun v acc => N.max (jdepth v) acc) 0%N l
  | JObj l => 1 + fold_right (fun kv acc => N.max (jdepth kv.2) acc) 0%N l
  | _ => 0
  end%N.

Definition maxNestingDepth : N := 10000.

(** A whole JSON text, as [json.Unmarshal]'s validity pass reads it. *)
Definition parse (l : bytes) : option json :=
  '(j, r) ← pval (S (length l)) l;
  if bool_decide (skip_ws r = []) && (jdepth j <=? maxNestingDepth)%N then Some j else None.

(** ** Writing *)

Fixpoint join (sep : bytes) (l : list bytes) : bytes :=
  match l with
  | [] => []
  | [x] => x
  | x :: l => x ++ sep ++ join sep l
  end.

Definition quoted (raw : bytes) : bytes := quote_char :: raw ++ [quote_char].

Fixpoint print (j : json) : bytes :=
  match j with
  | JNull => bytes_of "null"
  | JBool true => bytes_of "true"
  | JBool false => bytes_of "false"
  | JNum lit => lit
  | JStr raw => quoted raw
  | JArr l => bytes_of "[" ++ join (bytes_of ",") (map print l) ++ bytes_of "]"
  | JObj l =>
      bytes_of "{" ++
      join (bytes_of ",") (map (fun kv => quoted kv.1 ++ bytes_of ":" ++ print kv.2) l) ++
      bytes_of "}"
  end.

(** Go's HTML-safe rewriting of the bytes of a raw message: [<], [>], [&] and the
    line separators U+2028 and U+2029 become [\u] escapes. *)
Fixpoint esc_html (l : bytes) : bytes :=
  match l with
  | [] => []
  | c :: r =>
      if Ascii.eqb c "<" then bytes_of "\u003c" ++ esc_html r
      else if Ascii.eqb c ">" then bytes_of "\u003e" ++ esc_html r
      else if Ascii.eqb c "&" then bytes_of "\u0026" ++ esc_html r
      else
        match r with
        | d :: e :: r' =>
            if (bval c =? 226) && (bval d =? 128) && (bval e =? 168)
            then bytes_of "\u2028" ++ esc_html r'
            else if (bval c =? 226) && (bval d =? 128) && (bval e =? 169)
            then bytes_of "\u2029" ++ esc_html r'
            else c :: esc_html r
        | _ => c :: esc_html r
        end
  end.

Fixpoint compact (j : json) : json :=
  match j with
  | JStr raw => JStr (esc_html raw)
  | JArr l => JArr (map compact l)
  | JObj l => JObj (map (fun kv => (esc_html kv.1, compact kv.2)) l)
  | _ => j
  end.

(** The trees that are the reading of some text: well-spelled tokens. *)
Fixpoint wf (j : json) : bool :=
  match j with
  | JNum lit => num_ok lit
  | JStr raw => str_ok raw
  | JArr l => forallb wf l
  | JObj l => forallb (fun kv => str_ok kv.1 && wf kv.2) l
  | _ => true
  end.

(** ** The scanner reads back what the writer writes *)

(** Extending the input after a scanned token does not change the token. *)
Lemma scan_str_ext l raw r X :
  scan_str l = Some (raw, r) -> scan_str (l ++ X) = Some (raw, r ++ X).
Proof.
  revert raw r. induction l as [l IH] using (induction_ltof1 _ length). unfold ltof in IH.
  intros raw r. destruct l as [|c l]; [done|].
  assert (forall p k, (length k < length (c :: l))%nat -> prepend p (scan_str k) = Some (raw, r) ->
    prepend p (scan_str (k ++ X)) = Some (raw, r ++ X)) as Hp.
  { intros p k Hk. destruct (scan_str k) as [[a b]|] eqn:E; cbn; [|done].
    intros [= <- <-]. by rewrite (IH _ Hk _ _ E). }
  cbn [scan_str app]. destruct (Ascii.eqb c quote_char); [by intros [= <- <-]|].
  destruct (Ascii.eqb c backslash).
  - destruct l as [|e l]; [done|]. cbn [app]. destruct (Ascii.eqb e "u").
    + destruct l as [|h1 [|h2 [|h3 [|h4 l]]]]; try done. cbn [app].
      destruct (is_hex h1 && is_hex h2 && is_hex h3 && is_hex h4); [|done].
      apply Hp. cbn. lia.
    + destruct (escape_val e); [|done]. apply Hp. cbn. lia.
  - destruct (bval c <? 32); [done|]. apply Hp. cbn. lia.
Qed.

Lemma scan_str_quoted raw X :
  str_ok raw = true -> scan_str (raw ++ quote_char :: X) = Some (raw, X).
Proof.
  intros H%bool_decide_eq_true_1. apply (scan_str_ext _ _ _ X) in H.
  by rewrite <-app_assoc in H.
Qed.

(** A context in which a number literal ends. *)
Definition num_stop (l : bytes) : bool :=
  match l with
  | [] => true
  | c :: _ => negb (is_digit c || Ascii.eqb c "." || Ascii.eqb c "e" || Ascii.eqb c "E")
  end.

Section num_ext.
Context (X : bytes) (HX : num_stop X = true).

Lemma span_digits_ext l a r : span_digits l = (a, r) -> span_digits (l ++ X) = (a, r ++ X).
Proof using HX.
  revert a r. induction l as [|c l IH]; intros a r; cbn.
  - intros [= <- <-]. destruct X as [|x X']; [done|]. cbn in *.
    apply negb_true_iff in HX. by repeat (apply orb_false_iff in HX as [HX ?]; rewrite ?HX).
  - destruct (is_digit c); [|by intros [= <- <-]].
    destruct (span_digits l) as [a' b'] eqn:E. rewrite (IH _ _ eq_refl). by intros [= <- <-].
Qed.

Lemma scan_int_ext l a r : scan_int l = Some (a, r) -> scan_int (l ++ X) = Some (a, r ++ X).
Proof using HX.
  destruct l as [|c l]; [done|]. unfold scan_int. cbn [app].
  destruct (Ascii.eqb c "0"); [by intros [= <- <-]|].
  destruct (is_digit c); [|done]. intros H. apply (inj Some) in H.
  change (c :: l ++ X) with ((c :: l) ++ X). by rewrite (span_digits_ext _ _ _ H).
Qed.

Lemma scan_frac_ext l a r : scan_frac l = Some (a, r) -> scan_frac (l ++ X) = Some (a, r ++ X).
Proof using HX.
  destruct l as [|c l]; cbn.
  - intros [= <- <-]. destruct X as [|x X']; [done|]. cbn in *.
    by destruct (Ascii.eqb x "."); [rewrite orb_true_r in HX|].
  - destruct (Ascii.eqb c "."); [|by intros [= <- <-]].
    destruct (span_digits l) as [ds b] eqn:E. rewrite (span_digits_ext _ _ _ E).
    destruct (bool_decide (ds = [])); [done|]. by intros [= <- <-].
Qed.

Lemma scan_exp_digits_ext p l a r :
  scan_exp_digits p l = Some (a, r) -> scan_exp_digits p (l ++ X) = Some (a, r ++ X).
Proof using HX.
  unfold scan_exp_digits. destruct (span_digits l) as [ds b] eqn:E.
  rewrite (span_digits_ext _ _ _ E). destruct (bool_decide (ds = [])); [done|].
  by intros [= <- <-].
Qed.

Lemma scan_exp_ext l a r : scan_exp l = Some (a, r) -> scan_exp (l ++ X) = Some (a, r ++ X).
Proof using HX.
  destruct l as [|c l]; cbn.
  - intros [= <- <-]. destruct X as [|x X']; [done|]. cbn in *.
    destruct (Ascii.eqb x "e"), (Ascii.eqb x "E"); rewrite ?orb_true_r in HX; done.
  - destruct (Ascii.eqb c "e" || Ascii.eqb c "E"); [|by intros [= <- <-]].
    destruct l as [|s l]; [done|]. cbn [app].
    destruct (Ascii.eqb s "+" || Ascii.eqb s "-"); intros H.
    + by apply scan_exp_digits_ext.
    + by apply (scan_exp_digits_ext _ (s :: l)).
Qed.

Lemma scan_num_ext l a r : scan_num l = Some (a, r) -> scan_num (l ++ X) = Some (a, r ++ X).
Proof using HX.
  unfold scan_num. destruct l as [|c l]; [done|]. cbn [app scan_sign].
  assert (forall sg k, ('(ip, l) ← scan_int k; '(fp, l) ← scan_frac l; '(ep, l) ← scan_exp l;
    Some (sg ++ ip ++ fp ++ ep, l)) = Some (a, r) ->
    ('(ip, l) ← scan_int (k ++ X); '(fp, l) ← scan_frac l; '(ep, l) ← scan_exp l;
    Some (sg ++ ip ++ fp ++ ep, l)) = Some (a, r ++ X)) as Hk.
  { intros sg k. destruct (scan_int k) as [[ip l1]|] eqn:E1; cbn; [|done].
    destruct (scan_frac l1) as [[fp l2]|] eqn:E2; cbn; [|done].
    destruct (scan_exp l2) as [[ep l3]|] eqn:E3; cbn; [|done]. intros [= <- <-].
    rewrite (scan_int_ext _ _ _ E1); cbn. rewrite (scan_frac_ext _ _ _ E2); cbn.
    by rewrite (scan_exp_ext _ _ _ E3). }
  destruct (Ascii.eqb c "-"); [apply Hk|apply (Hk [] (c :: l))].
Qed.
End num_ext.

Lemma scan_num_lit lit X :
  num_ok lit = true -> num_stop X = true -> scan_num (lit ++ X) = Some (lit, X).
Proof. intros H%bool_decide_eq_true_1 HX. by apply (scan_num_ext X HX) in H. Qed.

Definition num_start (c : ascii) : bool := is_digit c || Ascii.eqb c "-".

Lemma num_ok_head lit : num_ok lit = true -> exists c r, lit = c :: r /\ num_start c = true.
Proof.
  intros H%bool_decide_eq_true_1. destruct lit as [|c r]; [done|]. exists c, r. split; [done|].
  revert H. unfold scan_num, scan_sign, num_start. destruct (Ascii.eqb c "-") eqn:E; cbn.
  - by rewrite orb_true_r.
  - destruct (Ascii.eqb_spec c "0"); [by subst|]. destruct (is_digit c); done.
Qed.

(** The first byte of a printed value. *)
Definition value_start (c : ascii) : bool :=
  num_start c || Ascii.eqb c quote_char || Ascii.eqb c "[" || Ascii.eqb c "{" ||
  Ascii.eqb c "n" || Ascii.eqb c "t" || Ascii.eqb c "f".

Lemma print_head j : wf j = true -> exists c r, print j = c :: r /\ value_start c = true.
Proof.
  destruct j as [|[]|lit|raw|l|l]; cbn; intros H; try (by eexists _, _).
  apply num_ok_head in H as (c & r & -> & Hc). exists c, r. split; [done|].
  unfold value_start. by rewrite Hc.
Qed.

Lemma value_start_ok c : value_start c = true ->
  is_ws c = false /\ Ascii.eqb c "]" = false /\ Ascii.eqb c "}" = false.
Proof.
  apply (all_bytes_forall (fun c => value_start c = true ->
    is_ws c = false /\ Ascii.eqb c "]" = false /\ Ascii.eqb c "}" = false)). by vm_compute.
Qed.

Lemma num_start_ok c : num_start c = true ->
  is_ws c = false /\ Ascii.eqb c quote_char = false /\ Ascii.eqb c "[" = false /\
  Ascii.eqb c "{" = false /\ Ascii.eqb c "n" = false /\ Ascii.eqb c "t" = false /\
  Ascii.eqb c "f" = false.
Proof.
  apply (all_bytes_forall (fun c => num_start c = true ->
    is_ws c = false /\ Ascii.eqb c quote_char = false /\ Ascii.eqb c "[" = false /\
    Ascii.eqb c "{" = false /\ Ascii.eqb c "n" = false /\ Ascii.eqb c "t" = false /\
    Ascii.eqb c "f" = false)). by vm_compute.
Qed.

Lemma skip_ws_print j X : wf j = true -> skip_ws (print j ++ X) = print j ++ X.
Proof.
  intros (c & r & -> & Hc)%print_head. cbn. by destruct (value_start_ok c Hc) as (-> & _).
Qed.

(** Fuel that suffices to read a value back. *)
Fixpoint jsize (j : json) : nat :=
  match j with
  | JArr l => S (fold_right (fun v acc => S (jsize v + acc)) O l)
  | JObj l => S (fold_right (fun kv acc => S (jsize kv.2 + acc)) O l)
  | _ => 1
  end.

Lemma join_length_ge {A} (f : A -> bytes) (g : A -> nat) sep l :
  Forall (fun x => (g x <= length (f x))%nat) l -> length sep = 1%nat ->
  (fold_right (fun x acc => S (g x + acc)) 0 l <= S (length (join sep (map f l))))%nat.
Proof.
  intros H Hs. induction H as [|x l Hx _ IH]; [cbn; lia|].
  destruct l as [|y l]; cbn in *; [lia|]. rewrite !length_app. lia.
Qed.

Lemma jsize_print j : wf j = true -> (jsize j <= length (print j))%nat.
Proof.
  induction j as [|b|lit|raw|l IH|l IH] using json_rect'; cbn; intros H.
  - lia.
  - destruct b; cbn; lia.
  - apply num_ok_head in H as (c & r & -> & _). cbn. lia.
  - lia.
  - rewrite length_app. cbn.
    assert (Forall (fun v => (jsize v <= length (print v))%nat) l) as Hl.
    { apply Forall_forall. intros v Hv. rewrite Forall_forall in IH. apply IH; [done|].
      rewrite forallb_forall in H. by apply H, list_elem_of_In. }
    pose proof (join_length_ge print jsize (bytes_of ",") l Hl eq_refl). cbn in *. lia.
  - rewrite length_app. cbn.
    assert (Forall (fun kv => (jsize kv.2 <=
      length (quoted kv.1 ++ bytes_of ":" ++ print kv.2))%nat) l) as Hl.
    { apply Forall_forall. intros kv Hv. rewrite Forall_forall in IH. specialize (IH kv Hv).
      rewrite forallb_forall in H. specialize (H kv). apply list_elem_of_In in Hv.
      apply H in Hv. bool_hyps. cbn. rewrite !length_app. cbn. specialize (IH ltac:(done)). lia. }
    pose proof (join_length_ge (fun kv => quoted kv.1 ++ bytes_of ":" ++ print kv.2)
      (fun kv => jsize kv.2) (bytes_of ",") l Hl eq_refl). cbn in *. lia.
Qed.

(** Computes the white-space tests on literal bytes. *)
Ltac no_ws :=
  repeat match goal with |- context [is_ws ?c] => replace (is_ws c) with false by done end; cbn.

(** Reading a value back in front of any context that ends it. *)
Definition reads_back (pv : bytes -> option (json * bytes)) (v : json) : Prop :=
  wf v = true /\ forall X, num_stop X = true -> pv (print v ++ X) = Some (v, X).

Lemma pelems_join pv l n X :
  l <> [] -> Forall (reads_back pv) l -> (length l <= n)%nat ->
  pelems pv n (join (bytes_of ",") (map print l) ++ "]"%char :: X) = Some (l, X).
Proof.
  intros Hne H. revert n Hne. induction H as [|v l [Hw Hv] _ IH]; intros n Hne Hn; [done|].
  destruct n as [|n]; [cbn in Hn; lia|]. destruct l as [|w l].
  - cbn. rewrite Hv by done. done.
  - cbn in Hn. specialize (IH n ltac:(done) ltac:(cbn; lia)).
    change (join (bytes_of ",") (map print (v :: w :: l)))
      with (print v ++ bytes_of "," ++ join (bytes_of ",") (map print (w :: l))).
    generalize dependent (join (bytes_of ",") (map print (w :: l))). intros J IH.
    rewrite <-!app_assoc. cbn [pelems]. rewrite Hv by done. cbn.
    no_ws. by rewrite IH.
Qed.

Lemma pmembers_join pv (l : list (bytes * json)) n X :
  l <> [] -> Forall (fun kv => str_ok kv.1 = true /\ reads_back pv kv.2) l -> (length l <= n)%nat ->
  pmembers pv n (join (bytes_of ",") (map (fun kv => quoted kv.1 ++ bytes_of ":" ++ print kv.2) l)
    ++ "}"%char :: X) = Some (l, X).
Proof.
  intros Hne H. revert n Hne. induction H as [|[k v] l (Hk & Hw & Hv) _ IH]; intros n Hne Hn; [done|].
  destruct n as [|n]; [cbn in Hn; lia|].
  destruct l as [|kv' l].
  - cbn. rewrite <-!app_assoc. cbn. no_ws. rewrite scan_str_quoted by done. cbn. no_ws.
    rewrite Hv by done. done.
  - cbn in Hn. specialize (IH n ltac:(done) ltac:(cbn; lia)).
    set (f := fun kv : bytes * json => _ ++ _ ++ print kv.2) in *.
    change (join (bytes_of ",") (map f ((k, v) :: kv' :: l)))
      with (f (k, v) ++ bytes_of "," ++ join (bytes_of ",") (map f (kv' :: l))).
    generalize dependent (join (bytes_of ",") (map f (kv' :: l))). intros J IH.
    unfold f, quoted. cbn [fst snd app pmembers skip_ws].
    rewrite <-!app_assoc. cbn [app]. no_ws. rewrite scan_str_quoted by done. cbn. no_ws.
    rewrite Hv by done. cbn. no_ws. by rewrite IH.
Qed.

Lemma fold_size_ge {A} (g : A -> nat) l n :
  (fold_right (fun x acc => S (g x + acc)) 0 l <= n)%nat ->
  (length l <= n)%nat /\ Forall (fun x => (g x <= n)%nat) l.
Proof.
  revert n. induction l as [|x l IH]; intros n; cbn; [split; [lia|constructor]|].
  intros H. destruct (IH (n - 1)%nat) as [H1 H2]; [lia|]. split; [lia|].
  constructor; [lia|]. eapply Forall_impl; [done|]. cbn. lia.
Qed.

Lemma pval_arr n c r :
  is_ws c = false -> Ascii.eqb c "]" = false ->
  pval (S n) ("["%char :: c :: r) =
  ('(vs, r) ← pelems (pval n) n (c :: r); Some (JArr vs, r)).
Proof. intros Hw Hb. cbn. no_ws. by rewrite Hw, Hb. Qed.

Lemma pval_obj n r :
  pval (S n) ("{"%char :: quote_char :: r) =
  ('(ms, r) ← pmembers (pval n) n (quote_char :: r); Some (JObj ms, r)).
Proof. cbn. no_ws. done. Qed.

Lemma print_arr l X :
  print (JArr l) ++ X = "["%char :: join (bytes_of ",") (map print l) ++ "]"%char :: X.
Proof. cbn. by rewrite <-app_assoc. Qed.

Definition print_member (kv : bytes * json) : bytes := quoted kv.1 ++ bytes_of ":" ++ print kv.2.

Lemma print_obj l X :
  print (JObj l) ++ X = "{"%char :: join (bytes_of ",") (map print_member l) ++ "}"%char :: X.
Proof. cbn. by rewrite <-app_assoc. Qed.

Lemma join_head {A} (f : A -> bytes) sep x l c r :
  f x = c :: r -> exists r', join sep (map f (x :: l)) = c :: r'.
Proof. intros H. cbn. destruct (map f l); rewrite H; cbn; eauto. Qed.

Lemma pval_print j n X :
  wf j = true -> (jsize j <= n)%nat -> num_stop X = true -> pval n (print j ++ X) = Some (j, X).
Proof.
  revert n X. induction j as [|b|lit|raw|l IH|l IH] using json_rect'; intros n X H Hn HX;
    (destruct n as [|n]; [cbn in Hn; lia|]).
  - done.
  - by destruct b.
  - cbn in H. cbn [print]. destruct (num_ok_head _ H) as (c & r & -> & Hc). cbn [pval app skip_ws].
    destruct (num_start_ok c Hc) as (-> & -> & -> & -> & -> & -> & ->).
    change (c :: r ++ X) with ((c :: r) ++ X). by rewrite scan_num_lit.
  - cbn in H. cbn. rewrite <-app_assoc. cbn. no_ws. by rewrite scan_str_quoted.
  - cbn [jsize] in Hn. apply le_S_n, fold_size_ge in Hn as [Hlen Hsz].
    cbn [wf] in H. rewrite forallb_forall in H. setoid_rewrite <-list_elem_of_In in H.
    rewrite Forall_forall in IH, Hsz. rewrite print_arr.
    destruct l as [|v l]; [done|]. pose proof (H v ltac:(left)) as Hv.
    destruct (print_head v Hv) as (c & r & Hp & Hc).
    destruct (join_head print (bytes_of ",") v l c r Hp) as [r' Hr'].
    destruct (value_start_ok c Hc) as (Hws & Hb & _).
    rewrite Hr'. cbn [app]. rewrite pval_arr by done. change (c :: r' ++ "]"%char :: X)
      with ((c :: r') ++ "]"%char :: X). rewrite <-Hr', pelems_join; [done|done| |done].
    apply Forall_forall. intros w Hw. split; [by apply H|]. intros Y HY. apply IH; auto.
  - cbn [jsize] in Hn. apply le_S_n, fold_size_ge in Hn as [Hlen Hsz].
    cbn [wf] in H. rewrite forallb_forall in H. setoid_rewrite <-list_elem_of_In in H.
    rewrite Forall_forall in IH, Hsz. rewrite print_obj.
    destruct l as [|kv l]; [done|].
    destruct (join_head print_member (bytes_of ",") kv l quote_char _ eq_refl) as [r' Hr'].
    rewrite Hr'. cbn [app]. rewrite pval_obj. change (quote_char :: r' ++ "}"%char :: X)
      with ((quote_char :: r') ++ "}"%char :: X).
    rewrite <-Hr'. unfold print_member. rewrite pmembers_join; [done|done| |done].
    apply Forall_forall. intros w Hw. specialize (H w Hw). bool_hyps. split; [done|].
    split; [done|]. intros Y HY. apply IH; auto.
Qed.

(** [json.Unmarshal]'s reading of a printed tree is the tree. *)
Lemma parse_print j : wf j = true -> (jdepth j <= maxNestingDepth)%N -> parse (print j) = Some j.
Proof.
  intros H Hd. unfold parse. rewrite <-(app_nil_r (print j)) at 2.
  rewrite pval_print; [|done|pose proof (jsize_print j H); lia|done]. cbn.
  by apply N.leb_le in Hd as ->.
Qed.

(** ** A value is written on one line *)

Definition visible (c : ascii) : bool := 32 <=? bval c.

Lemma hex_visible c : is_hex c = true -> visible c = true.
Proof. revert c. apply (all_bytes_forall (fun c => is_hex c = true -> visible c = true)). vm_compute. reflexivity. Qed.

Lemma escape_visible c : escape_val c <> None -> visible c = true.
Proof.
  revert c. apply (all_bytes_forall (fun c => escape_val c <> None -> visible c = true)). vm_compute. reflexivity.
Qed.

Lemma digit_visible c : is_digit c = true -> visible c = true.
Proof. revert c. apply (all_bytes_forall (fun c => is_digit c = true -> visible c = true)). vm_compute. reflexivity. Qed.

Lemma prepend_some p o a b : prepend p o = Some (a, b) -> exists a', o = Some (a', b) /\ a = p ++ a'.
Proof. destruct o as [[]|]; [|done]. intros [= <- <-]. eauto. Qed.

Lemma scan_str_visible l raw r : scan_str l = Some (raw, r) -> Forall (fun c => visible c = true) raw.
Proof.
  revert raw r. remember (length l) as n eqn:Hn. revert l Hn.
  induction n as [n IH] using lt_wf_ind. intros l -> raw r.
  assert (forall l', (length l' < length l)%nat -> forall raw r, scan_str l' = Some (raw, r) ->
    Forall (fun c => visible c = true) raw) as Hl by (intros l' Hlt; by eapply IH).
  clear IH. destruct l as [|c l]; [done|]. cbn [scan_str].
  destruct (Ascii.eqb c quote_char); [by intros [= <- _]|].
  destruct (Ascii.eqb_spec c backslash) as [->|].
  - destruct l as [|e l]; [done|]. destruct (Ascii.eqb_spec e "u") as [->|].
    + destruct l as [|h1 [|h2 [|h3 [|h4 l]]]]; try done. destruct (_ && _) eqn:Eh; [|done]. bool_hyps.
      intros (a & Ha & ->)%prepend_some. apply Hl in Ha; [|cbn; lia].
      repeat (constructor; [try by apply hex_visible|]); [done|done|exact Ha].
    + destruct (escape_val e) as [x|] eqn:Ee; [|done]. intros (a & Ha & ->)%prepend_some.
      apply Hl in Ha; [|cbn; lia]. constructor; [done|]. constructor; [|done].
      apply escape_visible. by rewrite Ee.
  - destruct (Z.ltb_spec (bval c) 32); [done|]. intros (a & Ha & ->)%prepend_some.
    apply Hl in Ha; [|cbn; lia]. constructor; [|done]. unfold visible. by apply Z.leb_le.
Qed.

Lemma span_digits_visible l a r : span_digits l = (a, r) -> Forall (fun c => visible c = true) a.
Proof.
  revert a r. induction l as [|c l IH]; intros a r; cbn; [by intros [= <- _]|].
  destruct (is_digit c) eqn:Ed; [|by intros [= <- _]]. destruct (span_digits l) as [a' r']. intros [= <- _].
  constructor; [by apply digit_visible|by eapply IH].
Qed.

Lemma scan_exp_digits_visible p l a r :
  Forall (fun c => visible c = true) p -> scan_exp_digits p l = Some (a, r) -> Forall (fun c => visible c = true) a.
Proof.
  intros Hp. unfold scan_exp_digits. destruct (span_digits l) as [ds r'] eqn:E. case_bool_decide; [done|].
  intros [= <- _]. apply Forall_app. split; [done|]. by eapply span_digits_visible.
Qed.

Lemma scan_num_visible l a r : scan_num l = Some (a, r) -> Forall (fun c => visible c = true) a.
Proof.
  unfold scan_num. destruct (scan_sign l) as [sg l1] eqn:Es.
  destruct (scan_int l1) as [[ip l2]|] eqn:Ei; [|done]. cbn.
  destruct (scan_frac l2) as [[fp l3]|] eqn:Ef; [|done]. cbn.
  destruct (scan_exp l3) as [[ep l4]|] eqn:Ee; [|done]. cbn. intros [= <- _]. rewrite !Forall_app. split_and!.
  - revert Es. unfold scan_sign. destruct l as [|c l]; [by intros [= <- _]|].
    destruct (Ascii.eqb_spec c "-") as [->|]; intros [= <- _]; by repeat constructor.
  - revert Ei. unfold scan_int. destruct l1 as [|c l1]; [done|].
    destruct (Ascii.eqb_spec c "0") as [->|]; [intros [= <- _]; by repeat constructor|].
    destruct (is_digit c); [|done]. intros E. injection E as E. by apply (span_digits_visible (c :: l1) _ l2).
  - revert Ef. unfold scan_frac. destruct l2 as [|c l2]; [by intros [= <- _]|].
    destruct (Ascii.eqb_spec c ".") as [->|]; [|by intros [= <- _]].
    destruct (span_digits l2) as [ds r'] eqn:E. case_bool_decide; [done|]. intros [= <- _].
    constructor; [done|by eapply span_digits_visible].
  - revert Ee. unfold scan_exp. destruct l3 as [|c l3]; [by intros [= <- _]|].
    destruct (Ascii.eqb c "e" || Ascii.eqb c "E") eqn:Ec; [|by intros [= <- _]].
    assert (visible c = true) as Hc.
    { apply orb_true_iff in Ec as [->%Ascii.eqb_eq | ->%Ascii.eqb_eq]; done. }
    destruct l3 as [|s l3]; [done|]. destruct (Ascii.eqb s "+" || Ascii.eqb s "-") eqn:Esg;
      apply scan_exp_digits_visible; repeat constructor; try done.
    by apply orb_true_iff in Esg as [->%Ascii.eqb_eq | ->%Ascii.eqb_eq].
Qed.

Lemma join_visible l : Forall (Forall (fun c => visible c = true)) l ->
  Forall (fun c => visible c = true) (join (bytes_of ",") l).
Proof.
  induction 1 as [|x l Hx Hl IH]; [done|]. destruct l as [|y l]; [done|].
  change (join (bytes_of ",") (x :: y :: l)) with (x ++ bytes_of "," ++ join (bytes_of ",") (y :: l)).
  rewrite !Forall_app. split_and!; [done|by repeat constructor|done].
Qed.

Lemma quoted_visible raw : str_ok raw = true -> Forall (fun c => visible c = true) (quoted raw).
Proof.
  intros Hs%bool_decide_eq_true_1%scan_str_visible. unfold quoted. constructor; [done|].
  apply Forall_app. split; [done|by repeat constructor].
Qed.

Lemma print_visible j : wf j = true -> Forall (fun c => visible c = true) (print j).
Proof.
  induction j as [|b|lit|raw|l IH|l IH] using json_rect'; cbn [wf print]; intros Hw.
  - by repeat constructor.
  - destruct b; by repeat constructor.
  - apply bool_decide_eq_true_1 in Hw. by eapply scan_num_visible.
  - by apply quoted_visible.
  - rewrite !Forall_app. split_and!; [by repeat constructor| |by repeat constructor].
    apply join_visible. rewrite Forall_map, Forall_forall. intros v Hv. rewrite Forall_forall in IH.
    rewrite forallb_forall in Hw. apply IH; [done|]. by apply Hw, list_elem_of_In.
  - rewrite !Forall_app. split_and!; [by repeat constructor| |by repeat constructor].
    apply join_visible. rewrite Forall_map, Forall_forall. intros kv Hkv. rewrite Forall_forall in IH.
    rewrite forallb_forall in Hw. pose proof Hkv as Hin. apply list_elem_of_In, Hw in Hin.
    apply andb_true_iff in Hin as [Hk Hv]. unfold compose. rewrite !Forall_app.
    split_and!; [by apply quoted_visible|by repeat constructor|by apply IH].
Qed.
