(* ===== verification/GoDecode.v ===== *)
(** * GoDecode: strings, numbers and Go values in and out of JSON

    The second half of the [encoding/json] model: the string codec ([quote],
    [unquote], with UTF-8 coercion), number conversions ([strconv.ParseInt],
    [ParseFloat], [FormatFloat] as the decoder and the program use them),
    [Unmarshal] into each Go type the program decodes into (maps of raw messages,
    structs with case-folded member names, strings, string slices, numbers behind
    pointers) and [Marshal] of maps and strings. *)

From Stdlib Require Import Floats.SpecFloat.
From S2P Require Import Prelude GoBytes GoJson.

(** ** UTF-8 *)

Definition cont (c : ascii) : bool := in_range c 128 191.

(** The well-formed multi-byte sequence at the head of [l], if there is one. *)
Definition utf8_seq (l : bytes) : option (bytes * bytes) :=
  match l with
  | a :: b :: r =>
      if in_range a 194 223 && cont b then Some ([a; b], r)
      else
        match r with
        | c :: r =>
            if (((bval a =? 224) && in_range b 160 191)
                || ((in_range a 225 236 || in_range a 238 239) && cont b)
                || ((bval a =? 237) && in_range b 128 159)) && cont c
            then Some ([a; b; c], r)
            else
              match r with
              | d :: r =>
                  if (((bval a =? 240) && in_range b 144 191)
                      || (in_range a 241 243 && cont b)
                      || ((bval a =? 244) && in_range b 128 143)) && cont c && cont d
                  then Some ([a; b; c; d], r) else None
              | [] => None
              end
        | [] => None
        end
  | _ => None
  end.

(** [utf8.AppendRune]. *)
Definition utf8_enc (z : Z) : bytes :=
  map byte_of
    (if z <? 128 then [z]
     else if z <? 2048 then [192 + z / 64; 128 + z mod 64]
     else if z <? 65536 then [224 + z / 4096; 128 + z / 64 mod 64; 128 + z mod 64]
     else [240 + z / 262144; 128 + z / 4096 mod 64; 128 + z / 64 mod 64; 128 + z mod 64]).

Definition replacement : bytes := utf8_enc 65533.

(** Runs a function that emits bytes for a non-empty prefix of its input. *)
Fixpoint steps (f : ascii -> bytes -> bytes * bytes) (n : nat) (l : bytes) : bytes :=
  match n, l with
  | S n, c :: r => let '(o, r') := f c r in o ++ steps f n r'
  | _, _ => []
  end.

Definition run (f : ascii -> bytes -> bytes * bytes) (l : bytes) : bytes := steps f (length l) l.

(** [utf8.ValidString]. *)
Definition utf8_step (c : ascii) (r : bytes) : option bytes :=
  if bval c <? 128 then Some r
  else match utf8_seq (c :: r) with Some (_, r) => Some r | None => None end.

Fixpoint utf8_ok_fuel (n : nat) (l : bytes) : bool :=
  match n, l with
  | _, [] => true
  | O, _ => false
  | S n, c :: r => match utf8_step c r with Some r => utf8_ok_fuel n r | None => false end
  end.

Definition utf8_ok (l : bytes) : bool := utf8_ok_fuel (length l) l.

(** ** String literals *)

Definition hexz (c : ascii) : Z := match hex_val c with Some z => z | None => 0 end.
Definition hex4 (a b c d : ascii) : Z := 4096 * hexz a + 256 * hexz b + 16 * hexz c + hexz d.

(** A [\uXXXX] escape at the head of [l]. *)
Definition take_u (l : bytes) : option (Z * bytes) :=
  match l with
  | s :: u :: a :: b :: c :: d :: r =>
      if Ascii.eqb s backslash && Ascii.eqb u "u" && is_hex a && is_hex b && is_hex c && is_hex d
      then Some (hex4 a b c d, r) else None
  | _ => None
  end.

Definition is_surrogate (z : Z) : bool := (55296 <=? z) && (z <? 57344).

(** One unit of a spelled string: what it decodes to, and the rest. *)
Definition unq_step (c : ascii) (r : bytes) : bytes * bytes :=
  if Ascii.eqb c backslash then
    match take_u (c :: r) with
    | Some (u, r') =>
        if is_surrogate u then
          match take_u r' with
          | Some (v, r'') =>
              if (u <? 56320) && (56320 <=? v) && (v <? 57344)
              then (utf8_enc (65536 + 1024 * (u - 55296) + (v - 56320)), r'')
              else (replacement, r')
          | None => (replacement, r')
          end
        else (utf8_enc u, r')
    | None =>
        match r with
        | e :: r' => (match escape_val e with Some x => [x] | None => [e] end, r')
        | [] => ([], [])
        end
    end
  else if bval c <? 128 then ([c], r)
  else match utf8_seq (c :: r) with
       | Some (s, r') => (s, r')
       | None => (replacement, r)
       end.

(** The value of a spelled string literal; ill-formed UTF-8 becomes U+FFFD. *)
Definition unquote (raw : bytes) : bytes := run unq_step raw.

Definition low_hex (z : Z) : ascii := hex_digit z.

(** Go's [appendString] with HTML escaping on, one ASCII byte. *)
Definition esc_byte (c : ascii) : bytes :=
  if Ascii.eqb c quote_char || Ascii.eqb c backslash then [backslash; c]
  else if bval c =? 8 then bytes_of "\b"
  else if bval c =? 12 then bytes_of "\f"
  else if bval c =? 10 then bytes_of "\n"
  else if bval c =? 13 then bytes_of "\r"
  else if bval c =? 9 then bytes_of "\t"
  else if (bval c <? 32) || Ascii.eqb c "<" || Ascii.eqb c ">" || Ascii.eqb c "&"
  then bytes_of "\u00" ++ [low_hex (bval c / 16); low_hex (bval c mod 16)]
  else [c].

Definition line_sep (s : bytes) : option bytes :=
  if bool_decide (s = utf8_enc 8232) then Some (bytes_of "\u2028")
  else if bool_decide (s = utf8_enc 8233) then Some (bytes_of "\u2029")
  else None.

Definition quote_step (c : ascii) (r : bytes) : bytes * bytes :=
  if bval c <? 128 then (esc_byte c, r)
  else match utf8_seq (c :: r) with
       | Some (s, r') => (match line_sep s with Some e => e | None => s end, r')
       | None => (bytes_of "\ufffd", r)
       end.

(** The spelling [json.Marshal] gives a string. *)
Definition quote (s : bytes) : bytes := run quote_step s.

Definition jstr (s : string) : json := JStr (quote (bytes_of s)).
Definition unquote_str (raw : bytes) : string := str_of (unquote raw).

(** ** Numbers *)

Definition digits_val (l : bytes) : Z := fold_left (fun acc c => 10 * acc + (bval c - 48)) l 0.

Definition int64_min : Z := - 2 ^ 63.
Definition int64_max : Z := 2 ^ 63 - 1.

(** [strconv.ParseInt(lit, 10, 64)] on a JSON number literal. *)
Definition int64_of_lit (lit : bytes) : option Z :=
  let '(sg, r) := scan_sign lit in
  let '(ds, r) := span_digits r in
  if bool_decide (r = []) && negb (bool_decide (ds = [])) then
    let z := if bool_decide (sg = []) then digits_val ds else - digits_val ds in
    if (int64_min <=? z) && (z <=? int64_max) then Some z else None
  else None.

Fixpoint itoa_fuel (n : nat) (z : Z) : bytes :=
  match n with
  | O => []
  | S n => (if z <? 10 then [] else itoa_fuel n (z / 10)) ++ [byte_of (48 + z mod 10)]
  end.

(** [strconv.Itoa] on a 64-bit integer (at most 19 digits). *)
Definition itoa (z : Z) : bytes :=
  if z <? 0 then "-"%char :: itoa_fuel 20 (- z) else itoa_fuel 20 z.

Definition f64 := spec_float.
Definition round64 (m e : Z) : f64 := binary_normalize 53 1024 m e false.

(** The decimal [± m * 10^e] rounded to the nearest double; [None] on overflow. *)
Definition decimal_to_f64 (sg : bool) (m e : Z) : option f64 :=
  match m with
  | Zpos p =>
      let nd := Z.of_nat (length (itoa_fuel (S (Pos.size_nat p)) m)) in
      if 310 <? nd + e then None
      else if nd + e <? -330 then Some (S754_zero sg)
      else
        let r := if 0 <=? e then round64 (m * 10 ^ e) 0
                 else match 10 ^ (- e) with
                      | Zpos q => SFdiv 53 1024 (S754_finite false p 0) (S754_finite false q 0)
                      | _ => S754_nan
                      end in
        match r with
        | S754_infinity _ => None
        | S754_finite _ p' e' => Some (S754_finite sg p' e')
        | S754_zero _ => Some (S754_zero sg)
        | S754_nan => None
        end
  | _ => Some (S754_zero sg)
  end.

(** [strconv.ParseFloat(lit, 64)] on a JSON number literal. *)
Definition f64_of_lit (lit : bytes) : option f64 :=
  let '(sg, r) := scan_sign lit in
  let '(ip, r) := span_digits r in
  let '(fp, r) := match r with
                  | c :: r' => if Ascii.eqb c "." then span_digits r' else ([], r)
                  | [] => ([], [])
                  end in
  let ex := match r with
            | _ :: s :: r' =>
                if Ascii.eqb s "-" then - digits_val r'
                else if Ascii.eqb s "+" then digits_val r'
                else digits_val (s :: r')
            | _ => 0
            end in
  decimal_to_f64 (negb (bool_decide (sg = []))) (digits_val (ip ++ fp))
    (ex - Z.of_nat (length fp)).

(** [float64(n)] for an [int64]. *)
Definition f64_of_int (n : Z) : f64 := round64 n 0.

Definition f64_eqb (x y : f64) : bool := SFeqb x y.
Definition f64_neg (x : f64) : bool := SFltb x (S754_zero false).

(** [strconv.FormatFloat(x, 'g', -1, 64)]: the shortest digits that read back. *)
Section format.
Context (p : positive) (e : Z).

Definition ratio : Z * Z := if 0 <=? e then (Zpos p * 2 ^ e, 1) else (Zpos p, 2 ^ (- e)).
Definition scaled (k : Z) : Z * Z :=
  let '(n, d) := ratio in if 0 <=? k then (n * 10 ^ k, d) else (n, d * 10 ^ (- k)).
Definition round_half_even (nd : Z * Z) : Z :=
  let '(n, d) := nd in let q := n / d in let r := n mod d in
  if (2 * r <? d) || ((2 * r =? d) && Z.even q) then q else q + 1.

(** The decimal point position: [10^(dp-1) <= x < 10^dp]. *)
Definition dec_point : Z :=
  let est := (Z.log2 (Zpos p) + e) * 30103 / 100000 in
  let ge k := let '(n, d) := scaled (- k) in d <=? n in
  if ge (est + 1) then est + 2 else if ge est then est + 1 else est.

Fixpoint shortest (fuel : nat) (n : Z) : Z * Z :=
  let dp := dec_point in
  let d := round_half_even (scaled (n - dp)) in
  match fuel with
  | O => (d, dp - n)
  | S fuel =>
      if match decimal_to_f64 false d (dp - n) with
         | Some x => f64_eqb x (S754_finite false p e)
         | None => false
         end
      then (d, dp - n) else shortest fuel (n + 1)
  end.

Fixpoint strip_zeros (fuel : nat) (d k : Z) : Z * Z :=
  match fuel with
  | O => (d, k)
  | S fuel => if d mod 10 =? 0 then strip_zeros fuel (d / 10) (k + 1) else (d, k)
  end.

Definition format_pos : bytes :=
  let '(d, k) := shortest 16 1 in
  let '(d, k) := strip_zeros 20 d k in
  let ds := itoa d in
  let nd := Z.of_nat (length ds) in
  let dp := nd + k in
  let x := dp - 1 in
  if (x <? -4) || (6 <=? x) then
    let ax := Z.abs x in
    take 1 ds ++ (if nd <=? 1 then [] else bytes_of "." ++ drop 1 ds) ++ bytes_of "e" ++
    (if x <? 0 then bytes_of "-" else bytes_of "+") ++
    (if ax <? 10 then bytes_of "0" else []) ++ itoa ax
  else if dp <=? 0 then bytes_of "0." ++ repeat "0"%char (Z.to_nat (- dp)) ++ ds
  else if nd <=? dp then ds ++ repeat "0"%char (Z.to_nat (dp - nd))
  else take (Z.to_nat dp) ds ++ bytes_of "." ++ drop (Z.to_nat dp) ds.
End format.

Definition format_g (x : f64) : string :=
  str_of match x with
         | S754_zero sg => (if sg then bytes_of "-" else []) ++ bytes_of "0"
         | S754_infinity sg => if sg then bytes_of "-Inf" else bytes_of "+Inf"
         | S754_nan => bytes_of "NaN"
         | S754_finite sg p e => (if sg then bytes_of "-" else []) ++ format_pos p e
         end.

(** ** [json.Unmarshal] into the program's types *)

Inductive jerr := JSyntax | JType.

#[export] Instance jerr_eq_dec : EqDecision jerr.
Proof. solve_decision. Defined.

(** The members of an object as a map: a repeated name keeps its last value. *)
Definition members_map (l : list (bytes * json)) : gmap string json :=
  fold_left (fun m kv => <[unquote_str kv.1 := kv.2]> m) l ∅.

(** Into a [map[string]json.RawMessage]; [null] makes it nil ([None]). *)
Definition unmarshal_map (j : json) : result jerr (option (gmap string json)) :=
  match j with
  | JObj l => Ok (Some (members_map l))
  | JNull => Ok None
  | _ => Err JType
  end.

Definition nil_map (o : option (gmap string json)) : gmap string json :=
  match o with Some m => m | None => ∅ end.

(** Into an existing [string], [bool] or [int]: [null] leaves it unchanged. *)
Definition set_string (old : string) (j : json) : result jerr string :=
  match j with JStr raw => Ok (unquote_str raw) | JNull => Ok old | _ => Err JType end.

Definition set_bool (old : bool) (j : json) : result jerr bool :=
  match j with JBool b => Ok b | JNull => Ok old | _ => Err JType end.

Definition set_int (old : Z) (j : json) : result jerr Z :=
  match j with
  | JNum lit => of_option (int64_of_lit lit) JType
  | JNull => Ok old
  | _ => Err JType
  end.

(** Into an existing [[]string]: a [null] element keeps what the slot held. *)
Fixpoint set_strings_go (old : list string) (l : list json) : result jerr (list string) :=
  match l with
  | [] => Ok []
  | x :: l =>
      s ← set_string (match old with o :: _ => o | [] => "" end) x;
      ss ← set_strings_go (tl old) l;
      Ok (s :: ss)
  end.

Definition set_strings (old : list string) (j : json) : result jerr (list string) :=
  match j with JArr l => set_strings_go old l | JNull => Ok [] | _ => Err JType end.

(** Into a fresh [string], [[]string], [*int64], [*float64]. *)
Definition unmarshal_string : json -> result jerr string := set_string "".
Definition unmarshal_strings : json -> result jerr (list string) := set_strings [].

Definition unmarshal_int64_ptr (j : json) : result jerr (option Z) :=
  match j with JNull => Ok None | _ => n ← set_int 0 j; Ok (Some n) end.

Definition unmarshal_f64_ptr (j : json) : result jerr (option f64) :=
  match j with
  | JNull => Ok None
  | JNum lit => x ← of_option (f64_of_lit lit) JType; Ok (Some x)
  | _ => Err JType
  end.

(** Into a struct: each member goes to the field of that exact name, or else to the
    field whose name folds to the same letters; unknown members are ignored. *)
Section struct.
Context {T : Type}.
Abbreviation field := (string * (T -> json -> result jerr T))%type.

Definition exact_field (fs : list field) (k : string) : option field :=
  List.find (fun f => String.eqb f.1 k) fs.
Definition folded_field (fs : list field) (k : string) : option field :=
  List.find (fun f => equal_fold f.1 k) fs.

Definition set_member (fs : list field) (t : T) (kv : bytes * json) : result jerr T :=
  let k := unquote_str kv.1 in
  match exact_field fs k with
  | Some f => f.2 t kv.2
  | None => match folded_field fs k with Some f => f.2 t kv.2 | None => Ok t end
  end.

Fixpoint set_members (fs : list field) (t : T) (l : list (bytes * json)) : result jerr T :=
  match l with
  | [] => Ok t
  | kv :: l => t' ← set_member fs t kv; set_members fs t' l
  end.

Definition unmarshal_struct (fs : list field) (zero : T) (j : json) : result jerr T :=
  match j with
  | JObj l => set_members fs zero l
  | JNull => Ok zero
  | _ => Err JType
  end.
End struct.

(** From bytes: the validity pass, then the decoding. *)
Definition unmarshal {A} (dec : json -> result jerr A) (b : bytes) : result jerr A :=
  match parse b with Some j => dec j | None => Err JSyntax end.

(** ** [json.Marshal] *)

Definition key_le {A} (p q : string * A) : Prop := String.leb p.1 q.1 = true.
#[export] Instance key_le_dec {A} : RelDecision (@key_le A).
Proof. intros p q. unfold key_le. apply _. Defined.

(** A map's entries in the order [json.Marshal] writes them: sorted by key. *)
Definition entries {A} (m : gmap string A) : list (string * A) := merge_sort key_le (map_to_list m).

Definition json_of_map (m : gmap string json) : json :=
  JObj (map (fun kv => (quote (bytes_of kv.1), compact kv.2)) (entries m)).

Definition marshal_map (m : gmap string json) : bytes := print (json_of_map m).

Definition json_of_strings (l : list string) : json := JArr (map jstr l).
Definition json_of_int (z : Z) : json := JNum (itoa z).

Definition utf8_str (s : string) : bool := utf8_ok (bytes_of s).

(** A raw message as [json.Unmarshal] leaves one in a map: well spelled, and within
    the nesting limit even when wrapped in one more object. *)
Definition raw_ok (j : json) : bool := wf j && (jdepth j <? maxNestingDepth)%N.

(** A Go map whose keys and raw messages came out of JSON. *)
Definition map_ok (m : gmap string json) : Prop :=
  map_Forall (fun k v => utf8_str k = true /\ raw_ok v = true) m.

#[export] Instance map_ok_dec m : Decision (map_ok m).
Proof. unfold map_ok. apply _. Defined.

(** ** Laws of the string codec *)

Section run_lemmas.
Context (f : ascii -> bytes -> bytes * bytes).
Context (Hf : forall c r, (length (f c r).2 <= length r)%nat).

Lemma steps_fuel n l : (length l <= n)%nat -> steps f n l = run f l.
Proof using Hf.
  unfold run. revert l. induction n as [n IH] using lt_wf_ind. intros [|c r] Hl.
  - by destruct n.
  - destruct n as [|n]; [cbn in Hl; lia|]. cbn. pose proof (Hf c r) as Hr.
    destruct (f c r) as [o r']; cbn in *. f_equal.
    rewrite (IH n), (IH (length r)) by lia. done.
Qed.

Lemma run_cons c r : run f (c :: r) = (f c r).1 ++ run f (f c r).2.
Proof using Hf.
  unfold run at 1. cbn. pose proof (Hf c r). destruct (f c r) as [o r']; cbn in *.
  by rewrite steps_fuel.
Qed.

Lemma run_nil : run f [] = [].
Proof. done. Qed.
End run_lemmas.

Lemma utf8_seq_spec l s r :
  utf8_seq l = Some (s, r) ->
  l = s ++ r /\ (forall X, utf8_seq (s ++ X) = Some (s, X)) /\ (2 <= length s)%nat /\
  Forall (fun c => 128 <= bval c) s.
Proof.
  destruct l as [|a [|b l]]; [done|done|]. cbn [utf8_seq].
  assert (forall x y, in_range x 194 223 && cont y = true -> 128 <= bval x /\ 128 <= bval y) as R2.
  { unfold in_range, cont, in_range. intros. bool_hyps. lia. }
  destruct (in_range a 194 223 && cont b) eqn:E2.
  { intros [= <- <-]. destruct (R2 _ _ E2). split; [done|]. split; [|split; [cbn; lia|by repeat constructor]].
    intros X. cbn. by rewrite E2. }
  destruct l as [|c l]; [done|].
  match goal with |- context [if ?x then _ else _] => destruct x eqn:E3 end.
  { intros [= <- <-]. split; [done|].
    split; [intros X; cbn; by rewrite E2, E3|]. split; [cbn; lia|].
    unfold in_range, cont, in_range in E3. repeat constructor; lia. }
  destruct l as [|d l]; [done|].
  match goal with |- context [if ?x then _ else _] => destruct x eqn:E4 end; [|done].
  intros [= <- <-]. split; [done|].
  split; [intros X; cbn; by rewrite E2, E3, E4|]. split; [cbn; lia|].
  unfold in_range, cont, in_range in E4. repeat constructor; lia.
Qed.

Lemma utf8_seq_shrinks l s r : utf8_seq l = Some (s, r) -> (length r + 2 <= length l)%nat.
Proof. intros (-> & _ & H & _)%utf8_seq_spec. rewrite length_app. lia. Qed.

Lemma take_u_shrinks l u r : take_u l = Some (u, r) -> length l = (6 + length r)%nat.
Proof.
  destruct l as [|? [|? [|? [|? [|? [|? ?]]]]]]; try done. cbn.
  destruct (_ && _); [|done]. by intros [= <- <-].
Qed.

Lemma quote_step_shrinks c r : (length (quote_step c r).2 <= length r)%nat.
Proof.
  unfold quote_step. destruct (bval c <? 128); [done|].
  destruct (utf8_seq (c :: r)) as [[s r']|] eqn:E; [|done].
  apply utf8_seq_shrinks in E. cbn in *. lia.
Qed.

Lemma unq_step_shrinks c r : (length (unq_step c r).2 <= length r)%nat.
Proof.
  unfold unq_step. destruct (Ascii.eqb c backslash).
  - destruct (take_u (c :: r)) as [[u r']|] eqn:E.
    + apply take_u_shrinks in E. cbn in E.
      destruct (is_surrogate u); [|cbn; lia].
      destruct (take_u r') as [[v r'']|] eqn:E'; [apply take_u_shrinks in E'|cbn; lia].
      destruct (_ && _); cbn; lia.
    + destruct r; cbn; lia.
  - destruct (bval c <? 128); [done|].
    destruct (utf8_seq (c :: r)) as [[s r']|] eqn:E; [|done].
    apply utf8_seq_shrinks in E. cbn in *. lia.
Qed.

Lemma quote_cons c r : quote (c :: r) = (quote_step c r).1 ++ quote (quote_step c r).2.
Proof. apply run_cons, quote_step_shrinks. Qed.
Lemma unquote_cons c r : unquote (c :: r) = (unq_step c r).1 ++ unquote (unq_step c r).2.
Proof. apply run_cons, unq_step_shrinks. Qed.

(** Induction along [utf8_ok]. *)
Lemma utf8_ind (P : bytes -> Prop) :
  P [] -> (forall c r, bval c < 128 -> utf8_ok r = true -> P r -> P (c :: r)) ->
  (forall c l s r, ~ bval c < 128 -> utf8_seq (c :: l) = Some (s, r) -> utf8_ok r = true -> P r ->
     P (c :: l)) ->
  forall l, utf8_ok l = true -> P l.
Proof.
  intros H0 H1 H2.
  assert (forall n m l, (length l <= n)%nat -> (length l <= m)%nat ->
    utf8_ok_fuel n l = utf8_ok_fuel m l) as Hfuel.
  { induction n as [n IH] using lt_wf_ind. intros m [|c r] Hn Hm; [by destruct n, m|].
    destruct n as [|n], m as [|m]; [cbn in *; lia..|]. cbn in *. unfold utf8_step.
    destruct (bval c <? 128); [apply IH; lia|].
    destruct (utf8_seq (c :: r)) as [[s r']|] eqn:E; [|done].
    apply utf8_seq_shrinks in E. cbn in E. apply IH; lia. }
  intros l. induction l as [l IH] using (induction_ltof1 _ length). unfold ltof in IH.
  destruct l as [|c r]; [done|]. unfold utf8_ok. cbn. unfold utf8_step.
  destruct (Z.ltb_spec (bval c) 128) as [Hc|Hc].
  - intros H. apply H1; [done|done|]. apply IH; [cbn; lia|done].
  - destruct (utf8_seq (c :: r)) as [[s r']|] eqn:E; [|done]. intros H.
    pose proof (utf8_seq_shrinks _ _ _ E) as Hs. cbn in Hs.
    rewrite (Hfuel _ (length r')) in H by lia.
    eapply H2; [lia|done|done|]. apply IH; [cbn; lia|done].
Qed.

Lemma utf8_ok_ascii l : Forall (fun c => bval c < 128) l -> utf8_ok l = true.
Proof.
  induction 1 as [|c l Hc _ IH]; [done|]. unfold utf8_ok in *. cbn. unfold utf8_step.
  apply Z.ltb_lt in Hc as ->. done.
Qed.

(** What [esc_byte] emits, by case. *)
Inductive esc_case (c : ascii) : bytes -> Prop :=
| esc_self : c = quote_char \/ c = backslash -> esc_case c [backslash; c]
| esc_letter e : escape_val e = Some c -> Ascii.eqb e "u" = false -> esc_case c [backslash; e]
| esc_hex a b : is_hex a = true -> is_hex b = true -> hex4 "0" "0" a b = bval c ->
    esc_case c (bytes_of "\u00" ++ [a; b])
| esc_plain : c <> quote_char -> c <> backslash -> 32 <= bval c ->
    esc_case c [c].

Lemma esc_byte_case c : bval c < 128 -> esc_case c (esc_byte c).
Proof.
  intros Hc. unfold esc_byte.
  destruct (Ascii.eqb_spec c quote_char); [constructor; by left|].
  destruct (Ascii.eqb_spec c backslash); [constructor; by right|]. cbn [orb].
  assert (forall z x, bval c = z -> bval x = z -> c = x) as Hinj.
  { intros z x <- E. rewrite <-(byte_of_bval c), <-E. apply byte_of_bval. }
  destruct (Z.eqb_spec (bval c) 8) as [E|]; [rewrite (Hinj _ (byte_of 8) E) by done; by constructor|].
  destruct (Z.eqb_spec (bval c) 12) as [E|]; [rewrite (Hinj _ (byte_of 12) E) by done; by constructor|].
  destruct (Z.eqb_spec (bval c) 10) as [E|]; [rewrite (Hinj _ (byte_of 10) E) by done; by constructor|].
  destruct (Z.eqb_spec (bval c) 13) as [E|]; [rewrite (Hinj _ (byte_of 13) E) by done; by constructor|].
  destruct (Z.eqb_spec (bval c) 9) as [E|]; [rewrite (Hinj _ (byte_of 9) E) by done; by constructor|].
  destruct (_ || _) eqn:E.
  - revert Hc. clear. revert c.
    enough (forall c, bval c < 128 -> is_hex (low_hex (bval c / 16)) = true /\
      is_hex (low_hex (bval c mod 16)) = true /\
      hex4 "0" "0" (low_hex (bval c / 16)) (low_hex (bval c mod 16)) = bval c) as H.
    { intros c (? & ? & ?)%H. by constructor. }
    apply (all_bytes_forall (fun c => bval c < 128 -> is_hex (low_hex (bval c / 16)) = true /\
      is_hex (low_hex (bval c mod 16)) = true /\
      hex4 "0" "0" (low_hex (bval c / 16)) (low_hex (bval c mod 16)) = bval c)). by vm_compute.
  - bool_hyps. constructor; [done|done|lia].
Qed.

Lemma utf8_enc_ascii c : bval c < 128 -> utf8_enc (bval c) = [c].
Proof.
  apply (all_bytes_forall (fun c => bval c < 128 -> utf8_enc (bval c) = [c])). by vm_compute.
Qed.

Lemma unq_esc_byte c X : bval c < 128 -> unquote (esc_byte c ++ X) = c :: unquote X.
Proof.
  intros Hc. pose proof (bval_range c). destruct (esc_byte_case c Hc) as [Hq|e He Hu|a b Ha Hb Hv|H1 H2 H3].
  - cbn [app]. rewrite unquote_cons. unfold unq_step. rewrite Ascii.eqb_refl.
    by destruct Hq as [-> | ->]; destruct X as [|? [|? [|? [|? ?]]]].
  - cbn [app]. rewrite unquote_cons. unfold unq_step. rewrite Ascii.eqb_refl.
    assert (take_u (backslash :: e :: X) = None) as ->.
    { destruct X as [|? [|? [|? [|? ?]]]]; cbn; try done. by rewrite Hu. }
    by rewrite He.
  - cbn [app bytes_of list_ascii_of_string]. rewrite unquote_cons. unfold unq_step.
    change (Ascii.eqb "\" backslash) with true. cbn [take_u].
    change (Ascii.eqb "\" backslash) with true. change (Ascii.eqb "u" "u") with true.
    change (is_hex "0") with true. rewrite Ha, Hb. cbn [andb]. rewrite Hv.
    assert (is_surrogate (bval c) = false) as -> by (unfold is_surrogate; lia).
    cbn. by rewrite utf8_enc_ascii.
  - cbn [app]. rewrite unquote_cons. unfold unq_step.
    destruct (Ascii.eqb_spec c backslash); [done|]. by apply Z.ltb_lt in Hc as ->.
Qed.

Lemma unq_seq c l s r X :
  ~ bval c < 128 -> utf8_seq (c :: l) = Some (s, r) -> unquote (s ++ X) = s ++ unquote X.
Proof.
  intros Hc H. apply utf8_seq_spec in H as (He & HX & Hlen & _).
  destruct s as [|c' s]; [cbn in Hlen; lia|]. injection He as <- ->. cbn [app].
  rewrite unquote_cons. unfold unq_step.
  destruct (Ascii.eqb_spec c backslash) as [->|_]; [exfalso; apply Hc; by vm_compute|].
  destruct (Z.ltb_spec (bval c) 128); [done|]. specialize (HX X). cbn [app] in HX. by rewrite HX.
Qed.

Lemma unq_line_sep s e X : line_sep s = Some e -> unquote (e ++ X) = s ++ unquote X.
Proof.
  unfold line_sep. intros H. destruct (bool_decide (s = utf8_enc 8232)) eqn:E1.
  - apply bool_decide_eq_true_1 in E1 as ->. injection H as <-. cbn [app bytes_of list_ascii_of_string].
    by rewrite unquote_cons.
  - destruct (bool_decide (s = utf8_enc 8233)) eqn:E2; [|done].
    apply bool_decide_eq_true_1 in E2 as ->. injection H as <-. cbn [app bytes_of list_ascii_of_string].
    by rewrite unquote_cons.
Qed.

(** Decoding the spelling of a valid UTF-8 string gives the string. *)
Lemma unquote_quote s : utf8_ok s = true -> unquote (quote s) = s.
Proof.
  revert s. apply utf8_ind; [done|..].
  - intros c r Hc _ IH. rewrite quote_cons. unfold quote_step.
    pose proof (proj2 (Z.ltb_lt _ _) Hc) as ->. cbn [fst snd]. by rewrite unq_esc_byte, IH.
  - intros c l s r Hc Hs _ IH. rewrite quote_cons. unfold quote_step.
    destruct (Z.ltb_spec (bval c) 128); [done|]. rewrite Hs. cbn [fst snd].
    pose proof Hs as Hs'. apply utf8_seq_spec in Hs' as (-> & _).
    destruct (line_sep s) as [e|] eqn:E.
    + by rewrite (unq_line_sep _ _ _ E), IH.
    + by rewrite (unq_seq _ _ _ _ _ Hc Hs), IH.
Qed.

Lemma unquote_str_quote s : utf8_str s = true -> unquote_str (quote (bytes_of s)) = s.
Proof. intros H. unfold unquote_str. rewrite unquote_quote by done. apply str_of_bytes_of. Qed.

(** ** Well-spelled strings are closed under the writer *)

(** A spelled string as a sequence of units. *)
Inductive units : bytes -> Prop :=
| units_nil : units []
| units_plain c r : c <> quote_char -> c <> backslash -> 32 <= bval c -> units r -> units (c :: r)
| units_esc e r : Ascii.eqb e "u" = false -> is_Some (escape_val e) -> units r ->
    units (backslash :: e :: r)
| units_u a b c d r : is_hex a = true -> is_hex b = true -> is_hex c = true -> is_hex d = true ->
    units r -> units (backslash :: "u"%char :: a :: b :: c :: d :: r).
#[export] Hint Constructors units : wire.

Lemma units_app p q : units p -> units q -> units (p ++ q).
Proof. induction 1; cbn; auto with wire. Qed.

Lemma units_scan raw X : units raw -> scan_str (raw ++ quote_char :: X) = Some (raw, X).
Proof.
  induction 1 as [|c r Hq Hb Hc _ IH|e r He [x Hx] _ IH|a b c d r Ha Hb Hc Hd _ IH]; cbn [app scan_str].
  - by rewrite Ascii.eqb_refl.
  - destruct (Ascii.eqb_spec c quote_char); [done|]. destruct (Ascii.eqb_spec c backslash); [done|].
    destruct (Z.ltb_spec (bval c) 32); [lia|]. by rewrite IH.
  - cbn. by rewrite He, Hx, IH.
  - cbn. by rewrite Ha, Hb, Hc, Hd, IH.
Qed.

Lemma units_str_ok raw : units raw -> str_ok raw = true.
Proof. intros H. apply bool_decide_eq_true_2. by apply (units_scan raw []). Qed.

Lemma scan_str_units l raw r : scan_str l = Some (raw, r) -> units raw.
Proof.
  revert raw r. induction l as [l IH] using (induction_ltof1 _ length). unfold ltof in IH.
  intros raw r. destruct l as [|c l]; [done|].
  assert (forall p k, (length k < length (c :: l))%nat -> (forall q, units q -> units (p ++ q)) ->
    prepend p (scan_str k) = Some (raw, r) -> units raw) as Hp.
  { intros p k Hk Hq. destruct (scan_str k) as [[a b]|] eqn:E; cbn; [|done].
    intros [= <- <-]. by apply Hq, (IH _ Hk _ _ E). }
  cbn [scan_str]. destruct (Ascii.eqb_spec c quote_char); [intros [= <- <-]; constructor|].
  destruct (Ascii.eqb_spec c backslash) as [->|].
  - destruct l as [|e l]; [done|]. destruct (Ascii.eqb_spec e "u") as [->|Hu].
    + destruct l as [|h1 [|h2 [|h3 [|h4 l]]]]; try done.
      destruct (is_hex h1 && is_hex h2 && is_hex h3 && is_hex h4) eqn:E; [|done]. bool_hyps.
      apply Hp; [cbn; lia|]. intros; by apply units_u.
    + destruct (escape_val e) eqn:E; [|done]. apply Hp; [cbn; lia|].
      intros; cbn; apply units_esc; [by apply Ascii.eqb_neq|by rewrite E|done].
  - destruct (Z.ltb_spec (bval c) 32); [done|]. apply Hp; [cbn; lia|].
    intros; by constructor.
Qed.

Lemma str_ok_units raw : str_ok raw = true <-> units raw.
Proof.
  split; [|apply units_str_ok]. intros H%bool_decide_eq_true_1. by eapply scan_str_units.
Qed.

Lemma units_high s : Forall (fun c => 128 <= bval c) s -> units s.
Proof.
  induction 1 as [|c s Hc _ IH]; constructor; [| |lia|done]; intros ->; by vm_compute in Hc.
Qed.

Lemma units_esc_byte c : bval c < 128 -> units (esc_byte c).
Proof.
  intros Hc. destruct (esc_byte_case c Hc) as [Hq|e He Hu|a b Ha Hb _|H1 H2 H3].
  - destruct Hq as [-> | ->]; apply units_esc; by (vm_compute; eauto) || constructor.
  - apply units_esc; [done|by rewrite He|constructor].
  - by apply units_u; try constructor.
  - by apply units_plain; try constructor.
Qed.

Lemma units_quote s : units (quote s).
Proof.
  induction s as [s IH] using (induction_ltof1 _ length). unfold ltof in IH.
  destruct s as [|c s]; [constructor|]. rewrite quote_cons.
  apply units_app; [|apply IH; pose proof (quote_step_shrinks c s); cbn; lia].
  unfold quote_step. destruct (Z.ltb_spec (bval c) 128); [by apply units_esc_byte|].
  destruct (utf8_seq (c :: s)) as [[q r]|] eqn:E; cbn.
  - apply utf8_seq_spec in E as (_ & _ & _ & Hs). unfold line_sep.
    repeat case_bool_decide; [by apply units_u; try constructor..|by apply units_high].
  - by apply units_u; try constructor.
Qed.

Lemma str_ok_quote s : str_ok (quote s) = true.
Proof. apply units_str_ok, units_quote. Qed.

Lemma esc_html_cons c r :
  esc_html (c :: r) =
  if Ascii.eqb c "<" then bytes_of "\u003c" ++ esc_html r
  else if Ascii.eqb c ">" then bytes_of "\u003e" ++ esc_html r
  else if Ascii.eqb c "&" then bytes_of "\u0026" ++ esc_html r
  else
    match r with
    | d :: e :: r' =>
        if (bval c =? 226) && (bval d =? 128) && (bval e =? 168)
        then bytes_of "\u2028" ++ esc_html r'
        else if (bval c =? 226) && (bval d =? 128) && (bval e =? 169)
        then bytes_of "\u2029" ++ esc_html r'
        else c :: esc_html r
    | _ => c :: esc_html r
    end.
Proof. done. Qed.

Lemma units_esc_html raw : units raw -> units (esc_html raw).
Proof.
  induction raw as [raw IH] using (induction_ltof1 _ length). unfold ltof in IH.
  intros H.
  destruct H as [|c r Hq Hb Hc Hr|e r He Hx Hr|a b c d r Ha Hb Hc Hd Hr]; [constructor|..].
  - rewrite esc_html_cons.
    destruct (Ascii.eqb c "<"); [by apply units_app; [by apply units_u; try constructor|apply IH; [cbn; lia|]]|].
    destruct (Ascii.eqb c ">"); [by apply units_app; [by apply units_u; try constructor|apply IH; [cbn; lia|]]|].
    destruct (Ascii.eqb c "&"); [by apply units_app; [by apply units_u; try constructor|apply IH; [cbn; lia|]]|].
    assert (units (c :: esc_html r)) as Hplain
      by (apply units_plain; try done; apply IH; [cbn; lia|done]).
    destruct r as [|d [|e r]]; [done|done|].
    assert (forall y, bval d = 128 -> bval e = y -> 128 <= y -> units r) as Htail.
    { intros y Hd He Hy. inversion Hr as [|? ? ? ? ? Hr1| |]; subst; [|by vm_compute in Hd..].
      inversion Hr1; subst; [done|by vm_compute in Hy..]. }
    match goal with |- context [if ?b then _ else _] => destruct b eqn:E1 end;
      [|match goal with |- context [if ?b then _ else _] => destruct b eqn:E2 end; [|done]].
    + bool_hyps. apply units_app; [by apply units_u; try constructor|]. apply IH; [cbn; lia|].
      apply (Htail 168); lia.
    + bool_hyps. apply units_app; [by apply units_u; try constructor|]. apply IH; [cbn; lia|].
      apply (Htail 169); lia.
  - (* an escape: neither byte is rewritten *)
    assert (esc_html (backslash :: e :: r) = backslash :: e :: esc_html r) as ->;
      [|apply units_esc; [done..|apply IH; [cbn; lia|done]]].
    destruct Hx as [x Hx].
    assert (Ascii.eqb e "<" = false /\ Ascii.eqb e ">" = false /\ Ascii.eqb e "&" = false /\
            (bval e =? 226) = false) as (H1 & H2 & H3 & H4).
    { revert Hx. clear. generalize (Some_inj x). intros _ Hx.
      assert (is_Some (escape_val e)) as Hs by (by rewrite Hx). clear Hx. revert Hs. revert e.
      enough (forall e, escape_val e <> None -> Ascii.eqb e "<" = false /\ Ascii.eqb e ">" = false /\
        Ascii.eqb e "&" = false /\ (bval e =? 226) = false) as H
        by (intros e [y Hy]; apply H; by rewrite Hy).
      apply (all_bytes_forall (fun e => escape_val e <> None -> Ascii.eqb e "<" = false /\
        Ascii.eqb e ">" = false /\ Ascii.eqb e "&" = false /\ (bval e =? 226) = false)).
      by vm_compute. }
    cbn [esc_html]. rewrite H1, H2, H3, H4. cbn [andb].
    change (Ascii.eqb backslash "<") with false. change (Ascii.eqb backslash ">") with false.
    change (Ascii.eqb backslash "&") with false. change (bval backslash =? 226) with false. cbn [andb].
    by destruct r as [|? [|? ?]].
  - assert (forall h, is_hex h = true -> Ascii.eqb h "<" = false /\ Ascii.eqb h ">" = false /\
      Ascii.eqb h "&" = false /\ (bval h =? 226) = false) as Hh.
    { apply (all_bytes_forall (fun h => is_hex h = true -> Ascii.eqb h "<" = false /\
        Ascii.eqb h ">" = false /\ Ascii.eqb h "&" = false /\ (bval h =? 226) = false)).
      by vm_compute. }
    assert (forall h l, is_hex h = true \/ h = backslash \/ h = "u"%char ->
      esc_html (h :: l) = h :: esc_html l) as Hskip.
    { intros h l Hcase.
      assert (Ascii.eqb h "<" = false /\ Ascii.eqb h ">" = false /\ Ascii.eqb h "&" = false /\
              (bval h =? 226) = false) as (H1 & H2 & H3 & H4)
        by (destruct Hcase as [?|[->| ->]]; [by apply Hh|by vm_compute..]).
      rewrite esc_html_cons, H1, H2, H3, H4. by destruct l as [|? [|? ?]]. }
    rewrite !Hskip by auto. apply units_u; [done..|]. apply IH; [cbn; lia|done].
Qed.

Lemma wf_compact j : wf j = true -> wf (compact j) = true.
Proof.
  induction j as [|b|lit|raw|l IH|l IH] using json_rect'; cbn; intros H; try done.
  - by apply units_str_ok, units_esc_html, str_ok_units.
  - rewrite forallb_forall in H |- *. intros x (y & <- & Hy)%in_map_iff.
    rewrite Forall_forall in IH. apply IH; [by apply list_elem_of_In|by apply H].
  - rewrite forallb_forall in H |- *. intros x (y & <- & Hy)%in_map_iff. cbn.
    rewrite Forall_forall in IH. specialize (H y Hy). bool_hyps. apply andb_true_iff. split.
    + by apply units_str_ok, units_esc_html, str_ok_units.
    + apply IH; [by apply list_elem_of_In|done].
Qed.

Lemma jdepth_compact j : jdepth (compact j) = jdepth j.
Proof.
  induction j as [|b|lit|raw|l IH|l IH] using json_rect'; try done; cbn; f_equal;
    induction IH as [|x l Hx _ IHl]; cbn; congruence.
Qed.

(** ** Maps in and out of JSON *)

Lemma members_map_lookup l :
  NoDup (map (fun kv => unquote_str kv.1) l) ->
  members_map l = list_to_map (map (fun kv => (unquote_str kv.1, kv.2)) l).
Proof.
  intros H. unfold members_map.
  set (l' := map (fun kv => (unquote_str kv.1, kv.2)) l).
  assert (forall m, fold_left (fun m kv => <[unquote_str kv.1 := kv.2]> m) l m
    = fold_left (fun m kv => <[kv.1 := kv.2]> m) l' m) as ->.
  { unfold l'. clear. induction l as [|kv l IH]; intros m; [done|]. cbn. apply IH. }
  assert (NoDup (l'.*1)) as Hnd.
  { revert H. unfold l'. clear. by rewrite <-list_fmap_compose. }
  rewrite <-fold_left_rev_right. transitivity (list_to_map (M := gmap string json) (rev l')).
  - induction (rev l') as [|[k v] r IH]; cbn; [done|]. by rewrite IH.
  - apply list_to_map_proper; [|symmetry; apply Permutation_rev].
    by rewrite <-Permutation_rev.
Qed.

Lemma entries_perm {A} (m : gmap string A) : entries m ≡ₚ map_to_list m.
Proof. apply merge_sort_Permutation. Qed.

Lemma elem_of_entries {A} (m : gmap string A) k v : (k, v) ∈ entries m <-> m !! k = Some v.
Proof. rewrite entries_perm. apply elem_of_map_to_list. Qed.

Lemma list_to_map_entries {A} (m : gmap string A) : list_to_map (entries m) = m.
Proof.
  rewrite <-(list_to_map_to_list m) at 2. apply list_to_map_proper; [|apply entries_perm].
  rewrite entries_perm. apply NoDup_fst_map_to_list.
Qed.

Lemma entries_fmap {A B} (f : A -> B) (m : gmap string A) :
  list_to_map (map (fun kv => (kv.1, f kv.2)) (entries m)) = f <$> m.
Proof.
  rewrite <-(list_to_map_entries m) at 2. rewrite <-list_to_map_fmap. done.
Qed.

(** Reading back the object a map is written as. *)
Lemma unmarshal_json_of_map m :
  map_Forall (fun k _ => utf8_str k = true) m ->
  unmarshal_map (json_of_map m) = Ok (Some (compact <$> m)).
Proof.
  intros Hk. cbn. do 2 f_equal.
  assert (map (fun kv => (unquote_str kv.1, kv.2))
    (map (fun kv => (quote (bytes_of kv.1), compact kv.2)) (entries m))
    = map (fun kv => (kv.1, compact kv.2)) (entries m)) as E.
  { rewrite map_map. apply map_ext_in. intros [k v] Hkv. cbn. f_equal.
    apply unquote_str_quote. apply list_elem_of_In, elem_of_entries in Hkv. by apply (Hk k v). }
  rewrite members_map_lookup.
  - by rewrite E, entries_fmap.
  - assert (map (fun kv : bytes * json => unquote_str kv.1)
      (map (fun kv => (quote (bytes_of kv.1), compact kv.2)) (entries m)) = (entries m).*1) as ->.
    { transitivity (map fst (map (fun kv : bytes * json => (unquote_str kv.1, kv.2))
        (map (fun kv => (quote (bytes_of kv.1), compact kv.2)) (entries m)))).
      - by rewrite !map_map.
      - rewrite E, map_map. done. }
    rewrite entries_perm. apply NoDup_fst_map_to_list.
Qed.

Lemma wf_json_of_map m : map_Forall (fun _ v => wf v = true) m -> wf (json_of_map m) = true.
Proof.
  intros H. cbn. apply forallb_forall. intros x (kv & <- & Hkv)%in_map_iff. cbn.
  rewrite str_ok_quote. apply wf_compact. destruct kv as [k v].
  apply list_elem_of_In, elem_of_entries in Hkv. by apply (H k v).
Qed.

Lemma jdepth_json_of_map m d :
  map_Forall (fun _ v => (jdepth v < d)%N) m -> (0 < d)%N -> (jdepth (json_of_map m) <= d)%N.
Proof.
  intros H Hd. cbn.
  enough (fold_right (fun kv acc => N.max (jdepth kv.2) acc) 0%N
    (map (fun kv => (quote (bytes_of kv.1), compact kv.2)) (entries m)) < d)%N by lia.
  assert (Forall (fun kv => (jdepth kv.2 < d)%N) (entries m)) as HF.
  { apply Forall_forall. intros [k v] Hkv%elem_of_entries. by apply (H k v). }
  induction HF as [|kv l Hkv _ IH]; cbn; [lia|]. rewrite jdepth_compact. lia.
Qed.

(** A Go map survives [json.Marshal] and [json.Unmarshal], compacted. *)
Lemma unmarshal_marshal_map m :
  map_ok m -> unmarshal unmarshal_map (marshal_map m) = Ok (Some (compact <$> m)).
Proof.
  intros H. unfold unmarshal, marshal_map. rewrite parse_print.
  - apply unmarshal_json_of_map. intros k v Hkv. by destruct (H k v Hkv).
  - apply wf_json_of_map. intros k v Hkv. destruct (H k v Hkv) as [_ Hr].
    unfold raw_ok in Hr. by bool_hyps.
  - apply jdepth_json_of_map; [|done]. intros k v Hkv. destruct (H k v Hkv) as [_ Hr].
    unfold raw_ok in Hr. bool_hyps. by apply N.ltb_lt.
Qed.

(** ** The writer's HTML rewriting is idempotent *)

Definition special (c : ascii) : bool := Ascii.eqb c "<" || Ascii.eqb c ">" || Ascii.eqb c "&".
Definition at_line_sep (l : bytes) : bool :=
  match l with
  | c :: d :: e :: _ =>
      (bval c =? 226) && (bval d =? 128) && ((bval e =? 168) || (bval e =? 169))
  | _ => false
  end.

(** Nothing in the text is subject to the rewriting. *)
Inductive hfree : bytes -> Prop :=
| hfree_nil : hfree []
| hfree_cons c r : special c = false -> at_line_sep (c :: r) = false -> hfree r -> hfree (c :: r).
#[export] Hint Constructors hfree : wire.

Lemma esc_html_step c r :
  special c = false -> at_line_sep (c :: r) = false -> esc_html (c :: r) = c :: esc_html r.
Proof.
  unfold special. intros H Hl. bool_hyps. rewrite esc_html_cons.
  repeat match goal with H : Ascii.eqb c _ = false |- _ => rewrite H; clear H end.
  destruct r as [|d [|e r]]; try done. unfold at_line_sep in Hl.
  destruct (bval c =? 226), (bval d =? 128); cbn in *; try done. bool_hyps.
  by repeat match goal with H : (bval e =? _) = false |- _ => rewrite H; clear H end.
Qed.

Lemma esc_html_hfree l : hfree l -> esc_html l = l.
Proof. induction 1 as [|c r Hs Hl _ IH]; [done|]. by rewrite esc_html_step, IH. Qed.

Definition safe_ascii (u : bytes) : bool := forallb (fun c => (bval c <? 128) && negb (special c)) u.

(** The cases of the rewriting at a non-empty text. *)
Lemma esc_html_cases c r :
  (special c = false /\ at_line_sep (c :: r) = false /\ esc_html (c :: r) = c :: esc_html r) \/
  (exists u r', safe_ascii u = true /\ hd c u = backslash /\
     u <> [] /\ (length r' <= length r)%nat /\ esc_html (c :: r) = u ++ esc_html r').
Proof.
  destruct (special c) eqn:Hs.
  - right. unfold special in Hs. rewrite esc_html_cons.
    destruct (Ascii.eqb c "<"); [by exists (bytes_of "\u003c"), r|].
    destruct (Ascii.eqb c ">"); [by exists (bytes_of "\u003e"), r|].
    destruct (Ascii.eqb c "&"); [by exists (bytes_of "\u0026"), r|done].
  - destruct (at_line_sep (c :: r)) eqn:Hl; [|by left; split_and!; auto using esc_html_step].
    right. destruct r as [|d [|e r]]; try done. rewrite esc_html_cons.
    unfold special in Hs. bool_hyps.
    repeat match goal with H : Ascii.eqb c _ = false |- _ => rewrite H; clear H end.
    unfold at_line_sep in Hl. destruct (bval c =? 226), (bval d =? 128); try done.
    destruct (bval e =? 168); cbn in *.
    + exists (bytes_of "\u2028"), r. split_and!; [done|done|done|lia|done].
    + rewrite Hl. exists (bytes_of "\u2029"), r. split_and!; [done|done|done|lia|done].
Qed.

Lemma hfree_app_ascii u l :
  safe_ascii u = true -> hfree l -> hfree (u ++ l).
Proof.
  induction u as [|c u IH]; [done|]. cbn. intros H Hl. bool_hyps. constructor; [done| |auto].
  unfold at_line_sep. destruct (u ++ l) as [|? [|? ?]]; try done.
  destruct (Z.eqb_spec (bval c) 226); [lia|done].
Qed.

(** A line separator in the output was one in the input. *)
Lemma at_line_sep_esc c r : at_line_sep (c :: esc_html r) = true -> at_line_sep (c :: r) = true.
Proof.
  destruct r as [|d r]; [done|]. destruct (esc_html_cases d r) as [(Hs & Hl & ->)|(u & r' & Hu & Hh & Hn & _ & ->)].
  - destruct r as [|e r]; [done|]. destruct (esc_html_cases e r) as [(_ & _ & ->)|(u & r' & Hu & Hh & Hn & _ & ->)].
    + done.
    + destruct u as [|e' u]; [done|]. cbn in Hh. subst e'. cbn.
      change (bval backslash =? 168) with false. change (bval backslash =? 169) with false.
      by rewrite andb_false_r.
  - destruct u as [|d' u]; [done|]. cbn in Hh. subst d'. cbn.
    destruct (u ++ esc_html r'); [done|]. change (bval backslash =? 128) with false.
    by rewrite andb_false_r.
Qed.

Lemma hfree_esc_html l : hfree (esc_html l).
Proof.
  induction l as [l IH] using (induction_ltof1 _ length). unfold ltof in IH.
  destruct l as [|c r]; [constructor|].
  destruct (esc_html_cases c r) as [(Hs & Hl & ->)|(u & r' & Hu & _ & _ & Hlen & ->)].
  - constructor; [done| |apply IH; cbn; lia].
    destruct (at_line_sep (c :: esc_html r)) eqn:E; [|done].
    apply at_line_sep_esc in E. congruence.
  - apply hfree_app_ascii; [done|]. apply IH. cbn. lia.
Qed.

Lemma esc_html_idem l : esc_html (esc_html l) = esc_html l.
Proof. apply esc_html_hfree, hfree_esc_html. Qed.

Lemma esc_byte_safe c :
  bval c < 128 -> safe_ascii (esc_byte c) = true.
Proof.
  apply (all_bytes_forall (fun c => bval c < 128 -> safe_ascii (esc_byte c) = true)).
  by vm_compute.
Qed.

(** Only the first byte of a multi-byte sequence can be E2, and then there are three. *)
Lemma utf8_seq_e2 a l s r :
  utf8_seq (a :: l) = Some (s, r) ->
  exists t, s = a :: t /\ Forall (fun c => 128 <= bval c < 192) t /\
    (bval a = 226 -> length t = 2%nat).
Proof.
  assert (forall c lo hi, in_range c lo hi = true -> lo <= bval c <= hi) as R.
  { unfold in_range. intros. bool_hyps. lia. }
  destruct l as [|b l]; [done|]. cbn [utf8_seq].
  destruct (in_range a 194 223 && cont b) eqn:E2.
  { intros [= <- <-]. bool_hyps. unfold cont in *. exists [b].
    repeat match goal with H : in_range _ _ _ = true |- _ => apply R in H end.
    split; [done|]. split; [repeat constructor; lia|lia]. }
  destruct l as [|c l]; [done|].
  match goal with |- context [if ?x then _ else _] => destruct x eqn:E3 end.
  { intros [= <- <-]. exists [b; c]. split; [done|]. split; [|done].
    clear E2. unfold cont, in_range in E3. repeat constructor; lia. }
  destruct l as [|d l]; [done|].
  match goal with |- context [if ?x then _ else _] => destruct x eqn:E4 end; [|done].
  intros [= <- <-]. exists [b; c; d]. split; [done|].
  clear E2 E3. unfold cont, in_range in E4. split; [repeat constructor; lia|lia].
Qed.

Lemma special_high c : 128 <= bval c -> special c = false.
Proof.
  apply (all_bytes_forall (fun c => 128 <= bval c -> special c = false)). by vm_compute.
Qed.

Lemma hfree_high t l : Forall (fun c => 128 <= bval c < 192) t -> hfree l -> hfree (t ++ l).
Proof.
  induction 1 as [|c t Hc _ IH]; [done|]. intros H. cbn. constructor.
  - apply special_high; lia.
  - unfold at_line_sep. destruct (t ++ l) as [|? [|? ?]]; try done.
    destruct (Z.eqb_spec (bval c) 226); [lia|done].
  - auto.
Qed.

Lemma hfree_quote s : hfree (quote s).
Proof.
  induction s as [s IH] using (induction_ltof1 _ length). unfold ltof in IH.
  destruct s as [|c s]; [constructor|]. rewrite quote_cons.
  assert (hfree (quote (quote_step c s).2)) as IH'
    by (apply IH; pose proof (quote_step_shrinks c s); cbn; lia).
  clear IH. revert IH'. unfold quote_step.
  destruct (Z.ltb_spec (bval c) 128) as [Hc|Hc]; cbn [fst snd].
  { apply hfree_app_ascii. by apply esc_byte_safe. }
  destruct (utf8_seq (c :: s)) as [[q r]|] eqn:E; cbn [fst snd].
  - destruct (line_sep q) as [e|] eqn:El.
    + apply hfree_app_ascii. unfold line_sep in El.
      repeat case_bool_decide; by simplify_eq.
    + intros IH'. destruct (utf8_seq_e2 _ _ _ _ E) as (t & -> & Ht & H3). cbn.
      constructor; [apply special_high; lia| |by apply hfree_high].
      destruct (Z.eq_dec (bval c) 226) as [Hc2|Hc2].
      * specialize (H3 Hc2). destruct t as [|d [|e [|? ?]]]; try done. cbn.
        unfold line_sep in El. repeat case_bool_decide; try done.
        destruct ((bval c =? 226) && (bval d =? 128) && ((bval e =? 168) || (bval e =? 169))) eqn:Eb;
          [|done]. exfalso. bool_hyps.
        assert (forall x z, bval x = z -> x = byte_of z) as Hinj
          by (intros x z <-; by rewrite byte_of_bval).
        destruct (Z.eqb_spec (bval e) 168) as [He|_].
        -- match goal with H : _ <> utf8_enc 8232 |- _ => apply H end.
           rewrite (Hinj c 226), (Hinj d 128), (Hinj e 168) by lia. done.
        -- match goal with H : _ <> utf8_enc 8233 |- _ => apply H end.
           rewrite (Hinj c 226), (Hinj d 128), (Hinj e 169) by lia. done.
      * unfold at_line_sep. destruct (t ++ quote r) as [|? [|? ?]]; try done.
        by destruct (Z.eqb_spec (bval c) 226).
  - by apply hfree_app_ascii.
Qed.

Lemma esc_html_quote s : esc_html (quote s) = quote s.
Proof. apply esc_html_hfree, hfree_quote. Qed.

Lemma compact_idem j : compact (compact j) = compact j.
Proof.
  induction j as [|b|lit|raw|l IH|l IH] using json_rect'; cbn; f_equal; try done.
  - apply esc_html_idem.
  - rewrite map_map. by apply map_ext_Forall.
  - rewrite map_map. apply map_ext_Forall. eapply Forall_impl; [done|].
    intros [k v] Hv. cbn in *. by rewrite esc_html_idem, Hv.
Qed.

Lemma compact_jstr s : compact (jstr s) = jstr s.
Proof. cbn. by rewrite esc_html_quote. Qed.

Lemma compact_json_of_map m : compact (json_of_map m) = json_of_map m.
Proof.
  unfold json_of_map. cbn [compact]. rewrite map_map. f_equal. apply map_ext. intros [k v]. cbn [fst snd].
  by rewrite esc_html_quote, compact_idem.
Qed.

(** The order of keys is a total order. *)
Lemma string_leb_trans : Transitive (fun s t : string => String.leb s t = true).
Proof.
  unfold String.leb. intros s. induction s as [|a s IH]; intros [|b t] [|c u]; cbn; try done.
  unfold Ascii.compare.
  destruct (N.compare_spec (N_of_ascii a) (N_of_ascii b));
    destruct (N.compare_spec (N_of_ascii b) (N_of_ascii c));
    destruct (N.compare_spec (N_of_ascii a) (N_of_ascii c)); try done; try lia.
  intros Hst Htu. by apply (IH t u).
Qed.

#[export] Instance key_le_trans A : Transitive (@key_le A).
Proof. intros x y z. apply string_leb_trans. Qed.
#[export] Instance key_le_total A : Total (@key_le A).
Proof. intros x y. apply String.leb_total. Qed.

Lemma entries_sorted {A} (m : gmap string A) : StronglySorted key_le (entries m).
Proof. apply Sorted_StronglySorted; [apply _|]. apply Sorted_merge_sort, _. Qed.

(** Mapping the values does not change the order of a map's entries. *)
Lemma entries_map {A B} (f : A -> B) (m : gmap string A) :
  entries (f <$> m) = map (fun kv => (kv.1, f kv.2)) (entries m).
Proof.
  assert (entries (f <$> m) ≡ₚ map (fun kv => (kv.1, f kv.2)) (entries m)) as Hp.
  { rewrite !entries_perm, map_to_list_fmap. apply reflexive_eq, map_ext. by intros []. }
  apply (StronglySorted_unique_strong key_le); [|apply entries_sorted| |done].
  - intros [k1 v1] [k2 v2] H1%elem_of_entries H2 A1 A2.
    rewrite <-Hp in H2. apply elem_of_entries in H2.
    assert (k1 = k2) as -> by (by apply String.leb_antisym). congruence.
  - pose proof (entries_sorted m) as H. clear Hp.
    induction H as [|kv l _ IH HF]; cbn; constructor; [done|].
    rewrite Forall_map. eapply Forall_impl; [done|]. done.
Qed.

Lemma json_of_map_compact m : json_of_map (compact <$> m) = json_of_map m.
Proof.
  unfold json_of_map. rewrite entries_map, map_map. f_equal. apply map_ext.
  intros [k v]. cbn. by rewrite compact_idem.
Qed.
