(* ===== verification/GoUrl.v ===== *)
(** * GoUrl: [net/url]'s view of a URL, and splitting text

    What [url.Parse] makes of a text is a parameter, a class of one function from texts to
    the fields read here; what is read off the fields ([URL.Port], [URL.Hostname]) is
    defined. Beside it, the [strings] functions that take text apart at a separator. *)

From S2P Require Import Prelude GoBytes GoDecode.

(** ** [strings] *)

(** [strings.HasSuffix] and [strings.TrimSuffix]. *)
Definition has_suffix (s p : string) : bool :=
  match strip_prefix (rev (bytes_of p)) (rev (bytes_of s)) with Some _ => true | None => false end.
Definition trim_suffix (s p : string) : string :=
  match strip_prefix (rev (bytes_of p)) (rev (bytes_of s)) with Some r => str_of (rev r) | None => s end.

(** [strings.Split] at a one-byte separator: one piece more than there are separators. *)
Fixpoint split_on (sep : ascii) (l : bytes) : list bytes :=
  match l with
  | [] => [[]]
  | c :: l =>
      match split_on sep l with
      | p :: ps => if Ascii.eqb c sep then [] :: p :: ps else (c :: p) :: ps
      | [] => [[]]
      end
  end.

(** Its inverse, [strings.Join]. *)
Fixpoint join_on (sep : ascii) (ps : list bytes) : bytes :=
  match ps with
  | [] => []
  | [p] => p
  | p :: ps => p ++ sep :: join_on sep ps
  end.

Lemma split_on_cons sep l : exists p ps, split_on sep l = p :: ps.
Proof.
  induction l as [|c l (p & ps & IH)]; cbn; [eauto|]. rewrite IH. destruct (Ascii.eqb c sep); eauto.
Qed.

Lemma split_on_piece sep p : sep ∉ p -> split_on sep p = [p].
Proof.
  induction p as [|c p IH]; cbn; [done|]. intros Hn. rewrite IH by (intros Hp; apply Hn; by right).
  destruct (Ascii.eqb_spec c sep) as [->|]; [|done]. destruct Hn. by left.
Qed.

Lemma split_on_app sep p l : sep ∉ p -> split_on sep (p ++ sep :: l) = p :: split_on sep l.
Proof.
  induction p as [|c p IH]; cbn; intros Hn.
  - destruct (split_on_cons sep l) as (q & qs & ->). by rewrite Ascii.eqb_refl.
  - rewrite IH by (intros Hp; apply Hn; by right).
    destruct (Ascii.eqb_spec c sep) as [->|]; [|done]. destruct Hn. by left.
Qed.

Lemma split_join sep ps : ps <> [] -> Forall (fun p => sep ∉ p) ps -> split_on sep (join_on sep ps) = ps.
Proof.
  intros Hne. induction 1 as [|p ps Hp Hps IH]; [done|]. destruct ps as [|q ps]; [by apply split_on_piece|].
  change (join_on sep (p :: q :: ps)) with (p ++ sep :: join_on sep (q :: ps)). rewrite split_on_app by done. by rewrite IH.
Qed.

Lemma join_split sep l : join_on sep (split_on sep l) = l.
Proof.
  induction l as [|c l IH]; [done|]. cbn. destruct (split_on_cons sep l) as (p & ps & E). rewrite E in *.
  destruct (Ascii.eqb_spec c sep) as [->|]; [|by destruct ps; cbn in *; rewrite <-IH].
  change (join_on sep ([] :: p :: ps)) with (sep :: join_on sep (p :: ps)). by rewrite IH.
Qed.

Lemma split_no_sep sep l : Forall (fun p => sep ∉ p) (split_on sep l).
Proof.
  induction l as [|c l IH]; cbn.
  - constructor; [by apply not_elem_of_nil|constructor].
  - destruct (split_on_cons sep l) as (p & ps & E). rewrite E in *. inversion IH as [|? ? Hp Hps]; subst.
    destruct (Ascii.eqb_spec c sep) as [->|Hne]; constructor; [by apply not_elem_of_nil|done| |done].
    intros [->|?]%elem_of_cons; [by apply Hne|done].
Qed.

(** ** [net/url] *)

Record URL := MkURL {
  u_Scheme : string; u_Opaque : string; u_User : bool; u_Host : string;
  u_Path : string; u_RawQuery : string; u_ForceQuery : bool; u_EscapedPath : string
}.

(** [url.Parse]; the user information is only known to be there. *)
Class UrlLib := url_Parse : string -> option URL.

(** [validOptionalPort] and [splitHostPort]. *)
Definition validOptionalPort (port : bytes) : bool :=
  match port with
  | [] => true
  | c :: ds => Ascii.eqb c ":" && forallb is_digit ds
  end.
Definition splitHostPort (hostPort : string) : bytes * bytes :=
  match split_last ":" (bytes_of hostPort) with
  | Some (h, p) => if forallb is_digit p then (h, p) else (bytes_of hostPort, [])
  | None => (bytes_of hostPort, [])
  end.
Definition u_Port (u : URL) : string := str_of (splitHostPort (u_Host u)).2.
Definition u_Hostname (u : URL) : string :=
  let h := (splitHostPort (u_Host u)).1 in
  match h with
  | c :: r => if Ascii.eqb c "[" then match rev r with
                                      | d :: r => if Ascii.eqb d "]" then str_of (rev r) else str_of h
                                      | [] => str_of h
                                      end
              else str_of h
  | [] => ""
  end.

(** ** [strconv.Atoi] *)

Definition Atoi (s : bytes) : option Z :=
  match s with
  | c :: r => if Ascii.eqb c "+" then
                match r with d :: _ => if is_digit d then int64_of_lit r else None | [] => None end
              else int64_of_lit s
  | [] => None
  end.
