(* ===== verification/GoJsonEq.v ===== *)
(** * GoJsonEq: when two token trees carry the same JSON data

    [jequiv] is equality of the data a JSON text denotes: strings by their decoded
    value, numbers by their double (RFC 8785 writes both zeros as [0]), objects by
    the last value of each name. It is the relation RFC 8785 canonicalisation
    respects, so it is what the protocol's additional data pins down. Writing a
    value back ([compact]) preserves it. *)

From S2P Require Import Prelude GoBytes GoJson GoDecode.

Definition unsigned_zero (x : f64) : f64 :=
  match x with SpecFloat.S754_zero _ => SpecFloat.S754_zero false | _ => x end.

Definition num_value (lit : bytes) : option f64 := unsigned_zero <$> f64_of_lit lit.

#[warnings="-register-all"]
Inductive jequiv : json -> json -> Prop :=
| jequiv_null : jequiv JNull JNull
| jequiv_bool b : jequiv (JBool b) (JBool b)
| jequiv_num l1 l2 : num_value l1 = num_value l2 -> jequiv (JNum l1) (JNum l2)
| jequiv_str r1 r2 : unquote r1 = unquote r2 -> jequiv (JStr r1) (JStr r2)
| jequiv_arr l1 l2 : Forall2 jequiv l1 l2 -> jequiv (JArr l1) (JArr l2)
| jequiv_obj l1 l2 :
    (forall k, option_Forall2 jequiv (members_map l1 !! k) (members_map l2 !! k)) ->
    jequiv (JObj l1) (JObj l2).

(** Two Go maps of raw messages with the same data under every key. *)
Definition map_jequiv (m1 m2 : gmap string json) : Prop :=
  forall k, option_Forall2 jequiv (m1 !! k) (m2 !! k).

(** ** Decoding does not see the HTML rewriting *)

Lemma esc_html_high t r :
  Forall (fun c => 128 <= bval c < 192) t -> esc_html (t ++ r) = t ++ esc_html r.
Proof.
  induction 1 as [|c t Hc _ IH]; [done|]. cbn [app]. rewrite esc_html_step, IH; [done| |].
  - apply special_high; lia.
  - unfold at_line_sep. destruct (t ++ r) as [|? [|? ?]]; try done.
    by destruct (Z.eqb_spec (bval c) 226); [lia|].
Qed.

Lemma esc_html_high_inv t r Y :
  Forall (fun c => 128 <= bval c < 192) t -> esc_html r = t ++ Y -> exists r0, r = t ++ r0.
Proof.
  intros H. revert r. induction H as [|c t Hc _ IH]; intros r E; [by exists r|].
  destruct r as [|d r]; [done|].
  destruct (esc_html_cases d r) as [(_ & _ & E')|(u & r' & _ & Hh & Hn & _ & E')];
    rewrite E' in E; clear E'.
  - injection E as -> E. destruct (IH _ E) as [r0 ->]. by exists r0.
  - destruct u as [|x u]; [done|]. cbn in Hh. subst x. injection E as <- _. change (bval backslash) with 92 in Hc. lia.
Qed.

Lemma units_high_inv t r : Forall (fun c => 128 <= bval c < 192) t -> units (t ++ r) -> units r.
Proof.
  induction 1 as [|c t Hc _ IH]; [done|]. cbn. inversion 1; subst; auto; exfalso;
    match goal with H : _ <= bval _ < _ |- _ => change (bval backslash) with 92 in H; lia end.
Qed.

Lemma hex_plain h : is_hex h = true ->
  special h = false /\ (bval h =? 226) = false.
Proof.
  apply (all_bytes_forall (fun h => is_hex h = true -> special h = false /\ (bval h =? 226) = false)).
  by vm_compute.
Qed.

Lemma escape_plain e : is_Some (escape_val e) -> special e = false /\ (bval e =? 226) = false.
Proof.
  intros [x Hx]. assert (escape_val e <> None) as H by congruence. revert H. clear. revert e.
  apply (all_bytes_forall (fun e => escape_val e <> None ->
    special e = false /\ (bval e =? 226) = false)). by vm_compute.
Qed.

Lemma esc_html_plain c r : special c = false -> (bval c =? 226) = false ->
  esc_html (c :: r) = c :: esc_html r.
Proof.
  intros Hs H. apply esc_html_step; [done|]. unfold at_line_sep.
  destruct r as [|? [|? ?]]; try done. by rewrite H.
Qed.

Lemma esc_html_u a b c d r :
  is_hex a = true -> is_hex b = true -> is_hex c = true -> is_hex d = true ->
  esc_html (backslash :: "u"%char :: a :: b :: c :: d :: r)
  = backslash :: "u"%char :: a :: b :: c :: d :: esc_html r.
Proof.
  intros Ha%hex_plain Hb%hex_plain Hc%hex_plain Hd%hex_plain. destruct_and!.
  by rewrite !esc_html_plain by done.
Qed.

Lemma take_u_units a b c d r :
  is_hex a = true -> is_hex b = true -> is_hex c = true -> is_hex d = true ->
  take_u (backslash :: "u"%char :: a :: b :: c :: d :: r) = Some (hex4 a b c d, r).
Proof. intros Ha Hb Hc Hd. cbn. by rewrite Ha, Hb, Hc, Hd. Qed.

Lemma take_u_not_backslash c r : c <> backslash -> take_u (c :: r) = None.
Proof.
  intros H. destruct r as [|? [|? [|? [|? [|? ?]]]]]; cbn; try done.
  by destruct (Ascii.eqb_spec c backslash).
Qed.

Lemma take_u_not_u e r : Ascii.eqb e "u" = false -> take_u (backslash :: e :: r) = None.
Proof. intros H. destruct r as [|? [|? [|? [|? ?]]]]; cbn; try done. by rewrite H. Qed.

(** What follows a high surrogate pairs with it before the rewriting iff it does after. *)
Definition low_next (l : bytes) : option (Z * bytes) :=
  match take_u l with
  | Some (v, r) => if (56320 <=? v) && (v <? 57344) then Some (v, r) else None
  | None => None
  end.

Lemma low_next_esc r :
  units r ->
  match low_next r with
  | Some (v, r') => low_next (esc_html r) = Some (v, esc_html r') /\ units r' /\
                    (length r' < length r)%nat
  | None => low_next (esc_html r) = None
  end.
Proof.
  intros Hu. destruct Hu as [|c r Hq Hb Hc Hr|e r He Hx Hr|a b c d r Ha Hb Hc Hd Hr].
  - done.
  - unfold low_next at 1. rewrite take_u_not_backslash by done.
    rewrite esc_html_cons. unfold low_next.
    destruct (Ascii.eqb c "<"); [done|].
    destruct (Ascii.eqb c ">"); [done|].
    destruct (Ascii.eqb c "&"); [done|].
    destruct r as [|d [|e r]]; try by rewrite take_u_not_backslash.
    destruct (_ && _ && _); [done|].
    destruct (_ && _ && _); [done|]. by rewrite take_u_not_backslash.
  - destruct (escape_plain e Hx) as [He1 He2]. unfold low_next.
    rewrite take_u_not_u, !esc_html_plain, take_u_not_u by done. done.
  - unfold low_next. rewrite esc_html_u, !take_u_units by done.
    destruct (_ && _); [|done]. split_and!; [done|done|cbn; lia].
Qed.

(** A [\u] unit, with the surrogate rule phrased through [low_next]. *)
Lemma unq_step_u a b c d r :
  is_hex a = true -> is_hex b = true -> is_hex c = true -> is_hex d = true ->
  unq_step backslash ("u"%char :: a :: b :: c :: d :: r) =
  let u := hex4 a b c d in
  if is_surrogate u then
    match low_next r with
    | Some (v, r') =>
        if u <? 56320 then (utf8_enc (65536 + 1024 * (u - 55296) + (v - 56320)), r')
        else (replacement, r)
    | None => (replacement, r)
    end
  else (utf8_enc u, r).
Proof.
  intros Ha Hb Hc Hd. unfold unq_step. rewrite Ascii.eqb_refl, take_u_units by done. cbv zeta.
  destruct (is_surrogate _); [|done]. unfold low_next.
  destruct (take_u r) as [[v r']|]; [|done]. rewrite <-andb_assoc.
  destruct (hex4 a b c d <? 56320), ((56320 <=? v) && (v <? 57344)); done.
Qed.

Lemma unquote_esc_html raw : units raw -> unquote (esc_html raw) = unquote raw.
Proof.
  induction raw as [raw IH] using (induction_ltof1 _ length). unfold ltof in IH. intros Hu.
  destruct Hu as [|c r Hq Hb Hc Hr|e r He Hx Hr|a b c d r Ha Hb Hc Hd Hr]; [done|..].
  - assert (unquote (esc_html r) = unquote r) as IHr by (apply IH; [cbn; lia|done]).
    rewrite (unquote_cons c r). unfold unq_step.
    destruct (Ascii.eqb_spec c backslash); [done|].
    destruct (Z.ltb_spec (bval c) 128) as [Hlt|Hge].
    + cbn [fst snd]. rewrite <-IHr, esc_html_cons.
      destruct (Ascii.eqb_spec c "<") as [->|]; [apply (unq_esc_byte "<"); by vm_compute|].
      destruct (Ascii.eqb_spec c ">") as [->|]; [apply (unq_esc_byte ">"); by vm_compute|].
      destruct (Ascii.eqb_spec c "&") as [->|]; [apply (unq_esc_byte "&"); by vm_compute|].
      assert (unquote (c :: esc_html r) = [c] ++ unquote (esc_html r)) as Hp.
      { rewrite unquote_cons. unfold unq_step. destruct (Ascii.eqb_spec c backslash); [done|].
        by apply Z.ltb_lt in Hlt as ->. }
      destruct (Z.eqb_spec (bval c) 226); [lia|]. by destruct r as [|? [|? ?]].
    + destruct (utf8_seq (c :: r)) as [[s r']|] eqn:E; cbn [fst snd].
      * pose proof (utf8_seq_spec _ _ _ E) as (Heq & HX & _).
        destruct (utf8_seq_e2 _ _ _ _ E) as (t & -> & Ht & H3).
        injection Heq as ->.
        assert (units r') as Hr' by by eapply units_high_inv.
        assert (unquote (esc_html r') = unquote r') as IHr'
          by (apply IH; [cbn; rewrite length_app; lia|done]).
        destruct (at_line_sep (c :: t ++ r')) eqn:El.
        -- (* a line separator *)
           assert (bval c = 226) as Hc2.
           { unfold at_line_sep in El. destruct (t ++ r') as [|? [|? ?]]; try done.
             by destruct (Z.eqb_spec (bval c) 226). }
           destruct t as [|d [|e [|? ?]]]; try (by specialize (H3 Hc2)). cbn in El.
           rewrite <-IHr'. cbn [app]. rewrite esc_html_cons.
           assert (special c = false) as Hs by (apply special_high; lia).
           unfold special in Hs. bool_hyps.
           repeat match goal with H : Ascii.eqb c _ = false |- _ => rewrite H; clear H end.
           assert (forall x z, bval x = z -> x = byte_of z) as Hinj
             by (intros x z <-; by rewrite byte_of_bval).
           destruct (Z.eqb_spec (bval c) 226); [|done].
           destruct (Z.eqb_spec (bval d) 128); [|done]. cbn [andb] in *.
           rewrite (Hinj c 226), (Hinj d 128) by done.
           destruct (Z.eqb_spec (bval e) 168).
           ++ rewrite (Hinj e 168) by done.
              apply (unq_line_sep [byte_of 226; byte_of 128; byte_of 168] (bytes_of "\u2028")
                       (esc_html r') eq_refl).
           ++ rename select (orb _ _ = true) into El. cbn [orb] in El. rewrite El.
              apply Z.eqb_eq in El.
              rewrite (Hinj e 169) by done.
              apply (unq_line_sep [byte_of 226; byte_of 128; byte_of 169] (bytes_of "\u2029")
                       (esc_html r') eq_refl).
        -- rewrite esc_html_step by (done || (apply special_high; lia)).
           rewrite esc_html_high by done. rewrite <-IHr'.
           by apply (unq_seq c (t ++ r') (c :: t) r'); [lia|].
      * assert (at_line_sep (c :: r) = false) as El.
        { destruct (at_line_sep (c :: r)) eqn:El; [|done]. exfalso.
          unfold at_line_sep in El. destruct r as [|d [|e r]]; try done. bool_hyps.
          cbn [utf8_seq] in E. unfold in_range, cont, in_range in E.
          repeat match goal with H : (bval _ =? _) = true |- _ => apply Z.eqb_eq in H end.
          rename select (bval c = 226) into Hc2. rename select (bval d = 128) into Hd2.
          rename select (orb _ _ = true) into He2. rewrite Hc2, Hd2 in E.
          apply orb_true_iff in He2 as [He2|He2]; apply Z.eqb_eq in He2; rewrite He2 in E;
            by cbn in E. }
        rewrite esc_html_step by (done || (apply special_high; lia)).
        rewrite unquote_cons, <-IHr. unfold unq_step.
        destruct (Ascii.eqb_spec c backslash); [done|].
        destruct (Z.ltb_spec (bval c) 128); [lia|].
        destruct (utf8_seq (c :: esc_html r)) as [[s r'']|] eqn:E'; [|done]. exfalso.
        destruct (utf8_seq_e2 _ _ _ _ E') as (t & -> & Ht & _).
        apply utf8_seq_spec in E' as (Heq & HX & _). injection Heq as Heq.
        destruct (esc_html_high_inv _ _ _ Ht Heq) as [r0 ->].
        specialize (HX r0). cbn [app] in HX. congruence.
  - destruct (escape_plain e Hx) as [He1 He2]. rewrite !esc_html_plain by done.
    rewrite !unquote_cons. unfold unq_step. rewrite Ascii.eqb_refl, !take_u_not_u by done.
    destruct Hx as [x Hx]. rewrite Hx. cbn [fst snd]. f_equal. apply IH; [cbn; lia|done].
  - rewrite esc_html_u by done. rewrite !unquote_cons, !unq_step_u by done. cbv zeta.
    assert (unquote (esc_html r) = unquote r) as IHr by (apply IH; [cbn; lia|done]).
    destruct (is_surrogate _); [|cbn [fst snd]; by rewrite IHr].
    pose proof (low_next_esc r Hr) as Hl. destruct (low_next r) as [[v r']|].
    + destruct Hl as (-> & Hr' & Hlen). destruct (_ <? _); cbn [fst snd]; [|by rewrite IHr].
      f_equal. apply IH; [cbn; lia|done].
    + rewrite Hl. cbn [fst snd]. by rewrite IHr.
Qed.

Lemma unquote_str_esc raw : str_ok raw = true -> unquote_str (esc_html raw) = unquote_str raw.
Proof. intros H%str_ok_units. unfold unquote_str. by rewrite unquote_esc_html. Qed.

(** ** [jequiv] is an equivalence that [compact] respects *)

Lemma members_map_in (P : json -> Prop) l k v :
  Forall (fun kv => P kv.2) l -> members_map l !! k = Some v -> P v.
Proof.
  unfold members_map.
  enough (forall m : gmap string json, map_Forall (fun _ v => P v) m -> Forall (fun kv => P kv.2) l ->
    map_Forall (K := string) (fun _ v => P v)
      (fold_left (fun m kv => <[unquote_str kv.1 := kv.2]> m) l m)) as H.
  { intros HF Hk. by eapply (H ∅ (map_Forall_empty _) HF). }
  induction l as [|kv l IH]; intros m Hm HF; [done|]. inversion_clear HF.
  cbn. apply IH; [|done]. by apply map_Forall_insert_2.
Qed.

Lemma jequiv_refl j : jequiv j j.
Proof.
  induction j as [|b|lit|raw|l IH|l IH] using json_rect'; constructor; try done.
  - induction IH; by constructor.
  - intros k. destruct (members_map l !! k) as [v|] eqn:E; constructor.
    by eapply (members_map_in (fun v => jequiv v v)).
Qed.

#[export] Instance jequiv_reflexive : Reflexive jequiv := jequiv_refl.

Lemma members_map_compact l :
  Forall (fun kv => str_ok kv.1 = true) l ->
  members_map (map (fun kv => (esc_html kv.1, compact kv.2)) l) = compact <$> members_map l.
Proof.
  unfold members_map. rewrite <-(fmap_empty (M := gmap string) compact) at 1.
  generalize (∅ : gmap string json). induction l as [|kv l IH]; intros m H; [done|].
  inversion_clear H. cbn [map fold_left fst snd]. rewrite unquote_str_esc by done.
  rewrite <-fmap_insert. by apply IH.
Qed.

Lemma jequiv_compact j : wf j = true -> jequiv (compact j) j.
Proof.
  induction j as [|b|lit|raw|l IH|l IH] using json_rect'; cbn; intros H; constructor; try done.
  - by apply unquote_esc_html, str_ok_units.
  - rewrite forallb_forall in H. setoid_rewrite <-list_elem_of_In in H.
    rewrite Forall_forall in IH. apply Forall2_fmap_l, Forall_Forall2_diag, Forall_forall.
    intros v Hv. apply IH; auto.
  - rewrite forallb_forall in H. setoid_rewrite <-list_elem_of_In in H.
    rewrite members_map_compact by (apply Forall_forall; intros kv Hkv; specialize (H kv Hkv); by bool_hyps).
    intros k. rewrite lookup_fmap. destruct (members_map l !! k) as [v|] eqn:E; constructor.
    eapply (members_map_in (fun v => jequiv (compact v) v)); [|done].
    rewrite Forall_forall in IH. apply Forall_forall. intros kv Hkv. apply IH; [done|].
    specialize (H kv Hkv). by bool_hyps.
Qed.

Lemma jequiv_sym x y : jequiv x y -> jequiv y x.
Proof.
  revert y. induction x as [|b|lit|raw|l IH|l IH] using json_rect'; intros y H;
    inversion H as [| |? ? Hn|? ? Hs|? l2 Hl|? l2 Hm]; subst; constructor; try done.
  - clear H. revert IH. induction Hl as [|v w l1 l2 Hvw _ IH2]; intros IH; constructor;
      inversion_clear IH; auto.
  - intros k. specialize (Hm k).
    destruct (members_map l !! k) as [v|] eqn:E; inversion Hm as [? w Hvw|]; subst; constructor.
    by apply (members_map_in (fun v => forall y, jequiv v y -> jequiv y v) l k v).
Qed.

Lemma jequiv_trans x y z : jequiv x y -> jequiv y z -> jequiv x z.
Proof.
  revert y z. induction x as [|b|lit|raw|l IH|l IH] using json_rect'; intros y z H1 H2;
    inversion H1 as [| |? ? Hn|? ? Hs|? l2 Hl|? l2 Hm]; subst; inversion H2; subst; constructor;
    try congruence.
  - match goal with H : Forall2 jequiv l2 ?l |- _ => rename H into Hl2; rename l into l3 end.
    clear H1 H2. revert l3 Hl2 IH.
    induction Hl as [|v w l1 l2 Hvw _ IH2]; intros l3 Hl2 IH; inversion_clear Hl2; constructor;
      inversion_clear IH; eauto.
  - intros k. rename select (forall k, option_Forall2 _ (members_map l2 !! k) _) into Hm2.
    specialize (Hm k).
    specialize (Hm2 k).
    destruct (members_map l !! k) as [v|] eqn:E; inversion Hm as [? w Hvw Hx Hw|Hx Hw]; subst;
      rewrite <-Hw in Hm2; inversion Hm2 as [? u Hwu|]; subst; constructor.
    apply (members_map_in (fun v => forall y z, jequiv v y -> jequiv y z -> jequiv v z) l k v)
      with (y := w); done.
Qed.

#[export] Instance jequiv_equivalence : Equivalence jequiv.
Proof. split; [exact jequiv_refl|exact jequiv_sym|exact jequiv_trans]. Qed.

#[export] Instance map_jequiv_equivalence : Equivalence map_jequiv.
Proof.
  split.
  - intros m k. destruct (m !! k); by constructor.
  - intros m1 m2 H k. specialize (H k). destruct H; constructor. by symmetry.
  - intros m1 m2 m3 H12 H23 k. specialize (H12 k). specialize (H23 k).
    destruct H12; inversion H23; subst; constructor. by etransitivity.
Qed.

(** Inserting equivalent values, deleting a key and compacting respect it. *)
#[export] Instance insert_jequiv k : Proper (jequiv ==> map_jequiv ==> map_jequiv) (insert k).
Proof.
  intros v1 v2 Hv m1 m2 Hm k'. destruct (decide (k = k')) as [->|].
  - rewrite !lookup_insert_eq. by constructor.
  - rewrite !lookup_insert_ne by done. apply Hm.
Qed.

#[export] Instance delete_jequiv k : Proper (map_jequiv ==> map_jequiv) (delete k).
Proof.
  intros m1 m2 Hm k'. destruct (decide (k = k')) as [->|].
  - rewrite !lookup_delete_eq. constructor.
  - rewrite !lookup_delete_ne by done. apply Hm.
Qed.

Lemma map_jequiv_compact m : map_Forall (fun _ v => wf v = true) m -> map_jequiv (compact <$> m) m.
Proof.
  intros H k. rewrite lookup_fmap. destruct (m !! k) as [v|] eqn:E; constructor.
  apply jequiv_compact. by apply (H k v).
Qed.

(** Two spellings of one array of strings decode to the same strings. *)
Lemma unmarshal_strings_jequiv x y : jequiv x y -> unmarshal_strings x = unmarshal_strings y.
Proof.
  destruct 1 as [| | | |l1 l2 Hl|]; try done. cbn. generalize (@nil string).
  induction Hl as [|v w l1 l2 Hvw _ IH]; intros old; [done|]. cbn.
  assert (forall o, set_string o v = set_string o w) as ->.
  { intros o. destruct Hvw as [| | |r1 r2 Hr| |]; try done. cbn. unfold unquote_str. by rewrite Hr. }
  destruct (set_string _ w); [|done]. cbn. by rewrite IH.
Qed.

(** ** Decoded strings are valid UTF-8 *)

Lemma utf8_ok_fuel_eq n l : (length l <= n)%nat -> utf8_ok_fuel n l = utf8_ok l.
Proof.
  unfold utf8_ok. revert l. induction n as [n IH] using lt_wf_ind. intros [|c r] Hl; [by destruct n|].
  destruct n as [|n]; [cbn in Hl; lia|]. cbn in *. unfold utf8_step.
  destruct (bval c <? 128).
  - by rewrite IH by lia.
  - destruct (utf8_seq (c :: r)) as [[s r']|] eqn:E; [|done]. apply utf8_seq_shrinks in E. cbn in E.
    rewrite (IH n) by lia. by rewrite (IH (length r)) by lia.
Qed.

(** Bytes that may stand in front of any valid text. *)
Definition chunk (s : bytes) : Prop := forall X, utf8_ok X = true -> utf8_ok (s ++ X) = true.

Lemma chunk_nil : chunk [].
Proof. by intros X. Qed.

Lemma chunk_byte c : bval c < 128 -> chunk [c].
Proof. intros H X HX. unfold utf8_ok. cbn. unfold utf8_step. by apply Z.ltb_lt in H as ->. Qed.

Lemma chunk_seq s : (forall X, utf8_seq (s ++ X) = Some (s, X)) -> (2 <= length s)%nat ->
  Forall (fun c => 128 <= bval c) s -> chunk s.
Proof.
  intros Hs Hl Hh X HX. destruct s as [|a s]; [cbn in Hl; lia|]. inversion_clear Hh.
  specialize (Hs X). cbn [app] in *. unfold utf8_ok. cbn. unfold utf8_step.
  destruct (Z.ltb_spec (bval a) 128); [lia|]. rewrite Hs.
  rewrite utf8_ok_fuel_eq; [done|]. rewrite length_app. lia.
Qed.

Lemma in_range_byte_of z lo hi : 0 <= z < 256 -> in_range (byte_of z) lo hi = (lo <=? z) && (z <=? hi).
Proof. intros H. unfold in_range. by rewrite bval_byte_of_small. Qed.

(** The encoding of every Unicode scalar value is one valid sequence. *)
Lemma chunk_enc z : 0 <= z < 1114112 -> is_surrogate z = false -> chunk (utf8_enc z).
Proof.
  intros Hz Hs. unfold is_surrogate in Hs. unfold utf8_enc.
  destruct (Z.ltb_spec z 128).
  { apply chunk_byte. rewrite bval_byte_of_small; lia. }
  assert (forall a b, 0 < b -> 0 <= a mod b < b) as Hm by (intros; by apply Z.mod_pos_bound).
  pose proof (Hm z 64 ltac:(lia)). pose proof (Hm (z / 64) 64 ltac:(lia)).
  pose proof (Hm (z / 4096) 64 ltac:(lia)).
  pose proof (Z.div_mod z 64 ltac:(lia)). pose proof (Z.div_mod (z / 64) 64 ltac:(lia)).
  assert (z / 64 / 64 = z / 4096) as E1 by (by rewrite Z.div_div by lia).
  assert (z / 4096 / 64 = z / 262144) as E2 by (by rewrite Z.div_div by lia).
  pose proof (Z.div_mod (z / 4096) 64 ltac:(lia)).
  clear Hm. destruct (Z.ltb_spec z 2048); [|destruct (Z.ltb_spec z 65536)].
  - apply chunk_seq; [|cbn; lia|repeat constructor; rewrite bval_byte_of_small; lia].
    intros X. cbn [map app utf8_seq]. unfold cont. rewrite !in_range_byte_of by lia.
    match goal with |- context [if ?b then _ else _] => replace b with true by lia end. done.
  - apply chunk_seq; [|cbn; lia|repeat constructor; rewrite bval_byte_of_small; lia].
    intros X. cbn [map app utf8_seq]. unfold cont.
    rewrite !in_range_byte_of, !bval_byte_of_small by lia.
    match goal with |- context [if ?b then Some ([_; _], _) else _] => replace b with false by lia end.
    match goal with |- context [if ?b then Some ([_; _; _], _) else _] => replace b with true by lia end.
    done.
  - apply chunk_seq; [|cbn; lia|repeat constructor; rewrite bval_byte_of_small; lia].
    intros X. cbn [map app utf8_seq]. unfold cont.
    rewrite !in_range_byte_of, !bval_byte_of_small by lia.
    match goal with |- context [if ?b then Some ([_; _], _) else _] => replace b with false by lia end.
    match goal with |- context [if ?b then Some ([_; _; _], _) else _] => replace b with false by lia end.
    match goal with |- context [if ?b then Some ([_; _; _; _], _) else _] => replace b with true by lia end.
    done.
Qed.

Lemma hex4_range a b c d : 0 <= hex4 a b c d < 65536.
Proof.
  assert (forall h, 0 <= hexz h < 16) as H
    by (apply (all_bytes_forall (fun h => 0 <= hexz h < 16)); by vm_compute).
  unfold hex4. pose proof (H a). pose proof (H b). pose proof (H c). pose proof (H d). lia.
Qed.

Lemma low_next_units r v r' : units r -> low_next r = Some (v, r') ->
  units r' /\ 56320 <= v < 57344 /\ (length r' < length r)%nat.
Proof.
  intros Hu. destruct Hu as [|c r Hq Hb Hc Hr|e r He Hx Hr|a b c d r Ha Hb Hc Hd Hr]; unfold low_next.
  - done.
  - by rewrite take_u_not_backslash.
  - by rewrite take_u_not_u.
  - rewrite take_u_units by done. destruct (_ && _) eqn:E; [|done]. intros [= <- <-].
    split_and!; [done|lia|lia|cbn; lia].
Qed.

Lemma escape_val_ascii e x : escape_val e = Some x -> bval x < 128.
Proof.
  intros H. apply Z.ltb_lt.
  assert (from_option (fun x => bval x <? 128) true (escape_val e) = true) as Hx;
    [|by rewrite H in Hx]. clear H. revert e.
  apply (all_bytes_forall (fun e => from_option (fun x => bval x <? 128) true (escape_val e) = true)).
  by vm_compute.
Qed.

(** What a string literal decodes to is valid UTF-8. *)
Lemma utf8_ok_unquote raw : units raw -> utf8_ok (unquote raw) = true.
Proof.
  induction raw as [raw IH] using (induction_ltof1 _ length). unfold ltof in IH. intros Hu.
  destruct Hu as [|c r Hq Hb Hc Hr|e r He Hx Hr|a b c d r Ha Hb Hc Hd Hr]; [done|..].
  - rewrite unquote_cons. unfold unq_step. destruct (Ascii.eqb_spec c backslash); [done|].
    destruct (Z.ltb_spec (bval c) 128); cbn [fst snd].
    { apply chunk_byte; [done|]. apply IH; [cbn; lia|done]. }
    destruct (utf8_seq (c :: r)) as [[s r']|] eqn:E; cbn [fst snd].
    + pose proof (utf8_seq_spec _ _ _ E) as (Heq & HX & Hl & Hh).
      destruct (utf8_seq_e2 _ _ _ _ E) as (t & -> & Ht & _). injection Heq as ->.
      apply chunk_seq; [done..|]. apply IH; [cbn; rewrite length_app; lia|].
      by eapply units_high_inv.
    + apply chunk_enc; [lia|done|]. apply IH; [cbn; lia|done].
  - rewrite unquote_cons. unfold unq_step. rewrite Ascii.eqb_refl, take_u_not_u by done.
    destruct Hx as [x Hx]. rewrite Hx. apply chunk_byte; [by eapply escape_val_ascii|].
    apply IH; [cbn; lia|done].
  - rewrite unquote_cons, unq_step_u by done. cbv zeta. pose proof (hex4_range a b c d).
    assert (utf8_ok (unquote r) = true) as Hr' by (apply IH; [cbn; lia|done]).
    assert (chunk replacement) as Hrep by (by apply chunk_enc).
    destruct (is_surrogate (hex4 a b c d)) eqn:Es; cbn [fst snd].
    + destruct (low_next r) as [[v r']|] eqn:El; cbn [fst snd]; [|by apply Hrep].
      destruct (low_next_units _ _ _ Hr El) as (Hu' & Hv & Hl).
      destruct (Z.ltb_spec (hex4 a b c d) 56320); cbn [fst snd]; [|by apply Hrep].
      unfold is_surrogate in Es. apply chunk_enc; [lia|unfold is_surrogate; lia|].
      apply IH; [cbn; lia|done].
    + apply chunk_enc; [lia|done|done].
Qed.

Lemma utf8_str_unquote raw : str_ok raw = true -> utf8_str (unquote_str raw) = true.
Proof.
  intros H%str_ok_units. unfold utf8_str, unquote_str. rewrite bytes_of_str_of. by apply utf8_ok_unquote.
Qed.

(** ** Raw messages inside a raw message *)

Lemma members_map_key (P : string -> Prop) l k v :
  Forall (fun kv => P (unquote_str kv.1)) l -> members_map l !! k = Some v -> P k.
Proof.
  unfold members_map.
  enough (forall m : gmap string json, map_Forall (fun k _ => P k) m ->
    Forall (fun kv => P (unquote_str kv.1)) l ->
    map_Forall (K := string) (fun k _ => P k)
      (fold_left (fun m kv => <[unquote_str kv.1 := kv.2]> m) l m)) as H.
  { intros HF Hk. by eapply (H ∅ (map_Forall_empty _) HF). }
  induction l as [|kv l IH]; intros m Hm HF; [done|]. inversion_clear HF.
  cbn. apply IH; [|done]. by apply map_Forall_insert_2.
Qed.

Lemma raw_ok_members l k v :
  raw_ok (JObj l) = true -> members_map l !! k = Some v ->
  utf8_str k = true /\ wf v = true /\ (jdepth v < jdepth (JObj l))%N.
Proof.
  unfold raw_ok. cbn [wf]. intros H Hk. bool_hyps.
  rewrite forallb_forall in H. setoid_rewrite <-list_elem_of_In in H.
  split_and!.
  - eapply (members_map_key (fun k => utf8_str k = true)); [|done]. apply Forall_forall.
    intros kv Hkv. specialize (H kv Hkv). bool_hyps. by apply utf8_str_unquote.
  - eapply (members_map_in (fun v => wf v = true)); [|done]. apply Forall_forall.
    intros kv Hkv. specialize (H kv Hkv). by bool_hyps.
  - eapply (members_map_in (fun v => (jdepth v < jdepth (JObj l))%N)); [|done]. clear.
    cbn [jdepth]. apply Forall_forall. intros kv Hkv.
    enough (jdepth kv.2 <= fold_right (fun kv acc => N.max (jdepth kv.2) acc) 0%N l)%N by lia.
    induction Hkv as [kv l|kv kv' l _ IH]; cbn; lia.
Qed.

(** An object read into a map and written again stays a raw message, whatever is
    dropped from it. *)
Lemma raw_ok_rewrite l m :
  raw_ok (JObj l) = true -> m ⊆ members_map l -> raw_ok (json_of_map m) = true /\ map_ok m.
Proof.
  intros Hl Hm. assert (jdepth (JObj l) < maxNestingDepth)%N as Hd.
  { unfold raw_ok in Hl. bool_hyps. by apply N.ltb_lt. }
  assert (map_Forall (fun k v => utf8_str k = true /\ wf v = true /\ (jdepth v < jdepth (JObj l))%N) m)
    as Hall by (intros k v Hk; eapply raw_ok_members; [done|by eapply lookup_weaken]).
  split.
  - unfold raw_ok. apply andb_true_iff. split.
    + apply wf_json_of_map. intros k v Hk. by apply (Hall k v).
    + apply N.ltb_lt. eapply N.le_lt_trans; [|exact Hd]. apply jdepth_json_of_map; [|cbn; lia].
      intros k v Hk. by apply (Hall k v).
  - intros k v Hk. destruct (Hall k v Hk) as (? & Hw & ?). split; [done|].
    unfold raw_ok. rewrite Hw. apply N.ltb_lt. lia.
Qed.

Lemma map_ok_wf m : map_ok m -> map_Forall (fun _ v => wf v = true) m.
Proof. intros H k v Hk. destruct (H k v Hk) as [_ Hr]. unfold raw_ok in Hr. by bool_hyps. Qed.

Lemma jequiv_json_of_map m1 m2 :
  map_ok m1 -> map_ok m2 -> jequiv (json_of_map m1) (json_of_map m2) -> map_jequiv m1 m2.
Proof.
  intros H1 H2 Hj.
  assert (forall m, map_ok m -> forall l, json_of_map m = JObj l -> members_map l = compact <$> m) as Hm.
  { intros m Hm l Hl. enough (unmarshal_map (json_of_map m) = Ok (Some (compact <$> m))) as E
      by (rewrite Hl in E; by injection E).
    apply unmarshal_json_of_map. intros k v Hk. by destruct (Hm k v Hk). }
  transitivity (compact <$> m1); [symmetry; by apply map_jequiv_compact, map_ok_wf|].
  transitivity (compact <$> m2); [|by apply map_jequiv_compact, map_ok_wf].
  inversion Hj as [| | | | |l1 l2 Hl E1 E2]. intros k. specialize (Hl k).
  by rewrite (Hm m1 H1 _ eq_refl), (Hm m2 H2 _ eq_refl) in Hl.
Qed.

(** Printing a map determines its data. *)
Lemma marshal_map_jequiv m1 m2 :
  map_ok m1 -> map_ok m2 -> marshal_map m1 = marshal_map m2 -> map_jequiv m1 m2.
Proof.
  intros H1 H2 E. transitivity (compact <$> m1); [symmetry; by apply map_jequiv_compact, map_ok_wf|].
  transitivity (compact <$> m2); [|by apply map_jequiv_compact, map_ok_wf].
  pose proof (unmarshal_marshal_map m1 H1) as E1. rewrite E, (unmarshal_marshal_map m2 H2) in E1.
  by injection E1 as ->.
Qed.
