(* ===== verification/Profile.v ===== *)
(** * Profile: the profile table of [protocol/wire/envelope.go] and its checks

    A profile fixes, for one endpoint, which top-level fields carry payload (and
    are sealed), which cleartext fields are pinned to a value, and what a response
    must keep readable. This file holds the table [profiles], the [_e2ee] block of
    a request ([E2EE]) and every request-side validator, each as the decision its
    Go function makes, and characterises the validators: what an accepted sealed
    set, unbound set, signer address or pinned request is. *)

From S2P Require Import Prelude GoBytes GoJson GoDecode.

(** ** Errors of package wire: one constructor per kind of failure *)

Inductive werr :=
| EUnknownProfile (p : string)
(* sealed and unbound sets *)
| ENoSealedFields
| EEmptySealedField
| EReservedSealed
| EDupSealed (f : string)
| EMissingSealed (f : string)
| EPinnedSealed (f : string)
| EPinnedUnbound (f : string)
| EEmptyUnbound
| EReservedUnbound
| EDupUnbound (f : string)
| EBothSealedUnbound (f : string)
(* request content *)
| EPinAbsent (f : string)
| EPinComposite (f : string)
| EPinValue (f got : string)
| EPayloadCleartext (f : string)
| EBindCleartext
| EBadSigner (s : string)
| EBadEphPub (n : nat)
(* envelope *)
| EMissingE2EE
| EDecodeE2EE (e : jerr)
| EUnboundNotStrings (e : jerr)
| EJcs
| ESealedAbsent (f : string)
| EHasE2EE
| EVersion (v : Z)
| EKemId (s : string)
| EBadEnc
| EBadCiphertext
| ENotObject (e : jerr)
| EFieldsMismatch
| EDecryptedE2EE
| ECollision (f : string)
| ENoCiphertext
(* crypto *)
| EBadPublicKey
| EBadPrivateKey
| ESetup
| ESeal
| EOpen
| EShortPsk (n : nat)
| EEmptyPskId
(* responses *)
| ERespFrameNoKind
| ERespFrameKindType (e : jerr)
| ERespUnknownKind (k : string)
| ERespKindLineBreak (k : string)
| EMustStayBound (f : string)
| EMustStayCleartext (f : string)
| EProtectedNotObject (f : string)
| EProtectedNotArray (f k : string)
| EProtectedNotEmpty (f k : string) (n : nat)
| ERespTyped
| ERespMissingSealed (f : string)
| ERespSealsNothing (k : string)
| ERespMustSeal (k f : string)
| ERespCleartextContent (f : string)
| EQuantityNotObject (f : string)
| EQuantityNull (f : string)
| EQuantityAbsent
| EQuantityDisagree
| ENumberType
| ENumberNull
| ENumberNegative
| ENumberKind
| EBoundRequired
| EMissingEnc
| ENotFinal
(* response binding and async jobs *)
| EBindPresent
| EBindMissing
| EBindNil
| EBindNotString
| EBindNotB64
| EBindLen (n : nat)
| EEphPrivLen (n : nat)
| EFieldMissing (f : string)
| EFieldNotString (f : string)
| EFieldEmpty (f : string)
| EStatus (s : string)
| EAsyncUnbound (f : string)
| EWrongJob
| ENoKeySegment
| EKeySegmentB64
| EKeySegmentLen (n : nat)
| EJobIdEmpty
| EJobIdLong
| EJobIdChar.

Abbreviation wresult := (result werr).

(** ** Constants *)

Definition Version : Z := 1.
Definition KEMID : string := "0x0020".
Definition SealInfo : string := "0g-pc/v1/seal".
Definition e2eeKey : string := "_e2ee".

Definition fieldMessages : string := "messages".
Definition fieldPrompt : string := "prompt".
Definition fieldInput : string := "input".
Definition fieldTools : string := "tools".
Definition fieldToolChoice : string := "tool_choice".
Definition fieldSystem : string := "system".
Definition fieldResponseFormat : string := "response_format".
Definition fieldChoices : string := "choices".
Definition fieldData : string := "data".
Definition fieldContent : string := "content".
Definition fieldContentBlock : string := "content_block".
Definition fieldDelta : string := "delta".
Definition fieldErr : string := "error".
Definition fieldType : string := "type".
Definition fieldMessage : string := "message".
Definition fieldStopSequence : string := "stop_sequence".
Definition fieldUsage : string := "usage".
Definition fieldOutputImages : string := "output_images".
Definition fieldPromptTokens : string := "prompt_tokens".
Definition fieldFileBase64 : string := "file_base64".
Definition fieldFilename : string := "filename".
Definition fieldLanguage : string := "language".
Definition fieldStream : string := "stream".
Definition fieldText : string := "text".
Definition fieldSegments : string := "segments".
Definition fieldWords : string := "words".
Definition fieldSeconds : string := "seconds".
Definition fieldDuration : string := "duration".
Definition fieldBind : string := "_bind".
Definition fieldJobID : string := "jobId".
Definition fieldStatus : string := "status".
Definition clientEphPubLen : nat := 32.

(** [type Profile string]; any string is a value of the type. *)
Abbreviation Profile := string.
Definition ProfileChat : Profile := "chat".
Definition ProfileImage : Profile := "image".
Definition ProfileAnthropic : Profile := "anthropic".
Definition ProfileSpeech : Profile := "speech".
Definition ProfileEmbedding : Profile := "embedding".
Definition ProfileAsyncImage : Profile := "async-image".

(** ** The table *)

Record payloadField := PayloadField { pf_name : string; pf_optional : bool }.
Record pinnedField :=
  PinnedField { pin_field : string; pin_permitted : list string; pin_optional : bool }.
Record protectedCleartext := ProtectedCleartext { pc_field : string; pc_emptyArrays : list string }.
Record cleartextNumber := CleartextNumber { cn_field : string; cn_key : string }.
Inductive numberKind := numberWhole | numberFractional.
Record cleartextQuantity :=
  CleartextQuantity { cq_locators : list cleartextNumber; cq_kind : numberKind }.
Record frameShape :=
  FrameShape { fs_content : string; fs_terminal : bool; fs_sealIfPresent : list string }.
Record responseFrameRule :=
  ResponseFrameRule { rule_discriminator : string; rule_shapes : gmap string frameShape }.

Record profileSpec := ProfileSpec {
  ps_payload : list payloadField;
  ps_responsePayload : list payloadField;
  ps_responseFrames : option responseFrameRule;
  ps_pinned : list pinnedField;
  ps_required : list cleartextQuantity;
  ps_protected : list protectedCleartext;
  ps_bound : list string
}.

Definition must (f : string) : payloadField := PayloadField f false.
Definition may (f : string) : payloadField := PayloadField f true.

Definition anthropicFrames : responseFrameRule :=
  ResponseFrameRule fieldType (list_to_map
    [("message", FrameShape fieldContent false [fieldStopSequence]);
     ("message_start", FrameShape "" false []);
     ("content_block_start", FrameShape fieldContentBlock false []);
     ("content_block_delta", FrameShape fieldDelta false []);
     ("content_block_stop", FrameShape "" false []);
     ("message_delta", FrameShape fieldDelta false []);
     ("message_stop", FrameShape "" true []);
     ("ping", FrameShape "" false []);
     ("error", FrameShape fieldErr true [])]).

Definition output_images_quantity : cleartextQuantity :=
  CleartextQuantity [CleartextNumber fieldUsage fieldOutputImages] numberWhole.

Definition specAsyncImage : profileSpec :=
  {| ps_payload := [must fieldPrompt; must fieldBind];
     ps_responsePayload := [must fieldData];
     ps_responseFrames := None;
     ps_pinned := [PinnedField fieldResponseFormat ["b64_json"] false];
     ps_required := [output_images_quantity];
     ps_protected := [];
     ps_bound := [fieldJobID; fieldStatus] |}.

Definition specChat : profileSpec :=
  {| ps_payload := [must fieldMessages; may fieldTools; may fieldToolChoice];
     ps_responsePayload := [must fieldChoices];
     ps_responseFrames := None;
     ps_pinned := []; ps_required := []; ps_protected := []; ps_bound := [] |}.

Definition specImage : profileSpec :=
  {| ps_payload := [must fieldPrompt];
     ps_responsePayload := [must fieldData];
     ps_responseFrames := None;
     ps_pinned := [PinnedField fieldResponseFormat ["b64_json"] false];
     ps_required := [output_images_quantity];
     ps_protected := []; ps_bound := [] |}.

Definition specAnthropic : profileSpec :=
  {| ps_payload := [must fieldMessages; may fieldSystem; may fieldTools; may fieldToolChoice];
     ps_responsePayload := [];
     ps_responseFrames := Some anthropicFrames;
     ps_pinned := []; ps_required := [];
     ps_protected := [ProtectedCleartext fieldMessage [fieldContent]];
     ps_bound := [] |}.

Definition specSpeech : profileSpec :=
  {| ps_payload := [must fieldFileBase64; may fieldFilename; may fieldLanguage; may fieldPrompt];
     ps_responsePayload := [must fieldText; may fieldSegments; may fieldWords; may fieldLanguage];
     ps_responseFrames := None;
     ps_pinned := [PinnedField fieldResponseFormat ["json"; "verbose_json"] false;
                   PinnedField fieldStream ["false"] true];
     ps_required := [CleartextQuantity [CleartextNumber fieldUsage fieldSeconds;
                                        CleartextNumber fieldDuration ""] numberFractional];
     ps_protected := []; ps_bound := [] |}.

Definition specEmbedding : profileSpec :=
  {| ps_payload := [must fieldInput];
     ps_responsePayload := [must fieldData];
     ps_responseFrames := None;
     ps_pinned := [];
     ps_required := [CleartextQuantity [CleartextNumber fieldUsage fieldPromptTokens] numberWhole];
     ps_protected := []; ps_bound := [] |}.

Definition profiles : gmap string profileSpec :=
  list_to_map
    [(ProfileAsyncImage, specAsyncImage); (ProfileChat, specChat); (ProfileImage, specImage);
     (ProfileAnthropic, specAnthropic); (ProfileSpeech, specSpeech);
     (ProfileEmbedding, specEmbedding)].

(** [Profile.spec]. *)
Definition spec (p : Profile) : wresult profileSpec := of_option (profiles !! p) (EUnknownProfile p).

(** [profileSpec.requiresBind]. *)
Definition requiresBind (s : profileSpec) : bool :=
  existsb (fun f => String.eqb (pf_name f) fieldBind && negb (pf_optional f)) (ps_payload s).

(** ** Requests and their [_e2ee] block *)

(** [type Request map[string]json.RawMessage] (and [Response] likewise). *)
Abbreviation Request := (gmap string json).

Record E2EE := MkE2EE {
  e_V : Z;
  e_KEMID : string;
  e_KeyID : string;
  e_SignerAddr : string;
  e_ClientEphPub : string;
  e_Enc : string;
  e_SealedFields : list string;
  e_UnboundFields : list string;
  e_Ciphertext : string
}.

Definition zeroE2EE : E2EE := MkE2EE 0 "" "" "" "" "" [] [] "".

(** The struct's fields under their JSON tags. *)
Definition E2EE_fields : list (string * (E2EE -> json -> result jerr E2EE)) :=
  [("v", fun '(MkE2EE v k ki s c e sf uf ct) j => x ← set_int v j; Ok (MkE2EE x k ki s c e sf uf ct));
   ("kem_id", fun '(MkE2EE v k ki s c e sf uf ct) j => x ← set_string k j; Ok (MkE2EE v x ki s c e sf uf ct));
   ("key_id", fun '(MkE2EE v k ki s c e sf uf ct) j => x ← set_string ki j; Ok (MkE2EE v k x s c e sf uf ct));
   ("signer_addr", fun '(MkE2EE v k ki s c e sf uf ct) j => x ← set_string s j; Ok (MkE2EE v k ki x c e sf uf ct));
   ("client_eph_pub", fun '(MkE2EE v k ki s c e sf uf ct) j => x ← set_string c j; Ok (MkE2EE v k ki s x e sf uf ct));
   ("enc", fun '(MkE2EE v k ki s c e sf uf ct) j => x ← set_string e j; Ok (MkE2EE v k ki s c x sf uf ct));
   ("sealed_fields", fun '(MkE2EE v k ki s c e sf uf ct) j => x ← set_strings sf j; Ok (MkE2EE v k ki s c e x uf ct));
   ("unbound_fields", fun '(MkE2EE v k ki s c e sf uf ct) j => x ← set_strings uf j; Ok (MkE2EE v k ki s c e sf x ct));
   ("ciphertext", fun '(MkE2EE v k ki s c e sf uf ct) j => x ← set_string ct j; Ok (MkE2EE v k ki s c e sf uf x))].

Definition jkey (s : string) : bytes := quote (bytes_of s).

(** [json.Marshal] of an [E2EE]; [unbound_fields] is omitted when empty. *)
Definition json_of_E2EE (e : E2EE) : json :=
  JObj ([(jkey "v", json_of_int (e_V e));
         (jkey "kem_id", jstr (e_KEMID e));
         (jkey "key_id", jstr (e_KeyID e));
         (jkey "signer_addr", jstr (e_SignerAddr e));
         (jkey "client_eph_pub", jstr (e_ClientEphPub e));
         (jkey "enc", jstr (e_Enc e));
         (jkey "sealed_fields", json_of_strings (e_SealedFields e))]
        ++ (match e_UnboundFields e with
            | [] => []
            | l => [(jkey "unbound_fields", json_of_strings l)]
            end)
        ++ [(jkey "ciphertext", jstr (e_Ciphertext e))]).

(** [Request.E2EE]. *)
Definition Request_E2EE (r : Request) : wresult E2EE :=
  match r !! e2eeKey with
  | None => Err EMissingE2EE
  | Some raw => map_err EDecodeE2EE (unmarshal_struct E2EE_fields zeroE2EE raw)
  end.

(** [Request.setE2EE]: the map is updated in place. *)
Definition setE2EE (r : Request) (e : E2EE) : Request := <[e2eeKey := json_of_E2EE e]> r.

(** ** Small helpers *)

Definition toSet (ss : list string) : gset string := list_to_set ss.
Definition in_set (f : string) (s : gset string) : bool := bool_decide (f ∈ s).

(** [presentSubset]. *)
Definition presentSubset (fields : list string) (req : Request) : list string :=
  List.filter (fun f => has_key req f) fields.

(** [sameKeys]. *)
Definition sameKeys (obj : gmap string json) (fields : list string) : bool :=
  Nat.eqb (size obj) (length fields) && forallb (fun f => has_key obj f) fields.

(** [isSignerAddr]: "0x" and forty hex digits. *)
Definition is_hex_letter (c : ascii) : bool := is_digit c || in_range c 97 102 || in_range c 65 70.

Definition isSignerAddr (s : string) : bool :=
  match bytes_of s with
  | z :: x :: r =>
      Nat.eqb (length r) 40 && Ascii.eqb z "0" && Ascii.eqb x "x" && forallb is_hex_letter r
  | _ => false
  end.

(** ** Pinned fields *)

(** [profileSpec.pinFor]. *)
Definition pinFor (s : profileSpec) (field : string) : option pinnedField :=
  List.find (fun p => String.eqb (pin_field p) field) (ps_pinned s).

Definition is_pinned (s : profileSpec) (f : string) : bool :=
  match pinFor s f with Some _ => true | None => false end.

Definition validatePinnedNotSealed (s : profileSpec) (sealed : list string) : wresult unit :=
  each (fun f => refuse (is_pinned s f) (EPinnedSealed f)) sealed.

Definition validatePinnedNotUnbound (s : profileSpec) (unbound : list string) : wresult unit :=
  each (fun f => refuse (is_pinned s f) (EPinnedUnbound f)) unbound.

(** [cleartextToken]: the string a multipart rendering of a scalar would carry. *)
Definition cleartextToken (raw : json) : option string :=
  match raw with
  | JBool b => Some (if b then "true" else "false")
  | JStr r => Some (unquote_str r)
  | JNum lit => match f64_of_lit lit with Some x => Some (format_g x) | None => None end
  | JNull => Some "null"
  | _ => None
  end.

Definition validatePinnedValue (req : Request) (p : pinnedField) : wresult unit :=
  match req !! pin_field p with
  | None => if pin_optional p then Ok tt else Err (EPinAbsent (pin_field p))
  | Some raw =>
      match cleartextToken raw with
      | None => Err (EPinComposite (pin_field p))
      | Some got => refuse (negb (contains (pin_permitted p) got)) (EPinValue (pin_field p) got)
      end
  end.

Definition validatePinnedValues (s : profileSpec) (req : Request) : wresult unit :=
  each (validatePinnedValue req) (ps_pinned s).

Definition validatePinnedFor (p : Profile) (env : Request) : wresult unit :=
  s ← spec p;
  match ps_pinned s with
  | [] => Ok tt
  | _ =>
      e2ee ← Request_E2EE env;
      _ ← validatePinnedNotSealed s (e_SealedFields e2ee);
      _ ← validatePinnedNotUnbound s (e_UnboundFields e2ee);
      validatePinnedValues s env
  end.

(** ** Sealed and unbound sets *)

Definition validatePayloadSealedFor (p : Profile) (fields : list string) (msg : Request)
    : wresult unit :=
  s ← spec p;
  let sealed := toSet fields in
  _ ← each (fun f => refuse (has_key msg (pf_name f) && negb (in_set (pf_name f) sealed))
                       (EPayloadCleartext (pf_name f))) (ps_payload s);
  refuse (has_key msg fieldBind && negb (in_set fieldBind sealed)) EBindCleartext.

(** The loop over the names, with the set [seen] it builds. *)
Fixpoint checkSealedNames (fields : list string) (seen : gset string) : wresult (gset string) :=
  match fields with
  | [] => Ok seen
  | f :: fields =>
      _ ← refuse (String.eqb f "") EEmptySealedField;
      _ ← refuse (String.eqb f e2eeKey) EReservedSealed;
      _ ← refuse (in_set f seen) (EDupSealed f);
      checkSealedNames fields ({[f]} ∪ seen)
  end.

Definition ValidateSealedFieldsFor (p : Profile) (fields : list string) : wresult unit :=
  s ← spec p;
  _ ← refuse (bool_decide (fields = [])) ENoSealedFields;
  _ ← validatePinnedNotSealed s fields;
  seen ← checkSealedNames fields ∅;
  each (fun f => refuse (negb (pf_optional f) && negb (in_set (pf_name f) seen))
                   (EMissingSealed (pf_name f))) (ps_payload s).

Definition ValidateSealedFields (fields : list string) : wresult unit :=
  ValidateSealedFieldsFor ProfileChat fields.

Fixpoint checkUnboundNames (sealed : gset string) (unbound : list string) (seen : gset string)
    : wresult unit :=
  match unbound with
  | [] => Ok tt
  | f :: unbound =>
      _ ← refuse (String.eqb f "") EEmptyUnbound;
      _ ← refuse (String.eqb f e2eeKey) EReservedUnbound;
      _ ← refuse (in_set f seen) (EDupUnbound f);
      _ ← refuse (in_set f sealed) (EBothSealedUnbound f);
      checkUnboundNames sealed unbound ({[f]} ∪ seen)
  end.

Definition ValidateUnboundFields (unbound sealed : list string) : wresult unit :=
  checkUnboundNames (toSet sealed) unbound ∅.

Definition ValidateUnboundFieldsFor (p : Profile) (unbound sealed : list string) : wresult unit :=
  s ← spec p;
  _ ← validatePinnedNotUnbound s unbound;
  ValidateUnboundFields unbound sealed.

(** [validateSealInputs] and [validateSealableRequest]: the sender's checks. *)
Definition validateSealInputs (profile : Profile) (s : profileSpec)
    (sealedFields unboundFields : list string) (signerAddr : string) (clientEphPub : bytes)
    : wresult unit :=
  _ ← ValidateSealedFieldsFor profile sealedFields;
  _ ← validatePinnedNotUnbound s unboundFields;
  _ ← ValidateUnboundFields unboundFields sealedFields;
  _ ← refuse (negb (isSignerAddr signerAddr)) (EBadSigner signerAddr);
  refuse (negb (Nat.eqb (length clientEphPub) clientEphPubLen)) (EBadEphPub (length clientEphPub)).

Definition validateSealableRequest (profile : Profile) (s : profileSpec)
    (sealedFields : list string) (req : Request) : wresult unit :=
  _ ← validatePayloadSealedFor profile sealedFields req;
  validatePinnedValues s req.

(** Defaults. *)
Definition defaultRequestSealed (s : profileSpec) : list string := map pf_name (ps_payload s).

Definition DefaultSealedFieldsFor (p : Profile) : list string :=
  match spec p with Ok s => defaultRequestSealed s | Err _ => [] end.
Definition DefaultSealedFields : list string := DefaultSealedFieldsFor ProfileChat.
Definition DefaultUnboundFields : list string := ["model"].

(** [Profiles]: the names of the table, sorted. *)
Definition Profiles : list Profile := (entries profiles).*1.

(** ** What the validators accept *)

Lemma in_set_true f s : in_set f s = true <-> f ∈ s.
Proof. apply bool_decide_eq_true. Qed.
Lemma in_set_false f s : in_set f s = false <-> f ∉ s.
Proof. apply bool_decide_eq_false. Qed.
Lemma elem_of_toSet f l : f ∈ toSet l <-> f ∈ l.
Proof. apply elem_of_list_to_set. Qed.
#[export] Hint Rewrite in_set_true in_set_false elem_of_toSet : wire.

Lemma spec_ok p s : spec p = Ok s <-> profiles !! p = Some s.
Proof. apply of_option_ok. Qed.

Lemma presentSubset_elem fields req f :
  f ∈ presentSubset fields req <-> f ∈ fields /\ is_Some (req !! f).
Proof.
  unfold presentSubset. rewrite !list_elem_of_In, filter_In. by rewrite has_key_true.
Qed.

Lemma checkSealedNames_ok fields seen out :
  checkSealedNames fields seen = Ok out <->
  out = toSet fields ∪ seen /\ NoDup fields /\ ("" ∉ fields) /\ (e2eeKey ∉ fields) /\
  (forall f, f ∈ fields -> f ∉ seen).
Proof.
  revert seen out. induction fields as [|f l IH]; intros seen out; cbn.
  - split; [intros [= ->]|intros (-> & _); f_equal].
    + split_and!; [set_solver|constructor|set_solver..].
    + set_solver.
  - split.
    + intros H. inv_ok. apply IH in H as (-> & Hnd & He & Hr & Hs).
      bool_hyps. apply in_set_false in H2.
      split_and!; [set_solver| |set_solver..]. constructor; [|done]. intros Hf.
      apply (Hs f Hf). set_solver.
    + intros (-> & Hnd & He & Hr & Hs). inversion_clear Hnd.
      replace (String.eqb f "") with false by (symmetry; apply String.eqb_neq; set_solver).
      replace (String.eqb f e2eeKey) with false by (symmetry; apply String.eqb_neq; set_solver).
      replace (in_set f seen) with false by (symmetry; apply in_set_false; set_solver). cbn.
      replace (toSet (f :: l) ∪ seen) with (toSet l ∪ ({[f]} ∪ seen)) by set_solver.
      apply IH. split_and!; [done|done|set_solver..].
Qed.

Lemma checkUnboundNames_ok sealed unbound seen :
  checkUnboundNames sealed unbound seen = Ok tt <->
  NoDup unbound /\ ("" ∉ unbound) /\ (e2eeKey ∉ unbound) /\
  (forall f, f ∈ unbound -> (f ∉ seen) /\ (f ∉ sealed)).
Proof.
  revert seen. induction unbound as [|f l IH]; intros seen; cbn.
  - split; [|done]. intros _. split_and!; [constructor|set_solver..].
  - split.
    + intros H. inv_ok. apply IH in H as (Hnd & He & Hr & Hs). bool_hyps.
      apply in_set_false in H2, H3.
      split_and!; [|set_solver..]. constructor; [|done]. intros Hf. destruct (Hs f Hf). set_solver.
    + intros (Hnd & He & Hr & Hs). inversion_clear Hnd.
      replace (String.eqb f "") with false by (symmetry; apply String.eqb_neq; set_solver).
      replace (String.eqb f e2eeKey) with false by (symmetry; apply String.eqb_neq; set_solver).
      replace (in_set f seen) with false by (symmetry; apply in_set_false; set_solver).
      replace (in_set f sealed) with false by (symmetry; apply in_set_false; set_solver). cbn.
      apply IH. split_and!; [done|set_solver..].
Qed.

Lemma each_refuse_ok {A} (b : A -> bool) (e : A -> werr) l :
  each (fun x => refuse (b x) (e x)) l = Ok tt <-> forall x, x ∈ l -> b x = false.
Proof.
  rewrite each_ok, Forall_forall. by setoid_rewrite refuse_ok.
Qed.

Lemma validatePinnedNotSealed_ok s l :
  validatePinnedNotSealed s l = Ok tt <-> forall f, f ∈ l -> is_pinned s f = false.
Proof. apply each_refuse_ok. Qed.

Lemma validatePinnedNotUnbound_ok s l :
  validatePinnedNotUnbound s l = Ok tt <-> forall f, f ∈ l -> is_pinned s f = false.
Proof. apply each_refuse_ok. Qed.

Lemma is_pinned_true s f : is_pinned s f = true <-> exists p, p ∈ ps_pinned s /\ pin_field p = f.
Proof.
  unfold is_pinned, pinFor. destruct (List.find _ _) as [p|] eqn:E.
  - apply find_some in E as [Hp Hf]. bool_hyps. split; [|done]. intros _. exists p.
    by rewrite list_elem_of_In.
  - split; [done|]. intros (p & Hp%list_elem_of_In & <-). apply (find_none _ _ E) in Hp.
    by rewrite String.eqb_refl in Hp.
Qed.

Lemma is_pinned_false s f p : is_pinned s f = false -> p ∈ ps_pinned s -> pin_field p <> f.
Proof.
  intros H Hp Hf. assert (is_pinned s f = true) as Ht by (apply is_pinned_true; eauto). congruence.
Qed.

(** The decision [ValidateSealedFieldsFor] makes. *)
Definition sealed_set_ok (s : profileSpec) (fields : list string) : Prop :=
  fields <> [] /\ NoDup fields /\ ("" ∉ fields) /\ (e2eeKey ∉ fields) /\
  (forall f, f ∈ fields -> is_pinned s f = false) /\
  (forall pf, pf ∈ ps_payload s -> pf_optional pf = false -> pf_name pf ∈ fields).

Lemma ValidateSealedFieldsFor_ok p fields :
  ValidateSealedFieldsFor p fields = Ok tt <->
  exists s, profiles !! p = Some s /\ sealed_set_ok s fields.
Proof.
  unfold ValidateSealedFieldsFor, sealed_set_ok. split.
  - intros H. inv_ok. apply bool_decide_eq_false in H1.
    match goal with H : checkSealedNames _ _ = _ |- _ =>
      apply checkSealedNames_ok in H as (-> & ? & ? & ? & _) end.
    match goal with H : validatePinnedNotSealed _ _ = Ok _ |- _ =>
      rewrite validatePinnedNotSealed_ok in H end.
    match goal with H : each _ _ = Ok _ |- _ => rewrite each_refuse_ok in H; rename H into Hm end.
    eexists; split; [by apply spec_ok|]. split_and!; try done.
    intros pf Hpf Ho. specialize (Hm pf Hpf). rewrite Ho in Hm. cbn in Hm.
    apply negb_false_iff, in_set_true in Hm. set_solver.
  - intros (s & Hs & Hne & Hnd & He & Hr & Hp & Hm).
    apply spec_ok in Hs as ->. cbn. rewrite bool_decide_eq_false_2 by done. cbn.
    rewrite (proj2 (validatePinnedNotSealed_ok _ _)) by done. cbn.
    rewrite (proj2 (checkSealedNames_ok fields ∅ (toSet fields ∪ ∅)))
      by (split_and!; [done..|set_solver]). cbn.
    apply each_refuse_ok. intros pf Hpf. destruct (pf_optional pf) eqn:E; [done|]. cbn.
    apply negb_false_iff, in_set_true. specialize (Hm pf Hpf E). set_solver.
Qed.

Lemma ValidateUnboundFields_ok unbound sealed :
  ValidateUnboundFields unbound sealed = Ok tt <->
  NoDup unbound /\ ("" ∉ unbound) /\ (e2eeKey ∉ unbound) /\ (forall f, f ∈ unbound -> f ∉ sealed).
Proof.
  unfold ValidateUnboundFields. rewrite checkUnboundNames_ok. set_solver.
Qed.

(** What a pin accepts. *)
Definition pin_met (req : Request) (p : pinnedField) : Prop :=
  match req !! pin_field p with
  | None => pin_optional p = true
  | Some raw => exists got, cleartextToken raw = Some got /\ got ∈ pin_permitted p
  end.

Lemma validatePinnedValue_ok req p : validatePinnedValue req p = Ok tt <-> pin_met req p.
Proof.
  unfold validatePinnedValue, pin_met. destruct (req !! pin_field p) as [raw|].
  - destruct (cleartextToken raw) as [got|].
    + rewrite refuse_ok, negb_false_iff, contains_spec. naive_solver.
    + naive_solver.
  - destruct (pin_optional p); naive_solver.
Qed.

Lemma validatePinnedValues_ok s req :
  validatePinnedValues s req = Ok tt <-> Forall (pin_met req) (ps_pinned s).
Proof.
  unfold validatePinnedValues. rewrite each_ok. apply Forall_iff. intros. apply validatePinnedValue_ok.
Qed.

(** What [validatePayloadSealedFor] accepts. *)
Definition payload_sealed (s : profileSpec) (fields : list string) (msg : Request) : Prop :=
  forall f, (f = fieldBind \/ exists pf, pf ∈ ps_payload s /\ pf_name pf = f) ->
    is_Some (msg !! f) -> f ∈ fields.

Lemma refuse_present_ok (msg : Request) f fields (e : werr) :
  refuse (has_key msg f && negb (in_set f (toSet fields))) e = Ok tt <->
  (is_Some (msg !! f) -> f ∈ fields).
Proof.
  rewrite refuse_ok, andb_false_iff, negb_false_iff, has_key_false, in_set_true, elem_of_toSet.
  destruct (msg !! f); split; [intros [?|?]; done|intros H; right; apply H; eauto| |by left].
  intros _ [? ?]; done.
Qed.

Lemma validatePayloadSealedFor_ok p fields msg :
  validatePayloadSealedFor p fields msg = Ok tt <->
  exists s, profiles !! p = Some s /\ payload_sealed s fields msg.
Proof.
  unfold validatePayloadSealedFor, payload_sealed. split.
  - intros H. inv_ok. eexists; split; [by apply spec_ok|]. intros f Hf Hs.
    rewrite each_ok, Forall_forall in H1. setoid_rewrite refuse_present_ok in H1.
    destruct Hf as [->|(pf & Hpf & <-)]; [|by apply H1].
    assert (refuse (has_key msg fieldBind && negb (in_set fieldBind (toSet fields))) EBindCleartext
      = Ok tt) as Hb by (by rewrite H). by apply refuse_present_ok in Hb.
  - intros (s & Hs & H). apply spec_ok in Hs as ->. cbn.
    rewrite (proj2 (each_ok _ _)).
    + cbn. apply refuse_present_ok. apply H. by left.
    + apply Forall_forall. intros pf Hpf. apply refuse_present_ok. apply H. right. eauto.
Qed.

Lemma sameKeys_dom obj fields : NoDup fields -> sameKeys obj fields = true <-> dom obj = toSet fields.
Proof.
  intros Hnd. unfold sameKeys. rewrite andb_true_iff, Nat.eqb_eq, forallb_forall.
  setoid_rewrite has_key_true. setoid_rewrite <-list_elem_of_In. rewrite <-size_dom.
  assert (size (toSet fields) = length fields) as Hlen by (by apply size_list_to_set).
  split.
  - intros [Hsz Hin]. symmetry. apply set_eq. intros f. split.
    + rewrite elem_of_toSet, elem_of_dom. apply Hin.
    + assert (toSet fields ⊆ dom obj) as Hsub
        by (intros g; rewrite elem_of_toSet, elem_of_dom; apply Hin).
      destruct (decide (f ∈ toSet fields)) as [|Hf]; [done|]. intros Hd.
      assert (size (toSet fields) < size (dom obj))%nat; [|lia].
      apply subset_size. split; [done|]. set_solver.
  - intros Hd. rewrite Hd, Hlen. split; [done|]. intros f Hf.
    apply elem_of_dom. rewrite Hd. by apply elem_of_toSet.
Qed.

(** ** The table *)

(** Every field name a profile lists for a request. *)
Definition request_names (s : profileSpec) : list string :=
  fieldBind :: map pf_name (ps_payload s) ++ map pin_field (ps_pinned s).

Lemma profiles_forall (P : profileSpec -> Prop) :
  Forall P [specAsyncImage; specChat; specImage; specAnthropic; specSpeech; specEmbedding] ->
  forall p s, profiles !! p = Some s -> P s.
Proof.
  intros HP p s H. unfold profiles in H. apply elem_of_list_to_map_2 in H.
  rewrite Forall_forall in HP. apply HP. exact (list_elem_of_fmap_2 snd _ _ H).
Qed.

Lemma request_names_e2ee p s : profiles !! p = Some s -> e2eeKey ∉ request_names s.
Proof.
  apply (profiles_forall (fun s => e2eeKey ∉ request_names s)).
  by apply (bool_decide_unpack _); vm_compute.
Qed.

Lemma pin_field_e2ee p s q : profiles !! p = Some s -> q ∈ ps_pinned s -> pin_field q <> e2eeKey.
Proof.
  intros Hs Hq E. apply (request_names_e2ee p s Hs). unfold request_names. rewrite <-E.
  apply list_elem_of_further, elem_of_app. right. by apply (list_elem_of_fmap_2 pin_field).
Qed.

Lemma payload_field_e2ee p s f : profiles !! p = Some s ->
  (f = fieldBind \/ exists pf, pf ∈ ps_payload s /\ pf_name pf = f) -> f <> e2eeKey.
Proof.
  intros Hs Hf ->. apply (request_names_e2ee p s Hs). unfold request_names.
  destruct Hf as [Hf|(pf & Hpf & <-)]; [by rewrite Hf; left|].
  apply list_elem_of_further, elem_of_app. left. by apply (list_elem_of_fmap_2 pf_name).
Qed.

(** ** The [_e2ee] block reads back *)

Lemma set_members_exact {T} (fs : list (string * (T -> json -> result jerr T))) t k j l f :
  utf8_str k = true -> exact_field fs k = Some f ->
  set_members fs t ((jkey k, j) :: l) = (t' ← f.2 t j; set_members fs t' l).
Proof.
  intros Hk Hf. cbn [set_members]. unfold set_member. cbn [fst snd]. unfold jkey.
  rewrite unquote_str_quote by done. by rewrite Hf.
Qed.

Lemma set_string_jstr old s : utf8_str s = true -> set_string old (jstr s) = Ok s.
Proof. intros H. cbn. f_equal. by apply unquote_str_quote. Qed.

Lemma set_strings_go_jstr old l :
  Forall (fun s => utf8_str s = true) l -> set_strings_go old (map jstr l) = Ok l.
Proof.
  intros H. revert old. induction H as [|s l Hs _ IH]; intros old; [done|].
  cbn [map set_strings_go]. rewrite set_string_jstr by done. cbn. by rewrite IH.
Qed.

Lemma set_strings_json old l :
  Forall (fun s => utf8_str s = true) l -> set_strings old (json_of_strings l) = Ok l.
Proof. apply set_strings_go_jstr. Qed.

(** Every string of the block is valid UTF-8 and the version prints and reads back. *)
Definition E2EE_ok (e : E2EE) : Prop :=
  int64_of_lit (itoa (e_V e)) = Some (e_V e) /\
  Forall (fun s => utf8_str s = true)
    [e_KEMID e; e_KeyID e; e_SignerAddr e; e_ClientEphPub e; e_Enc e; e_Ciphertext e] /\
  Forall (fun s => utf8_str s = true) (e_SealedFields e) /\
  Forall (fun s => utf8_str s = true) (e_UnboundFields e).

Ltac read_member :=
  erewrite set_members_exact; [|reflexivity|reflexivity]; cbn [snd];
  rewrite ?set_string_jstr, ?set_strings_json by done; cbn [mbind result_bind].

Lemma E2EE_roundtrip e :
  E2EE_ok e -> unmarshal_struct E2EE_fields zeroE2EE (json_of_E2EE e) = Ok e.
Proof.
  destruct e as [v k ki s c en sf uf ct]. intros (Hv & Hs & Hsf & Huf). cbn in Hv, Hs, Hsf, Huf.
  repeat (apply Forall_cons in Hs as [? Hs]).
  unfold json_of_E2EE, unmarshal_struct, zeroE2EE. cbn [e_V e_KEMID e_KeyID e_SignerAddr
    e_ClientEphPub e_Enc e_SealedFields e_UnboundFields e_Ciphertext app].
  erewrite set_members_exact; [|reflexivity|reflexivity]. cbn [snd set_int json_of_int].
  rewrite Hv. cbn [of_option mbind result_bind]. do 6 read_member.
  destruct uf as [|u uf]; cbn [app]; repeat read_member; done.
Qed.

Lemma compact_json_of_strings l : compact (json_of_strings l) = json_of_strings l.
Proof.
  unfold json_of_strings. cbn [compact]. rewrite map_map. f_equal. apply map_ext.
  intros s. apply compact_jstr.
Qed.

Lemma compact_json_of_E2EE e : compact (json_of_E2EE e) = json_of_E2EE e.
Proof.
  unfold json_of_E2EE. cbn [compact]. rewrite !map_app. f_equal.
  assert (forall l, map (fun kv => (esc_html kv.1, compact kv.2)) [(jkey l.1, jstr l.2)]
    = [(jkey l.1, jstr l.2)]) as Hs.
  { intros [a b]. cbn [map fst snd]. unfold jkey. by rewrite compact_jstr, esc_html_quote. }
  f_equal; [|f_equal].
  - cbn [map fst snd]. unfold jkey. by rewrite !esc_html_quote, !compact_jstr, compact_json_of_strings.
  - destruct (e_UnboundFields e); [done|]. cbn [map fst snd]. unfold jkey.
    by rewrite esc_html_quote, compact_json_of_strings.
  - apply (Hs ("ciphertext", e_Ciphertext e)).
Qed.
