(* ===== verification/Hpke.v ===== *)
(** * Hpke: the interface to [github.com/cloudflare/circl/hpke] and [protocol/crypto]

    [HpkeLib] is what [protocol/crypto/seal.go] calls of the HPKE library: it is a
    parameter of the development. [HpkeLaws] states the documented behaviour the
    program relies on, with the authenticity of the AEAD idealised (a ciphertext
    that opens was sealed, under that plaintext, additional data, sequence number
    and pre-shared key). On top of it are the operations of [seal.go]. The last
    section is a concrete library that satisfies the laws, so that every theorem
    that assumes them has a witness that runs. *)

From S2P Require Import Prelude GoBytes Profile.

(** ** The library *)

Class HpkeLib := {
  kem_pub : Type;
  kem_priv : Type;
  snd_ctx : Type;                       (* a sender's encryption context *)
  rcv_ctx : Type;                       (* a recipient's *)
  gen_key : bytes -> option (kem_priv * kem_pub);
  marshal_pub : kem_pub -> option bytes;
  marshal_priv : kem_priv -> option bytes;
  unmarshal_pub : bytes -> option kem_pub;
  unmarshal_priv : bytes -> option kem_priv;
  (* [sender.Setup(rand)] and [sender.SetupPSK(rand, psk, pskID)] *)
  sender_setup : kem_pub -> bytes -> option (bytes * bytes) -> bytes -> option (bytes * snd_ctx);
  receiver_setup : kem_priv -> bytes -> option (bytes * bytes) -> bytes -> option rcv_ctx;
  ctx_seal : snd_ctx -> bytes -> bytes -> option (bytes * snd_ctx);
  ctx_open : rcv_ctx -> bytes -> bytes -> option (bytes * rcv_ctx)
}.

(** A sealing context some messages further on. *)
Inductive later {H : HpkeLib} : snd_ctx -> snd_ctx -> Prop :=
| later_one s pt aad ct s' : ctx_seal s pt aad = Some (ct, s') -> later s s'
| later_more s pt aad ct s' s'' : ctx_seal s pt aad = Some (ct, s') -> later s' s'' -> later s s''.

Class HpkeLaws {H : HpkeLib} := {
  keypair : bytes -> bytes -> Prop;            (* private key, its public key *)
  paired : snd_ctx -> rcv_ctx -> Prop;         (* same secret, same position *)
  keypair_priv sk pk : keypair sk pk -> is_Some (unmarshal_priv sk);
  setup_enc_length k info psk rnd enc s :
    sender_setup k info psk rnd = Some (enc, s) -> length enc = 32%nat;   (* X25519 *)
  setup_paired sk pk k info psk rnd enc s :
    keypair sk pk -> unmarshal_pub pk = Some k ->
    sender_setup k info psk rnd = Some (enc, s) ->
    exists p o, unmarshal_priv sk = Some p /\ receiver_setup p info psk enc = Some o /\ paired s o;
  seal_open s o pt aad ct s' :
    paired s o -> ctx_seal s pt aad = Some (ct, s') ->
    exists o', ctx_open o ct aad = Some (pt, o') /\ paired s' o';
  open_seal s o ct aad pt o' :
    paired s o -> ctx_open o ct aad = Some (pt, o') ->
    exists s', ctx_seal s pt aad = Some (ct, s');
  seal_binds s pt aad ct s1 pt' aad' s2 :
    ctx_seal s pt aad = Some (ct, s1) -> ctx_seal s pt' aad' = Some (ct, s2) ->
    pt = pt' /\ aad = aad';
  seal_positions s s' pt aad ct s1 pt' aad' s2 :
    later s s' -> ctx_seal s pt aad = Some (ct, s1) -> ctx_seal s' pt' aad' <> Some (ct, s2);
  (* A recipient context never opens what a context with another PSK sealed. *)
  psk_separates k info psk rnd enc s p psk' o pt aad ct s1 aad' pt' o' :
    sender_setup k info psk rnd = Some (enc, s) ->
    receiver_setup p info psk' enc = Some o ->
    ctx_seal s pt aad = Some (ct, s1) -> ctx_open o ct aad' = Some (pt', o') ->
    psk = psk'
}.

(** ** [protocol/crypto/seal.go] *)

Abbreviation PublicKey := bytes.
Abbreviation PrivateKey := bytes.

Section crypto.
Context `{H : HpkeLib}.

Record Sealed := MkSealed { sealed_Enc : bytes; sealed_Ciphertext : bytes }.

Definition GenerateRecipientKey (rnd : bytes) : wresult (PrivateKey * PublicKey) :=
  '(sk, pk) ← of_option (gen_key rnd) ESetup;
  pub ← of_option (marshal_pub pk) EBadPublicKey;
  priv ← of_option (marshal_priv sk) EBadPrivateKey;
  Ok (priv, pub).

(** [Sealer.Seal] and [Opener.Open]: the context advances on success only. *)
Definition Sealer_Seal (s : snd_ctx) (plaintext aad : bytes) : wresult (bytes * snd_ctx) :=
  of_option (ctx_seal s plaintext aad) ESeal.
Definition Opener_Open (o : rcv_ctx) (ciphertext aad : bytes) : wresult (bytes * rcv_ctx) :=
  of_option (ctx_open o ciphertext aad) EOpen.

Definition minPSKLen : nat := 32.

Definition checkPSKInputs (psk pskID : bytes) : wresult unit :=
  _ ← refuse (Nat.ltb (length psk) minPSKLen) (EShortPsk (length psk));
  refuse (Nat.eqb (length pskID) 0) EEmptyPskId.

(** [rnd] is what [rand.Reader] yields. *)
Definition SetupSender (pub : PublicKey) (info rnd : bytes) : wresult (bytes * snd_ctx) :=
  pk ← of_option (unmarshal_pub pub) EBadPublicKey;
  of_option (sender_setup pk info None rnd) ESetup.

Definition SetupReceiver (priv : PrivateKey) (enc info : bytes) : wresult rcv_ctx :=
  sk ← of_option (unmarshal_priv priv) EBadPrivateKey;
  of_option (receiver_setup sk info None enc) ESetup.

Definition SetupSenderPSK (pub : PublicKey) (info psk pskID rnd : bytes)
    : wresult (bytes * snd_ctx) :=
  _ ← checkPSKInputs psk pskID;
  pk ← of_option (unmarshal_pub pub) EBadPublicKey;
  of_option (sender_setup pk info (Some (psk, pskID)) rnd) ESetup.

Definition SetupReceiverPSK (priv : PrivateKey) (enc info psk pskID : bytes) : wresult rcv_ctx :=
  _ ← checkPSKInputs psk pskID;
  sk ← of_option (unmarshal_priv priv) EBadPrivateKey;
  of_option (receiver_setup sk info (Some (psk, pskID)) enc) ESetup.

(** The one-shot helpers. *)
Definition Seal (pub : PublicKey) (plaintext aad info rnd : bytes) : wresult Sealed :=
  '(enc, s) ← SetupSender pub info rnd;
  '(ct, _) ← Sealer_Seal s plaintext aad;
  Ok (MkSealed enc ct).

Definition Open (priv : PrivateKey) (s : Sealed) (aad info : bytes) : wresult bytes :=
  o ← SetupReceiver priv (sealed_Enc s) info;
  '(pt, _) ← Opener_Open o (sealed_Ciphertext s) aad;
  Ok pt.
End crypto.

Section crypto_laws.
Context `{L : HpkeLaws}.

(** A recipient that sets up from the sender's [enc] is paired with the sender. *)
Lemma SetupReceiver_paired sk pk info rnd enc s :
  keypair sk pk -> SetupSender pk info rnd = Ok (enc, s) ->
  exists o, SetupReceiver sk enc info = Ok o /\ paired s o.
Proof.
  unfold SetupSender, SetupReceiver. intros Hk Hs. inv_ok.
  edestruct setup_paired as (p & o & Hp & Ho & Hpair); [done..|].
  rewrite Hp. cbn. rewrite Ho. eauto.
Qed.

Lemma SetupReceiverPSK_paired sk pk info psk pid rnd enc s :
  keypair sk pk -> SetupSenderPSK pk info psk pid rnd = Ok (enc, s) ->
  exists o, SetupReceiverPSK sk enc info psk pid = Ok o /\ paired s o.
Proof.
  unfold SetupSenderPSK, SetupReceiverPSK. intros Hk Hs. inv_ok.
  edestruct setup_paired as (p & o & Hp & Ho & Hpair); [done..|].
  match goal with H : checkPSKInputs _ _ = Ok _ |- _ => rewrite H end. cbn.
  rewrite Hp. cbn. rewrite Ho. eauto.
Qed.

Lemma Opener_Open_sealed s o pt aad ct s' :
  paired s o -> Sealer_Seal s pt aad = Ok (ct, s') ->
  exists o', Opener_Open o ct aad = Ok (pt, o') /\ paired s' o'.
Proof.
  unfold Sealer_Seal, Opener_Open. intros Hp Hs. inv_ok.
  edestruct seal_open as (o' & -> & ?); [done..|]. cbn. eauto.
Qed.

(** Authenticity: what opens under a paired context is what was sealed, under the
    same additional data. *)
Lemma Opener_Open_authentic s o pt aad ct s' pt' aad' o' :
  paired s o -> Sealer_Seal s pt aad = Ok (ct, s') -> Opener_Open o ct aad' = Ok (pt', o') ->
  pt' = pt /\ aad' = aad.
Proof.
  unfold Sealer_Seal, Opener_Open. intros Hp Hs Ho. inv_ok.
  edestruct open_seal as (s'' & Hs''); [done..|].
  by destruct (seal_binds _ _ _ _ _ _ _ _ Hs Hs'') as [-> ->].
Qed.
End crypto_laws.

(** ** A library that satisfies the laws

    Keys are their own public halves, the encapsulated key is the randomness, and a
    ciphertext spells out, length-prefixed, the secret, the position, the
    additional data and the plaintext. *)

Module Ideal.
Fixpoint unary (n : nat) : bytes := match n with O => ["0"%char] | S n => "1"%char :: unary n end.
Definition frame (b : bytes) : bytes := unary (length b) ++ b.

Fixpoint read_unary (l : bytes) : option (nat * bytes) :=
  match l with
  | [] => None
  | c :: l => if Ascii.eqb c "1" then '(n, r) ← read_unary l; Some (S n, r) else Some (O, l)
  end.

Definition unframe (l : bytes) : option (bytes * bytes) :=
  '(n, r) ← read_unary l;
  if Nat.leb n (length r) then Some (take n r, drop n r) else None.

Lemma read_unary_app n X : read_unary (unary n ++ X) = Some (n, X).
Proof. induction n as [|n IH]; [done|]. cbn. by rewrite IH. Qed.

Lemma unframe_frame b X : unframe (frame b ++ X) = Some (b, X).
Proof.
  unfold unframe, frame. rewrite <-app_assoc, read_unary_app. cbn.
  rewrite length_app. replace (Nat.leb _ _) with true by (symmetry; apply Nat.leb_le; lia).
  by rewrite take_app_length, drop_app_length.
Qed.

Lemma frame_inj a b X Y : frame a ++ X = frame b ++ Y -> a = b /\ X = Y.
Proof.
  intros E. assert (Some (a, X) = Some (b, Y)) as [=] by (by rewrite <-!unframe_frame, E). done.
Qed.

Record ctx := Ctx { ctx_key : bytes; ctx_pos : nat }.

Definition secret (k info : bytes) (psk : option (bytes * bytes)) (enc : bytes) : bytes :=
  frame k ++ frame info ++ frame enc ++
  match psk with Some (p, i) => "1"%char :: frame p ++ frame i | None => ["0"%char] end.

Definition header (c : ctx) (aad : bytes) : bytes :=
  frame (ctx_key c) ++ frame (repeat "1"%char (ctx_pos c)) ++ frame aad.

Definition next (c : ctx) : ctx := Ctx (ctx_key c) (S (ctx_pos c)).

Definition seal_ctx (c : ctx) (pt aad : bytes) : option (bytes * ctx) :=
  Some (header c aad ++ frame pt, next c).

Definition open_ctx (c : ctx) (ct aad : bytes) : option (bytes * ctx) :=
  '(k, r) ← unframe ct;
  '(n, r) ← unframe r;
  '(a, r) ← unframe r;
  '(pt, r) ← unframe r;
  if bool_decide (ct = header c aad ++ frame pt) then Some (pt, next c) else None.

Definition key32 (b : bytes) : option bytes := if Nat.eqb (length b) 32 then Some b else None.

#[export] Instance lib : HpkeLib := {|
  kem_pub := bytes; kem_priv := bytes; snd_ctx := ctx; rcv_ctx := ctx;
  gen_key rnd := k ← key32 rnd; Some (k, k);
  marshal_pub := Some; marshal_priv := Some;
  unmarshal_pub := key32; unmarshal_priv := key32;
  sender_setup k info psk rnd := e ← key32 rnd; Some (e, Ctx (secret k info psk e) 0);
  receiver_setup k info psk enc := Some (Ctx (secret k info psk enc) 0);
  ctx_seal := seal_ctx; ctx_open := open_ctx
|}.

Lemma open_sealed c pt aad : open_ctx c (header c aad ++ frame pt) aad = Some (pt, next c).
Proof.
  unfold open_ctx. set (ct := header c aad ++ frame pt).
  assert (ct = frame (ctx_key c) ++ frame (repeat "1"%char (ctx_pos c)) ++ frame aad ++
    frame pt ++ []) as E by (unfold ct, header; by rewrite app_nil_r, <-!app_assoc).
  rewrite E at 1. rewrite unframe_frame. cbn. rewrite unframe_frame. cbn.
  rewrite unframe_frame. cbn. rewrite unframe_frame. cbn. by rewrite bool_decide_eq_true_2.
Qed.

Lemma open_inv c ct aad pt c' : open_ctx c ct aad = Some (pt, c') -> ct = header c aad ++ frame pt.
Proof.
  unfold open_ctx. intros E.
  repeat match goal with
  | E : mbind _ ?o = Some _ |- _ => destruct o as [[? ?]|]; cbn in E; [|discriminate]
  end.
  case_bool_decide as Hd; [|done]. by injection E as <- <-.
Qed.

Lemma header_inj c c' aad aad' X Y :
  header c aad ++ X = header c' aad' ++ Y ->
  ctx_key c = ctx_key c' /\ ctx_pos c = ctx_pos c' /\ aad = aad' /\ X = Y.
Proof.
  unfold header. rewrite <-!app_assoc. intros (-> & (Hp & (-> & ->)%frame_inj)%frame_inj)%frame_inj.
  split_and!; [done| |done|done].
  apply (f_equal length) in Hp. by rewrite !repeat_length in Hp.
Qed.

Lemma later_pos (s s' : snd_ctx) : later s s' -> (ctx_pos s < ctx_pos s')%nat.
Proof.
  induction 1 as [s pt aad ct s' E|s pt aad ct s' s'' E _ IH]; cbn in *;
    injection E as <- <-; cbn in *; lia.
Qed.

Lemma secret_psk k info psk enc k' psk' :
  secret k info psk enc = secret k' info psk' enc -> psk = psk'.
Proof.
  unfold secret. intros (_ & (_ & (_ & E)%frame_inj)%frame_inj)%frame_inj.
  destruct psk as [[p i]|], psk' as [[p' i']|]; try discriminate; [|done].
  injection E as E. apply frame_inj in E as [-> E].
  rewrite <-(app_nil_r (frame i)), <-(app_nil_r (frame i')) in E.
  by apply frame_inj in E as [-> _].
Qed.

Lemma setup_inv k info psk rnd enc s :
  sender_setup k info psk rnd = Some (enc, s) ->
  enc = rnd /\ s = Ctx (secret k info psk rnd) 0 /\ length rnd = 32%nat.
Proof.
  cbn. unfold key32. destruct (Nat.eqb_spec (length rnd) 32); [|done]. cbn. by intros [= <- <-].
Qed.

#[export] Instance laws : HpkeLaws.
Proof.
  refine {| keypair sk pk := sk = pk /\ length sk = 32%nat; paired s o := s = o |}.
  - intros sk pk [-> Hl]. cbn. unfold key32. rewrite Hl. eauto.
  - intros k info psk rnd enc s (-> & _ & Hl)%setup_inv. done.
  - intros sk pk k info psk rnd enc s [-> Hl]. assert (key32 pk = Some pk) as Hk by (unfold key32; by rewrite Hl).
    cbn [unmarshal_pub unmarshal_priv lib]. rewrite Hk.
    intros [= <-] Hs%setup_inv. destruct Hs as (-> & -> & _). do 2 eexists. done.
  - intros s o pt aad ct s' -> [= <- <-]. cbn. rewrite open_sealed. eauto.
  - intros s o ct aad pt o' -> E%open_inv. cbn. unfold seal_ctx. rewrite E. eauto.
  - intros s pt aad ct s1 pt' aad' s2 [= <- <-] [= E _].
    apply header_inj in E as (_ & _ & -> & E).
    rewrite <-(app_nil_r (frame pt')), <-(app_nil_r (frame pt)) in E.
    by apply frame_inj in E as [-> _].
  - intros s s' pt aad ct s1 pt' aad' s2 Hl%later_pos [= <- <-] [= E _].
    apply header_inj in E as (_ & E & _). lia.
  - intros k info psk rnd enc s p psk' o pt aad ct s1 aad' pt' o' (-> & -> & _)%setup_inv [= <-] [= <- <-] E%open_inv.
    apply header_inj in E as (E & _). cbn in E. by eapply secret_psk.
Defined.
End Ideal.
