(* ===== verification/Envelope.v ===== *)
(** * Envelope: sealing and opening a request ([protocol/wire/envelope.go], [binding.go])

    [SealRequestFor] is the client's side, [OpenRequest] and [OpenRequestFor] the
    enclave's, [aadFromEnvelope] the bytes that bind the cleartext half to the
    ciphertext. JCS ([jcs.Transform]) and HPKE are parameters.

    The theorems: what a client seals the enclave reads back, whatever an
    intermediary did to the fields left unbound; a ciphertext opens only beside the
    cleartext it was sealed with; sealed fields never appear in the envelope, and
    the envelope depends on them through the ciphertext alone; what the enclave
    accepts meets the endpoint's profile. *)

From S2P Require Import Prelude GoBytes GoHash GoJson GoDecode GoJsonEq Profile Hpke.

(** [jcs.Transform]: the RFC 8785 form of a JSON text, or an error. *)
Class Jcs := jcs_Transform : bytes -> option bytes.

(** Canonical forms determine the data: RFC 8785 loses only spelling. *)
Class JcsLaws `{Jcs} :=
  jcs_reflects m1 m2 c :
    map_ok m1 -> map_ok m2 ->
    jcs_Transform (marshal_map m1) = Some c -> jcs_Transform (marshal_map m2) = Some c ->
    map_jequiv m1 m2.

Definition b64 (b : bytes) : string := str_of (b64_encode b).
Definition unb64 (s : string) : option bytes := b64_decode false (bytes_of s).

Section envelope.
Context `{Jcs} `{HpkeLib}.

(** [canonicalJSON] of a map of raw messages. *)
Definition canonicalJSON (m : gmap string json) : wresult bytes :=
  of_option (jcs_Transform (marshal_map m)) EJcs.

Definition delete_all (l : list string) (m : gmap string json) : gmap string json :=
  fold_left (fun m f => delete f m) l m.

(** [aadFromEnvelope]; a [null] block decodes to the nil map, which marshals as
    [null] again. *)
Definition aadFromEnvelope (env : gmap string json) : wresult bytes :=
  rawE2EE ← of_option (env !! e2eeKey) EMissingE2EE;
  e2ee ← map_err EDecodeE2EE (unmarshal_map rawE2EE);
  out ← match nil_map e2ee !! "unbound_fields" with
        | None => Ok env
        | Some rawUnbound =>
            unbound ← map_err EUnboundNotStrings (unmarshal_strings rawUnbound);
            Ok (delete_all unbound env)
        end;
  let cleaned := match e2ee with
                 | Some m => json_of_map (delete "ciphertext" m)
                 | None => JNull
                 end in
  canonicalJSON (<[e2eeKey := cleaned]> out).

Definition keyID (encPub : PublicKey) : bytes := take 8 (sha256 encPub).

(** The [sealedFields] argument of [SealRequestFor]: [None] is the nil slice. *)
Definition resolveSealed (profile : Profile) (req : Request) (sealedFields : option (list string))
    : list string :=
  match sealedFields with
  | Some l => l
  | None =>
      let l := presentSubset (DefaultSealedFieldsFor profile) req in
      if has_key req fieldBind && negb (contains l fieldBind) then l ++ [fieldBind] else l
  end.

(** The loop that collects the fields to seal. *)
Fixpoint collectSealed (req : Request) (fields : list string) (obj : gmap string json)
    : wresult (gmap string json) :=
  match fields with
  | [] => Ok obj
  | f :: fields =>
      v ← of_option (req !! f) (ESealedAbsent f);
      collectSealed req fields (<[f := v]> obj)
  end.

Definition with_ciphertext (e : E2EE) (ct : string) : E2EE :=
  let '(MkE2EE v k ki s c en sf uf _) := e in MkE2EE v k ki s c en sf uf ct.

(** The cleartext half: the request without the sealed fields. *)
Definition cleartext_of (sealed : list string) (req : Request) : Request :=
  filter (fun kv => kv.1 ∉ toSet sealed) req.

Definition request_meta (encPub : PublicKey) (signerAddr : string) (clientEphPub enc : bytes)
    (sealed unbound : list string) : E2EE :=
  MkE2EE Version KEMID (b64 (keyID encPub)) signerAddr (b64 clientEphPub) (b64 enc)
         sealed unbound "".

Definition SealRequestFor (profile : Profile) (encPub : PublicKey) (req : Request)
    (sealedFields : option (list string)) (signerAddr : string) (clientEphPub : bytes)
    (unboundFields : list string) (rnd : bytes) : wresult Request :=
  s ← spec profile;
  let sealed := resolveSealed profile req sealedFields in
  _ ← validateSealInputs profile s sealed unboundFields signerAddr clientEphPub;
  _ ← validateSealableRequest profile s sealed req;
  sealedObj ← collectSealed req sealed ∅;
  let pt := marshal_map sealedObj in
  '(enc, sealer) ← SetupSender encPub (bytes_of SealInfo) rnd;
  _ ← refuse (has_key req e2eeKey) EHasE2EE;
  let env := cleartext_of sealed req in
  let e2ee := request_meta encPub signerAddr clientEphPub enc sealed unboundFields in
  let env := setE2EE env e2ee in
  aad ← aadFromEnvelope env;
  '(ct, _) ← Sealer_Seal sealer pt aad;
  Ok (setE2EE env (with_ciphertext e2ee (b64 ct))).

Definition SealRequest (encPub : PublicKey) (req : Request)
    (sealedFields : option (list string)) (signerAddr : string) (clientEphPub : bytes)
    (unboundFields : list string) (rnd : bytes) : wresult Request :=
  SealRequestFor ProfileChat encPub req sealedFields signerAddr clientEphPub unboundFields rnd.

(** The loop that puts the decrypted fields beside the cleartext ones, over the
    entries in the order the map iteration yields them. *)
Fixpoint mergeSealed (l : list (string * json)) (out : Request) : wresult Request :=
  match l with
  | [] => Ok out
  | (k, v) :: l =>
      _ ← refuse (String.eqb k e2eeKey) EDecryptedE2EE;
      _ ← refuse (has_key out k) (ECollision k);
      mergeSealed l (<[k := v]> out)
  end.

Definition OpenRequest (priv : PrivateKey) (env : Request) : wresult Request :=
  e2ee ← Request_E2EE env;
  _ ← refuse (negb (e_V e2ee =? Version)) (EVersion (e_V e2ee));
  _ ← refuse (negb (String.eqb (e_KEMID e2ee) KEMID)) (EKemId (e_KEMID e2ee));
  enc ← of_option (unb64 (e_Enc e2ee)) EBadEnc;
  ct ← of_option (unb64 (e_Ciphertext e2ee)) EBadCiphertext;
  aad ← aadFromEnvelope env;
  opener ← SetupReceiver priv enc (bytes_of SealInfo);
  '(pt, _) ← Opener_Open opener ct aad;
  sealedObj ← map_err ENotObject (unmarshal unmarshal_map pt);
  let sealedObj := nil_map sealedObj in
  _ ← refuse (negb (sameKeys sealedObj (e_SealedFields e2ee))) EFieldsMismatch;
  mergeSealed (map_to_list sealedObj) (delete e2eeKey env).

Definition OpenRequestFor (profile : Profile) (priv : PrivateKey) (env : Request)
    : wresult Request :=
  _ ← spec profile;
  e2ee ← Request_E2EE env;
  _ ← ValidateSealedFieldsFor profile (e_SealedFields e2ee);
  _ ← validatePayloadSealedFor profile (e_SealedFields e2ee) env;
  _ ← validatePinnedFor profile env;
  OpenRequest priv env.

(** [FrameBinding]: what a response signature binds of a request or frame. The
    block's one field read here is its ciphertext. *)
Definition FrameBinding (env : gmap string json) : wresult (bytes * bytes) :=
  aad ← aadFromEnvelope env;
  rawE2EE ← of_option (env !! e2eeKey) EMissingE2EE;
  ciphertext ← map_err EDecodeE2EE
    (unmarshal_struct [("ciphertext", set_string)] "" rawE2EE);
  _ ← refuse (String.eqb ciphertext "") ENoCiphertext;
  ct ← of_option (unb64 ciphertext) EBadCiphertext;
  Ok (aad, ct).
End envelope.

(** ** The additional data *)

Lemma delete_all_lookup l (m : gmap string json) k :
  delete_all l m !! k = if decide (k ∈ l) then None else m !! k.
Proof.
  unfold delete_all. revert m. induction l as [|f l IH]; intros m.
  - by rewrite decide_False by set_solver.
  - cbn. rewrite IH. destruct (decide (f = k)) as [->|].
    + rewrite lookup_delete_eq, (decide_True (P := k ∈ k :: l)) by set_solver. by case_decide.
    + rewrite lookup_delete_ne by done. repeat case_decide; set_solver.
Qed.

Lemma members_map_snoc l kv : members_map (l ++ [kv]) = <[unquote_str kv.1 := kv.2]> (members_map l).
Proof. unfold members_map. by rewrite fold_left_app. Qed.

(** The block as a map, and its members but the ciphertext. *)
Definition E2EE_map (e : E2EE) : gmap string json :=
  match json_of_E2EE e with JObj l => members_map l | _ => ∅ end.
Definition E2EE_members (e : E2EE) : gmap string json :=
  delete "ciphertext" (E2EE_map (with_ciphertext e "")).

Lemma unmarshal_E2EE e : unmarshal_map (json_of_E2EE e) = Ok (Some (E2EE_map e)).
Proof. done. Qed.

Lemma E2EE_map_ciphertext e : delete "ciphertext" (E2EE_map e) = E2EE_members e.
Proof.
  destruct e as [v k ki s c en sf uf ct].
  unfold E2EE_members, E2EE_map, json_of_E2EE, with_ciphertext.
  cbn [e_V e_KEMID e_KeyID e_SignerAddr e_ClientEphPub e_Enc e_SealedFields e_UnboundFields e_Ciphertext].
  rewrite !app_assoc, !members_map_snoc. cbn [fst snd].
  assert (unquote_str (jkey "ciphertext") = "ciphertext") as -> by by vm_compute.
  by rewrite !delete_insert_eq.
Qed.

Lemma E2EE_members_unbound e :
  E2EE_members e !! "unbound_fields" =
  match e_UnboundFields e with [] => None | l => Some (json_of_strings l) end.
Proof.
  destruct e as [v k ki s c en sf uf ct]. unfold E2EE_members, E2EE_map, json_of_E2EE, with_ciphertext.
  cbn [e_V e_KEMID e_KeyID e_SignerAddr e_ClientEphPub e_Enc e_SealedFields e_UnboundFields e_Ciphertext].
  rewrite lookup_delete_ne by done. destruct uf; reflexivity.
Qed.

Section aad.
Context `{Jcs}.

(** What goes through [canonicalJSON]. *)
Definition aad_input (env : gmap string json) (unbound : list string) (members : gmap string json)
    : gmap string json :=
  <[e2eeKey := json_of_map members]> (delete_all unbound env).

(** The additional data of an envelope whose block is an object. *)
Lemma aadFromEnvelope_object env raw m :
  env !! e2eeKey = Some raw -> unmarshal_map raw = Ok (Some m) ->
  aadFromEnvelope env =
  (unbound ← match m !! "unbound_fields" with
             | None => Ok []
             | Some ru => map_err EUnboundNotStrings (unmarshal_strings ru)
             end;
   canonicalJSON (aad_input env unbound (delete "ciphertext" m))).
Proof.
  intros He Hm. unfold aadFromEnvelope. rewrite He. cbn [of_option mbind result_bind].
  rewrite Hm. cbn [map_err mbind result_bind nil_map].
  destruct (m !! "unbound_fields") as [ru|]; [|done].
  destruct (unmarshal_strings ru); done.
Qed.

Lemma canonicalJSON_compact m m' : compact <$> m = compact <$> m' -> canonicalJSON m = canonicalJSON m'.
Proof.
  intros E. unfold canonicalJSON, marshal_map.
  by rewrite <-(json_of_map_compact m), <-(json_of_map_compact m'), E.
Qed.

Definition unbound_of (m : gmap string json) : result jerr (list string) :=
  match m !! "unbound_fields" with None => Ok [] | Some ru => unmarshal_strings ru end.

Lemma aadFromEnvelope_block env raw m unbound :
  env !! e2eeKey = Some raw -> unmarshal_map raw = Ok (Some m) -> unbound_of m = Ok unbound ->
  aadFromEnvelope env = canonicalJSON (aad_input env unbound (delete "ciphertext" m)).
Proof.
  intros Hr Hm Hu. rewrite (aadFromEnvelope_object _ _ _ Hr Hm). unfold unbound_of in Hu.
  destruct (m !! "unbound_fields") as [ru|]; [by rewrite Hu|by simplify_eq].
Qed.

(** Two envelopes that carry the same block up to the ciphertext, and the same
    bound fields up to spelling, have the same additional data. *)
Lemma aadFromEnvelope_agree env env' raw raw' m m' unbound :
  env !! e2eeKey = Some raw -> unmarshal_map raw = Ok (Some m) ->
  env' !! e2eeKey = Some raw' -> unmarshal_map raw' = Ok (Some m') ->
  delete "ciphertext" m = delete "ciphertext" m' -> unbound_of m = Ok unbound ->
  (forall k, k <> e2eeKey -> (k ∉ unbound) -> compact <$> env !! k = compact <$> env' !! k) ->
  aadFromEnvelope env = aadFromEnvelope env'.
Proof.
  intros Hr Hm Hr' Hm' Hd Hu Hk.
  assert (unbound_of m' = Ok unbound) as Hu'.
  { unfold unbound_of in *. by rewrite <-(lookup_delete_ne m' "ciphertext"), <-Hd, lookup_delete_ne. }
  rewrite (aadFromEnvelope_block _ _ _ _ Hr Hm Hu), (aadFromEnvelope_block _ _ _ _ Hr' Hm' Hu'), <-Hd.
  apply canonicalJSON_compact. apply map_eq. intros k. unfold aad_input. rewrite !lookup_fmap.
  destruct (decide (k = e2eeKey)) as [->|Hne]; [by rewrite !lookup_insert_eq|].
  rewrite !lookup_insert_ne, !delete_all_lookup by done. case_decide; [done|]. by apply Hk.
Qed.

Lemma unbound_of_E2EE e :
  Forall (fun s => utf8_str s = true) (e_UnboundFields e) ->
  unbound_of (E2EE_map e) = Ok (e_UnboundFields e).
Proof.
  intros Hu. unfold unbound_of.
  rewrite <-(lookup_delete_ne _ "ciphertext"), E2EE_map_ciphertext, E2EE_members_unbound by done.
  destruct (e_UnboundFields e) as [|u l]; [done|]. unfold unmarshal_strings. by rewrite set_strings_json.
Qed.

Lemma aadFromEnvelope_agree_E2EE env env' e e' :
  Forall (fun s => utf8_str s = true) (e_UnboundFields e) ->
  env !! e2eeKey = Some (json_of_E2EE e) -> env' !! e2eeKey = Some (json_of_E2EE e') ->
  E2EE_members e = E2EE_members e' ->
  (forall k, k <> e2eeKey -> (k ∉ e_UnboundFields e) -> compact <$> env !! k = compact <$> env' !! k) ->
  aadFromEnvelope env = aadFromEnvelope env'.
Proof.
  intros Hu He He' Hm Hk.
  eapply (aadFromEnvelope_agree env env'); [exact He|apply unmarshal_E2EE|exact He'|
    apply unmarshal_E2EE| |by apply unbound_of_E2EE|exact Hk].
  by rewrite !E2EE_map_ciphertext.
Qed.
End aad.

(** ** What sealing computes *)

(** The sealed half of a request. *)
Definition sealed_part (sealed : list string) (req : Request) : Request :=
  filter (fun kv => kv.1 ∈ toSet sealed) req.

Lemma sealed_part_lookup sealed req k :
  sealed_part sealed req !! k = if decide (k ∈ sealed) then req !! k else None.
Proof.
  unfold sealed_part. rewrite map_lookup_filter. destruct (req !! k); cbn; repeat case_decide; try done;
    case_guard; set_solver.
Qed.

Lemma cleartext_of_lookup sealed req k :
  cleartext_of sealed req !! k = if decide (k ∈ sealed) then None else req !! k.
Proof.
  unfold cleartext_of. rewrite map_lookup_filter. destruct (req !! k); cbn; repeat case_decide; try done;
    case_guard; set_solver.
Qed.

Lemma sealed_cleartext_union sealed req : sealed_part sealed req ∪ cleartext_of sealed req = req.
Proof.
  apply map_eq. intros k. rewrite lookup_union, sealed_part_lookup, cleartext_of_lookup.
  case_decide; destruct (req !! k); done.
Qed.

Lemma collectSealed_ok req fields obj out :
  collectSealed req fields obj = Ok out ->
  (forall f, f ∈ fields -> is_Some (req !! f)) /\ out = sealed_part fields req ∪ obj.
Proof.
  revert obj. induction fields as [|f l IH]; intros obj; cbn.
  - intros [= ->]. split; [set_solver|]. apply map_eq. intros k.
    rewrite lookup_union, sealed_part_lookup, decide_False by set_solver. by destruct (_ !! k).
  - intros Hc. inv_ok. apply IH in Hc as [Hs ->]. split; [intros g [->|]%elem_of_cons; eauto|].
    apply map_eq. intros k. rewrite !lookup_union, !sealed_part_lookup.
    destruct (decide (k = f)) as [->|].
    + rewrite lookup_insert_eq, (decide_True (P := f ∈ f :: l)) by set_solver.
      match goal with H : req !! f = _ |- _ => rewrite H end. case_decide; by destruct (obj !! f).
    + rewrite lookup_insert_ne by done. repeat case_decide; set_solver.
Qed.

Lemma mergeSealed_ok l m out :
  mergeSealed l m = Ok out <->
  NoDup l.*1 /\ (forall k, k ∈ l.*1 -> k <> e2eeKey /\ m !! k = None) /\ out = list_to_map l ∪ m.
Proof.
  revert m. induction l as [|[k v] l IH]; intros m; cbn [mergeSealed fmap list_fmap fst].
  - change (list_to_map (M := gmap string json) []) with (∅ : gmap string json).
    rewrite (left_id_L ∅ (∪)). split; [intros [= ->]; split_and!; [constructor|set_solver|done]|].
    by intros (_ & _ & ->).
  - assert (list_to_map ((k, v) :: l) ∪ m = <[k := v]> (list_to_map l ∪ m)) as Hu
      by (cbn; by rewrite insert_union_l).
    rewrite Hu. rewrite NoDup_cons. split.
    + intros Hm. inv_ok. bool_hyps. apply IH in Hm as (Hnd & Hk & ->).
      assert (k ∉ l.*1) as Hkl.
      { intros Hin. destruct (Hk k Hin) as [_ E]. by rewrite lookup_insert_eq in E. }
      split_and!; [done|done| |].
      * intros k' [->|Hk']%elem_of_cons; [done|]. destruct (Hk k' Hk') as [? E]. split; [done|].
        by rewrite lookup_insert_ne in E by (intros ->; done).
      * rewrite <-insert_union_r; [done|]. by apply not_elem_of_list_to_map.
    + intros ((Hkl & Hnd) & Hk & ->).
      destruct (Hk k ltac:(set_solver)) as [Hne Hmk].
      rewrite (proj2 (String.eqb_neq _ _)) by done. cbn.
      rewrite (proj2 (has_key_false _ _)) by done. cbn.
      apply IH. split_and!; [done| |].
      * intros k' Hk'. rewrite lookup_insert_ne by (intros ->; done). apply Hk. set_solver.
      * rewrite <-insert_union_r; [done|]. by apply not_elem_of_list_to_map.
Qed.

(** The order in which the decrypted fields are visited does not matter. *)
Lemma mergeSealed_perm l1 l2 m out :
  l1 ≡ₚ l2 -> mergeSealed l1 m = Ok out -> mergeSealed l2 m = Ok out.
Proof.
  intros Hp (Hnd & Hk & ->)%mergeSealed_ok. apply mergeSealed_ok.
  assert (list_to_map (M := gmap string json) l1 = list_to_map l2) as E by (by apply list_to_map_proper).
  rewrite <-E. split_and!; [by rewrite <-Hp|intros k; rewrite <-Hp; apply Hk|done].
Qed.

Lemma mergeSealed_map obj m out :
  mergeSealed (map_to_list obj) m = Ok out <->
  obj !! e2eeKey = None /\ (forall k, is_Some (obj !! k) -> m !! k = None) /\ out = obj ∪ m.
Proof.
  rewrite mergeSealed_ok, list_to_map_to_list. split.
  - intros (_ & Hk & ->).
    assert (forall k, is_Some (obj !! k) -> k ∈ (map_to_list obj).*1) as Hin.
    { intros k [v Hv]. apply list_elem_of_fmap. exists (k, v). split; [done|].
      by apply elem_of_map_to_list. }
    split_and!; [|intros; by apply Hk, Hin|done].
    apply eq_None_not_Some. intros Hs. by destruct (Hk e2eeKey (Hin _ Hs)).
  - intros (He & Hk & ->). split_and!; [apply NoDup_fst_map_to_list| |done].
    intros k ((k' & v) & -> & Hv%elem_of_map_to_list)%list_elem_of_fmap. cbn. split; [|by apply Hk; eauto].
    intros ->. congruence.
Qed.

Section sealing.
Context `{Jcs} `{HpkeLib}.

(** The parts of a sealed request. *)
Record sealing (profile : Profile) (encPub : PublicKey) (req : Request)
    (signerAddr : string) (clientEphPub : bytes) (sealed unbound : list string)
    (rnd : bytes) (env : Request) : Prop := Sealing {
  sealing_inputs : exists s, profiles !! profile = Some s /\
    validateSealInputs profile s sealed unbound signerAddr clientEphPub = Ok tt /\
    validateSealableRequest profile s sealed req = Ok tt;
  sealing_present : forall f, f ∈ sealed -> is_Some (req !! f);
  sealing_no_block : req !! e2eeKey = None;
  sealing_env : exists enc sealer aad ct sealer',
    let e := request_meta encPub signerAddr clientEphPub enc sealed unbound in
    SetupSender encPub (bytes_of SealInfo) rnd = Ok (enc, sealer) /\
    aadFromEnvelope (setE2EE (cleartext_of sealed req) e) = Ok aad /\
    Sealer_Seal sealer (marshal_map (sealed_part sealed req)) aad = Ok (ct, sealer') /\
    env = setE2EE (cleartext_of sealed req) (with_ciphertext e (b64 ct))
}.

Lemma SealRequestFor_sealing profile encPub req sf signerAddr clientEphPub unbound rnd env :
  SealRequestFor profile encPub req sf signerAddr clientEphPub unbound rnd = Ok env ->
  sealing profile encPub req signerAddr clientEphPub (resolveSealed profile req sf) unbound rnd env.
Proof.
  unfold SealRequestFor. intros Hs. inv_ok.
  repeat match goal with x : (_ * _)%type |- _ => destruct x end. inv_ok.
  repeat match goal with x : (_ * _)%type |- _ => destruct x end. inv_ok. bool_hyps.
  match goal with H : collectSealed _ _ _ = _ |- _ => apply collectSealed_ok in H as [? Hobj] end.
  rewrite (right_id_L ∅ (∪)) in Hobj. subst.
  match goal with H : spec _ = _ |- _ => apply spec_ok in H end.
  split; [eauto|done..|]. do 5 eexists. split_and!; [done..|].
  unfold setE2EE. by rewrite insert_insert_eq.
Qed.
End sealing.

(** ** Well-formedness of what is written *)

Lemma b64_safe_utf8 b : utf8_str (b64 b) = true.
Proof.
  unfold utf8_str, b64. rewrite bytes_of_str_of. apply utf8_ok_ascii.
  eapply Forall_impl; [apply b64_encode_safe|].
  apply (all_bytes_forall (fun c => b64_safe c = true -> bval c < 128)). by vm_compute.
Qed.

Lemma unb64_b64 b : unb64 (b64 b) = Some b.
Proof. unfold unb64, b64. rewrite bytes_of_str_of. apply b64_decode_encode. Qed.

Lemma isSignerAddr_utf8 s : isSignerAddr s = true -> utf8_str s = true.
Proof.
  unfold isSignerAddr, utf8_str. destruct (bytes_of s) as [|z [|x r]]; try done. intros. bool_hyps.
  repeat match goal with H : Ascii.eqb _ _ = true |- _ => apply Ascii.eqb_eq in H as -> end.
  apply utf8_ok_ascii. repeat constructor.
  rewrite forallb_forall in H0. apply Forall_forall. intros c Hc%list_elem_of_In%H0.
  revert c Hc. apply (all_bytes_forall (fun c => is_hex_letter c = true -> bval c < 128)).
  by vm_compute.
Qed.

Lemma request_meta_ok encPub signerAddr eph enc sealed unbound ct :
  isSignerAddr signerAddr = true ->
  Forall (fun s => utf8_str s = true) sealed -> Forall (fun s => utf8_str s = true) unbound ->
  E2EE_ok (with_ciphertext (request_meta encPub signerAddr eph enc sealed unbound) (b64 ct)).
Proof.
  intros Hs Hsf Huf. split; [done|]. cbn. split_and!; [|done|done].
  repeat constructor; by apply b64_safe_utf8 || by apply isSignerAddr_utf8.
Qed.

Lemma map_ok_filter (P : string * json -> Prop) `{!forall x, Decision (P x)} m :
  map_ok m -> map_ok (filter P m).
Proof. intros Hm k v [Hk _]%map_lookup_filter_Some. by apply (Hm k v). Qed.

Lemma map_ok_keys m l : map_ok m -> (forall f, f ∈ l -> is_Some (m !! f)) ->
  Forall (fun s => utf8_str s = true) l.
Proof. intros Hm Hl. apply Forall_forall. intros f Hf. destruct (Hl f Hf) as [v Hv]. by apply (Hm f v). Qed.

Lemma wf_json_of_strings l : wf (json_of_strings l) = true /\ (jdepth (json_of_strings l) <= 1)%N.
Proof.
  cbn. split.
  - apply forallb_forall. intros x (s & <- & _)%in_map_iff. apply str_ok_quote.
  - enough (fold_right (fun v acc => N.max (jdepth v) acc) 0%N (map jstr l) = 0%N) as -> by lia.
    induction l as [|s l IH]; [done|]. cbn [map fold_right]. by rewrite IH.
Qed.

Lemma raw_ok_json_of_E2EE e : num_ok (itoa (e_V e)) = true -> raw_ok (json_of_E2EE e) = true.
Proof.
  intros Hv. unfold raw_ok. destruct e as [v k ki s c en sf uf ct]. cbn in Hv.
  unfold json_of_E2EE.
  cbn [e_V e_KEMID e_KeyID e_SignerAddr e_ClientEphPub e_Enc e_SealedFields e_UnboundFields e_Ciphertext].
  destruct (wf_json_of_strings sf) as [Hsf Dsf], (wf_json_of_strings uf) as [Huf Duf].
  assert (forall s, str_ok (jkey s) = true) as Hk by (intros; apply str_ok_quote).
  assert (forall s, wf (jstr s) = true) as Hj by (intros; apply str_ok_quote).
  apply andb_true_iff. split.
  - cbn [wf]. rewrite !forallb_app. cbn [forallb fst snd wf json_of_int].
    rewrite !Hk, !Hj, Hsf, Hv. destruct uf; cbn [forallb fst snd]; [done|]. by rewrite Hk, Huf.
  - apply N.ltb_lt. cbn [jdepth]. destruct uf as [|u uf]; cbn [app fold_right snd] in *;
      cbn [jdepth json_of_int jstr]; unfold maxNestingDepth; lia.
Qed.

Section round_trip.
Context `{Jcs} `{L : HpkeLaws}.

Lemma Request_E2EE_block env e :
  E2EE_ok e -> env !! e2eeKey = Some (json_of_E2EE e) -> Request_E2EE env = Ok e.
Proof. intros He Hb. unfold Request_E2EE. rewrite Hb. by rewrite E2EE_roundtrip. Qed.

(** The enclave reads the sealed half back from any envelope that keeps the bound
    half of the one the client built. *)
Lemma OpenRequest_sealing profile sk pk req signerAddr eph sealed unbound rnd env env' :
  keypair sk pk -> map_ok req -> Forall (fun s => utf8_str s = true) unbound ->
  sealing profile pk req signerAddr eph sealed unbound rnd env ->
  (forall k, (k ∉ unbound) -> env' !! k = compact <$> env !! k) ->
  OpenRequest sk env' = Ok ((compact <$> sealed_part sealed req) ∪ delete e2eeKey env').
Proof.
  intros Hkey Hreq Hu [(s & Hs & Hin & Hreq') Hpres Hblk (enc & sealer & aad & ct & sealer' & Henv)] Hk.
  cbv zeta in Henv. destruct Henv as (Hset & Haad & Hseal & ->).
  unfold validateSealInputs in Hin. inv_ok. bool_hyps.
  match goal with H : ValidateSealedFieldsFor _ _ = _ |- _ =>
    apply ValidateSealedFieldsFor_ok in H as (s' & _ & (_ & Hnd & _ & Hns & _ & _)) end.
  match goal with H : ValidateUnboundFields _ _ = _ |- _ =>
    apply ValidateUnboundFields_ok in H as (_ & _ & Hnu & Hdisj) end.
  set (e := request_meta pk signerAddr eph enc sealed unbound) in *.
  assert (E2EE_ok (with_ciphertext e (b64 ct))) as He
    by (apply request_meta_ok; [done|by eapply map_ok_keys|done]).
  assert (env' !! e2eeKey = Some (json_of_E2EE (with_ciphertext e (b64 ct)))) as Hb.
  { rewrite Hk by done. unfold setE2EE. rewrite lookup_insert_eq. cbn [fmap option_fmap option_map].
    by rewrite compact_json_of_E2EE. }
  unfold OpenRequest. rewrite (Request_E2EE_block _ _ He Hb). cbn [mbind result_bind].
  cbn [with_ciphertext e request_meta e_V e_KEMID e_Enc e_Ciphertext e_SealedFields].
  rewrite !unb64_b64. cbn [refuse negb Z.eqb String.eqb of_option mbind result_bind].
  change (negb (Version =? Version)) with false. change (negb (String.eqb KEMID KEMID)) with false.
  cbn [refuse mbind result_bind].
  assert (aadFromEnvelope env' = Ok aad) as ->.
  { rewrite <-Haad. symmetry.
    apply (aadFromEnvelope_agree_E2EE _ _ e (with_ciphertext e (b64 ct))); [done| |done|done|].
    - by unfold setE2EE; rewrite lookup_insert_eq.
    - intros k Hne Hku. rewrite Hk by done. unfold setE2EE. rewrite !lookup_insert_ne by done.
      destruct (cleartext_of sealed req !! k); cbn; [|done]. by rewrite compact_idem. }
  cbn [mbind result_bind].
  destruct (SetupReceiver_paired _ _ _ _ _ _ Hkey Hset) as (o & -> & Hpair). cbn [mbind result_bind].
  destruct (Opener_Open_sealed _ _ _ _ _ _ Hpair Hseal) as (o' & -> & _). cbn [mbind result_bind].
  rewrite unmarshal_marshal_map by by apply map_ok_filter. cbn [map_err mbind result_bind nil_map].
  rewrite (proj2 (sameKeys_dom _ _ Hnd)).
  - cbn [negb refuse mbind result_bind]. apply mergeSealed_map.
    assert (forall k, is_Some ((compact <$> sealed_part sealed req) !! k) -> k ∈ sealed) as Hks.
    { intros k. rewrite lookup_fmap, sealed_part_lookup. case_decide; [done|]. by intros [? ?]. }
    split_and!; [| |done].
    + apply eq_None_not_Some. by intros ?%Hks.
    + intros k Hks'%Hks. destruct (decide (k = e2eeKey)) as [->|]; [done|].
      rewrite lookup_delete_ne by done. rewrite Hk by (intros Hku; by apply (Hdisj k)).
      unfold setE2EE. rewrite lookup_insert_ne, cleartext_of_lookup by done.
      by rewrite decide_True by done.
  - rewrite dom_fmap_L. apply set_eq. intros k.
    rewrite elem_of_toSet, elem_of_dom, sealed_part_lookup.
    case_decide; [split; auto|]. split; [by intros [? ?]|done].
Qed.
End round_trip.

Section binding.
Context `{JcsLaws}.

Lemma map_ok_delete_all l (m : gmap string json) : map_ok m -> map_ok (delete_all l m).
Proof. intros Hm k v. rewrite delete_all_lookup. case_decide; [done|]. apply Hm. Qed.

(** Equal additional data: the blocks carry the same data but for the ciphertext,
    and the fields left bound carry the same data. *)
Lemma aadFromEnvelope_binds env env' raw m aad :
  map_ok env -> map_ok env' -> env !! e2eeKey = Some raw -> unmarshal_map raw = Ok (Some m) ->
  aadFromEnvelope env = Ok aad -> aadFromEnvelope env' = Ok aad ->
  exists raw' m' unbound,
    env' !! e2eeKey = Some raw' /\ unmarshal_map raw' = Ok (Some m') /\
    map_jequiv (delete "ciphertext" m') (delete "ciphertext" m) /\
    unbound_of m = Ok unbound /\
    (forall k, k <> e2eeKey -> (k ∉ unbound) -> option_Forall2 jequiv (env' !! k) (env !! k)).
Proof.
  intros Hok Hok' Hraw Hm Ha Ha'.
  destruct (env' !! e2eeKey) as [raw'|] eqn:Hraw'; [|by unfold aadFromEnvelope in Ha'; rewrite Hraw' in Ha'].
  rewrite (aadFromEnvelope_object _ _ _ Hraw Hm) in Ha. inv_ok.
  destruct raw as [| | | | |l]; try done. injection Hm as <-.
  assert (raw_ok (JObj l) = true) as Hl by by apply (Hok e2eeKey).
  destruct (raw_ok_rewrite l (delete "ciphertext" (members_map l)) Hl (delete_subseteq _ _)) as [Hj Hd].
  rename x into unbound.
  assert (map_ok (aad_input env unbound (delete "ciphertext" (members_map l)))) as Hin
    by (apply map_Forall_insert_2; [done|by apply map_ok_delete_all]).
  assert (raw_ok raw' = true) as Hl' by by apply (Hok' e2eeKey).
  destruct (unmarshal_map raw') as [[m'|]|] eqn:Hm';
    [|exfalso|by unfold aadFromEnvelope in Ha'; rewrite Hraw' in Ha'; cbn in Ha'; rewrite Hm' in Ha'].
  - rewrite (aadFromEnvelope_object _ _ _ Hraw' Hm') in Ha'. inv_ok.
    destruct raw' as [| | | | |l']; try done. injection Hm' as <-.
    destruct (raw_ok_rewrite l' (delete "ciphertext" (members_map l')) Hl' (delete_subseteq _ _))
      as [Hj' Hd'].
    rename x into unbound'.
    assert (map_ok (aad_input env' unbound' (delete "ciphertext" (members_map l')))) as Hin'
      by (apply map_Forall_insert_2; [done|by apply map_ok_delete_all]).
    unfold canonicalJSON in *. inv_ok.
    assert (map_jequiv (aad_input env' unbound' (delete "ciphertext" (members_map l')))
              (aad_input env unbound (delete "ciphertext" (members_map l)))) as Hje
      by by eapply jcs_reflects.
    assert (map_jequiv (delete "ciphertext" (members_map l')) (delete "ciphertext" (members_map l)))
      as Hje2.
    { apply jequiv_json_of_map; [done..|]. specialize (Hje e2eeKey). unfold aad_input in Hje.
      rewrite !lookup_insert_eq in Hje. by inversion Hje. }
    assert (unbound' = unbound) as ->.
    { specialize (Hje2 "unbound_fields"). rewrite !lookup_delete_ne in Hje2 by done.
      destruct Hje2 as [ru' ru Hru|]; [|congruence]. inv_ok.
      apply unmarshal_strings_jequiv in Hru. congruence. }
    exists (JObj l'), (members_map l'), unbound. split_and!; try done.
    + unfold unbound_of. destruct (members_map l !! "unbound_fields"); [|by simplify_eq]. by inv_ok.
    + intros k Hne Hku. specialize (Hje k). unfold aad_input in Hje.
      by rewrite !lookup_insert_ne, !delete_all_lookup, !decide_False in Hje by done.
  - unfold aadFromEnvelope in Ha'. rewrite Hraw' in Ha'. cbn [of_option mbind result_bind] in Ha'.
    rewrite Hm' in Ha'. cbn [map_err mbind result_bind nil_map] in Ha'. rewrite lookup_empty in Ha'.
    cbn [mbind result_bind] in Ha'. unfold canonicalJSON in *. inv_ok.
    assert (map_jequiv (<[e2eeKey:=JNull]> env')
              (aad_input env unbound (delete "ciphertext" (members_map l)))) as Hje.
    { eapply jcs_reflects; [|done..]. by apply map_Forall_insert_2. }
    specialize (Hje e2eeKey). unfold aad_input in Hje. rewrite !lookup_insert_eq in Hje.
    inversion Hje as [? ? Hx|]. inversion Hx.
Qed.
End binding.

Section properties.
Context `{Jcs} `{L : HpkeLaws}.
Context (profile : Profile) (sk pk : bytes) (req : Request) (sf : option (list string))
  (signerAddr : string) (eph : bytes) (unbound : list string) (rnd : bytes) (env : Request).
Let sealed := resolveSealed profile req sf.
Context (Hseal : SealRequestFor profile pk req sf signerAddr eph unbound rnd = Ok env).

Lemma sealed_env_lookup k : k <> e2eeKey ->
  env !! k = if decide (k ∈ sealed) then None else req !! k.
Proof using Hseal.
  intros Hk. destruct (SealRequestFor_sealing _ _ _ _ _ _ _ _ _ Hseal) as [_ _ _ Henv].
  destruct Henv as (? & ? & ? & ? & ? & _ & _ & _ & ->). unfold setE2EE.
  by rewrite lookup_insert_ne, cleartext_of_lookup.
Qed.

Lemma sealed_env_ok : map_ok req -> map_ok env.
Proof using Hseal.
  intros Hreq. destruct (SealRequestFor_sealing _ _ _ _ _ _ _ _ _ Hseal) as [_ _ _ Henv].
  destruct Henv as (? & ? & ? & ? & ? & _ & _ & _ & ->).
  apply map_Forall_insert_2; [|by apply map_ok_filter]. split; [done|].
  by apply raw_ok_json_of_E2EE.
Qed.

(** The decision the sender's validation made. *)
Lemma sealed_env_valid : exists s, profiles !! profile = Some s /\
  sealed_set_ok s sealed /\ payload_sealed s sealed req /\ Forall (pin_met req) (ps_pinned s) /\
  (forall f, f ∈ unbound -> (f ∉ sealed) /\ is_pinned s f = false) /\ (e2eeKey ∉ unbound) /\
  isSignerAddr signerAddr = true.
Proof using Hseal.
  destruct (SealRequestFor_sealing _ _ _ _ _ _ _ _ _ Hseal) as [(s & Hs & Hin & Hreq) _ _ _].
  unfold validateSealInputs in Hin. unfold validateSealableRequest in Hreq. inv_ok. bool_hyps.
  repeat match goal with
  | H : ValidateSealedFieldsFor _ _ = _ |- _ => apply ValidateSealedFieldsFor_ok in H as (s1 & Hs1 & ?)
  | H : validatePayloadSealedFor _ _ _ = _ |- _ => apply validatePayloadSealedFor_ok in H as (s2 & Hs2 & ?)
  | H : ValidateUnboundFields _ _ = _ |- _ => apply ValidateUnboundFields_ok in H as (? & ? & ? & ?)
  | H : validatePinnedNotUnbound _ _ = _ |- _ => rewrite validatePinnedNotUnbound_ok in H
  | H : validatePinnedValues _ _ = _ |- _ => rewrite validatePinnedValues_ok in H
  end.
  simplify_eq. exists s. split_and!; auto.
Qed.

(** Neither a sealed field nor one of the profile's payload stays in the envelope. *)
Lemma sealed_env_hides f :
  f ∈ sealed \/ f ∈ DefaultSealedFieldsFor profile \/ f = fieldBind -> env !! f = None.
Proof using Hseal.
  intros Hf. destruct sealed_env_valid as (s & Hs & Hset & Hpay & _).
  assert (f ∈ DefaultSealedFieldsFor profile -> exists pf, pf ∈ ps_payload s /\ f = pf_name pf) as Hdef.
  { unfold DefaultSealedFieldsFor. rewrite (proj2 (spec_ok _ _) Hs).
    intros (pf & -> & Hpf)%list_elem_of_fmap. by exists pf. }
  assert (f <> e2eeKey) as Hne.
  { destruct Hf as [Hf|Hf]; [intros ->; by apply Hset|].
    eapply payload_field_e2ee; [done|]. destruct Hf as [(pf & Hpf & ->)%Hdef| ->]; [right|by left]. eauto. }
  rewrite sealed_env_lookup by done. case_decide as Hd; [done|]. destruct Hf as [Hf|Hf]; [done|].
  apply eq_None_not_Some. intros Hsome. apply Hd, Hpay; [|done].
  destruct Hf as [(pf & Hpf & ->)%Hdef| ->]; [right|by left]. eauto.
Qed.

Lemma sealed_env_block :
  map_ok req -> Forall (fun s => utf8_str s = true) unbound ->
  exists e, E2EE_ok e /\ env !! e2eeKey = Some (json_of_E2EE e) /\
    e_SealedFields e = sealed /\ e_UnboundFields e = unbound.
Proof using Hseal.
  intros Hreq Hu. destruct sealed_env_valid as (s & _ & _ & _ & _ & _ & _ & Hsig).
  destruct (SealRequestFor_sealing _ _ _ _ _ _ _ _ _ Hseal) as [_ Hpres _ Henv].
  destruct Henv as (enc & ? & ? & ct & ? & _ & _ & _ & ->).
  eexists. split; [apply request_meta_ok; [done|by eapply map_ok_keys|done]|].
  unfold setE2EE. by rewrite lookup_insert_eq.
Qed.
End properties.

Lemma compact_block (env : Request) e :
  env !! e2eeKey = Some (json_of_E2EE e) -> (compact <$> env) !! e2eeKey = Some (json_of_E2EE e).
Proof. intros E. rewrite lookup_fmap, E. rewrite <-(compact_json_of_E2EE e) at 2. done. Qed.

Lemma validatePinnedFor_ok p s env e :
  profiles !! p = Some s -> Request_E2EE env = Ok e ->
  validatePinnedFor p env = Ok tt <->
  (forall f, f ∈ e_SealedFields e -> is_pinned s f = false) /\
  (forall f, f ∈ e_UnboundFields e -> is_pinned s f = false) /\
  Forall (pin_met env) (ps_pinned s).
Proof.
  intros Hs He. unfold validatePinnedFor. rewrite (proj2 (spec_ok _ _) Hs). cbn [mbind result_bind].
  rewrite <-validatePinnedNotSealed_ok, <-validatePinnedNotUnbound_ok, <-validatePinnedValues_ok.
  destruct (ps_pinned s) as [|q l] eqn:E.
  - split; [|done]. intros _. unfold validatePinnedValues. rewrite E.
    split_and!; [apply validatePinnedNotSealed_ok|apply validatePinnedNotUnbound_ok|done];
      intros f _; unfold is_pinned, pinFor; by rewrite E.
  - rewrite He. cbn [mbind result_bind]. rewrite !bind_ok. split.
    + intros ([] & H1 & H2). inv_ok. done.
    + intros (H1 & H2 & H3). exists tt. split; [done|]. by rewrite H2.
Qed.

(** What a successful [OpenRequest] has established. *)
Record opening `{Jcs} `{HpkeLib} (sk : PrivateKey) (env out : Request) (e : E2EE)
    (enc ct aad : bytes) (obj : Request) : Prop := Opening {
  opening_meta : Request_E2EE env = Ok e /\ e_V e = Version /\ e_KEMID e = KEMID;
  opening_bytes : unb64 (e_Enc e) = Some enc /\ unb64 (e_Ciphertext e) = Some ct;
  opening_aad : aadFromEnvelope env = Ok aad;
  opening_aead : exists o pt o' m, SetupReceiver sk enc (bytes_of SealInfo) = Ok o /\
    Opener_Open o ct aad = Ok (pt, o') /\ unmarshal unmarshal_map pt = Ok m /\ obj = nil_map m;
  opening_keys : sameKeys obj (e_SealedFields e) = true;
  opening_merge : obj !! e2eeKey = None /\
    (forall k, is_Some (obj !! k) -> delete e2eeKey env !! k = None) /\
    out = obj ∪ delete e2eeKey env
}.

Lemma OpenRequest_ok `{Jcs} `{HpkeLib} sk env out :
  OpenRequest sk env = Ok out -> exists e enc ct aad obj, opening sk env out e enc ct aad obj.
Proof.
  unfold OpenRequest. intros Ho. inv_ok.
  repeat match goal with x : (_ * _)%type |- _ => destruct x end. inv_ok. bool_hyps.
  match goal with H : mergeSealed _ _ = _ |- _ => apply mergeSealed_map in H end.
  do 5 eexists. split; [split_and!; [done|lia|done]|done|done|by do 4 eexists|done..].
Qed.

(** What [OpenRequestFor] checks before it opens. *)
Lemma OpenRequestFor_ok `{Jcs} `{HpkeLib} p sk env out :
  OpenRequestFor p sk env = Ok out <->
  exists s e, profiles !! p = Some s /\ Request_E2EE env = Ok e /\
    sealed_set_ok s (e_SealedFields e) /\ payload_sealed s (e_SealedFields e) env /\
    (forall f, f ∈ e_UnboundFields e -> is_pinned s f = false) /\
    Forall (pin_met env) (ps_pinned s) /\ OpenRequest sk env = Ok out.
Proof.
  unfold OpenRequestFor. split.
  - intros Ho. inv_ok.
    repeat match goal with
    | H : spec _ = _ |- _ => apply spec_ok in H
    | H : ValidateSealedFieldsFor _ _ = _ |- _ => apply ValidateSealedFieldsFor_ok in H as (s1 & Hs1 & ?)
    | H : validatePayloadSealedFor _ _ _ = _ |- _ => apply validatePayloadSealedFor_ok in H as (s2 & Hs2 & ?)
    end. simplify_eq.
    match goal with H : validatePinnedFor _ _ = _ |- _ =>
      eapply validatePinnedFor_ok in H as (? & ? & ?); [|done..] end.
    eauto 10.
  - intros (s & e & Hs & He & Hset & Hpay & Hu & Hpin & Ho).
    rewrite (proj2 (spec_ok _ _) Hs). cbn [mbind result_bind]. rewrite He. cbn [mbind result_bind].
    rewrite (proj2 (ValidateSealedFieldsFor_ok _ _)) by eauto. cbn [mbind result_bind].
    rewrite (proj2 (validatePayloadSealedFor_ok _ _ _)) by eauto. cbn [mbind result_bind].
    rewrite (proj2 (validatePinnedFor_ok _ _ _ _ Hs He)); [done|]. split_and!; [apply Hset|done..].
Qed.

Lemma cleartextToken_compact v : wf v = true -> cleartextToken (compact v) = cleartextToken v.
Proof. destruct v; try done. cbn. intros Hs. f_equal. by apply unquote_str_esc. Qed.

Lemma pin_met_agree p m m' :
  (forall v, m !! pin_field p = Some v -> wf v = true) ->
  m' !! pin_field p = compact <$> m !! pin_field p -> pin_met m p -> pin_met m' p.
Proof.
  unfold pin_met. intros Hw ->. destruct (m !! pin_field p) as [v|] eqn:E; [|done]. cbn.
  intros (got & Hg & Hin). exists got. by rewrite cleartextToken_compact by auto.
Qed.


Section properties.
Context `{Jcs} `{L : HpkeLaws}.
Context (profile : Profile) (sk pk : bytes) (req : Request) (sf : option (list string))
  (signerAddr : string) (eph : bytes) (unbound : list string) (rnd : bytes) (env : Request).
Context (Hkey : keypair sk pk) (Hreq : map_ok req)
  (Hu : Forall (fun s => utf8_str s = true) unbound)
  (Hseal : SealRequestFor profile pk req sf signerAddr eph unbound rnd = Ok env).

Lemma OpenRequest_wire : OpenRequest sk (compact <$> env) = Ok (compact <$> req).
Proof using All.
  pose proof (SealRequestFor_sealing _ _ _ _ _ _ _ _ _ Hseal) as Hsl.
  rewrite (OpenRequest_sealing _ _ _ _ _ _ _ _ _ _ (compact <$> env) Hkey Hreq Hu Hsl)
    by (intros; apply lookup_fmap).
  f_equal. rewrite <-fmap_delete, <-map_fmap_union. f_equal.
  apply map_eq. intros k. destruct Hsl as [_ _ Hnb _]. rewrite lookup_union, sealed_part_lookup.
  destruct (decide (k = e2eeKey)) as [->|Hk].
  - rewrite lookup_delete_eq, Hnb. by case_decide.
  - rewrite lookup_delete_ne, (sealed_env_lookup _ _ _ _ _ _ _ _ _ Hseal k Hk) by done.
    case_decide; by destruct (req !! k).
Qed.

Lemma OpenRequestFor_wire : OpenRequestFor profile sk (compact <$> env) = Ok (compact <$> req).
Proof using All.
  destruct (sealed_env_valid _ _ _ _ _ _ _ _ _ Hseal) as (s & Hs & Hset & Hpay & Hpin & Hub & _ & _).
  destruct (sealed_env_block _ _ _ _ _ _ _ _ _ Hseal Hreq Hu) as (e & He & Hb & Hsf & Huf).
  assert (forall k, k <> e2eeKey -> (compact <$> env) !! k
    = if decide (k ∈ resolveSealed profile req sf) then None else compact <$> req !! k) as Hlk.
  { intros k Hk. rewrite lookup_fmap, (sealed_env_lookup _ _ _ _ _ _ _ _ _ Hseal k Hk). by case_decide. }
  apply OpenRequestFor_ok. exists s, e. rewrite Hsf, Huf.
  split_and!; [done|by apply Request_E2EE_block, compact_block|done| |by apply Hub| |apply OpenRequest_wire].
  - intros f Hf [v Hv]. apply (Hpay f Hf). rewrite Hlk in Hv by (by eapply payload_field_e2ee).
    case_decide; [done|]. destruct (req !! f); eauto; done.
  - apply Forall_forall. intros p Hp. rewrite Forall_forall in Hpin.
    apply (pin_met_agree _ req); [|..|by apply Hpin].
    + intros v Hv. by apply (map_ok_wf _ Hreq _ _ Hv).
    + rewrite Hlk by (by eapply pin_field_e2ee). apply decide_False. intros Hin.
      apply (is_pinned_false s (pin_field p) p); [by apply Hset|done|done].
Qed.

(** The additional data of what was built. *)
(** The reply key of the envelope, as the enclave reads it off the wire. *)
Lemma sealed_env_reply_key : exists e, Request_E2EE (compact <$> env) = Ok e /\ unb64 (e_ClientEphPub e) = Some eph.
Proof using Hreq Hseal Hu.
  destruct (sealed_env_valid _ _ _ _ _ _ _ _ _ Hseal) as (_ & _ & _ & _ & _ & _ & _ & Hsig).
  destruct (SealRequestFor_sealing _ _ _ _ _ _ _ _ _ Hseal) as [_ Hpres _ Henv].
  destruct Henv as (enc & sealer & aad & ct & sealer' & _ & _ & _ & ->).
  eexists. split; [apply Request_E2EE_block; [|apply compact_block, lookup_insert_eq]|apply unb64_b64].
  apply request_meta_ok; [done|by eapply map_ok_keys|done].
Qed.

Lemma sealed_env_aad : exists enc sealer aad ct sealer' e,
  SetupSender pk (bytes_of SealInfo) rnd = Ok (enc, sealer) /\
  Sealer_Seal sealer (marshal_map (sealed_part (resolveSealed profile req sf) req)) aad
    = Ok (ct, sealer') /\
  aadFromEnvelope env = Ok aad /\
  env !! e2eeKey = Some (json_of_E2EE e) /\ Request_E2EE env = Ok e /\
  e_Enc e = b64 enc /\ e_Ciphertext e = b64 ct /\ e_UnboundFields e = unbound /\
  e_SealedFields e = resolveSealed profile req sf.
Proof using Hreq Hseal Hu.
  destruct (sealed_env_valid _ _ _ _ _ _ _ _ _ Hseal) as (_ & _ & _ & _ & _ & _ & _ & Hsig).
  destruct (SealRequestFor_sealing _ _ _ _ _ _ _ _ _ Hseal) as [_ Hpres _ Henv].
  destruct Henv as (enc & sealer & aad & ct & sealer' & Hset & Haad & Hct & ->).
  set (e0 := request_meta pk signerAddr eph enc (resolveSealed profile req sf) unbound) in *.
  assert (E2EE_ok (with_ciphertext e0 (b64 ct))) as He
    by (apply request_meta_ok; [done|by eapply map_ok_keys|done]).
  assert (setE2EE (cleartext_of (resolveSealed profile req sf) req) (with_ciphertext e0 (b64 ct))
    !! e2eeKey = Some (json_of_E2EE (with_ciphertext e0 (b64 ct)))) as Hb
    by (unfold setE2EE; by rewrite lookup_insert_eq).
  exists enc, sealer, aad, ct, sealer', (with_ciphertext e0 (b64 ct)). split_and!; try done.
  - rewrite <-Haad. apply (aadFromEnvelope_agree_E2EE _ _ (with_ciphertext e0 (b64 ct)) e0);
      [done|done|by unfold setE2EE; rewrite lookup_insert_eq|done|].
    intros k Hk _. unfold setE2EE. by rewrite !lookup_insert_ne.
  - by apply Request_E2EE_block.
Qed.
End properties.

(** C1: a request survives the trip. What [SealRequestFor] builds, marshalled and
    unmarshalled, is accepted by [OpenRequestFor] under the enclave's private key,
    which returns the request the client had, each value as [json.Marshal] re-spells it. *)
Theorem request_roundtrip `{Jcs} `{HpkeLaws} profile sk pk req sf signerAddr eph unbound rnd env :
  keypair sk pk -> map_ok req -> Forall (fun s => utf8_str s = true) unbound ->
  SealRequestFor profile pk req sf signerAddr eph unbound rnd = Ok env ->
  (m ← map_err ENotObject (unmarshal unmarshal_map (marshal_map env));
   OpenRequestFor profile sk (nil_map m)) = Ok (compact <$> req).
Proof.
  intros Hkey Hreq Hu Hseal. rewrite unmarshal_marshal_map by by eapply sealed_env_ok.
  by eapply OpenRequestFor_wire.
Qed.

(** An intermediary may set, change or drop the fields the client left unbound,
    and nothing else: every envelope that keeps the rest opens, to the sealed fields
    beside that envelope's cleartext ones. *)
Theorem request_unbound_mutable `{Jcs} `{HpkeLaws}
    profile sk pk req sf signerAddr eph unbound rnd env env' :
  keypair sk pk -> map_ok req -> Forall (fun s => utf8_str s = true) unbound ->
  SealRequestFor profile pk req sf signerAddr eph unbound rnd = Ok env ->
  (forall k, (k ∉ unbound) -> env' !! k = compact <$> env !! k) ->
  OpenRequest sk env' =
    Ok ((compact <$> sealed_part (resolveSealed profile req sf) req) ∪ delete e2eeKey env').
Proof.
  intros Hkey Hreq Hu Hseal Hk. by eapply OpenRequest_sealing; [..|eapply SealRequestFor_sealing|].
Qed.

(** C2: tamper evidence. When the enclave opens any envelope around the ciphertext a
    client sealed, that envelope carries, as JSON data, the client's value of every
    field the client left bound (present or absent), the client's [_e2ee] block up
    to the ciphertext's spelling, and the sealed fields come out as the client's. *)
Theorem request_tamper_evident `{JcsLaws} `{HpkeLaws}
    profile sk pk req sf signerAddr eph unbound rnd env env' e e' out :
  keypair sk pk -> map_ok req -> Forall (fun s => utf8_str s = true) unbound ->
  SealRequestFor profile pk req sf signerAddr eph unbound rnd = Ok env ->
  map_ok env' -> Request_E2EE env = Ok e -> Request_E2EE env' = Ok e' ->
  unb64 (e_Enc e') = unb64 (e_Enc e) -> unb64 (e_Ciphertext e') = unb64 (e_Ciphertext e) ->
  OpenRequest sk env' = Ok out ->
  (forall k, k <> e2eeKey -> (k ∉ unbound) -> option_Forall2 jequiv (env' !! k) (env !! k)) /\
  (exists raw' m', env' !! e2eeKey = Some raw' /\ unmarshal_map raw' = Ok (Some m') /\
     map_jequiv (delete "ciphertext" m') (E2EE_members e)) /\
  (forall f, f ∈ resolveSealed profile req sf -> out !! f = compact <$> req !! f).
Proof.
  intros Hkey Hreq Hu Hseal Hok' He He' Henc Hct Hout.
  destruct (sealed_env_aad _ _ _ _ _ _ _ _ _ Hreq Hu Hseal)
    as (enc & sealer & aad & ct & sealer' & e0 & Hset & Hsl & Haad & Hb & He0 & E1 & E2 & Huf & Hsf).
  assert (e0 = e) as -> by congruence. rewrite E1, unb64_b64 in Henc. rewrite E2, unb64_b64 in Hct.
  destruct (OpenRequest_ok _ _ _ Hout) as (e1 & enc1 & ct1 & aad1 & obj & [(He1 & _ & _) [Ee Ec]
    Haad1 (o1 & pt & o' & m & Ho1 & Hop & Hun & ->) Hkeys (_ & Hfresh & ->)]).
  assert (e1 = e') as -> by congruence. rewrite Ee in Henc. rewrite Ec in Hct. simplify_eq.
  destruct (SetupReceiver_paired _ _ _ _ _ _ Hkey Hset) as (o & Ho & Hpair).
  assert (o1 = o) as -> by congruence.
  destruct (Opener_Open_authentic _ _ _ _ _ _ _ _ _ Hpair Hsl Hop) as [-> ->].
  rewrite unmarshal_marshal_map in Hun by (by apply map_ok_filter). simplify_eq. cbn [nil_map] in *.
  destruct (aadFromEnvelope_binds env env' (json_of_E2EE e) (E2EE_map e) aad) as
    (raw' & m' & unb & Hr' & Hm' & Hblk & Hunb & Hbound);
    [by eapply sealed_env_ok|done|done|apply unmarshal_E2EE|done|done|].
  rewrite E2EE_map_ciphertext in Hblk.
  rewrite unbound_of_E2EE in Hunb by done. injection Hunb as <-.
  split_and!; [done|by eauto|].
  intros f Hf. rewrite lookup_union, lookup_fmap, sealed_part_lookup, decide_True by done.
  destruct (SealRequestFor_sealing _ _ _ _ _ _ _ _ _ Hseal) as [_ Hpres _ _].
  destruct (Hpres f Hf) as [v ->]. cbn. by destruct (delete e2eeKey env' !! f).
Qed.

(** C3: confidentiality of the sealed half. The envelope has none of the sealed
    fields nor of the profile's payload fields, and two requests that differ only in
    sealed values give envelopes that differ only in the ciphertext. *)
Theorem request_confidential `{Jcs} `{HpkeLib}
    profile pk req1 req2 fields signerAddr eph unbound rnd env1 env2 :
  (forall k, (k ∉ fields) -> req1 !! k = req2 !! k) ->
  SealRequestFor profile pk req1 (Some fields) signerAddr eph unbound rnd = Ok env1 ->
  SealRequestFor profile pk req2 (Some fields) signerAddr eph unbound rnd = Ok env2 ->
  (forall f, f ∈ fields \/ f ∈ DefaultSealedFieldsFor profile \/ f = fieldBind -> env1 !! f = None) /\
  exists e ct1 ct2, env1 = setE2EE env2 (with_ciphertext e ct1) /\
                    env2 = setE2EE env1 (with_ciphertext e ct2).
Proof.
  intros Hreq H1 H2.
  split; [exact (sealed_env_hides _ _ _ _ _ _ _ _ _ H1)|].
  destruct (SealRequestFor_sealing _ _ _ _ _ _ _ _ _ H1) as [_ _ _ (enc1 & s1 & ? & ct1 & ? & Hse1 & _ & _ & ->)].
  destruct (SealRequestFor_sealing _ _ _ _ _ _ _ _ _ H2) as [_ _ _ (enc2 & s2 & ? & ct2 & ? & Hse2 & _ & _ & ->)].
  cbn [resolveSealed] in *. rewrite Hse1 in Hse2. simplify_eq.
  assert (cleartext_of fields req1 = cleartext_of fields req2) as ->.
  { apply map_eq. intros k. rewrite !cleartext_of_lookup. case_decide; [done|by apply Hreq]. }
  exists (request_meta pk signerAddr eph enc2 fields unbound), (b64 ct1), (b64 ct2).
  unfold setE2EE. by rewrite !insert_insert_eq.
Qed.

(** What the enclave accepts is conformant. When [OpenRequestFor] returns a
    request: the sealed set covers the profile's mandatory payload, no payload field
    is in the envelope's cleartext, every pinned field was cleartext with a permitted
    value that the returned request still has, and the returned request is exactly
    the decrypted fields, those the block declares, beside the cleartext ones. *)
Theorem OpenRequestFor_sound `{Jcs} `{HpkeLib} p sk env out :
  OpenRequestFor p sk env = Ok out ->
  exists s e obj, profiles !! p = Some s /\ Request_E2EE env = Ok e /\
    dom obj = list_to_set (e_SealedFields e) /\ out = obj ∪ delete e2eeKey env /\
    obj ##ₘ delete e2eeKey env /\ out !! e2eeKey = None /\
    (forall pf, pf ∈ ps_payload s -> pf_optional pf = false -> is_Some (obj !! pf_name pf)) /\
    (forall pf, pf ∈ ps_payload s -> env !! pf_name pf = None) /\
    (forall q, q ∈ ps_pinned s -> pin_met out q /\ out !! pin_field q = env !! pin_field q) /\
    e_V e = Version /\ e_KEMID e = KEMID.
Proof.
  intros (s & e & Hs & He & Hset & Hpay & Hub & Hpin & Ho)%OpenRequestFor_ok.
  destruct (OpenRequest_ok _ _ _ Ho) as (e1 & enc & ct & aad & obj & [(He1 & Hv & Hk) _ _ _ Hkeys
    (Hobj & Hfresh & ->)]). assert (e1 = e) as -> by congruence.
  destruct Hset as (_ & Hnd & _ & _ & Hnp & Hmust).
  apply (sameKeys_dom _ _ Hnd) in Hkeys as Hdom. unfold toSet in Hdom.
  assert (forall f, f ∈ e_SealedFields e <-> is_Some (obj !! f)) as Hin
    by (intros f; rewrite <-elem_of_dom, Hdom; symmetry; apply elem_of_list_to_set).
  exists s, e, obj. split_and!; try done.
  - apply map_disjoint_spec. intros k v w Hv1 Hv2. rewrite Hfresh in Hv2; eauto; done.
  - by rewrite lookup_union, Hobj, lookup_delete_eq.
  - intros pf Hpf Ho'. by apply Hin, Hmust.
  - intros pf Hpf. assert (pf_name pf <> e2eeKey) as Hne by (eapply payload_field_e2ee; eauto).
    apply eq_None_not_Some. intros Hsome.
    assert (is_Some (obj !! pf_name pf)) as Hso by (apply Hin, Hpay; eauto).
    apply Hfresh in Hso. rewrite lookup_delete_ne in Hso by done. rewrite Hso in Hsome. by destruct Hsome.
  - intros q Hq. assert ((obj ∪ delete e2eeKey env) !! pin_field q = env !! pin_field q) as Hlk.
    { assert (obj !! pin_field q = None) as Hn.
      { apply eq_None_not_Some. rewrite <-Hin. intros Hin'. apply (is_pinned_false s (pin_field q) q); [by apply Hnp|done|done]. }
      rewrite lookup_union, Hn, lookup_delete_ne by (by eapply not_eq_sym, pin_field_e2ee).
      by destruct (env !! pin_field q). }
    split; [|done]. rewrite Forall_forall in Hpin. specialize (Hpin q Hq).
    unfold pin_met in *. by rewrite Hlk.
Qed.

(** ** Witnesses: the theorems at a chat request, with [Ideal] as the library *)

Module EnvelopeWitness.
Definition str (s : string) : json := JStr (bytes_of s).
Definition obj (l : list (string * json)) : json := JObj (map (fun kv => (bytes_of kv.1, kv.2)) l).

(** The identity stands for JCS: it determines the text, hence the data. *)
#[export] Instance identity_jcs : Jcs := Some.
#[export] Instance identity_jcs_laws : JcsLaws.
Proof.
  intros m1 m2 c H1 H2 E1 E2. apply marshal_map_jequiv; [done..|]. unfold jcs_Transform, identity_jcs in *.
  congruence.
Qed.

#[export] Existing Instances Ideal.lib Ideal.laws.

Definition key : bytes := repeat "k"%char 32.
Definition eph : bytes := repeat "e"%char 32.
Definition seed : bytes := repeat "r"%char 32.
Definition signer : string := "0x00000000000000000000000000000000000000Aa".
Definition chat (content : string) : Request :=
  <["messages" := JArr [obj [("role", str "user"); ("content", str content)]]]>
    (<["model" := str "m<1>"]> {[ "stream" := JBool true ]}).

Definition sealed_chat (content : string) : wresult Request :=
  SealRequestFor ProfileChat key (chat content) None signer eph ["model"] seed.
Definition chat_env (content : string) : Request :=
  match sealed_chat content with Ok env => env | Err _ => ∅ end.

Lemma keypair_key : keypair key key.
Proof. by split. Qed.
Lemma chat_ok : map_ok (chat "hi").
Proof. by apply (bool_decide_unpack _); vm_compute. Qed.
Lemma sealed_chat_hi : sealed_chat "hi" = Ok (chat_env "hi").
Proof. vm_cast_no_check (eq_refl (sealed_chat "hi")). Qed.
Lemma sealed_chat_secret : sealed_chat "secret" = Ok (chat_env "secret").
Proof. vm_cast_no_check (eq_refl (sealed_chat "secret")). Qed.
Lemma model_utf8 : Forall (fun s => utf8_str s = true) ["model"].
Proof. by repeat constructor. Qed.
Lemma chat_env_ok : map_ok (compact <$> chat_env "hi").
Proof. by apply (bool_decide_unpack _); vm_compute. Qed.
Lemma chat_opens : OpenRequestFor ProfileChat key (compact <$> chat_env "hi") = Ok (compact <$> chat "hi").
Proof. vm_cast_no_check (eq_refl (OpenRequestFor ProfileChat key (compact <$> chat_env "hi"))). Qed.

(** The block of the envelope, as both ends read it. *)
Definition chat_meta : E2EE :=
  match Request_E2EE (chat_env "hi") with Ok e => e | Err _ => zeroE2EE end.
Lemma chat_meta_sent : Request_E2EE (chat_env "hi") = Ok chat_meta.
Proof. vm_cast_no_check (eq_refl (Request_E2EE (chat_env "hi"))). Qed.
Lemma chat_meta_received : Request_E2EE (compact <$> chat_env "hi") = Ok chat_meta.
Proof. vm_cast_no_check (eq_refl (Request_E2EE (compact <$> chat_env "hi"))). Qed.
Lemma chat_opens_plain : OpenRequest key (compact <$> chat_env "hi") = Ok (compact <$> chat "hi").
Proof. vm_cast_no_check (eq_refl (OpenRequest key (compact <$> chat_env "hi"))). Qed.
End EnvelopeWitness.

Section witnesses.
Import EnvelopeWitness.

Lemma request_roundtrip_witness :
  sealed_chat "hi" = Ok (chat_env "hi") /\
  (m ← map_err ENotObject (unmarshal unmarshal_map (marshal_map (chat_env "hi")));
   OpenRequestFor ProfileChat key (nil_map m)) = Ok (compact <$> chat "hi").
Proof.
  split; [exact sealed_chat_hi|].
  exact (request_roundtrip _ _ _ _ _ _ _ _ _ _ keypair_key chat_ok model_utf8 sealed_chat_hi).
Defined.

Lemma request_unbound_mutable_witness :
  OpenRequest key (<["model" := str "routed"]> (compact <$> chat_env "hi")) =
  Ok ((compact <$> sealed_part ["messages"] (chat "hi"))
        ∪ delete e2eeKey (<["model" := str "routed"]> (compact <$> chat_env "hi"))).
Proof.
  apply (request_unbound_mutable _ _ _ _ _ _ _ _ _ _
    (<["model" := str "routed"]> (compact <$> chat_env "hi"))
    keypair_key chat_ok model_utf8 sealed_chat_hi).
  intros k Hk. rewrite lookup_insert_ne by (intros <-; apply Hk; constructor). apply lookup_fmap.
Defined.

Lemma request_tamper_evident_witness :
  option_Forall2 jequiv ((compact <$> chat_env "hi") !! "stream") (chat_env "hi" !! "stream").
Proof.
  apply (request_tamper_evident _ _ _ _ _ _ _ _ _ _ _ _ _ _
    keypair_key chat_ok model_utf8 sealed_chat_hi chat_env_ok chat_meta_sent chat_meta_received
    eq_refl eq_refl chat_opens_plain);
    [discriminate|intros Hin; apply contains_spec in Hin; discriminate].
Defined.

Lemma request_confidential_witness :
  chat_env "hi" !! "messages" = None /\
  exists e ct1 ct2, chat_env "hi" = setE2EE (chat_env "secret") (with_ciphertext e ct1) /\
                    chat_env "secret" = setE2EE (chat_env "hi") (with_ciphertext e ct2).
Proof.
  destruct (request_confidential ProfileChat key (chat "hi") (chat "secret") ["messages"] signer eph
    ["model"] seed (chat_env "hi") (chat_env "secret")) as [Hf He].
  - intros k Hk. unfold chat.
    rewrite !(lookup_insert_ne _ "messages" k) by (intros <-; apply Hk; constructor). reflexivity.
  - exact sealed_chat_hi.
  - exact sealed_chat_secret.
  - split; [apply Hf; left; constructor|exact He].
Defined.

Lemma OpenRequestFor_sound_witness :
  exists s e (obj : Request), profiles !! ProfileChat = Some s /\
    Request_E2EE (compact <$> chat_env "hi") = Ok e /\ dom obj = toSet (e_SealedFields e).
Proof.
  destruct (OpenRequestFor_sound _ _ _ _ chat_opens) as (s & e & obj & H1 & H2 & H3 & _).
  exact (ex_intro _ s (ex_intro _ e (ex_intro _ obj (conj H1 (conj H2 H3))))).
Defined.
End witnesses.
