(* ===== verification/Response.v ===== *)
(** * Response: sealing and opening response frames ([protocol/wire/response.go])

    A response is a sequence of frames under one HPKE context: the first carries the
    encapsulated key, every frame seals the fields its profile (or, for typed frames,
    its shape) says, and the last one must carry the quantities billing reads. This
    file has the frame checks both ends share, [ResponseSealer] and [ResponseOpener]
    with their state, and the one-frame helpers.

    The theorems: a stream opens frame by frame to what was sealed; a frame out of its
    place in the sequence is refused; what an accepted frame guarantees; what the
    quantity check accepts. *)

From S2P Require Import Prelude GoBytes GoJson GoDecode GoJsonEq Profile Hpke Envelope.

Definition RespInfo : string := "0g-pc/v1/resp".
Definition RespBindInfo : string := "0g-pc/v1/resp-bind".
Definition RespBindPSKID : string := "0g-pc/v1/resp-bind".
Definition respBindLen : nat := 32.

Abbreviation Response := (gmap string json).

(** ** The block of a frame *)

Record ResponseE2EE := MkResponseE2EE {
  r_V : Z;
  r_Enc : string;
  r_SealedFields : list string;
  r_UnboundFields : list string;
  r_Final : bool;
  r_Ciphertext : string
}.

Definition zeroResponseE2EE : ResponseE2EE := MkResponseE2EE 0 "" [] [] false "".

Definition ResponseE2EE_fields : list (string * (ResponseE2EE -> json -> result jerr ResponseE2EE)) :=
  [("v", fun '(MkResponseE2EE v e sf uf fi ct) j => x ← set_int v j; Ok (MkResponseE2EE x e sf uf fi ct));
   ("enc", fun '(MkResponseE2EE v e sf uf fi ct) j => x ← set_string e j; Ok (MkResponseE2EE v x sf uf fi ct));
   ("sealed_fields", fun '(MkResponseE2EE v e sf uf fi ct) j => x ← set_strings sf j; Ok (MkResponseE2EE v e x uf fi ct));
   ("unbound_fields", fun '(MkResponseE2EE v e sf uf fi ct) j => x ← set_strings uf j; Ok (MkResponseE2EE v e sf x fi ct));
   ("final", fun '(MkResponseE2EE v e sf uf fi ct) j => x ← set_bool fi j; Ok (MkResponseE2EE v e sf uf x ct));
   ("ciphertext", fun '(MkResponseE2EE v e sf uf fi ct) j => x ← set_string ct j; Ok (MkResponseE2EE v e sf uf fi x))].

(** The members in front of the ciphertext; [v], [enc] and [unbound_fields] are
    omitted when empty. *)
Definition response_members (e : ResponseE2EE) : list (bytes * json) :=
  (if r_V e =? 0 then [] else [(jkey "v", json_of_int (r_V e))])
  ++ (if String.eqb (r_Enc e) "" then [] else [(jkey "enc", jstr (r_Enc e))])
  ++ [(jkey "sealed_fields", json_of_strings (r_SealedFields e))]
  ++ (match r_UnboundFields e with
      | [] => []
      | l => [(jkey "unbound_fields", json_of_strings l)]
      end)
  ++ [(jkey "final", JBool (r_Final e))].

Definition json_of_ResponseE2EE (e : ResponseE2EE) : json :=
  JObj (response_members e ++ [(jkey "ciphertext", jstr (r_Ciphertext e))]).

(** [Response.E2EE] and [setResponseE2EE]. *)
Definition Response_E2EE (r : Response) : wresult ResponseE2EE :=
  match r !! e2eeKey with
  | None => Err EMissingE2EE
  | Some raw => map_err EDecodeE2EE (unmarshal_struct ResponseE2EE_fields zeroResponseE2EE raw)
  end.

Definition setResponseE2EE (r : Response) (e : ResponseE2EE) : Response :=
  <[e2eeKey := json_of_ResponseE2EE e]> r.

(** ** What a frame seals *)

Definition alwaysSealedResponseFields (s : profileSpec) : list string :=
  map pf_name (List.filter (fun f => negb (pf_optional f)) (ps_responsePayload s)).

Definition hasOptionalResponsePayload (s : profileSpec) : bool :=
  existsb pf_optional (ps_responsePayload s).

Definition DefaultResponseSealedFieldsFor (p : Profile) : list string :=
  match spec p with
  | Err _ => []
  | Ok s =>
      match ps_responseFrames s with
      | Some _ => []
      | None => if hasOptionalResponsePayload s then [] else alwaysSealedResponseFields s
      end
  end.

Definition responseFieldsFor (s : profileSpec) (frame : Response) : list string :=
  map pf_name (List.filter (fun f => negb (pf_optional f && negb (has_key frame (pf_name f))))
                 (ps_responsePayload s)).

(** [responseFrameRule.contentFields]: the loop visits a map; the result is sorted. *)
Definition add_content (out : list string) (f : string) : list string :=
  if negb (String.eqb f "") && negb (contains out f) then out ++ [f] else out.

Definition str_le (a b : string) : Prop := String.leb a b = true.
#[export] Instance str_le_dec : RelDecision str_le.
Proof. intros a b. unfold str_le. apply _. Defined.

Definition contentFields (r : responseFrameRule) : list string :=
  merge_sort str_le
    (fold_left (fun out s => fold_left add_content (fs_content s :: fs_sealIfPresent s) out)
       (map snd (map_to_list (rule_shapes r))) []).

(** [frameShape.sealedFieldsFor]. *)
Definition sealedFieldsFor (s : frameShape) (frame : Response) : list string :=
  (if String.eqb (fs_content s) "" then [] else [fs_content s])
  ++ List.filter (fun f => has_key frame f) (fs_sealIfPresent s).

(** [responseFrameRule.shapeOf]. *)
Definition shapeOf (r : responseFrameRule) (frame : Response) : wresult (string * frameShape) :=
  raw ← of_option (frame !! rule_discriminator r) ERespFrameNoKind;
  kind ← map_err ERespFrameKindType (unmarshal_string raw);
  shape ← of_option (rule_shapes r !! kind) (ERespUnknownKind kind);
  Ok (kind, shape).

Definition ResponseSealedFieldsForFrame (p : Profile) (frame : Response) : wresult (list string) :=
  s ← spec p;
  match ps_responseFrames s with
  | None => Ok (responseFieldsFor s frame)
  | Some rule =>
      '(_, shape) ← shapeOf rule frame;
      Ok (sealedFieldsFor shape frame)
  end.

Definition IsTerminalResponseFrame (p : Profile) (frame : Response) : wresult bool :=
  s ← spec p;
  match ps_responseFrames s with
  | None => Ok false
  | Some rule =>
      '(_, shape) ← shapeOf rule frame;
      Ok (fs_terminal shape)
  end.

Definition ResponseFramesAreTyped (p : Profile) : bool :=
  match spec p with
  | Err _ => false
  | Ok s => match ps_responseFrames s with Some _ => true | None => false end
  end.

Definition has_line_break (s : string) : bool :=
  existsb (fun c => (bval c =? 13) || (bval c =? 10)) (bytes_of s).

Definition ResponseEventName (p : Profile) (frame : Response) : wresult string :=
  s ← spec p;
  match ps_responseFrames s with
  | None => Ok ""
  | Some rule =>
      '(kind, _) ← shapeOf rule frame;
      _ ← refuse (has_line_break kind) (ERespKindLineBreak kind);
      Ok kind
  end.

(** ** What must stay readable, and bound *)

Definition mustStayCleartextInResponse : list string := ["usage"; "model"].
Definition mustStayBoundInResponse : list string := ["usage"].

Definition validateResponseUnboundFields (unbound : list string) : wresult unit :=
  each (fun f => refuse (contains mustStayBoundInResponse f) (EMustStayBound f)) unbound.

Definition refuse_unbound (unbound : list string) (f : string) : wresult unit :=
  refuse (contains unbound f) (EMustStayBound f).

Definition validateResponseUnboundFieldsFor (p : Profile) (unbound : list string) : wresult unit :=
  _ ← validateResponseUnboundFields unbound;
  s ← spec p;
  _ ← match ps_responseFrames s with
      | Some rule => refuse_unbound unbound (rule_discriminator rule)
      | None => Ok tt
      end;
  _ ← each (fun pc => refuse_unbound unbound (pc_field pc)) (ps_protected s);
  _ ← each (refuse_unbound unbound) (ps_bound s);
  each (fun q => each (fun loc => refuse_unbound unbound (cn_field loc)) (cq_locators q))
    (ps_required s).

Definition refuse_sealed (fields : list string) (f : string) : wresult unit :=
  refuse (contains fields f) (EMustStayCleartext f).

(** The arrays of a protected object that must be empty. *)
Definition checkEmptyArray (field : string) (obj : gmap string json) (key : string) : wresult unit :=
  match obj !! key with
  | None => Ok tt
  | Some (JArr l) => refuse (Nat.ltb 0 (length l)) (EProtectedNotEmpty field key (length l))
  | Some JNull => Ok tt
  | Some _ => Err (EProtectedNotArray field key)
  end.

Definition validateProtectedCleartextFor (s : profileSpec) (frame : Response) (fields : list string)
    : wresult unit :=
  each (fun pc =>
    _ ← refuse_sealed fields (pc_field pc);
    match frame !! pc_field pc with
    | None => Ok tt
    | Some raw =>
        obj ← map_err (fun _ => EProtectedNotObject (pc_field pc)) (unmarshal_map raw);
        each (checkEmptyArray (pc_field pc) (nil_map obj)) (pc_emptyArrays pc)
    end) (ps_protected s).

Fixpoint checkResponseNames (fields : list string) (seen : gset string) : wresult unit :=
  match fields with
  | [] => Ok tt
  | f :: fields =>
      _ ← refuse (String.eqb f "") EEmptySealedField;
      _ ← refuse (String.eqb f e2eeKey) EReservedSealed;
      _ ← refuse (contains mustStayCleartextInResponse f) (EMustStayCleartext f);
      _ ← refuse (in_set f seen) (EDupSealed f);
      checkResponseNames fields ({[f]} ∪ seen)
  end.

Definition validateResponseSealedFieldNames (fields : list string) : wresult unit :=
  checkResponseNames fields ∅.

Definition validateResponseSealedFields (fields : list string) : wresult unit :=
  _ ← refuse (bool_decide (fields = [])) ENoSealedFields;
  validateResponseSealedFieldNames fields.

Definition validateResponseSealedFieldsFor (p : Profile) (fields : list string) : wresult unit :=
  s ← spec p;
  match ps_responseFrames s with
  | Some _ => Err ERespTyped
  | None =>
      _ ← validateResponseSealedFields fields;
      each (fun f => refuse (negb (pf_optional f) && negb (contains fields (pf_name f)))
                       (ERespMissingSealed (pf_name f))) (ps_responsePayload s)
  end.

Definition validateQuantityLocatorsNotSealed (s : profileSpec) (fields : list string) : wresult unit :=
  each (fun q => each (fun loc =>
      if contains mustStayCleartextInResponse (cn_field loc) then Ok tt
      else refuse_sealed fields (cn_field loc)) (cq_locators q)) (ps_required s).

Definition validateResponseSealedIfPresent (s : profileSpec) (frame : Response) (fields : list string)
    : wresult unit :=
  let sealed := toSet fields in
  each (fun f => refuse (pf_optional f && has_key frame (pf_name f) && negb (in_set (pf_name f) sealed))
                   (ERespCleartextContent (pf_name f))) (ps_responsePayload s).

Definition validateNoCleartextContent (rule : responseFrameRule) (frame : Response)
    (fields : list string) : wresult unit :=
  let sealed := toSet fields in
  each (fun f => refuse (has_key frame f && negb (in_set f sealed)) (ERespCleartextContent f))
    (contentFields rule).

(** The half of [validateResponseSealedFieldsForFrame] that depends on whether the
    profile's frames are typed. *)
Definition validateFrameShape (p : Profile) (s : profileSpec) (frame : Response)
    (fields : list string) : wresult unit :=
  match ps_responseFrames s with
  | None =>
      _ ← validateResponseSealedFieldsFor p fields;
      validateResponseSealedIfPresent s frame fields
  | Some rule =>
      _ ← refuse_sealed fields (rule_discriminator rule);
      _ ← validateResponseSealedFieldNames fields;
      '(kind, shape) ← shapeOf rule frame;
      let required := sealedFieldsFor shape frame in
      _ ← refuse (Nat.eqb (length required) 0 && negb (Nat.eqb (length fields) 0))
            (ERespSealsNothing kind);
      _ ← each (fun f => refuse (negb (contains fields f)) (ERespMustSeal kind f)) required;
      validateNoCleartextContent rule frame fields
  end.

Definition validateResponseSealedFieldsForFrame (p : Profile) (frame : Response)
    (fields : list string) : wresult unit :=
  s ← spec p;
  _ ← validateProtectedCleartextFor s frame fields;
  _ ← validateQuantityLocatorsNotSealed s fields;
  _ ← each (refuse_sealed fields) (ps_bound s);
  validateFrameShape p s frame fields.

(** ** The quantities billing reads *)

Definition parseCleartextNumber (k : numberKind) (raw : json) : wresult f64 :=
  match k with
  | numberWhole =>
      n ← map_err (fun _ => ENumberType) (unmarshal_int64_ptr raw);
      n ← of_option n ENumberNull;
      _ ← refuse (n <? 0) ENumberNegative;
      Ok (f64_of_int n)
  | numberFractional =>
      n ← map_err (fun _ => ENumberType) (unmarshal_f64_ptr raw);
      n ← of_option n ENumberNull;
      _ ← refuse (f64_neg n) ENumberNegative;
      Ok n
  end.

(** What a locator points at in a frame, if it is there. *)
Definition locate (frame : Response) (loc : cleartextNumber) : wresult (option json) :=
  match frame !! cn_field loc with
  | None => Ok None
  | Some raw =>
      if String.eqb (cn_key loc) "" then Ok (Some raw)
      else
        obj ← map_err (fun _ => EQuantityNotObject (cn_field loc)) (unmarshal_map raw);
        obj ← of_option obj (EQuantityNull (cn_field loc));
        Ok (obj !! cn_key loc)
  end.

Fixpoint readLocators (frame : Response) (k : numberKind) (locs : list cleartextNumber)
    (found : list f64) : wresult (list f64) :=
  match locs with
  | [] => Ok found
  | loc :: locs =>
      v ← locate frame loc;
      match v with
      | None => readLocators frame k locs found
      | Some v => n ← parseCleartextNumber k v; readLocators frame k locs (found ++ [n])
      end
  end.

Definition validateCleartextQuantity (q : cleartextQuantity) (frame : Response) : wresult unit :=
  found ← readLocators frame (cq_kind q) (cq_locators q) [];
  match found with
  | [] => Err EQuantityAbsent
  | x :: rest => each (fun y => refuse (negb (f64_eqb y x)) EQuantityDisagree) rest
  end.

Definition validateResponseCleartextFor (p : Profile) (frame : Response) : wresult unit :=
  s ← spec p;
  each (fun q => validateCleartextQuantity q frame) (ps_required s).

(** ** The sealer and the opener *)

Section frames.
Context `{Jcs} `{HpkeLib}.

Record ResponseSealer := MkResponseSealer {
  rs_sealer : snd_ctx;
  rs_enc : string;
  rs_first : bool;
  rs_unbound : list string;
  rs_profile : Profile;
  rs_nonConforming : bool
}.

Record ResponseOpener := MkResponseOpener { ro_opener : rcv_ctx; ro_profile : Profile }.

(** [newResponseSealer]; [psk] is [None] for the nil slice. *)
Definition newResponseSealer (profile : Profile) (clientEphPub : PublicKey) (psk : option bytes)
    (unboundFields : list string) (rnd : bytes) : wresult ResponseSealer :=
  s ← spec profile;
  _ ← refuse (match psk with None => requiresBind s | Some _ => false end) EBoundRequired;
  _ ← validateResponseUnboundFieldsFor profile unboundFields;
  '(enc, sealer) ←
    match psk with
    | Some psk => SetupSenderPSK clientEphPub (bytes_of RespInfo) psk (bytes_of RespBindPSKID) rnd
    | None => SetupSender clientEphPub (bytes_of RespInfo) rnd
    end;
  Ok (MkResponseSealer sealer (b64 enc) true unboundFields profile false).

Definition NewResponseSealerFor (profile : Profile) (clientEphPub : PublicKey)
    (unboundFields : list string) (rnd : bytes) : wresult ResponseSealer :=
  newResponseSealer profile clientEphPub None unboundFields rnd.

Definition NewResponseSealer (clientEphPub : PublicKey) (unboundFields : list string) (rnd : bytes)
    : wresult ResponseSealer :=
  NewResponseSealerFor ProfileChat clientEphPub unboundFields rnd.

(** [ResponseSealer.validateSealedFields]. *)
Definition validateSealedFields (rs : ResponseSealer) (frame : Response) (fields : list string)
    : wresult unit :=
  if rs_nonConforming rs then validateResponseSealedFields fields
  else validateResponseSealedFieldsForFrame (rs_profile rs) frame fields.

(** The loop that collects the fields to seal: as on the request side. *)
Definition frame_meta (rs : ResponseSealer) (sealed : list string) (final : bool) : ResponseE2EE :=
  MkResponseE2EE (if rs_first rs then Version else 0) (if rs_first rs then rs_enc rs else "")
    sealed (rs_unbound rs) final "".

Definition resp_with_ciphertext (e : ResponseE2EE) (ct : string) : ResponseE2EE :=
  let '(MkResponseE2EE v en sf uf fi _) := e in MkResponseE2EE v en sf uf fi ct.

(** [SealFrame]: the frame, and the sealer after it. A call that fails leaves the
    sealer as it was. *)
Definition SealFrame (rs : ResponseSealer) (frame : Response) (sealedFields : option (list string))
    (final : bool) : wresult (Response * ResponseSealer) :=
  sealed ← match sealedFields with
           | None => ResponseSealedFieldsForFrame (rs_profile rs) frame
           | Some l => Ok l
           end;
  _ ← validateSealedFields rs frame sealed;
  _ ← ValidateUnboundFields (rs_unbound rs) sealed;
  _ ← (if final && negb (rs_nonConforming rs)
       then validateResponseCleartextFor (rs_profile rs) frame else Ok tt);
  sealedObj ← collectSealed frame sealed ∅;
  let pt := marshal_map sealedObj in
  _ ← refuse (has_key frame e2eeKey) EHasE2EE;
  let out := cleartext_of sealed frame in
  let e2ee := frame_meta rs sealed final in
  let out := setResponseE2EE out e2ee in
  aad ← aadFromEnvelope out;
  '(ct, sealer') ← Sealer_Seal (rs_sealer rs) pt aad;
  Ok (setResponseE2EE out (resp_with_ciphertext e2ee (b64 ct)),
      MkResponseSealer sealer' (rs_enc rs) false (rs_unbound rs) (rs_profile rs) (rs_nonConforming rs)).

Definition newResponseOpener (profile : Profile) (clientEphPriv : PrivateKey) (firstFrame : Response)
    (psk : option bytes) : wresult ResponseOpener :=
  s ← spec profile;
  _ ← refuse (match psk with None => requiresBind s | Some _ => false end) EBoundRequired;
  e2ee ← Response_E2EE firstFrame;
  _ ← refuse (negb (r_V e2ee =? Version)) (EVersion (r_V e2ee));
  _ ← refuse (String.eqb (r_Enc e2ee) "") EMissingEnc;
  enc ← of_option (unb64 (r_Enc e2ee)) EBadEnc;
  o ← match psk with
      | Some psk => SetupReceiverPSK clientEphPriv enc (bytes_of RespInfo) psk (bytes_of RespBindPSKID)
      | None => SetupReceiver clientEphPriv enc (bytes_of RespInfo)
      end;
  Ok (MkResponseOpener o profile).

Definition NewResponseOpenerFor (profile : Profile) (clientEphPriv : PrivateKey)
    (firstFrame : Response) : wresult ResponseOpener :=
  newResponseOpener profile clientEphPriv firstFrame None.

Definition NewResponseOpener (clientEphPriv : PrivateKey) (firstFrame : Response)
    : wresult ResponseOpener :=
  NewResponseOpenerFor ProfileChat clientEphPriv firstFrame.

(** [OpenFrame] up to the AEAD: the block, the ciphertext and the additional data. *)
Definition checkFrame (p : Profile) (frame : Response) : wresult (ResponseE2EE * bytes * bytes) :=
  e2ee ← Response_E2EE frame;
  _ ← validateResponseUnboundFieldsFor p (r_UnboundFields e2ee);
  _ ← validateResponseSealedFieldsForFrame p frame (r_SealedFields e2ee);
  _ ← (if r_Final e2ee then validateResponseCleartextFor p frame else Ok tt);
  ct ← of_option (unb64 (r_Ciphertext e2ee)) EBadCiphertext;
  aad ← aadFromEnvelope frame;
  Ok (e2ee, ct, aad).

(** [OpenFrame] after it: the decrypted object beside the cleartext fields. *)
Definition restoreFrame (e2ee : ResponseE2EE) (frame : Response) (pt : bytes) : wresult Response :=
  sealedObj ← map_err ENotObject (unmarshal unmarshal_map pt);
  let sealedObj := nil_map sealedObj in
  _ ← refuse (negb (sameKeys sealedObj (r_SealedFields e2ee))) EFieldsMismatch;
  mergeSealed (map_to_list sealedObj) (delete e2eeKey frame).

(** [OpenFrame], with the opener after it: the context has moved on once the AEAD
    accepted, even when the call then fails. *)
Definition OpenFrame (ro : ResponseOpener) (frame : Response) : wresult Response * ResponseOpener :=
  match checkFrame (ro_profile ro) frame with
  | Err e => (Err e, ro)
  | Ok (e2ee, ct, aad) =>
      match Opener_Open (ro_opener ro) ct aad with
      | Err e => (Err e, ro)
      | Ok (pt, o') => (restoreFrame e2ee frame pt, MkResponseOpener o' (ro_profile ro))
      end
  end.

Definition SealResponseFor (profile : Profile) (clientEphPub : PublicKey) (resp : Response)
    (sealedFields : option (list string)) (unboundFields : list string) (rnd : bytes)
    : wresult Response :=
  rs ← NewResponseSealerFor profile clientEphPub unboundFields rnd;
  '(out, _) ← SealFrame rs resp sealedFields true;
  Ok out.

Definition SealResponse (clientEphPub : PublicKey) (resp : Response)
    (sealedFields : option (list string)) (unboundFields : list string) (rnd : bytes)
    : wresult Response :=
  SealResponseFor ProfileChat clientEphPub resp sealedFields unboundFields rnd.

Definition OpenResponseFor (profile : Profile) (clientEphPriv : PrivateKey) (resp : Response)
    : wresult Response :=
  e2ee ← Response_E2EE resp;
  _ ← refuse (negb (r_Final e2ee)) ENotFinal;
  ro ← NewResponseOpenerFor profile clientEphPriv resp;
  (OpenFrame ro resp).1.

Definition OpenResponse (clientEphPriv : PrivateKey) (resp : Response) : wresult Response :=
  OpenResponseFor ProfileChat clientEphPriv resp.
End frames.

(** [Response.Debug]. *)
Record FrameDebug := MkFrameDebug {
  d_Version : Z;
  d_HasEnc : bool;
  d_Final : bool;
  d_SealedFields : list string;
  d_UnboundFields : list string;
  d_CleartextKeys : list string;
  d_CiphertextLen : Z;
  d_E2EEErr : option werr
}.

Definition Debug (r : Response) : FrameDebug :=
  let keys := (entries (delete e2eeKey r)).*1 in
  match Response_E2EE r with
  | Err e => MkFrameDebug 0 false false [] [] keys (-1) (Some e)
  | Ok e =>
      MkFrameDebug (r_V e) (negb (String.eqb (r_Enc e) "")) (r_Final e) (r_SealedFields e)
        (r_UnboundFields e) keys
        match unb64 (r_Ciphertext e) with Some ct => Z.of_nat (length ct) | None => -1 end None
  end.

(** ** What the frame checks accept *)

(** The fields a response may not leave unbound under a profile. *)
Definition bound_names (s : profileSpec) : list string :=
  mustStayBoundInResponse
  ++ match ps_responseFrames s with Some r => [rule_discriminator r] | None => [] end
  ++ map pc_field (ps_protected s) ++ ps_bound s
  ++ mbind (fun q => map cn_field (cq_locators q)) (ps_required s).

Lemma refuse_unbound_ok u f : refuse_unbound u f = Ok tt <-> f ∉ u.
Proof. unfold refuse_unbound. by rewrite refuse_ok, contains_false. Qed.

Lemma refuse_sealed_ok l f : refuse_sealed l f = Ok tt <-> f ∉ l.
Proof. unfold refuse_sealed. by rewrite refuse_ok, contains_false. Qed.

Lemma bind_tt {E A} (r : result E unit) (k : result E A) a :
  (_ ← r; k) = Ok a <-> r = Ok tt /\ k = Ok a.
Proof. rewrite bind_ok. split; [by intros ([] & ? & ?)|]. intros [? ?]. by exists tt. Qed.

Lemma bind_spec {A} p (f : profileSpec -> wresult A) a :
  (s ← spec p; f s) = Ok a <-> exists s, profiles !! p = Some s /\ f s = Ok a.
Proof. rewrite bind_ok. by setoid_rewrite spec_ok. Qed.

Lemma each_iff {E A} (f : A -> result E unit) (P : A -> Prop) l :
  (forall x, f x = Ok tt <-> P x) -> each f l = Ok tt <-> Forall P l.
Proof. intros Hf. rewrite each_ok. by apply Forall_iff. Qed.

Lemma validateResponseUnboundFieldsFor_ok p u :
  validateResponseUnboundFieldsFor p u = Ok tt <->
  exists s, profiles !! p = Some s /\ forall f, f ∈ bound_names s -> f ∉ u.
Proof.
  unfold validateResponseUnboundFieldsFor, validateResponseUnboundFields.
  rewrite bind_tt, bind_spec.
  assert (each (fun f => refuse (contains mustStayBoundInResponse f) (EMustStayBound f)) u = Ok tt <->
    Forall (fun f => f ∉ u) mustStayBoundInResponse) as ->.
  { rewrite (each_iff _ (fun f => f ∉ mustStayBoundInResponse))
      by (intros; by rewrite refuse_ok, contains_false).
    rewrite !Forall_forall. split; intros Hf x H1 H2; by apply (Hf x). }
  assert (forall s, (forall f, f ∈ bound_names s -> f ∉ u) <-> Forall (fun f => f ∉ u) (bound_names s))
    as Hb by (intros; by rewrite Forall_forall).
  setoid_rewrite Hb. unfold bound_names. split.
  - intros (Hu & s & Hs & Hc). exists s. split; [done|]. rewrite !bind_tt in Hc.
    destruct Hc as (Hd & Hp & Hbd & Hq). rewrite !Forall_app, Forall_map. split_and!; [done| | | |].
    + destruct (ps_responseFrames s); [|constructor]. apply refuse_unbound_ok in Hd. by constructor.
    + eapply each_iff; [|exact Hp]. intros pc. apply refuse_unbound_ok.
    + eapply each_iff; [|exact Hbd]. apply refuse_unbound_ok.
    + apply Forall_bind. eapply each_iff; [|exact Hq]. intros q. unfold compose. rewrite Forall_map.
      apply each_iff. intros loc. apply refuse_unbound_ok.
  - intros (s & Hs & Hc). rewrite !Forall_app, Forall_map in Hc. destruct Hc as (Hu & Hd & Hp & Hbd & Hq).
    split; [done|]. exists s. split; [done|]. rewrite !bind_tt. split_and!.
    + destruct (ps_responseFrames s); [|done]. inversion_clear Hd. by apply refuse_unbound_ok.
    + eapply each_iff; [|exact Hp]. intros pc. apply refuse_unbound_ok.
    + eapply each_iff; [|exact Hbd]. apply refuse_unbound_ok.
    + rewrite Forall_bind in Hq. eapply each_iff; [|exact Hq]. intros q. unfold compose. rewrite Forall_map.
      apply each_iff. intros loc. apply refuse_unbound_ok.
Qed.

(** A sealed set whose names are acceptable. *)
Definition names_ok (fields : list string) : Prop :=
  NoDup fields /\ ("" ∉ fields) /\ (e2eeKey ∉ fields) /\
  forall f, f ∈ fields -> f ∉ mustStayCleartextInResponse.

Lemma checkResponseNames_ok fields seen :
  checkResponseNames fields seen = Ok tt <->
  names_ok fields /\ (forall f, f ∈ fields -> f ∉ seen).
Proof.
  unfold names_ok. revert seen. induction fields as [|f l IH]; intros seen; cbn [checkResponseNames].
  - split; [|done]. intros _. split_and!; [by apply NoDup_nil|set_solver..].
  - rewrite !bind_tt, !refuse_ok, IH, contains_false, in_set_false, !String.eqb_neq, NoDup_cons.
    setoid_rewrite elem_of_cons. set_solver.
Qed.

Lemma validateResponseSealedFieldNames_ok fields :
  validateResponseSealedFieldNames fields = Ok tt <-> names_ok fields.
Proof. unfold validateResponseSealedFieldNames. rewrite checkResponseNames_ok. set_solver. Qed.

(** A protected field is an object whose listed arrays are empty. *)
Definition protected_empty (frame : Response) (pc : protectedCleartext) : Prop :=
  forall raw, frame !! pc_field pc = Some raw ->
  exists obj, unmarshal_map raw = Ok obj /\
    Forall (fun key => forall v, nil_map obj !! key = Some v -> v = JArr [] \/ v = JNull) (pc_emptyArrays pc).

Lemma checkEmptyArray_ok field obj key :
  checkEmptyArray field obj key = Ok tt <-> forall v, obj !! key = Some v -> v = JArr [] \/ v = JNull.
Proof.
  unfold checkEmptyArray. destruct (obj !! key) as [v|]; split.
  - intros Hv ? [= <-]. destruct v as [| | | |[|? ?]|]; auto; discriminate.
  - intros Hv. by destruct (Hv v eq_refl) as [-> | ->].
  - by intros _ ?.
  - done.
Qed.

Lemma validateProtectedCleartextFor_ok s frame fields :
  validateProtectedCleartextFor s frame fields = Ok tt <->
  Forall (fun pc => (pc_field pc ∉ fields) /\ protected_empty frame pc) (ps_protected s).
Proof.
  unfold validateProtectedCleartextFor. apply each_iff. intros pc.
  rewrite bind_tt, refuse_sealed_ok. apply and_iff_compat_l. unfold protected_empty.
  destruct (frame !! pc_field pc) as [raw|]; [|by split].
  rewrite bind_ok. setoid_rewrite map_err_ok. split.
  - intros (obj & Hobj & He) raw' [= <-]. exists obj. split; [done|].
    eapply each_iff; [|exact He]. intros. apply checkEmptyArray_ok.
  - intros Hr. destruct (Hr raw eq_refl) as (obj & Hobj & He). exists obj. split; [done|].
    eapply each_iff; [|exact He]. intros. apply checkEmptyArray_ok.
Qed.

(** What a frame must seal: by profile, or by its shape. *)
Definition shape_ok (s : profileSpec) (frame : Response) (fields : list string) : Prop :=
  match ps_responseFrames s with
  | None =>
      fields <> [] /\
      forall pf, pf ∈ ps_responsePayload s ->
        (pf_optional pf = true -> is_Some (frame !! pf_name pf)) -> pf_name pf ∈ fields
  | Some rule =>
      (rule_discriminator rule ∉ fields) /\
      exists kind shape, shapeOf rule frame = Ok (kind, shape) /\
        (sealedFieldsFor shape frame = [] -> fields = []) /\
        (forall f, f ∈ sealedFieldsFor shape frame -> f ∈ fields) /\
        (forall f, f ∈ contentFields rule -> is_Some (frame !! f) -> f ∈ fields)
  end.

(** A sealed set that fits the frame it seals. *)
Record frame_ok (s : profileSpec) (frame : Response) (fields : list string) : Prop := FrameOk {
  fo_protected : Forall (fun pc => (pc_field pc ∉ fields) /\ protected_empty frame pc) (ps_protected s);
  fo_quantities : forall q loc, q ∈ ps_required s -> loc ∈ cq_locators q -> cn_field loc ∉ fields;
  fo_bound : forall f, f ∈ ps_bound s -> f ∉ fields;
  fo_names : names_ok fields;
  fo_shape : shape_ok s frame fields
}.

Lemma validateQuantityLocatorsNotSealed_ok s fields :
  validateQuantityLocatorsNotSealed s fields = Ok tt <->
  forall q loc, q ∈ ps_required s -> loc ∈ cq_locators q ->
    (cn_field loc ∈ mustStayCleartextInResponse) \/ (cn_field loc ∉ fields).
Proof.
  unfold validateQuantityLocatorsNotSealed.
  rewrite (each_iff _ (fun q => Forall (fun loc => (cn_field loc ∈ mustStayCleartextInResponse) \/
    (cn_field loc ∉ fields)) (cq_locators q))).
  - rewrite Forall_forall. setoid_rewrite Forall_forall. naive_solver.
  - intros q. apply each_iff. intros loc.
    destruct (contains _ _) eqn:E; bool_hyps; [naive_solver|]. rewrite refuse_sealed_ok. naive_solver.
Qed.

Lemma payload_ok s (frame : Response) fields :
  (forall pf, pf ∈ ps_responsePayload s -> negb (pf_optional pf) && negb (contains fields (pf_name pf)) = false) /\
  (forall pf, pf ∈ ps_responsePayload s ->
     pf_optional pf && has_key frame (pf_name pf) && negb (in_set (pf_name pf) (toSet fields)) = false) <->
  forall pf, pf ∈ ps_responsePayload s ->
    (pf_optional pf = true -> is_Some (frame !! pf_name pf)) -> pf_name pf ∈ fields.
Proof.
  assert (forall f, in_set f (toSet fields) = contains fields f) as Hset.
  { intros f. apply eq_true_iff_eq. by rewrite in_set_true, elem_of_toSet, contains_spec. }
  setoid_rewrite Hset. split.
  - intros [H1 H2] pf Hpf Ho. specialize (H1 pf Hpf). specialize (H2 pf Hpf). apply contains_spec.
    destruct (contains _ _); [done|]. destruct (pf_optional pf); [|done].
    by rewrite (proj2 (has_key_true _ _)) in H2 by auto.
  - intros Hp. split; intros pf Hpf; specialize (Hp pf Hpf); rewrite <-contains_spec in Hp;
      destruct (pf_optional pf); cbn; try done.
    + by rewrite Hp.
    + destruct (has_key frame (pf_name pf)) eqn:E; [|done]. bool_hyps. by rewrite Hp.
Qed.

Lemma validateNoCleartextContent_ok rule (frame : Response) fields :
  validateNoCleartextContent rule frame fields = Ok tt <->
  forall f, f ∈ contentFields rule -> is_Some (frame !! f) -> f ∈ fields.
Proof.
  unfold validateNoCleartextContent.
  rewrite (each_iff _ (fun f : string => is_Some (frame !! f) -> f ∈ fields)), Forall_forall; [done|].
  intros f. apply refuse_present_ok.
Qed.

Lemma fields_empty_ok (required fields : list string) k :
  refuse (Nat.eqb (length required) 0 && negb (Nat.eqb (length fields) 0)) (ERespSealsNothing k) = Ok tt <->
  (required = [] -> fields = []).
Proof. rewrite refuse_ok. destruct required, fields; cbn; naive_solver. Qed.

Lemma validateFrameShape_ok p s frame fields :
  profiles !! p = Some s ->
  validateFrameShape p s frame fields = Ok tt <-> names_ok fields /\ shape_ok s frame fields.
Proof.
  intros Hs. unfold validateFrameShape, shape_ok.
  destruct (ps_responseFrames s) as [rule|] eqn:Er.
  - rewrite !bind_tt, refuse_sealed_ok, validateResponseSealedFieldNames_ok, bind_ok. split.
    + intros (Hd & Hn & (kind & shape) & Hsh & Hr). rewrite !bind_tt in Hr.
      destruct Hr as (He & Hm & Hc). split; [done|]. split; [done|]. exists kind, shape.
      split_and!; [done|exact (proj1 (fields_empty_ok _ _ _) He)| |by apply validateNoCleartextContent_ok].
      rewrite (each_iff _ (fun f => f ∈ fields)), Forall_forall in Hm
        by (intros; by rewrite refuse_ok, negb_false_iff, contains_spec). done.
    + intros (Hn & Hd & kind & shape & Hsh & He & Hm & Hc). split_and!; [done|done|].
      exists (kind, shape). split; [done|]. rewrite !bind_tt. split_and!.
      * by apply fields_empty_ok.
      * rewrite (each_iff _ (fun f => f ∈ fields)), Forall_forall
          by (intros; by rewrite refuse_ok, negb_false_iff, contains_spec). done.
      * by apply validateNoCleartextContent_ok.
  - unfold validateResponseSealedFieldsFor, validateResponseSealedIfPresent, validateResponseSealedFields.
    rewrite (proj2 (spec_ok _ _) Hs). cbn [mbind result_bind]. rewrite Er, !bind_tt.
    rewrite validateResponseSealedFieldNames_ok, !each_refuse_ok, refuse_ok, bool_decide_eq_false.
    rewrite <-payload_ok. tauto.
Qed.

Lemma validateResponseSealedFieldsForFrame_ok p frame fields :
  validateResponseSealedFieldsForFrame p frame fields = Ok tt <->
  exists s, profiles !! p = Some s /\ frame_ok s frame fields.
Proof.
  unfold validateResponseSealedFieldsForFrame. rewrite bind_spec. split.
  - intros (s & Hs & Hc). exists s. split; [done|]. rewrite !bind_tt in Hc.
    destruct Hc as (Hp & Hq & Hb & Hsh). apply (validateFrameShape_ok _ _ _ _ Hs) in Hsh as [Hn Hsh].
    split; [by apply validateProtectedCleartextFor_ok| | |done|done].
    + intros q loc Hq' Hloc Hf. rewrite validateQuantityLocatorsNotSealed_ok in Hq.
      destruct (Hq q loc Hq' Hloc) as [Hm|Hm]; [|done]. by apply Hn in Hf.
    + rewrite (each_iff _ (fun f => f ∉ fields)), Forall_forall in Hb by apply refuse_sealed_ok. done.
  - intros (s & Hs & [Hp Hq Hb Hn Hsh]). exists s. split; [done|]. rewrite !bind_tt. split_and!.
    + by apply validateProtectedCleartextFor_ok.
    + apply validateQuantityLocatorsNotSealed_ok. eauto.
    + rewrite (each_iff _ (fun f => f ∉ fields)), Forall_forall by apply refuse_sealed_ok. done.
    + by apply validateFrameShape_ok.
Qed.

(** ** The sealed frame passes the checks the plain one passed *)

Lemma add_content_elem out g f : f ∈ add_content out g <-> f ∈ out \/ (f = g /\ f <> "").
Proof.
  unfold add_content. destruct (String.eqb_spec g "") as [->|Hg]; cbn; [naive_solver|].
  destruct (contains out g) eqn:E; cbn; bool_hyps; [naive_solver|].
  rewrite elem_of_app, list_elem_of_singleton. naive_solver.
Qed.

Lemma fold_elem {A} (step : list string -> A -> list string) (P : A -> string -> Prop) l out f :
  (forall out a, f ∈ step out a <-> f ∈ out \/ P a f) ->
  f ∈ fold_left step l out <-> f ∈ out \/ exists a, a ∈ l /\ P a f.
Proof.
  intros Hst. revert out. induction l as [|a l IH]; intros out; cbn.
  - split; [by left|]. intros [?|(? & ?%elem_of_nil & _)]; done.
  - rewrite IH, Hst. setoid_rewrite elem_of_cons. naive_solver.
Qed.

(** The content fields of a rule: those of any of its shapes. *)
Lemma contentFields_elem r f :
  f ∈ contentFields r <->
  f <> "" /\ exists kind sh, rule_shapes r !! kind = Some sh /\
    (f = fs_content sh \/ f ∈ fs_sealIfPresent sh).
Proof.
  unfold contentFields. rewrite merge_sort_Permutation.
  rewrite (fold_elem _ (fun sh f => f <> "" /\ (f = fs_content sh \/ f ∈ fs_sealIfPresent sh))).
  - assert (forall sh, sh ∈ map snd (map_to_list (rule_shapes r)) <->
      exists kind, rule_shapes r !! kind = Some sh) as Hsh.
    { intros sh. rewrite list_elem_of_In, in_map_iff. split.
      - intros ([k sh'] & <- & Hin). exists k. by apply elem_of_map_to_list, list_elem_of_In.
      - intros [k Hk]. exists (k, sh). split; [done|]. by apply list_elem_of_In, elem_of_map_to_list. }
    setoid_rewrite Hsh. split; [intros [?%elem_of_nil|]; naive_solver|naive_solver].
  - intros out sh. cbv beta.
    rewrite (fold_elem add_content (fun g f => f = g /\ f <> "")) by (intros; apply add_content_elem).
    setoid_rewrite elem_of_cons. naive_solver.
Qed.

(** Every name the table lists for a response. *)
Definition response_names (s : profileSpec) : list string :=
  map pf_name (ps_responsePayload s) ++ bound_names s
  ++ match ps_responseFrames s with Some r => contentFields r | None => [] end.

Lemma response_names_e2ee p s : profiles !! p = Some s -> e2eeKey ∉ response_names s.
Proof.
  apply (profiles_forall (fun s => e2eeKey ∉ response_names s)).
  refine (bool_decide_eq_true_1 _ _). vm_compute. reflexivity.
Qed.

(** A shape with conditional fields has a content field. *)
Definition shapes_anchored (s : profileSpec) : bool :=
  match ps_responseFrames s with
  | None => true
  | Some r => forallb (fun sh => negb (String.eqb (fs_content sh) "") || bool_decide (fs_sealIfPresent sh = []))
                (map snd (map_to_list (rule_shapes r)))
  end.

Lemma profiles_anchored p s : profiles !! p = Some s -> shapes_anchored s = true.
Proof. apply (profiles_forall (fun s => shapes_anchored s = true)). by repeat constructor. Qed.

Lemma shape_anchored p s rule kind sh : profiles !! p = Some s -> ps_responseFrames s = Some rule ->
  rule_shapes rule !! kind = Some sh -> fs_content sh = "" -> fs_sealIfPresent sh = [].
Proof.
  intros Hs Hr Hk Hc. pose proof (profiles_anchored p s Hs) as Ha. unfold shapes_anchored in Ha.
  rewrite Hr, forallb_forall in Ha. specialize (Ha sh). rewrite Hc in Ha. cbn in Ha.
  eapply bool_decide_eq_true_1, Ha, in_map_iff. exists (kind, sh). split; [done|].
  by apply list_elem_of_In, elem_of_map_to_list.
Qed.

Lemma sealIfPresent_named p s rule kind sh : profiles !! p = Some s -> ps_responseFrames s = Some rule ->
  rule_shapes rule !! kind = Some sh -> "" ∉ fs_sealIfPresent sh.
Proof.
  intros Hs Hr Hk.
  assert (forall r, ps_responseFrames s = Some r ->
    Forall (fun sh => "" ∉ fs_sealIfPresent sh) (map snd (map_to_list (rule_shapes r)))) as Hall.
  { revert s Hs Hr. apply (profiles_forall (fun s => ps_responseFrames s = Some rule -> forall r,
      ps_responseFrames s = Some r -> Forall (fun sh => "" ∉ fs_sealIfPresent sh)
      (map snd (map_to_list (rule_shapes r))))).
    repeat constructor; try done. intros _ r [= <-]. refine (bool_decide_eq_true_1 _ _). by vm_compute. }
  specialize (Hall rule Hr). rewrite Forall_forall in Hall. apply Hall, list_elem_of_In, in_map_iff.
  exists (kind, sh). split; [done|]. by apply list_elem_of_In, elem_of_map_to_list.
Qed.

(** The wire form of a frame that seals [fields]: what stays is re-spelled. *)
Definition sealed_view (fields : list string) (frame out : Response) : Prop :=
  forall k, k <> e2eeKey -> out !! k = if decide (k ∈ fields) then None else compact <$> frame !! k.

Lemma set_string_compact o v : wf v = true -> set_string o (compact v) = set_string o v.
Proof. destruct v; cbn; try done. intros H. by rewrite unquote_str_esc. Qed.

Lemma unmarshal_map_compact v m : wf v = true -> unmarshal_map v = Ok m ->
  unmarshal_map (compact v) = Ok ((fun m : gmap string json => compact <$> m) <$> m).
Proof.
  destruct v as [| | | | |l]; try done; cbn; [by intros _ [= <-]|].
  intros Hw [= <-]. cbn. rewrite members_map_compact; [done|].
  apply Forall_forall. intros kv Hkv. rewrite forallb_forall in Hw.
  specialize (Hw kv (proj1 (list_elem_of_In _ _) Hkv)). by bool_hyps.
Qed.

Section view.
Context (p : Profile) (s : profileSpec) (Hs : profiles !! p = Some s).
Context (fields : list string) (frame out : Response).
Context (Hwf : map_Forall (fun _ v => wf v = true) frame) (Hv : sealed_view fields frame out).

Lemma view_some k : k <> e2eeKey -> is_Some (out !! k) -> is_Some (frame !! k).
Proof using Hv.
  intros Hk. rewrite (Hv k Hk). case_decide; [by intros [??]|]. rewrite fmap_is_Some. done.
Qed.

Lemma view_kept k : k <> e2eeKey -> (k ∉ fields) -> out !! k = compact <$> frame !! k.
Proof using Hv. intros Hk Hf. by rewrite (Hv k Hk), decide_False. Qed.

Lemma response_name_not f : f ∈ response_names s -> f <> e2eeKey.
Proof using Hs. intros Hf ->. by apply (response_names_e2ee p s Hs). Qed.

Lemma shapeOf_view rule :
  ps_responseFrames s = Some rule -> (rule_discriminator rule ∉ fields) ->
  shapeOf rule out = shapeOf rule frame.
Proof using Hs Hv Hwf.
  intros Hr Hd. unfold shapeOf. rewrite view_kept; [|apply response_name_not|done].
  - destruct (frame !! rule_discriminator rule) as [raw|] eqn:E; [|done]. cbn [fmap option_fmap option_map].
    cbn [of_option mbind result_bind]. unfold unmarshal_string.
    by rewrite set_string_compact by by apply (Hwf _ _ E).
  - unfold response_names, bound_names. rewrite Hr, !elem_of_app. right. left. right. left. constructor.
Qed.

Lemma sealedFieldsFor_view rule kind sh :
  ps_responseFrames s = Some rule -> shapeOf rule frame = Ok (kind, sh) ->
  (forall f, f ∈ sealedFieldsFor sh frame -> f ∈ fields) ->
  (sealedFieldsFor sh frame = [] -> fields = []) ->
  (forall f, f ∈ sealedFieldsFor sh out -> f ∈ fields) /\ (sealedFieldsFor sh out = [] -> fields = []).
Proof using Hs Hv.
  intros Hr Hk Hin He.
  assert (rule_shapes rule !! kind = Some sh) as Hsh.
  { unfold shapeOf in Hk. inv_ok. by simplify_eq. }
  assert (forall f, f ∈ contentFields rule -> f <> e2eeKey) as Hne.
  { intros f Hf. apply response_name_not. unfold response_names. rewrite Hr, !elem_of_app. auto. }
  unfold sealedFieldsFor in *. destruct (String.eqb_spec (fs_content sh) "") as [Hc|Hc].
  - rewrite (shape_anchored p s rule kind sh Hs Hr Hsh Hc) in *. cbn in *. auto.
  - split; [|done]. intros f [Hf|Hf]%elem_of_app; apply Hin, elem_of_app; [by left|].
    apply list_elem_of_In, filter_In in Hf as [Hf Hp]. apply list_elem_of_In in Hf. bool_hyps.
    destruct (decide (f = "")) as [->|Hf0].
    + by apply (sealIfPresent_named p s rule kind sh Hs Hr Hsh) in Hf.
    + right. apply list_elem_of_In, filter_In. split; [by apply list_elem_of_In|].
      apply has_key_true. apply view_some; [|done]. apply Hne, contentFields_elem. eauto 10.
Qed.

Lemma shape_ok_view : shape_ok s frame fields -> shape_ok s out fields.
Proof using Hs Hv Hwf.
  unfold shape_ok. destruct (ps_responseFrames s) as [rule|] eqn:Er.
  - intros (Hd & kind & sh & Hk & He & Hin & Hc). split; [done|]. exists kind, sh.
    destruct (sealedFieldsFor_view rule kind sh Er Hk Hin He). rewrite shapeOf_view by done.
    split_and!; [done..|]. intros f Hf Hso. apply Hc; [done|]. apply view_some; [|done].
    apply response_name_not. unfold response_names. rewrite Er, !elem_of_app. auto.
  - intros (Hne & Hall). split; [done|]. intros pf Hpf Ho. apply Hall; [done|]. intros Hopt.
    apply view_some; [|auto]. apply response_name_not. unfold response_names.
    rewrite elem_of_app. left. by apply (list_elem_of_fmap_2 pf_name).
Qed.

Lemma bound_name_not f : f ∈ bound_names s -> f <> e2eeKey.
Proof using Hs. intros Hf. apply response_name_not. unfold response_names. rewrite !elem_of_app. auto. Qed.

Lemma frame_ok_view : frame_ok s frame fields -> frame_ok s out fields.
Proof using Hs Hv Hwf.
  intros [Hp Hq Hb Hn Hsh]. split; [|done..|by apply shape_ok_view].
  rewrite Forall_forall in *. intros pc Hpc. destruct (Hp pc Hpc) as [Hf He]. split; [done|].
  intros raw Hraw. rewrite view_kept in Hraw; [|apply bound_name_not|done].
  - destruct (frame !! pc_field pc) as [v|] eqn:E; [|done]. injection Hraw as <-.
    destruct (He v E) as (obj & Hobj & Ha). eexists.
    split; [apply unmarshal_map_compact; [by apply (Hwf _ _ E)|exact Hobj]|].
    rewrite Forall_forall in *. intros key Hkey w Hw.
    destruct obj as [obj|]; cbn [fmap option_fmap option_map nil_map] in Hw;
      [|by rewrite lookup_empty in Hw].
    rewrite lookup_fmap in Hw. destruct (obj !! key) as [u|] eqn:Eu; [|done]. injection Hw as <-.
    destruct (Ha key Hkey u Eu) as [-> | ->]; auto.
  - unfold bound_names. rewrite !elem_of_app. right. right. left.
    by apply (list_elem_of_fmap_2 pc_field).
Qed.

(** ** Quantities *)

Lemma parseCleartextNumber_compact k v : parseCleartextNumber k (compact v) = parseCleartextNumber k v.
Proof using Type. by destruct k, v. Qed.

Lemma locate_view loc : cn_field loc <> e2eeKey -> (cn_field loc ∉ fields) ->
  locate out loc = match locate frame loc with Ok o => Ok (compact <$> o) | Err e => Err e end.
Proof using Hv Hwf.
  intros Hne Hf. unfold locate. rewrite view_kept by done.
  destruct (frame !! cn_field loc) as [v|] eqn:E; [|done]. cbn [fmap option_fmap option_map].
  destruct (String.eqb _ _); [done|].
  destruct (unmarshal_map v) as [m|err] eqn:Em.
  - rewrite (unmarshal_map_compact _ _ (Hwf _ _ E) Em). cbn. destruct m as [m|]; cbn; [|done].
    by rewrite lookup_fmap.
  - by destruct v.
Qed.

Lemma readLocators_view k locs found :
  (forall loc, loc ∈ locs -> cn_field loc <> e2eeKey /\ (cn_field loc ∉ fields)) ->
  readLocators out k locs found = readLocators frame k locs found.
Proof using Hv Hwf.
  revert found. induction locs as [|loc locs IH]; intros found Hl; [done|]. cbn [readLocators].
  destruct (Hl loc) as [Hne Hf]; [constructor|]. rewrite locate_view by done.
  assert (forall fd, readLocators out k locs fd = readLocators frame k locs fd) as IH'
    by (intros; apply IH; intros; apply Hl; by constructor).
  destruct (locate frame loc) as [[v|]|]; cbn [mbind result_bind fmap option_fmap option_map]; try done.
  rewrite parseCleartextNumber_compact. destruct (parseCleartextNumber k v); cbn; [apply IH'|done].
Qed.

Lemma validateResponseCleartextFor_view :
  frame_ok s frame fields -> validateResponseCleartextFor p out = validateResponseCleartextFor p frame.
Proof using Hs Hv Hwf.
  intros [_ Hq _ _ _]. unfold validateResponseCleartextFor. rewrite (proj2 (spec_ok _ _) Hs).
  cbn [mbind result_bind].
  assert (forall q, q ∈ ps_required s -> validateCleartextQuantity q out = validateCleartextQuantity q frame)
    as Hall.
  { intros q Hq'. unfold validateCleartextQuantity. rewrite readLocators_view; [done|].
    intros loc Hloc. split; [|by eapply Hq]. apply bound_name_not. unfold bound_names.
    rewrite !elem_of_app. do 4 right. apply list_elem_of_bind. exists q. split; [|done].
    by apply (list_elem_of_fmap_2 cn_field). }
  revert Hall. generalize (ps_required s) as l. induction l as [|q l IH]; intros Hall; [done|].
  cbn [each]. rewrite Hall by constructor. rewrite IH; [done|]. intros; apply Hall; by constructor.
Qed.
End view.

(** ** The block of a frame reads back *)

Definition ResponseE2EE_ok (e : ResponseE2EE) : Prop :=
  int64_of_lit (itoa (r_V e)) = Some (r_V e) /\ num_ok (itoa (r_V e)) = true /\
  utf8_str (r_Enc e) = true /\ utf8_str (r_Ciphertext e) = true /\
  Forall (fun s => utf8_str s = true) (r_SealedFields e) /\
  Forall (fun s => utf8_str s = true) (r_UnboundFields e).

Lemma ResponseE2EE_roundtrip e :
  ResponseE2EE_ok e ->
  unmarshal_struct ResponseE2EE_fields zeroResponseE2EE (json_of_ResponseE2EE e) = Ok e.
Proof.
  destruct e as [v en sf uf fi ct]. intros (Hv & _ & He & Hc & Hsf & Huf).
  cbn [r_V r_Enc r_SealedFields r_UnboundFields r_Final r_Ciphertext] in *.
  unfold json_of_ResponseE2EE, response_members, unmarshal_struct, zeroResponseE2EE.
  cbn [r_V r_Enc r_SealedFields r_UnboundFields r_Final r_Ciphertext].
  destruct (Z.eqb_spec v 0) as [->|Hv0]; destruct (String.eqb_spec en "") as [->|He0];
    destruct uf as [|u uf]; cbn [app];
    repeat (read_member; cbn [set_int set_bool json_of_int]; rewrite ?Hv;
            cbn [of_option mbind result_bind]); done.
Qed.

(** The block as a map, and its members but the ciphertext. *)
Definition ResponseE2EE_map (e : ResponseE2EE) : gmap string json :=
  members_map (response_members e ++ [(jkey "ciphertext", jstr (r_Ciphertext e))]).
Definition ResponseE2EE_members (e : ResponseE2EE) : gmap string json :=
  delete "ciphertext" (members_map (response_members e)).

Lemma unmarshal_ResponseE2EE e : unmarshal_map (json_of_ResponseE2EE e) = Ok (Some (ResponseE2EE_map e)).
Proof. done. Qed.

Lemma ResponseE2EE_map_ciphertext e : delete "ciphertext" (ResponseE2EE_map e) = ResponseE2EE_members e.
Proof.
  unfold ResponseE2EE_map, ResponseE2EE_members. rewrite members_map_snoc. cbn [fst snd].
  assert (unquote_str (jkey "ciphertext") = "ciphertext") as -> by by vm_compute.
  by rewrite delete_insert_eq.
Qed.

Lemma ResponseE2EE_members_unbound e :
  ResponseE2EE_members e !! "unbound_fields" =
  match r_UnboundFields e with [] => None | l => Some (json_of_strings l) end.
Proof.
  destruct e as [v en sf uf fi ct]. unfold ResponseE2EE_members, response_members.
  cbn [r_V r_Enc r_SealedFields r_UnboundFields r_Final r_Ciphertext].
  rewrite lookup_delete_ne by done. destruct (v =? 0), (String.eqb en ""), uf; reflexivity.
Qed.

Lemma unbound_of_ResponseE2EE e :
  Forall (fun s => utf8_str s = true) (r_UnboundFields e) ->
  unbound_of (ResponseE2EE_map e) = Ok (r_UnboundFields e).
Proof.
  intros Hu. unfold unbound_of.
  rewrite <-(lookup_delete_ne _ "ciphertext"), ResponseE2EE_map_ciphertext, ResponseE2EE_members_unbound
    by done.
  destruct (r_UnboundFields e) as [|u l]; [done|]. unfold unmarshal_strings. by rewrite set_strings_json.
Qed.

Lemma compact_json_of_ResponseE2EE e : compact (json_of_ResponseE2EE e) = json_of_ResponseE2EE e.
Proof.
  destruct e as [v en sf uf fi ct]. unfold json_of_ResponseE2EE, response_members.
  cbn [r_V r_Enc r_SealedFields r_UnboundFields r_Final r_Ciphertext].
  destruct (v =? 0), (String.eqb en ""), uf; cbn [app compact map fst snd]; unfold jkey;
    by rewrite !esc_html_quote, ?compact_jstr, !compact_json_of_strings.
Qed.

Lemma raw_ok_json_of_ResponseE2EE e :
  num_ok (itoa (r_V e)) = true -> raw_ok (json_of_ResponseE2EE e) = true.
Proof.
  intros Hv. unfold raw_ok. destruct e as [v en sf uf fi ct]. cbn in Hv.
  unfold json_of_ResponseE2EE, response_members.
  cbn [r_V r_Enc r_SealedFields r_UnboundFields r_Final r_Ciphertext].
  destruct (wf_json_of_strings sf) as [Hsf Dsf], (wf_json_of_strings uf) as [Huf Duf].
  assert (forall s, str_ok (jkey s) = true) as Hk by (intros; apply str_ok_quote).
  assert (forall s, wf (jstr s) = true) as Hj by (intros; apply str_ok_quote).
  apply andb_true_iff. split.
  - cbn [wf]. destruct (v =? 0), (String.eqb en ""), uf; cbn [app forallb fst snd];
      cbn [wf json_of_int] in *; by rewrite ?Hk, ?Hj, ?Hsf, ?Huf, ?Hv.
  - apply N.ltb_lt. destruct (v =? 0), (String.eqb en ""), uf; cbn [app jdepth fold_right snd] in *;
      cbn [jdepth json_of_int jstr]; unfold maxNestingDepth; lia.
Qed.

Section opening.
Context `{Jcs} `{L : HpkeLaws}.

(** The parts of a sealed frame. *)
Record frame_sealing (rs : ResponseSealer) (frame : Response) (sealed : list string) (final : bool)
    (out : Response) (rs' : ResponseSealer) : Prop := FrameSealing {
  fs_valid : validateSealedFields rs frame sealed = Ok tt;
  fs_unbound : ValidateUnboundFields (rs_unbound rs) sealed = Ok tt;
  fs_readable : final = true -> rs_nonConforming rs = false ->
    validateResponseCleartextFor (rs_profile rs) frame = Ok tt;
  fs_present : forall f, f ∈ sealed -> is_Some (frame !! f);
  fs_no_block : frame !! e2eeKey = None;
  fs_out : exists aad ct sealer',
    let e := frame_meta rs sealed final in
    aadFromEnvelope (setResponseE2EE (cleartext_of sealed frame) e) = Ok aad /\
    Sealer_Seal (rs_sealer rs) (marshal_map (sealed_part sealed frame)) aad = Ok (ct, sealer') /\
    out = setResponseE2EE (cleartext_of sealed frame) (resp_with_ciphertext e (b64 ct)) /\
    rs' = MkResponseSealer sealer' (rs_enc rs) false (rs_unbound rs) (rs_profile rs) (rs_nonConforming rs)
}.

Lemma SealFrame_sealing rs frame sf final out rs' :
  SealFrame rs frame sf final = Ok (out, rs') ->
  exists sealed, frame_sealing rs frame sealed final out rs'.
Proof.
  unfold SealFrame. intros Hs. inv_ok.
  repeat match goal with x : (_ * _)%type |- _ => destruct x end. inv_ok. bool_hyps.
  match goal with H : collectSealed _ _ _ = _ |- _ => apply collectSealed_ok in H as [? Hobj] end.
  rewrite (right_id_L ∅ (∪)) in Hobj. simplify_eq.
  eexists. split; try done.
  - intros -> Hn. by rewrite Hn in *.
  - do 3 eexists. split_and!; [done|done| |done]. unfold setResponseE2EE. by rewrite insert_insert_eq.
Qed.

(** What the receiver finds in the wire form of a sealed frame. *)
Lemma frame_sealing_wire rs frame sealed final out rs' :
  frame_sealing rs frame sealed final out rs' ->
  map_ok frame -> Forall (fun s => utf8_str s = true) (rs_unbound rs) -> utf8_str (rs_enc rs) = true ->
  map_ok out /\ sealed_view sealed frame (compact <$> out) /\
  exists e aad ct sealer',
    (compact <$> out) !! e2eeKey = Some (json_of_ResponseE2EE e) /\
    Response_E2EE (compact <$> out) = Ok e /\ e = resp_with_ciphertext (frame_meta rs sealed final) (b64 ct) /\
    aadFromEnvelope (compact <$> out) = Ok aad /\
    Sealer_Seal (rs_sealer rs) (marshal_map (sealed_part sealed frame)) aad = Ok (ct, sealer') /\
    rs' = MkResponseSealer sealer' (rs_enc rs) false (rs_unbound rs) (rs_profile rs) (rs_nonConforming rs).
Proof.
  intros [_ _ _ Hpres Hnb (aad & ct & sealer' & Haad & Hct & -> & ->)] Hok Hu Hen.
  set (e := resp_with_ciphertext (frame_meta rs sealed final) (b64 ct)) in *.
  assert (ResponseE2EE_ok e) as He.
  { unfold ResponseE2EE_ok, e, frame_meta. cbn. split_and!; [by destruct (rs_first rs)..| | | |done].
    - by destruct (rs_first rs).
    - apply b64_safe_utf8.
    - by eapply map_ok_keys. }
  assert ((compact <$> setResponseE2EE (cleartext_of sealed frame) e) !! e2eeKey
    = Some (json_of_ResponseE2EE e)) as Hb.
  { unfold setResponseE2EE. rewrite lookup_fmap, lookup_insert_eq.
    rewrite <-(compact_json_of_ResponseE2EE e) at 2. done. }
  split_and!.
  - apply map_Forall_insert_2; [|by apply map_ok_filter]. split; [done|].
    apply raw_ok_json_of_ResponseE2EE. apply He.
  - intros k Hk. unfold setResponseE2EE. rewrite lookup_fmap, lookup_insert_ne, cleartext_of_lookup by done.
    by case_decide.
  - exists e, aad, ct, sealer'. split_and!; try done.
    + unfold Response_E2EE. rewrite Hb. by rewrite ResponseE2EE_roundtrip.
    + rewrite <-Haad. eapply (aadFromEnvelope_agree _ _ _ _ _ _ (rs_unbound rs));
        [exact Hb|apply unmarshal_ResponseE2EE|by unfold setResponseE2EE; rewrite lookup_insert_eq|
         apply unmarshal_ResponseE2EE| |by apply unbound_of_ResponseE2EE|].
      * rewrite !ResponseE2EE_map_ciphertext. done.
      * intros k Hk _. unfold setResponseE2EE. rewrite lookup_fmap, !lookup_insert_ne by done.
        destruct (cleartext_of sealed frame !! k); cbn; [|done]. by rewrite compact_idem.
Qed.

(** Decrypting what was sealed restores the frame. *)
Lemma restoreFrame_sealed e sealed frame out :
  map_ok frame -> frame !! e2eeKey = None -> names_ok sealed -> (forall f, f ∈ sealed -> is_Some (frame !! f)) ->
  r_SealedFields e = sealed -> sealed_view sealed frame out ->
  restoreFrame e out (marshal_map (sealed_part sealed frame)) = Ok (compact <$> frame).
Proof.
  intros Hok Hnb (Hnd & _ & Hr & _) Hpres Hsf Hv. unfold restoreFrame. rewrite Hsf.
  rewrite unmarshal_marshal_map by by apply map_ok_filter.
  cbn [map_err mbind result_bind nil_map].
  assert (forall k, (compact <$> sealed_part sealed frame) !! k
    = if decide (k ∈ sealed) then compact <$> frame !! k else None) as Hlk.
  { intros k. rewrite lookup_fmap, sealed_part_lookup. by case_decide. }
  rewrite (proj2 (sameKeys_dom _ _ Hnd)); cbn [negb refuse mbind result_bind].
  - apply mergeSealed_map. split_and!.
    + by rewrite Hlk, decide_False.
    + intros k. rewrite Hlk. case_decide as Hk; [intros _|by intros [??]].
      destruct (decide (k = e2eeKey)) as [->|Hne]; [done|].
      by rewrite lookup_delete_ne, (Hv k Hne), decide_True by done.
    + apply map_eq. intros k. rewrite lookup_union, Hlk, lookup_fmap.
      destruct (decide (k = e2eeKey)) as [->|Hne].
      * rewrite lookup_delete_eq, Hnb. by case_decide.
      * rewrite lookup_delete_ne, (Hv k Hne) by done. case_decide; by destruct (frame !! k).
  - apply set_eq. intros k. rewrite elem_of_toSet, elem_of_dom, Hlk.
    case_decide; [|split; [by intros [? ?]|done]]. rewrite fmap_is_Some. split; auto.
Qed.

(** One frame: the opener paired with the sealer opens what it sealed, to the frame,
    and both move on together. *)
Lemma OpenFrame_sealed rs frame sf final out rs' o p :
  SealFrame rs frame sf final = Ok (out, rs') -> paired (rs_sealer rs) o ->
  rs_profile rs = p -> rs_nonConforming rs = false ->
  validateResponseUnboundFieldsFor p (rs_unbound rs) = Ok tt ->
  map_ok frame -> Forall (fun s => utf8_str s = true) (rs_unbound rs) -> utf8_str (rs_enc rs) = true ->
  exists o', OpenFrame (MkResponseOpener o p) (compact <$> out)
             = (Ok (compact <$> frame), MkResponseOpener o' p) /\
    paired (rs_sealer rs') o'.
Proof.
  intros Hs Hpair Hp Hnc Hub Hok Hu Hen.
  destruct (SealFrame_sealing _ _ _ _ _ _ Hs) as [sealed Hfs].
  destruct (frame_sealing_wire _ _ _ _ _ _ Hfs Hok Hu Hen)
    as (_ & Hv & e & aad & ct & sealer' & _ & He & Hee & Haad & Hct & ->).
  destruct Hfs as [Hvalid _ Hread Hpres Hnb _]. unfold validateSealedFields in Hvalid. rewrite Hnc, Hp in *.
  apply validateResponseSealedFieldsForFrame_ok in Hvalid as (s & Hsp & Hfo).
  assert (frame_ok s (compact <$> out) sealed) as Hfo'
    by (eapply frame_ok_view; [done|by apply map_ok_wf|done|done]).
  unfold OpenFrame, checkFrame. cbn [ro_profile ro_opener]. rewrite He, Hee. cbn [mbind result_bind].
  cbn [resp_with_ciphertext frame_meta r_UnboundFields r_SealedFields r_Final r_Ciphertext].
  rewrite Hub. cbn [mbind result_bind].
  rewrite (proj2 (validateResponseSealedFieldsForFrame_ok _ _ _)) by eauto. cbn [mbind result_bind].
  assert ((if final then validateResponseCleartextFor p (compact <$> out) else Ok tt) = Ok tt) as ->.
  { destruct final; [|done]. erewrite validateResponseCleartextFor_view; [by apply Hread|done| |done|done].
    by apply map_ok_wf. }
  cbn [mbind result_bind]. rewrite unb64_b64. cbn [of_option mbind result_bind]. rewrite Haad.
  cbn [mbind result_bind].
  destruct (Opener_Open_sealed _ _ _ _ _ _ Hpair Hct) as (o' & -> & Hpair'). cbn [fst snd].
  exists o'. split; [|done]. f_equal. apply (restoreFrame_sealed _ sealed); try done. apply Hfo.
Qed.
End opening.

(** ** Streams *)

Section streams.
Context `{Jcs} `{HpkeLib}.

(** What the enclave does with a response: frame after frame on one sealer. *)
Fixpoint SealFrames (rs : ResponseSealer) (l : list (Response * option (list string) * bool))
    : wresult (list Response * ResponseSealer) :=
  match l with
  | [] => Ok ([], rs)
  | (frame, sf, final) :: l =>
      '(out, rs) ← SealFrame rs frame sf final;
      '(outs, rs) ← SealFrames rs l;
      Ok (out :: outs, rs)
  end.

(** What the client does: frame after frame on one opener, up to the first error. *)
Fixpoint OpenFrames (ro : ResponseOpener) (l : list Response) : wresult (list Response) * ResponseOpener :=
  match l with
  | [] => (Ok [], ro)
  | f :: l =>
      match OpenFrame ro f with
      | (Err e, ro) => (Err e, ro)
      | (Ok out, ro) =>
          let '(r, ro) := OpenFrames ro l in
          (outs ← r; Ok (out :: outs), ro)
      end
  end.
End streams.

Section stream_lemmas.
Context `{Jcs} `{L : HpkeLaws}.

(** A sealer that [newResponseSealer] made, some frames on. *)
Definition sealer_ok (rs : ResponseSealer) : Prop :=
  rs_nonConforming rs = false /\
  validateResponseUnboundFieldsFor (rs_profile rs) (rs_unbound rs) = Ok tt /\
  Forall (fun s => utf8_str s = true) (rs_unbound rs) /\ utf8_str (rs_enc rs) = true.

Lemma SealFrame_sealer_ok rs frame sf final out rs' :
  sealer_ok rs -> SealFrame rs frame sf final = Ok (out, rs') ->
  sealer_ok rs' /\ rs_profile rs' = rs_profile rs /\ later (rs_sealer rs) (rs_sealer rs').
Proof.
  intros Hok Hs. destruct (SealFrame_sealing _ _ _ _ _ _ Hs) as [sealed [_ _ _ _ _ Hout]].
  destruct Hout as (aad & ct & sealer' & _ & Hct & _ & ->). unfold Sealer_Seal in Hct. inv_ok.
  split; [exact Hok|]. split; [done|]. by eapply later_one.
Qed.

Lemma OpenFrames_sealed rs frames outs rs' o :
  sealer_ok rs -> paired (rs_sealer rs) o -> Forall (fun f => map_ok f.1.1) frames ->
  SealFrames rs frames = Ok (outs, rs') ->
  exists o', OpenFrames (MkResponseOpener o (rs_profile rs)) (map (fmap compact) outs)
    = (Ok (map (fun f => compact <$> f.1.1) frames), MkResponseOpener o' (rs_profile rs)) /\
    paired (rs_sealer rs') o'.
Proof.
  intros Hok Hpair Hf. revert rs outs o Hok Hpair.
  induction Hf as [|[[frame sf] final] l Hfr _ IH]; intros rs outs o Hok Hpair Hs; cbn [SealFrames] in Hs.
  - inv_ok. simplify_eq. cbn. eauto.
  - inv_ok. destruct x as [out rs1]. inv_ok. destruct x as [outs1 rs2]. inv_ok. simplify_eq.
    pose proof Hok as (Hnc & Hub & Hu & Hen).
    edestruct OpenFrame_sealed as (o1 & Ho1 & Hp1); [eassumption|exact Hpair|done..|].
    match goal with H : SealFrame _ _ _ _ = _ |- _ =>
      destruct (SealFrame_sealer_ok _ _ _ _ _ _ Hok H) as (Hok1 & Hpr & _) end.
    match goal with H : SealFrames _ _ = _ |- _ => rename H into Hss end.
    destruct (IH rs1 outs1 o1 Hok1 Hp1 Hss) as (o' & Ho' & Hp').
    exists o'. split; [|done]. cbn [map OpenFrames]. rewrite Ho1, <-Hpr, Ho'. done.
Qed.

Lemma newResponseSealer_ok p pub psk u rnd rs :
  newResponseSealer p pub psk u rnd = Ok rs ->
  exists s enc, profiles !! p = Some s /\ (psk = None -> requiresBind s = false) /\
    rs = MkResponseSealer (rs_sealer rs) (b64 enc) true u p false /\
    validateResponseUnboundFieldsFor p u = Ok tt /\
    match psk with
    | Some psk => SetupSenderPSK pub (bytes_of RespInfo) psk (bytes_of RespBindPSKID) rnd
    | None => SetupSender pub (bytes_of RespInfo) rnd
    end = Ok (enc, rs_sealer rs).
Proof.
  unfold newResponseSealer. intros Hs. inv_ok. destruct x2 as [enc sealer]. inv_ok. subst. cbn.
  match goal with H : spec _ = _ |- _ => apply spec_ok in H end.
  do 2 eexists. split_and!; [done|by intros ->|done|done|done].
Qed.

Lemma b64_nonempty enc : length enc = 32%nat -> String.eqb (b64 enc) "" = false.
Proof.
  intros Hl. apply String.eqb_neq. intros E. apply (f_equal bytes_of) in E. unfold b64 in E.
  rewrite bytes_of_str_of in E. by destruct enc as [|? [|? [|? ?]]].
Qed.

(** The client's opener, set up from the wire form of the first sealed frame, is
    paired with the sealer as it was before that frame. *)
Lemma newResponseOpener_first p priv pub psk u rnd rs frame sf final out rs' :
  keypair priv pub -> Forall (fun s => utf8_str s = true) u -> map_ok frame ->
  newResponseSealer p pub psk u rnd = Ok rs -> SealFrame rs frame sf final = Ok (out, rs') ->
  exists o, newResponseOpener p priv (compact <$> out) psk = Ok (MkResponseOpener o p) /\
    paired (rs_sealer rs) o.
Proof.
  intros Hkey Hu Hok Hn Hs.
  destruct (newResponseSealer_ok _ _ _ _ _ _ Hn) as (s & enc & Hsp & Hb & Hrs & Hub & Hset).
  destruct (SealFrame_sealing _ _ _ _ _ _ Hs) as [sealed Hfs].
  assert (rs_unbound rs = u /\ rs_enc rs = b64 enc /\ rs_first rs = true) as (Eu & Ee & Ef)
    by (by rewrite Hrs).
  destruct (frame_sealing_wire _ _ _ _ _ _ Hfs Hok) as (_ & _ & e & aad & ct & sealer' & _ & He & Hee & _);
    [by rewrite Eu|rewrite Ee; apply b64_safe_utf8|].
  assert (exists o, match psk with
      | Some psk => SetupReceiverPSK priv enc (bytes_of RespInfo) psk (bytes_of RespBindPSKID)
      | None => SetupReceiver priv enc (bytes_of RespInfo)
      end = Ok o /\ paired (rs_sealer rs) o) as (o & Ho & Hp)
    by (destruct psk; [by eapply SetupReceiverPSK_paired|by eapply SetupReceiver_paired]).
  assert (length enc = 32%nat) as Hlen.
  { destruct psk; unfold SetupSenderPSK, SetupSender in Hset; inv_ok; by eapply setup_enc_length. }
  exists o. split; [|done]. unfold newResponseOpener. rewrite (proj2 (spec_ok _ _) Hsp).
  cbn [mbind result_bind].
  assert (match psk with None => requiresBind s | Some _ => false end = false) as ->
    by (destruct psk; [done|by apply Hb]).
  rewrite He, Hee. cbn [refuse mbind result_bind]. unfold frame_meta. rewrite Ef, Ee.
  cbn [resp_with_ciphertext r_V r_Enc]. rewrite b64_nonempty by done.
  change (negb (Version =? Version)) with false. cbn [refuse mbind result_bind].
  rewrite unb64_b64. cbn [of_option mbind result_bind]. by rewrite Ho.
Qed.
End stream_lemmas.

Section positions.
Context `{Jcs} `{L : HpkeLaws}.

Lemma later_trans (a b c : snd_ctx) : later a b -> later b c -> later a c.
Proof. induction 1; intros; eauto using later_more. Qed.

Lemma SealFrames_app rs l1 l2 outs rs' :
  SealFrames rs (l1 ++ l2) = Ok (outs, rs') ->
  exists outs1 rs1 outs2, SealFrames rs l1 = Ok (outs1, rs1) /\ SealFrames rs1 l2 = Ok (outs2, rs') /\
    outs = outs1 ++ outs2 /\ length outs1 = length l1.
Proof.
  revert rs outs. induction l1 as [|[[frame sf] final] l1 IH]; intros rs outs Hs.
  - exists [], rs, outs. done.
  - cbn [app SealFrames] in *. inv_ok. destruct x as [out rs1]. inv_ok. destruct x as [outs1 rs2]. inv_ok.
    simplify_eq.
    match goal with H : SealFrames rs1 _ = _ |- _ => apply IH in H as (o1 & r1 & o2 & E1 & E2 & -> & El) end.
    match goal with H : SealFrame _ _ _ _ = _ |- _ => rewrite H end.
    exists (out :: o1), r1, o2. cbn. rewrite E1. cbn. by rewrite El.
Qed.

Lemma SealFrames_later rs l outs rs' :
  sealer_ok rs -> SealFrames rs l = Ok (outs, rs') ->
  sealer_ok rs' /\ rs_profile rs' = rs_profile rs /\
  (l <> [] -> later (rs_sealer rs) (rs_sealer rs')).
Proof.
  revert rs outs. induction l as [|[[frame sf] final] l IH]; intros rs outs Hok Hs; cbn [SealFrames] in Hs.
  - inv_ok. by simplify_eq.
  - inv_ok. destruct x as [out rs1]. inv_ok. destruct x as [outs1 rs2]. inv_ok. simplify_eq.
    match goal with H : SealFrame _ _ _ _ = _ |- _ =>
      destruct (SealFrame_sealer_ok _ _ _ _ _ _ Hok H) as (Hok1 & Hp1 & Hl1) end.
    match goal with H : SealFrames rs1 _ = _ |- _ =>
      destruct (IH _ _ Hok1 H) as (Hok2 & Hp2 & Hl2); destruct l; [cbn in H; inv_ok; simplify_eq; done|] end.
    split_and!; [done|congruence|]. intros _. eapply later_trans; [exact Hl1|by apply Hl2].
Qed.

Lemma SealFrames_length rs l outs rs' : SealFrames rs l = Ok (outs, rs') -> length outs = length l.
Proof.
  intros Hs. rewrite <-(app_nil_r l) in Hs. apply SealFrames_app in Hs as (o1 & r1 & o2 & _ & E & -> & El).
  cbn in E. inv_ok. simplify_eq. by rewrite app_nil_r.
Qed.

Lemma SealFrames_take_later rs frames i j oi oj rsi rsj :
  sealer_ok rs -> (i < j)%nat -> (j <= length frames)%nat ->
  SealFrames rs (take i frames) = Ok (oi, rsi) -> SealFrames rs (take j frames) = Ok (oj, rsj) ->
  later (rs_sealer rsi) (rs_sealer rsj).
Proof.
  intros Hok Hij Hj Hi Hs. rewrite <-(take_drop i (take j frames)) in Hs.
  rewrite take_take, Nat.min_l in Hs by lia.
  apply SealFrames_app in Hs as (o1 & r1 & o2 & E1 & E2 & _). rewrite Hi in E1. simplify_eq.
  destruct (SealFrames_later _ _ _ _ Hok Hi) as [Hok1 _].
  destruct (SealFrames_later _ _ _ _ Hok1 E2) as (_ & _ & Hl). apply Hl.
  intros E. apply (f_equal length) in E. rewrite length_drop, length_take in E. cbn in E. lia.
Qed.

(** The sealer before the [i]-th frame, and what it sealed there. *)
Lemma SealFrames_at rs frames outs rs' j out :
  sealer_ok rs -> Forall (fun f => map_ok f.1.1) frames -> SealFrames rs frames = Ok (outs, rs') ->
  outs !! j = Some out ->
  exists outs1 rsj, SealFrames rs (take j frames) = Ok (outs1, rsj) /\ (j < length frames)%nat /\
    exists e pt aad ct s', Response_E2EE (compact <$> out) = Ok e /\ unb64 (r_Ciphertext e) = Some ct /\
      ctx_seal (rs_sealer rsj) pt aad = Some (ct, s').
Proof.
  intros Hok Hf Hs Hj. rewrite <-(take_drop j frames) in Hs, Hf.
  apply SealFrames_app in Hs as (outs1 & rs1 & outs2 & Hs1 & Hs2 & -> & Hlen).
  apply Forall_app in Hf as [_ Hf]. exists outs1, rs1. split; [done|].
  assert (outs2 !! 0%nat = Some out /\ (j < length frames)%nat) as [Ho Hl].
  { rewrite length_take in Hlen. destruct (decide (j < length frames)%nat).
    - split; [|done]. rewrite lookup_app_r in Hj by lia. by replace (j - length outs1)%nat with 0%nat in Hj by lia.
    - rewrite drop_ge in Hs2 by lia. cbn in Hs2. inv_ok. simplify_eq. rewrite app_nil_r in Hj.
      apply lookup_lt_Some in Hj. lia. }
  split; [done|]. destruct (SealFrames_later _ _ _ _ Hok Hs1) as ((Hnc & _ & Hu & Hen) & _).
  destruct (drop j frames) as [|[[frame sf] final] l]; [cbn in Hs2; inv_ok; by simplify_eq|].
  cbn [SealFrames] in Hs2. inv_ok. destruct x as [out' rs2]. inv_ok. destruct x as [outs' rs3]. inv_ok.
  simplify_eq/=. inversion Hf as [|? ? Hfr _]; subst.
  match goal with H : SealFrame _ _ _ _ = _ |- _ =>
    destruct (SealFrame_sealing _ _ _ _ _ _ H) as [sealed Hfs] end.
  destruct (frame_sealing_wire _ _ _ _ _ _ Hfs Hfr Hu Hen)
    as (_ & _ & e & aad & ct & sealer' & _ & He & Hee & _ & Hct & _).
  unfold Sealer_Seal in Hct. inv_ok. exists e. do 4 eexists. split_and!; [done| |done].
  rewrite Hee. apply unb64_b64.
Qed.

Lemma OpenFrame_refuses ro frame e ct s pt0 aad0 s0 (s1 : snd_ctx) :
  Response_E2EE frame = Ok e -> unb64 (r_Ciphertext e) = Some ct -> paired s (ro_opener ro) ->
  ctx_seal s1 pt0 aad0 = Some (ct, s0) -> later s s1 \/ later s1 s ->
  exists err, OpenFrame ro frame = (Err err, ro).
Proof.
  intros He Hct Hpair Hseal Hlater. unfold OpenFrame.
  destruct (checkFrame (ro_profile ro) frame) as [[[e' ct'] aad]|err] eqn:Hc; [|by eexists].
  assert (ct' = ct) as ->.
  { unfold checkFrame in Hc. rewrite He in Hc. inv_ok. simplify_eq. done. }
  destruct (Opener_Open (ro_opener ro) ct aad) as [[pt o']|err] eqn:Ho; [|by eexists].
  exfalso. unfold Opener_Open in Ho. inv_ok.
  destruct (open_seal _ _ _ _ _ _ Hpair Ho) as [s' Hs'].
  destruct Hlater as [Hl|Hl]; [by eapply seal_positions in Hl|].
  by eapply seal_positions in Hl; [|exact Hseal].
Qed.
End positions.

(** C4: a streamed response survives the trip, in base mode and bound ([psk]): the
    wire forms of the frames an enclave seals on one sealer open, in order, on the
    opener the client sets up from the first of them, each to the frame sealed. *)
Theorem stream_roundtrip `{Jcs} `{HpkeLaws} p priv pub psk u rnd rs frames outs rs' :
  keypair priv pub -> Forall (fun s => utf8_str s = true) u ->
  Forall (fun f => map_ok f.1.1) frames -> frames <> [] ->
  newResponseSealer p pub psk u rnd = Ok rs -> SealFrames rs frames = Ok (outs, rs') ->
  exists ro ro', newResponseOpener p priv (compact <$> hd ∅ outs) psk = Ok ro /\
    OpenFrames ro (map (fmap compact) outs) = (Ok (map (fun f => compact <$> f.1.1) frames), ro').
Proof.
  intros Hkey Hu Hok Hne Hn Hs.
  destruct (newResponseSealer_ok _ _ _ _ _ _ Hn) as (s & enc & _ & _ & Hrs & Hub & _).
  assert (sealer_ok rs /\ rs_profile rs = p) as [Hrok Hp]
    by (rewrite Hrs; unfold sealer_ok; split_and!; [done|done|done|apply b64_safe_utf8|done]).
  pose proof Hs as Hs0. destruct frames as [|[[frame sf] final] l]; [done|]. cbn [SealFrames] in Hs.
  inv_ok. destruct x as [out rs1]. inv_ok. destruct x as [outs1 rs2]. inv_ok. simplify_eq. cbn [hd].
  inversion Hok as [|? ? Hfr _]; subst.
  edestruct newResponseOpener_first as (o & Ho & Hpair); [eassumption..|].
  edestruct OpenFrames_sealed as (o' & Ho' & _); [exact Hrok|exact Hpair|exact Hok|exact Hs0|].
  eauto.
Qed.

(** Frames keep their place. After opening the first [i] frames of a stream, the
    client refuses any frame around the ciphertext of another position: a replayed,
    dropped-over or reordered frame does not open, and the opener does not move. *)
Theorem frame_out_of_place `{Jcs} `{HpkeLaws} p priv pub psk u rnd rs frames outs rs' ro i j out r roi f e eo :
  keypair priv pub -> Forall (fun s => utf8_str s = true) u ->
  Forall (fun f => map_ok f.1.1) frames ->
  newResponseSealer p pub psk u rnd = Ok rs -> SealFrames rs frames = Ok (outs, rs') ->
  newResponseOpener p priv (compact <$> hd ∅ outs) psk = Ok ro ->
  OpenFrames ro (map (fmap compact) (take i outs)) = (Ok r, roi) ->
  outs !! j = Some out -> i <> j -> (i <= length outs)%nat ->
  Response_E2EE (compact <$> out) = Ok eo -> Response_E2EE f = Ok e ->
  unb64 (r_Ciphertext e) = unb64 (r_Ciphertext eo) ->
  exists err, OpenFrame roi f = (Err err, roi).
Proof.
  intros Hkey Hu Hok Hn Hs Hro Hopen Hj Hij Hi Heo He Hct.
  destruct (newResponseSealer_ok _ _ _ _ _ _ Hn) as (s & enc & _ & _ & Hrs & Hub & _).
  assert (sealer_ok rs /\ rs_profile rs = p) as [Hrok Hp]
    by (rewrite Hrs; unfold sealer_ok; split_and!; [done|done|done|apply b64_safe_utf8|done]).
  destruct (SealFrames_at _ _ _ _ _ _ Hrok Hok Hs Hj)
    as (outsj & rsj & Hsj & Hjl & e1 & pt & aad & ct & s' & He1 & Hct1 & Hseal).
  assert (e1 = eo) as -> by congruence.
  pose proof (SealFrames_length _ _ _ _ Hs) as Hlen.
  assert (exists outsi rsi outs2, SealFrames rs (take i frames) = Ok (outsi, rsi) /\
    outs = outsi ++ outs2 /\ length outsi = i) as (outsi & rsi & outs2 & Hsi & -> & Hli).
  { rewrite <-(take_drop i frames) in Hs. apply SealFrames_app in Hs as (oi & ri & o2 & E & _ & -> & El).
    exists oi, ri, o2. split_and!; [done|done|]. rewrite El, length_take. lia. }
  rewrite <-Hli, take_app_length in Hopen.
  assert (exists o, ro = MkResponseOpener o p /\ paired (rs_sealer rs) o) as (o & -> & Hpair).
  { destruct frames as [|[[frame sf] final] l]; [by rewrite lookup_nil in Hj || destruct (outsi ++ outs2)|].
    cbn [SealFrames] in Hs. inv_ok. destruct x as [out' rs1]. inv_ok. destruct x as [outs1 rs2]. inv_ok.
    simplify_eq. match goal with H : _ :: _ = outsi ++ outs2 |- _ => rewrite <-H in Hro end.
    inversion Hok as [|? ? Hfr _]; subst. cbn [hd] in Hro.
    edestruct newResponseOpener_first as (o & Ho & Hpair); [eassumption..|]. exists o. split; [congruence|done]. }
  edestruct OpenFrames_sealed as (o' & Ho' & Hpair');
    [exact Hrok|exact Hpair|by apply Forall_take|exact Hsi|].
  rewrite Hp in Ho'. rewrite Ho' in Hopen. simplify_eq.
  eapply OpenFrame_refuses; [exact He|by rewrite Hct|exact Hpair'|exact Hseal|].
  assert (length outsi < j \/ j < length outsi)%nat as [Hl|Hl] by lia.
  - left. eapply (SealFrames_take_later rs frames (length outsi) j); [exact Hrok|exact Hl|lia|done|done].
  - right. eapply (SealFrames_take_later rs frames j (length outsi)); [exact Hrok|exact Hl|lia|exact Hsj|exact Hsi].
Qed.

(** ** What an accepted frame guarantees *)

Section sound.
Context `{Jcs} `{HpkeLib}.

Lemma checkFrame_ok p frame e ct aad :
  checkFrame p frame = Ok (e, ct, aad) ->
  exists s, profiles !! p = Some s /\ Response_E2EE frame = Ok e /\
    (forall f, f ∈ bound_names s -> f ∉ r_UnboundFields e) /\ frame_ok s frame (r_SealedFields e) /\
    (r_Final e = true -> validateResponseCleartextFor p frame = Ok tt) /\
    unb64 (r_Ciphertext e) = Some ct /\ aadFromEnvelope frame = Ok aad.
Proof.
  unfold checkFrame. intros Hc. inv_ok. simplify_eq.
  match goal with H : validateResponseUnboundFieldsFor _ _ = _ |- _ =>
    apply validateResponseUnboundFieldsFor_ok in H as (s1 & Hs1 & ?) end.
  match goal with H : validateResponseSealedFieldsForFrame _ _ _ = _ |- _ =>
    apply validateResponseSealedFieldsForFrame_ok in H as (s2 & Hs2 & ?) end.
  simplify_eq. exists s2. split_and!; try done. intros Hf. by rewrite Hf in *.
Qed.

Lemma OpenFrame_ok ro frame out ro' :
  OpenFrame ro frame = (Ok out, ro') ->
  exists e ct aad pt obj, checkFrame (ro_profile ro) frame = Ok (e, ct, aad) /\
    Opener_Open (ro_opener ro) ct aad = Ok (pt, ro_opener ro') /\ ro_profile ro' = ro_profile ro /\
    (unmarshal unmarshal_map pt = Ok obj /\ sameKeys (nil_map obj) (r_SealedFields e) = true /\
     nil_map obj !! e2eeKey = None /\
     (forall k, is_Some (nil_map obj !! k) -> delete e2eeKey frame !! k = None) /\
     out = nil_map obj ∪ delete e2eeKey frame).
Proof.
  unfold OpenFrame. destruct (checkFrame _ _) as [[[e ct] aad]|] eqn:Hc; [|done].
  destruct (Opener_Open _ _ _) as [[pt o']|] eqn:Ho; [|done]. intros [= Hr <-]. cbn.
  unfold restoreFrame in Hr. inv_ok. bool_hyps. apply mergeSealed_map in Hr. eauto 20.
Qed.

Lemma readLocators_agree frame out k locs found :
  (forall loc, loc ∈ locs -> out !! cn_field loc = frame !! cn_field loc) ->
  readLocators out k locs found = readLocators frame k locs found.
Proof.
  revert found. induction locs as [|loc locs IH]; intros found Hl; [done|]. cbn [readLocators].
  assert (locate out loc = locate frame loc) as -> by (unfold locate; by rewrite Hl by constructor).
  assert (forall fd, readLocators out k locs fd = readLocators frame k locs fd) as IH'
    by (intros; apply IH; intros; apply Hl; by constructor).
  destruct (locate frame loc) as [[v|]|]; cbn [mbind result_bind]; [|apply IH'|done].
  destruct (parseCleartextNumber k v); cbn; [apply IH'|done].
Qed.

Lemma validateResponseCleartextFor_agree p s frame out :
  profiles !! p = Some s ->
  (forall q loc, q ∈ ps_required s -> loc ∈ cq_locators q -> out !! cn_field loc = frame !! cn_field loc) ->
  validateResponseCleartextFor p out = validateResponseCleartextFor p frame.
Proof.
  intros Hs Hl. unfold validateResponseCleartextFor. rewrite (proj2 (spec_ok _ _) Hs).
  cbn [mbind result_bind]. revert Hl. generalize (ps_required s) as l.
  induction l as [|q l IH]; intros Hl; [done|]. cbn [each].
  rewrite IH by (intros; eapply Hl; [by constructor|done]). unfold validateCleartextQuantity.
  rewrite (readLocators_agree frame) by (intros; eapply Hl; [by constructor|done]). done.
Qed.
End sound.

(** What a client may rely on in a frame it opened: [obj] is what was decrypted. *)
Record conformant (p : Profile) (s : profileSpec) (frame out obj : Response) (e : ResponseE2EE)
  : Prop := Conformant {
  co_spec : profiles !! p = Some s;
  co_meta : Response_E2EE frame = Ok e;
  co_declared : dom obj = toSet (r_SealedFields e);
  co_out : out = obj ∪ delete e2eeKey frame /\ obj ##ₘ delete e2eeKey frame /\ out !! e2eeKey = None;
  co_billing : obj !! "usage" = None /\ obj !! "model" = None;
  co_bound : forall f, f ∈ bound_names s -> f ∉ r_UnboundFields e;
  co_payload :
    match ps_responseFrames s with
    | None => forall pf, pf ∈ ps_responsePayload s ->
        frame !! pf_name pf = None /\ (pf_optional pf = false -> is_Some (obj !! pf_name pf))
    | Some rule => exists kind sh, shapeOf rule frame = Ok (kind, sh) /\
        (fs_content sh <> "" -> is_Some (obj !! fs_content sh)) /\
        (fs_content sh = "" -> obj = ∅) /\ (forall f, f ∈ contentFields rule -> frame !! f = None)
    end;
  co_kept : forall f, f ∈ ps_bound s -> out !! f = frame !! f;
  co_final : r_Final e = true -> validateResponseCleartextFor p out = Ok tt
}.

Lemma checkFrame_conformant `{Jcs} p frame e ct aad obj :
  checkFrame p frame = Ok (e, ct, aad) -> sameKeys obj (r_SealedFields e) = true ->
  obj !! e2eeKey = None -> (forall k, is_Some (obj !! k) -> delete e2eeKey frame !! k = None) ->
  exists s, conformant p s frame (obj ∪ delete e2eeKey frame) obj e.
Proof.
  intros Hc Hkeys Hob Hfresh.
  destruct (checkFrame_ok _ _ _ _ _ Hc) as (s & Hs & He & Hub & [Hp Hq Hb Hn Hsh] & Hfin & _ & _).
  pose proof Hn as (Hnd & _ & Hre & Hcl).
  apply (sameKeys_dom _ _ Hnd) in Hkeys as Hdom.
  assert (forall f, f ∈ r_SealedFields e <-> is_Some (obj !! f)) as Hin
    by (intros f; rewrite <-elem_of_dom, Hdom; symmetry; apply elem_of_toSet).
  assert (forall f, (f ∉ r_SealedFields e) -> obj !! f = None) as Hno
    by (intros f Hf; apply eq_None_not_Some; by rewrite <-Hin).
  assert (forall f, f ∈ response_names s -> (is_Some (frame !! f) -> f ∈ r_SealedFields e) ->
    frame !! f = None) as Hclear.
  { intros f Hf Hi. assert (f <> e2eeKey) by (by eapply response_name_not).
    apply eq_None_not_Some. intros Hso. assert (is_Some (obj !! f)) as Ho by (apply Hin; auto).
    apply Hfresh in Ho. rewrite lookup_delete_ne in Ho by done. rewrite Ho in Hso. by destruct Hso. }
  assert (forall f, f ∈ bound_names s -> (f ∉ r_SealedFields e) ->
    (obj ∪ delete e2eeKey frame) !! f = frame !! f) as Hkept.
  { intros f Hf Hns. rewrite lookup_union, Hno, lookup_delete_ne by (done || by eapply not_eq_sym, bound_name_not).
    by destruct (frame !! f). }
  exists s. split; [done|done|done| | |done| | |].
  - split_and!; [done| |by rewrite lookup_union, Hob, lookup_delete_eq].
    apply map_disjoint_spec. intros k v w Hv1 Hv2. rewrite Hfresh in Hv2; eauto; done.
  - split; apply Hno; intros Hu%Hcl; apply Hu; repeat constructor.
  - unfold shape_ok in Hsh. destruct (ps_responseFrames s) as [rule|] eqn:Er.
    + destruct Hsh as (_ & kind & sh & Hk & Hemp & Hreq & Hcon). exists kind, sh. split_and!; [done| | |].
      * intros Hc0. apply Hin, Hreq. unfold sealedFieldsFor. rewrite (proj2 (String.eqb_neq _ _)) by done.
        constructor.
      * intros Hc0. assert (rule_shapes rule !! kind = Some sh) as Hsh
          by (unfold shapeOf in Hk; inv_ok; by simplify_eq).
        assert (r_SealedFields e = []) as E.
        { apply Hemp. unfold sealedFieldsFor. rewrite Hc0.
          by rewrite (shape_anchored _ s rule kind sh Hs Er Hsh Hc0). }
        apply map_eq. intros k. rewrite lookup_empty. apply Hno. rewrite E. by intros ?%elem_of_nil.
      * intros f Hf. apply Hclear; [|by apply Hcon]. unfold response_names. rewrite Er, !elem_of_app. auto.
    + destruct Hsh as (_ & Hpl). intros pf Hpf. split.
      * apply Hclear; [|by intros; apply Hpl]. unfold response_names. rewrite elem_of_app. left.
        by apply (list_elem_of_fmap_2 pf_name).
      * intros Hopt. apply Hin, Hpl; [done|]. by rewrite Hopt.
  - intros f Hf. apply Hkept; [|by apply Hb]. unfold bound_names. rewrite !elem_of_app. auto.
  - intros Hf. erewrite validateResponseCleartextFor_agree; [by apply Hfin|done|].
    intros q loc Hq' Hloc. apply Hkept; [|by eapply Hq]. unfold bound_names.
    rewrite !elem_of_app. do 4 right. apply list_elem_of_bind. exists q. split; [|done].
    by apply (list_elem_of_fmap_2 cn_field).
Qed.

(** What the client accepts is conformant. When [OpenFrame] returns a frame: the
    fields it decrypted are those the block declares, beside the cleartext ones;
    [usage] and [model] were cleartext; nothing billing or the checks key off was left
    unbound; under an untyped profile the payload was sealed, under a typed one the
    shape is known and no content field was in the clear; and a final frame states
    its quantities, in the returned frame too. What was decrypted is what the AEAD
    opened with the frame's own additional data. *)
Theorem OpenFrame_sound `{Jcs} `{HpkeLib} ro frame out ro' :
  OpenFrame ro frame = (Ok out, ro') ->
  exists s e ct aad pt obj, conformant (ro_profile ro) s frame out (nil_map obj) e /\
    unb64 (r_Ciphertext e) = Some ct /\ aadFromEnvelope frame = Ok aad /\
    Opener_Open (ro_opener ro) ct aad = Ok (pt, ro_opener ro') /\
    unmarshal unmarshal_map pt = Ok obj.
Proof.
  intros (e & ct & aad & pt & obj & Hc & Hop & _ & Hun & Hkeys & Hob & Hfresh & ->)%OpenFrame_ok.
  destruct (checkFrame_conformant _ _ _ _ _ _ Hc Hkeys Hob Hfresh) as [s Hco].
  destruct (checkFrame_ok _ _ _ _ _ Hc) as (_ & _ & _ & _ & _ & _ & Hct & Haad).
  exists s, e, ct, aad, pt, obj. done.
Qed.

(** ** Quantities *)

(** The message a locator points at. *)
Definition states (frame : Response) (loc : cleartextNumber) (v : json) : Prop :=
  (cn_key loc = "" /\ frame !! cn_field loc = Some v) \/
  (cn_key loc <> "" /\ exists l, frame !! cn_field loc = Some (JObj l) /\
     members_map l !! cn_key loc = Some v).

(** The amount a message states: a non-negative number of the right kind. *)
Definition amount (k : numberKind) (v : json) (x : f64) : Prop :=
  exists lit, v = JNum lit /\
  match k with
  | numberWhole => exists n, int64_of_lit lit = Some n /\ 0 <= n /\ x = f64_of_int n
  | numberFractional => f64_of_lit lit = Some x /\ f64_neg x = false
  end.

Lemma parseCleartextNumber_ok k v x : parseCleartextNumber k v = Ok x -> amount k v x.
Proof.
  unfold amount. destruct k; cbn; intros Hp; inv_ok; subst.
  - destruct v as [| |lit| | |]; try done; cbn in *; inv_ok; simplify_eq.
    exists lit. split; [done|]. eexists. split_and!; [done|lia|done].
  - destruct v as [| |lit| | |]; try done; cbn in *; inv_ok; simplify_eq. eauto.
Qed.

Lemma f64_eqb_unsigned x y : f64_eqb x y = true -> unsigned_zero x = unsigned_zero y.
Proof.
  unfold f64_eqb, SpecFloat.SFeqb, SpecFloat.SFcompare.
  destruct x as [sx|[]| |[] mx ex], y as [sy|[]| |[] my ey]; try done;
    destruct (Z.compare_spec ex ey) as [->| |]; try done;
    change (Pos.compare_cont Eq mx my) with (Pos.compare mx my);
    by destruct (Pos.compare_spec mx my) as [->| |].
Qed.

(** What reading the locators establishes. *)
Lemma locate_states frame loc v :
  locate frame loc = Ok (Some v) <-> states frame loc v.
Proof.
  unfold locate, states. destruct (frame !! cn_field loc) as [raw|]; [|naive_solver].
  destruct (String.eqb_spec (cn_key loc) "") as [->|Hk]; [naive_solver|].
  split.
  - destruct raw as [| | | | |l]; try done. cbn. intros [= E]. right. eauto.
  - by intros [[? _]|(_ & l & [= ->] & E)]; [|cbn; rewrite E].
Qed.

Lemma readLocators_ok frame k locs found out :
  readLocators frame k locs found = Ok out ->
  (forall x, x ∈ out -> x ∈ found \/ exists loc v, loc ∈ locs /\ states frame loc v) /\
  (forall x, x ∈ found -> x ∈ out) /\
  (forall loc v, loc ∈ locs -> states frame loc v -> exists x, x ∈ out /\ amount k v x).
Proof.
  revert found. induction locs as [|loc locs IH]; intros found Hr; cbn [readLocators] in Hr.
  - inv_ok. subst. split_and!; [auto|done|by intros ? ? ?%elem_of_nil].
  - inv_ok. setoid_rewrite elem_of_cons. destruct x as [w|].
    + inv_ok. apply IH in Hr as (H1 & H2 & H3). setoid_rewrite elem_of_app in H1.
      setoid_rewrite elem_of_app in H2. setoid_rewrite list_elem_of_singleton in H1.
      setoid_rewrite list_elem_of_singleton in H2.
      match goal with H : locate _ _ = _ |- _ => apply locate_states in H as Hst end.
      match goal with H : parseCleartextNumber _ _ = _ |- _ => apply parseCleartextNumber_ok in H as Hx end.
      split_and!; [|naive_solver|].
      * intros y Hy. destruct (H1 y Hy) as [[?| ->]|(loc' & v & ? & ?)]; [by left|right; eauto|right; eauto].
      * intros loc' v [->|Hl] Hv; [|by apply (H3 loc')]. apply locate_states in Hv.
        assert (w = v) as -> by congruence. exists x. split; [|done]. apply H2. by right.
    + apply IH in Hr as (H1 & H2 & H3). split_and!; [|done|].
      * intros y Hy. destruct (H1 y Hy) as [?|(loc' & v & ? & ?)]; [by left|right; eauto].
      * intros loc' v [->|Hl] Hv; [|by apply (H3 loc')]. apply locate_states in Hv. congruence.
Qed.

(** A billed quantity is stated, and stated once. A frame [validateCleartextQuantity]
    accepts states the quantity at one of its locators at least, and every locator that
    states it states a non-negative number of its kind, all of them the same one: two
    readers that open different locators bill the same amount. *)
Theorem quantity_unambiguous q frame :
  validateCleartextQuantity q frame = Ok tt ->
  exists a, (exists loc v, loc ∈ cq_locators q /\ states frame loc v) /\
    forall loc v, loc ∈ cq_locators q -> states frame loc v ->
    exists x, amount (cq_kind q) v x /\ unsigned_zero x = a.
Proof.
  unfold validateCleartextQuantity. intros Hv. inv_ok.
  match goal with H : readLocators _ _ _ _ = _ |- _ => apply readLocators_ok in H as (H1 & _ & H3) end.
  destruct x as [|x rest]; [done|]. rewrite each_refuse_ok in Hv. exists (unsigned_zero x). split.
  - destruct (H1 x) as [?%elem_of_nil|]; [constructor|done|done].
  - intros loc v Hl Hs. destruct (H3 loc v Hl Hs) as (y & Hy & Ha). exists y. split; [done|].
    apply elem_of_cons in Hy as [->|Hy]; [done|]. apply f64_eqb_unsigned.
    specialize (Hv y Hy). by apply negb_false_iff in Hv.
Qed.

(** Tamper evidence of a frame. When the client opens, at its place in the stream,
    any frame around the ciphertext the enclave sealed, that frame carries, as JSON
    data, the enclave's value of every field left bound (present or absent) and the
    enclave's block, and the sealed fields come out as the enclave's. *)
Theorem frame_tamper_evident `{JcsLaws} `{HpkeLaws} rs o frame sf final out rs' f e eo r ro' :
  sealer_ok rs -> paired (rs_sealer rs) o -> map_ok frame ->
  SealFrame rs frame sf final = Ok (out, rs') -> map_ok f ->
  Response_E2EE (compact <$> out) = Ok eo -> Response_E2EE f = Ok e ->
  unb64 (r_Ciphertext e) = unb64 (r_Ciphertext eo) ->
  OpenFrame (MkResponseOpener o (rs_profile rs)) f = (Ok r, ro') ->
  (forall k, k <> e2eeKey -> (k ∉ rs_unbound rs) -> option_Forall2 jequiv (f !! k) ((compact <$> out) !! k)) /\
  (exists raw m, f !! e2eeKey = Some raw /\ unmarshal_map raw = Ok (Some m) /\
     map_jequiv (delete "ciphertext" m) (ResponseE2EE_members eo)) /\
  (forall k, k ∈ r_SealedFields eo -> r !! k = compact <$> frame !! k).
Proof.
  intros (Hnc & Hub & Hu & Hen) Hpair Hok Hs Hfok Heo He Hct Hopen.
  destruct (SealFrame_sealing _ _ _ _ _ _ Hs) as [sealed Hfs].
  destruct (frame_sealing_wire _ _ _ _ _ _ Hfs Hok Hu Hen)
    as (Hook & _ & e1 & aad & ct & sealer' & Hblk & He1 & Hee & Haad & Hsl & _).
  assert (e1 = eo) as -> by congruence.
  destruct (OpenFrame_ok _ _ _ _ Hopen) as (e2 & ct2 & aad2 & pt & obj & Hck & Hop & _ & Hun & _ & _ & _ & ->).
  destruct (checkFrame_ok _ _ _ _ _ Hck) as (_ & _ & He2 & _ & _ & _ & Hct2 & Haad2).
  assert (e2 = e) as -> by congruence.
  assert (unb64 (r_Ciphertext eo) = Some ct) as Hcteo by (rewrite Hee; apply unb64_b64).
  assert (ct2 = ct) as -> by congruence. cbn [ro_opener] in Hop.
  destruct (Opener_Open_authentic _ _ _ _ _ _ _ _ _ Hpair Hsl Hop) as [-> ->].
  rewrite unmarshal_marshal_map in Hun by (by apply map_ok_filter). injection Hun as <-. cbn [nil_map].
  assert (map_ok (compact <$> out)) as Hook'.
  { intros k v. rewrite lookup_fmap. destruct (out !! k) as [w|] eqn:E; [|done]. intros [= <-].
    destruct (Hook k w E) as [? Hr]. split; [done|]. unfold raw_ok in *. rewrite jdepth_compact. bool_hyps.
    by rewrite wf_compact. }
  destruct (aadFromEnvelope_binds (compact <$> out) f (json_of_ResponseE2EE eo) (ResponseE2EE_map eo) aad)
    as (raw & m & unb & Hr & Hm & Hj & Hunb & Hbound); [done|done|done|apply unmarshal_ResponseE2EE|done|done|].
  assert (r_UnboundFields eo = rs_unbound rs /\ r_SealedFields eo = sealed) as [Eu Es] by (by rewrite Hee).
  rewrite unbound_of_ResponseE2EE, Eu in Hunb by (by rewrite Eu). injection Hunb as <-.
  rewrite ResponseE2EE_map_ciphertext in Hj.
  split_and!; [done|by eauto|]. rewrite Es. intros k Hk.
  rewrite lookup_union, lookup_fmap, sealed_part_lookup, decide_True by done.
  destruct Hfs as [_ _ _ Hpres _ _]. destruct (Hpres k Hk) as [v ->]. cbn. by destruct (delete e2eeKey f !! k).
Qed.

(** ** Witnesses: a typed stream and a quantity, with [Ideal] as the library *)

Module ResponseWitness.
Import EnvelopeWitness.

Definition start : Response :=
  <["type" := str "message_start"]> {[ "message" := obj [("content", JArr []); ("usage", obj [])] ]}.
Definition delta : Response :=
  <["type" := str "content_block_delta"]> {[ "delta" := obj [("text", str "Hi <b>")] ]}.
Definition stop : Response := {[ "type" := str "message_stop" ]}.
Definition frames : list (Response * option (list string) * bool) :=
  [(start, None, false); (delta, None, false); (stop, None, true)].

Definition sealer : wresult ResponseSealer := newResponseSealer ProfileAnthropic eph None ["model"] seed.
Definition rs0 : ResponseSealer :=
  match sealer with Ok rs => rs | Err _ => MkResponseSealer (Ideal.Ctx [] 0) "" true [] "" false end.
Definition outs_of (r : wresult (list Response * ResponseSealer)) : list Response :=
  match r with Ok (outs, _) => outs | Err _ => [] end.
Definition outs : list Response := outs_of (SealFrames rs0 frames).
Definition rs3 : ResponseSealer :=
  match SealFrames rs0 frames with Ok (_, rs) => rs | Err _ => rs0 end.
Definition ro0 : ResponseOpener :=
  match newResponseOpener ProfileAnthropic eph (compact <$> hd ∅ outs) None with
  | Ok ro => ro | Err _ => MkResponseOpener (Ideal.Ctx [] 0) ""
  end.
Definition wire : list Response := map (fmap compact) outs.
Definition ro_after (n : nat) : ResponseOpener := (OpenFrames ro0 (take n wire)).2.

Lemma keypair_eph : keypair eph eph.
Proof. by split. Qed.
Lemma sealer_rs0 : newResponseSealer ProfileAnthropic eph None ["model"] seed = Ok rs0.
Proof. vm_cast_no_check (eq_refl sealer). Qed.
Lemma frames_ok : Forall (fun f => map_ok f.1.1) frames.
Proof. refine (bool_decide_eq_true_1 _ _). vm_compute. reflexivity. Qed.
Lemma seal_frames : SealFrames rs0 frames = Ok (outs, rs3).
Proof. vm_cast_no_check (eq_refl (SealFrames rs0 frames)). Qed.
Lemma opener_ro0 : newResponseOpener ProfileAnthropic eph (compact <$> hd ∅ outs) None = Ok ro0.
Proof. vm_cast_no_check (eq_refl (newResponseOpener ProfileAnthropic eph (compact <$> hd ∅ outs) None)). Qed.

Lemma ok_model : Forall (fun s => utf8_str s = true) ["model"].
Proof. by repeat constructor. Qed.

(** The opener after the first frame, and the first frame again. *)
Definition ro1 : ResponseOpener := (OpenFrames ro0 (map (fmap compact) (take 1 outs))).2.
Lemma open_one : OpenFrames ro0 (map (fmap compact) (take 1 outs)) = (Ok [compact <$> start], ro1).
Proof. vm_cast_no_check (eq_refl (OpenFrames ro0 (map (fmap compact) (take 1 outs)))). Qed.
Definition frame0 : Response := hd ∅ outs.
Definition meta0 : ResponseE2EE :=
  match Response_E2EE (compact <$> frame0) with Ok e => e | Err _ => zeroResponseE2EE end.
Lemma frame0_out : outs !! 0%nat = Some frame0.
Proof. vm_cast_no_check (eq_refl (outs !! 0%nat)). Qed.
Lemma outs_length : length outs = 3%nat.
Proof. vm_cast_no_check (eq_refl 3%nat). Qed.
Lemma meta0_read : Response_E2EE (compact <$> frame0) = Ok meta0.
Proof. vm_cast_no_check (eq_refl (Response_E2EE (compact <$> frame0))). Qed.
Lemma open_start : OpenFrame ro0 (compact <$> frame0) = (Ok (compact <$> start), ro1).
Proof. vm_cast_no_check (eq_refl (OpenFrame ro0 (compact <$> frame0))). Qed.
Lemma frame0_ok : map_ok (compact <$> frame0).
Proof. refine (bool_decide_eq_true_1 _ _). vm_compute. reflexivity. Qed.
Lemma start_ok : map_ok start.
Proof. refine (bool_decide_eq_true_1 _ _). vm_compute. reflexivity. Qed.

Lemma ro0_spec : profiles !! ro_profile ro0 = Some specAnthropic.
Proof. vm_cast_no_check (eq_refl (Some specAnthropic)). Qed.

Definition rs1 : ResponseSealer :=
  match SealFrame rs0 start None false with Ok (_, rs) => rs | Err _ => rs0 end.
Lemma seal_start : SealFrame rs0 start None false = Ok (frame0, rs1).
Proof. vm_cast_no_check (eq_refl (SealFrame rs0 start None false)). Qed.
Lemma rs0_ok : sealer_ok rs0.
Proof. unfold sealer_ok. repeat split; try (vm_compute; reflexivity). exact ok_model. Qed.
Lemma rs0_paired : paired (rs_sealer rs0) (ro_opener ro0).
Proof. vm_cast_no_check (eq_refl (rs_sealer rs0)). Qed.

Definition seconds (a b : string) : Response :=
  <["usage" := obj [("seconds", JNum (bytes_of a))]]> {[ "duration" := JNum (bytes_of b) ]}.
Definition speech_quantity : cleartextQuantity :=
  CleartextQuantity [CleartextNumber fieldUsage fieldSeconds; CleartextNumber fieldDuration ""]
    numberFractional.
Example seconds_disagree :
  validateCleartextQuantity speech_quantity (seconds "3.5" "3.4") = Err EQuantityDisagree.
Proof. vm_compute. reflexivity. Qed.
End ResponseWitness.

Section witnesses.
Import EnvelopeWitness ResponseWitness.

Lemma stream_roundtrip_witness :
  exists ro ro', newResponseOpener ProfileAnthropic eph (compact <$> hd ∅ outs) None = Ok ro /\
    OpenFrames ro (map (fmap compact) outs) = (Ok [compact <$> start; compact <$> delta; compact <$> stop], ro').
Proof.
  exact (stream_roundtrip _ _ _ _ _ _ _ _ _ _ keypair_eph ok_model frames_ok ltac:(discriminate)
           sealer_rs0 seal_frames).
Defined.

(** The first frame, replayed after it was opened. *)
Lemma frame_out_of_place_witness :
  exists err, OpenFrame ro1 (compact <$> frame0) = (Err err, ro1).
Proof.
  apply (frame_out_of_place _ _ _ _ _ _ _ _ _ _ _ 1 0 _ _ _ _ _ _
    keypair_eph ok_model frames_ok sealer_rs0 seal_frames opener_ro0 open_one frame0_out
    ltac:(discriminate) ltac:(rewrite outs_length; repeat constructor) meta0_read meta0_read eq_refl).
Defined.

Lemma OpenFrame_sound_witness :
  exists kind sh, shapeOf anthropicFrames (compact <$> frame0) = Ok (kind, sh) /\
    forall f, f ∈ contentFields anthropicFrames -> (compact <$> frame0) !! f = None.
Proof.
  destruct (OpenFrame_sound _ _ _ _ open_start) as (s & e & ct & aad & pt & obj & Hco & _).
  pose proof (co_spec _ _ _ _ _ _ Hco) as Hs. rewrite ro0_spec in Hs. injection Hs as <-.
  destruct (co_payload _ _ _ _ _ _ Hco) as (kind & sh & Hk & _ & _ & Hc).
  exact (ex_intro _ kind (ex_intro _ sh (conj Hk Hc))).
Defined.

Lemma quantity_unambiguous_witness :
  exists a, (exists loc v, loc ∈ cq_locators speech_quantity /\ states (seconds "3.50" "35e-1") loc v) /\
    forall loc v, loc ∈ cq_locators speech_quantity -> states (seconds "3.50" "35e-1") loc v ->
    exists x, amount numberFractional v x /\ unsigned_zero x = a.
Proof. apply (quantity_unambiguous speech_quantity). vm_compute. reflexivity. Defined.

Lemma frame_tamper_evident_witness :
  option_Forall2 jequiv ((compact <$> frame0) !! "message") ((compact <$> frame0) !! "message").
Proof.
  apply (frame_tamper_evident _ _ _ _ _ _ _ _ _ _ _ _ rs0_ok rs0_paired start_ok seal_start frame0_ok
    meta0_read meta0_read eq_refl open_start);
    [discriminate|intros Hin; apply contains_spec in Hin; discriminate].
Defined.
End witnesses.
