(* ===== verification/RespBind.v ===== *)
(** * RespBind: the response binding ([protocol/wire/respbind.go])

    The client derives a secret from its ephemeral private key, seals it into the
    request as [_bind], and the enclave seals the response under it as a pre-shared
    key: only the enclave the request was sealed to can answer. [bind] values are
    byte strings; the nil binding ("the client did not ask") is [None].

    The theorems: the binding the enclave takes out of an opened request is the one
    the client derives, and the request it forwards is the client's; a bound
    response survives the trip; a response sealed without the binding, in base mode
    or under another key, is refused at its first frame. *)

From S2P Require Import Prelude GoBytes GoHash GoJson GoDecode GoJsonEq Profile Hpke Envelope Response.

Definition FeatureResponseBind : string := "resp-bind".
Definition ephPrivLen : nat := 32.

Definition ResponseBindApplies (profile : Profile) : bool :=
  match spec profile with Ok s => negb (requiresBind s) | Err _ => false end.

(** [hkdf.Key] over SHA-256 with an empty salt. *)
Definition DeriveResponseBind (ephPriv : PrivateKey) : wresult bytes :=
  _ ← refuse (negb (Nat.eqb (length ephPriv) ephPrivLen)) (EEphPrivLen (length ephPriv));
  Ok (hkdf_key ephPriv [] (bytes_of RespBindInfo) respBindLen).

Definition AttachResponseBind (profile : Profile) (req : Request) (ephPriv : PrivateKey)
    : wresult Request :=
  _ ← spec profile;
  _ ← refuse (has_key req fieldBind) EBindPresent;
  bind ← DeriveResponseBind ephPriv;
  Ok (<[fieldBind := jstr (b64 bind)]> req).

(** [decodeBind] of a message; [None] is the nil one. *)
Definition decodeBind (raw : option json) : wresult bytes :=
  raw ← of_option raw EBindNil;
  s ← map_err (fun _ => EBindNotString) (unmarshal_string raw);
  b ← of_option (b64_decode true (bytes_of s)) EBindNotB64;
  _ ← refuse (negb (Nat.eqb (length b) respBindLen)) (EBindLen (length b));
  Ok b.

Definition TakeResponseBind (profile : Profile) (opened : Request)
    : wresult (option bytes * Request) :=
  s ← spec profile;
  match opened !! fieldBind with
  | None =>
      _ ← refuse (requiresBind s) EBindMissing;
      Ok (None, opened)
  | Some raw =>
      bind ← decodeBind (Some raw);
      Ok (Some bind, delete fieldBind opened)
  end.

Section bound.
Context `{Jcs} `{HpkeLib}.

Definition NewBoundResponseSealerFor (profile : Profile) (clientEphPub : PublicKey) (bind : bytes)
    (unboundFields : list string) (rnd : bytes) : wresult ResponseSealer :=
  _ ← refuse (negb (Nat.eqb (length bind) respBindLen)) (EBindLen (length bind));
  newResponseSealer profile clientEphPub (Some bind) unboundFields rnd.

Definition SealBoundResponseFor (profile : Profile) (clientEphPub : PublicKey) (bind : bytes)
    (resp : Response) (sealedFields : option (list string)) (unboundFields : list string) (rnd : bytes)
    : wresult Response :=
  rs ← NewBoundResponseSealerFor profile clientEphPub bind unboundFields rnd;
  '(out, _) ← SealFrame rs resp sealedFields true;
  Ok out.

Definition NewBoundResponseOpenerFor (profile : Profile) (clientEphPriv : PrivateKey)
    (firstFrame : Response) : wresult ResponseOpener :=
  bind ← DeriveResponseBind clientEphPriv;
  newResponseOpener profile clientEphPriv firstFrame (Some bind).

Definition OpenBoundResponseFor (profile : Profile) (clientEphPriv : PrivateKey) (resp : Response)
    : wresult Response :=
  e2ee ← Response_E2EE resp;
  _ ← refuse (negb (r_Final e2ee)) ENotFinal;
  ro ← NewBoundResponseOpenerFor profile clientEphPriv resp;
  (OpenFrame ro resp).1.
End bound.

(** ** The binding itself *)

Lemma DeriveResponseBind_ok priv b :
  DeriveResponseBind priv = Ok b <->
  length priv = 32%nat /\ b = hkdf_key priv [] (bytes_of RespBindInfo) respBindLen.
Proof.
  unfold DeriveResponseBind. rewrite bind_tt, refuse_ok, negb_false_iff, Nat.eqb_eq.
  split; [intros [? E]; split; [done|congruence]|by intros [? ->]].
Qed.

Lemma DeriveResponseBind_length priv b : DeriveResponseBind priv = Ok b -> length b = 32%nat.
Proof. intros [_ ->]%DeriveResponseBind_ok. apply hkdf_key_length. Qed.

Lemma decodeBind_jstr b : length b = 32%nat -> decodeBind (Some (jstr (b64 b))) = Ok b.
Proof.
  intros Hl. unfold decodeBind, unmarshal_string. cbn [of_option mbind result_bind].
  rewrite set_string_jstr by apply b64_safe_utf8. cbn [map_err mbind result_bind].
  unfold b64. rewrite bytes_of_str_of, b64_decode_encode. cbn [of_option mbind result_bind].
  by rewrite Hl.
Qed.

Lemma AttachResponseBind_ok p req priv req' :
  AttachResponseBind p req priv = Ok req' ->
  exists s b, profiles !! p = Some s /\ req !! fieldBind = None /\ DeriveResponseBind priv = Ok b /\
    req' = <[fieldBind := jstr (b64 b)]> req.
Proof.
  unfold AttachResponseBind. intros Ha. inv_ok. bool_hyps.
  match goal with H : spec _ = _ |- _ => apply spec_ok in H end. eauto 10.
Qed.

Lemma TakeResponseBind_attached p req priv req' b :
  AttachResponseBind p req priv = Ok req' -> DeriveResponseBind priv = Ok b ->
  TakeResponseBind p (compact <$> req') = Ok (Some b, compact <$> req).
Proof.
  intros (s & b' & Hs & Hn & Hb & ->)%AttachResponseBind_ok Hb'.
  assert (b' = b) as -> by congruence. unfold TakeResponseBind.
  rewrite (proj2 (spec_ok _ _) Hs). cbn [mbind result_bind].
  rewrite fmap_insert, lookup_insert_eq, compact_jstr.
  rewrite decodeBind_jstr by by eapply DeriveResponseBind_length. cbn [mbind result_bind].
  rewrite delete_insert_id; [done|]. by rewrite lookup_fmap, Hn.
Qed.

Lemma AttachResponseBind_map_ok p req priv req' :
  AttachResponseBind p req priv = Ok req' -> map_ok req -> map_ok req'.
Proof.
  intros (s & b & _ & _ & _ & ->)%AttachResponseBind_ok Hok. apply map_Forall_insert_2; [|done].
  split; [done|]. unfold raw_ok, jstr. cbn [wf jdepth]. by rewrite str_ok_quote.
Qed.

(** Both ends hold the same binding. The request a client binds to an ephemeral
    key, sealed, sent and opened, gives the enclave exactly the value the client
    derives from that key, and the request to forward is the one the client had. *)
Theorem bind_agreed `{Jcs} `{HpkeLaws} profile sk pk req eph_priv req' sf signerAddr eph unbound rnd env b :
  keypair sk pk -> map_ok req -> Forall (fun s => utf8_str s = true) unbound ->
  AttachResponseBind profile req eph_priv = Ok req' -> DeriveResponseBind eph_priv = Ok b ->
  SealRequestFor profile pk req' sf signerAddr eph unbound rnd = Ok env ->
  (opened ← OpenRequestFor profile sk (compact <$> env); TakeResponseBind profile opened)
  = Ok (Some b, compact <$> req).
Proof.
  intros Hkey Hok Hu Ha Hb Hs.
  rewrite (OpenRequestFor_wire _ _ _ _ _ _ _ _ _ _ Hkey (AttachResponseBind_map_ok _ _ _ _ Ha Hok) Hu Hs).
  by eapply TakeResponseBind_attached.
Qed.

(** What the client finds in a single-frame response, in either mode. *)
Lemma response_parts `{Jcs} `{HpkeLaws} p priv pub psk resp sf u rnd rs out rs' :
  keypair priv pub -> map_ok resp -> Forall (fun s => utf8_str s = true) u ->
  newResponseSealer p pub psk u rnd = Ok rs -> SealFrame rs resp sf true = Ok (out, rs') ->
  exists ro e sealed s, newResponseOpener p priv (compact <$> out) psk = Ok ro /\
    (OpenFrame ro (compact <$> out)).1 = Ok (compact <$> resp) /\
    Response_E2EE (compact <$> out) = Ok e /\ r_Final e = true /\ r_UnboundFields e = u /\
    sealed_view sealed resp (compact <$> out) /\ profiles !! p = Some s /\ frame_ok s resp sealed /\
    map_ok out.
Proof.
  intros Hkey Hok Hu Hn Hsf.
  destruct (newResponseSealer_ok _ _ _ _ _ _ Hn) as (s & enc & _ & _ & Hrs & Hub & _).
  assert (sealer_ok rs /\ rs_profile rs = p /\ rs_unbound rs = u) as (Hrok & Hp & Hru)
    by (rewrite Hrs; unfold sealer_ok; split_and!; [done|done|done|apply b64_safe_utf8|done|done]).
  destruct (newResponseOpener_first _ _ _ _ _ _ _ _ _ _ _ _ Hkey Hu Hok Hn Hsf) as (o & Ho & Hpair).
  destruct (SealFrame_sealing _ _ _ _ _ _ Hsf) as [sealed Hfs].
  destruct Hrok as (Hnc & Hub' & Hu' & Hen).
  destruct (frame_sealing_wire _ _ _ _ _ _ Hfs Hok Hu' Hen)
    as (Hout & Hv & e & aad & ct & sealer' & _ & He & Hee & _).
  destruct Hfs as [Hvalid _ _ _ _ _]. unfold validateSealedFields in Hvalid. rewrite Hnc, Hp in Hvalid.
  apply validateResponseSealedFieldsForFrame_ok in Hvalid as (s' & Hs' & Hfo).
  exists (MkResponseOpener o p), e, sealed, s'. split_and!; try done; try by rewrite Hee.
  rewrite <-Hp. by edestruct OpenFrame_sealed as (o' & -> & _); [exact Hsf|exact Hpair|done..|].
Qed.

(** What the client finds in a bound response. *)
Lemma bound_response_parts `{Jcs} `{HpkeLaws} p priv pub b resp sf u rnd out :
  keypair priv pub -> map_ok resp -> Forall (fun s => utf8_str s = true) u ->
  DeriveResponseBind priv = Ok b -> SealBoundResponseFor p pub b resp sf u rnd = Ok out ->
  OpenBoundResponseFor p priv (compact <$> out) = Ok (compact <$> resp) /\
  exists e sealed s, Response_E2EE (compact <$> out) = Ok e /\ r_UnboundFields e = u /\
    sealed_view sealed resp (compact <$> out) /\ profiles !! p = Some s /\ frame_ok s resp sealed /\
    map_ok out.
Proof.
  intros Hkey Hok Hu Hb Hs. unfold SealBoundResponseFor, NewBoundResponseSealerFor in Hs.
  inv_ok. destruct x0 as [out' rs']. inv_ok. subst out'.
  edestruct response_parts as (ro & e & sealed & s & Hro & Ho & He & Hfin & Hue & Hv & Hsp & Hfo & Hout);
    [exact Hkey|exact Hok|exact Hu|eassumption|eassumption|].
  split; [|by exists e, sealed, s].
  unfold OpenBoundResponseFor, NewBoundResponseOpenerFor. rewrite He, Hb. cbn [mbind result_bind].
  rewrite Hfin. cbn [negb refuse mbind result_bind]. rewrite Hro. done.
Qed.

(** The same of a response in base mode. *)
Lemma base_response_parts `{Jcs} `{HpkeLaws} p priv pub resp sf u rnd out :
  keypair priv pub -> map_ok resp -> Forall (fun s => utf8_str s = true) u ->
  SealResponseFor p pub resp sf u rnd = Ok out ->
  OpenResponseFor p priv (compact <$> out) = Ok (compact <$> resp) /\ map_ok out.
Proof.
  intros Hkey Hok Hu Hs. unfold SealResponseFor, NewResponseSealerFor in Hs.
  inv_ok. destruct x0 as [out' rs']. inv_ok. subst out'.
  edestruct response_parts as (ro & e & sealed & s & Hro & Ho & He & Hfin & _ & _ & _ & _ & Hout);
    [exact Hkey|exact Hok|exact Hu|eassumption|eassumption|].
  split; [|done]. unfold OpenResponseFor, NewResponseOpenerFor. rewrite He. cbn [mbind result_bind].
  rewrite Hfin. cbn [negb refuse mbind result_bind]. rewrite Hro. done.
Qed.

(** A bound response survives the trip. *)
Theorem bound_response_roundtrip `{Jcs} `{HpkeLaws} p priv pub b resp sf u rnd out :
  keypair priv pub -> map_ok resp -> Forall (fun s => utf8_str s = true) u ->
  DeriveResponseBind priv = Ok b -> SealBoundResponseFor p pub b resp sf u rnd = Ok out ->
  OpenBoundResponseFor p priv (compact <$> out) = Ok (compact <$> resp).
Proof. intros. by eapply bound_response_parts. Qed.

(** Nobody else can answer. A first frame whose ciphertext was sealed in a context
    set up with anything but the client's binding (base mode included), towards any
    key, is refused: [OpenBoundResponseFor] returns an error before anything is
    delivered. *)
Theorem unbound_forgery_refused `{Jcs} `{HpkeLaws} p priv b frame e enc ct k psk rnd s pt aad s1 :
  DeriveResponseBind priv = Ok b -> Response_E2EE frame = Ok e ->
  unb64 (r_Enc e) = Some enc -> unb64 (r_Ciphertext e) = Some ct ->
  sender_setup k (bytes_of RespInfo) psk rnd = Some (enc, s) ->
  ctx_seal s pt aad = Some (ct, s1) -> psk <> Some (b, bytes_of RespBindPSKID) ->
  exists err, OpenBoundResponseFor p priv frame = Err err.
Proof.
  intros Hb He Henc Hct Hset Hseal Hpsk. destruct (OpenBoundResponseFor p priv frame) as [out|err] eqn:Ho;
    [exfalso|by exists err].
  unfold OpenBoundResponseFor, NewBoundResponseOpenerFor in Ho. rewrite He, Hb in Ho. inv_ok.
  repeat match goal with H : e = ?x |- _ => subst x | H : b = ?x |- _ => subst x end.
  match goal with H : newResponseOpener _ _ _ _ = Ok ?r |- _ => rename H into Hn; rename r into ro end.
  destruct (OpenFrame ro frame) as [r ro'] eqn:Hof. cbn in Ho. subst r.
  destruct (OpenFrame_ok _ _ _ _ Hof) as (e2 & ct2 & aad2 & pt2 & obj & Hck & Hop & _).
  destruct (checkFrame_ok _ _ _ _ _ Hck) as (_ & _ & He2 & _ & _ & _ & Hct2 & _).
  assert (e2 = e) as -> by congruence. assert (ct2 = ct) as -> by congruence.
  unfold newResponseOpener in Hn. rewrite He in Hn. inv_ok.
  repeat match goal with H : e = ?x |- _ => subst x end. subst ro. cbn [ro_opener] in Hop.
  match goal with H : SetupReceiverPSK _ _ _ _ _ = _ |- _ => unfold SetupReceiverPSK in H end.
  unfold Opener_Open in Hop. inv_ok. simplify_eq. apply Hpsk. by eapply psk_separates.
Qed.

(** ** Witnesses *)

Module RespBindWitness.
Import EnvelopeWitness ResponseWitness.

Definition bind_value : bytes :=
  match DeriveResponseBind eph with Ok b => b | Err _ => [] end.
Lemma bind_derived : DeriveResponseBind eph = Ok bind_value.
Proof. vm_cast_no_check (eq_refl (DeriveResponseBind eph)). Qed.

Definition bound_chat : Request :=
  match AttachResponseBind ProfileChat (chat "hi") eph with Ok r => r | Err _ => ∅ end.
Lemma chat_bound : AttachResponseBind ProfileChat (chat "hi") eph = Ok bound_chat.
Proof. vm_cast_no_check (eq_refl (AttachResponseBind ProfileChat (chat "hi") eph)). Qed.
Definition bound_env : Request :=
  match SealRequestFor ProfileChat key bound_chat None signer eph ["model"] seed with
  | Ok r => r | Err _ => ∅
  end.
Lemma bound_sealed : SealRequestFor ProfileChat key bound_chat None signer eph ["model"] seed = Ok bound_env.
Proof.
  vm_cast_no_check (eq_refl (SealRequestFor ProfileChat key bound_chat None signer eph ["model"] seed)).
Qed.

Definition answer : Response :=
  <["choices" := JArr [obj [("text", str "Hi")]]]> (<["model" := str "m"]> {[ "usage" := obj [] ]}).
Lemma answer_ok : map_ok answer.
Proof. refine (bool_decide_eq_true_1 _ _). vm_compute. reflexivity. Qed.
Definition bound_answer : Response :=
  match SealBoundResponseFor ProfileChat eph bind_value answer None ["model"] seed with
  | Ok r => r | Err _ => ∅
  end.
Lemma answer_sealed :
  SealBoundResponseFor ProfileChat eph bind_value answer None ["model"] seed = Ok bound_answer.
Proof.
  vm_cast_no_check (eq_refl (SealBoundResponseFor ProfileChat eph bind_value answer None ["model"] seed)).
Qed.

(** The same answer sealed in base mode, by someone who never saw the binding. *)
Definition forged_answer : Response :=
  match SealResponseFor ProfileChat eph answer None ["model"] seed with
  | Ok r => compact <$> r | Err _ => ∅
  end.
Definition forged_meta : ResponseE2EE :=
  match Response_E2EE forged_answer with Ok e => e | Err _ => zeroResponseE2EE end.
Definition forged_ctx : Ideal.ctx := Ideal.Ctx (Ideal.secret eph (bytes_of RespInfo) None seed) 0.
Definition forged_aad : bytes :=
  match aadFromEnvelope forged_answer with Ok a => a | Err _ => [] end.
Definition forged_pt : bytes := marshal_map (sealed_part ["choices"] answer).
Definition forged_ct : bytes := match unb64 (r_Ciphertext forged_meta) with Some c => c | None => [] end.
Lemma forged_read : Response_E2EE forged_answer = Ok forged_meta.
Proof. vm_cast_no_check (eq_refl (Response_E2EE forged_answer)). Qed.
Lemma forged_enc : unb64 (r_Enc forged_meta) = Some seed.
Proof. vm_cast_no_check (eq_refl (Some seed)). Qed.
Lemma forged_ct_read : unb64 (r_Ciphertext forged_meta) = Some forged_ct.
Proof. vm_cast_no_check (eq_refl (Some forged_ct)). Qed.
Lemma forged_setup : sender_setup eph (bytes_of RespInfo) None seed = Some (seed, forged_ctx).
Proof. vm_cast_no_check (eq_refl (Some (seed, forged_ctx))). Qed.
Lemma forged_seal :
  ctx_seal forged_ctx forged_pt forged_aad = Some (forged_ct, Ideal.next forged_ctx).
Proof. vm_cast_no_check (eq_refl (Some (forged_ct, Ideal.next forged_ctx))). Qed.
End RespBindWitness.

Section witnesses.
Import EnvelopeWitness ResponseWitness RespBindWitness.

Lemma bind_agreed_witness :
  (opened ← OpenRequestFor ProfileChat key (compact <$> bound_env); TakeResponseBind ProfileChat opened)
  = Ok (Some bind_value, compact <$> chat "hi").
Proof.
  exact (bind_agreed _ _ _ _ _ _ _ _ _ _ _ _ _ keypair_key chat_ok ok_model chat_bound bind_derived
           bound_sealed).
Defined.

Lemma bound_response_roundtrip_witness :
  OpenBoundResponseFor ProfileChat eph (compact <$> bound_answer) = Ok (compact <$> answer).
Proof.
  exact (bound_response_roundtrip _ _ _ _ _ _ _ _ _ keypair_eph answer_ok ok_model bind_derived answer_sealed).
Defined.

Lemma unbound_forgery_refused_witness :
  exists err, OpenBoundResponseFor ProfileChat eph forged_answer = Err err.
Proof.
  exact (unbound_forgery_refused _ _ _ _ _ _ _ _ _ _ _ _ _ _ bind_derived forged_read forged_enc
           forged_ct_read forged_setup forged_seal ltac:(discriminate)).
Defined.
End witnesses.
