(* ===== verification/Async.v ===== *)
(** * Async: image jobs that answer later ([protocol/wire/async.go])

    The result of an async image job is sealed once, at completion, to the client's
    ephemeral key and bound to its request; the id the user keeps carries that key.
    This file has the sealing and opening of a result and the job id format.

    The theorems: a result survives the trip; an accepted result answers the job
    polled, from its own decrypted content; job ids parse back to what they were
    built from, and what parses is a built id up to line breaks. *)

From S2P Require Import Prelude GoBytes GoHash GoJson GoDecode GoJsonEq Profile Hpke Envelope Response RespBind.

Definition AsyncStatusCompleted : string := "completed".
Definition userJobIDSep : ascii := ".".
Definition maxJobIDLen : nat := 128.

Definition asyncImageResultUnbound : list string := ["model"; "x_0g_trace"].
Definition AsyncImageResultUnboundFields : list string := asyncImageResultUnbound.

Definition AttachAsyncBind (req : Request) (ephPriv : PrivateKey) : wresult Request :=
  AttachResponseBind ProfileAsyncImage req ephPriv.

Definition TakeAsyncBind (opened : Request) : wresult (option bytes * Request) :=
  TakeResponseBind ProfileAsyncImage opened.

Definition cleartextString (frame : Response) (field : string) : wresult string :=
  raw ← of_option (frame !! field) (EFieldMissing field);
  s ← map_err (fun _ => EFieldNotString field) (unmarshal_string raw);
  _ ← refuse (String.eqb s "") (EFieldEmpty field);
  Ok s.

Section results.
Context `{Jcs} `{HpkeLib}.

Definition SealAsyncImageResult (clientEphPub : PublicKey) (result : Response) (bind rnd : bytes)
    : wresult Response :=
  _ ← refuse (has_key result fieldBind) EBindPresent;
  _ ← cleartextString result fieldJobID;
  status ← cleartextString result fieldStatus;
  _ ← refuse (negb (String.eqb status AsyncStatusCompleted)) (EStatus status);
  SealBoundResponseFor ProfileAsyncImage clientEphPub bind result None asyncImageResultUnbound rnd.

Definition OpenAsyncImageResult (ephPriv : PrivateKey) (frame : Response) (wantJobID : string)
    : wresult Response :=
  _ ← refuse (negb (Nat.eqb (length ephPriv) ephPrivLen)) (EEphPrivLen (length ephPriv));
  e2ee ← Response_E2EE frame;
  _ ← each (fun f => refuse (negb (contains asyncImageResultUnbound f)) (EAsyncUnbound f))
        (r_UnboundFields e2ee);
  status ← cleartextString frame fieldStatus;
  _ ← refuse (negb (String.eqb status AsyncStatusCompleted)) (EStatus status);
  jobID ← cleartextString frame fieldJobID;
  _ ← refuse (negb (String.eqb jobID wantJobID)) EWrongJob;
  OpenBoundResponseFor ProfileAsyncImage ephPriv frame.
End results.

(** ** Job ids *)

Definition job_char (c : ascii) : bool :=
  is_lower c || is_upper c || is_digit c || Ascii.eqb c "-" || Ascii.eqb c "_".

Definition validateJobID (jobID : string) : wresult unit :=
  let l := bytes_of jobID in
  _ ← refuse (String.eqb jobID "") EJobIdEmpty;
  _ ← refuse (Nat.ltb maxJobIDLen (length l)) EJobIdLong;
  refuse (negb (forallb job_char l)) EJobIdChar.

Definition UserJobID (jobID : string) (ephPriv : PrivateKey) : wresult string :=
  _ ← validateJobID jobID;
  _ ← refuse (negb (Nat.eqb (length ephPriv) ephPrivLen)) (EEphPrivLen (length ephPriv));
  Ok (str_of (bytes_of jobID ++ userJobIDSep :: b64_encode ephPriv)).

Definition ParseUserJobID (s : string) : wresult (string * PrivateKey) :=
  '(l, keyPart) ← of_option (split_last userJobIDSep (bytes_of s)) ENoKeySegment;
  let jobID := str_of l in
  _ ← validateJobID jobID;
  key ← of_option (b64_decode true keyPart) EKeySegmentB64;
  _ ← refuse (negb (Nat.eqb (length key) ephPrivLen)) (EKeySegmentLen (length key));
  Ok (jobID, key).

Definition HasUserJobIDKey (s : string) : bool := existsb (Ascii.eqb userJobIDSep) (bytes_of s).

(** ** Properties *)

Lemma validateJobID_ok id :
  validateJobID id = Ok tt <->
  id <> "" /\ (length (bytes_of id) <= 128)%nat /\ forallb job_char (bytes_of id) = true.
Proof.
  unfold validateJobID. rewrite !bind_tt, !refuse_ok, String.eqb_neq, Nat.ltb_ge, negb_false_iff. done.
Qed.

Lemma UserJobID_ok id key s :
  UserJobID id key = Ok s <->
  validateJobID id = Ok tt /\ length key = 32%nat /\
  s = str_of (bytes_of id ++ userJobIDSep :: b64_encode key).
Proof.
  unfold UserJobID. rewrite !bind_tt, refuse_ok, negb_false_iff, Nat.eqb_eq.
  split; [intros (? & ? & [= ->])|intros (? & ? & ->)]; done.
Qed.

Lemma ParseUserJobID_ok s id key :
  ParseUserJobID s = Ok (id, key) <->
  exists seg, split_last userJobIDSep (bytes_of s) = Some (bytes_of id, seg) /\
    validateJobID id = Ok tt /\ b64_decode true seg = Some key /\ length key = 32%nat.
Proof.
  unfold ParseUserJobID. split.
  - intros Hp. inv_ok. destruct x as [l seg]. inv_ok. bool_hyps. simplify_eq.
    exists seg. rewrite bytes_of_str_of. split_and!; [done|done|done|by apply Nat.eqb_eq].
  - intros (seg & Hs & Hv & Hd & Hl). rewrite Hs. cbn [of_option mbind result_bind].
    rewrite str_of_bytes_of, Hv. cbn [mbind result_bind]. rewrite Hd. cbn. by rewrite Hl.
Qed.

Lemma b64_no_sep l : userJobIDSep ∉ b64_encode l.
Proof.
  intros Hin. pose proof (b64_encode_safe l) as Hs. rewrite Forall_forall in Hs.
  by apply Hs in Hin.
Qed.

(** A job id carries its key. What [UserJobID] builds, [ParseUserJobID] splits into
    the broker's id and the ephemeral private key, and [HasUserJobIDKey] recognises. *)
Theorem job_id_roundtrip id key s :
  UserJobID id key = Ok s -> ParseUserJobID s = Ok (id, key) /\ HasUserJobIDKey s = true.
Proof.
  intros (Hv & Hl & ->)%UserJobID_ok. split.
  - apply ParseUserJobID_ok. exists (b64_encode key). rewrite bytes_of_str_of.
    split_and!; [apply split_last_app, b64_no_sep|done|apply b64_decode_encode|done].
  - unfold HasUserJobIDKey. rewrite bytes_of_str_of, existsb_app. cbn. apply orb_true_r.
Qed.

(** Nothing else parses, up to line breaks. A string that [ParseUserJobID] accepts
    is the id [UserJobID] builds from the parts it returns once the carriage returns
    and line feeds of its key segment, which the decoder skips, are dropped. *)
Theorem job_id_canonical s id key :
  ParseUserJobID s = Ok (id, key) ->
  exists seg, bytes_of s = bytes_of id ++ userJobIDSep :: seg /\
    UserJobID id key = Ok (str_of (bytes_of id ++ userJobIDSep ::
      List.filter (fun c => negb (is_newline c)) seg)).
Proof.
  intros (seg & Hs & Hv & Hd & Hl)%ParseUserJobID_ok. exists seg.
  apply split_last_some in Hs as [Hs _]. split; [done|].
  apply UserJobID_ok. split_and!; [done|done|]. unfold b64_decode in Hd.
  by rewrite (b64_encode_quanta _ _ Hd).
Qed.

(** Two spellings of one id: the decoder skips the line feed. *)
Example job_id_newline :
  match UserJobID "job" (repeat "k"%char 32) with
  | Ok s => ParseUserJobID (s ++ String (byte_of 10) "")
            = Ok ("job", repeat "k"%char 32)
  | Err _ => False
  end.
Proof. vm_compute. reflexivity. Qed.

Lemma cleartextString_ok frame field s :
  cleartextString frame field = Ok s <->
  s <> "" /\ exists raw, frame !! field = Some raw /\ unmarshal_string raw = Ok s.
Proof.
  unfold cleartextString. split.
  - intros Hc. inv_ok. bool_hyps. subst. eauto.
  - intros (Hs & raw & Hr & Hu). rewrite Hr. cbn [of_option mbind result_bind]. rewrite Hu.
    cbn [map_err mbind result_bind]. by rewrite (proj2 (String.eqb_neq _ _) Hs).
Qed.

Lemma cleartextString_view fields frame out field :
  map_ok frame -> sealed_view fields frame out -> field <> e2eeKey -> (field ∉ fields) ->
  cleartextString out field = cleartextString frame field.
Proof.
  intros Hok Hv Hne Hf. unfold cleartextString. rewrite (Hv field Hne), decide_False by done.
  destruct (frame !! field) as [raw|] eqn:E; [|done]. cbn [fmap option_fmap option_map of_option mbind result_bind].
  unfold unmarshal_string. by rewrite set_string_compact by by apply (map_ok_wf _ Hok _ _ E).
Qed.

(** An async result survives the trip, to the job it names. *)
Theorem async_result_roundtrip `{Jcs} `{HpkeLaws} priv pub b result rnd out id :
  keypair priv pub -> map_ok result -> DeriveResponseBind priv = Ok b ->
  SealAsyncImageResult pub result b rnd = Ok out -> cleartextString result fieldJobID = Ok id ->
  OpenAsyncImageResult priv (compact <$> out) id = Ok (compact <$> result).
Proof.
  intros Hkey Hok Hb Hs Hid. unfold SealAsyncImageResult in Hs. inv_ok. bool_hyps.
  match goal with H : cleartextString result fieldStatus = _ |- _ => rename H into Hst end.
  assert (Forall (fun s => utf8_str s = true) asyncImageResultUnbound) as Hu by by repeat constructor.
  destruct (bound_response_parts _ _ _ _ _ _ _ _ _ Hkey Hok Hu Hb Hs)
    as (Hopen & e & sealed & s & He & Hun & Hv & Hsp & [_ _ Hbd _ _] & _).
  destruct (proj1 (DeriveResponseBind_ok _ _) Hb) as [Hl _].
  assert (s = specAsyncImage) as ->
    by (change (profiles !! ProfileAsyncImage) with (Some specAsyncImage) in Hsp; by injection Hsp).
  assert (forall f, f ∈ [fieldJobID; fieldStatus] ->
    cleartextString (compact <$> out) f = cleartextString result f) as Hc.
  { intros f Hf. apply (cleartextString_view sealed); [done|done| |by apply Hbd].
    apply elem_of_cons in Hf as [-> | ->%list_elem_of_singleton]; done. }
  unfold OpenAsyncImageResult. rewrite Hl, He. cbn [Nat.eqb ephPrivLen negb refuse mbind result_bind].
  rewrite Hun. change (each _ asyncImageResultUnbound) with (@Ok werr unit tt). cbn [mbind result_bind].
  rewrite !Hc, Hst by (repeat constructor). cbn [mbind result_bind]. subst.
  rewrite String.eqb_refl. cbn [negb refuse mbind result_bind]. rewrite Hid. cbn [mbind result_bind].
  by rewrite String.eqb_refl.
Qed.

(** An accepted result answers the job polled. When [OpenAsyncImageResult] returns
    an envelope for a job id: it names that job and is completed, in fields the frame
    binds; its [data] is what was decrypted; it states its image count; and the
    ciphertext opened under the binding of this key, with the frame's own additional
    data. *)
Theorem async_result_sound `{Jcs} `{HpkeLib} priv frame want out :
  OpenAsyncImageResult priv frame want = Ok out ->
  exists e b enc ct aad o pt o' obj,
    conformant ProfileAsyncImage specAsyncImage frame out (nil_map obj) e /\ r_Final e = true /\
    (forall f, f ∈ r_UnboundFields e -> f ∈ asyncImageResultUnbound) /\
    cleartextString out fieldJobID = Ok want /\ cleartextString out fieldStatus = Ok AsyncStatusCompleted /\
    DeriveResponseBind priv = Ok b /\ unb64 (r_Enc e) = Some enc /\ unb64 (r_Ciphertext e) = Some ct /\
    aadFromEnvelope frame = Ok aad /\
    SetupReceiverPSK priv enc (bytes_of RespInfo) b (bytes_of RespBindPSKID) = Ok o /\
    Opener_Open o ct aad = Ok (pt, o') /\ unmarshal unmarshal_map pt = Ok obj.
Proof.
  intros Ho. unfold OpenAsyncImageResult in Ho. inv_ok. bool_hyps. subst.
  match goal with H : Response_E2EE frame = Ok ?x |- _ => rename x into e; rename H into He end.
  match goal with H : each _ _ = _ |- _ => rewrite each_refuse_ok in H; rename H into Hun end.
  match goal with H : cleartextString frame fieldStatus = _ |- _ => rename H into Hst end.
  match goal with H : cleartextString frame fieldJobID = _ |- _ => rename H into Hid end.
  unfold OpenBoundResponseFor, NewBoundResponseOpenerFor in Ho. rewrite He in Ho. inv_ok.
  repeat match goal with H : e = ?x |- _ => subst x end.
  match goal with H : newResponseOpener _ _ _ _ = Ok ?r |- _ => rename H into Hn; rename r into ro end.
  destruct (OpenFrame ro frame) as [r ro'] eqn:Hof. cbn in Ho. subst r.
  unfold newResponseOpener in Hn. rewrite He in Hn. inv_ok.
  repeat match goal with H : e = ?x |- _ => subst x end. subst ro. bool_hyps.
  destruct (OpenFrame_ok _ _ _ _ Hof) as (e2 & ct & aad & pt & obj & Hck & Hop & _ & Hun' & Hkeys & Hob & Hfresh & ->).
  destruct (checkFrame_ok _ _ _ _ _ Hck) as (_ & _ & He2 & _ & _ & _ & Hct & Haad).
  destruct (checkFrame_conformant _ _ _ _ _ _ Hck Hkeys Hob Hfresh) as [s Hco].
  cbn [ro_profile ro_opener] in *.
  assert (s = specAsyncImage) as ->.
  { pose proof (co_spec _ _ _ _ _ _ Hco) as Hs.
    change (profiles !! ProfileAsyncImage) with (Some specAsyncImage) in Hs. by injection Hs. }
  assert (e2 = e) as -> by congruence.
  assert (forall f, f ∈ ps_bound specAsyncImage ->
    cleartextString (nil_map obj ∪ delete e2eeKey frame) f = cleartextString frame f) as Hkept
    by (intros f Hf; unfold cleartextString; by rewrite (co_kept _ _ _ _ _ _ Hco f Hf)).
  do 9 eexists. split_and!; [exact Hco|done| |rewrite Hkept by (repeat constructor); exact Hid|
    rewrite Hkept by (repeat constructor); exact Hst|eassumption|eassumption|done|done|eassumption|done|done].
  intros f Hf. specialize (Hun f Hf). apply negb_false_iff in Hun. by apply contains_spec.
Qed.

(** ** Witnesses *)

Module AsyncWitness.
Import EnvelopeWitness ResponseWitness RespBindWitness.

Definition image_result : Response :=
  <["jobId" := str "job-1"]> (<["status" := str "completed"]> (<["model" := str "m"]>
    (<["usage" := obj [("output_images", JNum (bytes_of "2"))]]>
      {[ "data" := JArr [obj [("b64_json", str "aGk")]] ]}))).
Lemma image_result_ok : map_ok image_result.
Proof. refine (bool_decide_eq_true_1 _ _). vm_compute. reflexivity. Qed.
Definition image_frame : Response :=
  match SealAsyncImageResult eph image_result bind_value seed with Ok r => r | Err _ => ∅ end.
Lemma image_sealed : SealAsyncImageResult eph image_result bind_value seed = Ok image_frame.
Proof. vm_cast_no_check (eq_refl (SealAsyncImageResult eph image_result bind_value seed)). Qed.
Lemma image_job : cleartextString image_result fieldJobID = Ok "job-1".
Proof. vm_compute. reflexivity. Qed.
Lemma image_opens : OpenAsyncImageResult eph (compact <$> image_frame) "job-1" = Ok (compact <$> image_result).
Proof. vm_cast_no_check (eq_refl (OpenAsyncImageResult eph (compact <$> image_frame) "job-1")). Qed.
Lemma other_job : OpenAsyncImageResult eph (compact <$> image_frame) "job-2" = Err EWrongJob.
Proof. vm_compute. reflexivity. Qed.
Definition user_id : string := match UserJobID "job-1" eph with Ok s => s | Err _ => "" end.
Lemma user_id_built : UserJobID "job-1" eph = Ok user_id.
Proof. vm_compute. reflexivity. Qed.
Lemma user_id_parses : ParseUserJobID user_id = Ok ("job-1", eph).
Proof. vm_compute. reflexivity. Qed.
End AsyncWitness.

Section witnesses.
Import EnvelopeWitness ResponseWitness RespBindWitness AsyncWitness.

Lemma job_id_roundtrip_witness :
  ParseUserJobID user_id = Ok ("job-1", eph) /\ HasUserJobIDKey user_id = true.
Proof. exact (job_id_roundtrip _ _ _ user_id_built). Defined.

Lemma job_id_canonical_witness :
  exists seg, bytes_of user_id = bytes_of "job-1" ++ userJobIDSep :: seg /\
    UserJobID "job-1" eph = Ok (str_of (bytes_of "job-1" ++ userJobIDSep ::
      List.filter (fun c => negb (is_newline c)) seg)).
Proof. exact (job_id_canonical _ _ _ user_id_parses). Defined.

Lemma async_result_roundtrip_witness :
  OpenAsyncImageResult eph (compact <$> image_frame) "job-1" = Ok (compact <$> image_result).
Proof.
  exact (async_result_roundtrip _ _ _ _ _ _ _ keypair_eph image_result_ok bind_derived image_sealed image_job).
Defined.

Lemma async_result_sound_witness :
  exists (e : ResponseE2EE) (obj : option Response), r_Final e = true /\
    validateResponseCleartextFor ProfileAsyncImage (compact <$> image_result) = Ok tt /\
    is_Some (nil_map obj !! fieldData).
Proof.
  destruct (async_result_sound _ _ _ _ image_opens)
    as (e & b & enc & ct & aad & o & pt & o' & obj & Hco & Hf & _).
  exact (ex_intro _ e (ex_intro _ obj (conj Hf (conj (co_final _ _ _ _ _ _ Hco Hf)
    (proj2 (co_payload _ _ _ _ _ _ Hco (must fieldData) (list_elem_of_here _ _)) eq_refl))))).
Defined.
End witnesses.
