(* ===== verification/Signature.v ===== *)
(** * Signature: signatures over what was exchanged ([protocol/proof], [client/sig/recover.go])

    A broker signs one line of text per response: a scheme and two hashes, of the
    request's and of the response's binding (for a stream, of the concatenation of
    every frame's). The client recomputes the text from what it sent and received
    and checks the signature against the signer it read on chain. [RecoverFunc] is a
    parameter of the verifier; [Recover] is the one the client supplies, over the
    curve and Keccak as parameters.

    The theorems: one text binds one request and one response, or one sequence of
    frames, as far as SHA-256 did not collide on the strings hashed; texts of the two
    schemes never coincide; verification accepts exactly the recomputed text under
    the expected signer; what it accepts carries the signed ciphertexts and bound
    fields; a signature the broker makes is accepted in both spellings of its
    recovery id. *)

From S2P Require Import Prelude GoBytes GoHash GoJson GoDecode GoJsonEq Profile Hpke Envelope.

Definition SchemeE2EECiphertext : string := "zg-sig-v1/e2ee-ct".
Definition SchemeE2EECiphertextStream : string := "zg-sig-v1/e2ee-ct-stream".
Definition SchemePlaintext : string := "zg-sig-v1/plain".

Record ChatSignature := MkChatSignature {
  cs_Text : string;
  cs_Signature : string;
  cs_SigningAddress : string;
  cs_SigningAlgo : string
}.

(** The errors of the package; [sigerr] is what a recover function returns. *)
Inductive sigerr :=
| SigLen (n : nat)
| SigRecoveryID (v : Z)
| SigRecover.
Inductive perr :=
| PRequest (e : werr)
| PResponse (e : werr)
| PFrame (i : nat) (e : werr)
| PMalformed (text : string)
| PHashHalf (h : string)
| PNoRecover
| PNoSigner
| PScheme (scheme want : string)
| PMismatch
| PSigNotHex
| PSigLen (n : nat)
| PRecover (e : sigerr)
| PSigner (addr want : string).
Abbreviation presult := (result perr).

Definition BindingHash (aad ct : bytes) : bytes := sha256 (sha256 aad ++ sha256 ct).

Definition formatText (scheme : string) (reqH respH : bytes) : string :=
  str_of (bytes_of scheme ++ ":"%char :: hex_encode reqH ++ ":"%char :: hex_encode respH).

(** [strings.SplitN(text, ":", 3)]. *)
Definition splitN3 (text : bytes) : list bytes :=
  match split_first ":" text with
  | None => [text]
  | Some (a, r) => match split_first ":" r with
                   | None => [a; r]
                   | Some (b, c) => [a; b; c]
                   end
  end.

Definition checkHashHalf (h : bytes) : presult unit :=
  match hex_decode h with
  | Some b => refuse (negb (Nat.eqb (length b) 32)) (PHashHalf (str_of h))
  | None => Err (PHashHalf (str_of h))
  end.

Definition parseScheme (text : string) : presult string :=
  match splitN3 (bytes_of text) with
  | [scheme; h1; h2] => _ ← each checkHashHalf [h1; h2]; Ok (str_of scheme)
  | _ => Err (PMalformed text)
  end.

Section texts.
Context `{Jcs}.

Definition FrameBindingHash (env : gmap string json) : wresult bytes :=
  '(aad, ct) ← FrameBinding env;
  Ok (BindingHash aad ct).

Definition SignedTextE2EEFromHashes (reqH respH : bytes) : string :=
  formatText SchemeE2EECiphertext reqH respH.

Definition SignedTextE2EE (reqEnv respEnv : gmap string json) : presult string :=
  reqH ← map_err PRequest (FrameBindingHash reqEnv);
  respH ← map_err PResponse (FrameBindingHash respEnv);
  Ok (SignedTextE2EEFromHashes reqH respH).

Record StreamBinder := MkStreamBinder { sb_reqH : bytes; sb_agg : bytes }.

Definition NewStreamBinderFromReqHash (reqH : bytes) : StreamBinder := MkStreamBinder reqH [].

Definition NewStreamBinder (reqEnv : gmap string json) : presult StreamBinder :=
  reqH ← map_err PRequest (FrameBindingHash reqEnv);
  Ok (NewStreamBinderFromReqHash reqH).

Definition AddFrame (s : StreamBinder) (frameEnv : gmap string json) : wresult StreamBinder :=
  h ← FrameBindingHash frameEnv;
  Ok (MkStreamBinder (sb_reqH s) (sb_agg s ++ h)).

(** [StreamBinder.Text], whose error is always nil. *)
Definition Text (s : StreamBinder) : presult string :=
  Ok (formatText SchemeE2EECiphertextStream (sb_reqH s) (sha256 (sb_agg s))).

(** The loop of [SignedTextE2EEStream], from frame [i]. *)
Fixpoint addFrames (i : nat) (s : StreamBinder) (frames : list (gmap string json))
    : presult StreamBinder :=
  match frames with
  | [] => Ok s
  | f :: frames => s ← map_err (PFrame i) (AddFrame s f); addFrames (S i) s frames
  end.

Definition SignedTextE2EEStream (reqEnv : gmap string json) (respFrames : list (gmap string json))
    : presult string :=
  b ← NewStreamBinder reqEnv;
  b ← addFrames 0 b respFrames;
  Text b.
End texts.

(** ** Verification ([verify.go]) *)

(** A recover function; the nil one is [None] where the verifier takes it. *)
Definition RecoverFunc : Type := string -> bytes -> result sigerr string.

Definition decodeSignature (s : string) : presult bytes :=
  let h := trim_prefix (trim_space s) "0x" in
  b ← of_option (hex_decode (bytes_of h)) PSigNotHex;
  _ ← refuse (negb (Nat.eqb (length b) 65)) (PSigLen (length b));
  Ok b.

Definition addrEqual (a b : string) : bool := equal_fold (trim_space a) (trim_space b).

Definition verify (sig : ChatSignature) (want wantScheme expectedSigner : string)
    (recover : option RecoverFunc) : presult unit :=
  recover ← of_option recover PNoRecover;
  _ ← refuse (String.eqb (trim_space expectedSigner) "") PNoSigner;
  scheme ← parseScheme (cs_Text sig);
  _ ← refuse (negb (String.eqb scheme wantScheme)) (PScheme scheme wantScheme);
  _ ← refuse (negb (String.eqb (cs_Text sig) want)) PMismatch;
  raw ← decodeSignature (cs_Signature sig);
  addr ← map_err PRecover (recover (cs_Text sig) raw);
  refuse (negb (addrEqual addr expectedSigner)) (PSigner addr expectedSigner).

Section verifying.
Context `{Jcs}.

Definition VerifyE2EE (sig : ChatSignature) (reqEnv respEnv : gmap string json)
    (expectedSigner : string) (recover : option RecoverFunc) : presult unit :=
  want ← SignedTextE2EE reqEnv respEnv;
  verify sig want SchemeE2EECiphertext expectedSigner recover.

Definition VerifyE2EEStream (sig : ChatSignature) (reqEnv : gmap string json)
    (respFrames : list (gmap string json)) (expectedSigner : string)
    (recover : option RecoverFunc) : presult unit :=
  want ← SignedTextE2EEStream reqEnv respFrames;
  verify sig want SchemeE2EECiphertextStream expectedSigner recover.

Definition VerifyBoundText (sig : ChatSignature) (want wantScheme expectedSigner : string)
    (recover : option RecoverFunc) : presult unit :=
  verify sig want wantScheme expectedSigner recover.
End verifying.

(** ** Recovering the signer ([client/sig/recover.go])

    The curve's recovery (returning the uncompressed public key, 65 bytes) and
    Keccak-256 are third-party code. *)

Class Secp := {
  RecoverCompact : bytes -> bytes -> option bytes;
  keccak256 : bytes -> bytes
}.
Class SecpLaws `{Secp} := keccak256_length m : length (keccak256 m) = 32%nat.

Section recover.
Context `{Secp}.

Definition eip191Hash (text : string) : bytes :=
  keccak256 (byte_of 25 :: bytes_of "Ethereum Signed Message:" ++ [byte_of 10]
             ++ itoa (Z.of_nat (String.length text)) ++ bytes_of text).

Definition addressFromPubKey (pub : bytes) : string :=
  str_of (bytes_of "0x" ++ hex_encode (drop 12 (keccak256 (drop 1 pub)))).

(** [byte] subtraction: no wrap-around, [v] is at least 27 where it is used. *)
Definition Recover : RecoverFunc := fun text sig =>
  _ ← refuse (negb (Nat.eqb (length sig) 65)) (SigLen (length sig));
  let v0 := bval (nth 64 sig "0"%char) in
  let v := if 27 <=? v0 then v0 - 27 else v0 in
  _ ← refuse (3 <? v) (SigRecoveryID v0);
  let compact := byte_of (27 + v) :: take 32 sig ++ take 32 (drop 32 sig) in
  pub ← of_option (RecoverCompact compact (eip191Hash text)) SigRecover;
  Ok (addressFromPubKey pub).
End recover.

(** ** The text *)

#[local] Opaque sha256.

Lemma sep_hex_digit z : 0 <= z < 16 -> hex_digit z <> ":"%char.
Proof. revert z. apply (zrange_forall 16 (fun z => hex_digit z <> ":"%char)). vm_compute. reflexivity. Qed.

Lemma sep_not_hex l : ":"%char ∉ hex_encode l.
Proof.
  induction l as [|c l IH]; cbn; [set_solver|]. pose proof (bval_range c).
  rewrite !not_elem_of_cons. split_and!; [..|done]; intros E; symmetry in E; revert E;
    apply sep_hex_digit; [split; [apply Z.div_pos|apply Z.div_lt_upper_bound]; lia|].
  apply Z.mod_pos_bound; lia.
Qed.

Lemma hex_app_inj a a' X X' :
  hex_encode a ++ ":"%char :: X = hex_encode a' ++ ":"%char :: X' -> a = a' /\ X = X'.
Proof.
  intros E.
  assert (split_first ":"%char (hex_encode a ++ ":"%char :: X)
        = split_first ":"%char (hex_encode a' ++ ":"%char :: X')) as E' by by rewrite E.
  rewrite !split_first_app in E' by apply sep_not_hex. simplify_eq. by split; [apply hex_encode_inj|].
Qed.

Lemma formatText_inj scheme q r q' r' :
  formatText scheme q r = formatText scheme q' r' -> q = q' /\ r = r'.
Proof.
  unfold formatText. intros E%(f_equal bytes_of). rewrite !bytes_of_str_of in E.
  apply app_inv_head in E. injection E as E.
  apply hex_app_inj in E as [-> E]. by apply hex_encode_inj in E.
Qed.

Lemma splitN3_format s q r :
  ":"%char ∉ s -> splitN3 (s ++ ":"%char :: hex_encode q ++ ":"%char :: r) = [s; hex_encode q; r].
Proof. intros Hs. unfold splitN3. by rewrite !split_first_app by first [done|apply sep_not_hex]. Qed.

Lemma checkHashHalf_hex h : length h = 32%nat -> checkHashHalf (hex_encode h) = Ok tt.
Proof. intros Hl. unfold checkHashHalf. by rewrite hex_decode_encode, Hl. Qed.

Lemma parseScheme_format scheme q r :
  ":"%char ∉ bytes_of scheme -> length q = 32%nat -> length r = 32%nat ->
  parseScheme (formatText scheme q r) = Ok scheme.
Proof.
  intros Hs Hq Hr. unfold parseScheme, formatText. rewrite bytes_of_str_of, splitN3_format by done.
  cbn [each]. rewrite !checkHashHalf_hex by done. cbn. by rewrite str_of_bytes_of.
Qed.

Lemma BindingHash_length aad ct : length (BindingHash aad ct) = 32%nat.
Proof. apply sha256_length. Qed.

(** Inclusion in a concatenation, part by part. *)
Ltac in_apps := intros ?; rewrite ?elem_of_app; tauto.

(** The strings hashed to bind an envelope. *)
Definition binding_inputs `{Jcs} (env : gmap string json) : list bytes :=
  match FrameBinding env with
  | Ok (aad, ct) => [aad; ct; sha256 aad ++ sha256 ct]
  | Err _ => []
  end.

(** The concatenation a stream's frames are hashed to. *)
Definition frames_agg `{Jcs} (frames : list (gmap string json)) : bytes :=
  concat (map (fun f => match FrameBindingHash f with Ok h => h | Err _ => [] end) frames).

Section text_lemmas.
Context `{Jcs}.

Lemma FrameBindingHash_ok env h :
  FrameBindingHash env = Ok h <-> exists aad ct, FrameBinding env = Ok (aad, ct) /\ h = BindingHash aad ct.
Proof.
  unfold FrameBindingHash. rewrite bind_ok. split.
  - intros ([aad ct] & ? & [= <-]). eauto.
  - intros (aad & ct & -> & ->). by exists (aad, ct).
Qed.

Lemma FrameBindingHash_length env h : FrameBindingHash env = Ok h -> length h = 32%nat.
Proof. intros (? & ? & _ & ->)%FrameBindingHash_ok. apply BindingHash_length. Qed.

(** Equal hashes bind the same thing. *)
Lemma FrameBindingHash_inj l env env' h :
  collision_free l -> binding_inputs env ⊆ l -> binding_inputs env' ⊆ l ->
  FrameBindingHash env = Ok h -> FrameBindingHash env' = Ok h -> FrameBinding env = FrameBinding env'.
Proof.
  intros Hl Hi Hi' (aad & ct & E & ->)%FrameBindingHash_ok (aad' & ct' & E' & Hh)%FrameBindingHash_ok.
  unfold binding_inputs in *. rewrite E in *. rewrite E' in *.
  assert (sha256 aad ++ sha256 ct = sha256 aad' ++ sha256 ct') as Hc
    by (apply (collision_free_eq l); [exact Hl|apply Hi|apply Hi'|exact Hh]; repeat constructor).
  apply app_inj_1 in Hc as [Ha Hc]; [|by rewrite !sha256_length].
  apply (collision_free_eq l) in Ha; [|exact Hl|apply Hi|apply Hi']; [|constructor..].
  apply (collision_free_eq l) in Hc; [|exact Hl|apply Hi|apply Hi']; [|do 2 constructor..].
  congruence.
Qed.

Lemma SignedTextE2EE_ok q r t :
  SignedTextE2EE q r = Ok t <->
  exists hq hr, FrameBindingHash q = Ok hq /\ FrameBindingHash r = Ok hr /\
    t = formatText SchemeE2EECiphertext hq hr.
Proof.
  unfold SignedTextE2EE, SignedTextE2EEFromHashes. split.
  - intros E. inv_ok. eauto 10.
  - intros (hq & hr & -> & -> & ->). done.
Qed.

Lemma addFrames_ok i s fs s' :
  addFrames i s fs = Ok s' <->
  Forall (fun f => is_ok (FrameBindingHash f) = true) fs /\
  s' = MkStreamBinder (sb_reqH s) (sb_agg s ++ frames_agg fs).
Proof.
  revert i s. induction fs as [|f fs IH]; intros i s; cbn [addFrames].
  - unfold frames_agg. cbn. rewrite app_nil_r. destruct s as [q a]. cbn. split.
    + intros [= <-]. by split.
    + by intros [_ ->].
  - unfold AddFrame at 1, frames_agg. cbn [map concat]. rewrite Forall_cons.
    destruct (FrameBindingHash f) as [h|e]; cbn.
    + rewrite IH. cbn. rewrite <-app_assoc. fold (frames_agg fs). naive_solver.
    + split; [done|]. by intros [[? _] _].
Qed.

Lemma SignedTextE2EEStream_ok q fs t :
  SignedTextE2EEStream q fs = Ok t <->
  exists hq, FrameBindingHash q = Ok hq /\ Forall (fun f => is_ok (FrameBindingHash f) = true) fs /\
    t = formatText SchemeE2EECiphertextStream hq (sha256 (frames_agg fs)).
Proof.
  unfold SignedTextE2EEStream, NewStreamBinder, NewStreamBinderFromReqHash, Text. split.
  - intros E. inv_ok. subst.
    match goal with H : addFrames _ _ _ = _ |- _ => apply addFrames_ok in H as [? ->] end. cbn. eauto.
  - intros (hq & -> & Hfs & ->). cbn [map_err mbind result_bind].
    rewrite (proj2 (addFrames_ok 0 (MkStreamBinder hq []) fs _) (conj Hfs eq_refl)). done.
Qed.

(** A concatenation of 32-byte hashes determines them, and how many there are. *)
Lemma frames_agg_inj l fs fs' :
  collision_free l -> concat (map binding_inputs (fs ++ fs')) ⊆ l ->
  Forall (fun f => is_ok (FrameBindingHash f) = true) fs ->
  Forall (fun f => is_ok (FrameBindingHash f) = true) fs' ->
  frames_agg fs = frames_agg fs' -> map FrameBinding fs = map FrameBinding fs'.
Proof.
  intros Hl Hi Hfs. revert fs' Hi. induction Hfs as [|f fs [h Hf]%is_ok_true _ IH];
    intros fs' Hi Hfs' E; destruct Hfs' as [|f' fs' [h' Hf']%is_ok_true Hfs']; [done|..];
    unfold frames_agg in E; cbn [map concat] in E.
  - apply (f_equal length) in E. rewrite Hf', length_app, (FrameBindingHash_length _ _ Hf') in E. done.
  - apply (f_equal length) in E. rewrite Hf, length_app, (FrameBindingHash_length _ _ Hf) in E. done.
  - rewrite Hf, Hf' in E. apply app_inj_1 in E as [-> E];
      [|by rewrite (FrameBindingHash_length _ _ Hf), (FrameBindingHash_length _ _ Hf')].
    rewrite !map_app, !concat_app in Hi. cbn [map concat] in Hi. cbn [map]. f_equal.
    + eapply FrameBindingHash_inj; [done| | |done..]; set_solver.
    + apply IH; [|done..]. rewrite map_app, concat_app. set_solver.
Qed.
End text_lemmas.

(** Reading an envelope back changes nothing of what its binding hashes. *)
Lemma FrameBindingHash_wire `{Jcs} env e :
  Forall (fun s => utf8_str s = true) (e_UnboundFields e) -> env !! e2eeKey = Some (json_of_E2EE e) ->
  FrameBindingHash (compact <$> env) = FrameBindingHash env.
Proof.
  intros Hu He. pose proof (compact_block _ _ He) as He'. unfold FrameBindingHash, FrameBinding. rewrite He, He'.
  rewrite (aadFromEnvelope_agree_E2EE (compact <$> env) env e e); [done|done|done|done|done|].
  intros k _ _. rewrite lookup_fmap. destruct (env !! k); [|done]. cbn. by rewrite compact_idem.
Qed.

(** One text, one exchange. Two pairs of a request and a response that yield the
    same signed text carry the same authenticated data and the same ciphertexts, as
    long as SHA-256 does not collide on the strings those pairs hash. *)
Theorem signed_text_binds `{Jcs} q r q' r' t :
  collision_free (concat (map binding_inputs [q; q'; r; r'])) ->
  SignedTextE2EE q r = Ok t -> SignedTextE2EE q' r' = Ok t ->
  FrameBinding q = FrameBinding q' /\ FrameBinding r = FrameBinding r'.
Proof.
  intros Hl (hq & hr & Hq & Hr & ->)%SignedTextE2EE_ok (hq' & hr' & Hq' & Hr' & Ht)%SignedTextE2EE_ok.
  apply formatText_inj in Ht as [<- <-]. cbn [map concat] in Hl. rewrite app_nil_r in Hl.
  split; (eapply FrameBindingHash_inj; [exact Hl| | |done..]); set_solver.
Qed.

(** One text, one stream. Two streams that yield the same signed text have the
    same request, as many frames, and frame by frame the same authenticated data and
    ciphertext: no frame can be dropped, added, reordered or replaced. *)
Theorem stream_text_binds `{Jcs} q fs q' fs' t :
  collision_free (binding_inputs q ++ binding_inputs q' ++ concat (map binding_inputs (fs ++ fs'))
                  ++ [frames_agg fs; frames_agg fs']) ->
  SignedTextE2EEStream q fs = Ok t -> SignedTextE2EEStream q' fs' = Ok t ->
  FrameBinding q = FrameBinding q' /\ map FrameBinding fs = map FrameBinding fs'.
Proof.
  intros Hl (hq & Hq & Hfs & ->)%SignedTextE2EEStream_ok (hq' & Hq' & Hfs' & Ht)%SignedTextE2EEStream_ok.
  apply formatText_inj in Ht as [<- Ha]. split.
  - eapply FrameBindingHash_inj; [exact Hl|in_apps..|exact Hq|exact Hq'].
  - eapply frames_agg_inj; [exact Hl|in_apps|exact Hfs|exact Hfs'|].
    eapply collision_free_eq; [exact Hl|..|exact Ha]; rewrite !elem_of_app, !elem_of_cons; tauto.
Qed.

(** ** Verification *)

Lemma scheme_of_text q r t `{Jcs} :
  SignedTextE2EE q r = Ok t -> parseScheme t = Ok SchemeE2EECiphertext.
Proof.
  intros (hq & hr & Hq & Hr & ->)%SignedTextE2EE_ok.
  apply parseScheme_format; [by apply (bool_decide_unpack _)|by eapply FrameBindingHash_length..].
Qed.

Lemma scheme_of_stream_text q fs t `{Jcs} :
  SignedTextE2EEStream q fs = Ok t -> parseScheme t = Ok SchemeE2EECiphertextStream.
Proof.
  intros (hq & Hq & _ & ->)%SignedTextE2EEStream_ok.
  apply parseScheme_format; [by apply (bool_decide_unpack _)|by eapply FrameBindingHash_length|].
  apply sha256_length.
Qed.

(** What [verify] accepts. *)
Lemma verify_ok sig want scheme signer rec :
  verify sig want scheme signer rec = Ok tt <->
  exists f raw addr, rec = Some f /\ trim_space signer <> "" /\ parseScheme want = Ok scheme /\
    cs_Text sig = want /\ decodeSignature (cs_Signature sig) = Ok raw /\
    f want raw = Ok addr /\ addrEqual addr signer = true.
Proof.
  unfold verify. split.
  - intros Hv. inv_ok. bool_hyps. subst. eauto 12.
  - intros (f & raw & addr & -> & Hs & Hp & <- & Hd & Hf & Ha). cbn [of_option mbind result_bind].
    rewrite (proj2 (String.eqb_neq _ _) Hs), Hp. cbn [refuse mbind result_bind].
    rewrite !String.eqb_refl, Hd. cbn [negb refuse mbind result_bind].
    rewrite Hf. cbn [map_err mbind result_bind]. by rewrite Ha.
Qed.

(** A signature over [text] by the signer: the recover function reads the signer's
    address off it. *)
Definition signed_by (rec : option RecoverFunc) (signer text : string) (sig : ChatSignature) : Prop :=
  trim_space signer <> "" /\ cs_Text sig = text /\
  exists f raw addr, rec = Some f /\ decodeSignature (cs_Signature sig) = Ok raw /\
    f text raw = Ok addr /\ addrEqual addr signer = true.

Lemma signed_by_verifies rec signer text scheme sig :
  signed_by rec signer text sig -> parseScheme text = Ok scheme -> verify sig text scheme signer rec = Ok tt.
Proof. intros (Hs & Ht & f & raw & addr & Hf & Hd & Hr & Ha) Hp. apply verify_ok. eauto 12. Qed.

(** Verification accepts the recomputed text under the expected signer, and
    nothing else. [VerifyE2EE] returns no error exactly when the signature's text is
    the one recomputed from the two envelopes, its signature decodes, and what it
    recovers to is the (non-blank) expected signer; the address the broker reports of
    itself plays no part. *)
Theorem VerifyE2EE_iff `{Jcs} sig q r signer rec :
  VerifyE2EE sig q r signer rec = Ok tt <->
  exists f raw addr, rec = Some f /\ trim_space signer <> "" /\ SignedTextE2EE q r = Ok (cs_Text sig) /\
    decodeSignature (cs_Signature sig) = Ok raw /\ f (cs_Text sig) raw = Ok addr /\
    addrEqual addr signer = true.
Proof.
  unfold VerifyE2EE. rewrite bind_ok. split.
  - intros (t & Ht & (f & raw & addr & -> & Hs & _ & <- & Hd & Hf & Ha)%verify_ok). eauto 10.
  - intros (f & raw & addr & -> & Hs & Ht & Hd & Hf & Ha). exists (cs_Text sig). split; [done|].
    apply verify_ok. pose proof (scheme_of_text _ _ _ Ht). eauto 12.
Qed.

(** The same for a stream, and the binder that reads the frames one by one while
    they arrive leads to the same verdict as the whole list: what [VerifyBoundText]
    says of the binder's text is what [VerifyE2EEStream] says of the frames. *)
Theorem VerifyE2EEStream_iff `{Jcs} sig q fs signer rec :
  (VerifyE2EEStream sig q fs signer rec = Ok tt <->
   exists f raw addr, rec = Some f /\ trim_space signer <> "" /\
     SignedTextE2EEStream q fs = Ok (cs_Text sig) /\
     decodeSignature (cs_Signature sig) = Ok raw /\ f (cs_Text sig) raw = Ok addr /\
     addrEqual addr signer = true) /\
  VerifyE2EEStream sig q fs signer rec =
  (b ← NewStreamBinder q; b ← addFrames 0 b fs; want ← Text b;
   VerifyBoundText sig want SchemeE2EECiphertextStream signer rec).
Proof.
  split.
  - unfold VerifyE2EEStream. rewrite bind_ok. split.
    + intros (t & Ht & (f & raw & addr & -> & Hs & _ & <- & Hd & Hf & Ha)%verify_ok). eauto 10.
    + intros (f & raw & addr & -> & Hs & Ht & Hd & Hf & Ha). exists (cs_Text sig). split; [done|].
      apply verify_ok. pose proof (scheme_of_stream_text _ _ _ Ht). eauto 12.
  - unfold VerifyE2EEStream, SignedTextE2EEStream, VerifyBoundText.
    destruct (NewStreamBinder q); [|done]. cbn. by destruct (addFrames _ _ _).
Qed.

(** The schemes are apart. A signature accepted for a single response is refused
    for every stream, and the other way round, whatever the envelopes are. *)
Theorem schemes_apart `{Jcs} sig q r q' fs signer signer' rec rec' :
  VerifyE2EE sig q r signer rec = Ok tt -> VerifyE2EEStream sig q' fs signer' rec' <> Ok tt.
Proof.
  unfold VerifyE2EE, VerifyE2EEStream. rewrite !bind_ok.
  intros (t & _ & (f & raw & addr & _ & _ & Hp & <- & _)%verify_ok)
         (t' & _ & (f' & raw' & addr' & _ & _ & Hp' & <- & _)%verify_ok).
  rewrite Hp in Hp'. discriminate.
Qed.

(** ** What an accepted signature says of the exchange *)

(** Two envelopes alike: the same data in the block but for the ciphertext, the same
    ciphertext, and the same data in every field not declared unbound. *)
Definition alike `{Jcs} (env env' : gmap string json) : Prop :=
  exists raw m raw' m' unbound aad ct aad',
    env !! e2eeKey = Some raw /\ unmarshal_map raw = Ok (Some m) /\
    env' !! e2eeKey = Some raw' /\ unmarshal_map raw' = Ok (Some m') /\
    map_jequiv (delete "ciphertext" m') (delete "ciphertext" m) /\
    unbound_of m = Ok unbound /\
    (forall k, k <> e2eeKey -> (k ∉ unbound) -> option_Forall2 jequiv (env' !! k) (env !! k)) /\
    FrameBinding env = Ok (aad, ct) /\ FrameBinding env' = Ok (aad', ct).

Lemma FrameBinding_block `{Jcs} env aad ct :
  FrameBinding env = Ok (aad, ct) ->
  aadFromEnvelope env = Ok aad /\
  exists raw m, env !! e2eeKey = Some raw /\ unmarshal_map raw = Ok (Some m).
Proof.
  unfold FrameBinding. intros Hb. inv_ok. simplify_eq. split; [done|].
  match goal with H : env !! e2eeKey = Some ?x |- _ => exists x; destruct x; try done end; [|by eauto].
  cbn in *. simplify_eq.
Qed.

Lemma FrameBinding_alike `{JcsLaws} env env' aad ct :
  map_ok env -> map_ok env' -> FrameBinding env = Ok (aad, ct) -> FrameBinding env' = Ok (aad, ct) ->
  alike env env'.
Proof.
  intros Hok Hok' Hb Hb'. destruct (FrameBinding_block _ _ _ Hb) as (Ha & raw & m & Hr & Hm).
  destruct (FrameBinding_block _ _ _ Hb') as (Ha' & _).
  destruct (aadFromEnvelope_binds _ _ _ _ _ Hok Hok' Hr Hm Ha Ha')
    as (raw' & m' & unbound & Hr' & Hm' & Hj & Hu & Hk).
  exists raw, m, raw', m', unbound, aad, ct, aad. by split_and!.
Qed.

Lemma FrameBindingHash_binding `{Jcs} env h :
  FrameBindingHash env = Ok h -> exists aad ct, FrameBinding env = Ok (aad, ct).
Proof. intros (aad & ct & ? & _)%FrameBindingHash_ok. eauto. Qed.

(** C5: what the client accepted is what was signed. If a broker signed the text of one
    request and response, and the client accepts that signature for the request it
    sent and the response it received, then both carry the signed ciphertexts and the
    signed data in their blocks and in every field not declared unbound. *)
Theorem accepted_exchange `{JcsLaws} sig q r q' r' signer rec :
  map_ok q -> map_ok q' -> map_ok r -> map_ok r' ->
  collision_free (concat (map binding_inputs [q; q'; r; r'])) ->
  SignedTextE2EE q r = Ok (cs_Text sig) -> VerifyE2EE sig q' r' signer rec = Ok tt ->
  alike q q' /\ alike r r'.
Proof.
  intros Hq Hq' Hr Hr' Hl (hq & hr & Eq & Er & Ht)%SignedTextE2EE_ok Hv.
  unfold VerifyE2EE in Hv. apply bind_ok in Hv as (t' & Ht' & (_ & _ & _ & _ & _ & _ & <- & _)%verify_ok).
  apply SignedTextE2EE_ok in Ht' as (hq' & hr' & Eq' & Er' & Ht'). rewrite Ht in Ht'.
  apply formatText_inj in Ht' as [<- <-]. cbn [map concat] in Hl.
  assert (FrameBinding q = FrameBinding q') as Bq
    by (eapply FrameBindingHash_inj; [exact Hl|in_apps..|exact Eq|exact Eq']).
  assert (FrameBinding r = FrameBinding r') as Br
    by (eapply FrameBindingHash_inj; [exact Hl|in_apps..|exact Er|exact Er']).
  destruct (FrameBindingHash_binding _ _ Eq) as (a & c & E1).
  destruct (FrameBindingHash_binding _ _ Er) as (a' & c' & E2).
  split; eapply FrameBinding_alike; eauto; congruence.
Qed.

(** ** The client's recover function *)

Lemma lower_hex_graph c : is_lower_hex c = true -> graph c = true /\ is_hex_letter c = true /\ c <> "x"%char.
Proof.
  revert c. apply (all_bytes_forall (fun c => is_lower_hex c = true ->
    graph c = true /\ is_hex_letter c = true /\ c <> "x"%char)). vm_compute. reflexivity.
Qed.

Lemma hex_graph l : Forall (fun c => graph c = true) (hex_encode l).
Proof. eapply Forall_impl; [apply hex_encode_lower|]. by intros c [? _]%lower_hex_graph. Qed.

(** Both spellings of a hex signature decode. *)
Lemma decodeSignature_hex prefix raw :
  prefix = "" \/ prefix = "0x" -> length raw = 65%nat ->
  decodeSignature (str_of (bytes_of prefix ++ hex_encode raw)) = Ok raw.
Proof.
  intros Hp Hl. unfold decodeSignature, trim_space. rewrite bytes_of_str_of, trim_space_graph.
  - assert (bytes_of (trim_prefix (str_of (bytes_of prefix ++ hex_encode raw)) "0x") = hex_encode raw) as ->.
    { unfold trim_prefix. rewrite bytes_of_str_of. destruct Hp as [-> | ->].
      - destruct raw as [|c raw]; [done|]. cbn [bytes_of list_ascii_of_string app hex_encode strip_prefix].
        destruct (Ascii.eqb _ _); [|by rewrite bytes_of_str_of].
        destruct (Ascii.eqb_spec "x"%char (hex_digit (bval c mod 16))) as [E|];
          [|by rewrite bytes_of_str_of].
        pose proof (hex_encode_lower (c :: raw)) as Hh. cbn in Hh.
        inversion Hh as [|? ? _ Hh']. inversion Hh' as [|? ? Hx _].
        apply lower_hex_graph in Hx as (_ & _ & Hx). congruence.
      - cbn. by rewrite bytes_of_str_of. }
    rewrite hex_decode_encode. cbn [of_option mbind result_bind]. by rewrite Hl.
  - apply Forall_app. split; [|apply hex_graph]. destruct Hp as [-> | ->]; by repeat constructor.
Qed.

Section recovery.
Context `{Secp}.

Lemma Recover_ok text sig a :
  Recover text sig = Ok a <->
  length sig = 65%nat /\
  exists v pub, 0 <= v <= 3 /\ (bval (nth 64 sig "0"%char) = v \/ bval (nth 64 sig "0"%char) = 27 + v) /\
    RecoverCompact (byte_of (27 + v) :: take 32 sig ++ take 32 (drop 32 sig)) (eip191Hash text) = Some pub /\
    a = addressFromPubKey pub.
Proof.
  unfold Recover. pose proof (bval_range (nth 64 sig "0"%char)) as Hr.
  set (v0 := bval (nth 64 sig "0"%char)) in *. split.
  - intros Hv. inv_ok. bool_hyps. split; [by apply Nat.eqb_eq|].
    match goal with H : RecoverCompact _ _ = Some ?p |- _ => rename H into Hrec; rename p into pub end.
    exists (if 27 <=? v0 then v0 - 27 else v0), pub.
    destruct (27 <=? v0) eqn:E; split_and!; try done; lia.
  - intros (Hl & v & pub & Hv & Hv0 & Hrec & ->). rewrite Hl. cbn [negb Nat.eqb refuse mbind result_bind].
    assert ((if 27 <=? v0 then v0 - 27 else v0) = v) as -> by (destruct (Z.leb_spec 27 v0); lia).
    assert ((3 <? v) = false) as -> by lia. cbn [refuse mbind result_bind]. by rewrite Hrec.
Qed.

Lemma addressFromPubKey_graph pub : Forall (fun c => graph c = true) (bytes_of (addressFromPubKey pub)).
Proof.
  unfold addressFromPubKey. rewrite bytes_of_str_of, Forall_app. split; [by repeat constructor|apply hex_graph].
Qed.

Lemma addrEqual_nonblank pub signer :
  addrEqual (addressFromPubKey pub) signer = true -> trim_space signer <> "".
Proof.
  unfold addrEqual, equal_fold. intros E%bool_decide_eq_true_1 Hs. rewrite Hs in E.
  unfold trim_space in E. rewrite bytes_of_str_of, trim_space_graph in E by apply addressFromPubKey_graph.
  unfold addressFromPubKey in E. rewrite bytes_of_str_of in E. cbn in E.
  by destruct (hex_encode _) as [|? []].
Qed.

(** Recovery fails closed. A signature that recovers has 65 bytes and a recovery id
    in 0..3, raw or offset by 27, both of which recover the same signer; what comes
    back has the shape of a signer address. *)
Theorem recover_normalised `{!SecpLaws} text sig a :
  Recover text sig = Ok a ->
  length sig = 65%nat /\ isSignerAddr a = true /\
  exists v, 0 <= v <= 3 /\
    Recover text (take 64 sig ++ [byte_of v]) = Ok a /\
    Recover text (take 64 sig ++ [byte_of (27 + v)]) = Ok a.
Proof.
  intros (Hl & v & pub & Hv & _ & Hrec & ->)%Recover_ok. split_and!; [done|..].
  - unfold isSignerAddr, addressFromPubKey. rewrite bytes_of_str_of. cbn [bytes_of list_ascii_of_string app].
    rewrite hex_encode_length, length_drop, keccak256_length. cbn.
    apply forallb_forall. intros c Hc. apply lower_hex_graph.
    pose proof (hex_encode_lower (drop 12 (keccak256 (drop 1 pub)))) as Hh.
    rewrite Forall_forall in Hh. by apply Hh, list_elem_of_In.
  - assert (length (take 64 sig) = 64%nat) as Ht by (rewrite length_take; lia).
    exists v. split; [done|].
    assert (forall b, take 32 (take 64 sig ++ [b]) = take 32 sig /\
              take 32 (drop 32 (take 64 sig ++ [b])) = take 32 (drop 32 sig) /\
              nth 64 (take 64 sig ++ [b]) "0"%char = b) as Hb.
    { intros b. rewrite take_app_le, drop_app_le, take_app_le by (rewrite ?length_drop; lia).
      rewrite take_take, skipn_firstn_comm, take_take. split_and!; [done..|].
      rewrite app_nth2 by lia. by rewrite Ht. }
    split; apply Recover_ok; (split; [rewrite length_app, Ht; done|]); exists v, pub.
    + destruct (Hb (byte_of v)) as (E1 & E2 & E3). rewrite E1, E2, E3, bval_byte_of_small by lia.
      split_and!; [lia..|by left|done|done].
    + destruct (Hb (byte_of (27 + v))) as (E1 & E2 & E3). rewrite E1, E2, E3, bval_byte_of_small by lia.
      split_and!; [lia..|by right|done|done].
Qed.
End recovery.

(** A broker's signature verifies. If the curve recovers the broker's key from the
    two halves and the recovery id over the EIP-191 hash of the text, then the client
    accepts the signature in hex with or without the prefix and with the id raw or
    offset by 27, against that key's address in any letter case. *)
Theorem broker_signature_verifies `{Jcs} `{Secp} q r t rs v v' pub signer prefix claimed algo :
  SignedTextE2EE q r = Ok t -> length rs = 64%nat -> 0 <= v <= 3 -> v' = v \/ v' = 27 + v ->
  RecoverCompact (byte_of (27 + v) :: rs) (eip191Hash t) = Some pub ->
  addrEqual (addressFromPubKey pub) signer = true -> prefix = "" \/ prefix = "0x" ->
  VerifyE2EE (MkChatSignature t (str_of (bytes_of prefix ++ hex_encode (rs ++ [byte_of v']))) claimed algo)
    q r signer (Some Recover) = Ok tt.
Proof.
  intros Ht Hl Hv Hv' Hrec Ha Hp. unfold VerifyE2EE. rewrite Ht. cbn [mbind result_bind].
  apply verify_ok. exists Recover, (rs ++ [byte_of v']), (addressFromPubKey pub).
  split_and!; [done|by eapply addrEqual_nonblank|by eapply scheme_of_text|done|..|done].
  - apply decodeSignature_hex; [done|]. rewrite length_app, Hl. done.
  - apply Recover_ok. split; [rewrite length_app, Hl; done|]. exists v, pub.
    rewrite app_nth2 by lia. rewrite Hl. cbn [nth Nat.sub].
    rewrite bval_byte_of_small by lia.
    rewrite take_app_le, drop_app_le, take_app_le by (rewrite ?length_drop; lia).
    rewrite (take_ge (drop 32 rs)) by (rewrite length_drop; lia). rewrite take_drop.
    split_and!; [lia..|done|done].
Qed.

(** ** Witnesses: the chat exchange of [EnvelopeWitness], one answer and a stream *)

Module ProofWitness.
Import EnvelopeWitness.

(** A response frame as the wire carries it. *)
Definition answer_frame (text ct : string) : gmap string json :=
  <[e2eeKey := obj [("v", JNum (bytes_of "1")); ("unbound_fields", JArr [str "model"]); ("ciphertext", str ct)]]>
    (<["id" := str text]> {[ "model" := str "m" ]}).
Definition request_env : gmap string json := compact <$> chat_env "hi".
Definition response_env : gmap string json := answer_frame "one" "AAAA".
(** The same frame after an intermediary renamed the model, which is unbound. *)
Definition routed_env : gmap string json := <["model" := str "other"]> response_env.
Definition stream_envs : list (gmap string json) := [answer_frame "one" "AAAA"; answer_frame "two" "BBBB"].

Definition text_of (r : presult string) : string := match r with Ok t => t | Err _ => "" end.
Definition exchange_text : string := text_of (SignedTextE2EE request_env response_env).
Definition stream_text : string := text_of (SignedTextE2EEStream request_env stream_envs).
Lemma exchange_signed : SignedTextE2EE request_env response_env = Ok exchange_text.
Proof. vm_cast_no_check (eq_refl (SignedTextE2EE request_env response_env)). Qed.
Lemma routed_signed : SignedTextE2EE request_env routed_env = Ok exchange_text.
Proof. vm_cast_no_check (eq_refl (SignedTextE2EE request_env routed_env)). Qed.
Lemma stream_signed : SignedTextE2EEStream request_env stream_envs = Ok stream_text.
Proof. vm_cast_no_check (eq_refl (SignedTextE2EEStream request_env stream_envs)). Qed.

Lemma exchange_inputs :
  collision_free (concat (map binding_inputs [request_env; request_env; response_env; routed_env])).
Proof. apply distinct_digests_ok. vm_cast_no_check (eq_refl true). Qed.
Lemma stream_inputs :
  collision_free (binding_inputs request_env ++ binding_inputs request_env
    ++ concat (map binding_inputs (stream_envs ++ stream_envs)) ++ [frames_agg stream_envs; frames_agg stream_envs]).
Proof. apply distinct_digests_ok. vm_cast_no_check (eq_refl true). Qed.

(** A curve with one key, and a hash of the right length. *)
#[export] Instance toy_curve : Secp := {
  RecoverCompact compact h := if Nat.eqb (length compact) 65 then Some (repeat "p"%char 65) else None;
  keccak256 := sha256
}.
#[export] Instance toy_laws : SecpLaws.
Proof. intros m. apply sha256_length. Qed.

Definition rs : bytes := repeat "s"%char 64.
Definition toy_pub : bytes := repeat "p"%char 65.
Definition toy_signer : string := addressFromPubKey toy_pub.
Definition chat_signature (text : string) : ChatSignature :=
  MkChatSignature text (str_of (bytes_of "0x" ++ hex_encode (rs ++ [byte_of 28]))) "" "ecdsa".
Lemma toy_addr : addrEqual toy_signer toy_signer = true.
Proof. vm_cast_no_check (eq_refl true). Qed.
Lemma exchange_verifies :
  VerifyE2EE (chat_signature exchange_text) request_env routed_env toy_signer (Some Recover) = Ok tt.
Proof. vm_cast_no_check (@eq_refl (presult unit) (Ok tt)). Qed.
Lemma request_env_ok : map_ok request_env.
Proof. refine (bool_decide_eq_true_1 _ _). vm_compute. reflexivity. Qed.
Lemma response_env_ok : map_ok response_env.
Proof. refine (bool_decide_eq_true_1 _ _). vm_compute. reflexivity. Qed.
Lemma routed_env_ok : map_ok routed_env.
Proof. refine (bool_decide_eq_true_1 _ _). vm_compute. reflexivity. Qed.
Lemma toy_recovers : Recover exchange_text (rs ++ [byte_of 28]) = Ok toy_signer.
Proof. vm_cast_no_check (@eq_refl (result sigerr string) (Ok toy_signer)). Qed.
End ProofWitness.

Section witnesses.
Import EnvelopeWitness ProofWitness.

Lemma signed_text_binds_witness :
  exchange_text <> "" /\ FrameBinding response_env = FrameBinding routed_env.
Proof.
  split; [vm_compute; discriminate|].
  exact (proj2 (signed_text_binds _ _ _ _ _ exchange_inputs exchange_signed routed_signed)).
Defined.

Lemma stream_text_binds_witness : map FrameBinding stream_envs = map FrameBinding stream_envs.
Proof. exact (proj2 (stream_text_binds _ _ _ _ _ stream_inputs stream_signed stream_signed)). Defined.

Lemma schemes_apart_witness :
  VerifyE2EEStream (chat_signature exchange_text) request_env [routed_env] toy_signer (Some Recover) <> Ok tt.
Proof. exact (schemes_apart _ _ _ _ _ _ _ _ _ exchange_verifies). Defined.

Lemma accepted_exchange_witness : alike response_env routed_env.
Proof.
  exact (proj2 (accepted_exchange (chat_signature exchange_text) _ _ _ _ _ _ request_env_ok request_env_ok
    response_env_ok routed_env_ok exchange_inputs exchange_signed exchange_verifies)).
Defined.

Lemma recover_normalised_witness : isSignerAddr toy_signer = true.
Proof. exact (proj1 (proj2 (recover_normalised _ _ _ toy_recovers))). Defined.

Lemma broker_signature_verifies_witness :
  VerifyE2EE (chat_signature exchange_text) request_env response_env toy_signer (Some Recover) = Ok tt.
Proof.
  exact (broker_signature_verifies _ _ _ rs 1 28 toy_pub _ _ _ _ exchange_signed eq_refl
    (conj Z.le_0_1 (proj1 (Z.leb_le 1 3) eq_refl)) (or_intror eq_refl) eq_refl toy_addr (or_intror eq_refl)).
Defined.
End witnesses.
