(* ===== verification/Attest.v ===== *)
(** * Attest: what a provider's quote says ([protocol/attest])

    A TDX quote carries measurement registers and 64 bytes of report data at fixed
    offsets; a broker's report data binds the key the client seals to and the signer
    that answers; an ingress's binds a manifest of evidence; [mr_config_id] commits to
    the application's compose file. Parsing and checking a quote's signature is a
    parameter ([quoteParser]), what is done with its result is the component.

    The theorems: the verifier returns exactly the keys of an authentic quote whose
    boot chain the policy allows (or, when only warning, says that it does not); a
    verifier without a parser trusts nothing; the three layouts round-trip, reject
    everything else, and cannot be taken for one another; [app_compose] is read alike
    from both shapes of the reply. *)

From S2P Require Import Prelude GoBytes GoHash GoJson GoDecode GoJsonEq Profile Hpke.

(** ** Registers and policies ([measurement.go]) *)

Definition measurementRegLen : nat := 48.

Record Measurement := MkMeasurement { MRTD : bytes; RTMR0 : bytes; RTMR1 : bytes; RTMR2 : bytes; RTMR3 : bytes }.
Record BootChain := MkBootChain { bc_MRTD : bytes; bc_RTMR1 : bytes; bc_RTMR2 : bytes }.

#[export] Instance Measurement_eq_dec : EqDecision Measurement.
Proof. solve_decision. Defined.
#[export] Instance BootChain_eq_dec : EqDecision BootChain.
Proof. solve_decision. Defined.
#[export] Instance BootChain_countable : Countable BootChain.
Proof.
  apply (inj_countable' (fun b => (bc_MRTD b, bc_RTMR1 b, bc_RTMR2 b))
           (fun '(x, y, z) => MkBootChain x y z)). by intros [].
Defined.

Definition BootChainOf (m : Measurement) : BootChain := MkBootChain (MRTD m) (RTMR1 m) (RTMR2 m).

Definition zeros (n : nat) : bytes := repeat (byte_of 0) n.
Definition IsZero (b : BootChain) : bool :=
  bool_decide (b = MkBootChain (zeros measurementRegLen) (zeros measurementRegLen) (zeros measurementRegLen)).

Record BootChainPolicy := MkPolicy { Allowed : list BootChain; Names : gmap BootChain string }.

Definition Permits (p : BootChainPolicy) (b : BootChain) : bool :=
  if IsZero b then false else existsb (fun a => bool_decide (a = b)) (Allowed p).

(** A missing key of a Go map reads as the zero value. *)
Definition Name (p : BootChainPolicy) (b : BootChain) : string :=
  if Permits p b then default "" (Names p !! b) else "".

Definition Configured (p : BootChainPolicy) : bool := Nat.ltb 0 (length (Allowed p)).

(** ** Errors *)

Inductive aerr :=
| AEmptyQuote
| ANotConfigured
| AUntrusted
| APolicyNotConfigured
| AParse (e : string)
| ALength (n : nat)
| AVersion (v : Z)
| AReserved
| ADigest
| APadding (i : nat) (b : Z)
| AQuoteShort (n : nat)
| AMRConfig (what : string)
| ADecode (e : jerr)
| ANoQuote
| AQuoteHex
| ANoAppCompose.
Abbreviation aresult := (result aerr).

(** ** Report data ([reportdata.go]) *)

Definition ReportDataVersion : Z := 1.
Definition reportDataLen : nat := 64.
Definition encPubOff : nat := 0.
Definition encPubLen : nat := 32.
Definition signerOff : nat := 32.
Definition signerLen : nat := 20.
Definition versionOff : nat := 52.
Definition versionLen : nat := 4.
Definition reservedOff : nat := 56.
Definition reservedLen : nat := 8.

(** Go's [b[off:off+len]]. *)
Definition slice (off len : nat) (b : bytes) : bytes := take len (drop off b).

Record ReportData := MkReportData { rd_EncPub : PublicKey; rd_SignerAddr : string; rd_Version : Z }.

Definition hex_addr (b : bytes) : string := str_of (bytes_of "0x" ++ hex_encode b).

Definition ParseReportData (rd : bytes) : aresult ReportData :=
  _ ← refuse (negb (Nat.eqb (length rd) reportDataLen)) (ALength (length rd));
  let version := word_be (slice versionOff versionLen rd) in
  _ ← refuse (negb (version =? ReportDataVersion)) (AVersion version);
  _ ← each (fun b => refuse (negb (bval b =? 0)) AReserved) (slice reservedOff reservedLen rd);
  Ok (MkReportData (slice encPubOff encPubLen rd) (hex_addr (slice signerOff signerLen rd)) version).

(** ** The quote's body ([tdxquote.go]) *)

Definition quoteHeaderLen : nat := 48.
Definition tdBodyLen : nat := 584.
Definition minQuoteLen : nat := quoteHeaderLen + tdBodyLen.
Definition mrtdOff : nat := 184.
Definition mrConfigIDOff : nat := 232.
Definition rtmr0Off : nat := 376.
Definition rtmr1Off : nat := 424.
Definition rtmr2Off : nat := 472.
Definition rtmr3Off : nat := 520.
Definition reportDataOff : nat := 568.
Definition mrConfigIDLen : nat := measurementRegLen.

Record QuoteBody := MkQuoteBody { qb_Measurement : Measurement; qb_MRConfigID : bytes; qb_ReportData : bytes }.

Definition ParseTDXQuoteBody (raw : bytes) : aresult QuoteBody :=
  _ ← refuse (Nat.ltb (length raw) minQuoteLen) (AQuoteShort (length raw));
  Ok (MkQuoteBody
        (MkMeasurement (slice mrtdOff measurementRegLen raw) (slice rtmr0Off measurementRegLen raw)
           (slice rtmr1Off measurementRegLen raw) (slice rtmr2Off measurementRegLen raw)
           (slice rtmr3Off measurementRegLen raw))
        (slice mrConfigIDOff mrConfigIDLen raw)
        (slice reportDataOff reportDataLen raw)).

(** ** The verifier ([verify.go]) *)

Definition quoteParser : Type := bytes -> aresult (Measurement * bytes).
Definition notConfigured : quoteParser := fun _ => Err ANotConfigured.

Inductive MeasurementMode := ModeEnforce | ModeWarn.
Definition is_enforce (m : MeasurementMode) : bool := match m with ModeEnforce => true | ModeWarn => false end.

Record Verifier := MkVerifier { v_policy : BootChainPolicy; v_parse : quoteParser; v_mode : MeasurementMode }.

(** [Option]: the two there are; the nil parser is [None]. *)
Definition VerifierOption : Type := Verifier -> Verifier.
Definition WithMeasurementMode (m : MeasurementMode) : VerifierOption :=
  fun v => MkVerifier (v_policy v) (v_parse v) m.
Definition WithQuoteParser (p : option quoteParser) : VerifierOption :=
  fun v => match p with Some p => MkVerifier (v_policy v) p (v_mode v) | None => v end.

Definition New (policy : BootChainPolicy) (opts : list VerifierOption) : Verifier :=
  fold_left (fun v o => o v) opts (MkVerifier policy notConfigured ModeEnforce).

Definition MeasurementBaselineConfigured (v : Verifier) : bool := Configured (v_policy v).

Record Verified := MkVerified {
  vd_EncPub : PublicKey;
  vd_SignerAddr : string;
  vd_Measurement : Measurement;
  vd_MeasurementTrusted : bool;
  vd_MeasurementImage : string
}.

(** The allowlist decision of [Verify]. *)
Definition checkAllowlist (v : Verifier) (trusted : bool) : aresult unit :=
  if negb trusted && is_enforce (v_mode v)
  then if negb (Configured (v_policy v)) then Err APolicyNotConfigured else Err AUntrusted
  else Ok tt.

Definition Verify (v : Verifier) (rawQuote : bytes) : aresult Verified :=
  _ ← refuse (Nat.eqb (length rawQuote) 0) AEmptyQuote;
  '(measurement, reportData) ← v_parse v rawQuote;
  let bootChain := BootChainOf measurement in
  let trusted := Permits (v_policy v) bootChain in
  _ ← checkAllowlist v trusted;
  rd ← ParseReportData reportData;
  Ok (MkVerified (rd_EncPub rd) (rd_SignerAddr rd) measurement trusted (Name (v_policy v) bootChain)).

(** ** dstack's layouts ([dstack.go]) *)

Definition DecodeQuoteResponse (body : bytes) : aresult bytes :=
  q ← map_err ADecode (unmarshal (unmarshal_struct [("quote", set_string)] "") body);
  _ ← refuse (String.eqb q "") ANoQuote;
  of_option (hex_decode (bytes_of q)) AQuoteHex.

Definition UnwrapJSONString (raw : bytes) : result jerr bytes :=
  let trimmed := trim_space_bytes raw in
  match trimmed with
  | c :: _ => if Ascii.eqb c (byte_of 34)
              then s ← unmarshal unmarshal_string trimmed; Ok (bytes_of s)
              else Ok trimmed
  | [] => Ok trimmed
  end.

(** The bytes of a raw message: nil for an absent member, else its text. *)
Definition raw_bytes (o : option json) : bytes := match o with Some j => print j | None => [] end.

Definition AppComposeFromQuoteResponse (body : bytes) : aresult bytes :=
  tcb ← map_err ADecode (unmarshal (unmarshal_struct [("tcb_info", fun _ j => Ok (Some j))] None) body);
  tcbInfo ← map_err ADecode (UnwrapJSONString (raw_bytes tcb));
  _ ← refuse (Nat.eqb (length tcbInfo) 0) ANoAppCompose;
  app ← map_err ADecode (unmarshal (unmarshal_struct [("app_compose", set_string)] "") tcbInfo);
  _ ← refuse (String.eqb app "") ANoAppCompose;
  Ok (bytes_of app).

Definition MRConfigV1 : Z := 1.
Definition MRConfigV2 : Z := 2.
Definition MRConfigV3 : Z := 3.
Definition ComposeHashLen : nat := 32.
Definition AppIDLen : nat := 20.
Definition evidenceManifestHashLen : nat := 32.

(** The index of the first byte that is not zero, and that byte. *)
Fixpoint first_nonzero (i : nat) (l : bytes) : option (nat * Z) :=
  match l with
  | [] => None
  | b :: l => if bval b =? 0 then first_nonzero (S i) l else Some (i, bval b)
  end.

Definition ComposeHashFromMRConfigID (mrConfigID : bytes) : aresult bytes :=
  let version := bval (nth 0 mrConfigID (byte_of 0)) in
  _ ← refuse (negb (version =? MRConfigV1)) (AMRConfig "version");
  match first_nonzero (1 + ComposeHashLen) (drop (1 + ComposeHashLen) mrConfigID) with
  | Some _ => Err (AMRConfig "padding")
  | None =>
      let out := slice 1 ComposeHashLen mrConfigID in
      _ ← refuse (bool_decide (out = zeros ComposeHashLen)) (AMRConfig "compose_hash is all zero");
      Ok out
  end.

Definition AppIDFromComposeHash (composeHash : bytes) : string := str_of (hex_encode (take AppIDLen composeHash)).

Definition EvidenceReportData (manifest : bytes) : bytes :=
  sha256 manifest ++ zeros (reportDataLen - evidenceManifestHashLen).

Definition VerifyEvidenceReportData (rd manifest : bytes) : aresult unit :=
  let want := EvidenceReportData manifest in
  _ ← refuse (negb (bool_decide (take evidenceManifestHashLen rd = take evidenceManifestHashLen want))) ADigest;
  match first_nonzero evidenceManifestHashLen (drop evidenceManifestHashLen rd) with
  | Some (i, b) => Err (APadding i b)
  | None => Ok tt
  end.

(** ** Bytes at offsets *)

Lemma slice_app_l off n a b : (off + n <= length a)%nat -> slice off n (a ++ b) = slice off n a.
Proof.
  intros Hl. unfold slice. rewrite drop_app_le by lia. apply take_app_le. rewrite length_drop. lia.
Qed.

Lemma slice_at off n a b c :
  length a = off -> length b = n -> slice off n (a ++ b ++ c) = b.
Proof. intros <- <-. unfold slice. by rewrite drop_app_length, take_app_length. Qed.

Lemma slice_skip off o n a b : off = (length a + o)%nat -> slice off n (a ++ b) = slice o n b.
Proof. intros ->. unfold slice. rewrite drop_app_ge by lia. do 2 f_equal. lia. Qed.

Lemma slice_here n a b : length a = n -> slice 0 n (a ++ b) = a.
Proof. intros <-. unfold slice. by rewrite drop_0, take_app_length. Qed.

(** Finds a slice in a concatenation of parts of known lengths. *)
Ltac find_slice :=
  repeat match goal with
  | Hl : length ?a = ?k |- slice ?off ?n (?a ++ ?b) = _ =>
      let ok := eval vm_compute in (Nat.leb k off) in
      lazymatch ok with true =>
        let o := eval vm_compute in (off - k)%nat in
        rewrite (slice_skip off o n a b) by (rewrite Hl; reflexivity)
      end
  end; apply slice_here; assumption.

Lemma slice_length off n b : (off + n <= length b)%nat -> length (slice off n b) = n.
Proof. intros Hl. unfold slice. rewrite length_take, length_drop. lia. Qed.

(** A byte string as its consecutive slices. *)
Lemma slice_split off n m b : slice off (n + m) b = slice off n b ++ slice (off + n) m b.
Proof.
  unfold slice. rewrite <-drop_drop. generalize (drop off b). intros l.
  revert l. induction n as [|n IH]; intros [|c l]; cbn; rewrite ?take_nil; [done..|]. by rewrite IH.
Qed.

Lemma slice_all n b : length b = n -> slice 0 n b = b.
Proof. intros <-. unfold slice. by rewrite drop_0, firstn_all. Qed.

Lemma byte_zero c : bval c = 0 <-> c = byte_of 0.
Proof. split; [intros Hc; by rewrite <-(byte_of_bval c), Hc|by intros ->]. Qed.

Lemma zero_bytes l : Forall (fun c => bval c = 0) l <-> l = zeros (length l).
Proof.
  unfold zeros. induction l as [|c l IH]; cbn; [by split|].
  rewrite Forall_cons, byte_zero, IH. split; [intros [-> E]; by f_equal|by intros [= -> E]].
Qed.

Lemma first_nonzero_none i l : first_nonzero i l = None <-> l = zeros (length l).
Proof.
  rewrite <-zero_bytes. revert i. induction l as [|c l IH]; intros i; cbn; [by split|].
  rewrite Forall_cons. destruct (Z.eqb_spec (bval c) 0); [by rewrite IH; naive_solver|].
  split; [done|by intros [? _]].
Qed.

Lemma word_be_4 l : length l = 4%nat -> word_be l = 1 <-> l = be_bytes 4 1.
Proof.
  destruct l as [|a [|b [|c [|d [|]]]]]; try done. intros _. unfold word_be. cbn [fold_left].
  pose proof (bval_range a). pose proof (bval_range b). pose proof (bval_range c). pose proof (bval_range d).
  split.
  - intros E. assert (bval a = 0 /\ bval b = 0 /\ bval c = 0 /\ bval d = 1) as (Ea & Eb & Ec & Ed) by lia.
    rewrite <-(byte_of_bval a), <-(byte_of_bval b), <-(byte_of_bval c), <-(byte_of_bval d).
    by rewrite Ea, Eb, Ec, Ed.
  - by intros [= -> -> -> ->].
Qed.

(** ** Report data *)

(** The layout a broker writes. *)
Definition report_data (encPub signer : bytes) : bytes := encPub ++ signer ++ be_bytes 4 1 ++ zeros reservedLen.

Lemma ParseReportData_ok rd r :
  ParseReportData rd = Ok r <->
  exists encPub signer, length encPub = encPubLen /\ length signer = signerLen /\
    rd = report_data encPub signer /\ r = MkReportData encPub (hex_addr signer) ReportDataVersion.
Proof.
  unfold ParseReportData. split.
  - intros Hp. inv_ok. subst r.
    match goal with H : each _ _ = _ |- _ => rename H into Hz end.
    match goal with H : negb (Nat.eqb _ _) = _ |- _ => apply negb_false_iff, Nat.eqb_eq in H; rename H into Hl end.
    match goal with H : negb (_ =? _) = _ |- _ => apply negb_false_iff, Z.eqb_eq in H; rename H into Hv end.
    unfold reportDataLen, encPubOff, encPubLen, signerOff, signerLen, versionOff, versionLen, reservedOff,
      reservedLen in *.
    exists (slice 0 32 rd), (slice 32 20 rd). split_and!; [apply slice_length; lia..| |by rewrite Hv].
    rewrite <-(slice_all 64 rd Hl) at 1. change 64%nat with (32 + (20 + (4 + 8)))%nat.
    rewrite !slice_split. unfold report_data. repeat f_equal.
    + apply word_be_4; [apply slice_length; cbn; lia|done].
    + apply each_ok in Hz. assert (Forall (fun c => bval c = 0) (slice 56 8 rd)) as Hz'
        by (eapply Forall_impl; [exact Hz|]; intros c Hc; by apply refuse_ok, negb_false_iff, Z.eqb_eq in Hc).
      apply zero_bytes in Hz'. rewrite slice_length in Hz' by lia. exact Hz'.
  - intros (encPub & signer & He & Hs & -> & ->). unfold encPubLen, signerLen in *.
    assert (length (report_data encPub signer) = 64%nat) as ->
      by (unfold report_data; rewrite !length_app, He, Hs; done).
    cbn [negb Nat.eqb reportDataLen refuse mbind result_bind].
    assert (slice versionOff versionLen (report_data encPub signer) = be_bytes 4 1) as ->
      by (unfold report_data; rewrite app_assoc; apply slice_at; [rewrite length_app, He, Hs|]; done).
    change (word_be (be_bytes 4 1)) with 1. cbn [Z.eqb negb refuse mbind result_bind ReportDataVersion Pos.eqb].
    assert (slice reservedOff reservedLen (report_data encPub signer) = zeros 8) as ->.
    { unfold report_data. rewrite !app_assoc, <-(app_nil_r (zeros _)). apply slice_at; [|done].
      by rewrite !length_app, He, Hs. }
    cbn [each zeros repeat].
    assert (slice encPubOff 32 (report_data encPub signer) = encPub) as ->
      by (apply (slice_at 0 32 [] encPub); done).
    assert (slice signerOff 20 (report_data encPub signer) = signer) as ->
      by (apply (slice_at 32 20 encPub signer); done).
    reflexivity.
Qed.

(** The report data layout round-trips and admits nothing else. [ParseReportData]
    reads back exactly the byte strings [enc_pub (32) || signer (20) || version 1 (4,
    big-endian) || zero (8)], and returns the key and the signer address they hold. *)
Theorem report_data_layout rd r :
  ParseReportData rd = Ok r <->
  length (rd_EncPub r) = encPubLen /\ rd_Version r = 1 /\
  exists signer, length signer = signerLen /\ rd_SignerAddr r = hex_addr signer /\
    rd = rd_EncPub r ++ signer ++ be_bytes 4 1 ++ zeros 8.
Proof.
  rewrite ParseReportData_ok. destruct r as [e s v]. cbn [rd_EncPub rd_SignerAddr rd_Version]. split.
  - intros (encPub & signer & He & Hs & -> & [= -> -> ->]). eauto 10.
  - intros (He & -> & signer & Hs & -> & ->). exists e, signer. done.
Qed.

(** The two layouts of report data never cross. What checks as an ingress's binding
    of a manifest is refused as a broker's binding of keys, whatever the manifest. *)
Theorem report_data_disjoint rd manifest :
  length rd = reportDataLen -> VerifyEvidenceReportData rd manifest = Ok tt ->
  exists e, ParseReportData rd = Err e.
Proof.
  intros Hl Hv. destruct (ParseReportData rd) as [r|e] eqn:Hp; [exfalso|by exists e].
  apply ParseReportData_ok in Hp as (encPub & signer & He & Hs & -> & _).
  unfold VerifyEvidenceReportData in Hv. inv_ok.
  destruct (first_nonzero _ _) as [[i b]|] eqn:Hz; [done|]. apply first_nonzero_none in Hz.
  apply zero_bytes in Hz. unfold report_data, evidenceManifestHashLen in Hz.
  rewrite drop_app_length' in Hz by done. rewrite !Forall_app in Hz. destruct Hz as (_ & Hz & _).
  apply (Forall_forall _ _) with (x := byte_of 1) in Hz; [done|].
  apply list_elem_of_In. cbn. tauto.
Qed.

(** An evidence quote commits to one manifest. The report data [EvidenceReportData]
    builds verifies, nothing else verifies for that manifest, and two manifests that
    verify against the same report data are the same unless SHA-256 collides on them. *)
Theorem evidence_binding rd manifest :
  length rd = reportDataLen ->
  (VerifyEvidenceReportData rd manifest = Ok tt <-> rd = EvidenceReportData manifest) /\
  forall manifest', collision_free [manifest; manifest'] ->
    VerifyEvidenceReportData rd manifest = Ok tt -> VerifyEvidenceReportData rd manifest' = Ok tt ->
    manifest' = manifest.
Proof.
  intros Hl.
  assert (forall m, VerifyEvidenceReportData rd m = Ok tt <-> rd = EvidenceReportData m) as Hiff.
  { intros m. unfold VerifyEvidenceReportData, EvidenceReportData, evidenceManifestHashLen, reportDataLen in *.
    rewrite take_app_length' by (by rewrite sha256_length). split.
    - intros Hv. inv_ok. apply negb_false_iff, bool_decide_eq_true_1 in H.
      destruct (first_nonzero _ _) as [[i b]|] eqn:Hz; [done|]. apply first_nonzero_none in Hz.
      rewrite <-(take_drop 32 rd), H, Hz, length_drop, Hl. done.
    - intros ->. rewrite take_app_length', drop_app_length' by (by rewrite sha256_length).
      rewrite bool_decide_eq_true_2 by done. cbn [negb refuse mbind result_bind].
      rewrite (proj2 (first_nonzero_none 32 (zeros (64 - 32))) eq_refl). done. }
  split; [apply Hiff|]. intros m' Hc Hm%Hiff Hm'%Hiff. rewrite Hm in Hm'. unfold EvidenceReportData in Hm'.
  apply app_inj_1 in Hm' as [E _]; [|by rewrite !sha256_length].
  symmetry. eapply collision_free_eq; [exact Hc|repeat constructor..|exact E].
Qed.

(** The offsets are those of the TDX layout. For any quote assembled from the header
    and the body's fields at their documented widths, in their documented order, with
    anything behind, [ParseTDXQuoteBody] returns exactly the measurement registers,
    [mr_config_id] and the report data; shorter inputs are refused. *)
Theorem quote_layout header svn seam seamsigner seam_attr td_attr xfam mrtd config owner owner_config
    rtmr0 rtmr1 rtmr2 rtmr3 report tail :
  length header = 48%nat -> length svn = 16%nat -> length seam = 48%nat -> length seamsigner = 48%nat ->
  length seam_attr = 8%nat -> length td_attr = 8%nat -> length xfam = 8%nat -> length mrtd = 48%nat ->
  length config = 48%nat -> length owner = 48%nat -> length owner_config = 48%nat ->
  length rtmr0 = 48%nat -> length rtmr1 = 48%nat -> length rtmr2 = 48%nat -> length rtmr3 = 48%nat ->
  length report = 64%nat ->
  let quote := header ++ svn ++ seam ++ seamsigner ++ seam_attr ++ td_attr ++ xfam ++ mrtd ++ config
                 ++ owner ++ owner_config ++ rtmr0 ++ rtmr1 ++ rtmr2 ++ rtmr3 ++ report ++ tail in
  ParseTDXQuoteBody quote = Ok (MkQuoteBody (MkMeasurement mrtd rtmr0 rtmr1 rtmr2 rtmr3) config report) /\
  forall n, (n < minQuoteLen)%nat -> exists e, ParseTDXQuoteBody (take n quote) = Err e.
Proof.
  intros. subst quote. split.
  - unfold ParseTDXQuoteBody.
    rewrite (proj2 (Nat.ltb_ge _ _)) by (rewrite !length_app; unfold minQuoteLen, quoteHeaderLen, tdBodyLen; lia).
    cbn [refuse mbind result_bind].
    unfold mrtdOff, rtmr0Off, rtmr1Off, rtmr2Off, rtmr3Off, mrConfigIDOff, reportDataOff, mrConfigIDLen,
      measurementRegLen, reportDataLen.
    f_equal. f_equal; [f_equal|..]; find_slice.
  - intros n Hn. unfold ParseTDXQuoteBody. rewrite (proj2 (Nat.ltb_lt _ _)); [by eexists|].
    rewrite length_take. lia.
Qed.

(** ** The verifier *)

Lemma checkAllowlist_ok v t : checkAllowlist v t = Ok tt <-> t = true \/ v_mode v = ModeWarn.
Proof.
  unfold checkAllowlist. destruct t, (v_mode v); cbn [negb andb is_enforce]; [by split; auto..| |by split; auto].
  split; [by destruct (Configured (v_policy v))|by intros [? | ?]].
Qed.

(** The verifier returns the keys of an authentic, allowed quote, and nothing else.
    [Verify] succeeds exactly when the quote is not empty, its parser vouches for it,
    the policy permits the boot chain or the mode only warns, and the report data has
    the broker's layout; the result carries the key and signer that layout holds, the
    registers, whether the policy permitted them, and the name the policy gives them. *)
Theorem Verify_iff v raw r :
  Verify v raw = Ok r <->
  raw <> [] /\ exists m rd keys, v_parse v raw = Ok (m, rd) /\ ParseReportData rd = Ok keys /\
    (Permits (v_policy v) (BootChainOf m) = true \/ v_mode v = ModeWarn) /\
    r = MkVerified (rd_EncPub keys) (rd_SignerAddr keys) m (Permits (v_policy v) (BootChainOf m))
          (Name (v_policy v) (BootChainOf m)).
Proof.
  unfold Verify. split.
  - intros Hv. inv_ok. split; [by intros ->|]. destruct x0 as [m rd]. inv_ok. subst r.
    eexists m, rd, _. split_and!; [done|done| |done]. by apply checkAllowlist_ok.
  - intros (Hne & m & rd & keys & Hp & Hk & Hm & ->). rewrite Hp. destruct raw as [|c raw]; [done|].
    cbn [length Nat.eqb refuse mbind result_bind].
    rewrite (proj2 (checkAllowlist_ok v _) Hm). cbn [mbind result_bind]. by rewrite Hk.
Qed.

(** Nothing is trusted by default. Whatever the policy, a verifier built with no
    parser (none of the options, or only nil ones) refuses every quote; and a verifier
    that enforces an empty allowlist refuses every quote its parser accepts, as a
    configuration error, and reports that no baseline is configured. *)
Theorem fail_closed policy opts raw :
  Forall (fun o => o = WithQuoteParser None \/ exists m, o = WithMeasurementMode m) opts ->
  (exists e, Verify (New policy opts) raw = Err e /\ (e = AEmptyQuote \/ e = ANotConfigured)) /\
  forall p m rd, p raw = Ok (m, rd) -> raw <> [] ->
    Verify (New (MkPolicy [] (Names policy)) [WithQuoteParser (Some p)]) raw = Err APolicyNotConfigured /\
    MeasurementBaselineConfigured (New (MkPolicy [] (Names policy)) [WithQuoteParser (Some p)]) = false.
Proof.
  intros Ho. split.
  - assert (v_parse (New policy opts) = notConfigured) as Hn.
    { unfold New. assert (v_parse (MkVerifier policy notConfigured ModeEnforce) = notConfigured) as Hi by done.
      revert Hi. generalize (MkVerifier policy notConfigured ModeEnforce).
      induction Ho as [|o opts [-> | [m ->]] _ IH]; intros v Hv; [done|..]; apply IH; [done|].
      exact Hv. }
    unfold Verify. rewrite Hn. destruct raw as [|c raw]; cbn; eauto.
  - intros p m rd Hp Hne. destruct raw as [|c raw]; [done|]. split; [|done].
    unfold Verify, New, WithQuoteParser. cbn [fold_left v_parse length Nat.eqb refuse mbind result_bind].
    rewrite Hp. cbn [mbind result_bind v_policy]. unfold checkAllowlist, Permits. cbn [Allowed existsb v_policy].
    by destruct (IsZero (BootChainOf m)).
Qed.

(** What the policy permits it names, and what it names it permits. *)
Lemma Name_permits p b : Name p b <> "" -> Permits p b = true /\ Names p !! b = Some (Name p b).
Proof.
  unfold Name. destruct (Permits p b); [|done]. destruct (Names p !! b) eqn:E; done.
Qed.

(** A trusted image is an audited one. A boot chain is permitted exactly when it is
    on the list and not all zero; registers outside the boot chain ([RTMR0], [RTMR3])
    play no part; the image name a result carries is the policy's for that chain. *)
Theorem trusted_image v raw r m' :
  Verify v raw = Ok r ->
  (vd_MeasurementTrusted r = true <->
   IsZero (BootChainOf (vd_Measurement r)) = false /\ BootChainOf (vd_Measurement r) ∈ Allowed (v_policy v)) /\
  (vd_MeasurementImage r <> "" ->
   vd_MeasurementTrusted r = true /\
   Names (v_policy v) !! BootChainOf (vd_Measurement r) = Some (vd_MeasurementImage r)) /\
  (MRTD m' = MRTD (vd_Measurement r) -> RTMR1 m' = RTMR1 (vd_Measurement r) ->
   RTMR2 m' = RTMR2 (vd_Measurement r) ->
   Permits (v_policy v) (BootChainOf m') = vd_MeasurementTrusted r).
Proof.
  unfold Verify. intros Hv. inv_ok. destruct x0 as [m rd]. inv_ok. subst r.
  cbn [vd_MeasurementTrusted vd_Measurement vd_MeasurementImage]. split_and!.
  - unfold Permits. destruct (IsZero (BootChainOf m)); [naive_solver|]. rewrite existsb_exists. split.
    + intros (a & Hin & ->%bool_decide_eq_true_1). split; [done|by apply list_elem_of_In].
    + intros [_ Hin%list_elem_of_In]. eexists. split; [exact Hin|by apply bool_decide_eq_true_2].
  - apply Name_permits.
  - intros E1 E2 E3. unfold BootChainOf. by rewrite E1, E2, E3.
Qed.

(** ** dstack *)

(** The compose hash is read from version 1 registers only. [ComposeHashFromMRConfigID]
    returns exactly the non-zero hash of a register laid out as
    [0x01 || hash (32) || zero (15)]. *)
Theorem compose_hash_layout reg h :
  length reg = mrConfigIDLen ->
  ComposeHashFromMRConfigID reg = Ok h <->
  reg = byte_of 1 :: h ++ zeros 15 /\ length h = ComposeHashLen /\ h <> zeros ComposeHashLen.
Proof.
  unfold mrConfigIDLen, measurementRegLen, ComposeHashFromMRConfigID, ComposeHashLen. intros Hl. split.
  - intros Hc. inv_ok. destruct (first_nonzero _ _) eqn:Hz; [done|]. inv_ok. subst h.
    apply first_nonzero_none in Hz. apply negb_false_iff, Z.eqb_eq in H. destruct reg as [|v reg]; [done|].
    cbn in Hl, H, Hz. unfold slice in *. cbn [drop] in *.
    rewrite !drop_0 in *. rewrite ?length_drop in Hz. rewrite ?bool_decide_eq_false in H0.
    split_and!; [|rewrite length_take; lia|done].
    f_equal; [by rewrite <-(byte_of_bval v), H|]. rewrite <-(take_drop 32 reg) at 1. rewrite Hz.
    by assert (length reg - 32 = 15)%nat as -> by lia.
  - intros (-> & Hh & Hne). cbn [nth]. change (bval (byte_of 1)) with 1.
    cbn [Z.eqb Pos.eqb MRConfigV1 negb refuse mbind result_bind drop Nat.add].
    rewrite drop_app_length' by done.
    rewrite (proj2 (first_nonzero_none 33 (zeros 15))) by done.
    assert (slice 1 32 (byte_of 1 :: h ++ zeros 15) = h) as ->
      by (apply (slice_at 1 32 [byte_of 1] h (zeros 15)); done).
    by rewrite bool_decide_eq_false_2.
Qed.

(** The reply a broker sends around one raw message. *)
Definition quote_reply (tcb : json) : bytes := print (JObj [(bytes_of "tcb_info", tcb)]).

Lemma tcb_info_read v :
  wf v = true -> (jdepth v < maxNestingDepth)%N ->
  unmarshal (unmarshal_struct [("tcb_info", fun _ j => Ok (Some j))] None) (quote_reply v) = Ok (Some v).
Proof.
  intros Hw Hd. unfold unmarshal, quote_reply. rewrite parse_print; [done|..].
  - cbn [wf forallb fst snd]. rewrite Hw. by vm_compute.
  - cbn [jdepth fold_right fst snd]. lia.
Qed.

Lemma UnwrapJSONString_obj l : UnwrapJSONString (print (JObj l)) = Ok (print (JObj l)).
Proof.
  unfold UnwrapJSONString. rewrite <-(app_nil_r (print _)), print_obj, trim_space_ends by done. done.
Qed.

Lemma UnwrapJSONString_str s :
  utf8_str s = true -> UnwrapJSONString (print (jstr s)) = Ok (bytes_of s).
Proof.
  intros Hu. unfold UnwrapJSONString.
  assert (trim_space_bytes (print (jstr s)) = print (jstr s)) as -> by by apply trim_space_ends.
  unfold unmarshal. rewrite parse_print; [|apply str_ok_quote|done].
  unfold unmarshal_string. by rewrite set_string_jstr.
Qed.

(** The compose file is read alike from both shapes of the reply. Whether a broker
    nests [tcb_info] as an object or quotes the same document into a string,
    [AppComposeFromQuoteResponse] returns the same. *)
Theorem tcb_info_shapes l :
  wf (JObj l) = true -> (jdepth (JObj l) < maxNestingDepth)%N -> utf8_ok (print (JObj l)) = true ->
  AppComposeFromQuoteResponse (quote_reply (jstr (str_of (print (JObj l))))) =
  AppComposeFromQuoteResponse (quote_reply (JObj l)).
Proof.
  intros Hw Hd Hu. unfold AppComposeFromQuoteResponse.
  rewrite !tcb_info_read by first [done|apply str_ok_quote]. cbn [map_err mbind result_bind raw_bytes].
  rewrite UnwrapJSONString_str, UnwrapJSONString_obj, bytes_of_str_of; [done|].
  unfold utf8_str. by rewrite bytes_of_str_of.
Qed.

(** ** Witnesses *)

Module AttestWitness.
Definition reg (c : ascii) : bytes := repeat c 48.
Definition enc_pub : bytes := repeat "k"%char 32.
Definition signer_raw : bytes := repeat (byte_of 170) 20.
Definition broker_report : bytes := report_data enc_pub signer_raw.
Definition measured : Measurement := MkMeasurement (reg "m") (reg "0") (reg "1") (reg "2") (reg "3").
Definition audited : BootChainPolicy :=
  MkPolicy [BootChainOf measured] {[ BootChainOf measured := "dstack-0.5.4" ]}.
(** A parser that vouches for anything not empty. *)
Definition toy_parser : quoteParser := fun _ => Ok (measured, broker_report).
Definition verifier : Verifier := New audited [WithQuoteParser (Some toy_parser)].
Definition verified : Verified :=
  MkVerified enc_pub (hex_addr signer_raw) measured true "dstack-0.5.4".
Lemma toy_verifies : Verify verifier (bytes_of "quote") = Ok verified.
Proof. by vm_compute. Qed.
Definition manifest : bytes := bytes_of "sums".
Lemma evidence_checks : VerifyEvidenceReportData (EvidenceReportData manifest) manifest = Ok tt.
Proof. vm_cast_no_check (@eq_refl (aresult unit) (Ok tt)). Qed.
Lemma evidence_length : length (EvidenceReportData manifest) = reportDataLen.
Proof. vm_cast_no_check (eq_refl 64%nat). Qed.
Lemma one_manifest : collision_free [manifest; manifest].
Proof. apply distinct_digests_ok. vm_cast_no_check (eq_refl true). Qed.
Definition tcb_members : list (bytes * json) := [(bytes_of "app_compose", JStr (quote (bytes_of "services")))].
End AttestWitness.

Section witnesses.
Import AttestWitness.

Lemma report_data_disjoint_witness :
  exists e, ParseReportData (EvidenceReportData manifest) = Err e.
Proof. exact (report_data_disjoint _ _ evidence_length evidence_checks). Defined.

Lemma evidence_binding_witness :
  VerifyEvidenceReportData (EvidenceReportData manifest) manifest = Ok tt /\ manifest = manifest.
Proof.
  destruct (evidence_binding _ manifest evidence_length) as [Hiff Huniq].
  split; [by apply Hiff|exact (Huniq _ one_manifest evidence_checks evidence_checks)].
Defined.

Lemma quote_layout_witness :
  ParseTDXQuoteBody (reg "h" ++ repeat "v"%char 16 ++ reg "s" ++ reg "g" ++ repeat "a"%char 8
    ++ repeat "t"%char 8 ++ repeat "x"%char 8 ++ reg "m" ++ reg "c" ++ reg "o" ++ reg "w" ++ reg "0"
    ++ reg "1" ++ reg "2" ++ reg "3" ++ broker_report ++ bytes_of "signature") =
  Ok (MkQuoteBody measured (reg "c") broker_report).
Proof.
  refine (proj1 (quote_layout (reg "h") (repeat "v"%char 16) (reg "s") (reg "g") (repeat "a"%char 8)
    (repeat "t"%char 8) (repeat "x"%char 8) (reg "m") (reg "c") (reg "o") (reg "w") (reg "0") (reg "1")
    (reg "2") (reg "3") broker_report (bytes_of "signature") _ _ _ _ _ _ _ _ _ _ _ _ _ _ _ _)); reflexivity.
Defined.

Lemma fail_closed_witness :
  exists e, Verify (New audited [WithMeasurementMode ModeWarn]) (bytes_of "quote") = Err e /\
            (e = AEmptyQuote \/ e = ANotConfigured).
Proof.
  refine (proj1 (fail_closed audited [WithMeasurementMode ModeWarn] _ _)).
  constructor; [by right; eexists|constructor].
Defined.

Lemma trusted_image_witness :
  vd_MeasurementImage verified <> "" /\
  Names audited !! BootChainOf measured = Some (vd_MeasurementImage verified).
Proof.
  assert (vd_MeasurementImage verified <> "") as Hne by discriminate.
  split; [exact Hne|]. exact (proj2 (proj1 (proj2 (trusted_image _ _ _ measured toy_verifies)) Hne)).
Defined.

Lemma compose_hash_layout_witness :
  ComposeHashFromMRConfigID (byte_of 1 :: enc_pub ++ zeros 15) = Ok enc_pub.
Proof.
  refine (proj2 (compose_hash_layout (byte_of 1 :: enc_pub ++ zeros 15) enc_pub eq_refl) _). split_and!; [reflexivity|reflexivity|discriminate].
Defined.

Lemma tcb_info_shapes_witness :
  AppComposeFromQuoteResponse (quote_reply (JObj tcb_members)) = Ok (bytes_of "services") /\
  AppComposeFromQuoteResponse (quote_reply (jstr (str_of (print (JObj tcb_members))))) =
  AppComposeFromQuoteResponse (quote_reply (JObj tcb_members)).
Proof.
  split; [vm_compute; reflexivity|].
  apply (tcb_info_shapes tcb_members); [vm_compute; reflexivity..|vm_compute; reflexivity].
Defined.
End witnesses.
