(* ===== verification/GoHttp.v ===== *)
(** * GoHttp: the parts of [net/http] and [context] the client keeps as data

    Headers are maps from canonical names to their values; a request is its URL,
    headers and body; a response its status, headers, and the body up to the error
    (or end) that closed it. Sending is I/O and stays a parameter of its users. *)

From S2P Require Import Prelude GoBytes.

Abbreviation Header := (gmap string (list string)).

(** [textproto.CanonicalMIMEHeaderKey]: a name with a byte that is no token byte is
    left alone. *)
Definition is_token (c : ascii) : bool :=
  is_digit c || is_lower c || is_upper c
  || existsb (Ascii.eqb c) (bytes_of "!#$%&'*+-.^_`|~").

Fixpoint canonical_bytes (start : bool) (l : bytes) : bytes :=
  match l with
  | [] => []
  | c :: l => (if start then upper c else lower c) :: canonical_bytes (Ascii.eqb c "-") l
  end.

Definition canonical_key (s : string) : string :=
  let b := bytes_of s in
  if forallb is_token b && negb (String.eqb s "") then str_of (canonical_bytes true b) else s.

Definition header_get (h : Header) (k : string) : string :=
  match h !! canonical_key k with Some (v :: _) => v | _ => "" end.
Definition header_set (k v : string) (h : Header) : Header := <[canonical_key k := [v]]> h.
Definition header_add (k v : string) (h : Header) : Header :=
  <[canonical_key k := default [] (h !! canonical_key k) ++ [v]]> h.
Definition header_del (k : string) (h : Header) : Header := delete (canonical_key k) h.

Record HttpRequest := MkHttpRequest { hq_URL : string; hq_Header : Header; hq_Body : bytes }.

(** [hs_BodyErr]: what a read reports after the last byte; [None] is [io.EOF]. *)
Record HttpResponse (E : Type) := MkHttpResponse {
  hs_Status : Z;
  hs_Header : Header;
  hs_Body : bytes;
  hs_BodyErr : option E
}.
Arguments MkHttpResponse {E} _ _ _ _.
Arguments hs_Status {E} _.
Arguments hs_Header {E} _.
Arguments hs_Body {E} _.
Arguments hs_BodyErr {E} _.

(** [io.ReadAll] of a body. *)
Definition read_all {E} (r : HttpResponse E) : result E bytes :=
  match hs_BodyErr r with None => Ok (hs_Body r) | Some e => Err e end.
Fixpoint take_z (n : Z) (l : bytes) : bytes :=
  match l with
  | [] => []
  | c :: l => if n <=? 0 then [] else c :: take_z (n - 1) l
  end.
Lemma take_z_length n l : 0 <= n <= Z.of_nat (length l) -> Z.of_nat (length (take_z n l)) = n.
Proof.
  revert n. induction l as [|c l IH]; intros n Hn; cbn in *; [lia|].
  destruct (Z.leb_spec n 0); cbn; [lia|]. specialize (IH (n - 1)). lia.
Qed.

(** [io.ReadAll(io.LimitReader(body, n))]: an error past the limit is never seen. *)
Definition read_all_limited {E} (n : Z) (r : HttpResponse E) : result E bytes :=
  if n <=? Z.of_nat (length (hs_Body r)) then Ok (take_z n (hs_Body r)) else read_all r.
(** The same, when the error is dropped. *)
Definition read_limited {E} (n : Z) (r : HttpResponse E) : bytes := take_z n (hs_Body r).

Definition StatusOK : Z := 200.
Definition StatusConflict : Z := 409.
Definition StatusTooManyRequests : Z := 429.

Lemma header_get_set h k v : header_get (header_set k v h) k = v.
Proof. unfold header_get, header_set. by rewrite lookup_insert_eq. Qed.

Lemma header_get_set_ne h k k' v :
  canonical_key k <> canonical_key k' -> header_get (header_set k v h) k' = header_get h k'.
Proof. intros Hne. unfold header_get, header_set. by rewrite lookup_insert_ne. Qed.

Lemma header_get_del h k : header_get (header_del k h) k = "".
Proof. unfold header_get, header_del. by rewrite lookup_delete_eq. Qed.

Lemma header_get_del_ne h k k' :
  canonical_key k <> canonical_key k' -> header_get (header_del k h) k' = header_get h k'.
Proof. intros Hne. unfold header_get, header_del. by rewrite lookup_delete_ne. Qed.
