(* ===== verification/Walk.v ===== *)
(** * Walk: trying provider candidates ([client/core]: resolve.go, keyrefresh.go, the
    errors and the loop of client.go)

    A request is tried against an ordered list of candidates: each is materialised
    (its key fetched), attempted, possibly re-keyed once and attempted again, and on a
    retryable failure the next one is tried, under a time budget. The outside world is
    an interface: its clock, the caller's cancellation and the candidates' operations
    take a world to the next one. The loop is the same in [Complete],
    [CompleteStream] and [SubmitAsync], which differ in the attempt; it is stated once,
    over the attempt.

    The theorems: what a candidate's attempts come to (at most two, the second only
    under a different key); the error a failed walk reports; the time a walk can take;
    that a walk ends at the first success or terminal failure. *)

From S2P Require Import Prelude GoBytes GoHash GoJson GoDecode GoJsonEq Profile Hpke Envelope Signature GoHttp.

Definition StageRequest : string := "request".
Definition StageUpstream : string := "upstream".
Definition StageInternal : string := "internal".

(** Errors: [*Error] with its stage, status, cause, body and header; texts, wrapped
    errors; the errors of the protocol's packages; errors of the outside, which know
    whether they are timeouts. A run-time panic leaves the same way. *)
Inductive cerr :=
| EStage (stage : string) (status : Z) (err : cerr) (body : bytes) (header : Header)
| EMsg (msg : string)
| EWrap (msg : string) (err : cerr)
| EWire (e : werr)
| EProof (e : perr)
| EJson (e : jerr)
| EExt (name : string) (timeout : bool)
| EPanic.
Abbreviation cresult := (result cerr).

Definition stageErr (stage : string) (err : cerr) : cerr := EStage stage 0 err [] ∅.

(** [errors.As(err, &e)] for [*Error]: its status and body. *)
Fixpoint as_Error (err : cerr) : option (Z * bytes) :=
  match err with
  | EStage _ status _ body _ => Some (status, body)
  | EWrap _ err => as_Error err
  | _ => None
  end.

(** [Error.Source]. *)
Definition Source (stage : string) : string :=
  if String.eqb stage StageUpstream then "upstream" else "gateway".

Definition resolveErr (err : cerr) : cerr :=
  match as_Error err with
  | Some _ => err
  | None => EStage StageUpstream 0 (EWrap "resolve provider" err) [] ∅
  end.

Definition budgetErr (cause : cerr) : cerr :=
  EStage StageUpstream 0 (EWrap "provider selection budget exhausted" cause) [] ∅.

(** ** The error a walk reports *)

Definition tierMaterialize : nat := 0.
Definition tierBudget : nat := 1.
Definition tierAttempt : nat := 2.

Record walkErr := MkWalkErr { we_err : option cerr; we_tier : nat }.
Definition noErr : walkErr := MkWalkErr None 0.

Definition record (w : walkErr) (tier : nat) (err : cerr) : walkErr :=
  match we_err w with
  | None => MkWalkErr (Some err) tier
  | Some _ => if Nat.leb (we_tier w) tier then MkWalkErr (Some err) tier else w
  end.

(** ** Providers and candidates *)

Record Provider := MkProvider {
  p_URL : string;
  p_EncPubKey : PublicKey;
  p_SignerAddr : string;
  p_Address : string;
  p_RouterProviderIdentity : option string;
  p_Endpoint : string;
  p_Model : string;
  p_BindResponse : bool
}.

(** The clock (nanoseconds) and whether the caller's context is done. *)
Class World (W : Type) := { now : W -> Z; canceledBy : W -> bool }.

(** [Candidates], with the [KeyRefresher] it may also be; [deadline] is the context's. *)
Record Candidates (W : Type) := MkCandidates {
  cd_Len : nat;
  cd_Provider : Z -> nat -> W -> cresult Provider * W;
  cd_RefreshProvider : option (Z -> nat -> PublicKey -> W -> cresult Provider * W)
}.
Arguments MkCandidates {W} _ _ _.
Arguments cd_Len {W} _.
Arguments cd_Provider {W} _ _ _ _.
Arguments cd_RefreshProvider {W} _.

(** [staticResolver]'s single candidate. *)
Definition staticCandidates {W} (p : Provider) : Candidates W :=
  MkCandidates 1 (fun _ _ w => (Ok p, w)) None.

(** ** The budget *)

Definition Second : Z := 1000000000.
Definition resolveBudget : Z := 90 * Second.

Record candidateWalk := MkWalk { cw_spent : Z; cw_budget : Z }.
Definition limit (w : candidateWalk) : Z := if 0 <? cw_budget w then cw_budget w else resolveBudget.
Definition charge (w : candidateWalk) (d : Z) : candidateWalk := MkWalk (cw_spent w + d) (cw_budget w).
Definition exhausted (w : candidateWalk) : bool := limit w <=? cw_spent w.

(** ** What a walk writes outside the world: metrics, requests posted, frames delivered *)

Definition KeyRefreshResealed : string := "resealed".
Definition KeyRefreshUnchanged : string := "unchanged".
Definition KeyRefreshFailed : string := "failed".
Definition KeyRefreshUnsupported : string := "unsupported".
Definition FallbackUpstream : string := "upstream".
Definition FallbackMaterialize : string := "materialize".

Inductive event :=
| EvKeyRefresh (outcome : string)
| EvFallback (reason : string)
| EvBudgetExhausted
| EvUpstreamAttempt (kind outcome : string) (dur : Z)
| EvOpenFailure
| EvVerifyFailure (reason : string)
| EvFirstFrame (dur : Z)
| EvMeta (resKey provider : string) (header : Header)
| EvPost (provider : Provider) (env : Request) (header : Header)
| EvDeliver (frame : Request).

Record cstate (W : Type) := MkState {
  st_world : W;
  st_walk : candidateWalk;
  st_fail : walkErr;
  st_log : list event
}.
Arguments MkState {W} _ _ _ _.
Arguments st_world {W} _.
Arguments st_walk {W} _.
Arguments st_fail {W} _.
Arguments st_log {W} _.

(** How an attempt ends: done, or failed, and whether the next candidate may be tried. *)
Inductive attempted (A : Type) := Done (a : A) | Failed (retry : bool) (err : cerr).
Arguments Done {A} _.
Arguments Failed {A} _ _.

(** ** Recognising a stale key *)

Definition keyMismatchToken : string := "e2ee_key_mismatch".

(** The message of a broker's error body: a string, or an object's [message]. *)
Definition mismatchMessage (raw : json) : option string :=
  match unmarshal_string raw with
  | Ok msg => Some msg
  | Err _ => match unmarshal_struct [("message", set_string)] "" raw with
             | Ok msg => Some msg
             | Err _ => None
             end
  end.

Definition isKeyMismatch (err : cerr) : bool :=
  match as_Error err with
  | Some (status, body) =>
      if negb (status =? StatusConflict) then false
      else match unmarshal (unmarshal_struct [("error", fun _ j => Ok (Some j))] None) body with
           | Ok (Some raw) => match mismatchMessage raw with
                              | Some msg => has_prefix msg keyMismatchToken
                              | None => false
                              end
           | _ => false
           end
  | None => false
  end.

Section walk.
Context {W : Type} `{World W}.

Definition on_world (f : W -> W) (s : cstate W) : cstate W :=
  MkState (f (st_world s)) (st_walk s) (st_fail s) (st_log s).
Definition with_walk (w : candidateWalk) (s : cstate W) : cstate W :=
  MkState (st_world s) w (st_fail s) (st_log s).
Definition fail_record (tier : nat) (err : cerr) (s : cstate W) : cstate W :=
  MkState (st_world s) (st_walk s) (record (st_fail s) tier err) (st_log s).
(** Metrics are reported when there is a hook. *)
Definition emit (on : bool) (e : event) (s : cstate W) : cstate W :=
  if on then MkState (st_world s) (st_walk s) (st_fail s) (st_log s ++ [e]) else s.

(** A call outside that is charged to the walk whatever it returns. *)
Definition charged {A} (call : W -> A * W) (s : cstate W) : A * cstate W :=
  let '(a, w) := call (st_world s) in
  (a, MkState w (charge (st_walk s) (now w - now (st_world s))) (st_fail s) (st_log s)).

Definition budgetSpent : cerr := EStage StageUpstream 0 (EMsg "provider selection budget spent") [] ∅.

(** [candidateWalk.provider]. *)
Definition walk_provider (cands : Candidates W) (i : nat) (s : cstate W) : cresult Provider * cstate W :=
  let remaining := limit (st_walk s) - cw_spent (st_walk s) in
  if remaining <=? 0 then (Err budgetSpent, s)
  else charged (cd_Provider cands (now (st_world s) + remaining) i) s.

(** [candidateWalk.refresh]. *)
Definition walk_refresh (kr : Z -> nat -> PublicKey -> W -> cresult Provider * W) (i : nat)
    (stale : PublicKey) (s : cstate W) : cresult Provider * cstate W :=
  let remaining := limit (st_walk s) - cw_spent (st_walk s) in
  if remaining <=? 0 then (Err budgetSpent, s)
  else charged (kr (now (st_world s) + remaining) i stale) s.

Section client.
Context (metrics : bool).

Definition rekey (cands : Candidates W) (i : nat) (stale : Provider) (s : cstate W)
    : option Provider * cstate W :=
  match cd_RefreshProvider cands with
  | None => (None, emit metrics (EvKeyRefresh KeyRefreshUnsupported) s)
  | Some kr =>
      match walk_refresh kr i (p_EncPubKey stale) s with
      | (Err _, s) => (None, emit metrics (EvKeyRefresh KeyRefreshFailed) s)
      | (Ok fresh, s) =>
          if bool_decide (p_EncPubKey fresh = p_EncPubKey stale)
          then (None, emit metrics (EvKeyRefresh KeyRefreshUnchanged) s)
          else (Some fresh, emit metrics (EvKeyRefresh KeyRefreshResealed) s)
      end
  end.

(** One pass of the loop of [attemptRekeying]; [again] is the next one. *)
Definition attemptPass {A} (attempt : Provider -> cstate W -> attempted A * cstate W)
    (cands : Candidates W) (i : nat) (rekeyed : bool)
    (again : Provider -> cstate W -> attempted A * cstate W) (provider : Provider) (s : cstate W)
    : attempted A * cstate W :=
  let start := now (st_world s) in
  match attempt provider s with
  | (Done a, s) => (Done a, s)
  | (Failed retry err, s) =>
      let s := with_walk (charge (st_walk s) (now (st_world s) - start)) s in
      let s := fail_record tierAttempt err s in
      if negb (isKeyMismatch err) then (Failed retry err, s)
      else if rekeyed || canceledBy (st_world s) || exhausted (st_walk s) then (Failed true err, s)
      else match rekey cands i provider s with
           | (None, s) => (Failed true err, s)
           | (Some fresh, s) => again fresh s
           end
  end.

(** The loop goes round at most twice: the pass with [rekeyed] set never goes on. *)
Definition attemptRekeying {A} (attempt : Provider -> cstate W -> attempted A * cstate W)
    (cands : Candidates W) (i : nat) : Provider -> cstate W -> attempted A * cstate W :=
  attemptPass attempt cands i false
    (attemptPass attempt cands i true (fun _ s => (Failed true (EMsg "unreachable"), s))).

Definition metricFallback (reason : string) (i n : nat) (s : cstate W) : cstate W :=
  emit (metrics && Nat.ltb (i + 1) n) (EvFallback reason) s.
Definition metricWalkBudgetBlockedFallback (i n : nat) (s : cstate W) : cstate W :=
  emit (metrics && Nat.ltb (i + 1) n) EvBudgetExhausted s.

(** After the loop. *)
Definition finish {A} (s : cstate W) : cresult A * cstate W :=
  match we_err (st_fail s) with
  | None => (Err (stageErr StageUpstream (EMsg "no provider candidates to try")), s)
  | Some err => (Err err, s)
  end.

(** The loop over the candidates from [i], [todo] of them. *)
Fixpoint walkLoop {A} (attempt : Provider -> cstate W -> attempted A * cstate W)
    (cands : Candidates W) (todo i : nat) (s : cstate W) : cresult A * cstate W :=
  match todo with
  | O => finish s
  | S todo =>
      match walk_provider cands i s with
      | (Err err, s) =>
          if canceledBy (st_world s) then finish (fail_record tierMaterialize (resolveErr err) s)
          else if exhausted (st_walk s)
          then finish (fail_record tierBudget (budgetErr err) (emit metrics EvBudgetExhausted s))
          else let s := fail_record tierMaterialize (resolveErr err) s in
               walkLoop attempt cands todo (S i) (metricFallback FallbackMaterialize i (cd_Len cands) s)
      | (Ok provider, s) =>
          match attemptRekeying attempt cands i provider s with
          | (Done a, s) => (Ok a, s)
          | (Failed true err, s) =>
              if canceledBy (st_world s) then finish s
              else if exhausted (st_walk s)
              then finish (metricWalkBudgetBlockedFallback i (cd_Len cands) s)
              else walkLoop attempt cands todo (S i) (metricFallback FallbackUpstream i (cd_Len cands) s)
          | (Failed false err, s) => (Err err, s)
          end
      end
  end.

(** The loop of one call, from a fresh walk. *)
Definition walkCandidates {A} (attempt : Provider -> cstate W -> attempted A * cstate W)
    (cands : Candidates W) (budget : Z) (w : W) (log : list event) : cresult A * cstate W :=
  walkLoop attempt cands (cd_Len cands) 0 (MkState w (MkWalk 0 budget) noErr log).
End client.
End walk.

(** ** The error a walk reports *)

(** [w] holds the failure of the highest tier recorded in [l], the latest of that tier. *)
Definition ranked (l : list (nat * cerr)) (w : walkErr) : Prop :=
  match we_err w with
  | None => l = []
  | Some e => exists l1 l2, l = l1 ++ (we_tier w, e) :: l2 /\
      Forall (fun x => (x.1 <= we_tier w)%nat) l1 /\ Forall (fun x => (x.1 < we_tier w)%nat) l2
  end.

Lemma ranked_record l w t e : ranked l w -> ranked (l ++ [(t, e)]) (record w t e).
Proof.
  unfold ranked, record. destruct (we_err w) as [e0|] eqn:He; [|by intros ->; exists [], []].
  intros (l1 & l2 & -> & H1 & H2). destruct (Nat.leb_spec (we_tier w) t); cbn [we_err we_tier].
  - exists (l1 ++ (we_tier w, e0) :: l2), []. split_and!; [done| |done].
    rewrite Forall_app, Forall_cons. cbn.
    split_and!; [|lia|]; (eapply Forall_impl; [eassumption|]; cbn; lia).
  - rewrite He. exists l1, (l2 ++ [(t, e)]). split_and!; [by rewrite <-app_assoc|done|].
    apply Forall_app. split; [done|]. by constructor.
Qed.

(** ** Induction over a walk *)

Section laws.
Context {W : Type} `{World W} (metrics : bool).

(** A metric leaves every part of the state but the log. *)
Lemma emit_world on e (s : cstate W) : st_world (emit on e s) = st_world s.
Proof. by destruct on. Qed.
Lemma emit_walk on e (s : cstate W) : st_walk (emit on e s) = st_walk s.
Proof. by destruct on. Qed.

Lemma emit_log on e (s : cstate W) : st_log (emit on e s) = st_log s ++ (if on then [e] else []).
Proof. destruct on; [done|]. by rewrite app_nil_r. Qed.

Lemma finish_state {A} (s : cstate W) (r : cresult A) s' : finish s = (r, s') -> s' = s.
Proof. unfold finish. destruct (we_err (st_fail s)); by intros [= <- <-]. Qed.

(** A provider the candidates gave: materialised, or re-read after a stale key. *)
Definition offered (cands : Candidates W) (p : Provider) : Prop :=
  (exists dl i w w', (i < cd_Len cands)%nat /\ cd_Provider cands dl i w = (Ok p, w')) \/
  (exists kr dl i stale w w', cd_RefreshProvider cands = Some kr /\
     kr dl i (p_EncPubKey stale) w = (Ok p, w') /\ p_EncPubKey p <> p_EncPubKey stale).

Lemma walk_provider_offered cands i s p s' :
  (i < cd_Len cands)%nat -> walk_provider cands i s = (Ok p, s') -> offered cands p.
Proof.
  intros Hi. unfold walk_provider, charged. destruct (_ <=? _); [done|].
  destruct (cd_Provider _ _ _ _) as [r w'] eqn:E. intros [= -> _]. left. eauto 10.
Qed.

Lemma rekey_offered cands i stale s p s' :
  rekey metrics cands i stale s = (Some p, s') -> offered cands p /\ p_EncPubKey p <> p_EncPubKey stale.
Proof.
  unfold rekey. destruct (cd_RefreshProvider cands) as [kr|] eqn:Hkr; [|done].
  unfold walk_refresh, charged. destruct (_ <=? _); [done|].
  destruct (kr _ _ _ _) as [[fresh|] w'] eqn:E; [|done]. case_bool_decide as Hd; [done|].
  intros [= -> _]. split; [|done]. right. eauto 12.
Qed.

(** What every step of a walk keeps: a relation between the state before and after
    that composes, that calls outside, bookkeeping and metrics satisfy, and attempts. *)
Record walk_rel {A} (attempt : Provider -> cstate W -> attempted A * cstate W) (cands : Candidates W)
    (R : cstate W -> cstate W -> Prop) : Prop := {
  wr_refl s : R s s;
  wr_trans s1 s2 s3 : R s1 s2 -> R s2 s3 -> R s1 s3;
  wr_provider i s r s' : walk_provider cands i s = (r, s') -> R s s';
  wr_refresh i kr stale s r s' :
    cd_RefreshProvider cands = Some kr -> walk_refresh kr i stale s = (r, s') -> R s s';
  wr_fail t e s : R s (fail_record t e s);
  wr_emit on e s : (match e with EvKeyRefresh _ | EvFallback _ | EvBudgetExhausted => True | _ => False end) ->
    R s (emit on e s);
  wr_attempt p s r s' : offered cands p -> attempt p s = (r, s') ->
    R s match r with
        | Done _ => s'
        | Failed _ _ => with_walk (charge (st_walk s') (now (st_world s') - now (st_world s))) s'
        end
}.

Section induction.
Context {A : Type} (attempt : Provider -> cstate W -> attempted A * cstate W) (cands : Candidates W)
  (R : cstate W -> cstate W -> Prop) (HR : walk_rel attempt cands R).

Lemma rekey_rel i stale s r s' : rekey metrics cands i stale s = (r, s') -> R s s'.
Proof.
  destruct HR as [Hrefl Htrans Hprov Hrefr Hfail Hemit Hatt]. unfold rekey.
  destruct (cd_RefreshProvider cands) as [kr|] eqn:Hkr.
  - destruct (walk_refresh kr i _ s) as [[fresh|e] s1] eqn:E; [case_bool_decide|]; intros [= <- <-];
      (eapply Htrans; [by eapply Hrefr|by apply Hemit]).
  - intros [= <- <-]. by apply Hemit.
Qed.

Lemma attemptPass_rel i rekeyed again p s r s' :
  (forall p s r s', offered cands p -> again p s = (r, s') -> R s s') ->
  offered cands p -> attemptPass metrics attempt cands i rekeyed again p s = (r, s') -> R s s'.
Proof.
  intros Hag Hp. pose proof HR as [Hrefl Htrans Hprov Hrefr Hfail Hemit Hatt]. unfold attemptPass.
  destruct (attempt p s) as [[a|retry err] s1] eqn:E; pose proof (Hatt _ _ _ _ Hp E) as Hs.
  { by intros [= <- <-]. }
  set (s2 := fail_record _ _ _). assert (R s s2) as Hs2 by (by eapply Htrans; [exact Hs|apply Hfail]).
  destruct (negb _); [by intros [= <- <-]|]. destruct (_ || _); [by intros [= <- <-]|].
  destruct (rekey metrics cands i p s2) as [[fresh|] s3] eqn:Hk; pose proof (rekey_rel _ _ _ _ _ Hk);
    [apply rekey_offered in Hk as [Hf _]|intros [= <- <-]]; eauto.
Qed.

Lemma attemptRekeying_rel i p s r s' :
  offered cands p -> attemptRekeying metrics attempt cands i p s = (r, s') -> R s s'.
Proof.
  apply attemptPass_rel. intros ? ? ? ?. apply attemptPass_rel. intros ? ? ? ? _ [= <- <-]. by apply HR.
Qed.

Lemma walkLoop_rel todo i s r s' :
  (i + todo <= cd_Len cands)%nat -> walkLoop metrics attempt cands todo i s = (r, s') -> R s s'.
Proof.
  pose proof HR as [Hrefl Htrans Hprov Hrefr Hfail Hemit Hatt].
  assert (forall on f s, R s (emit on (EvFallback f) s)) as Hfall by (intros; by apply Hemit).
  assert (forall on s, R s (emit on EvBudgetExhausted s)) as Hbudget by (intros; by apply Hemit).
  revert i s. induction todo as [|todo IH]; intros i s Hi; cbn [walkLoop].
  { by intros ->%finish_state. }
  specialize (IH (S i)). assert (S i + todo <= cd_Len cands)%nat as Hi' by lia.
  destruct (walk_provider cands i s) as [[provider|err] s1] eqn:E; pose proof (Hprov _ _ _ _ E).
  - apply walk_provider_offered in E; [|lia].
    destruct (attemptRekeying _ _ _ _ _ _) as [[a|[] err] s2] eqn:Ea; apply attemptRekeying_rel in Ea; try exact E.
    + intros [= <- <-]. eauto.
    + destruct (canceledBy _); [intros ->%finish_state; eauto|].
      destruct (exhausted _); [intros ->%finish_state|intros Hw; apply IH in Hw; [|done]];
        unfold metricWalkBudgetBlockedFallback, metricFallback in *; eauto.
    + intros [= <- <-]. eauto.
  - destruct (canceledBy _); [intros ->%finish_state; eauto|].
    destruct (exhausted _); [intros ->%finish_state|intros Hw; apply IH in Hw; [|done]];
      unfold metricFallback in *; eauto.
Qed.
End induction.

(** ** Time *)

Section time.
Context {A : Type} (attempt : Provider -> cstate W -> attempted A * cstate W) (cands : Candidates W) (D : Z).
(** Calls under a deadline return by then, and no call takes the clock back. *)
Context (Hprov : forall dl i w r w', cd_Provider cands dl i w = (r, w') -> now w < dl -> now w <= now w' <= dl).
Context (Hrefr : forall kr dl i k w r w', cd_RefreshProvider cands = Some kr ->
  kr dl i k w = (r, w') -> now w < dl -> now w <= now w' <= dl).
Context (Hatt : forall p s r s', attempt p s = (r, s') ->
  now (st_world s) <= now (st_world s') <= now (st_world s) + D /\ st_walk s' = st_walk s).

Context (HD : 0 <= D).

(** All the time since [t0] has been charged, and the budget is [b]. *)
Definition on_time (t0 b : Z) (s : cstate W) : Prop :=
  now (st_world s) - t0 = cw_spent (st_walk s) /\ cw_budget (st_walk s) = b.

Lemma limit_budget (w w' : candidateWalk) : cw_budget w = cw_budget w' -> limit w = limit w'.
Proof. unfold limit. by intros ->. Qed.

Lemma on_time_emit t0 b on e s : on_time t0 b (emit on e s) <-> on_time t0 b s.
Proof. unfold on_time. by rewrite emit_world, emit_walk. Qed.

Lemma charged_time {B} t0 b (call : W -> B * W) s r s' :
  on_time t0 b s -> charged call s = (r, s') ->
  on_time t0 b s' /\ exists w', call (st_world s) = (r, w') /\ st_world s' = w' /\
    cw_spent (st_walk s') = cw_spent (st_walk s) + (now w' - now (st_world s)).
Proof.
  unfold charged, on_time. intros [Ht Hb]. destruct (call (st_world s)) as [a w'] eqn:E. intros [= <- <-].
  cbn. split_and!; [lia|done|]. by exists w'.
Qed.

(** A gated call leaves at most the whole budget spent. *)
Lemma gated_time {B} t0 b (call : Z -> W -> B * W) dl s r s' :
  (forall w r w', call dl w = (r, w') -> now w < dl -> now w <= now w' <= dl) ->
  dl = now (st_world s) + (limit (st_walk s) - cw_spent (st_walk s)) ->
  cw_spent (st_walk s) < limit (st_walk s) ->
  on_time t0 b s -> charged (call dl) s = (r, s') ->
  on_time t0 b s' /\ cw_spent (st_walk s') <= limit (st_walk s').
Proof.
  intros Hc Hdl Hlt Ht Hch. destruct (charged_time _ _ _ _ _ _ Ht Hch) as (Ht' & w' & Hw & Hs' & Hsp).
  split; [done|]. apply Hc in Hw; [|lia].
  rewrite (limit_budget (st_walk s') (st_walk s)) by (destruct Ht, Ht'; congruence). lia.
Qed.

Lemma walk_provider_time t0 b i s r s' :
  on_time t0 b s -> cw_spent (st_walk s) < limit (st_walk s) -> walk_provider cands i s = (r, s') ->
  on_time t0 b s' /\ cw_spent (st_walk s') <= limit (st_walk s').
Proof.
  intros Ht Hlt. unfold walk_provider. destruct (Z.leb_spec (limit (st_walk s) - cw_spent (st_walk s)) 0); [lia|].
  eapply (gated_time t0 b (fun dl => cd_Provider cands dl i)); [intros ? ? ?; apply Hprov|done..].
Qed.

Lemma rekey_time t0 b i stale s r s' :
  on_time t0 b s -> cw_spent (st_walk s) < limit (st_walk s) -> rekey metrics cands i stale s = (r, s') ->
  on_time t0 b s' /\ cw_spent (st_walk s') <= limit (st_walk s').
Proof.
  intros Ht Hlt. unfold rekey. destruct (cd_RefreshProvider cands) as [kr|] eqn:Hkr.
  - destruct (walk_refresh kr i _ s) as [rr s1] eqn:E. unfold walk_refresh in E.
    destruct (Z.leb_spec (limit (st_walk s) - cw_spent (st_walk s)) 0); [lia|].
    eapply (gated_time t0 b (fun dl => kr dl i (p_EncPubKey stale))) in E as [Ht1 Hsp1];
      [|intros ? ? ?; by eapply Hrefr|done..].
    destruct rr as [fresh|]; [case_bool_decide|]; intros [= <- <-]; by rewrite on_time_emit, emit_walk.
  - intros [= <- <-]. rewrite on_time_emit, emit_walk. split; [done|lia].
Qed.

(** What an attempt may leave: the bound kept, and all failed time charged. *)
Definition attempt_time {B} (t0 b : Z) (r : attempted B) (s' : cstate W) : Prop :=
  now (st_world s') <= t0 + limit (MkWalk 0 b) + D /\
  match r with Done _ => True | Failed _ _ => on_time t0 b s' end.

Lemma attemptPass_time t0 b i rekeyed again p s r s' :
  (forall p s r s', on_time t0 b s -> cw_spent (st_walk s) <= limit (st_walk s) ->
     again p s = (r, s') -> attempt_time t0 b r s') ->
  on_time t0 b s -> cw_spent (st_walk s) <= limit (st_walk s) ->
  attemptPass metrics attempt cands i rekeyed again p s = (r, s') -> attempt_time t0 b r s'.
Proof.
  intros Hag [Ht Hb] Hsp. unfold attemptPass. pose proof (limit_budget (st_walk s) (MkWalk 0 b) Hb) as Hlim.
  destruct (attempt p s) as [[a|retry err] s1] eqn:E; destruct (Hatt _ _ _ _ E) as [Hn Hw].
  { intros [= <- <-]. unfold attempt_time. split; [lia|done]. }
  set (s2 := fail_record _ _ _).
  assert (st_world s2 = st_world s1) as Hw2 by done.
  assert (on_time t0 b s2) as Ht2 by (unfold on_time, s2; cbn; rewrite Hw; split; [lia|done]).
  assert (attempt_time t0 b (Failed (A := A) retry err) s2) as Hs2
    by (unfold attempt_time; split; [rewrite Hw2; lia|exact Ht2]).
  destruct (negb _); [by intros [= <- <-]|].
  destruct (rekeyed || _ || exhausted (st_walk s2)) eqn:Eb; [by intros [= <- <-]|].
  apply orb_false_iff in Eb as [_ Hex]. unfold exhausted in Hex. apply Z.leb_gt in Hex.
  destruct (rekey metrics cands i p s2) as [[fresh|] s3] eqn:Hk;
    destruct (rekey_time t0 b _ _ _ _ _ Ht2 Hex Hk) as [Ht3 Hsp3]; [by apply Hag|].
  intros [= <- <-]. unfold attempt_time. split; [|done]. destruct Ht3 as [Ht3 Hb3].
  rewrite (limit_budget _ (MkWalk 0 b) Hb3) in Hsp3. lia.
Qed.

Lemma attemptRekeying_time t0 b i p s r s' :
  on_time t0 b s -> cw_spent (st_walk s) <= limit (st_walk s) ->
  attemptRekeying metrics attempt cands i p s = (r, s') -> attempt_time t0 b r s'.
Proof.
  apply attemptPass_time. intros p1 s1 r1 s1'. apply attemptPass_time.
  intros p2 s2 r2 s2' [Ht2 Hb2] Hs2 [= <- <-]. unfold attempt_time, on_time.
  rewrite (limit_budget _ (MkWalk 0 b) Hb2) in Hs2. split; [lia|done].
Qed.

Lemma walkLoop_time t0 b todo i s r s' :
  on_time t0 b s -> cw_spent (st_walk s) < limit (st_walk s) ->
  walkLoop metrics attempt cands todo i s = (r, s') ->
  now (st_world s') <= t0 + limit (MkWalk 0 b) + D.
Proof.
  assert (forall s, on_time t0 b s -> cw_spent (st_walk s) <= limit (st_walk s) ->
    now (st_world s) <= t0 + limit (MkWalk 0 b) + D) as Hend
    by (intros s0 [Ht Hb] Hs; rewrite (limit_budget _ (MkWalk 0 b) Hb) in Hs; lia).
  revert i s. induction todo as [|todo IH]; intros i s Ht Hsp; cbn [walkLoop].
  { intros ->%finish_state. apply Hend; [done|lia]. }
  destruct (walk_provider cands i s) as [[provider|err] s1] eqn:E;
    destruct (walk_provider_time t0 b _ _ _ _ Ht Hsp E) as [Ht1 Hsp1].
  - destruct (attemptRekeying _ _ _ _ _ _) as [[a|[] err] s2] eqn:Ea;
      destruct (attemptRekeying_time t0 b _ _ _ _ _ Ht1 Hsp1 Ea) as [Hn Ht2];
      [by intros [= <- <-]| |by intros [= <- <-]].
    destruct (canceledBy _); [by intros ->%finish_state|].
    destruct (exhausted (st_walk s2)) eqn:Ex.
    + intros ->%finish_state. unfold metricWalkBudgetBlockedFallback. by rewrite emit_world.
    + unfold exhausted in Ex. apply Z.leb_gt in Ex. apply IH; unfold metricFallback;
        [by apply on_time_emit|by rewrite emit_walk].
  - destruct (canceledBy _); [intros ->%finish_state; by apply Hend|].
    destruct (exhausted (st_walk s1)) eqn:Ex.
    + intros ->%finish_state. cbn. rewrite emit_world. by apply Hend.
    + unfold exhausted in Ex. apply Z.leb_gt in Ex. apply IH; unfold metricFallback;
        [by apply on_time_emit|by rewrite emit_walk].
Qed.
End time.

(** ** Where a success comes from *)

Section success.
Context {A : Type} (attempt : Provider -> cstate W -> attempted A * cstate W) (cands : Candidates W).

Lemma attemptRekeying_done i p s a s' :
  offered cands p -> attemptRekeying metrics attempt cands i p s = (Done a, s') ->
  exists p' s1, offered cands p' /\ attempt p' s1 = (Done a, s').
Proof.
  intros Hp. unfold attemptRekeying, attemptPass.
  destruct (attempt p s) as [[a1|retry err] s1] eqn:E; [intros [= -> ->]; eauto|].
  destruct (negb _); [done|]. destruct (_ || _); [done|].
  destruct (rekey _ _ _ _ _) as [[fresh|] s2] eqn:Hk; [|done]. apply rekey_offered in Hk as [Hf _].
  destruct (attempt fresh s2) as [[a2|retry2 err2] s3] eqn:E2; [intros [= -> ->]; eauto|].
  by destruct (negb _).
Qed.

Lemma walkLoop_done todo i s a s' :
  (i + todo <= cd_Len cands)%nat -> walkLoop metrics attempt cands todo i s = (Ok a, s') ->
  exists p s1, offered cands p /\ attempt p s1 = (Done a, s').
Proof.
  assert (forall s, finish s <> (Ok a, s')) as Hfin
    by (intros s0; unfold finish; by destruct (we_err (st_fail s0))).
  revert i s. induction todo as [|todo IH]; intros i s Hi; cbn [walkLoop]; [by intros ?%Hfin|].
  destruct (walk_provider cands i s) as [[provider|err] s1] eqn:E.
  - apply walk_provider_offered in E; [|lia].
    destruct (attemptRekeying _ _ _ _ _ _) as [[a1|[] err] s2] eqn:Ea; [|..|done].
    + intros [= -> ->]. by eapply attemptRekeying_done.
    + destruct (canceledBy _); [by intros ?%Hfin|]. destruct (exhausted _); [by intros ?%Hfin|].
      apply IH. lia.
  - destruct (canceledBy _); [by intros ?%Hfin|]. destruct (exhausted _); [by intros ?%Hfin|].
    apply IH. lia.
Qed.
End success.

(** ** What a walk delivers *)

(** The frames the caller received. *)
Definition delivered (l : list event) : list Request :=
  omap (fun e => match e with EvDeliver f => Some f | _ => None end) l.

Lemma delivered_app l l' : delivered (l ++ l') = delivered l ++ delivered l'.
Proof. apply omap_app. Qed.

Lemma delivered_emit on e (s : cstate W) : (match e with EvDeliver _ => False | _ => True end) ->
  delivered (st_log (emit on e s)) = delivered (st_log s).
Proof.
  intros He. rewrite emit_log, delivered_app. destruct on; [|by rewrite app_nil_r].
  destruct e; try done; apply app_nil_r.
Qed.

(** An attempt that leaves the next one to be tried delivered nothing, so what a walk
    delivers is what its last attempt did. [P]: what an attempt that returns [r] and
    delivers [outs] satisfies. *)
Section settled.
Context {A : Type} (attempt : Provider -> cstate W -> attempted A * cstate W) (cands : Candidates W).
Context (P : Provider -> attempted A -> list Request -> Prop).
Context (Hatt : forall p s r s', offered cands p -> attempt p s = (r, s') ->
  exists outs, delivered (st_log s') = delivered (st_log s) ++ outs /\ P p r outs /\
    match r with Failed retry err => retry || isKeyMismatch err = true -> outs = [] | Done _ => True end).

Lemma rekey_delivered i stale (s : cstate W) r s' :
  rekey metrics cands i stale s = (r, s') -> delivered (st_log s') = delivered (st_log s).
Proof.
  unfold rekey. destruct (cd_RefreshProvider cands) as [kr|]; [|intros [= _ <-]; by rewrite delivered_emit].
  unfold walk_refresh, charged. destruct (_ <=? _); [intros [= _ <-]; by rewrite delivered_emit|].
  destruct (kr _ _ _ _) as [[fresh|] w']; [case_bool_decide|]; intros [= _ <-]; by rewrite delivered_emit.
Qed.

(** What a pass may leave: nothing delivered when the next candidate may be tried. *)
Definition settled (s : cstate W) (r : attempted A) (s' : cstate W) : Prop :=
  match r with
  | Failed true _ => delivered (st_log s') = delivered (st_log s)
  | _ => exists p r0 outs, offered cands p /\ delivered (st_log s') = delivered (st_log s) ++ outs /\
      P p r0 outs /\ forall a, r = Done a -> r0 = Done a
  end.

Lemma settled_from s s0 r s' :
  delivered (st_log s0) = delivered (st_log s) -> settled s0 r s' -> settled s r s'.
Proof. unfold settled. by intros ->. Qed.

Lemma attemptPass_settled i rekeyed again p s r s' :
  (forall p s r s', offered cands p -> again p s = (r, s') -> settled s r s') ->
  offered cands p -> attemptPass metrics attempt cands i rekeyed again p s = (r, s') -> settled s r s'.
Proof.
  intros Hag Hp. unfold attemptPass. destruct (attempt p s) as [[a|retry err] s1] eqn:E;
    destruct (Hatt _ _ _ _ Hp E) as (outs & Ho & HP & Hq).
  { intros [= <- <-]. exists p, (Done a), outs. split_and!; [done..|]. by intros ? [= <-]. }
  match goal with |- context [fail_record _ _ ?x] => set (s2 := fail_record tierAttempt err x) end.
  assert (delivered (st_log s2) = delivered (st_log s) ++ outs) as Ho2 by exact Ho.
  destruct (isKeyMismatch err); cbn [negb].
  - rewrite orb_true_r in Hq. specialize (Hq eq_refl). subst outs. rewrite app_nil_r in Ho2.
    destruct (_ || _); [by intros [= <- <-]|].
    destruct (rekey metrics cands i p s2) as [[fresh|] s3] eqn:Hk; pose proof (rekey_delivered _ _ _ _ _ Hk) as Hd.
    + apply rekey_offered in Hk as [Hf _]. intros Ha. apply (settled_from s s3); [congruence|]. by eapply Hag.
    + intros [= <- <-]. cbn. congruence.
  - intros [= <- <-]. rewrite orb_false_r in Hq. unfold settled. destruct retry.
    + specialize (Hq eq_refl). subst outs. by rewrite app_nil_r in Ho2.
    + by exists p, (Failed false err), outs.
Qed.

Lemma attemptRekeying_settled i p s r s' :
  offered cands p -> attemptRekeying metrics attempt cands i p s = (r, s') -> settled s r s'.
Proof.
  unfold attemptRekeying. apply attemptPass_settled. intros ? ? ? ?. apply attemptPass_settled.
  by intros ? ? ? ? _ [= <- <-].
Qed.

Lemma walk_provider_delivered i (s : cstate W) r s' :
  walk_provider cands i s = (r, s') -> delivered (st_log s') = delivered (st_log s).
Proof.
  unfold walk_provider, charged. destruct (_ <=? _); [by intros [= _ <-]|].
  destruct (cd_Provider _ _ _ _). by intros [= _ <-].
Qed.

(** What a loop may leave. *)
Definition walk_settled (s : cstate W) (r : cresult A) (s' : cstate W) : Prop :=
  ((exists e, r = Err e) /\ delivered (st_log s') = delivered (st_log s)) \/
  exists p r0 outs, offered cands p /\ delivered (st_log s') = delivered (st_log s) ++ outs /\ P p r0 outs /\
    forall a, r = Ok a -> r0 = Done a.

Lemma walk_settled_from s s0 r s' :
  delivered (st_log s0) = delivered (st_log s) -> walk_settled s0 r s' -> walk_settled s r s'.
Proof. unfold walk_settled. by intros ->. Qed.

Lemma finish_settled s0 s (r : cresult A) s' :
  delivered (st_log s) = delivered (st_log s0) -> finish s = (r, s') -> walk_settled s0 r s'.
Proof. unfold finish. intros Hd. destruct (we_err (st_fail s)); intros [= <- <-]; left; eauto. Qed.

Lemma walkLoop_settled todo i s r s' :
  (i + todo <= cd_Len cands)%nat -> walkLoop metrics attempt cands todo i s = (r, s') -> walk_settled s r s'.
Proof.
  revert i s. induction todo as [|todo IH]; intros i s Hi; cbn [walkLoop]; [by apply finish_settled|].
  specialize (IH (S i)). assert (S i + todo <= cd_Len cands)%nat as Hi' by lia.
  destruct (walk_provider cands i s) as [[provider|err] s1] eqn:E; pose proof (walk_provider_delivered _ _ _ _ E) as Hd1.
  - apply walk_provider_offered in E; [|lia].
    destruct (attemptRekeying _ _ _ _ _ _) as [ar s2] eqn:Ea.
    apply attemptRekeying_settled, (settled_from s) in Ea; [|done|done]. destruct ar as [a|[] err]; cbn in Ea.
    + destruct Ea as (p & r0 & outs & Hp & Ho & HP & Hr). intros [= <- <-]. right. exists p, r0, outs.
      split_and!; [done..|]. intros ? [= <-]. by apply Hr.
    + destruct (canceledBy _); [by apply finish_settled|].
      destruct (exhausted _); [apply finish_settled|intros Hw%IH; [revert Hw; apply walk_settled_from|done]];
        unfold metricWalkBudgetBlockedFallback, metricFallback; by rewrite delivered_emit.
    + destruct Ea as (p & r0 & outs & Hp & Ho & HP & Hr). intros [= <- <-]. right. by exists p, r0, outs.
  - destruct (canceledBy _); [by apply finish_settled|].
    destruct (exhausted _); [apply finish_settled|intros Hw%IH; [revert Hw; apply walk_settled_from|done]];
      unfold metricFallback; cbn; by rewrite delivered_emit.
Qed.
End settled.

(** The events of an attempt, beside which a walk writes metrics only. *)
Definition walk_event (e : event) : Prop :=
  match e with EvKeyRefresh _ | EvFallback _ | EvBudgetExhausted => True | _ => False end.

Lemma walkLoop_log {A} (attempt : Provider -> cstate W -> attempted A * cstate W) cands (Q : event -> Prop)
    todo i s r s' :
  (forall p s r s', offered cands p -> attempt p s = (r, s') ->
     exists l, st_log s' = st_log s ++ l /\ Forall Q l) ->
  (forall e, walk_event e -> Q e) -> (i + todo <= cd_Len cands)%nat ->
  walkLoop metrics attempt cands todo i s = (r, s') ->
  exists l, st_log s' = st_log s ++ l /\ Forall Q l.
Proof.
  intros Hatt HQ Hi. apply (walkLoop_rel attempt cands
    (fun s s' => exists l, st_log s' = st_log s ++ l /\ Forall Q l)); [|done]. split.
  - intros s0. exists []. by rewrite app_nil_r.
  - intros s1 s2 s3 (l1 & -> & H1) (l2 & -> & H2). exists (l1 ++ l2). rewrite app_assoc.
    split; [done|by apply Forall_app].
  - intros j s0 r0 s1. unfold walk_provider, charged. destruct (_ <=? _).
    + intros [= <- <-]. exists []. by rewrite app_nil_r.
    + destruct (cd_Provider _ _ _ _). intros [= <- <-]. exists []. by rewrite app_nil_r.
  - intros j kr stale s0 r0 s1 _. unfold walk_refresh, charged. destruct (_ <=? _).
    + intros [= <- <-]. exists []. by rewrite app_nil_r.
    + destruct (kr _ _ _ _). intros [= <- <-]. exists []. by rewrite app_nil_r.
  - intros t e s0. exists []. by rewrite app_nil_r.
  - intros on e s0 He. rewrite emit_log. exists (if on then [e] else []). split; [done|].
    destruct on; [|done]. constructor; [by apply HQ|done].
  - intros p s0 r0 s1 Hp (l & Hl & HF)%Hatt; [|done]. exists l. by destruct r0.
Qed.
End laws.

(** One re-keying per candidate, and only under another key. Attempting a candidate
    comes to one attempt; or, when it failed because its key was stale, the candidate
    was re-read, and its new key differs from the stale one, to one more, whose outcome
    is the result. A stale key never ends the walk: it always leaves the next candidate
    to be tried. *)
Theorem rekey_once {W} `{World W} {A} metrics (attempt : Provider -> cstate W -> attempted A * cstate W)
    cands i p s r s' :
  attemptRekeying metrics attempt cands i p s = (r, s') ->
  exists r1 s1, attempt p s = (r1, s1) /\
  match r1 with
  | Done a => r = Done a
  | Failed retry err =>
      if isKeyMismatch err then
        r = Failed true err \/
        exists kr dl fresh w w' s2 r2 s3, cd_RefreshProvider cands = Some kr /\
          kr dl i (p_EncPubKey p) w = (Ok fresh, w') /\ p_EncPubKey fresh <> p_EncPubKey p /\
          attempt fresh s2 = (r2, s3) /\
          r = match r2 with
              | Done a => Done a
              | Failed retry2 err2 => Failed (retry2 || isKeyMismatch err2) err2
              end
      else r = Failed retry err
  end.
Proof.
  unfold attemptRekeying, attemptPass. destruct (attempt p s) as [r1 s1] eqn:E.
  intros Hr. exists r1, s1. split; [done|]. destruct r1 as [a|retry err]; [by injection Hr|].
  destruct (isKeyMismatch err); cbn [negb] in Hr; [|by injection Hr].
  destruct (_ || _); [left; by injection Hr|].
  match type of Hr with context [rekey _ _ _ _ ?x] => set (s1' := x) in * end.
  unfold rekey in Hr. destruct (cd_RefreshProvider cands) as [kr|] eqn:Hkr; [|left; by injection Hr].
  unfold walk_refresh, charged in Hr. destruct (_ <=? 0); [left; by injection Hr|].
  destruct (kr _ i (p_EncPubKey p) _) as [[fresh|] w'] eqn:Ekr; [|left; by injection Hr].
  case_bool_decide as Hd; [left; by injection Hr|]. right.
  match type of Hr with context [attempt fresh ?x] => set (s2 := x) in * end.
  destruct (attempt fresh s2) as [r2 s3] eqn:E2. eexists kr, _, fresh, _, _, s2, r2, s3. split_and!; try done.
  destruct r2 as [a2|retry2 err2]; [by injection Hr|].
  destruct (isKeyMismatch err2); cbn [negb orb] in Hr; rewrite ?orb_true_r, ?orb_false_r; by injection Hr.
Qed.

(** The ceiling of a walk is its budget plus one attempt. If the candidates' calls made
    under a deadline return by it and an attempt takes at most [D], then a walk, however
    many candidates there are and however they fail, ends within the budget plus [D]. *)
Theorem walk_time_bound {W} `{World W} {A} metrics (attempt : Provider -> cstate W -> attempted A * cstate W)
    (cands : Candidates W) D budget w log r s' :
  (forall dl i w r w', cd_Provider cands dl i w = (r, w') -> now w < dl -> now w <= now w' <= dl) ->
  (forall kr dl i k w r w', cd_RefreshProvider cands = Some kr ->
     kr dl i k w = (r, w') -> now w < dl -> now w <= now w' <= dl) ->
  (forall p s r s', attempt p s = (r, s') ->
     now (st_world s) <= now (st_world s') <= now (st_world s) + D /\ st_walk s' = st_walk s) ->
  0 <= D ->
  walkCandidates metrics attempt cands budget w log = (r, s') ->
  now (st_world s') <= now w + limit (MkWalk 0 budget) + D.
Proof.
  intros Hp Hr Ha HD. eapply walkLoop_time; [done..| |].
  - unfold on_time. cbn. split; [lia|done].
  - cbn. unfold limit, resolveBudget, Second. cbn. destruct (Z.ltb_spec 0 budget); lia.
Qed.

(** ** Witnesses: a clock, a provider that changed its key, a broker that says so *)

Module WalkWitness.
#[export] Instance clock : World Z := {| now w := w; canceledBy _ := false |}.

Definition provider_with (k : bytes) : Provider :=
  MkProvider "https://router/v1" k "0x00000000000000000000000000000000000000Aa" "0xp" None "" "" true.
Definition old_key : bytes := repeat "o"%char 32.
Definition new_key : bytes := repeat "n"%char 32.
(** Each call outside takes a second, or less when its deadline is nearer. *)
Definition cands : Candidates Z :=
  MkCandidates 2 (fun dl _ w => (Ok (provider_with old_key), Z.min (w + Second) dl))
    (Some (fun dl _ _ w => (Ok (provider_with new_key), Z.min (w + Second) dl))).
Definition stale : cerr :=
  EStage StageUpstream StatusConflict (EMsg "provider returned an error status")
    (print (JObj [(bytes_of "error", jstr "e2ee_key_mismatch: re-read the key")])) ∅.
Definition broker (p : Provider) (s : cstate Z) : attempted nat * cstate Z :=
  let s := on_world (fun w => w + Second) s in
  if bool_decide (p_EncPubKey p = new_key) then (Done 7%nat, s) else (Failed false stale, s).
Definition start : cstate Z := MkState 0 (MkWalk 0 resolveBudget) noErr [].
Lemma stale_key : isKeyMismatch stale = true.
Proof. vm_cast_no_check (eq_refl true). Qed.
Lemma walked : walkCandidates true broker cands resolveBudget 0 [] =
  (Ok 7%nat, MkState (4 * Second) (MkWalk (3 * Second) resolveBudget) (MkWalkErr (Some stale) tierAttempt)
     [EvKeyRefresh KeyRefreshResealed]).
Proof. vm_compute. reflexivity. Qed.
Lemma rekeyed : attemptRekeying true broker cands 0 (provider_with old_key) start =
  (Done 7%nat, MkState (3 * Second) (MkWalk (2 * Second) resolveBudget) (MkWalkErr (Some stale) tierAttempt)
     [EvKeyRefresh KeyRefreshResealed]).
Proof. vm_compute. reflexivity. Qed.
End WalkWitness.

Section witnesses.
Import WalkWitness.

Lemma rekey_once_witness :
  exists r1 s1, broker (provider_with old_key) start = (r1, s1) /\ r1 = Failed false stale.
Proof.
  destruct (rekey_once _ _ _ _ _ _ _ _ rekeyed) as (r1 & s1 & H1 & _).
  exists r1, s1. split; [exact H1|]. injection H1 as <- _. reflexivity.
Defined.

Lemma walk_time_bound_witness : 4 * Second <= 0 + limit (MkWalk 0 resolveBudget) + Second.
Proof.
  refine (walk_time_bound true broker cands Second resolveBudget 0 [] _ _ _ _ _ _ walked).
  - intros dl i w r w'. cbn. unfold Second. intros [= _ <-] Hd. lia.
  - intros kr dl i k w r w'. cbn. intros [= <-] [= _ <-] Hd. unfold Second. lia.
  - intros p s r s'. unfold broker, on_world. cbn. case_bool_decide; intros [= _ <-]; cbn; unfold Second;
      (split; [lia|reflexivity]).
  - unfold Second. lia.
Defined.
End witnesses.
