(* ===== verification/Client.v ===== *)
(** * Client: one request through the client ([client/core]: client.go, verify.go, async.go)

    [seal] prepares and seals a request for one provider, [doRequest] posts it,
    [completeOnce] reads, opens and verifies a buffered answer, [submitOnce] submits an
    asynchronous job; [Complete] and [SubmitAsync] run them over the candidates. What
    is outside (transport, randomness, the signature fetcher, the resolver) is the
    interface [Outside].

    The theorems: whatever the providers answer, everything a call posts is sealed to a
    provider it was offered, with no payload in the clear, under the headers that pin
    it there; an answer returned was decrypted from a 200 response to one of those
    posts, and verified when verification is on; a broker that answers as the protocol
    says is understood; a submitted job's id parses back to the broker's and the key. *)

From S2P Require Import Prelude GoBytes GoHash GoJson GoDecode GoJsonEq Profile Hpke Envelope Response RespBind Async Signature GoHttp Walk.

Definition Minute : Z := 60 * Second.
Definition bufferedTimeout : Z := 10 * Minute + 30 * Second.
Definition maxUpstreamErrorBytes : Z := 1048576.
Definition maxSubmitResponseBytes : Z := 65536.

Definition UpstreamBuffered : string := "buffered".
Definition UpstreamStream : string := "stream".
Definition UpstreamOK : string := "ok".
Definition UpstreamTransport : string := "transport".
Definition UpstreamBody : string := "body".
Definition UpstreamUndecodable : string := "undecodable".
Definition UpstreamNotStream : string := "not_stream".
Definition UpstreamUnverified : string := "unverified".
Definition UpstreamUnverifiable : string := "unverifiable".
Definition UpstreamTimeout : string := "timeout".
Definition UpstreamCanceled : string := "canceled".
Definition UpstreamInternal : string := "internal".
Definition UpstreamHTTP429 : string := "http_429".
Definition UpstreamHTTP4xx : string := "http_4xx".
Definition UpstreamHTTP5xx : string := "http_5xx".
Definition UpstreamHTTPOther : string := "http_other".

Definition upstreamStatusOutcome (status : Z) : string :=
  if status =? StatusTooManyRequests then UpstreamHTTP429
  else if (500 <=? status) && (status <=? 599) then UpstreamHTTP5xx
  else if (400 <=? status) && (status <=? 499) then UpstreamHTTP4xx
  else UpstreamHTTPOther.

Definition retryableStatus (status : Z) : bool :=
  (status =? StatusTooManyRequests) || ((500 <=? status) && (status <=? 599)).

Definition headerProviderPin : string := "X-0G-Provider-Address".
Definition headerRouterProviderIdentityPin : string := "X-0G-Provider-Identity".
Definition headerAllowFallbacks : string := "X-0G-Provider-Allow-Fallbacks".
Definition headerResKey : string := "ZG-Res-Key".

(** [errors.Is(err, context.DeadlineExceeded)] or a [net.Error] that timed out. *)
Fixpoint isTimeout (err : cerr) : bool :=
  match err with
  | EExt _ timeout => timeout
  | EWrap _ err | EStage _ _ err _ _ => isTimeout err
  | _ => false
  end.

(** ** The client ([Client], [NewWithResolver] and its options) *)

Record Client := MkClient {
  c_profile : Profile;
  c_async : bool;
  c_sealFields : list string;
  c_sealFieldsSet : bool;
  c_unboundFields : list string;
  c_metrics : bool;
  c_fetches : bool;
  c_recover : option RecoverFunc;
  c_resolveBudgetTO : Z
}.

Definition ClientOption : Type := Client -> Client.
Definition WithSealFields (fields : list string) : ClientOption :=
  fun c => MkClient (c_profile c) (c_async c) fields true (c_unboundFields c) (c_metrics c) (c_fetches c)
             (c_recover c) (c_resolveBudgetTO c).
Definition WithEndpoint (profile : Profile) (async : bool) : ClientOption :=
  fun c => MkClient profile async (c_sealFields c) (c_sealFieldsSet c) (c_unboundFields c) (c_metrics c)
             (c_fetches c) (c_recover c) (c_resolveBudgetTO c).
Definition WithUnboundFields (fields : list string) : ClientOption :=
  fun c => MkClient (c_profile c) (c_async c) (c_sealFields c) (c_sealFieldsSet c) fields (c_metrics c)
             (c_fetches c) (c_recover c) (c_resolveBudgetTO c).
Definition WithMetrics (on : bool) : ClientOption :=
  fun c => MkClient (c_profile c) (c_async c) (c_sealFields c) (c_sealFieldsSet c) (c_unboundFields c) on
             (c_fetches c) (c_recover c) (c_resolveBudgetTO c).
Definition WithResponseVerification (fetch : bool) (recover : option RecoverFunc) : ClientOption :=
  fun c => MkClient (c_profile c) (c_async c) (c_sealFields c) (c_sealFieldsSet c) (c_unboundFields c)
             (c_metrics c) fetch recover (c_resolveBudgetTO c).

Definition NewWithResolver (opts : list ClientOption) : Client :=
  let c := fold_left (fun c o => o c) opts
             (MkClient ProfileChat false [] false DefaultUnboundFields false false None resolveBudget) in
  if c_sealFieldsSet c then c
  else MkClient (c_profile c) (c_async c) (DefaultSealedFieldsFor (c_profile c)) false (c_unboundFields c)
         (c_metrics c) (c_fetches c) (c_recover c) (c_resolveBudgetTO c).

Definition verifyEnabled (c : Client) : bool :=
  c_fetches c && match c_recover c with Some _ => true | None => false end.

Definition bindsResponse (c : Client) (provider : Provider) : bool :=
  p_BindResponse provider && ResponseBindApplies (c_profile c).

Definition openErr (bound : bool) (err : cerr) : cerr :=
  if bound then EWrap "bound response" err else err.

(** ** Preparing a request *)

Definition withModel (req : Request) (model : string) : Request :=
  if String.eqb model "" then req else <["model" := jstr model]> req.

(** [withStreamUsage]; [None] is the run-time panic of a write to a nil map, which a
    [null] value of [stream_options] leaves behind. *)
Definition withStreamUsage (profile : Profile) (req : Request) : option Request :=
  if negb (String.eqb profile ProfileChat) then Some req
  else match req !! "stream" with
       | None => Some req
       | Some raw =>
           match set_bool false raw with
           | Ok true =>
               let opts := match req !! "stream_options" with
                           | None => Some ∅
                           | Some rawOpts => match unmarshal_map rawOpts with
                                             | Ok opts => opts
                                             | Err _ => Some ∅
                                             end
                           end in
               match opts with
               | Some opts =>
                   Some (<["stream_options" := json_of_map (<["include_usage" := JBool true]> opts)]> req)
               | None => None
               end
           | _ => Some req
           end
       end.

Definition client_sealedFieldsFor (c : Client) (req : Request) : list string :=
  List.filter (fun f => has_key req f) (c_sealFields c).

Section sealing.
Context `{Jcs} `{HpkeLib}.

(** [Client.seal]: what is sealed, and how; [EPanic] when preparing panics. *)
Definition seal (c : Client) (provider : Provider) (req : Request) (ephPriv : PrivateKey)
    (ephPub : PublicKey) (rnd : bytes) : cresult Request :=
  let req := withModel req (p_Model provider) in
  req ← of_option (withStreamUsage (c_profile c) req) EPanic;
  let fields := client_sealedFieldsFor c req in
  '(req, fields) ←
    (if bindsResponse c provider
     then req ← map_err EWire (AttachResponseBind (c_profile c) req ephPriv);
          Ok (req, if contains fields fieldBind then fields else fields ++ [fieldBind])
     else Ok (req, fields));
  map_err EWire (SealRequestFor (c_profile c) (p_EncPubKey provider) req (Some fields)
                   (p_SignerAddr provider) ephPub (c_unboundFields c) rnd).
End sealing.

(** ** Outside *)

(** The values a caller's context carries for this client. *)
Record CallContext := MkCallContext { cx_forward : Header; cx_credential : string; cx_meta : bool }.

Class Outside (W : Type) := {
  http_do : HttpRequest -> W -> cresult (HttpResponse cerr) * W;
  body_read : HttpResponse cerr -> W -> W;
  random : W -> bytes * W;
  fetch_signature : Provider -> string -> W -> cresult ChatSignature * W;
  resolve : Profile -> Request -> W -> cresult (Candidates W) * W
}.

Definition requestHeader (cx : CallContext) (provider : Provider) : Header :=
  let h := header_set "Content-Type" "application/json" ∅ in
  let h := fold_left (fun h kv => fold_left (fun h v => header_add kv.1 v h) kv.2 h)
             (map_to_list (cx_forward cx)) h in
  let h := if String.eqb (p_Address provider) "" then h
           else let h := header_set headerProviderPin (p_Address provider) h in
                match p_RouterProviderIdentity provider with
                | Some id => if String.eqb id "" then header_del headerRouterProviderIdentityPin h
                             else header_set headerRouterProviderIdentityPin id h
                | None => h
                end in
  let h := header_set headerAllowFallbacks "false" h in
  if String.eqb (cx_credential cx) "" then h else header_set "Authorization" (cx_credential cx) h.

Section calls.
Context {W : Type} `{World W} `{Outside W} `{Jcs} `{HpkeLib}.
Context (c : Client) (cx : CallContext).

Definition log_event (e : event) (s : cstate W) : cstate W := emit true e s.
Definition metric (e : event) (s : cstate W) : cstate W := emit (c_metrics c) e s.

(** A call outside; what it costs is not charged here. *)
Definition outside {A} (call : W -> A * W) (s : cstate W) : A * cstate W :=
  let '(a, w) := call (st_world s) in (a, MkState w (st_walk s) (st_fail s) (st_log s)).

Definition doRequest (provider : Provider) (env : Request) (s : cstate W)
    : cresult (HttpResponse cerr) * cstate W :=
  let header := requestHeader cx provider in
  let s := log_event (EvPost provider env header) s in
  outside (http_do (MkHttpRequest (p_URL provider) header (marshal_map env))) s.

(** An attempt's context: the caller's, or the attempt's own deadline passed. *)
Definition attemptDone (deadline : Z) (w : W) : bool := canceledBy w || (deadline <=? now w).

(** [attempt]: whether the attempt's context is done. *)
Definition upstreamFailureOutcome (attempt : bool) (w : W) (err : cerr) (base : string) : string :=
  if canceledBy w then UpstreamCanceled
  else if attempt || isTimeout err then UpstreamTimeout
  else base.

Definition verifyOutcome (attempt : bool) (w : W) (concluded : string) : string :=
  if negb (String.eqb concluded UpstreamUnverifiable) then concluded
  else if canceledBy w then UpstreamCanceled
  else if attempt then UpstreamTimeout
  else concluded.

Definition recordMeta (provider : Provider) (header : Header) (s : cstate W) : cstate W :=
  if cx_meta cx
  then log_event (EvMeta (header_get header headerResKey) (p_Address provider) header) s
  else s.

(** ** Verifying ([verify.go]) *)

Definition fetchSig (provider : Provider) (header : Header) (s : cstate W) : cresult ChatSignature * cstate W :=
  let chatKey := header_get header headerResKey in
  if String.eqb chatKey "" then (Err (EMsg "response verification enabled but no header"), s)
  else let '(r, s) := outside (fetch_signature provider chatKey) s in
       (map_err (EWrap "fetch signature") r, s).

(** A verdict: the outcome to report, and the error; no error is [None]. *)
Definition verifyNonStream (provider : Provider) (header : Header) (reqEnv respFrame : Request)
    (s : cstate W) : option (string * cerr) * cstate W :=
  match fetchSig provider header s with
  | (Err err, s) => (Some (UpstreamUnverifiable, err), metric (EvVerifyFailure "fetch") s)
  | (Ok sig, s) =>
      match VerifyE2EE sig reqEnv respFrame (p_SignerAddr provider) (c_recover c) with
      | Err e => (Some (UpstreamUnverified, EWrap "response signature" (EProof e)),
                  metric (EvVerifyFailure "signature") s)
      | Ok _ => (None, s)
      end
  end.

Definition verifyStream (provider : Provider) (header : Header) (binder : StreamBinder) (s : cstate W)
    : option (string * cerr) * cstate W :=
  match Text binder with
  | Err e => (Some (UpstreamInternal, EProof e), s)
  | Ok want =>
      match fetchSig provider header s with
      | (Err err, s) => (Some (UpstreamUnverifiable, err), metric (EvVerifyFailure "fetch") s)
      | (Ok sig, s) =>
          match VerifyBoundText sig want SchemeE2EECiphertextStream (p_SignerAddr provider) (c_recover c) with
          | Err e => (Some (UpstreamUnverified, EWrap "response signature" (EProof e)),
                      metric (EvVerifyFailure "signature") s)
          | Ok _ => (None, s)
          end
      end
  end.

(** ** One buffered attempt *)

(** The deferred report of an attempt that started at [start]. *)
Definition report {A} (kind : string) (start : Z) (outcome : string) (r : attempted A) (s : cstate W)
    : attempted A * cstate W :=
  (r, metric (EvUpstreamAttempt kind outcome (now (st_world s) - start)) s).

Definition openSealed (provider : Provider) (ephPriv : PrivateKey) (frame : Response) : wresult Response :=
  if bindsResponse c provider then OpenBoundResponseFor (c_profile c) ephPriv frame
  else OpenResponseFor (c_profile c) ephPriv frame.

(** What [completeOnce] does with the response to [sealed]. *)
Definition completeResponse (provider : Provider) (sealed : Request) (ephPriv : PrivateKey)
    (deadline start : Z) (resp : HttpResponse cerr) (s : cstate W) : attempted Response * cstate W :=
  let s := on_world (body_read resp) s in
  let done := report UpstreamBuffered start in
  if negb (hs_Status resp =? StatusOK) then
    done (upstreamStatusOutcome (hs_Status resp))
      (Failed (retryableStatus (hs_Status resp))
         (EStage StageUpstream (hs_Status resp) (EMsg "provider returned an error status")
            (read_limited maxUpstreamErrorBytes resp) (hs_Header resp))) s
  else match read_all resp with
  | Err err => done (upstreamFailureOutcome (attemptDone deadline (st_world s)) (st_world s) err UpstreamBody)
                 (Failed true (stageErr StageUpstream (EWrap "read provider response" err))) s
  | Ok body =>
      match unmarshal unmarshal_map body with
      | Err e => done UpstreamUndecodable
                   (Failed true (stageErr StageUpstream (EWrap "decode sealed response" (EJson e)))) s
      | Ok m =>
          let sealedResp := nil_map m in
          match openSealed provider ephPriv sealedResp with
          | Err e => done UpstreamUndecodable
                       (Failed true (stageErr StageUpstream
                          (EWrap "open response" (openErr (bindsResponse c provider) (EWire e)))))
                       (metric EvOpenFailure s)
          | Ok out =>
              let '(verdict, s) :=
                if verifyEnabled c then verifyNonStream provider (hs_Header resp) sealed sealedResp s
                else (None, s) in
              match verdict with
              | Some (concluded, err) => done (verifyOutcome (attemptDone deadline (st_world s)) (st_world s) concluded)
                                           (Failed false (stageErr StageUpstream err)) s
              | None => done UpstreamOK (Done out) (recordMeta provider (hs_Header resp) s)
              end
          end
      end
  end.

(** A sealing that failed; a panic leaves as it is. *)
Definition sealFailed {A} (err : cerr) : attempted A :=
  match err with
  | EPanic => Failed false EPanic
  | _ => Failed false (stageErr StageRequest (EWrap "seal request" err))
  end.

Definition completeOnce (req : Request) (ephPub : PublicKey) (ephPriv : PrivateKey)
    (provider : Provider) (s : cstate W) : attempted Response * cstate W :=
  let deadline := now (st_world s) + bufferedTimeout in
  let '(rnd, s) := outside random s in
  match seal c provider req ephPriv ephPub rnd with
  | Err err => (sealFailed err, s)
  | Ok sealed =>
      let start := now (st_world s) in
      match doRequest provider sealed s with
      | (Err err, s) =>
          report UpstreamBuffered start (upstreamFailureOutcome (attemptDone deadline (st_world s)) (st_world s) err UpstreamTransport)
            (Failed false (EStage StageUpstream 0 (EWrap "post to provider" err) [] ∅)) s
      | (Ok resp, s) => completeResponse provider sealed ephPriv deadline start resp s
      end
  end.

Definition Complete (req : Request) (w : W) : cresult Response * cstate W :=
  let s := MkState w (MkWalk 0 (c_resolveBudgetTO c)) noErr [] in
  match outside (resolve (c_profile c) req) s with
  | (Err err, s) => (Err (resolveErr err), s)
  | (Ok cands, s) =>
      let '(rnd, s) := outside random s in
      match GenerateRecipientKey rnd with
      | Err e => (Err (stageErr StageInternal (EWrap "generate ephemeral key" (EWire e))), s)
      | Ok (ephPriv, ephPub) =>
          walkCandidates (c_metrics c) (completeOnce req ephPub ephPriv) cands (c_resolveBudgetTO c)
            (st_world s) (st_log s)
      end
  end.

(** ** Submitting a job ([async.go]) *)

Definition userJobResponse (body : bytes) (provider : Provider) (ephPriv : PrivateKey) : cresult Response :=
  _ ← refuse (maxSubmitResponseBytes <? Z.of_nat (length body)) (EMsg "submit response too long");
  m ← map_err (fun _ => EMsg "submit response is not a JSON object") (unmarshal unmarshal_map body);
  out ← of_option m (EMsg "submit response is not a JSON object");
  _ ← refuse (has_key out e2eeKey) (EMsg "a submit answer is never sealed");
  raw ← of_option (out !! fieldJobID) (EMsg "submit response has no string jobId");
  jobID ← map_err (fun _ => EMsg "submit response has no string jobId") (unmarshal_string raw);
  _ ← refuse (String.eqb jobID "") (EMsg "submit response has no string jobId");
  _ ← (if String.eqb (p_Address provider) "" then Ok tt
       else let got := match out !! "provider_address" with
                       | Some raw => match unmarshal_string raw with Ok got => got | Err _ => "" end
                       | None => ""
                       end in
            refuse (negb (equal_fold got (p_Address provider))) (EMsg "submit was accepted by another provider"));
  userJobID ← map_err (fun e => EWrap "submit response jobId cannot carry a key" (EWire e))
                (UserJobID jobID ephPriv);
  Ok (<[fieldJobID := jstr userJobID]> out).

Definition submitResponse (provider : Provider) (ephPriv : PrivateKey) (deadline start : Z)
    (resp : HttpResponse cerr) (s : cstate W) : attempted (Response * Z) * cstate W :=
  let s := on_world (body_read resp) s in
  let done := report UpstreamBuffered start in
  if (hs_Status resp <? 200) || (299 <? hs_Status resp) then
    done (upstreamStatusOutcome (hs_Status resp))
      (Failed (retryableStatus (hs_Status resp))
         (EStage StageUpstream (hs_Status resp) (EMsg "provider returned an error status")
            (read_limited maxUpstreamErrorBytes resp) (hs_Header resp))) s
  else match read_all_limited (maxSubmitResponseBytes + 1) resp with
  | Err err => done (upstreamFailureOutcome (attemptDone deadline (st_world s)) (st_world s) err UpstreamBody)
                 (Failed false (stageErr StageUpstream (EWrap "read submit response" err))) s
  | Ok body =>
      match userJobResponse body provider ephPriv with
      | Err err => done UpstreamUndecodable (Failed false (EStage StageUpstream 0 err [] (hs_Header resp))) s
      | Ok out => done UpstreamOK (Done (out, hs_Status resp)) (recordMeta provider (hs_Header resp) s)
      end
  end.

Definition submitOnce (req : Request) (provider : Provider) (s : cstate W)
    : attempted (Response * Z) * cstate W :=
  let deadline := now (st_world s) + bufferedTimeout in
  let '(rnd, s) := outside random s in
  match GenerateRecipientKey rnd with
  | Err e => (Failed false (stageErr StageInternal (EWrap "generate ephemeral key" (EWire e))), s)
  | Ok (ephPriv, ephPub) =>
      match AttachAsyncBind req ephPriv with
      | Err e => (Failed false (stageErr StageRequest (EWrap "bind request" (EWire e))), s)
      | Ok bound =>
          let '(rnd, s) := outside random s in
          match seal c provider bound ephPriv ephPub rnd with
          | Err err => (sealFailed err, s)
          | Ok sealed =>
              let start := now (st_world s) in
              match doRequest provider sealed s with
              | (Err err, s) =>
                  report UpstreamBuffered start
                    (upstreamFailureOutcome (attemptDone deadline (st_world s)) (st_world s) err UpstreamTransport)
                    (Failed false (EStage StageUpstream 0 (EWrap "post to provider" err) [] ∅)) s
              | (Ok resp, s) => submitResponse provider ephPriv deadline start resp s
              end
          end
      end
  end.

Definition SubmitAsync (req : Request) (w : W) : cresult (Response * Z) * cstate W :=
  let s := MkState w (MkWalk 0 (c_resolveBudgetTO c)) noErr [] in
  if negb (c_async c) then (Err (stageErr StageInternal (EMsg "not an async surface")), s)
  else match outside (resolve (c_profile c) req) s with
  | (Err err, s) => (Err (resolveErr err), s)
  | (Ok cands, s) =>
      walkCandidates (c_metrics c) (submitOnce req) cands (c_resolveBudgetTO c) (st_world s) (st_log s)
  end.
End calls.

(** ** What sealing leaves in the clear *)

Lemma seal_ok `{Jcs} `{HpkeLib} c p req ephPriv ephPub rnd env :
  seal c p req ephPriv ephPub rnd = Ok env ->
  exists req1 req2 fields, withStreamUsage (c_profile c) (withModel req (p_Model p)) = Some req1 /\
    (if bindsResponse c p
     then AttachResponseBind (c_profile c) req1 ephPriv = Ok req2 /\ fieldBind ∈ fields
     else req2 = req1) /\
    (forall f, f ∈ c_sealFields c -> is_Some (req1 !! f) -> f ∈ fields) /\
    SealRequestFor (c_profile c) (p_EncPubKey p) req2 (Some fields) (p_SignerAddr p) ephPub
      (c_unboundFields c) rnd = Ok env.
Proof.
  unfold seal. intros Hs. inv_ok. destruct x0 as [req2 fields]. inv_ok. rename x into req1.
  assert (forall f, f ∈ client_sealedFieldsFor c req1 <-> f ∈ c_sealFields c /\ is_Some (req1 !! f)) as Hf.
  { intros f. unfold client_sealedFieldsFor.
    by rewrite list_elem_of_In, filter_In, <-list_elem_of_In, has_key_true. }
  exists req1, req2, fields. split; [done|]. destruct (bindsResponse c p); inv_ok; simplify_eq.
  - match goal with H : AttachResponseBind _ _ _ = _ |- _ => rename H into Ha end.
    split; [split; [done|]|split; [|done]].
    + destruct (contains _ fieldBind) eqn:E; [by apply contains_spec|set_solver].
    + intros f Hc Hsome. assert (f ∈ client_sealedFieldsFor c req1) by by apply Hf.
      destruct (contains _ _); set_solver.
  - split; [done|]. split; [|done]. intros f Hc Hsome. by apply Hf.
Qed.

Lemma AttachResponseBind_lookup p req priv req' f :
  AttachResponseBind p req priv = Ok req' -> f <> fieldBind -> req' !! f = req !! f.
Proof. intros (s & b & _ & _ & _ & ->)%AttachResponseBind_ok Hne. by apply lookup_insert_ne. Qed.

(** No field the client seals, and none of the profile's payload, is in what is posted. *)
Lemma seal_hides `{Jcs} `{HpkeLib} c p req ephPriv ephPub rnd env f :
  seal c p req ephPriv ephPub rnd = Ok env ->
  f ∈ c_sealFields c \/ f ∈ DefaultSealedFieldsFor (c_profile c) \/ f = fieldBind ->
  f <> e2eeKey -> env !! f = None.
Proof.
  intros (req1 & req2 & fields & _ & Hb & Hin & Hs)%seal_ok Hf Hne.
  destruct (decide (f ∈ fields \/ f ∈ DefaultSealedFieldsFor (c_profile c) \/ f = fieldBind)) as [Hd|Hd].
  { by eapply sealed_env_hides; [exact Hs|]. }
  destruct Hf as [Hf|Hf]; [|naive_solver].
  rewrite (sealed_env_lookup _ _ _ _ _ _ _ _ _ Hs) by done. case_decide; [done|].
  assert (req1 !! f = None) as Hn by (apply eq_None_not_Some; intros Hsome; apply Hd; left; by apply Hin).
  destruct (bindsResponse c p); [|by subst req2]. destruct Hb as [Hb _].
  rewrite (AttachResponseBind_lookup _ _ _ _ _ Hb); [done|]. naive_solver.
Qed.

(** ** Headers *)

Lemma requestHeader_pins cx p :
  header_get (requestHeader cx p) headerAllowFallbacks = "false" /\
  (p_Address p <> "" -> header_get (requestHeader cx p) headerProviderPin = p_Address p) /\
  (cx_credential cx <> "" -> header_get (requestHeader cx p) "Authorization" = cx_credential cx) /\
  (p_Address p <> "" -> forall id, p_RouterProviderIdentity p = Some id ->
     header_get (requestHeader cx p) headerRouterProviderIdentityPin = id).
Proof.
  unfold requestHeader. generalize (fold_left (fun h kv => fold_left (fun h v => header_add kv.1 v h) kv.2 h)
    (map_to_list (cx_forward cx)) (header_set "Content-Type" "application/json" ∅)). intros h.
  destruct (String.eqb_spec (cx_credential cx) "") as [Ec|Ec];
    destruct (String.eqb_spec (p_Address p) "") as [Ea|Ea]; destruct (p_RouterProviderIdentity p) as [id|];
    try destruct (String.eqb_spec id "") as [Ei|Ei]; split_and!; try done; intros;
    repeat first [rewrite header_get_set | rewrite header_get_del
                 | rewrite header_get_set_ne by (by vm_compute) | rewrite header_get_del_ne by (by vm_compute)];
    congruence.
Qed.

(** ** What a call writes *)

Section logs.
Context {W : Type} `{World W} `{Outside W} `{Jcs} `{HpkeLib}.
Context (c : Client) (cx : CallContext) (Q : event -> Prop).

(** The log grew by events of [Q]. *)
Definition grows (s s' : cstate W) : Prop := exists l, st_log s' = st_log s ++ l /\ Forall Q l.

Lemma grows_refl s : grows s s.
Proof. exists []. by rewrite app_nil_r. Qed.
Lemma grows_trans s1 s2 s3 : grows s1 s2 -> grows s2 s3 -> grows s1 s3.
Proof.
  intros (l1 & E1 & H1') (l2 & E2 & H2'). exists (l1 ++ l2). rewrite E2, E1, app_assoc.
  split; [done|by apply Forall_app].
Qed.
Lemma grows_emit on e s s' : Q e -> grows s s' -> grows s (emit on e s').
Proof.
  intros He Hs. eapply grows_trans; [exact Hs|]. exists (if on then [e] else []). rewrite emit_log.
  split; [done|]. destruct on; [by constructor|done].
Qed.
Lemma grows_log s s' s'' : st_log s'' = st_log s' -> grows s s' -> grows s s''.
Proof. unfold grows. by intros ->. Qed.

Lemma outside_log {A} (call : W -> A * W) s a s' : outside call s = (a, s') -> st_log s' = st_log s.
Proof. unfold outside. destruct (call (st_world s)). by intros [= _ <-]. Qed.

(** Everything but a post. *)
Context (HQ : forall e, (match e with EvPost _ _ _ | EvDeliver _ => False | _ => True end) -> Q e).

Lemma recordMeta_grows p h s s' : grows s s' -> grows s (recordMeta cx p h s').
Proof. intros Hs. unfold recordMeta, log_event. destruct (cx_meta cx); [|done]. by apply grows_emit; [apply HQ|]. Qed.

Lemma fetchSig_log p h s r s' : fetchSig p h s = (r, s') -> st_log s' = st_log s.
Proof.
  unfold fetchSig. destruct (String.eqb _ _); [by intros [= _ <-]|].
  destruct (outside _ s) as [a s1] eqn:E. intros [= _ <-]. by eapply outside_log.
Qed.

Lemma verifyNonStream_grows p h q f s r s' :
  verifyNonStream c p h q f s = (r, s') -> grows s s'.
Proof.
  unfold verifyNonStream. destruct (fetchSig p h s) as [[sig|err] s1] eqn:E; apply fetchSig_log in E.
  - destruct (VerifyE2EE _ _ _ _ _); intros [= _ <-]; [by apply (grows_log _ s), grows_refl|].
    apply grows_emit; [by apply HQ|]. by apply (grows_log _ s), grows_refl.
  - intros [= _ <-]. apply grows_emit; [by apply HQ|]. by apply (grows_log _ s), grows_refl.
Qed.

Lemma report_grows {A} kind start o (r : attempted A) s s1 r' s' :
  grows s s1 -> report c kind start o r s1 = (r', s') -> grows s s'.
Proof. intros Hs [= _ <-]. apply grows_emit; [by apply HQ|done]. Qed.

Lemma on_world_grows f s : grows s (on_world f s).
Proof. by apply (grows_log _ s), grows_refl. Qed.

Lemma completeResponse_grows p sealed priv dl start resp s r s' :
  completeResponse c cx p sealed priv dl start resp s = (r, s') -> grows s s'.
Proof.
  unfold completeResponse. pose proof (on_world_grows (body_read resp) s) as Hs.
  set (s1 := on_world (body_read resp) s) in *.
  destruct (negb _); [by apply report_grows|].
  destruct (read_all resp) as [body|]; [|by apply report_grows].
  destruct (unmarshal unmarshal_map body) as [m|]; [|by apply report_grows].
  destruct (openSealed c p priv (nil_map m)) as [out|].
  - destruct (if verifyEnabled c then _ else _) as [verdict s2] eqn:Ev.
    assert (grows s s2) as Hs2.
    { destruct (verifyEnabled c); [|by injection Ev as _ <-].
      eapply grows_trans; [exact Hs|]. by eapply verifyNonStream_grows. }
    destruct verdict as [[]|]; apply report_grows; [done|by apply recordMeta_grows].
  - apply report_grows. apply grows_emit; [by apply HQ|done].
Qed.

Lemma doRequest_grows p env s r s' :
  Q (EvPost p env (requestHeader cx p)) -> doRequest cx p env s = (r, s') -> grows s s'.
Proof.
  intros Hp. unfold doRequest. intros Ho%outside_log. eapply grows_log; [exact Ho|].
  apply grows_emit; [done|apply grows_refl].
Qed.

Lemma completeOnce_grows req pub priv p s r s' :
  (forall rnd env, seal c p req priv pub rnd = Ok env -> Q (EvPost p env (requestHeader cx p))) ->
  completeOnce c cx req pub priv p s = (r, s') -> grows s s'.
Proof.
  intros Hp. unfold completeOnce. destruct (outside random s) as [rnd s1] eqn:E; apply outside_log in E.
  pose proof (grows_log s s s1 E (grows_refl s)) as Hs1.
  destruct (seal _ _ _ _ _ _) as [sealed|err] eqn:Es; [|by intros [= _ <-]].
  destruct (doRequest cx p sealed s1) as [rr s2] eqn:Ed.
  apply doRequest_grows in Ed; [|by eapply Hp].
  pose proof (grows_trans _ _ _ Hs1 Ed) as Hs2. destruct rr as [resp|err]; [|by apply report_grows].
  intros Hc%completeResponse_grows. by eapply grows_trans.
Qed.

Lemma submitResponse_grows p priv dl start resp s r s' :
  submitResponse c cx p priv dl start resp s = (r, s') -> grows s s'.
Proof.
  unfold submitResponse. pose proof (on_world_grows (body_read resp) s) as Hs.
  destruct (_ || _); [by apply report_grows|].
  destruct (read_all_limited _ resp) as [body|]; [|by apply report_grows].
  destruct (userJobResponse body p priv); apply report_grows; [by apply recordMeta_grows|done].
Qed.

Lemma submitOnce_grows req p s r s' :
  (forall priv bound rnd rnd' pub env, GenerateRecipientKey rnd = Ok (priv, pub) ->
     AttachAsyncBind req priv = Ok bound -> seal c p bound priv pub rnd' = Ok env ->
     Q (EvPost p env (requestHeader cx p))) ->
  submitOnce c cx req p s = (r, s') -> grows s s'.
Proof.
  intros Hp. unfold submitOnce. destruct (outside random s) as [rnd s1] eqn:E; apply outside_log in E.
  pose proof (grows_log s s s1 E (grows_refl s)) as Hs1.
  destruct (GenerateRecipientKey rnd) as [[priv pub]|] eqn:Eg; [|by intros [= _ <-]].
  destruct (AttachAsyncBind req priv) as [bound|] eqn:Ea; [|by intros [= _ <-]].
  destruct (outside random s1) as [rnd' s2] eqn:E2; apply outside_log in E2.
  pose proof (grows_log _ _ _ E2 Hs1) as Hs2.
  destruct (seal _ _ _ _ _ _) as [sealed|err] eqn:Es; [|by intros [= _ <-]].
  destruct (doRequest cx p sealed s2) as [rr s3] eqn:Ed.
  apply doRequest_grows in Ed; [|by eapply Hp].
  pose proof (grows_trans _ _ _ Hs2 Ed) as Hs3. destruct rr as [resp|err]; [|by apply report_grows].
  intros Hc%submitResponse_grows. by eapply grows_trans.
Qed.
End logs.

(** What may be posted for a request: it was sealed for a provider that was offered. *)
Definition sealed_post {W} `{World W} `{Outside W} `{Jcs} `{HpkeLib} (c : Client) (cx : CallContext)
    (req : Request) (e : event) : Prop :=
  match e with
  | EvPost p env h =>
      h = requestHeader cx p /\
      (exists (w w' : W) cands, resolve (c_profile c) req w = (Ok cands, w') /\ offered cands p) /\
      exists req' priv pub rnd, seal c p req' priv pub rnd = Ok env /\
        (req' = req \/ AttachAsyncBind req priv = Ok req')
  | EvDeliver _ => False
  | _ => True
  end.

Section walks.
Context {W : Type} `{World W} `{Outside W} `{Jcs} `{HpkeLib}.

Lemma Complete_posts c cx req (w : W) r s' :
  Complete c cx req w = (r, s') -> Forall (sealed_post (W := W) c cx req) (st_log s').
Proof.
  unfold Complete. destruct (outside _ _) as [[cands|err] s1] eqn:E; pose proof (outside_log _ _ _ _ E) as El;
    cbn in El; [|by intros [= _ <-]; rewrite El].
  destruct (outside random s1) as [rnd s2] eqn:E2; apply outside_log in E2.
  destruct (GenerateRecipientKey rnd) as [[priv pub]|] eqn:Eg; [|by intros [= _ <-]; rewrite E2, El].
  intros (l & Hl & HF)%(walkLoop_log _ _ _ (sealed_post (W := W) c cx req)); [| |by intros []|lia].
  - rewrite Hl. cbn. by rewrite E2, El.
  - intros p s r0 s0 Hoff. apply completeOnce_grows; [by intros []|].
    intros rnd' env Hs. split; [done|]. split; [|by exists req, priv, pub, rnd'; auto].
    unfold outside in E. destruct (resolve _ _ _) as [rr w1] eqn:Er. injection E as -> _. eauto.
Qed.

Lemma SubmitAsync_posts c cx req (w : W) r s' :
  SubmitAsync c cx req w = (r, s') -> Forall (sealed_post (W := W) c cx req) (st_log s').
Proof.
  unfold SubmitAsync. destruct (negb _); [by intros [= _ <-]|].
  destruct (outside _ _) as [[cands|err] s1] eqn:E; pose proof (outside_log _ _ _ _ E) as El;
    cbn in El; [|by intros [= _ <-]; rewrite El].
  intros (l & Hl & HF)%(walkLoop_log _ _ _ (sealed_post (W := W) c cx req)); [| |by intros []|lia].
  - rewrite Hl. cbn. by rewrite El.
  - intros p s r0 s0 Hoff. apply submitOnce_grows; [by intros []|].
    intros priv bound rnd rnd' pub env Hg Ha Hs. split; [done|].
    split; [|by exists bound, priv, pub, rnd'; auto].
    unfold outside in E. destruct (resolve _ _ _) as [rr w1] eqn:Er. injection E as -> _. eauto.
Qed.
End walks.

(** ** Where an answer comes from *)

(** The exchange that ended a call: the response to one post, opened and verified. *)
Record exchange {W} `{World W} `{Outside W} `{Jcs} `{HpkeLib} (c : Client) (cx : CallContext)
    (env : Request) (p : Provider) (priv : PrivateKey) (out : Response) : Prop := {
  exchange_response : exists (w1 w2 : W) resp body m,
    http_do (MkHttpRequest (p_URL p) (requestHeader cx p) (marshal_map env)) w1 = (Ok resp, w2) /\
    hs_Status resp = StatusOK /\ read_all resp = Ok body /\ unmarshal unmarshal_map body = Ok m /\
    openSealed c p priv (nil_map m) = Ok out /\
    (verifyEnabled c = true -> exists (w3 w4 : W) sig,
       fetch_signature p (header_get (hs_Header resp) headerResKey) w3 = (Ok sig, w4) /\
       VerifyE2EE sig env (nil_map m) (p_SignerAddr p) (c_recover c) = Ok tt)
}.

Section answers.
Context {W : Type} `{World W} `{Outside W} `{Jcs} `{HpkeLib}.
Context (c : Client) (cx : CallContext).

Lemma verifyNonStream_accepts p h q f (s : cstate W) s' :
  verifyNonStream c p h q f s = (None, s') ->
  exists w w' sig, fetch_signature p (header_get h headerResKey) w = (Ok sig, w') /\
    VerifyE2EE sig q f (p_SignerAddr p) (c_recover c) = Ok tt.
Proof.
  unfold verifyNonStream, fetchSig, outside. destruct (String.eqb _ _); [done|].
  destruct (fetch_signature _ _ _) as [[sig|] w'] eqn:E; cbn [map_err]; [|done].
  destruct (VerifyE2EE _ _ _ _ _) as [[]|] eqn:Ev; [|done]. eauto.
Qed.

Lemma completeOnce_done req pub priv p s out s' :
  completeOnce c cx req pub priv p s = (Done out, s') ->
  exists rnd env, seal c p req priv pub rnd = Ok env /\ exchange (W := W) c cx env p priv out.
Proof.
  unfold completeOnce. destruct (outside random s) as [rnd s1].
  destruct (seal _ _ _ _ _ _) as [env|err] eqn:Es; [|by destruct err].
  unfold doRequest, outside.
  match goal with |- context [http_do ?q ?w] => destruct (http_do q w) as [[resp|err] w2] eqn:Eh end; [|done].
  unfold completeResponse, report. destruct (Z.eqb_spec (hs_Status resp) StatusOK) as [Hst|]; [|done].
  cbn [negb]. destruct (read_all resp) as [body|] eqn:Er; [|done].
  destruct (unmarshal unmarshal_map body) as [m|] eqn:Em; [|done].
  destruct (openSealed c p priv (nil_map m)) as [out'|] eqn:Eo; [|done].
  destruct (if verifyEnabled c then _ else _) as [verdict s2] eqn:Ev. destruct verdict as [[]|]; [done|].
  intros [= <- _]. exists rnd, env. split; [done|]. split.
  do 5 eexists. split_and!; [exact Eh|done..|].
  intros Hve. rewrite Hve in Ev. by eapply verifyNonStream_accepts.
Qed.
End answers.

(** C6: nothing leaves in the clear. Whatever the resolver, the providers and the network
    do, every request a call to [Complete] or [SubmitAsync] posts is an envelope sealed
    under the key of a provider the resolver offered, contains no field the client
    seals, no payload field of the profile and no binding, and goes out under headers
    that pin it to that provider, forbid the router's own fallbacks and carry the
    caller's credential, whatever headers were forwarded. *)
Theorem posts_sealed {W} `{World W} `{Outside W} `{Jcs} `{HpkeLib} c cx req (w : W) log :
  (exists r s', Complete c cx req w = (r, s') /\ log = st_log s') \/
  (exists r s', SubmitAsync c cx req w = (r, s') /\ log = st_log s') ->
  forall p env h, EvPost p env h ∈ log ->
    (exists (w0 w1 : W) cands, resolve (c_profile c) req w0 = (Ok cands, w1) /\ offered cands p) /\
    (exists req' fields pub rnd, SealRequestFor (c_profile c) (p_EncPubKey p) req' (Some fields)
       (p_SignerAddr p) pub (c_unboundFields c) rnd = Ok env) /\
    (forall f, f ∈ c_sealFields c \/ f ∈ DefaultSealedFieldsFor (c_profile c) \/ f = fieldBind ->
       f <> e2eeKey -> env !! f = None) /\
    header_get h headerAllowFallbacks = "false" /\
    (p_Address p <> "" -> header_get h headerProviderPin = p_Address p) /\
    (cx_credential cx <> "" -> header_get h "Authorization" = cx_credential cx).
Proof.
  intros Hlog p env h Hin.
  assert (Forall (sealed_post (W := W) c cx req) log) as HF
    by (destruct Hlog as [(r & s' & Hc & ->)|(r & s' & Hc & ->)];
        [by eapply Complete_posts|by eapply SubmitAsync_posts]).
  rewrite Forall_forall in HF. apply HF in Hin as (-> & Hoff & req' & priv & pub & rnd & Hs & _).
  destruct (requestHeader_pins cx p) as (H1' & H2' & H3' & _). split_and!; [done| | |done..].
  - destruct (seal_ok _ _ _ _ _ _ _ Hs) as (_ & req2 & fields & _ & _ & _ & Hseal). eauto.
  - intros f. by eapply seal_hides.
Qed.

(** C7: an answer comes from an exchange. What [Complete] returns was decrypted with the
    call's own ephemeral key from the 200 response to a post of the call's request,
    sealed to a provider the resolver offered; and when verification is on, a
    signature fetched from that provider was verified, against its on-chain signer,
    over exactly the envelope posted and the frame received. *)
Theorem Complete_sound {W} `{World W} `{Outside W} `{Jcs} `{HpkeLib} c cx req (w : W) out s' :
  Complete c cx req w = (Ok out, s') ->
  exists (w0 w1 : W) cands p rnd0 priv pub rnd env,
    resolve (c_profile c) req w0 = (Ok cands, w1) /\ offered cands p /\
    GenerateRecipientKey rnd0 = Ok (priv, pub) /\ seal c p req priv pub rnd = Ok env /\
    exchange (W := W) c cx env p priv out.
Proof.
  unfold Complete. destruct (outside _ _) as [[cands|err] s1] eqn:E; [|done].
  destruct (outside random s1) as [rnd0 s2]. destruct (GenerateRecipientKey rnd0) as [[priv pub]|] eqn:Eg; [|done].
  intros (p & s3 & Hoff & Hc)%walkLoop_done; [|lia].
  apply completeOnce_done in Hc as (rnd & env & Hs & Hx). unfold outside in E.
  destruct (resolve _ _ _) as [rr w1] eqn:Er. injection E as -> _. eauto 15.
Qed.

(** ** A broker that answers *)

(** What the protocol has an enclave do with a posted body: open the request, take the
    binding, [serve] what is forwarded, and seal the answer back to the request's
    reply key, under the binding when there is one. *)
Definition enclave `{Jcs} `{HpkeLib} (profile : Profile) (sk : PrivateKey) (serve : Request -> Response)
    (sealedFields : option (list string)) (unbound : list string) (rnd body : bytes) : wresult bytes :=
  m ← map_err ENotObject (unmarshal unmarshal_map body);
  opened ← OpenRequestFor profile sk (nil_map m);
  '(bind, forward) ← TakeResponseBind profile opened;
  e ← Request_E2EE (nil_map m);
  eph ← of_option (unb64 (e_ClientEphPub e)) EBadEnc;
  out ← match bind with
        | Some b => SealBoundResponseFor profile eph b (serve forward) sealedFields unbound rnd
        | None => SealResponseFor profile eph (serve forward) sealedFields unbound rnd
        end;
  Ok (marshal_map out).

Lemma map_ok_insert k v m : utf8_str k = true -> raw_ok v = true -> map_ok m -> map_ok (<[k := v]> m).
Proof. intros Hk Hv Hm. by apply map_Forall_insert_2. Qed.

Lemma raw_ok_jstr s : raw_ok (jstr s) = true.
Proof. unfold raw_ok, jstr. cbn [wf jdepth]. by rewrite str_ok_quote. Qed.

Lemma withModel_ok req model : map_ok req -> map_ok (withModel req model).
Proof.
  intros Hok. unfold withModel. destruct (String.eqb _ _); [done|]. apply map_ok_insert; [done|apply raw_ok_jstr|done].
Qed.

(** A scalar member beside those of an object. *)
Lemma raw_ok_extend l k v :
  raw_ok (JObj l) = true -> wf v = true -> jdepth v = 0%N ->
  raw_ok (json_of_map (<[k := v]> (members_map l))) = true.
Proof.
  intros Hl Hw Hd. pose proof (raw_ok_members l) as Hm.
  assert (jdepth (JObj l) < maxNestingDepth)%N as Hlt
    by (unfold raw_ok in Hl; bool_hyps; by apply N.ltb_lt).
  unfold raw_ok. apply andb_true_iff. split.
  - apply wf_json_of_map, map_Forall_insert_2; [done|]. intros k' v' Hk'. by eapply Hm.
  - apply N.ltb_lt. eapply N.le_lt_trans; [|exact Hlt].
    apply jdepth_json_of_map; [|cbn; lia]. apply map_Forall_insert_2; [rewrite Hd; cbn; lia|].
    intros k' v' Hk'. by eapply Hm.
Qed.

Lemma withStreamUsage_ok profile req req' :
  withStreamUsage profile req = Some req' -> map_ok req ->
  map_ok req' /\ forall f, f <> "stream_options" -> req' !! f = req !! f.
Proof.
  unfold withStreamUsage. intros Hs Hok. destruct (negb _); [by simplify_eq|].
  destruct (req !! "stream") as [raw|]; [|by simplify_eq].
  destruct (set_bool false raw) as [[]|]; [|by simplify_eq..].
  assert (forall v, raw_ok v = true -> map_ok (<["stream_options" := v]> req) /\
    forall f, f <> "stream_options" -> <["stream_options" := v]> req !! f = req !! f) as Hout.
  { intros v Hv. split; [by apply map_ok_insert|]. intros f Hf. by rewrite lookup_insert_ne. }
  destruct (req !! "stream_options") as [rawOpts|] eqn:Eo; [destruct (unmarshal_map rawOpts) as [[opts|]|] eqn:Em|];
    simplify_eq; apply Hout; [|by vm_compute..].
  destruct rawOpts; cbn in Em; simplify_eq. apply raw_ok_extend; [|done|done]. by destruct (Hok _ _ Eo).
Qed.

Section honest.
Context {W : Type} `{World W} `{Outside W} `{Jcs} `{L : HpkeLaws}.

(** What the enclave finds in a request the client sealed. *)
Lemma request_received c req pub priv p sk rnd env :
  keypair sk (p_EncPubKey p) -> map_ok req -> req !! fieldBind = None ->
  Forall (fun s => utf8_str s = true) (c_unboundFields c) -> seal c p req priv pub rnd = Ok env ->
  map_ok env /\
  exists prepared opened e, withStreamUsage (c_profile c) (withModel req (p_Model p)) = Some prepared /\
    OpenRequestFor (c_profile c) sk (compact <$> env) = Ok opened /\
    Request_E2EE (compact <$> env) = Ok e /\ unb64 (e_ClientEphPub e) = Some pub /\
    forall bind forward, TakeResponseBind (c_profile c) opened = Ok (bind, forward) ->
      forward = compact <$> prepared /\
      if bindsResponse c p then exists b, bind = Some b /\ DeriveResponseBind priv = Ok b else bind = None.
Proof.
  intros Hsk Hok Hnb Huc Hseal.
  destruct (seal_ok _ _ _ _ _ _ _ Hseal) as (req1 & req2 & fields & Hprep & Hb & _ & Hs).
  destruct (withStreamUsage_ok _ _ _ Hprep (withModel_ok _ _ Hok)) as [Hok1 Hk1].
  assert (req1 !! fieldBind = None) as Hnb1.
  { rewrite Hk1 by done. unfold withModel. destruct (String.eqb _ _); [done|]. by rewrite lookup_insert_ne. }
  assert (map_ok req2) as Hok2.
  { destruct (bindsResponse c p); [destruct Hb as [Hb _]; by eapply AttachResponseBind_map_ok|by subst req2]. }
  destruct (sealed_env_reply_key _ _ _ _ _ _ _ _ _ Hok2 Huc Hs) as (e & He & Heph).
  split; [by eapply sealed_env_ok|].
  exists req1, (compact <$> req2), e. split_and!; [done|by eapply OpenRequestFor_wire|done|done|].
  intros bind forward. destruct (bindsResponse c p).
  - destruct Hb as [Hb _]. destruct (AttachResponseBind_ok _ _ _ _ Hb) as (s0 & b & _ & _ & Hder & _).
    rewrite (TakeResponseBind_attached _ _ _ _ _ Hb Hder). intros [= <- <-]. eauto.
  - subst req2. unfold TakeResponseBind. destruct (spec (c_profile c)) as [sp|]; [|done].
    cbn [mbind result_bind]. rewrite lookup_fmap, Hnb1. cbn [fmap option_fmap option_map].
    destruct (requiresBind sp); [done|]. by intros [= <- <-].
Qed.

(** What a broker does of its half of response verification: for the chat key of the
    header it answered under, it serves a signature of [text] by the provider's signer. *)
Definition serves_signature (c : Client) (p : Provider) (h : Header) (w : W) (text : string) : Prop :=
  header_get h headerResKey <> "" /\
  exists sig w', fetch_signature p (header_get h headerResKey) w = (Ok sig, w') /\
    signed_by (c_recover c) (p_SignerAddr p) text sig.

(** The text a broker signs of a post and its answer, as it reads the two bodies. *)
Definition signed_exchange (posted answer : bytes) (text : string) : Prop :=
  exists q r, unmarshal unmarshal_map posted = Ok q /\ unmarshal unmarshal_map answer = Ok r /\
    SignedTextE2EE (nil_map q) (nil_map r) = Ok text.

(** The block of a request the client sealed. *)
Lemma seal_block c req pub priv p rnd env :
  map_ok req -> Forall (fun s => utf8_str s = true) (c_unboundFields c) -> seal c p req priv pub rnd = Ok env ->
  exists e, env !! e2eeKey = Some (json_of_E2EE e) /\ Forall (fun s => utf8_str s = true) (e_UnboundFields e).
Proof.
  intros Hok Hu (req1 & req2 & fields & Hprep & Hb & _ & Hs)%seal_ok.
  destruct (withStreamUsage_ok _ _ _ Hprep (withModel_ok _ _ Hok)) as [Hok1 _].
  assert (map_ok req2) as Hok2.
  { destruct (bindsResponse c p); [destruct Hb as [Hb _]; by eapply AttachResponseBind_map_ok|by subst req2]. }
  destruct (sealed_env_block _ _ _ _ _ _ _ _ _ Hs Hok2 Hu) as (e & _ & Hblk & _ & Huf).
  exists e. split; [done|]. by rewrite Huf.
Qed.

(** A broker that signs what it read and wrote passes the client's verification. *)
Lemma verifyNonStream_passes c p h env e out text (s : cstate W) :
  map_ok env -> map_ok out -> env !! e2eeKey = Some (json_of_E2EE e) ->
  Forall (fun s => utf8_str s = true) (e_UnboundFields e) ->
  signed_exchange (marshal_map env) (marshal_map out) text -> serves_signature c p h (st_world s) text ->
  exists s', verifyNonStream c p h env (compact <$> out) s = (None, s').
Proof.
  intros Hoke Hout He Hu (q & r & Hq & Hr & Ht) (Hkey & sig & w' & Hf & Hsig).
  rewrite unmarshal_marshal_map in Hq, Hr by done. simplify_eq. cbn [nil_map] in Ht.
  unfold verifyNonStream, fetchSig, outside. rewrite (proj2 (String.eqb_neq _ _) Hkey), Hf. cbn [map_err].
  assert (SignedTextE2EE env (compact <$> out) = Ok text) as Ht'.
  { unfold SignedTextE2EE in Ht |- *. by rewrite <-(FrameBindingHash_wire _ _ Hu He). }
  unfold VerifyE2EE. rewrite Ht'. cbn [mbind result_bind].
  rewrite (signed_by_verifies _ _ _ _ _ Hsig (scheme_of_text _ _ _ Ht')). eauto.
Qed.

(** C11: a broker that follows the protocol is understood. If the response to the post of
    a sealed request is what the enclave holding the provider's key makes of it and,
    when the client verifies responses, the broker then serves under the response's
    chat key its signer's signature of the text of the two bodies as it reads them,
    then the attempt succeeds with the enclave's own answer to the request as the
    client prepared it: sealing, the wire, the binding, both openings and the check of
    the signature change nothing. *)
Theorem broker_answers c cx (serve : Request -> Response) req pub priv p sk sf u rnd' (s : cstate W) env body h w' :
  keypair sk (p_EncPubKey p) -> keypair priv pub -> map_ok req -> req !! fieldBind = None ->
  Forall (fun s => utf8_str s = true) (c_unboundFields c) -> Forall (fun s => utf8_str s = true) u ->
  (forall fwd, map_ok (serve fwd)) ->
  seal c p req priv pub (random (st_world s)).1 = Ok env ->
  enclave (c_profile c) sk serve sf u rnd' (marshal_map env) = Ok body ->
  http_do (MkHttpRequest (p_URL p) (requestHeader cx p) (marshal_map env)) (random (st_world s)).2
    = (Ok (MkHttpResponse StatusOK h body None), w') ->
  (verifyEnabled c = true -> exists text, signed_exchange (marshal_map env) body text /\
     serves_signature c p h (body_read (MkHttpResponse StatusOK h body None) w') text) ->
  exists prepared s', withStreamUsage (c_profile c) (withModel req (p_Model p)) = Some prepared /\
    completeOnce c cx req pub priv p s = (Done (compact <$> serve (compact <$> prepared)), s').
Proof.
  intros Hsk Hpriv Hok Hnb Huc Hu Hserve Hseal Henc Hdo Hve.
  destruct (seal_block _ _ _ _ _ _ _ Hok Huc Hseal) as (eb & Hblk & Hub).
  destruct (request_received _ _ _ _ _ _ _ _ Hsk Hok Hnb Huc Hseal)
    as (Hoke & req1 & opened & e & Hprep & Hopened & He & Heph & Htake).
  exists req1. unfold enclave in Henc.
  rewrite unmarshal_marshal_map in Henc by done. cbn [map_err mbind result_bind nil_map] in Henc.
  rewrite Hopened in Henc. cbn [mbind result_bind] in Henc.
  destruct (TakeResponseBind (c_profile c) opened) as [[bind fwd]|] eqn:Et; [|done].
  destruct (Htake _ _ eq_refl) as [-> Hbind]. cbn [mbind result_bind] in Henc.
  rewrite He in Henc. cbn [mbind result_bind] in Henc. rewrite Heph in Henc. cbn [of_option mbind result_bind] in Henc.
  assert (exists out, map_ok out /\ body = marshal_map out /\
    openSealed c p priv (compact <$> out) = Ok (compact <$> serve (compact <$> req1))) as (out & Hout & -> & Hopen).
  { unfold openSealed. destruct (bindsResponse c p).
    - destruct Hbind as (b & -> & Hder). inv_ok.
      match goal with H : SealBoundResponseFor _ _ _ _ _ _ _ = Ok ?o |- _ => exists o; rename H into Hsb end.
      edestruct bound_response_parts as (Ho & ? & ? & ? & _ & _ & _ & _ & _ & Hm);
        [exact Hpriv|apply (Hserve (compact <$> req1))|exact Hu|exact Hder|exact Hsb|]. done.
    - subst bind. inv_ok.
      match goal with H : SealResponseFor _ _ _ _ _ _ = Ok ?o |- _ => exists o; rename H into Hsb end.
      edestruct base_response_parts as [Ho Hm];
        [exact Hpriv|apply (Hserve (compact <$> req1))|exact Hu|exact Hsb|]. done. }
  unfold completeOnce, outside, doRequest, outside. destruct (random (st_world s)) as [rnd w] eqn:Er.
  cbn [fst snd] in Hseal, Hdo. rewrite Hseal. cbn [st_world log_event emit].
  rewrite Hdo. cbn [st_walk st_fail st_log]. unfold completeResponse. cbn [hs_Status].
  change (negb (StatusOK =? StatusOK)) with false. unfold read_all. cbn [hs_BodyErr hs_Body].
  rewrite unmarshal_marshal_map by done. cbn [nil_map hs_Header]. rewrite Hopen.
  destruct (verifyEnabled c); [|eexists; split; [done|reflexivity]].
  destruct (Hve eq_refl) as (text & Hsig & Hserves).
  match goal with |- context [verifyNonStream c p h env _ ?s0] =>
    destruct (verifyNonStream_passes c p h env eb out text s0) as [s1 ->] end; [done..|].
  eexists. split; [done|reflexivity].
Qed.
End honest.

(** A streaming chat whose [stream_options] is [null] panics while it is prepared: the
    null leaves a nil map behind, and the flag is then written into it. *)
Example null_stream_options :
  withStreamUsage ProfileChat (<["stream" := JBool true]> {[ "stream_options" := JNull ]}) = None.
Proof. vm_compute. reflexivity. Qed.

(** ** Witnesses: a chat answered by the enclave of [EnvelopeWitness] *)

Module ClientWitness.
Import EnvelopeWitness ResponseWitness RespBindWitness.

#[export] Instance clock : World Z := {| now w := w; canceledBy _ := false |}.
Definition prov : Provider :=
  MkProvider "https://router/v1" key signer "0xprovider" None "" "" true.
Definition serve (_ : Request) : Response := answer.
Definition reply (body : bytes) : cresult (HttpResponse cerr) :=
  match enclave ProfileChat key serve None ["model"] seed body with
  | Ok b => Ok (MkHttpResponse StatusOK ∅ b None)
  | Err _ => Err (EExt "connection refused" false)
  end.
#[export] Instance toy : Outside Z := {|
  http_do q w := (reply (hq_Body q), w + Second);
  body_read _ w := w;
  random w := (seed, w);
  fetch_signature _ _ w := (Err (EExt "no signatures" false), w);
  resolve _ _ w := (Ok (staticCandidates prov), w)
|}.
Definition client : Client := NewWithResolver [WithMetrics true].
Definition ctx : CallContext := MkCallContext ∅ "Bearer token" false.
Definition run : cresult Response * cstate Z := Complete client ctx (chat "hi") 0.
Definition posted : Request :=
  match seal client prov (chat "hi") seed seed seed with Ok e => e | Err _ => ∅ end.
Lemma posted_sealed : seal client prov (chat "hi") seed seed seed = Ok posted.
Proof. vm_cast_no_check (eq_refl (seal client prov (chat "hi") seed seed seed)). Qed.
Lemma run_answer : run.1 = Ok (compact <$> answer).
Proof. vm_cast_no_check (@eq_refl (cresult Response) (Ok (compact <$> answer))). Qed.
Lemma run_post : EvPost prov posted (requestHeader ctx prov) ∈ st_log run.2.
Proof.
  apply (list_elem_of_lookup_2 _ 0).
  vm_cast_no_check (eq_refl (Some (EvPost prov posted (requestHeader ctx prov)))).
Qed.
Definition served_body : bytes :=
  ok_or [] (enclave ProfileChat key serve None ["model"] seed (marshal_map posted)).
Lemma served : enclave ProfileChat key serve None ["model"] seed (marshal_map posted) = Ok served_body.
Proof. vm_cast_no_check (eq_refl (enclave ProfileChat key serve None ["model"] seed (marshal_map posted))). Qed.
Lemma keypair_seed : keypair seed seed.
Proof. by split. Qed.
Definition idle : cstate Z := MkState 0 (MkWalk 0 0) noErr [].
End ClientWitness.

(** The same exchange with responses verified: the provider's signer signs what its
    enclave received and answered. *)
Module VerifiedWitness.
Import EnvelopeWitness ProofWitness ResponseWitness RespBindWitness ClientWitness.

Definition client : Client :=
  NewWithResolver [WithMetrics true; WithResponseVerification true (Some Recover)].
Definition prov : Provider :=
  MkProvider "https://router/v1" key toy_signer "0xprovider" None "" "" true.
Definition header : Header := header_set headerResKey "chat-1" ∅.
Definition posted : Request := ok_or ∅ (seal client prov (chat "hi") seed seed seed).
Lemma verified_post_sealed : seal client prov (chat "hi") seed seed seed = Ok posted.
Proof. vm_cast_no_check (eq_refl (seal client prov (chat "hi") seed seed seed)). Qed.
Definition answered : wresult bytes := enclave ProfileChat key serve None ["model"] seed (marshal_map posted).
Definition body : bytes := ok_or [] answered.
Lemma verified_served : answered = Ok body.
Proof. vm_cast_no_check (eq_refl answered). Qed.

Definition read_back (b : bytes) : Request := nil_map (ok_or None (unmarshal unmarshal_map b)).
Definition text : string := text_of (SignedTextE2EE (read_back (marshal_map posted)) (read_back body)).
Lemma verified_text_signed : signed_exchange (marshal_map posted) body text.
Proof.
  exists (ok_or None (unmarshal unmarshal_map (marshal_map posted))), (ok_or None (unmarshal unmarshal_map body)).
  split_and!.
  - vm_cast_no_check (eq_refl (unmarshal unmarshal_map (marshal_map posted))).
  - vm_cast_no_check (eq_refl (unmarshal unmarshal_map body)).
  - vm_cast_no_check (eq_refl (SignedTextE2EE (read_back (marshal_map posted)) (read_back body))).
Qed.
Lemma toy_signs t : signed_by (Some Recover) toy_signer t (chat_signature t).
Proof.
  split; [|split; [done|]].
  - intros E%(f_equal String.length). revert E. vm_compute. discriminate.
  - exists Recover, (rs ++ [byte_of 28]), toy_signer. split_and!; [done|vm_compute; reflexivity| |exact toy_addr].
    unfold Recover. cbn. reflexivity.
Qed.

#[export] Instance signing : Outside Z := {|
  http_do q w := (Ok (MkHttpResponse StatusOK header body None), w + Second);
  body_read _ w := w;
  random w := (seed, w);
  fetch_signature _ _ w := (Ok (chat_signature text), w);
  resolve _ _ w := (Ok (staticCandidates prov), w)
|}.
End VerifiedWitness.

Section witnesses.
Import EnvelopeWitness ResponseWitness RespBindWitness ClientWitness.

Lemma posts_sealed_witness :
  posted !! "messages" = None /\ header_get (requestHeader ctx prov) "Authorization" = "Bearer token".
Proof.
  assert (exists r s', Complete client ctx (chat "hi") 0 = (r, s') /\ st_log run.2 = st_log s') as Hrun
    by (exists run.1, run.2; split; [apply surjective_pairing|reflexivity]).
  destruct (posts_sealed client ctx (chat "hi") 0 (st_log run.2) (or_introl Hrun) _ _ _ run_post)
    as (_ & _ & Hf & _ & _ & Ha).
  split; [apply Hf; [left; apply contains_spec; reflexivity|discriminate]|apply Ha; discriminate].
Defined.

Lemma Complete_sound_witness :
  exists p priv env, exchange (W := Z) client ctx env p priv (compact <$> answer).
Proof.
  destruct (Complete_sound client ctx (chat "hi") 0 (compact <$> answer) run.2) as
    (w0 & w1 & cands & p & rnd0 & priv & pub & rnd & env & _ & _ & _ & _ & Hx).
  - rewrite <-run_answer. apply surjective_pairing.
  - exact (ex_intro _ p (ex_intro _ priv (ex_intro _ env Hx))).
Defined.

Lemma broker_answers_witness :
  verifyEnabled VerifiedWitness.client = true /\
  exists prepared s', withStreamUsage ProfileChat (chat "hi") = Some prepared /\
    completeOnce (H0 := VerifiedWitness.signing) VerifiedWitness.client ctx (chat "hi") seed seed VerifiedWitness.prov idle
    = (Done (compact <$> serve (compact <$> prepared)), s').
Proof.
  split; [reflexivity|].
  refine (broker_answers (H0 := VerifiedWitness.signing) VerifiedWitness.client ctx serve (chat "hi") seed seed
    VerifiedWitness.prov key None ["model"] seed idle VerifiedWitness.posted VerifiedWitness.body
    VerifiedWitness.header Second keypair_key keypair_seed chat_ok eq_refl model_utf8 model_utf8
    (fun _ => answer_ok) VerifiedWitness.verified_post_sealed VerifiedWitness.verified_served _ _).
  - reflexivity.
  - intros _. exists VerifiedWitness.text. split; [exact VerifiedWitness.verified_text_signed|]. split.
    + vm_compute. discriminate.
    + exact (ex_intro _ _ (ex_intro _ _ (conj eq_refl (VerifiedWitness.toy_signs VerifiedWitness.text)))).
Defined.
End witnesses.
