(* ===== verification/Stream.v ===== *)
(** * Stream: a streaming request through the client ([client/core/stream.go])

    The answer is a stream of server-sent events, each one sealed frame. [scanLines]
    and [next] are the reader: lines from the body, events from the lines. [pump] is
    the loop of [streamOnce]: frame after frame it decodes, opens, binds for the final
    verification and delivers to the caller, until the end, ["DONE"] or an error.
    [CompleteStream] runs attempts over the candidates, which stops being possible once
    a frame was delivered.

    The theorems: reading ends, and the loop with it; what a caller receives are the
    frames of one response, opened in order, whatever was tried before it; a stream that
    succeeds had its final frame and was verified over exactly those frames; an
    enclave's stream arrives as it was served. *)

From S2P Require Import Prelude GoBytes GoHash GoJson GoDecode GoJsonEq Profile Hpke Envelope Response RespBind Signature GoHttp Walk Client.

Definition maxSSELine : Z := 4194304.
Definition streamIdleTimeout : Z := 10 * Minute + 30 * Second.

(** ** Reading events *)

(** [bufio.ErrTooLong]. *)
Definition ErrTooLong : cerr := EExt "bufio.Scanner: token too long" false.

Definition newline : ascii := byte_of 10.

(** A line as [bufio.ScanLines] gives it, from its bytes in reverse: one trailing
    carriage return dropped. *)
Definition line_of (acc : bytes) : bytes :=
  match acc with
  | c :: acc' => if bval c =? 13 then rev acc' else rev acc
  | [] => []
  end.

(** What a [bufio.Scanner] over a body yields: the lines, and the error that stops it
    ([None] at the end of the body). [err] closes the body, [acc] is the line so far,
    reversed, and [room] what the buffer can still take: a line is too long once it
    fills the buffer. *)
Fixpoint scanLines (err : option cerr) (acc : bytes) (room : Z) (l : bytes)
    : list bytes * option cerr :=
  if room <=? 0 then ([], Some ErrTooLong)
  else match l with
  | [] => (match acc with [] => [] | _ => [line_of acc] end, err)
  | c :: l =>
      if Ascii.eqb c newline
      then let '(lines, e) := scanLines err [] maxSSELine l in (line_of acc :: lines, e)
      else scanLines err (c :: acc) (room - 1) l
  end.

(** [sseReader.next] on the lines left: the event's data, or the error ([None] is
    [io.EOF]), and the lines after it. [data] is what the event has so far. *)
Fixpoint next_event (err : option cerr) (data : option bytes) (lines : list bytes)
    : result (option cerr) bytes * list bytes :=
  match lines with
  | [] => (match err with
           | Some e => Err (Some e)
           | None => match data with Some d => Ok d | None => Err None end
           end, [])
  | [] :: lines => match data with
                   | Some d => (Ok d, lines)
                   | None => next_event err None lines
                   end
  | line :: lines =>
      match strip_prefix (bytes_of "data:") line with
      | Some after =>
          let payload := match strip_prefix (bytes_of " ") after with Some p => p | None => after end in
          next_event err (Some match data with Some d => d ++ newline :: payload | None => payload end) lines
      | None => next_event err data lines
      end
  end.

(** All the events, by [next] until it fails. *)
Fixpoint events_of (fuel : nat) (err : option cerr) (lines : list bytes) : list bytes * option cerr :=
  match fuel with
  | O => ([], None)
  | S fuel => match next_event err None lines with
              | (Ok d, rest) => let '(l, e) := events_of fuel err rest in (d :: l, e)
              | (Err e, _) => ([], e)
              end
  end.

(** The events of a response's body, and the error they end with. *)
Definition body_events (resp : HttpResponse cerr) : list bytes * option cerr :=
  let '(lines, err) := scanLines (hs_BodyErr resp) [] maxSSELine (hs_Body resp) in
  events_of (S (length lines)) err lines.

(** ** One streamed attempt *)

(** Reading up to event [k] of a body may be cut short. *)
Class StreamReads (W : Type) := event_read : HttpResponse cerr -> nat -> W -> option cerr * W.

Section stream.
Context {W : Type} `{World W} `{Outside W} `{StreamReads W} `{Jcs} `{HpkeLib}.
Context (c : Client) (cx : CallContext).
(** The caller's frame handler. *)
Context (onFrame : Response -> W -> option cerr * W).

(** The loop's variables; [pm_fired]: the idle watchdog cancelled the attempt. *)
Record pump_state := MkPump {
  pm_opener : option ResponseOpener;
  pm_committed : bool;
  pm_sawFinal : bool;
  pm_binder : option StreamBinder;
  pm_frameIdx : nat;
  pm_reads : nat;
  pm_fired : bool
}.

(** How an iteration ends: the attempt's outcome and result, or the next iteration. *)
Definition ended : Type := string * attempted unit.

Definition failed (retry : bool) (outcome : string) (err : cerr) : ended :=
  (outcome, Failed retry (stageErr StageUpstream err)).

(** The stream's end, at [io.EOF] or ["DONE"]. *)
Definition streamEnd (provider : Provider) (resp : HttpResponse cerr) (ps : pump_state) (s : cstate W)
    : ended * cstate W :=
  if negb (pm_sawFinal ps)
  then (failed (negb (pm_committed ps)) UpstreamBody (EMsg "stream ended before the final frame"), s)
  else match pm_binder ps with
  | None => ((UpstreamOK, Done tt), s)
  | Some binder =>
      match verifyStream c provider (hs_Header resp) binder s with
      | (Some (vo, verr), s) =>
          let done := canceledBy (st_world s) || pm_fired ps in
          (failed false (verifyOutcome done (st_world s) vo) verr, s)
      | (None, s) => ((UpstreamOK, Done tt), s)
      end
  end.

(** The next event could not be read. *)
Definition readFailed (ps : pump_state) (err : cerr) (s : cstate W) : ended :=
  let w := st_world s in
  if canceledBy w || pm_fired ps then
    if canceledBy w then failed false UpstreamCanceled (EMsg "stream aborted")
    else failed (negb (pm_committed ps)) UpstreamTimeout (EMsg "stream aborted")
  else failed (negb (pm_committed ps)) (upstreamFailureOutcome false w err UpstreamBody)
         (EWrap "read stream" err).

Definition streamOpener (provider : Provider) (ephPriv : PrivateKey) (frame : Response)
    : wresult ResponseOpener :=
  if bindsResponse c provider then NewBoundResponseOpenerFor (c_profile c) ephPriv frame
  else NewResponseOpenerFor (c_profile c) ephPriv frame.

(** The caller receives a frame: the first one commits the stream. *)
Definition deliver (provider : Provider) (resp : HttpResponse cerr) (start : Z) (ps : pump_state)
    (out : Response) (s : cstate W) : option cerr * cstate W :=
  let s := if pm_committed ps then s
           else recordMeta cx provider (hs_Header resp)
                  (metric c (EvFirstFrame (now (st_world s) - start)) s) in
  outside (onFrame out) (log_event (EvDeliver out) s).

(** One event that is a frame. *)
Definition frameStep (provider : Provider) (ephPriv : PrivateKey) (resp : HttpResponse cerr) (start : Z)
    (ps : pump_state) (data : bytes) (s : cstate W) : (ended + pump_state) * cstate W :=
  let fail outcome err s := (inl (failed (negb (pm_committed ps)) outcome err), s) in
  match unmarshal unmarshal_map data with
  | Err e => fail UpstreamUndecodable (EWrap "decode stream frame" (EJson e)) s
  | Ok m =>
  let frame := nil_map m in
  match Response_E2EE frame with
  | Err e => fail UpstreamUndecodable (EWrap "read metadata of stream frame" (EWire e)) s
  | Ok fe =>
  match (match pm_opener ps with Some o => Ok o | None => streamOpener provider ephPriv frame end) with
  | Err e => fail UpstreamUndecodable (EWrap "stream setup" (EWire e)) (metric c EvOpenFailure s)
  | Ok opener =>
  match OpenFrame opener frame with
  | (Err e, _) =>
      let err := if Nat.eqb (pm_frameIdx ps) 0 then openErr (bindsResponse c provider) (EWire e)
                 else EWire e in
      fail UpstreamUndecodable (EWrap "open stream frame" err) (metric c EvOpenFailure s)
  | (Ok out, opener) =>
  match (match pm_binder ps with
         | None => Ok None
         | Some b => b ← AddFrame b frame; Ok (Some b)
         end) with
  | Err e => fail UpstreamUndecodable (EWrap "bind stream frame" (EWire e)) s
  | Ok binder =>
      match deliver provider resp start ps out s with
      | (Some err, s) =>
          let outcome := if canceledBy (st_world s) then UpstreamCanceled else UpstreamInternal in
          (inl (outcome, Failed false err), s)
      | (None, s) =>
          (inr (MkPump (Some opener) true (pm_sawFinal ps || r_Final fe) binder (S (pm_frameIdx ps))
                  (pm_reads ps) (pm_fired ps)), s)
      end
  end end end end end.

(** The read of an iteration: the event or error, the lines left, and whether the
    watchdog has fired. *)
Definition readStep (resp : HttpResponse cerr) (serr : option cerr) (lines : list bytes) (ps : pump_state)
    (s : cstate W) : result (option cerr) bytes * list bytes * pump_state * cstate W :=
  let began := now (st_world s) in
  let '(cut, s) := outside (event_read resp (pm_reads ps)) s in
  let fired := pm_fired ps || (streamIdleTimeout <=? now (st_world s) - began) in
  let ps := MkPump (pm_opener ps) (pm_committed ps) (pm_sawFinal ps) (pm_binder ps) (pm_frameIdx ps)
              (S (pm_reads ps)) fired in
  match cut with
  | Some err => (Err (Some err), lines, ps, s)
  | None => let '(r, lines) := next_event serr None lines in (r, lines, ps, s)
  end.

(** The loop; [None] is out of fuel. *)
Fixpoint pump (fuel : nat) (provider : Provider) (ephPriv : PrivateKey) (resp : HttpResponse cerr)
    (start : Z) (serr : option cerr) (lines : list bytes) (ps : pump_state) (s : cstate W)
    : option (ended * cstate W) :=
  match fuel with
  | O => None
  | S fuel =>
      match readStep resp serr lines ps s with
      | (Err None, _, ps, s) => Some (streamEnd provider resp ps s)
      | (Err (Some err), _, ps, s) => Some (readFailed ps err s, s)
      | (Ok data, lines, ps, s) =>
          if bool_decide (trim_space_bytes data = bytes_of "[DONE]")
          then Some (streamEnd provider resp ps s)
          else match frameStep provider ephPriv resp start ps data s with
               | (inl e, s) => Some (e, s)
               | (inr ps, s) => pump fuel provider ephPriv resp start serr lines ps s
               end
      end
  end.

(** What [streamOnce] does with a response. *)
Definition streamResponse (provider : Provider) (sealed : Request) (ephPriv : PrivateKey) (start : Z)
    (resp : HttpResponse cerr) (s : cstate W) : ended * cstate W :=
  if negb (hs_Status resp =? StatusOK) then
    let s := on_world (body_read resp) s in
    ((upstreamStatusOutcome (hs_Status resp),
      Failed (retryableStatus (hs_Status resp))
        (EStage StageUpstream (hs_Status resp) (EMsg "provider returned an error status")
           (read_limited maxSSELine resp) (hs_Header resp))), s)
  else if negb (has_prefix (header_get (hs_Header resp) "Content-Type") "text/event-stream") then
    let s := on_world (body_read resp) s in
    ((UpstreamNotStream,
      Failed true (EStage StageUpstream 0 (EMsg "provider did not stream")
        (read_limited maxSSELine resp) (hs_Header resp))), s)
  else
    match (if verifyEnabled c then b ← NewStreamBinder sealed; Ok (Some b) else Ok None) with
    | Err e => ((UpstreamInternal,
                 Failed false (stageErr StageInternal (EWrap "start response binding" (EProof e)))), s)
    | Ok binder =>
        let '(lines, serr) := scanLines (hs_BodyErr resp) [] maxSSELine (hs_Body resp) in
        match pump (S (length lines)) provider ephPriv resp start serr lines
                (MkPump None false false binder 0 0 false) s with
        | Some r => r
        | None => ((UpstreamInternal, Failed false (EMsg "unreachable")), s)
        end
    end.

Definition streamOnce (provider : Provider) (sealed : Request) (ephPriv : PrivateKey) (s : cstate W)
    : attempted unit * cstate W :=
  let start := now (st_world s) in
  match doRequest cx provider sealed s with
  | (Err err, s) =>
      let w := st_world s in
      report c UpstreamStream start (upstreamFailureOutcome (canceledBy w) w err UpstreamTransport)
        (Failed false (EStage StageUpstream 0 (EWrap "post to provider" err) [] ∅)) s
  | (Ok resp, s) =>
      let '((outcome, r), s) := streamResponse provider sealed ephPriv start resp s in
      report c UpstreamStream start outcome r s
  end.

(** What is attempted of one candidate: sealing and [streamOnce]. *)
Definition streamAttempt (req : Request) (ephPub : PublicKey) (ephPriv : PrivateKey)
    (provider : Provider) (s : cstate W) : attempted unit * cstate W :=
  let '(rnd, s) := outside random s in
  match seal c provider req ephPriv ephPub rnd with
  | Err err => (sealFailed err, s)
  | Ok sealed => streamOnce provider sealed ephPriv s
  end.

Definition CompleteStream (req : Request) (w : W) : cresult unit * cstate W :=
  let s := MkState w (MkWalk 0 (c_resolveBudgetTO c)) noErr [] in
  match outside (resolve (c_profile c) req) s with
  | (Err err, s) => (Err (resolveErr err), s)
  | (Ok cands, s) =>
      let '(rnd, s) := outside random s in
      match GenerateRecipientKey rnd with
      | Err e => (Err (stageErr StageInternal (EWrap "generate ephemeral key" (EWire e))), s)
      | Ok (ephPriv, ephPub) =>
          walkCandidates (c_metrics c) (streamAttempt req ephPub ephPriv) cands (c_resolveBudgetTO c)
            (st_world s) (st_log s)
      end
  end.
End stream.

(** ** Reading ends *)

Lemma next_event_shorter err data lines d rest :
  next_event err data lines = (Ok d, rest) ->
  (length rest <= length lines)%nat /\ (data = None -> (length rest < length lines)%nat).
Proof.
  revert data. induction lines as [|line lines IH]; intros data; cbn [next_event].
  { destruct err; [done|]. destruct data; [|done]. intros [= _ <-]. by split. }
  assert (forall data', next_event err data' lines = (Ok d, rest) ->
    (length rest <= length (line :: lines))%nat /\ (data = None -> (length rest < length (line :: lines))%nat))
    as Hgo by (intros data' [? ?]%IH; cbn; lia).
  destruct line as [|ch line]; [destruct data; [intros [= _ <-]; cbn; split; [lia|done]|apply Hgo]|].
  destruct (strip_prefix _ _); apply Hgo.
Qed.

Lemma next_event_eof err data lines e rest :
  next_event err data lines = (Err e, rest) -> e = err /\ rest = [].
Proof.
  revert data. induction lines as [|line lines IH]; intros data; cbn [next_event].
  { destruct err; [by intros [= <- <-]|]. by destruct data; intros [= <- <-]. }
  destruct line as [|ch line]; [destruct data; [done|apply IH]|].
  destruct (strip_prefix _ _); apply IH.
Qed.

(** Fuel beyond the number of lines changes nothing. *)
Lemma events_of_fuel err n m lines :
  (length lines < n)%nat -> (length lines < m)%nat -> events_of n err lines = events_of m err lines.
Proof.
  revert m lines. induction n as [|n IH]; intros [|m] lines Hn Hm; [lia..|]. cbn [events_of].
  destruct (next_event err None lines) as [[d|e] rest] eqn:E; [|done].
  apply next_event_shorter in E as [_ E]. specialize (E eq_refl). by rewrite (IH m) by lia.
Qed.

(** The events of lines, with the fuel they need. *)
Definition line_events (err : option cerr) (lines : list bytes) : list bytes :=
  (events_of (S (length lines)) err lines).1.

Lemma line_events_next err lines d rest :
  next_event err None lines = (Ok d, rest) -> line_events err lines = d :: line_events err rest.
Proof.
  intros E. unfold line_events at 1. cbn [events_of]. rewrite E.
  apply next_event_shorter in E as [_ E]. specialize (E eq_refl).
  rewrite (events_of_fuel err (length lines) (S (length rest))) by lia.
  unfold line_events. by destruct (events_of (S (length rest)) err rest).
Qed.

(** ** What an attempt delivers *)

Definition is_final (frame : Response) : bool :=
  match Response_E2EE frame with Ok e => r_Final e | Err _ => false end.

(** An event and the frame in it. *)
Definition frame_of (data : bytes) (frame : Response) : Prop :=
  exists m, unmarshal unmarshal_map data = Ok m /\ frame = nil_map m.

(** An event that is not a delivery. *)
Definition undelivered (e : event) : Prop := match e with EvDeliver _ => False | _ => True end.

Section attempt.
Context {W : Type} `{World W} `{Outside W} `{StreamReads W} `{Jcs} `{HpkeLib}.
Context (c : Client) (cx : CallContext).
Context (onFrame : Response -> W -> option cerr * W).

(** Frames opened in order, by [o] or by the opener the first of them sets up. *)
Definition opens_from (p : Provider) (priv : PrivateKey) (o : option ResponseOpener)
    (frames outs : list Response) : Prop :=
  match o, frames with
  | None, [] => outs = []
  | None, f :: _ => exists ro, streamOpener c p priv f = Ok ro /\ (OpenFrames ro frames).1 = Ok outs
  | Some ro, _ => (OpenFrames ro frames).1 = Ok outs
  end.

(** A signature fetched from the provider verifies the text of [b]. *)
Definition text_verified (p : Provider) (resp : HttpResponse cerr) (b : StreamBinder) : Prop :=
  exists (w w' : W) sig t, fetch_signature p (header_get (hs_Header resp) headerResKey) w = (Ok sig, w') /\
    Text b = Ok t /\ verify sig t SchemeE2EECiphertextStream (p_SignerAddr p) (c_recover c) = Ok tt.

(** What the loop comes to from a state: the events read hold the frames opened. *)
Definition pumped (p : Provider) (priv : PrivateKey) (resp : HttpResponse cerr) (ps : pump_state)
    (datas : list bytes) (outs : list Response) (r : attempted unit) : Prop :=
  exists frames read, read `prefix_of` datas /\ Forall2 frame_of read frames /\
    opens_from p priv (pm_opener ps) frames outs /\
    match r with
    | Done _ =>
        pm_sawFinal ps || existsb is_final frames = true /\
        (forall b, pm_binder ps = Some b -> exists b', addFrames 0 b frames = Ok b' /\ text_verified p resp b')
    | Failed retry err => isKeyMismatch err = false /\ (retry = true -> pm_committed ps = false /\ outs = [])
    end.

Lemma delivered_grows (s s' : cstate W) : grows undelivered s s' -> delivered (st_log s') = delivered (st_log s).
Proof.
  intros (l & -> & Hl). rewrite delivered_app. induction Hl as [|e l He _ IH]; [by rewrite app_nil_r|].
  destruct e; try done; apply IH.
Qed.

Lemma undelivered_other e : match e with EvPost _ _ _ | EvDeliver _ => False | _ => True end -> undelivered e.
Proof. by destruct e. Qed.

Lemma verifyStream_grows (Q : event -> Prop) p h b (s : cstate W) r s' :
  (forall e, match e with EvPost _ _ _ | EvDeliver _ => False | _ => True end -> Q e) ->
  verifyStream c p h b s = (r, s') -> grows Q s s'.
Proof.
  intros HQ. unfold verifyStream. destruct (Text b) as [t|]; [|intros [= _ <-]; apply grows_refl].
  destruct (fetchSig p h s) as [[sig|err] s1] eqn:E; apply fetchSig_log in E;
    [destruct (VerifyBoundText _ _ _ _ _); intros [= _ <-]|intros [= _ <-]];
    first [by apply (grows_log _ _ s), grows_refl|apply grows_emit; [by apply HQ|by apply (grows_log _ _ s), grows_refl]].
Qed.

Lemma verifyStream_accepts p resp b (s : cstate W) s' :
  verifyStream c p (hs_Header resp) b s = (None, s') -> text_verified p resp b.
Proof.
  unfold verifyStream, fetchSig, outside, text_verified. destruct (Text b) as [t|]; [|done].
  destruct (String.eqb _ _); [done|].
  destruct (fetch_signature _ _ _) as [[sig|] w'] eqn:E; cbn [map_err]; [|done].
  destruct (VerifyBoundText _ _ _ _ _) as [[]|] eqn:Ev; [|done]. intros _. by exists (st_world s), w', sig, t.
Qed.

(** The errors of [streamOnce] itself carry no body. *)
Lemma stageErr_mismatch st e : isKeyMismatch (stageErr st e) = false.
Proof. done. Qed.

Lemma streamEnd_pumped p priv resp ps datas (s : cstate W) o r s' :
  streamEnd c p resp ps s = ((o, r), s') ->
  pumped p priv resp ps datas [] r /\ delivered (st_log s') = delivered (st_log s).
Proof.
  assert (opens_from p priv (pm_opener ps) [] []) as Ho by (unfold opens_from; by destruct (pm_opener ps)).
  unfold streamEnd, pumped. destruct (pm_sawFinal ps) eqn:Ef; cbn [negb].
  - destruct (pm_binder ps) as [b|] eqn:Eb.
    + destruct (verifyStream c p (hs_Header resp) b s) as [[[vo verr]|] s1] eqn:Ev;
        pose proof (delivered_grows _ _ (verifyStream_grows _ _ _ _ _ _ _ undelivered_other Ev)) as Hd; intros [= _ <- <-];
        (split; [|done]); exists [], []; split_and!; try done; try apply prefix_nil.
      intros b0 [= <-]. exists b. split; [done|]. by eapply verifyStream_accepts.
    + intros [= _ <- <-]. split; [|done]. exists [], []. split_and!; try done; apply prefix_nil.
  - intros [= _ <- <-]. split; [|done]. exists [], []. split_and!; try done; try apply prefix_nil.
    by destruct (pm_committed ps).
Qed.

Context (Hcaller : forall f w e, (onFrame f w).1 = Some e -> isKeyMismatch e = false).

Lemma readFailed_pumped p priv resp ps datas err (s : cstate W) o r :
  readFailed ps err s = (o, r) -> pumped p priv resp ps datas [] r.
Proof.
  assert (opens_from p priv (pm_opener ps) [] []) as Ho by (unfold opens_from; by destruct (pm_opener ps)).
  assert (negb (pm_committed ps) = true -> pm_committed ps = false /\ @nil Response = []) as Hc
    by by destruct (pm_committed ps).
  unfold readFailed, failed, pumped. intros Hr. exists [], []. split_and!; [apply prefix_nil|done|done|].
  destruct (canceledBy _); cbn in Hr; [by injection Hr as _ <-|].
  destruct (pm_fired ps); cbn in Hr; by injection Hr as _ <-.
Qed.

Lemma deliver_delivered p resp start ps out (s : cstate W) e s' :
  deliver c cx onFrame p resp start ps out s = (e, s') -> delivered (st_log s') = delivered (st_log s) ++ [out].
Proof.
  unfold deliver. intros Ed%outside_log. rewrite Ed. unfold log_event. rewrite emit_log, delivered_app.
  f_equal. destruct (pm_committed ps); [done|]. unfold recordMeta, log_event, metric.
  destruct (cx_meta cx); by rewrite !delivered_emit.
Qed.

(** One event read: it failed before the caller received anything; or the caller
    received its frame, and refused it or not. *)
Lemma frameStep_spec p priv resp start ps data (s : cstate W) x s' :
  frameStep c cx onFrame p priv resp start ps data s = (x, s') ->
  (exists o retry err, x = inl (o, Failed retry err) /\ isKeyMismatch err = false /\
     (retry = true -> pm_committed ps = false) /\ delivered (st_log s') = delivered (st_log s)) \/
  exists frame fe ro ro' out ob, frame_of data frame /\ Response_E2EE frame = Ok fe /\
    match pm_opener ps with Some o => Ok o | None => streamOpener c p priv frame end = Ok ro /\
    OpenFrame ro frame = (Ok out, ro') /\
    match pm_binder ps with
    | None => ob = None
    | Some b => exists b', AddFrame b frame = Ok b' /\ ob = Some b'
    end /\
    delivered (st_log s') = delivered (st_log s) ++ [out] /\
    match x with
    | inl (_, r) => exists err, r = Failed false err /\ isKeyMismatch err = false
    | inr ps' => ps' = MkPump (Some ro') true (pm_sawFinal ps || r_Final fe) ob (S (pm_frameIdx ps))
                         (pm_reads ps) (pm_fired ps)
    end.
Proof.
  assert (negb (pm_committed ps) = true -> pm_committed ps = false) as Hc by by destruct (pm_committed ps).
  assert (forall o err s0, isKeyMismatch err = false -> delivered (st_log s0) = delivered (st_log s) ->
    (inl (o, Failed (negb (pm_committed ps)) err), s0) = (x, s') ->
    exists o retry err, x = inl (o, Failed retry err) /\ isKeyMismatch err = false /\
     (retry = true -> pm_committed ps = false) /\ delivered (st_log s') = delivered (st_log s)) as Hfail
    by (intros o err s0 He Hd [= <- <-]; eauto 10).
  unfold frameStep. destruct (unmarshal unmarshal_map data) as [m|] eqn:Em; [|intros Hx; left; eapply Hfail; [| |exact Hx]; done].
  destruct (Response_E2EE (nil_map m)) as [fe|] eqn:Ee; [|intros Hx; left; eapply Hfail; [| |exact Hx]; done].
  destruct (match pm_opener ps with Some o => Ok o | None => _ end) as [ro|] eqn:Eo;
    [|intros Hx; left; eapply Hfail; [| |exact Hx]; [done|by apply delivered_emit]].
  destruct (OpenFrame ro (nil_map m)) as [[out|e] ro'] eqn:Ef;
    [|intros Hx; left; eapply Hfail; [| |exact Hx]; [done|by apply delivered_emit]].
  destruct (match pm_binder ps with None => Ok None | Some b => _ end) as [ob|] eqn:Eb;
    [|intros Hx; left; eapply Hfail; [| |exact Hx]; done].
  destruct (deliver c cx onFrame p resp start ps out s) as [oerr s1] eqn:Ed. intros Hx. right.
  exists (nil_map m), fe, ro, ro', out, ob. split_and!; [by exists m|done|done|done| | |].
  - destruct (pm_binder ps) as [b|]; [|by injection Eb as <-].
    destruct (AddFrame b (nil_map m)) as [b'|]; [|done]. injection Eb as <-. eauto.
  - apply deliver_delivered in Ed. destruct oerr; by injection Hx as _ <-.
  - assert (forall err, oerr = Some err -> isKeyMismatch err = false) as Hm.
    { intros err ->. unfold deliver, outside in Ed.
      match type of Ed with context [onFrame out ?w] => pose proof (Hcaller out w) as Ho;
        destruct (onFrame out w) as [oe w'] end. injection Ed as -> _. by apply Ho. }
    destruct oerr; injection Hx as <- <-; [|done]. eauto.
Qed.

Lemma readStep_spec resp serr lines ps (s : cstate W) r lines' ps' s' :
  readStep resp serr lines ps s = (r, lines', ps', s') ->
  st_log s' = st_log s /\ pm_opener ps' = pm_opener ps /\ pm_committed ps' = pm_committed ps /\
  pm_sawFinal ps' = pm_sawFinal ps /\ pm_binder ps' = pm_binder ps /\ pm_frameIdx ps' = pm_frameIdx ps /\
  match r with
  | Ok d => next_event serr None lines = (Ok d, lines')
  | Err None => next_event serr None lines = (Err None, lines')
  | _ => True
  end.
Proof.
  unfold readStep. destruct (outside (event_read resp (pm_reads ps)) s) as [cut s1] eqn:E.
  apply outside_log in E. destruct cut as [err|].
  - intros [= <- <- <- <-]. by split_and!.
  - destruct (next_event serr None lines) as [r0 l0] eqn:En. intros [= <- <- <- <-].
    split_and!; try done. by destruct r0 as [|[]].
Qed.

(** The loop ends: with more fuel than lines it returns. *)
Lemma pump_returns fuel p priv resp start serr lines ps (s : cstate W) :
  (length lines < fuel)%nat -> is_Some (pump c cx onFrame fuel p priv resp start serr lines ps s).
Proof.
  revert lines ps s. induction fuel as [|fuel IH]; intros lines ps s Hf; [lia|]. cbn [pump].
  destruct (readStep resp serr lines ps s) as [[[r l'] ps'] s1] eqn:E.
  apply readStep_spec in E as (_ & _ & _ & _ & _ & _ & Hr).
  destruct r as [d|[err|]]; [|eauto..]. case_bool_decide; [eauto|].
  destruct (frameStep _ _ _ _ _ _ _ _ _ _) as [[e|ps2] s2]; [eauto|].
  apply IH. apply next_event_shorter in Hr as [_ Hr]. specialize (Hr eq_refl). lia.
Qed.

Lemma pump_pumped fuel p priv resp start serr lines ps (s : cstate W) o r s' :
  pump c cx onFrame fuel p priv resp start serr lines ps s = Some ((o, r), s') ->
  exists outs, pumped p priv resp ps (line_events serr lines) outs r /\
    delivered (st_log s') = delivered (st_log s) ++ outs.
Proof.
  revert lines ps s. induction fuel as [|fuel IH]; intros lines ps s; cbn [pump]; [done|].
  destruct (readStep resp serr lines ps s) as [[[r0 l'] ps1] s1] eqn:E.
  destruct (readStep_spec _ _ _ _ _ _ _ _ _ E) as (Hlog & Ho & Hcm & Hfin & Hb & Hidx & Hr).
  rewrite <-Hlog. unfold pumped. rewrite <-Ho, <-Hcm, <-Hfin, <-Hb.
  assert (forall e s2, streamEnd c p resp ps1 s1 = (e, s2) -> Some (e, s2) = Some ((o, r), s') ->
    exists outs, pumped p priv resp ps1 (line_events serr lines) outs r /\
      delivered (st_log s') = delivered (st_log s1) ++ outs) as Hend.
  { intros e s2 Hs [= -> ->]. exists []. rewrite app_nil_r. by eapply streamEnd_pumped. }
  destruct r0 as [data|[err|]].
  - case_bool_decide; [destruct (streamEnd c p resp ps1 s1) as [e s2] eqn:Es; by eapply Hend|].
    rewrite (line_events_next _ _ _ _ Hr).
    destruct (frameStep c cx onFrame p priv resp start ps1 data s1) as [x s2] eqn:Ef.
    apply frameStep_spec in Ef as
      [(o1 & retry & err & -> & He & Hret & Hd)|(f & fe & ro & ro' & out & ob & Hfr & Hfe & Hro & Hop & Hob & Hd & Hx)].
    + intros [= -> <- <-]. exists []. rewrite app_nil_r. split; [|done].
      exists [], []. split_and!; [apply prefix_nil|done|by destruct (pm_opener ps1)|done|auto].
    + assert (forall fs outs, (OpenFrames ro' fs).1 = Ok outs ->
        opens_from p priv (pm_opener ps1) (f :: fs) (out :: outs)) as Hopens.
      { intros fs outs Hfs. assert ((OpenFrames ro (f :: fs)).1 = Ok (out :: outs)) as Hall.
        { cbn [OpenFrames]. rewrite Hop. destruct (OpenFrames ro' fs) as [r1 ro1]. cbn in Hfs |- *. by rewrite Hfs. }
        unfold opens_from. destruct (pm_opener ps1); [by injection Hro as ->|eauto]. }
      destruct x as [[o1 r1]|ps2].
      * destruct Hx as (err & -> & He). intros [= -> <- <-]. exists [out]. split; [|done].
        exists [f], [data]. split_and!; [by apply prefix_cons, prefix_nil|by repeat constructor|by apply Hopens|done|done].
      * intros (outs & (frames & read & Hpre & Hfs & Hopen & Hres) & Hd2)%IH. subst ps2.
        cbn [pm_opener pm_committed pm_sawFinal pm_binder] in *.
        exists (out :: outs). split; [|by rewrite Hd2, Hd, <-app_assoc].
        exists (f :: frames), (data :: read). split_and!; [by apply prefix_cons|by constructor|by apply Hopens|].
        destruct r as [u|retry err]; [|destruct Hres as [He Hret]; split; [done|]; intros Ht; by apply Hret in Ht as [? _]].
        destruct Hres as [Hsaw Hbind]. split.
        -- cbn [existsb]. unfold is_final at 1. rewrite Hfe. by rewrite orb_assoc.
        -- intros b Hbb. rewrite Hbb in Hob. destruct Hob as (b1 & Hb1 & ->).
           destruct (Hbind b1 eq_refl) as (b' & Hadd & Hver). exists b'. split; [|done].
           cbn [addFrames]. rewrite Hb1. cbn [map_err mbind result_bind].
           apply addFrames_ok in Hadd as [Hadd ->]. by apply addFrames_ok.
  - intros [= Hx <-]. exists []. rewrite app_nil_r. split; [|done]. by eapply readFailed_pumped.
  - destruct (streamEnd c p resp ps1 s1) as [e s2] eqn:Es. by eapply Hend.
Qed.
End attempt.

(** ** Where the frames come from *)

(** The exchange a stream was delivered from: the response to one post, its events read
    to some point, the frames in them opened in order. *)
Record stream_exchange {W} `{World W} `{Outside W} `{Jcs} `{HpkeLib} (c : Client) (cx : CallContext)
    (env : Request) (p : Provider) (priv : PrivateKey) (frames outs : list Response) : Prop := {
  sx_response : exists (w1 w2 : W) resp read,
    http_do (MkHttpRequest (p_URL p) (requestHeader cx p) (marshal_map env)) w1 = (Ok resp, w2) /\
    hs_Status resp = StatusOK /\
    has_prefix (header_get (hs_Header resp) "Content-Type") "text/event-stream" = true /\
    read `prefix_of` (body_events resp).1 /\ Forall2 frame_of read frames;
  sx_opened : opens_from c p priv None frames outs
}.

(** It was complete: its final frame came, and what the provider's signer signed is
    exactly the request posted and the frames received. *)
Record stream_complete {W} `{World W} `{Outside W} `{Jcs} (c : Client) (env : Request) (p : Provider)
    (frames : list Response) : Prop := {
  sc_final : existsb is_final frames = true;
  sc_verified : verifyEnabled c = true -> exists (w w' : W) key sig, fetch_signature p key w = (Ok sig, w') /\
    VerifyE2EEStream sig env frames (p_SignerAddr p) (c_recover c) = Ok tt
}.

Section calls.
Context {W : Type} `{World W} `{Outside W} `{StreamReads W} `{Jcs} `{HpkeLib}.
Context (c : Client) (cx : CallContext) (onFrame : Response -> W -> option cerr * W).
Context (Hcaller : forall f w e, (onFrame f w).1 = Some e -> isKeyMismatch e = false).

Lemma body_events_lines resp lines serr :
  scanLines (hs_BodyErr resp) [] maxSSELine (hs_Body resp) = (lines, serr) ->
  line_events serr lines = (body_events resp).1.
Proof. unfold line_events, body_events. by intros ->. Qed.

(** What one attempt delivers. *)
Definition attempt_delivers (req : Request) (pub : PublicKey) (priv : PrivateKey) (p : Provider)
    (r : attempted unit) (outs : list Response) : Prop :=
  (outs = [] /\ r <> Done tt) \/
  exists rnd env frames, seal c p req priv pub rnd = Ok env /\
    stream_exchange (W := W) c cx env p priv frames outs /\
    (r = Done tt -> stream_complete (W := W) c env p frames).

Lemma streamResponse_delivers p env priv start resp (s : cstate W) o r s' :
  streamResponse c cx onFrame p env priv start resp s = ((o, r), s') ->
  exists outs, delivered (st_log s') = delivered (st_log s) ++ outs /\
    (match r with Failed retry err => retry || isKeyMismatch err = true -> outs = [] | Done _ => True end) /\
    ((outs = [] /\ r <> Done tt) \/
     hs_Status resp = StatusOK /\
     has_prefix (header_get (hs_Header resp) "Content-Type") "text/event-stream" = true /\
     exists read frames, read `prefix_of` (body_events resp).1 /\ Forall2 frame_of read frames /\
       opens_from c p priv None frames outs /\
       (r = Done tt -> stream_complete (W := W) c env p frames)).
Proof.
  unfold streamResponse. destruct (Z.eqb_spec (hs_Status resp) StatusOK) as [Hst|]; cbn [negb].
  2: { intros [= _ <- <-]. exists []. rewrite app_nil_r. split_and!; [done|done|by left]. }
  destruct (has_prefix _ _) eqn:Hct; cbn [negb].
  2: { intros [= _ <- <-]. exists []. rewrite app_nil_r. split_and!; [done|done|by left]. }
  destruct (if verifyEnabled c then _ else _) as [binder|e] eqn:Eb.
  2: { intros [= _ <- <-]. exists []. rewrite app_nil_r. split_and!; [done|done|by left]. }
  destruct (scanLines _ _ _ _) as [lines serr] eqn:Es.
  destruct (pump_returns c cx onFrame (S (length lines)) p priv resp start serr lines
    (MkPump None false false binder 0 0 false) s) as [[[o0 r0] s0] Hp]; [lia|].
  rewrite Hp. intros [= -> -> ->].
  apply pump_pumped in Hp as (outs & (frames & read & Hpre & Hfs & Hop & Hres) & Hd); [|done].
  exists outs. split; [done|]. rewrite (body_events_lines _ _ _ Es) in Hpre. split.
  - destruct r as [|retry err]; [done|]. destruct Hres as [-> Hret]. rewrite orb_false_r. intros Ht.
    by apply Hret.
  - right. split_and!; [done|done|]. exists read, frames. split_and!; [done..|]. intros ->.
    destruct Hres as [Hfin Hb]. split; [exact Hfin|]. intros Hve. rewrite Hve in Eb.
    destruct (NewStreamBinder env) as [b|] eqn:En; [|done]. injection Eb as <-.
    destruct (Hb b eq_refl) as (b' & Hadd & w & w' & sig & t & Hf & Ht & Hv).
    exists w, w', (header_get (hs_Header resp) headerResKey), sig. split; [done|].
    unfold VerifyE2EEStream, SignedTextE2EEStream. rewrite En. cbn [mbind result_bind]. rewrite Hadd.
    cbn [mbind result_bind]. by rewrite Ht.
Qed.

Lemma streamAttempt_delivers req pub priv p (s : cstate W) r s' :
  streamAttempt c cx onFrame req pub priv p s = (r, s') ->
  exists outs, delivered (st_log s') = delivered (st_log s) ++ outs /\
    attempt_delivers req pub priv p r outs /\
    match r with Failed retry err => retry || isKeyMismatch err = true -> outs = [] | Done _ => True end.
Proof.
  assert (forall (s0 : cstate W) r, delivered (st_log s0) = delivered (st_log s) -> r <> Done tt ->
    exists outs, delivered (st_log s0) = delivered (st_log s) ++ outs /\
    attempt_delivers req pub priv p r outs /\
    match r with Failed retry err => retry || isKeyMismatch err = true -> outs = [] | Done _ => True end) as Hnone.
  { intros s0 r0 Hd Hr. exists []. rewrite app_nil_r. split_and!; [done|by left|by destruct r0]. }
  unfold streamAttempt. destruct (outside random s) as [rnd s1] eqn:E. apply outside_log in E.
  destruct (seal _ _ _ _ _ _) as [env|err] eqn:Es.
  2: { intros [= <- <-]. apply Hnone; [by rewrite E|]. by destruct err. }
  unfold streamOnce. destruct (doRequest cx p env s1) as [[resp|err] s2] eqn:Ed.
  2: { intros [= <- <-]. apply Hnone; [|done]. unfold metric. rewrite delivered_emit by done.
       rewrite (delivered_grows s1); [by rewrite E|]. by eapply doRequest_grows. }
  assert (delivered (st_log s2) = delivered (st_log s)) as Hd2.
  { rewrite (delivered_grows s1); [by rewrite E|]. by eapply doRequest_grows. }
  destruct (streamResponse _ _ _ _ _ _ _ _ _) as [[o r0] s3] eqn:Er.
  apply streamResponse_delivers in Er as (outs & Hd & Hret & Hx). intros [= <- <-].
  exists outs. split_and!; [unfold metric; by rewrite delivered_emit, Hd, Hd2| |done].
  destruct Hx as [Hx|(Hst & Hct & read & frames & Hpre & Hfs & Hop & Hc)]; [by left|]. right.
  exists rnd, env, frames. split; [done|]. split; [|done]. split; [|done].
  unfold doRequest, outside in Ed.
  match type of Ed with context [http_do ?q ?w] => destruct (http_do q w) as [rr w2] eqn:Eh end.
  injection Ed as -> _. eauto 10.
Qed.
End calls.

(** What a call delivers is one exchange's. *)
Lemma CompleteStream_delivers {W} `{World W} `{Outside W} `{StreamReads W} `{Jcs} `{HpkeLib} c cx onFrame
    req (w : W) r s' :
  (forall f w e, (onFrame f w).1 = Some e -> isKeyMismatch e = false) ->
  CompleteStream c cx onFrame req w = (r, s') ->
  (delivered (st_log s') = [] /\ r <> Ok tt) \/
  exists (w0 w1 : W) cands p rnd0 priv pub rnd env frames,
    resolve (c_profile c) req w0 = (Ok cands, w1) /\ offered cands p /\
    GenerateRecipientKey rnd0 = Ok (priv, pub) /\ seal c p req priv pub rnd = Ok env /\
    stream_exchange (W := W) c cx env p priv frames (delivered (st_log s')) /\
    (r = Ok tt -> stream_complete (W := W) c env p frames).
Proof.
  intros Hcaller. unfold CompleteStream.
  destruct (outside _ _) as [[cands|err] s1] eqn:E; pose proof (outside_log _ _ _ _ E) as El; cbn in El.
  2: { intros [= <- <-]. left. by rewrite El. }
  destruct (outside random s1) as [rnd0 s2] eqn:E2; apply outside_log in E2.
  destruct (GenerateRecipientKey rnd0) as [[priv pub]|] eqn:Eg.
  2: { intros [= <- <-]. left. by rewrite E2, El. }
  intros Hw. eapply walkLoop_settled in Hw;
    [|intros p s r0 s0' _ Ha; eapply (streamAttempt_delivers c cx onFrame Hcaller); exact Ha|lia].
  unfold walk_settled in Hw. cbn [st_log] in Hw. rewrite E2, El in Hw. cbn [delivered omap app] in Hw.
  destruct Hw as [[[e ->] Hd]|(p & r0 & outs & Hoff & Hd & Hdel & Hok)]; [by left|].
  change (delivered (st_log s') = outs) in Hd. rewrite Hd. unfold outside in E.
  destruct (resolve _ _ _) as [rr w1] eqn:Er. injection E as -> _.
  destruct Hdel as [[-> Hne]|(rnd & env & frames & Hs & Hx & Hc)].
  - left. split; [done|]. intros ->. by apply Hne, Hok.
  - right. eexists w, w1, cands, p, rnd0, priv, pub, rnd, env, frames. split_and!; try done.
    intros ->. by apply Hc, Hok.
Qed.

(** C8: one provider's frames, in order, and all of them. Whatever happened on the way
    (candidates that failed, keys re-read, streams that stalled before their first
    frame), the frames the caller received are those of one response: the response to
    one post of the call's request, sealed to an offered provider, each frame opened in
    order under one context set up with the call's own key. When the call succeeds the
    stream was complete: it had its final frame and, with verification on, a signature
    of that provider's signer verified over exactly the request posted and the frames
    delivered. A stream that was begun is never begun again elsewhere. The caller's own
    errors must not pass for a broker's stale-key answer. *)
Theorem CompleteStream_sound {W} `{World W} `{Outside W} `{StreamReads W} `{Jcs} `{HpkeLib} c cx onFrame
    req (w : W) r s' :
  (forall f w e, (onFrame f w).1 = Some e -> isKeyMismatch e = false) ->
  CompleteStream c cx onFrame req w = (r, s') ->
  (delivered (st_log s') = [] /\ r <> Ok tt) \/
  exists (w0 w1 : W) cands p rnd0 priv pub rnd env frames,
    resolve (c_profile c) req w0 = (Ok cands, w1) /\ offered cands p /\
    GenerateRecipientKey rnd0 = Ok (priv, pub) /\ seal c p req priv pub rnd = Ok env /\
    stream_exchange (W := W) c cx env p priv frames (delivered (st_log s')) /\
    (r = Ok tt -> stream_complete (W := W) c env p frames).
Proof. apply CompleteStream_delivers. Qed.

(** ** What a streamed call posts *)

(** An event of a streamed call: a delivery, or what a buffered call may write too. *)
Definition sealed_event {W} `{World W} `{Outside W} `{Jcs} `{HpkeLib} (c : Client) (cx : CallContext)
    (req : Request) (e : event) : Prop :=
  match e with EvDeliver _ => True | _ => sealed_post (W := W) c cx req e end.

Section stream_logs.
Context {W : Type} `{World W} `{Outside W} `{StreamReads W} `{Jcs} `{HpkeLib}.
Context (c : Client) (cx : CallContext) (onFrame : Response -> W -> option cerr * W) (Q : event -> Prop).
(** Everything but a post. *)
Context (HQ : forall e, match e with EvPost _ _ _ => False | _ => True end -> Q e).

Lemma unposted e : match e with EvPost _ _ _ | EvDeliver _ => False | _ => True end -> Q e.
Proof. intros He. apply HQ. by destruct e. Qed.

Lemma streamEnd_grows p resp ps (s : cstate W) x s' : streamEnd c p resp ps s = (x, s') -> grows Q s s'.
Proof.
  unfold streamEnd. destruct (negb _); [intros [= _ <-]; apply grows_refl|].
  destruct (pm_binder ps) as [b|]; [|intros [= _ <-]; apply grows_refl].
  assert (forall r s1, verifyStream c p (hs_Header resp) b s = (r, s1) -> grows Q s s1) as Hv.
  { intros r s1. apply verifyStream_grows, unposted. }
  destruct (verifyStream _ _ _ _ _) as [[[vo verr]|] s1]; intros [= _ <-]; by eapply Hv.
Qed.

Lemma deliver_grows p resp start ps out (s : cstate W) r s' :
  deliver c cx onFrame p resp start ps out s = (r, s') -> grows Q s s'.
Proof.
  unfold deliver. intros Ho%outside_log. eapply grows_log; [exact Ho|]. apply grows_emit; [by apply HQ|].
  destruct (pm_committed ps); [apply grows_refl|].
  apply recordMeta_grows; [exact unposted|]. apply grows_emit; [by apply HQ|apply grows_refl].
Qed.

Lemma frameStep_grows p priv resp start ps data (s : cstate W) x s' :
  frameStep c cx onFrame p priv resp start ps data s = (x, s') -> grows Q s s'.
Proof.
  assert (grows Q s (metric c EvOpenFailure s)) as Hfail by (apply grows_emit; [by apply HQ|apply grows_refl]).
  pose proof (grows_refl Q s) as Hrefl. unfold frameStep.
  destruct (unmarshal _ _) as [m|]; [|by intros [= _ <-]].
  destruct (Response_E2EE _) as [fe|]; [|by intros [= _ <-]].
  destruct (match pm_opener ps with Some o => Ok o | None => _ end) as [ro|]; [|by intros [= _ <-]].
  destruct (OpenFrame _ _) as [[out|] ro']; [|by intros [= _ <-]].
  destruct (match pm_binder ps with None => Ok None | Some b => _ end) as [ob|]; [|by intros [= _ <-]].
  destruct (deliver _ _ _ _ _ _ _ _ _) as [[err|] s1] eqn:Ed; intros [= _ <-]; by eapply deliver_grows.
Qed.

Lemma pump_grows fuel p priv resp start serr lines ps (s : cstate W) x s' :
  pump c cx onFrame fuel p priv resp start serr lines ps s = Some (x, s') -> grows Q s s'.
Proof.
  revert lines ps s. induction fuel as [|fuel IH]; intros lines ps s; cbn [pump]; [done|].
  destruct (readStep _ _ _ _ _) as [[[r0 l'] ps1] s1] eqn:E. apply readStep_spec in E as (Hlog & _).
  pose proof (grows_log Q s s s1 Hlog (grows_refl Q s)) as Hs.
  assert (Some (streamEnd c p resp ps1 s1) = Some (x, s') -> grows Q s s') as Hend.
  { intros [= He]. eapply grows_trans; [exact Hs|by eapply streamEnd_grows]. }
  destruct r0 as [data|[err|]]; [|by intros [= _ <-]|done]. case_bool_decide; [done|].
  destruct (frameStep _ _ _ _ _ _ _ _ _ _) as [[e|ps2] s2] eqn:Ef; apply frameStep_grows in Ef;
    [intros [= _ <-]; by eapply grows_trans|].
  intros Hp%IH. eapply grows_trans; [exact Hs|]. by eapply grows_trans.
Qed.

Lemma streamResponse_grows p env priv start resp (s : cstate W) x s' :
  streamResponse c cx onFrame p env priv start resp s = (x, s') -> grows Q s s'.
Proof.
  unfold streamResponse. destruct (negb _); [intros [= _ <-]; apply on_world_grows|].
  destruct (negb _); [intros [= _ <-]; apply on_world_grows|].
  destruct (if verifyEnabled c then _ else _) as [ob|]; [|intros [= _ <-]; apply grows_refl].
  destruct (scanLines _ _ _ _) as [lines serr]. destruct (pump _ _ _ _ _ _ _ _ _ _ _ _) as [[e s1]|] eqn:Ep;
    intros [= _ <-]; [by eapply pump_grows|apply grows_refl].
Qed.

Lemma streamAttempt_grows req pub priv p (s : cstate W) r s' :
  (forall rnd env, seal c p req priv pub rnd = Ok env -> Q (EvPost p env (requestHeader cx p))) ->
  streamAttempt c cx onFrame req pub priv p s = (r, s') -> grows Q s s'.
Proof.
  intros Hp. unfold streamAttempt. destruct (outside random s) as [rnd s1] eqn:E. apply outside_log in E.
  pose proof (grows_log Q s s s1 E (grows_refl Q s)) as Hs1.
  destruct (seal _ _ _ _ _ _) as [env|] eqn:Es; [|by intros [= _ <-]]. unfold streamOnce.
  destruct (doRequest cx p env s1) as [rr s2] eqn:Ed. apply (doRequest_grows cx Q) in Ed; [|by eapply Hp].
  pose proof (grows_trans Q _ _ _ Hs1 Ed) as Hs2.
  destruct rr as [resp|err]; [|by apply report_grows; [exact unposted|]].
  destruct (streamResponse _ _ _ _ _ _ _ _ _) as [[o r0] s3] eqn:Er. apply streamResponse_grows in Er.
  apply report_grows; [exact unposted|]. by eapply grows_trans.
Qed.
End stream_logs.

Lemma CompleteStream_posts {W} `{World W} `{Outside W} `{StreamReads W} `{Jcs} `{HpkeLib} c cx onFrame
    req (w : W) r s' :
  CompleteStream c cx onFrame req w = (r, s') -> Forall (sealed_event (W := W) c cx req) (st_log s').
Proof.
  unfold CompleteStream. destruct (outside _ _) as [[cands|err] s1] eqn:E; pose proof (outside_log _ _ _ _ E) as El;
    cbn in El; [|by intros [= _ <-]; rewrite El].
  destruct (outside random s1) as [rnd s2] eqn:E2; apply outside_log in E2.
  destruct (GenerateRecipientKey rnd) as [[priv pub]|] eqn:Eg; [|by intros [= _ <-]; rewrite E2, El].
  intros (l & Hl & HF)%(walkLoop_log _ _ _ (sealed_event (W := W) c cx req)); [| |by intros []|lia].
  - rewrite Hl. cbn. by rewrite E2, El.
  - intros p s r0 s0 Hoff. apply streamAttempt_grows; [by intros []|].
    intros rnd' env Hs. split; [done|]. split; [|by exists req, priv, pub, rnd'; auto].
    unfold outside in E. destruct (resolve _ _ _) as [rr w1] eqn:Er. injection E as -> _. eauto.
Qed.

(** Whatever a call of the client posts. *)
Lemma call_posts {W} `{World W} `{Outside W} `{Jcs} `{HpkeLib} c cx req (w : W) log p env h :
  (exists r s', Complete c cx req w = (r, s') /\ log = st_log s') \/
  (exists r s', SubmitAsync c cx req w = (r, s') /\ log = st_log s') \/
  (exists (reads : StreamReads W) onFrame r s', CompleteStream c cx onFrame req w = (r, s') /\ log = st_log s') ->
  EvPost p env h ∈ log -> sealed_post (W := W) c cx req (EvPost p env h).
Proof.
  intros Hlog Hin.
  assert (Forall (sealed_event (W := W) c cx req) log) as HF.
  { destruct Hlog as [(r & s' & Hc & ->)|[(r & s' & Hc & ->)|(reads & onFrame & r & s' & Hc & ->)]].
    - eapply Forall_impl; [by eapply Complete_posts|]. by intros [].
    - eapply Forall_impl; [by eapply SubmitAsync_posts|]. by intros [].
    - by eapply CompleteStream_posts. }
  rewrite Forall_forall in HF. by apply HF in Hin.
Qed.

(** ** A broker that streams *)

(** An event with one data line, and the events of a stream up to its end mark. *)
Definition sse_event (payload : bytes) : bytes := bytes_of "data: " ++ payload ++ [newline; newline].
Definition sse_body (payloads : list bytes) : bytes :=
  concat (map sse_event payloads) ++ sse_event (bytes_of "[DONE]").

(** A line the reader takes as it is: short enough, without line breaks. *)
Definition one_line (l : bytes) : Prop :=
  Forall (fun c => visible c = true) l /\ Z.of_nat (length l) < maxSSELine - 6.

Lemma visible_not_newline c : visible c = true -> Ascii.eqb c newline = false /\ (bval c =? 13) = false.
Proof.
  revert c. apply (all_bytes_forall (fun c => visible c = true -> Ascii.eqb c newline = false /\ (bval c =? 13) = false)).
  vm_compute. reflexivity.
Qed.

Lemma scanLines_line err l acc room rest :
  Forall (fun c => visible c = true) l -> Forall (fun c => visible c = true) acc -> Z.of_nat (length l) < room ->
  scanLines err acc room (l ++ newline :: rest)
  = let '(lines, e) := scanLines err [] maxSSELine rest in ((rev acc ++ l) :: lines, e).
Proof.
  intros Hl. revert acc room. induction Hl as [|c l Hc _ IH]; intros acc room Hacc Hroom; cbn [length] in Hroom;
    cbn [app scanLines]; destruct (Z.leb_spec room 0); try lia.
  - change (Ascii.eqb newline newline) with true. cbn iota. rewrite app_nil_r.
    assert (line_of acc = rev acc) as ->; [|done]. destruct Hacc as [|c acc Hc _]; [done|].
    unfold line_of. by destruct (visible_not_newline c Hc) as [_ ->].
  - destruct (visible_not_newline c Hc) as [-> _]. rewrite IH by (first [by constructor|lia]).
    cbn [rev]. by rewrite <-app_assoc.
Qed.

Lemma scanLines_event err payload rest :
  one_line payload ->
  scanLines err [] maxSSELine (sse_event payload ++ rest)
  = let '(lines, e) := scanLines err [] maxSSELine rest in ((bytes_of "data: " ++ payload) :: [] :: lines, e).
Proof.
  intros [Hv Hlen]. unfold sse_event.
  rewrite <-!(app_assoc (bytes_of "data: ")), <-(app_assoc payload). cbn [app].
  rewrite app_assoc, scanLines_line; [|apply Forall_app; split; [by repeat constructor|done]|done|].
  - cbn [scanLines]. change (maxSSELine <=? 0) with false. cbn iota.
    change (Ascii.eqb newline newline) with true. cbn iota. by destruct (scanLines err [] maxSSELine rest).
  - rewrite length_app. cbn [length bytes_of list_ascii_of_string]. lia.
Qed.

Lemma scanLines_body err payloads :
  Forall one_line payloads ->
  scanLines err [] maxSSELine (sse_body payloads)
  = (concat (map (fun p => [bytes_of "data: " ++ p; []]) (payloads ++ [bytes_of "[DONE]"])), err).
Proof.
  assert (one_line (bytes_of "[DONE]")) as Hdone by (split; [by repeat constructor|by vm_compute]).
  unfold sse_body. induction 1 as [|p l Hp _ IH]; cbn [map concat app].
  - rewrite <-(app_nil_r (sse_event (bytes_of "[DONE]"))), scanLines_event by done. done.
  - rewrite <-(app_assoc (sse_event p)), scanLines_event by done. by rewrite IH.
Qed.

Lemma next_event_line err payload lines :
  next_event err None ((bytes_of "data: " ++ payload) :: [] :: lines) = (Ok payload, lines).
Proof. done. Qed.

(** The written form of an object, which no reader trims. *)
Lemma marshal_map_ends m : exists l, marshal_map m = "{"%char :: l ++ ["}"%char].
Proof. unfold marshal_map, json_of_map. cbn [print]. by eexists. Qed.

Lemma marshal_map_not_done m : trim_space_bytes (marshal_map m) <> bytes_of "[DONE]".
Proof. destruct (marshal_map_ends m) as [l ->]. by rewrite trim_space_ends. Qed.

Lemma marshal_map_visible m : map_ok m -> Forall (fun c => visible c = true) (marshal_map m).
Proof.
  intros Hok. apply print_visible, wf_json_of_map. intros k v Hk. destruct (Hok _ _ Hk) as [_ Hr].
  unfold raw_ok in Hr. by bool_hyps.
Qed.

Section streaming.
Context {W : Type} `{World W} `{Outside W} `{R : StreamReads W} `{Jcs} `{L : HpkeLaws}.
Context (c : Client) (cx : CallContext) (onFrame : Response -> W -> option cerr * W).
(** Nothing cuts the reading short, and the caller takes every frame. *)
Context (Hread : forall resp k w, (event_read (W := W) resp k w).1 = None).
Context (Hcaller : forall f w, (onFrame f w).1 = None).

Lemma deliver_taken p resp start ps out (s : cstate W) :
  exists s', deliver c cx onFrame p resp start ps out s = (None, s') /\
    delivered (st_log s') = delivered (st_log s) ++ [out].
Proof.
  destruct (deliver c cx onFrame p resp start ps out s) as [o s'] eqn:E.
  pose proof (deliver_delivered _ _ _ _ _ _ _ _ _ _ _ E) as Hd. exists s'. split; [|done].
  unfold deliver, outside in E. match type of E with context [onFrame out ?w] =>
    pose proof (Hcaller out w) as Ho; destruct (onFrame out w) as [oe w'] end.
  cbn in Ho. subst oe. by injection E as <- _.
Qed.

Lemma readStep_clear resp serr lines ps (s : cstate W) :
  exists ps' s', readStep resp serr lines ps s = ((next_event serr None lines).1, (next_event serr None lines).2, ps', s') /\
    st_log s' = st_log s /\ pm_opener ps' = pm_opener ps /\ pm_sawFinal ps' = pm_sawFinal ps /\
    pm_binder ps' = pm_binder ps.
Proof.
  unfold readStep, outside. pose proof (Hread resp (pm_reads ps) (st_world s)) as Hr.
  destruct (event_read resp (pm_reads ps) (st_world s)) as [cut w]. cbn in Hr. subst cut.
  destruct (next_event serr None lines) as [r l]. eauto 10.
Qed.

Lemma OpenFrames_cons ro f fs outs :
  (OpenFrames ro (f :: fs)).1 = Ok outs ->
  exists out ro' outs', OpenFrame ro f = (Ok out, ro') /\ outs = out :: outs' /\ (OpenFrames ro' fs).1 = Ok outs'.
Proof.
  cbn [OpenFrames]. destruct (OpenFrame ro f) as [[out|] ro'] eqn:E; [|done].
  destruct (OpenFrames ro' fs) as [[outs'|] ro2] eqn:E2; [|done]. cbn. intros [= <-].
  exists out, ro', outs'. by rewrite E2.
Qed.

(** Whatever is verified at the end of these frames is: the frames bind, and for the
    text of all of them the provider's signature is served, whenever it is asked for. *)
Definition end_verifies (p : Provider) (h : Header) (ob : option StreamBinder) (frames : list Response) : Prop :=
  match ob with
  | None => True
  | Some b => exists b' t, addFrames 0 b frames = Ok b' /\ Text b' = Ok t /\
      parseScheme t = Ok SchemeE2EECiphertextStream /\ forall w, serves_signature c p h w t
  end.

Lemma end_verifies_next p h ob f frames :
  end_verifies p h ob (f :: frames) ->
  exists ob', match ob with None => Ok None | Some b => b ← AddFrame b f; Ok (Some b) end = Ok ob' /\
    end_verifies p h ob' frames.
Proof.
  destruct ob as [b|]; [|by exists None]. intros (b' & t & Ha & Hrest).
  apply addFrames_ok in Ha as [Hall Hb'].
  assert (exists b1, AddFrame b f = Ok b1) as [b1 Hb1].
  { inversion Hall as [|? ? Hf _]; subst. apply is_ok_true in Hf as [x Hx]. unfold AddFrame. rewrite Hx. eauto. }
  exists (Some b1). rewrite Hb1. split; [done|]. exists b', t. split; [|done].
  assert (addFrames 0 b (f :: frames) = Ok b') as Ha by by apply addFrames_ok.
  cbn [addFrames] in Ha. rewrite Hb1 in Ha. cbn [map_err mbind result_bind] in Ha.
  apply addFrames_ok in Ha. by apply addFrames_ok.
Qed.

Lemma streamEnd_verifies p resp ps (s : cstate W) :
  pm_sawFinal ps = true -> end_verifies p (hs_Header resp) (pm_binder ps) [] ->
  exists s', streamEnd c p resp ps s = ((UpstreamOK, Done tt), s') /\ delivered (st_log s') = delivered (st_log s).
Proof.
  intros Hf He. unfold streamEnd. rewrite Hf. cbn [negb]. destruct (pm_binder ps) as [b|]; [|by exists s].
  destruct He as (b' & t & [= ->] & Ht & Hp & Hsig). unfold verifyStream, fetchSig, outside. rewrite Ht.
  destruct (Hsig (st_world s)) as (Hkey & sig & w' & Hfetch & Hby).
  rewrite (proj2 (String.eqb_neq _ _) Hkey), Hfetch. cbn [map_err]. unfold VerifyBoundText.
  rewrite (signed_by_verifies _ _ _ _ _ Hby Hp). by eexists.
Qed.

Lemma pump_opens fuel p priv resp start serr frames outs ps (s : cstate W) :
  Forall map_ok frames -> opens_from c p priv (pm_opener ps) (map (fmap compact) frames) outs ->
  end_verifies p (hs_Header resp) (pm_binder ps) (map (fmap compact) frames) -> pm_sawFinal ps || existsb is_final (map (fmap compact) frames) = true ->
  (length frames < fuel)%nat ->
  exists s', pump c cx onFrame fuel p priv resp start serr
      (concat (map (fun d => [bytes_of "data: " ++ d; []]) (map marshal_map frames ++ [bytes_of "[DONE]"]))) ps s
    = Some ((UpstreamOK, Done tt), s') /\ delivered (st_log s') = delivered (st_log s) ++ outs.
Proof.
  revert fuel outs ps s. induction frames as [|f frames IH]; intros [|fuel] outs ps s Hok Hop Hb Hfin Hf;
    cbn [length] in Hf; try lia; cbn [map concat app pump];
    match goal with |- context [readStep resp serr ?l ps s] =>
      destruct (readStep_clear resp serr l ps s) as (ps' & s1 & -> & Hl & Ho & Hs & Hbb) end;
    rewrite next_event_line; cbn [fst snd].
  - rewrite bool_decide_eq_true_2 by by vm_compute.
    cbn [map existsb] in Hfin, Hb. rewrite orb_false_r in Hfin.
    destruct (streamEnd_verifies p resp ps' s1) as (s' & Hend & Hd); [by rewrite Hs|by rewrite Hbb|].
    exists s'. rewrite Hend. split; [done|]. rewrite Hd, Hl. assert (outs = []) as ->; [|by rewrite app_nil_r].
    unfold opens_from in Hop. cbn in Hop. destruct (pm_opener ps); [by injection Hop|done].
  - rewrite bool_decide_eq_false_2 by apply marshal_map_not_done.
    inversion Hok as [|? ? Hfo Hoks]; subst. unfold frameStep at 1.
    rewrite unmarshal_marshal_map by done. cbn [nil_map map] in *. rewrite Ho.
    assert (exists ro, match pm_opener ps with Some o => Ok o | None => streamOpener c p priv (compact <$> f) end = Ok ro /\
      (OpenFrames ro ((compact <$> f) :: map (fmap compact) frames)).1 = Ok outs) as (ro & Hro & Hall).
    { unfold opens_from in Hop. destruct (pm_opener ps) as [o|]; [eauto|]. destruct Hop as (ro & H1' & H2'). eauto. }
    destruct (OpenFrames_cons _ _ _ _ Hall) as (out & ro' & outs' & Hof & -> & Hrest).
    destruct (OpenFrame_ok _ _ _ _ Hof) as (e & ct & aad & pt & obj & Hck & _).
    destruct (checkFrame_ok _ _ _ _ _ Hck) as (_ & _ & He & _).
    destruct (end_verifies_next _ _ _ _ _ Hb) as (ob' & Hob & Hb').
    rewrite He, Hro, Hof, Hbb, Hob.
    destruct (deliver_taken p resp start ps' out s1) as (s2 & -> & Hd).
    match goal with |- context [pump _ _ _ fuel _ _ _ _ _ _ ?ps2 s2] =>
      destruct (IH fuel outs' ps2 s2 Hoks) as (s' & Hp & Hd') end.
    { exact Hrest. } { exact Hb'. }
    { cbn [pm_sawFinal]. rewrite Hs. cbn [existsb] in Hfin. unfold is_final in Hfin at 1. rewrite He in Hfin.
      by rewrite <-orb_assoc. }
    { lia. }
    exists s'. split; [exact Hp|]. rewrite Hd', Hd, Hl, <-app_assoc. done.
Qed.

(** The wire forms of sealed frames: well-formed, with their final flags. *)
Lemma SealFrames_wire rs frames outs rs' :
  sealer_ok rs -> Forall (fun f => map_ok f.1.1) frames -> SealFrames rs frames = Ok (outs, rs') ->
  Forall map_ok outs /\ map is_final (map (fmap compact) outs) = map snd frames.
Proof.
  intros Hok Hf. revert rs outs Hok. induction Hf as [|[[frame sf] final] l Hfr _ IH]; intros rs outs Hok Hs;
    cbn [SealFrames] in Hs; inv_ok; simplify_eq; [done|].
  destruct x as [out rs1]. inv_ok. destruct x as [outs1 rs2]. inv_ok. simplify_eq.
  match goal with H : SealFrame _ _ _ _ = _ |- _ =>
    destruct (SealFrame_sealer_ok _ _ _ _ _ _ Hok H) as (Hok1 & _ & _);
    destruct (SealFrame_sealing _ _ _ _ _ _ H) as [sealed Hfs] end.
  destruct Hok as (_ & _ & Hu & Hen).
  destruct (frame_sealing_wire _ _ _ _ _ _ Hfs Hfr Hu Hen) as (Ho & _ & e & aad & ct & sl & _ & He & -> & _).
  match goal with H : SealFrames rs1 l = _ |- _ => destruct (IH _ _ Hok1 H) as [H1' H2'] end.
  split; [by constructor|]. cbn [map snd]. rewrite H2'. unfold is_final. by rewrite He.
Qed.
End streaming.

(** What the protocol has an enclave do for a streamed request: the frames it sends. *)
Definition enclave_stream `{Jcs} `{HpkeLib} (profile : Profile) (sk : PrivateKey)
    (serve : Request -> list (Response * option (list string) * bool)) (unbound : list string) (rnd body : bytes)
    : wresult (list Response) :=
  m ← map_err ENotObject (unmarshal unmarshal_map body);
  opened ← OpenRequestFor profile sk (nil_map m);
  '(bind, forward) ← TakeResponseBind profile opened;
  e ← Request_E2EE (nil_map m);
  eph ← of_option (unb64 (e_ClientEphPub e)) EBadEnc;
  rs ← match bind with
       | Some b => NewBoundResponseSealerFor profile eph b unbound rnd
       | None => NewResponseSealerFor profile eph unbound rnd
       end;
  '(outs, _) ← SealFrames rs (serve forward);
  Ok outs.

(** The client's opener of such a stream, and what it opens. *)
Lemma streamed_opens `{Jcs} `{HpkeLaws} c p priv pub rs psk u rnd frames outs rs' :
  keypair priv pub -> Forall (fun s => utf8_str s = true) u -> Forall (fun f => map_ok f.1.1) frames ->
  (if bindsResponse c p then exists b, psk = Some b /\ DeriveResponseBind priv = Ok b else psk = None) ->
  newResponseSealer (c_profile c) pub psk u rnd = Ok rs -> SealFrames rs frames = Ok (outs, rs') ->
  opens_from c p priv None (map (fmap compact) outs) (map (fun f => compact <$> f.1.1) frames) /\
  Forall map_ok outs /\ map is_final (map (fmap compact) outs) = map snd frames.
Proof.
  intros Hkey Hu Hok Hpsk Hn Hs.
  destruct (newResponseSealer_ok _ _ _ _ _ _ Hn) as (s & enc & _ & _ & Hrs & Hub & _).
  assert (sealer_ok rs /\ rs_profile rs = c_profile c) as [Hrok Hp]
    by (rewrite Hrs; unfold sealer_ok; split_and!; [done|done|done|apply b64_safe_utf8|done]).
  split; [|by eapply SealFrames_wire].
  pose proof Hs as Hs0. destruct frames as [|[[frame sf] final] l]; [by injection Hs0 as <- _|].
  cbn [SealFrames] in Hs. inv_ok. destruct x as [out rs1]. inv_ok. destruct x as [outs1 rs2]. inv_ok. simplify_eq.
  inversion Hok as [|? ? Hfr _]; subst.
  edestruct newResponseOpener_first as (o & Ho & Hpair); [eassumption..|].
  edestruct OpenFrames_sealed as (o' & Ho' & _); [exact Hrok|exact Hpair|exact Hok|exact Hs0|].
  unfold opens_from. cbn [map]. exists (MkResponseOpener o (c_profile c)). split.
  - unfold streamOpener, NewBoundResponseOpenerFor, NewResponseOpenerFor. destruct (bindsResponse c p).
    + destruct Hpsk as (b & -> & ->). exact Ho.
    + by subst psk.
  - rewrite Hp in Ho'. cbn [map] in Ho'. by rewrite Ho'.
Qed.

(** The text a broker signs of a post and the frames of its answer, as it reads them. *)
Definition signed_stream `{Jcs} (posted : bytes) (answer : list bytes) (text : string) : Prop :=
  exists q fs, unmarshal unmarshal_map posted = Ok q /\ Forall2 frame_of answer fs /\
    SignedTextE2EEStream (nil_map q) fs = Ok text.

(** The binder of a signed stream: it starts at the request, and its end verifies. *)
Lemma signed_stream_binds {W} `{World W} `{Outside W} `{Jcs} c p h env e outs text :
  map_ok env -> Forall map_ok outs -> env !! e2eeKey = Some (json_of_E2EE e) ->
  Forall (fun s => utf8_str s = true) (e_UnboundFields e) ->
  signed_stream (marshal_map env) (map marshal_map outs) text ->
  (forall w : W, serves_signature c p h w text) ->
  exists b, NewStreamBinder env = Ok b /\ end_verifies (W := W) c p h (Some b) (map (fmap compact) outs).
Proof.
  intros Hoke Houts He Hu (q & fs & Hq & Hfs & Ht) Hsig.
  rewrite unmarshal_marshal_map in Hq by done. simplify_eq. cbn [nil_map] in Ht.
  assert (fs = map (fmap compact) outs) as ->.
  { clear -Hfs Houts. revert fs Hfs. induction Houts as [|o outs Ho _ IH]; intros fs Hfs; cbn [map] in Hfs;
      inversion Hfs as [|? ? ? ? (m & Hm & ->) Hrest]; subst; [done|].
    rewrite unmarshal_marshal_map in Hm by done. simplify_eq. cbn [map nil_map]. f_equal. by apply IH. }
  pose proof (scheme_of_stream_text _ _ _ Ht) as Hscheme.
  apply SignedTextE2EEStream_ok in Ht as (hq & Hhq & Hall & ->).
  rewrite (FrameBindingHash_wire _ _ Hu He) in Hhq. unfold NewStreamBinder. rewrite Hhq. cbn [map_err mbind result_bind].
  eexists. split; [done|]. eexists _, _. split; [by apply addFrames_ok|]. by split.
Qed.

(** What such an enclave sends back to a request the client sealed: well-formed frames
    that the client's opener opens to the frames served, the last of them final. *)
Lemma enclave_stream_sent `{Jcs} `{HpkeLaws} c serve req pub priv p sk u rnd rnd' env outs :
  keypair sk (p_EncPubKey p) -> keypair priv pub -> map_ok req -> req !! fieldBind = None ->
  Forall (fun s => utf8_str s = true) (c_unboundFields c) -> Forall (fun s => utf8_str s = true) u ->
  (forall fwd, Forall (fun f => map_ok f.1.1) (serve fwd) /\ existsb snd (serve fwd) = true) ->
  seal c p req priv pub rnd = Ok env ->
  enclave_stream (c_profile c) sk serve u rnd' (marshal_map env) = Ok outs ->
  map_ok env /\ Forall map_ok outs /\ existsb is_final (map (fmap compact) outs) = true /\
  exists prepared, withStreamUsage (c_profile c) (withModel req (p_Model p)) = Some prepared /\
    opens_from c p priv None (map (fmap compact) outs) (map (fun f => compact <$> f.1.1) (serve (compact <$> prepared))).
Proof.
  intros Hsk Hpriv Hok Hnb Huc Hu Hserve Hseal Henc.
  destruct (request_received _ _ _ _ _ _ _ _ Hsk Hok Hnb Huc Hseal)
    as (Hoke & req1 & opened & e & Hprep & Hopened & He & Heph & Htake).
  unfold enclave_stream in Henc.
  rewrite unmarshal_marshal_map in Henc by done. cbn [map_err mbind result_bind nil_map] in Henc.
  rewrite Hopened in Henc. cbn [mbind result_bind] in Henc.
  destruct (TakeResponseBind (c_profile c) opened) as [[bind fwd]|] eqn:Et; [|done].
  destruct (Htake _ _ eq_refl) as [-> Hbind]. cbn [mbind result_bind] in Henc.
  rewrite He in Henc. cbn [mbind result_bind] in Henc. rewrite Heph in Henc. cbn [of_option mbind result_bind] in Henc.
  destruct (Hserve (compact <$> req1)) as [Hfr Hfin].
  assert (opens_from c p priv None (map (fmap compact) outs)
      (map (fun f => compact <$> f.1.1) (serve (compact <$> req1))) /\
    Forall map_ok outs /\ map is_final (map (fmap compact) outs) = map snd (serve (compact <$> req1)))
    as (Hopens & Houts & Hfinal).
  { inv_ok. destruct x0 as [outs1 rs']. inv_ok. subst outs1.
    match goal with H : SealFrames ?r _ = _ |- _ => rename H into Hsf; rename r into rs end.
    destruct bind as [b|]; match goal with H : _ = Ok rs |- _ => rename H into Hn end;
      unfold NewBoundResponseSealerFor, NewResponseSealerFor in Hn; inv_ok;
      by eapply streamed_opens. }
  assert (existsb is_final (map (fmap compact) outs) = true) as Hex.
  { rewrite <-Hfin. clear -Hfinal. revert Hfinal.
    generalize (serve (compact <$> req1)), (map (fmap compact) outs : list Response). intros l l'.
    revert l. induction l' as [|x l' IH]; intros [|y l]; cbn; try done. intros [= -> Hm]. by rewrite (IH _ Hm). }
  split_and!; [done..|]. by exists req1.
Qed.

(** C9: a broker that streams by the protocol is understood. If the response to the post
    of a sealed request is the event stream of what the enclave holding the provider's
    key seals frame by frame, the last marked final and none longer than the reader
    takes, and when the client verifies responses the broker serves, whenever it is
    asked, under the response's chat key its signer's signature of the text of the post
    and the frames as it reads them, then the attempt succeeds and the caller receives
    exactly the frames served, in order. Nothing cuts the reading short here and the
    caller takes every frame. *)
Theorem stream_answers {W} `{World W} `{Outside W} `{StreamReads W} `{Jcs} `{HpkeLaws} c cx
    (onFrame : Response -> W -> option cerr * W) serve req pub priv p sk u rnd' (s : cstate W) env outs h w' :
  (forall resp k w, (event_read (W := W) resp k w).1 = None) -> (forall f w, (onFrame f w).1 = None) ->
  keypair sk (p_EncPubKey p) -> keypair priv pub -> map_ok req -> req !! fieldBind = None ->
  Forall (fun s => utf8_str s = true) (c_unboundFields c) -> Forall (fun s => utf8_str s = true) u ->
  (forall fwd, Forall (fun f => map_ok f.1.1) (serve fwd) /\ existsb snd (serve fwd) = true) ->
  seal c p req priv pub (random (st_world s)).1 = Ok env ->
  enclave_stream (c_profile c) sk serve u rnd' (marshal_map env) = Ok outs ->
  Forall (fun f => Z.of_nat (length (marshal_map f)) < maxSSELine - 6) outs ->
  has_prefix (header_get h "Content-Type") "text/event-stream" = true ->
  http_do (MkHttpRequest (p_URL p) (requestHeader cx p) (marshal_map env)) (random (st_world s)).2
    = (Ok (MkHttpResponse StatusOK h (sse_body (map marshal_map outs)) None), w') ->
  (verifyEnabled c = true -> exists text, signed_stream (marshal_map env) (map marshal_map outs) text /\
     forall w : W, serves_signature c p h w text) ->
  exists prepared s', withStreamUsage (c_profile c) (withModel req (p_Model p)) = Some prepared /\
    streamAttempt c cx onFrame req pub priv p s = (Done tt, s') /\
    delivered (st_log s') = delivered (st_log s) ++ map (fun f => compact <$> f.1.1) (serve (compact <$> prepared)).
Proof.
  intros Hread Hcaller Hsk Hpriv Hok Hnb Huc Hu Hserve Hseal Henc Hlen Hct Hdo Hve.
  destruct (seal_block _ _ _ _ _ _ _ Hok Huc Hseal) as (eb & Hblk & Hub).
  destruct (enclave_stream_sent _ _ _ _ _ _ _ _ _ _ _ _ Hsk Hpriv Hok Hnb Huc Hu Hserve Hseal Henc)
    as (Hoke & Houts & Hex & req1 & Hprep & Hopens).
  exists req1.
  unfold streamAttempt, outside at 1. destruct (random (st_world s)) as [rnd w] eqn:Er. cbn [fst snd] in Hseal, Hdo.
  rewrite Hseal. unfold streamOnce, doRequest, outside. cbn [st_world log_event emit]. rewrite Hdo.
  cbn [st_walk st_fail st_log]. unfold streamResponse. cbn [hs_Status hs_Header hs_BodyErr hs_Body].
  change (negb (StatusOK =? StatusOK)) with false. cbn iota. rewrite Hct. cbn [negb].
  assert (exists ob, (if verifyEnabled c then b ← NewStreamBinder env; Ok (Some b) else Ok None) = Ok ob /\
    end_verifies (W := W) c p h ob (map (fmap compact) outs)) as (ob & -> & Hverifies).
  { destruct (verifyEnabled c); [|by exists None]. destruct (Hve eq_refl) as (text & Hsig & Hserves).
    destruct (signed_stream_binds c p h env eb outs text) as (b & Hb & Hend); [done..|].
    rewrite Hb. by exists (Some b). }
  rewrite scanLines_body.
  2: { rewrite Forall_map. apply Forall_forall. intros f Hf. rewrite Forall_forall in Hlen, Houts.
       split; [by apply marshal_map_visible, Houts|by apply Hlen]. }
  match goal with |- context [pump _ _ _ (S (length ?l)) _ _ ?resp ?start _ _ ?ps ?s0] =>
    destruct (pump_opens c cx onFrame Hread Hcaller (S (length l)) p priv resp start None outs _ ps s0 Houts Hopens
      Hverifies Hex) as (s' & Hp & Hd) end.
  { rewrite map_app, concat_app, length_app.
    assert (forall l : list bytes, (length l <= length (concat (map (fun d => [bytes_of "data: " ++ d; []]) l)))%nat) as Hl.
    { intros l. induction l as [|x l IHl]; cbn [map concat length app]; lia. }
    specialize (Hl (map marshal_map outs)). rewrite length_map in Hl. lia. }
  cbn [bytes_of list_ascii_of_string] in Hp |- *. rewrite Hp. unfold report.
  eexists. split; [done|]. split; [reflexivity|]. unfold metric. rewrite delivered_emit by done.
  rewrite Hd. cbn [st_log]. by rewrite delivered_app, app_nil_r.
Qed.

(** C10: reading a stream ends. Whatever the body, however it is cut, the loop of an
    attempt returns within one more iteration than the body has lines, and it has no
    more lines than bytes and one: a provider cannot keep a client in it, and the bound
    the model puts on the loop is never reached. *)
Theorem stream_ends {W} `{World W} `{Outside W} `{StreamReads W} `{Jcs} `{HpkeLib} c cx onFrame p priv
    (resp : HttpResponse cerr) start ps (s : cstate W) lines serr :
  scanLines (hs_BodyErr resp) [] maxSSELine (hs_Body resp) = (lines, serr) ->
  (length lines <= S (length (hs_Body resp)))%nat /\
  exists r s', pump c cx onFrame (S (length lines)) p priv resp start serr lines ps s = Some (r, s').
Proof.
  intros Hs. split.
  - assert (forall err acc room l, (length (scanLines err acc room l).1 <= S (length l))%nat) as Hl.
    { intros err acc room l. revert acc room. induction l as [|ch l IH]; intros acc room; cbn [scanLines];
        destruct (room <=? 0); cbn; try lia; [destruct acc; cbn; lia|].
      destruct (Ascii.eqb ch newline); [|eapply Nat.le_trans; [apply IH|lia]].
      specialize (IH [] maxSSELine). destruct (scanLines err [] maxSSELine l). cbn in *. lia. }
    specialize (Hl (hs_BodyErr resp) [] maxSSELine (hs_Body resp)). by rewrite Hs in Hl.
  - destruct (pump_returns c cx onFrame (S (length lines)) p priv resp start serr lines ps s) as [[r s'] Hp]; [lia|].
    eauto.
Qed.

(** ** Witnesses: a chat answered in two frames by the enclave of [EnvelopeWitness] *)

Module StreamWitness.
Import EnvelopeWitness ResponseWitness RespBindWitness ClientWitness.

Definition request : Request := <["stream" := JBool true]> (chat "hi").
Definition serve_frames (_ : Request) : list (Response * option (list string) * bool) :=
  [(answer, None, false); (answer, None, true)].
Definition stream_header : Header := header_set "Content-Type" "text/event-stream" ∅.
Definition stream_reply (body : bytes) : cresult (HttpResponse cerr) :=
  match enclave_stream ProfileChat key serve_frames ["model"] seed body with
  | Ok outs => Ok (MkHttpResponse StatusOK stream_header (sse_body (map marshal_map outs)) None)
  | Err _ => Err (EExt "connection refused" false)
  end.
#[export] Instance streaming : Outside Z := {|
  http_do q w := (stream_reply (hq_Body q), w + Second);
  body_read _ w := w;
  random w := (seed, w);
  fetch_signature _ _ w := (Err (EExt "no signatures" false), w);
  resolve _ _ w := (Ok (staticCandidates prov), w)
|}.
#[export] Instance reads : StreamReads Z := fun _ _ w => (None, w + Second).
Definition take_frame (_ : Response) (w : Z) : option cerr * Z := (None, w).

Definition run_stream : cresult unit * cstate Z := CompleteStream client ctx take_frame request 0.
Lemma run_ok : run_stream.1 = Ok tt.
Proof. vm_cast_no_check (@eq_refl (cresult unit) (Ok tt)). Qed.
Lemma run_delivered : delivered (st_log run_stream.2) = [compact <$> answer; compact <$> answer].
Proof. vm_cast_no_check (eq_refl [compact <$> answer; compact <$> answer]). Qed.

Lemma request_ok : map_ok request.
Proof. refine (bool_decide_eq_true_1 _ _). vm_compute. reflexivity. Qed.
Lemma served_ok (fwd : Request) :
  Forall (fun f => map_ok f.1.1) (serve_frames fwd) /\ existsb snd (serve_frames fwd) = true.
Proof. split; [|done]. apply Forall_cons. split; [apply answer_ok|]. apply Forall_cons. split; [apply answer_ok|done]. Qed.
Definition broken : HttpResponse cerr :=
  MkHttpResponse StatusOK stream_header (bytes_of "data: x") (Some (EExt "connection reset" false)).
End StreamWitness.

(** The same stream with responses verified, to the verifying client of
    [VerifiedWitness]. *)
Module VerifiedStream.
Import EnvelopeWitness ProofWitness ResponseWitness RespBindWitness ClientWitness StreamWitness VerifiedWitness.

Definition header : Header := header_set headerResKey "chat-1" stream_header.
Definition posted : Request := ok_or ∅ (seal client prov request seed seed seed).
Lemma stream_post_sealed : seal client prov request seed seed seed = Ok posted.
Proof. vm_cast_no_check (eq_refl (seal client prov request seed seed seed)). Qed.
Definition answered : wresult (list Response) :=
  enclave_stream ProfileChat key serve_frames ["model"] seed (marshal_map posted).
Definition frames : list Response := ok_or [] answered.
Lemma frames_sent : answered = Ok frames.
Proof. vm_cast_no_check (eq_refl answered). Qed.
Lemma frames_short : Forall (fun f => Z.of_nat (length (marshal_map f)) < maxSSELine - 6) frames.
Proof. refine (bool_decide_eq_true_1 _ _). vm_cast_no_check (@eq_refl bool true). Qed.

Definition frames_read : list Response := map (fun f => read_back (marshal_map f)) frames.
Definition text : string := text_of (SignedTextE2EEStream (read_back (marshal_map posted)) frames_read).
Lemma frames_read_back :
  Forall (fun f => unmarshal unmarshal_map (marshal_map f) = Ok (ok_or None (unmarshal unmarshal_map (marshal_map f))))
    frames.
Proof.
  assert (forallb (fun f => is_ok (unmarshal unmarshal_map (marshal_map f))) frames = true) as Hf
    by (vm_cast_no_check (@eq_refl bool true)).
  rewrite forallb_forall in Hf. apply Forall_forall. intros f Hin%list_elem_of_In%Hf%is_ok_true.
  destruct Hin as [m Hm]. by rewrite Hm.
Qed.
Lemma stream_text_signed : signed_stream (marshal_map posted) (map marshal_map frames) text.
Proof.
  exists (ok_or None (unmarshal unmarshal_map (marshal_map posted))), frames_read. split_and!.
  - vm_cast_no_check (eq_refl (unmarshal unmarshal_map (marshal_map posted))).
  - unfold frames_read. generalize frames_read_back. generalize frames. intros l Hl.
    induction Hl as [|f l Hf _ IH]; cbn [map]; constructor; [|done]. eexists. split; [exact Hf|done].
  - vm_cast_no_check (eq_refl (SignedTextE2EEStream (read_back (marshal_map posted)) frames_read)).
Qed.

#[export] Instance signing : Outside Z := {|
  http_do q w := (Ok (MkHttpResponse StatusOK header (sse_body (map marshal_map frames)) None), w + Second);
  body_read _ w := w;
  random w := (seed, w);
  fetch_signature _ _ w := (Ok (chat_signature text), w);
  resolve _ _ w := (Ok (staticCandidates prov), w)
|}.
End VerifiedStream.

Section witnesses.
Import EnvelopeWitness ResponseWitness RespBindWitness ClientWitness StreamWitness.

Lemma CompleteStream_sound_witness :
  exists p priv env frames, stream_exchange (W := Z) client ctx env p priv frames
    [compact <$> answer; compact <$> answer] /\ stream_complete (W := Z) client env p frames.
Proof.
  destruct (CompleteStream_sound client ctx take_frame request 0 run_stream.1 run_stream.2) as
    [[_ Hr]|(w0 & w1 & cands & p & rnd0 & priv & pub & rnd & env & frames & _ & _ & _ & _ & Hx & Hc)].
  - intros f w e. discriminate.
  - apply surjective_pairing.
  - destruct (Hr run_ok).
  - rewrite run_delivered in Hx.
    exact (ex_intro _ p (ex_intro _ priv (ex_intro _ env (ex_intro _ frames (conj Hx (Hc run_ok)))))).
Defined.

Lemma stream_answers_witness :
  verifyEnabled VerifiedWitness.client = true /\
  exists prepared s', withStreamUsage ProfileChat request = Some prepared /\
    streamAttempt (H0 := VerifiedStream.signing) VerifiedWitness.client ctx take_frame request seed seed
      VerifiedWitness.prov idle = (Done tt, s') /\
    delivered (st_log s') = [] ++ map (fun f => compact <$> f.1.1) (serve_frames (compact <$> prepared)).
Proof.
  split; [reflexivity|].
  refine (stream_answers (H0 := VerifiedStream.signing) VerifiedWitness.client ctx take_frame serve_frames request
    seed seed VerifiedWitness.prov key ["model"] seed idle VerifiedStream.posted VerifiedStream.frames
    VerifiedStream.header Second (fun _ _ _ => eq_refl) (fun _ _ => eq_refl) keypair_key keypair_seed request_ok
    eq_refl model_utf8 model_utf8 served_ok VerifiedStream.stream_post_sealed VerifiedStream.frames_sent
    VerifiedStream.frames_short _ _ _).
  - vm_compute. reflexivity.
  - reflexivity.
  - intros _. exists VerifiedStream.text. split; [exact VerifiedStream.stream_text_signed|]. intros w. split.
    + vm_compute. discriminate.
    + exact (ex_intro _ _ (ex_intro _ _ (conj eq_refl (VerifiedWitness.toy_signs VerifiedStream.text)))).
Defined.

Lemma stream_ends_witness :
  (1 <= S (length (hs_Body broken)))%nat /\
  exists r s', pump client ctx take_frame 2 prov seed broken 0 (Some (EExt "connection reset" false))
    [bytes_of "data: x"] (MkPump None false false None 0 0 false) idle = Some (r, s').
Proof.
  refine (stream_ends client ctx take_frame prov seed broken 0 _ idle [bytes_of "data: x"]
    (Some (EExt "connection reset" false)) _).
  vm_compute. reflexivity.
Defined.
End witnesses.
