(* ===== verification/RateLimit.v ===== *)
(** * RateLimit: the route package's bounded state ([client/route]: ratelimit.go,
    quotecache.go, respbind.go and the key cache of route.go)

    [rateLimiter] bounds how often a recovery may run per key, [retryGate] switches
    preview retries off while the router gives no answers, [ttlCache] is the shape of
    the quote and key caches, [respBindStore] remembers which providers advertised the
    response binding. Every method runs under its own mutex, so a concurrent history is
    a sequence of these operations; the clock is an argument of each.

    The theorems: the limiter, which forgets expired keys only when it is full, answers
    as a specification that keeps live stamps and nothing else; the maps stay bounded
    whatever keys the router invents; a closed gate is explained by the failures that
    closed it; a cached entry is one that was stored, for no longer than its time; the
    store says what the last observation of a provider said. *)

From S2P Require Import Prelude GoBytes GoDecode RespBind Walk.

(** ** Maps whose entries expire ([sweepExpired]) *)

(** What of a map is live: its deadline is still ahead. *)
Definition sweepExpired {V} (m : gmap string V) (now : Z) (deadline : V -> Z) : gmap string V :=
  filter (fun kv => now < deadline kv.2) m.

(** ** The limiter *)

Definition maxLimiterKeys : nat := 4096.

(** [rateLimiter]: the time each key is next allowed. *)
Abbreviation rateLimiter := (gmap string Z).

Definition rl_allow (l : rateLimiter) (now : Z) (key : string) (window : Z) : bool * rateLimiter :=
  match l !! key with
  | Some next => if now <? next then (false, l) else (true, <[key := now + window]> l)
  | None =>
      if Nat.leb maxLimiterKeys (size l)
      then let l := sweepExpired l now (fun next => next) in
           if Nat.leb maxLimiterKeys (size l) then (false, l) else (true, <[key := now + window]> l)
      else (true, <[key := now + window]> l)
  end.

Definition rl_reschedule (l : rateLimiter) (now : Z) (key : string) (d : Z) : rateLimiter :=
  match l !! key with
  | None => if Nat.leb maxLimiterKeys (size l) then l else <[key := now + d]> l
  | Some next => if now + d <? next then <[key := now + d]> l else l
  end.

Inductive limiter_op :=
| OpAllow (key : string) (window : Z)
| OpReschedule (key : string) (d : Z).

Definition limiter_step (l : rateLimiter) (now : Z) (op : limiter_op) : bool * rateLimiter :=
  match op with
  | OpAllow key window => rl_allow l now key window
  | OpReschedule key d => (true, rl_reschedule l now key d)
  end.

(** Operations at their times, with the answers. *)
Fixpoint limiter_run (l : rateLimiter) (ops : list (Z * limiter_op)) : list bool * rateLimiter :=
  match ops with
  | [] => ([], l)
  | (now, op) :: ops =>
      let '(b, l) := limiter_step l now op in
      let '(bs, l) := limiter_run l ops in
      (b :: bs, l)
  end.

(** *** What the limiter promises: stamps that are live, and nothing else *)

Definition spec_step (s : rateLimiter) (now : Z) (op : limiter_op) : bool * rateLimiter :=
  let s := sweepExpired s now (fun next => next) in
  match op with
  | OpAllow key window =>
      if has_key s key || Nat.leb maxLimiterKeys (size s) then (false, s)
      else (true, <[key := now + window]> s)
  | OpReschedule key d =>
      match s !! key with
      | Some next => (true, if now + d <? next then <[key := now + d]> s else s)
      | None => (true, s)
      end
  end.

Fixpoint spec_run (s : rateLimiter) (ops : list (Z * limiter_op)) : list bool * rateLimiter :=
  match ops with
  | [] => ([], s)
  | (now, op) :: ops =>
      let '(b, s) := spec_step s now op in
      let '(bs, s) := spec_run s ops in
      (b :: bs, s)
  end.

(** The clock does not go back, and a wait is only shortened while it runs, as both
    callers do. *)
Fixpoint well_timed (s : rateLimiter) (t : Z) (ops : list (Z * limiter_op)) : Prop :=
  match ops with
  | [] => True
  | (now, op) :: ops =>
      t <= now /\
      match op with
      | OpReschedule key _ => exists next, s !! key = Some next /\ now < next
      | OpAllow _ _ => True
      end /\
      well_timed (spec_step s now op).2 now ops
  end.

(** ** The retry gate *)

Definition previewRetryTripAfter : Z := 5.
Definition previewRetryCooldown : Z := 10 * Second.

(** [openUntil] is [None] for the zero time. *)
Record retryGate := MkGate { rg_consecutive : Z; rg_openUntil : option Z }.

Definition rg_allow (g : retryGate) (now : Z) : bool :=
  match rg_openUntil g with Some t => negb (now <? t) | None => true end.

Definition rg_noAnswer (g : retryGate) (now : Z) : retryGate :=
  let consecutive := rg_consecutive g + 1 in
  if previewRetryTripAfter <=? consecutive then MkGate 0 (Some (now + previewRetryCooldown))
  else MkGate consecutive (rg_openUntil g).

Definition rg_answered (g : retryGate) : retryGate := MkGate 0 None.

(** What the gate records: a call without an answer, at its time, or one with. *)
Inductive gate_event := NoAnswer (now : Z) | Answered.

Definition gate_step (g : retryGate) (e : gate_event) : retryGate :=
  match e with NoAnswer now => rg_noAnswer g now | Answered => rg_answered g end.

Definition gate_run (es : list gate_event) : retryGate := fold_left gate_step es (MkGate 0 None).

(** ** Caches with a lifetime ([quoteCache], [pubkeyCache]) *)

Section cache.
Context {V : Type}.

Record ttlCache := MkCache { tc_ttl : Z; tc_m : gmap string (V * Z) }.

Definition newCache (ttl : Z) : ttlCache := MkCache ttl ∅.

Definition cache_get (c : ttlCache) (now : Z) (key : string) : option V :=
  if tc_ttl c <=? 0 then None
  else match tc_m c !! key with
       | Some (v, exp) => if exp <? now then None else Some v
       | None => None
       end.

Definition cache_put (c : ttlCache) (now : Z) (key : string) (v : V) : ttlCache :=
  if tc_ttl c <=? 0 then c else MkCache (tc_ttl c) (<[key := (v, now + tc_ttl c)]> (tc_m c)).

Definition cache_del (c : ttlCache) (key : string) : ttlCache :=
  MkCache (tc_ttl c) (delete key (tc_m c)).

Inductive cache_op := CPut (now : Z) (key : string) (v : V) | CDel (key : string).

Definition cache_step (c : ttlCache) (op : cache_op) : ttlCache :=
  match op with CPut now key v => cache_put c now key v | CDel key => cache_del c key end.
End cache.
Arguments ttlCache V : clear implicits.
Arguments cache_op V : clear implicits.

(** ** Who supports the response binding ([respBindStore]) *)

Record respBindStore := MkBindStore { rb_max : nat; rb_on : gset string }.
Definition newRespBindStore (max : nat) : respBindStore := MkBindStore max ∅.

Definition rb_observe (s : respBindStore) (addr : string) (advertised : bool) : respBindStore :=
  let key := to_lower addr in
  if negb advertised then MkBindStore (rb_max s) (rb_on s ∖ {[key]})
  else if negb (bool_decide (key ∈ rb_on s)) && Nat.leb (rb_max s) (size (rb_on s)) then s
  else MkBindStore (rb_max s) ({[key]} ∪ rb_on s).

Definition rb_supports (s : respBindStore) (addr : string) : bool := bool_decide (to_lower addr ∈ rb_on s).

(** [quoteAdvertisesRespBind]. *)
Definition quoteAdvertisesRespBind (reply : bytes) : bool :=
  match unmarshal (unmarshal_struct [("e2ee_features", set_strings)] []) reply with
  | Ok features => contains features FeatureResponseBind
  | Err _ => false
  end.

Definition observed (s : respBindStore) (l : list (string * bool)) : respBindStore :=
  fold_left (fun s o => rb_observe s o.1 o.2) l s.

(** ** The limiter forgets nothing that matters *)

Section sweeping.
Context {V : Type} (deadline : V -> Z).

Lemma sweep_lookup (m : gmap string V) now k v :
  sweepExpired m now deadline !! k = Some v <-> m !! k = Some v /\ now < deadline v.
Proof. unfold sweepExpired. apply map_lookup_filter_Some. Qed.

Lemma sweep_none (m : gmap string V) now k :
  sweepExpired m now deadline !! k = None <-> forall v, m !! k = Some v -> deadline v <= now.
Proof.
  unfold sweepExpired. rewrite map_lookup_filter_None. cbn. split.
  - intros [Hn|Hn] v Hv; [congruence|]. specialize (Hn v Hv). cbn in Hn. lia.
  - intros Hv. right. intros v Hk ?. cbn in *. apply Hv in Hk. lia.
Qed.

Lemma sweep_sweep (m : gmap string V) t now :
  t <= now -> sweepExpired (sweepExpired m t deadline) now deadline = sweepExpired m now deadline.
Proof.
  intros Ht. apply map_eq. intros k. apply option_eq. intros v. rewrite !sweep_lookup. intuition lia.
Qed.

Lemma sweep_size (m : gmap string V) now : (size (sweepExpired m now deadline) <= size m)%nat.
Proof. apply map_subseteq_size, map_filter_subseteq. Qed.

Lemma sweep_insert (m : gmap string V) now k v :
  sweepExpired (<[k := v]> m) now deadline
  = if now <? deadline v then <[k := v]> (sweepExpired m now deadline) else delete k (sweepExpired m now deadline).
Proof.
  apply map_eq. intros k'. apply option_eq. intros v'. rewrite sweep_lookup.
  destruct (Z.ltb_spec now (deadline v)); destruct (decide (k' = k)) as [->|Hne];
    rewrite ?lookup_insert_eq, ?lookup_insert_ne, ?lookup_delete_eq, ?lookup_delete_ne, ?sweep_lookup by done;
    (split; [intros [Hk Hd]|intros Hk]); simplify_eq; try done; try lia.
Qed.

(** An expired entry takes room that a sweep gives back. *)
Lemma sweep_size_lt (m : gmap string V) now k v :
  m !! k = Some v -> deadline v <= now -> (size (sweepExpired m now deadline) < size m)%nat.
Proof.
  intros Hk Hd. apply map_subset_size, map_subset_alt. split; [apply map_filter_subseteq|].
  exists k. split; [|by eauto]. apply sweep_none. intros w Hw. rewrite Hk in Hw. by injection Hw as <-.
Qed.

Lemma size_insert_le (m : gmap string V) k v : (size (<[k := v]> m) <= S (size m))%nat.
Proof. destruct (m !! k) eqn:E; [rewrite map_size_insert_Some by eauto; lia|by rewrite map_size_insert_None]. Qed.

Lemma size_insert_held (m : gmap string V) k v w : m !! k = Some w -> size (<[k := v]> m) = size m.
Proof. intros Hk. apply map_size_insert_Some. eauto. Qed.
End sweeping.

(** The limiter's map and the specification's: the same stamps are live. *)
Definition agree (now : Z) (l s : rateLimiter) : Prop :=
  sweepExpired l now (fun n => n) = sweepExpired s now (fun n => n) /\ (size l <= maxLimiterKeys)%nat.

Section refinement.
#[local] Opaque maxLimiterKeys.

Lemma agree_later t now l s : t <= now -> agree t l s -> agree now l (sweepExpired s now (fun n => n)).
Proof.
  intros Ht [Hs Hz]. split; [|done]. rewrite sweep_sweep by lia.
  rewrite <-(sweep_sweep _ l t now), <-(sweep_sweep _ s t now) by done. by rewrite Hs.
Qed.

Lemma agree_insert now l s k v :
  agree now l s -> (size (<[k := v]> l) <= maxLimiterKeys)%nat -> agree now (<[k := v]> l) (<[k := v]> s).
Proof. intros [Hs _] Hz. split; [|done]. by rewrite !sweep_insert, Hs. Qed.

Lemma limiter_step_agree t now l s op :
  t <= now -> agree t l s ->
  match op with OpReschedule key _ => exists next, s !! key = Some next /\ now < next | _ => True end ->
  (limiter_step l now op).1 = (spec_step s now op).1 /\
  agree now (limiter_step l now op).2 (spec_step s now op).2.
Proof.
  intros Ht Ha Hop. apply (agree_later t now) in Ha; [|done]. unfold spec_step.
  set (s' := sweepExpired s now (fun n => n)) in *.
  assert (sweepExpired s' now (fun n => n) = s') as Hs' by (unfold s'; by rewrite sweep_sweep).
  pose proof Ha as [Heq Hsz]. rewrite Hs' in Heq.
  destruct op as [key window|key d]; cbn [limiter_step].
  - unfold rl_allow. destruct (l !! key) as [next|] eqn:Hk.
    + destruct (Z.ltb_spec now next) as [Hlt|Hle].
      * assert (s' !! key = Some next) as Hk' by (rewrite <-Heq; by apply sweep_lookup).
        unfold has_key. rewrite Hk'. done.
      * assert (s' !! key = None) as Hk'.
        { rewrite <-Heq. apply sweep_none. intros v Hv. rewrite Hk in Hv. by injection Hv as <-. }
        unfold has_key. rewrite Hk'. cbn [orb]. rewrite (proj2 (Nat.leb_gt _ _)).
        -- split; [done|]. apply agree_insert; [done|]. by rewrite (size_insert_held _ _ _ _ Hk).
        -- rewrite <-Heq. eapply Nat.lt_le_trans; [|exact Hsz]. by eapply sweep_size_lt.
    + assert (s' !! key = None) as Hk'
        by (rewrite <-Heq; apply sweep_none; intros v Hv; by rewrite Hk in Hv).
      unfold has_key. rewrite Hk'. cbn [orb]. destruct (Nat.leb_spec maxLimiterKeys (size l)) as [Hfull|Hroom].
      * rewrite Heq. assert (agree now s' s') as Hss.
        { split; [done|]. rewrite <-Heq. etransitivity; [apply sweep_size|done]. }
        destruct (Nat.leb_spec maxLimiterKeys (size s')); [done|]. split; [done|]. apply agree_insert; [done|].
        etransitivity; [apply size_insert_le|lia].
      * rewrite (proj2 (Nat.leb_gt _ _)).
        -- split; [done|]. apply agree_insert; [done|]. etransitivity; [apply size_insert_le|lia].
        -- rewrite <-Heq. eapply Nat.le_lt_trans; [apply sweep_size|done].
  - destruct Hop as (next & Hn & Hlt).
    assert (s' !! key = Some next) as Hk' by by apply sweep_lookup.
    assert (l !! key = Some next) as Hk
      by (rewrite <-Heq in Hk'; by apply sweep_lookup in Hk' as [? _]).
    unfold rl_reschedule. rewrite Hk, Hk'. split; [done|].
    destruct (now + d <? next); [|done]. apply agree_insert; [done|]. by rewrite (size_insert_held _ _ _ _ Hk).
Qed.

Lemma limiter_run_agree ops t l s :
  agree t l s -> well_timed s t ops -> (limiter_run l ops).1 = (spec_run s ops).1.
Proof.
  revert t l s. induction ops as [|[now op] ops IH]; intros t l s Ha; [done|]. cbn [well_timed].
  intros (Ht & Hop & Hw). cbn [limiter_run spec_run].
  destruct (limiter_step_agree t now l s op Ht Ha Hop) as [Hb Ha'].
  destruct (limiter_step l now op) as [b l'], (spec_step s now op) as [b' s']. cbn in *. subst b'.
  specialize (IH _ _ _ Ha' Hw). destruct (limiter_run l' ops), (spec_run s' ops). cbn in *. by subst.
Qed.

(** The map is never larger than its cap. *)
Lemma limiter_step_size l now op :
  (size l <= maxLimiterKeys)%nat -> (size (limiter_step l now op).2 <= maxLimiterKeys)%nat.
Proof.
  intros Hz. destruct op as [key window|key d]; cbn [limiter_step]; unfold rl_allow, rl_reschedule;
    destruct (l !! key) as [next|] eqn:Hk.
  - destruct (now <? next); [done|]. cbn. by rewrite (size_insert_held _ _ _ _ Hk).
  - pose proof (size_insert_le l key (now + window)).
    pose proof (size_insert_le (sweepExpired l now (fun n => n)) key (now + window)).
    pose proof (sweep_size (fun n => n) l now).
    destruct (Nat.leb_spec maxLimiterKeys (size l)); [|cbn; lia].
    destruct (Nat.leb_spec maxLimiterKeys (size (sweepExpired l now (fun n => n)))); cbn; lia.
  - cbn. destruct (_ <? _); [by rewrite (size_insert_held _ _ _ _ Hk)|done].
  - pose proof (size_insert_le l key (now + d)). cbn. destruct (Nat.leb_spec maxLimiterKeys (size l)); lia.
Qed.
End refinement.

(** ** The gate *)

(** The failures since the last answer, latest first. *)
Fixpoint failing (es : list gate_event) : list Z :=
  match es with
  | NoAnswer t :: es => t :: failing es
  | _ => []
  end.

(** The latest failure that closed the gate: every fifth of a run does. [ts] is the run,
    latest first. *)
Fixpoint last_trip (ts : list Z) : option Z :=
  match ts with
  | [] => None
  | t :: ts => if Z.of_nat (S (length ts)) mod previewRetryTripAfter =? 0 then Some t else last_trip ts
  end.

Lemma gate_run_snoc es e : gate_run (es ++ [e]) = gate_step (gate_run es) e.
Proof. unfold gate_run. by rewrite fold_left_app. Qed.

Lemma gate_run_explained es :
  let ts := failing (rev es) in
  rg_consecutive (gate_run es) = Z.of_nat (length ts) mod previewRetryTripAfter /\
  rg_openUntil (gate_run es) = (fun t => t + previewRetryCooldown) <$> last_trip ts.
Proof.
  induction es as [|e es IH] using rev_ind; [done|]. cbn zeta in *. rewrite gate_run_snoc, rev_app_distr.
  destruct e as [t|]; cbn [rev app failing gate_step]; [|done].
  set (ts := failing (rev es)) in *. destruct IH as [Hc Ho]. unfold rg_noAnswer. rewrite Hc, Ho.
  cbn [last_trip length]. unfold previewRetryTripAfter in *. rewrite Nat2Z.inj_succ.
  pose proof (Z.mod_pos_bound (Z.of_nat (length ts)) 5 ltac:(lia)) as Hb.
  pose proof (Z.div_mod (Z.of_nat (length ts)) 5 ltac:(lia)) as Hd.
  destruct (Z.leb_spec 5 (Z.of_nat (length ts) mod 5 + 1)).
  - assert (Z.succ (Z.of_nat (length ts)) mod 5 = 0) as ->
      by (symmetry; apply (Z.mod_unique_pos _ _ (Z.of_nat (length ts) / 5 + 1)); lia). done.
  - assert (Z.succ (Z.of_nat (length ts)) mod 5 = Z.of_nat (length ts) mod 5 + 1) as ->
      by (symmetry; apply (Z.mod_unique_pos _ _ (Z.of_nat (length ts) / 5)); lia).
    destruct (Z.eqb_spec (Z.of_nat (length ts) mod 5 + 1) 0); [lia|]. done.
Qed.

(** ** Who supports the binding *)

Lemma rb_observe_bounded s a b : (size (rb_on s) <= rb_max s)%nat ->
  (size (rb_on (rb_observe s a b)) <= rb_max s)%nat /\ rb_max (rb_observe s a b) = rb_max s.
Proof.
  intros Hz. unfold rb_observe. destruct b; cbn [negb].
  - case_bool_decide as Hin; cbn [negb andb].
    + split; [|done]. cbn. by replace ({[to_lower a]} ∪ rb_on s) with (rb_on s) by set_solver.
    + destruct (Nat.leb_spec (rb_max s) (size (rb_on s))); [done|]. split; [|done]. cbn.
      rewrite size_union by set_solver. rewrite size_singleton. lia.
  - split; [|done]. cbn. etransitivity; [|exact Hz]. apply subseteq_size. set_solver.
Qed.

(** The addresses in observations, as the store compares them. *)
Definition names (l : list (string * bool)) : gset string := list_to_set (map (fun o => to_lower o.1) l).

Lemma observed_snoc s l o : observed s (l ++ [o]) = rb_observe (observed s l) o.1 o.2.
Proof. unfold observed. by rewrite fold_left_app. Qed.

Lemma observed_within max l :
  let s := observed (newRespBindStore max) l in
  rb_max s = max /\ (size (rb_on s) <= max)%nat /\ rb_on s ⊆ names l.
Proof.
  cbn zeta. induction l as [|[a b] l IH] using rev_ind; [split_and!; [done|cbn; rewrite size_empty; lia|done]|].
  rewrite observed_snoc. set (s := observed _ l) in *. destruct IH as (Hm & Hz & Hsub). cbn [fst snd].
  destruct (rb_observe_bounded s a b) as [H1 H2]; [by rewrite Hm|].
  rewrite H2, Hm. rewrite Hm in H1. split_and!; [done|done|].
  unfold names. rewrite map_app, list_to_set_app_L. fold (names l). cbn.
  unfold rb_observe. destruct b; cbn [negb]; [destruct (_ && _)|]; cbn; set_solver.
Qed.

(** The last observation of an address, if any. *)
Fixpoint last_said (addr : string) (l : list (string * bool)) : option bool :=
  match l with
  | [] => None
  | (a, b) :: l =>
      match last_said addr l with
      | Some b' => Some b'
      | None => if String.eqb (to_lower a) (to_lower addr) then Some b else None
      end
  end.

Lemma last_said_snoc addr l a b :
  last_said addr (l ++ [(a, b)]) = if String.eqb (to_lower a) (to_lower addr) then Some b else last_said addr l.
Proof.
  induction l as [|[a' b'] l IH]; cbn; [done|]. rewrite IH. by destruct (String.eqb (to_lower a) (to_lower addr)).
Qed.

(** ** The caches *)

(** Every entry was put by the last operation on its key, and has the cache's lifetime. *)
Lemma cache_run_explained {V} ttl (ops : list (cache_op V)) key v exp :
  tc_m (fold_left cache_step ops (newCache ttl)) !! key = Some (v, exp) ->
  exists now l1 l2, ops = l1 ++ CPut now key v :: l2 /\ exp = now + ttl /\ 0 < ttl /\
    Forall (fun op => match op with CPut _ k _ | CDel k => k <> key end) l2.
Proof.
  assert (forall ops : list (cache_op V), tc_ttl (fold_left cache_step ops (newCache ttl)) = ttl) as Httl.
  { intros l. induction l as [|op l IH] using rev_ind; [done|]. rewrite fold_left_app. cbn.
    destruct op; cbn; [|done]. unfold cache_put. by destruct (_ <=? 0). }
  induction ops as [|op ops IH] using rev_ind; [done|]. rewrite fold_left_app. cbn [fold_left].
  set (c := fold_left cache_step ops (newCache ttl)) in *.
  assert (forall op', match op' with CPut _ k _ | CDel k => k <> key end -> tc_m c !! key = Some (v, exp) ->
    exists now l1 l2, ops ++ [op'] = l1 ++ CPut now key v :: l2 /\ exp = now + ttl /\ 0 < ttl /\
      Forall (fun op => match op with CPut _ k _ | CDel k => k <> key end) l2) as Hkeep.
  { intros op' Hne Hk. destruct (IH Hk) as (now & l1 & l2 & -> & He & Ht & HF).
    exists now, l1, (l2 ++ [op']). rewrite <-app_assoc. split_and!; [done..|]. apply Forall_app. by repeat constructor. }
  destruct op as [now k w|k]; cbn [cache_step].
  - unfold cache_put. pose proof (Httl ops) as Hc. fold c in Hc. rewrite Hc. destruct (Z.leb_spec ttl 0) as [Hle|Hpos].
    + intros Hk. exfalso. destruct (IH Hk) as (? & ? & ? & _ & _ & ? & _). lia.
    + cbn [tc_m]. destruct (decide (k = key)) as [->|Hne].
      * rewrite lookup_insert_eq. intros [= <- <-]. by exists now, ops, [].
      * rewrite lookup_insert_ne by done. by apply Hkeep.
  - cbn [cache_del tc_m]. destruct (decide (k = key)) as [->|Hne]; [by rewrite lookup_delete_eq|].
    rewrite lookup_delete_ne by done. by apply Hkeep.
Qed.

(** A put that is still the last word on its key stays there. *)
Lemma cache_kept {V} (c : ttlCache V) key e ops :
  tc_m c !! key = Some e -> Forall (fun op => match op with CPut _ k _ | CDel k => k <> key end) ops ->
  tc_m (fold_left cache_step ops c) !! key = Some e.
Proof.
  intros Hk HF. revert c Hk. induction HF as [|op ops Hop _ IH]; intros c Hk; [done|]. apply IH.
  destruct op as [now k v|k]; cbn; [unfold cache_put; destruct (_ <=? _); [done|]; cbn|].
  - by rewrite lookup_insert_ne.
  - by rewrite lookup_delete_ne.
Qed.

Lemma cache_run_ttl {V} ttl (ops : list (cache_op V)) : tc_ttl (fold_left cache_step ops (newCache ttl)) = ttl.
Proof.
  induction ops as [|op l IH] using rev_ind; [done|]. rewrite fold_left_app. cbn.
  destruct op; cbn; [|done]. unfold cache_put. by destruct (_ <=? 0).
Qed.

(** ** Spacing *)

(** A stamp that is ahead of every operation's time stays, and refuses its key. *)
Lemma limiter_held key n ops l :
  l !! key = Some n ->
  Forall (fun o => o.1 < n /\ match o.2 with OpReschedule k _ => k <> key | OpAllow _ _ => True end) ops ->
  (limiter_run l ops).2 !! key = Some n.
Proof.
  intros Hk HF. revert l Hk. induction HF as [|[now op] ops [Hlt Hop] _ IH]; intros l Hk; [done|].
  cbn [limiter_run]. assert ((limiter_step l now op).2 !! key = Some n) as Hk'.
  { assert (forall (m : rateLimiter) k v, m !! key = Some n -> k <> key -> <[k := v]> m !! key = Some n) as Hins
      by (intros m k v Hm Hne; by rewrite lookup_insert_ne).
    assert (sweepExpired l now (fun n => n) !! key = Some n) as Hsw by (by apply sweep_lookup).
    destruct op as [k w|k d]; cbn [limiter_step] in *; unfold rl_allow, rl_reschedule.
    - destruct (decide (k = key)) as [->|Hne].
      + rewrite Hk. cbn in Hlt. by rewrite (proj2 (Z.ltb_lt _ _) Hlt).
      + destruct (l !! k); [destruct (_ <? _)|destruct (Nat.leb _ _); [destruct (Nat.leb _ _)|]]; cbn; auto.
    - cbn [snd]. cbn in Hop. repeat case_match; auto. }
  destruct (limiter_step l now op) as [b l']. specialize (IH l' Hk'). by destruct (limiter_run l' ops).
Qed.

Lemma limiter_run_app l ops1 ops2 :
  limiter_run l (ops1 ++ ops2) =
  let '(bs1, l1) := limiter_run l ops1 in let '(bs2, l2) := limiter_run l1 ops2 in (bs1 ++ bs2, l2).
Proof.
  revert l. induction ops1 as [|[now op] ops1 IH]; intros l; cbn [app limiter_run]; [by destruct (limiter_run l ops2)|].
  destruct (limiter_step l now op) as [b l']. rewrite IH. destruct (limiter_run l' ops1) as [bs1 l1].
  by destruct (limiter_run l1 ops2).
Qed.

(** C38: the limiter implements its specification. Whatever keys are asked for, at times
    that do not go back, and rescheduling only keys whose stamp is still ahead of the
    clock ([well_timed]), the limiter, of [maxLimiterKeys] keys, gives the answers of a
    specification that keeps exactly the stamps still ahead of the clock and refuses a key
    that has one, or a new one when all that room is taken by live stamps: the entries it
    keeps past their time, and the sweeps that drop them, are never observable. *)
Theorem limiter_refines t ops :
  well_timed ∅ t ops -> (limiter_run ∅ ops).1 = (spec_run ∅ ops).1.
Proof. apply limiter_run_agree. split; [done|]. rewrite map_size_empty. lia. Qed.

(** A recovery is rationed. Once a key's action was allowed with a window, it is not
    allowed again before the window has passed, whatever is asked about other keys and
    however often, unless the caller itself brings its time forward: a provider that
    keeps disagreeing costs one verification or chain read per window. *)
Theorem limiter_spacing l key w t1 t2 w2 between :
  (rl_allow l t1 key w).1 = true -> t2 < t1 + w ->
  Forall (fun o => o.1 <= t2 /\ match o.2 with OpReschedule k _ => k <> key | OpAllow _ _ => True end) between ->
  let l1 := (rl_allow l t1 key w).2 in
  (rl_allow (limiter_run l1 between).2 t2 key w2).1 = false.
Proof.
  intros Ha Ht HF. cbn zeta. assert ((rl_allow l t1 key w).2 !! key = Some (t1 + w)) as Hk.
  { revert Ha. unfold rl_allow.
    destruct (l !! key); [destruct (_ <? _); [done|]|destruct (Nat.leb _ _); [destruct (Nat.leb _ _); [done|]|]];
      intros _; cbn; by rewrite lookup_insert_eq. }
  assert ((limiter_run (rl_allow l t1 key w).2 between).2 !! key = Some (t1 + w)) as Hk'.
  { apply limiter_held; [done|]. eapply Forall_impl; [exact HF|]. intros o [? ?]. split; [lia|done]. }
  unfold rl_allow at 1. rewrite Hk'. by rewrite (proj2 (Z.ltb_lt _ _) Ht).
Qed.

(** A router that invents keys fills no memory. On every history, the limiter holds
    at most its cap of keys, and the store of bindings at most its own, all of them
    addresses that were observed. *)
Theorem route_maps_bounded ops max obs :
  (size (limiter_run ∅ ops).2 <= maxLimiterKeys)%nat /\
  (size (rb_on (observed (newRespBindStore max) obs)) <= max)%nat /\
  rb_on (observed (newRespBindStore max) obs) ⊆ names obs.
Proof.
  destruct (observed_within max obs) as (_ & H1 & H2). split_and!; [|done|done].
  assert (forall ops (l : rateLimiter), (size l <= maxLimiterKeys)%nat ->
    (size (limiter_run l ops).2 <= maxLimiterKeys)%nat) as Hl.
  { clear. induction ops as [|[now op] ops IH]; intros l Hz; [done|]. cbn [limiter_run].
    pose proof (limiter_step_size l now op Hz) as Hs. destruct (limiter_step l now op) as [b l'].
    specialize (IH l' Hs). by destruct (limiter_run l' ops). }
  apply Hl. rewrite map_size_empty. lia.
Qed.

(** A closed gate is explained by the failures that closed it. Retries are off at
    [now] exactly when, in the run of calls without an answer since the last one that
    succeeded, the latest that came fifth, tenth and so on was less than the cooldown
    ago: fewer than five failures never close it, one success reopens it, and nothing
    else does either. *)
Theorem gate_explained es now :
  rg_allow (gate_run es) now = false <->
  exists t, last_trip (failing (rev es)) = Some t /\ now < t + previewRetryCooldown.
Proof.
  destruct (gate_run_explained es) as [_ Ho]. unfold rg_allow. rewrite Ho.
  destruct (last_trip (failing (rev es))) as [t|]; cbn.
  - rewrite negb_false_iff, Z.ltb_lt. naive_solver.
  - naive_solver.
Qed.

(** A cache answers with what was stored, while it is fresh. An entry is served at
    [now] exactly when the last operation on its key put it there and no more than the
    cache's lifetime ago; a lifetime that is not positive serves nothing. *)
Theorem cache_serves {V} ttl (ops : list (cache_op V)) now key v :
  cache_get (fold_left cache_step ops (newCache ttl)) now key = Some v <->
  0 < ttl /\ exists t l1 l2, ops = l1 ++ CPut t key v :: l2 /\ now <= t + ttl /\
    Forall (fun op => match op with CPut _ k _ | CDel k => k <> key end) l2.
Proof.
  unfold cache_get. rewrite cache_run_ttl. destruct (Z.leb_spec ttl 0) as [|Hpos]; [split; [done|]; intros [? _]; lia|].
  destruct (tc_m _ !! key) as [[v0 exp]|] eqn:Hk.
  - destruct (cache_run_explained _ _ _ _ _ Hk) as (t & l1 & l2 & Hops & -> & _ & HF). split.
    + destruct (Z.ltb_spec (t + ttl) now); [done|]. intros [= ->]. split; [done|]. by exists t, l1, l2.
    + intros (_ & t' & l1' & l2' & -> & Hn & HF'). clear Hops HF.
      rewrite fold_left_app in Hk. cbn [fold_left cache_step] in Hk.
      rewrite (cache_kept _ key (v, t' + ttl)) in Hk; [|unfold cache_put; rewrite cache_run_ttl|done].
      * injection Hk as <- E. by rewrite <-E, (proj2 (Z.ltb_ge _ _) Hn).
      * rewrite (proj2 (Z.leb_gt _ _) Hpos). cbn. by rewrite lookup_insert_eq.
  - split; [done|]. intros (_ & t & l1 & l2 & -> & _ & HF). exfalso.
    rewrite fold_left_app in Hk. cbn [fold_left cache_step] in Hk.
    rewrite (cache_kept _ key (v, t + ttl)) in Hk; [done| |done].
    unfold cache_put. rewrite cache_run_ttl, (proj2 (Z.leb_gt _ _) Hpos). cbn. by rewrite lookup_insert_eq.
Qed.

(** The binding follows the last observation. While no more addresses were observed
    than the store holds, requests to a provider are bound exactly when the last
    observation of its address, however it is spelled, advertised the feature; no
    number of observations of others changes that. *)
Theorem binding_last_said max obs addr :
  (size (names obs) <= max)%nat ->
  rb_supports (observed (newRespBindStore max) obs) addr = true <-> last_said addr obs = Some true.
Proof.
  induction obs as [|[a b] obs IH] using rev_ind; intros Hz.
  { cbn. unfold rb_supports. cbn. rewrite bool_decide_eq_true. set_solver. }
  assert (names obs ⊆ names (obs ++ [(a, b)]) /\ to_lower a ∈ names (obs ++ [(a, b)])) as [Hsub Hin].
  { unfold names. rewrite map_app, list_to_set_app_L. set_solver. }
  assert (size (names obs) <= max)%nat as Hz' by (etransitivity; [by apply subseteq_size|done]).
  specialize (IH Hz'). rewrite observed_snoc, last_said_snoc. cbn [fst snd].
  destruct (observed_within max obs) as (Hm & _ & Hon). set (s := observed _ obs) in *.
  unfold rb_supports in *. rewrite bool_decide_eq_true in *. unfold rb_observe.
  destruct (String.eqb_spec (to_lower a) (to_lower addr)) as [E|Hne].
  - rewrite E in *. destruct b; cbn [negb]; [|cbn; split; [set_solver|done]].
    case_bool_decide as Hd; cbn [negb andb]; [cbn; split; [done|set_solver]|].
    rewrite Hm. destruct (Nat.leb_spec max (size (rb_on s))) as [Hfull|]; [|cbn; split; [done|set_solver]].
    exfalso. assert ({[to_lower addr]} ∪ rb_on s ⊆ names (obs ++ [(a, true)])) as Hall.
    { apply union_subseteq. split; [by apply singleton_subseteq_l|by etransitivity]. }
    apply subseteq_size in Hall. rewrite size_union in Hall by (clear -Hd; set_solver). rewrite size_singleton in Hall. lia.
  - destruct b; cbn [negb]; [destruct (_ && _)|]; cbn; rewrite <-IH; set_solver.
Qed.

(** An expired stamp and a missing one are not the same to [reschedule]: it leaves the
    first alone and blocks the second. Both callers reschedule keys they just stamped,
    where the two cannot differ ([well_timed]). *)
Example reschedule_sees_expired :
  let expired : rateLimiter := {[ "a" := 5 ]} in
  agree 10 expired ∅ /\
  (rl_allow (rl_reschedule expired 10 "a" 30) 11 "a" 60).1 = true /\
  (rl_allow (rl_reschedule ∅ 10 "a" 30) 11 "a" 60).1 = false.
Proof.
  split_and!; [split|..].
  - apply map_eq. intros k. apply option_eq. intros v. rewrite !sweep_lookup, lookup_singleton_Some, lookup_empty.
    naive_solver lia.
  - rewrite map_size_singleton. unfold maxLimiterKeys. apply Nat.leb_le. reflexivity.
  - reflexivity.
  - reflexivity.
Qed.

(** ** Witnesses *)

Section witnesses.

(** A recovery granted, refused, shortened after a failure, granted again. *)
Let history : list (Z * limiter_op) :=
  [(0, OpAllow "a" 300); (10, OpAllow "a" 300); (12, OpReschedule "a" 30); (20, OpAllow "b" 300);
   (41, OpAllow "a" 300); (42, OpAllow "a" 300)].

Lemma history_timed : well_timed ∅ 0 history.
Proof. vm_compute. repeat split; try discriminate. by exists 300. Qed.

Lemma limiter_refines_witness : (limiter_run ∅ history).1 = [true; false; true; true; false; true].
Proof.
  rewrite (limiter_refines 0 history history_timed). vm_compute. reflexivity.
Defined.

Lemma limiter_spacing_witness : (rl_allow (limiter_run {[ "a" := 300 ]} [(20, OpAllow "b" 300)]).2 250 "a" 300).1 = false.
Proof.
  refine (limiter_spacing ∅ "a" 300 0 250 300 [(20, OpAllow "b" 300)] eq_refl _ _); [lia|].
  repeat constructor. cbn. lia.
Defined.

Lemma binding_last_said_witness :
  rb_supports (observed (newRespBindStore 2) [("0xAb", true); ("0xcd", true); ("0xAB", false)]) "0xab" = false.
Proof.
  destruct (rb_supports _ _) eqn:E; [|reflexivity].
  apply binding_last_said in E; [discriminate E|].
  refine (bool_decide_eq_true_1 _ _). vm_compute. reflexivity.
Defined.
End witnesses.
