(* ===== verification/Endpoint.v ===== *)
(** * Endpoint: the sealed surfaces ([client/endpoint]: endpoint.go, anthropic.go, speech.go)

    One [Endpoint] row per surface, with the rule that prepares its requests before
    sealing: [imagePreSeal] and [speechPreSeal] supply or refuse the pinned
    [response_format], [anthropicPreSeal] folds added tools into [tools]. The
    multipart form of a transcription is converted by [speechDecodeMultipart], from
    the parts [mime/multipart] finds in the body; splitting the body is not modelled.

    The theorems: what a row's rule accepts meets the pins of its profile and is the
    request otherwise; folding moves definitions and drops nothing else; a converted
    form carries every part it was sent, and nothing else. *)

From S2P Require Import Prelude GoBytes GoJson GoDecode GoJsonEq Profile.

(** Why a rule refuses a request. *)
Inductive prerr :=
| PNotString (field : string)
| PUnsupported (field got : string)
| PPath (name : string)
| PHeaderUnsafe (s : string)
| PUnnamed | PEnvelopePart | PSecondFile | PReserved (name : string) | PNoFile
| PMalformed | PPartRead.
Abbreviation presult := (result prerr).

(** One step of the reader of a form: a part, as [FormName], [FileName] and its bytes
    ([None] when reading them failed), or the failure that ends the form. *)
Inductive form_part := Part (name filename : string) (body : option bytes) | Malformed.

Record Endpoint := MkEndpoint {
  ep_ServiceType : string;
  ep_APIFormat : string;
  ep_Profile : Profile;
  ep_Path : string;
  ep_UpstreamPath : string;
  ep_Streams : bool;
  ep_PreSeal : option (Request -> presult Request);
  ep_DecodeMultipart : option (list form_part -> presult Request);
  ep_Async : bool
}.

Definition JSON_null (raw : json) : bool := match raw with JNull => true | _ => false end.

(** ** Images *)

Definition imagePreSeal (req : Request) : presult Request :=
  let filled := <[fieldResponseFormat := jstr "b64_json"]> req in
  match req !! fieldResponseFormat with
  | None => Ok filled
  | Some raw =>
      if JSON_null raw then Ok filled
      else match unmarshal_string raw with
           | Err _ => Err (PNotString fieldResponseFormat)
           | Ok got => if String.eqb got "b64_json" then Ok req
                       else Err (PUnsupported fieldResponseFormat got)
           end
  end.

(** ** Anthropic: tools added in the conversation *)

(** [bytes.Contains]. *)
Fixpoint bytes_contains (l p : bytes) : bool :=
  match strip_prefix p l with
  | Some _ => true
  | None => match l with [] => false | _ :: l => bytes_contains l p end
  end.

Definition quoted_name (s : string) : bytes := quoted (bytes_of s).

(** A decode whose error is dropped keeps what it had set: the last string member
    whose name folds to [name]. *)
Definition lossy_name (j : json) : string :=
  match j with
  | JObj l => fold_left (fun n kv =>
                match kv.2 with
                | JStr raw => if equal_fold (unquote_str kv.1) "name" then unquote_str raw else n
                | _ => n
                end) l ""
  | _ => ""
  end.

(** A content block: its type, and its tool's definition. *)
Record block := MkBlock { b_Type : string; b_Definition : option json }.

Definition tool_fields : list (string * (block -> json -> result jerr block)) :=
  [("Definition", fun b j => Ok (MkBlock (b_Type b) (Some j)))].
Definition block_fields : list (string * (block -> json -> result jerr block)) :=
  [("Type", fun b j => t ← set_string (b_Type b) j; Ok (MkBlock t (b_Definition b)));
   ("Tool", fun b j => unmarshal_struct tool_fields b j)].

Definition unmarshal_block (j : json) : result jerr block := unmarshal_struct block_fields (MkBlock "" None) j.
Definition unmarshal_def (j : option json) : result jerr string :=
  match j with
  | None => Err JSyntax
  | Some j => unmarshal_struct [("name", set_string)] "" j
  end.

Definition toolAddition : string := "tool_addition".
Definition toolRemoval : string := "tool_removal".

(** The definition of an added tool, when the block adds one. *)
Definition added_tool (j : json) : option (option json) :=
  match unmarshal_block j with
  | Ok b => if String.eqb (b_Type b) toolAddition then Some (b_Definition b) else None
  | Err _ => None
  end.

(** What the fold carries: the tools so far, their names, and whether a block was found. *)
Record folding := MkFolding { f_tools : list json; f_names : gset string; f_found : bool }.

(** The blocks of one message, in order; [None] when the fold cannot express them. *)
Fixpoint foldBlocks (blocks kept : list json) (f : folding) : option (list json * folding) :=
  match blocks with
  | [] => Some (kept, f)
  | b :: blocks =>
      match added_tool b with
      | None => foldBlocks blocks (kept ++ [b]) f
      | Some def =>
          match unmarshal_def def, def with
          | Ok name, Some d =>
              if String.eqb name "" then None
              else if bool_decide (name ∈ f_names f)
              then foldBlocks blocks kept (MkFolding (f_tools f) (f_names f) true)
              else foldBlocks blocks kept (MkFolding (f_tools f ++ [d]) ({[name]} ∪ f_names f) true)
          | _, _ => None
          end
      end
  end.

(** [json.Unmarshal] into [[]json.RawMessage]. *)
Definition unmarshal_raws (j : json) : result jerr (list json) :=
  match j with JNull => Ok [] | JArr l => Ok l | _ => Err JType end.

Definition foldMessage (msg : option Request) (f : folding) : option (option Request * folding) :=
  match nil_map msg !! fieldContent with
  | None => Some (msg, f)
  | Some content =>
      match unmarshal_raws content with
      | Err _ => Some (msg, f)
      | Ok blocks =>
          match foldBlocks blocks [] f with
          | None => None
          | Some (kept, f) =>
              if bool_decide (kept = []) && negb (bool_decide (blocks = [])) then None
              else if Nat.eqb (length kept) (length blocks) then Some (msg, f)
              else Some (Some (<[fieldContent := JArr (map compact kept)]> (nil_map msg)), f)
          end
      end
  end.

Fixpoint foldMessages (msgs : list (option Request)) (f : folding) : option (list (option Request) * folding) :=
  match msgs with
  | [] => Some ([], f)
  | msg :: msgs =>
      match foldMessage msg f with
      | None => None
      | Some (msg, f) =>
          match foldMessages msgs f with
          | None => None
          | Some (msgs, f) => Some (msg :: msgs, f)
          end
      end
  end.

Definition json_of_msg (m : option Request) : json :=
  match m with None => JNull | Some m => json_of_map m end.

Definition unmarshal_msgs (j : json) : result jerr (list (option Request)) :=
  match j with
  | JNull => Ok []
  | JArr l => foldr (fun j r => m ← unmarshal_map j; ms ← r; Ok (m :: ms)) (Ok []) l
  | _ => Err JType
  end.

Definition foldToolAdditions (rawMessages rawTools : option json) : option (json * json) :=
  match rawMessages with
  | None => None
  | Some rawM =>
      if negb (bytes_contains (print rawM) (quoted_name toolAddition))
         || bytes_contains (print rawM) (quoted_name toolRemoval) then None
      else match unmarshal_msgs rawM, unmarshal_raws (default JNull rawTools) with
           | Ok messages, Ok tools =>
               match foldMessages messages (MkFolding tools (list_to_set (map lossy_name tools)) false) with
               | Some (messages, f) =>
                   if f_found f then Some (JArr (map json_of_msg messages), JArr (map compact (f_tools f)))
                   else None
               | None => None
               end
           | _, _ => None
           end
  end.

Definition anthropicPreSeal (req : Request) : presult Request :=
  match foldToolAdditions (req !! fieldMessages) (req !! fieldTools) with
  | None => Ok req
  | Some (messages, tools) => Ok (<[fieldTools := tools]> (<[fieldMessages := messages]> req))
  end.

(** ** Speech *)

Definition fieldFile : string := "file".
Definition speechResponseFormats : list string := ["json"; "verbose_json"].

(** [strings.IndexAny] finds one of CR, LF, a double quote and a semicolon. *)
Definition header_breaker (c : ascii) : bool :=
  (bval c =? 13) || (bval c =? 10) || (bval c =? 34) || (bval c =? 59).
Definition speechHeaderSafe (s : string) : presult unit :=
  refuse (existsb header_breaker (bytes_of s)) (PHeaderUnsafe s).

(** Field names in order; the source ranges over the map, which only decides the error
    reported when several names are unsafe. *)
Definition speechMaterializable (req : Request) : presult unit :=
  _ ← (match req !! fieldFilename with
       | None => Ok tt
       | Some raw =>
           name ← map_err (fun _ => PNotString fieldFilename) (unmarshal_string raw);
           _ ← refuse (existsb (Ascii.eqb "/") (bytes_of name) || String.eqb name "." || String.eqb name "..")
                 (PPath name);
           speechHeaderSafe name
       end);
  each (fun kv => if contains [fieldFileBase64; fieldFilename; fieldStream] kv.1 then Ok tt
                  else speechHeaderSafe kv.1) (entries req).

Definition absent (req : Request) (f : string) : bool :=
  match req !! f with None => true | Some raw => JSON_null raw end.

Definition fill_format (req : Request) : Request :=
  if absent req fieldResponseFormat then <[fieldResponseFormat := jstr "json"]> req else req.
Definition drop_null_stream (req : Request) : Request :=
  match req !! fieldStream with
  | Some raw => if JSON_null raw then delete fieldStream req else req
  | None => req
  end.

Definition speechPreSeal (req : Request) : presult Request :=
  _ ← speechMaterializable req;
  _ ← (match req !! fieldResponseFormat with
       | None => Ok tt
       | Some raw =>
           if JSON_null raw then Ok tt
           else got ← map_err (fun _ => PNotString fieldResponseFormat) (unmarshal_string raw);
                refuse (negb (contains speechResponseFormats got)) (PUnsupported fieldResponseFormat got)
       end);
  Ok (drop_null_stream (fill_format req)).

Definition speechFormNameAllowed (name key : string) (req : Request) : presult unit :=
  if String.eqb name "" then Err PUnnamed
  else if String.eqb name e2eeKey || String.eqb key e2eeKey then Err PEnvelopePart
  else if String.eqb name fieldFile then refuse (has_key req fieldFileBase64) PSecondFile
  else refuse (contains [fieldFileBase64; fieldFilename; fieldFile] key) (PReserved name).

(** [strings.CutSuffix(name, "[]")]. *)
Definition cut_brackets (name : string) : string * bool :=
  match strip_prefix (bytes_of "][") (rev (bytes_of name)) with
  | Some r => (str_of (rev r), true)
  | None => (name, false)
  end.

(** [base64.StdEncoding]: the other alphabet, and padding. *)
Definition std_char (c : ascii) : ascii :=
  if Ascii.eqb c "-" then "+"%char else if Ascii.eqb c "_" then "/"%char else c.
Definition b64_std (b : bytes) : bytes :=
  map std_char (b64_encode b) ++ repeat "="%char ((3 - length b mod 3) mod 3).

(** [strconv.ParseBool]. *)
Definition parse_bool (s : string) : option bool :=
  if contains ["1"; "t"; "T"; "TRUE"; "true"; "True"] s then Some true
  else if contains ["0"; "f"; "F"; "FALSE"; "false"; "False"] s then Some false
  else None.

(** The reading loop's state: the request so far, the values and whether a name was
    bracketed, the file's name. *)
Record form := MkForm { fm_req : Request; fm_values : gmap string (list string * bool); fm_filename : string }.

Definition form_step (p : form_part) (f : form) : presult form :=
  match p with
  | Malformed => Err PMalformed
  | Part name filename body =>
      let (key, bracketed) := cut_brackets name in
      _ ← speechFormNameAllowed name key (fm_req f);
      val ← of_option body PPartRead;
      if String.eqb name fieldFile
      then Ok (MkForm (<[fieldFileBase64 := jstr (str_of (b64_std val))]> (fm_req f)) (fm_values f) filename)
      else let (vs, arr) := default ([], false) (fm_values f !! key) in
           Ok (MkForm (fm_req f) (<[key := (vs ++ [str_of val], arr || bracketed)]> (fm_values f))
                 (fm_filename f))
  end.

Fixpoint form_run (parts : list form_part) (f : form) : presult form :=
  match parts with
  | [] => Ok f
  | p :: parts => f ← form_step p f; form_run parts f
  end.

Definition encode_values (v : list string * bool) : json :=
  match v with
  | ([x], false) => jstr x
  | (vs, _) => json_of_strings vs
  end.

Definition typed_stream (values : gmap string (list string * bool)) (req : Request) : Request :=
  match values !! fieldStream with
  | Some ([x], false) => match parse_bool (trim_space x) with
                         | Some b => <[fieldStream := JBool b]> req
                         | None => req
                         end
  | _ => req
  end.

Definition speechDecodeMultipart (parts : list form_part) : presult Request :=
  f ← form_run parts (MkForm ∅ ∅ "");
  _ ← refuse (negb (has_key (fm_req f) fieldFileBase64)) PNoFile;
  let req := (encode_values <$> fm_values f) ∪ fm_req f in
  let req := if String.eqb (fm_filename f) "" then req
             else <[fieldFilename := jstr (fm_filename f)]> req in
  Ok (typed_stream (fm_values f) req).

(** ** The rows *)

Definition Chat : Endpoint :=
  MkEndpoint "chatbot" "" ProfileChat "/v1/chat/completions" "/v1/chat/completions" true None None false.
Definition Anthropic : Endpoint :=
  MkEndpoint "chatbot" "anthropic" ProfileAnthropic "/v1/messages" "/v1/messages" true
    (Some anthropicPreSeal) None false.
Definition Image : Endpoint :=
  MkEndpoint "text-to-image" "" ProfileImage "/v1/images/generations" "/v1/images/generations" false
    (Some imagePreSeal) None false.
Definition AsyncImage : Endpoint :=
  MkEndpoint "text-to-image" "" ProfileAsyncImage "/v1/async/images/generations"
    "/v1/async/images/generations" false (Some imagePreSeal) None true.
Definition Embedding : Endpoint :=
  MkEndpoint "embedding" "" ProfileEmbedding "/v1/embeddings" "/v1/embeddings" false None None false.
Definition Speech : Endpoint :=
  MkEndpoint "speech-to-text" "" ProfileSpeech "/v1/audio/transcriptions" "/v1/audio/transcriptions" false
    (Some speechPreSeal) (Some speechDecodeMultipart) false.

Definition All : list Endpoint := [Chat; Anthropic; Image; Speech; Embedding; AsyncImage].

Definition preSeal (ep : Endpoint) (req : Request) : presult Request :=
  match ep_PreSeal ep with None => Ok req | Some f => f req end.

(** ** What a row's rule keeps and what it meets *)

(** The fields a rule may set. *)
Definition preSeal_fields (ep : Endpoint) : list string :=
  if String.eqb (ep_Profile ep) ProfileAnthropic then [fieldMessages; fieldTools]
  else if String.eqb (ep_Profile ep) ProfileSpeech then [fieldResponseFormat; fieldStream]
  else [fieldResponseFormat].

(** The request is not a streaming one, as the front end reads it. *)
Definition not_streaming (req : Request) : Prop :=
  match req !! fieldStream with None => True | Some raw => set_bool false raw = Ok false end.

Lemma JSON_null_true raw : JSON_null raw = true <-> raw = JNull.
Proof. by destruct raw. Qed.

Lemma unmarshal_string_str raw got :
  unmarshal_string raw = Ok got -> JSON_null raw = false -> exists r, raw = JStr r /\ got = unquote_str r.
Proof. destruct raw; cbn; try done. intros Hs _. injection Hs as <-. eauto. Qed.

Lemma pin_met_str req f permitted opt r :
  req !! f = Some (JStr r) -> unquote_str r ∈ permitted -> pin_met req (PinnedField f permitted opt).
Proof. intros Hf Hin. unfold pin_met. cbn. rewrite Hf. cbn. eauto. Qed.

Lemma pin_met_jstr req f permitted opt s :
  req !! f = Some (jstr s) -> utf8_str s = true -> s ∈ permitted -> pin_met req (PinnedField f permitted opt).
Proof. intros Hf Hu Hin. eapply pin_met_str; [exact Hf|]. by rewrite unquote_str_quote. Qed.

Lemma imagePreSeal_ok req out :
  imagePreSeal req = Ok out ->
  pin_met out (PinnedField fieldResponseFormat ["b64_json"] false) /\
  (forall f, f <> fieldResponseFormat -> out !! f = req !! f) /\
  (forall raw, req !! fieldResponseFormat = Some raw -> raw <> JNull -> out = req).
Proof.
  assert (forall r, <[fieldResponseFormat := jstr "b64_json"]> req = r ->
            pin_met r (PinnedField fieldResponseFormat ["b64_json"] false) /\
            (forall f, f <> fieldResponseFormat -> r !! f = req !! f)) as Hfill.
  { intros r <-. split.
    - eapply pin_met_jstr; [apply lookup_insert_eq|by vm_compute|apply elem_of_cons; auto].
    - intros f Hf. by apply lookup_insert_ne. }
  unfold imagePreSeal. destruct (req !! fieldResponseFormat) as [raw|] eqn:Hr.
  - destruct (JSON_null raw) eqn:Hn.
    + intros Ho. injection Ho as <-. apply JSON_null_true in Hn as ->.
      destruct (Hfill _ eq_refl) as [H1 H2]. split_and!; [done|done|]. intros raw Hs. congruence.
    + destruct (unmarshal_string raw) as [got|] eqn:Hg; [|done].
      destruct (String.eqb_spec got "b64_json") as [->|]; [|done]. intros Ho. injection Ho as <-.
      destruct (unmarshal_string_str _ _ Hg Hn) as (r & -> & Hgot). split_and!; [|done|done].
      eapply pin_met_str; [exact Hr|]. rewrite <-Hgot. apply elem_of_cons; auto.
  - intros Ho. injection Ho as <-. destruct (Hfill _ eq_refl) as [H1 H2]. done.
Qed.

Lemma drop_null_stream_lookup req f :
  drop_null_stream req !! f = if decide (f = fieldStream /\ req !! f = Some JNull) then None else req !! f.
Proof.
  unfold drop_null_stream. destruct (req !! fieldStream) as [raw|] eqn:Hs.
  - destruct (JSON_null raw) eqn:Hn.
    + apply JSON_null_true in Hn as ->. destruct (decide (f = fieldStream)) as [->|Hne].
      * rewrite lookup_delete_eq, decide_True by done. done.
      * rewrite lookup_delete_ne, decide_False by naive_solver. done.
    + rewrite decide_False; [done|]. intros [-> He]. rewrite Hs in He. injection He as ->. done.
  - rewrite decide_False; [done|]. intros [-> He]. congruence.
Qed.

Lemma fill_format_lookup req f :
  fill_format req !! f
  = if decide (f = fieldResponseFormat) then Some (if absent req f then jstr "json" else default JNull (req !! f))
    else req !! f.
Proof.
  unfold fill_format. case_decide as Hf; subst.
  - destruct (absent req fieldResponseFormat) eqn:Ha; [by rewrite lookup_insert_eq|].
    unfold absent in Ha. by destruct (req !! fieldResponseFormat).
  - destruct (absent _ _); [by rewrite lookup_insert_ne|done].
Qed.

Lemma speechPreSeal_ok req out :
  speechPreSeal req = Ok out ->
  pin_met out (PinnedField fieldResponseFormat ["json"; "verbose_json"] false) /\
  (not_streaming req -> pin_met out (PinnedField fieldStream ["false"] true)) /\
  (forall f, f ∉ [fieldResponseFormat; fieldStream] -> out !! f = req !! f) /\
  (forall raw, req !! fieldResponseFormat = Some raw -> raw <> JNull -> out !! fieldResponseFormat = Some raw) /\
  (req !! fieldStream = Some (JBool true) -> out !! fieldStream = Some (JBool true)).
Proof.
  unfold speechPreSeal. intros Ho. inv_ok. rename H0 into Hfmt. subst out.
  assert (forall f, drop_null_stream (fill_format req) !! f = (if decide (f = fieldResponseFormat) then
     Some (if absent req f then jstr "json" else default JNull (req !! f))
     else if decide (f = fieldStream /\ req !! f = Some JNull) then None else req !! f)) as Hl.
  { intros f. rewrite drop_null_stream_lookup, fill_format_lookup. repeat case_decide; naive_solver. }
  assert (forall raw, req !! fieldResponseFormat = Some raw -> raw <> JNull -> absent req fieldResponseFormat = false) as Hkept.
  { intros raw Hr Hn. unfold absent. rewrite Hr. by destruct raw. }
  split_and!.
  - unfold pin_met. cbn [pin_field pin_permitted]. rewrite Hl, decide_True by done.
    destruct (absent req fieldResponseFormat) eqn:Ha.
    + exists "json". split; [by vm_compute|apply elem_of_cons; auto].
    + unfold absent in Ha. destruct (req !! fieldResponseFormat) as [raw|]; [|done]. rewrite Ha in Hfmt. inv_ok.
      destruct (unmarshal_string_str _ _ H0 Ha) as (r & -> & ->). eexists. split; [done|].
      apply negb_false_iff, contains_spec in Hfmt. done.
  - unfold not_streaming, pin_met. cbn [pin_field pin_permitted pin_optional]. rewrite Hl, decide_False by done.
    intros Hs. destruct (req !! fieldStream) as [raw|]; [|by case_decide].
    case_decide as Hd; [done|]. destruct raw; cbn in Hs; try done; [naive_solver|]. injection Hs as ->.
    exists "false". split; [done|apply elem_of_cons; auto].
  - intros f Hf. rewrite !elem_of_cons in Hf. rewrite Hl, !decide_False by naive_solver. done.
  - intros raw Hr Hn. rewrite Hl, decide_True, (Hkept raw), Hr by done. done.
  - intros Hs. by rewrite Hl, decide_False, Hs, decide_False by naive_solver.
Qed.

Lemma anthropicPreSeal_ok req :
  exists out, anthropicPreSeal req = Ok out /\ forall f : string, f ∉ [fieldMessages; fieldTools] -> out !! f = req !! f.
Proof.
  unfold anthropicPreSeal. destruct (foldToolAdditions _ _) as [[m t]|]; [|by eauto].
  eexists. split; [reflexivity|]. intros f Hf. rewrite !elem_of_cons in Hf. rewrite !lookup_insert_ne by naive_solver. done.
Qed.

(** What a rule does for the pins of a profile, stated of the list of them. *)
Definition pins_prepared (req out : Request) (pins : list pinnedField) : Prop :=
  (forall p, p ∈ pins -> pin_field p <> fieldStream -> pin_met out p) /\
  (not_streaming req -> Forall (pin_met out) pins) /\
  (req !! fieldStream = Some (JBool true) -> fieldStream ∈ map pin_field pins -> ~ Forall (pin_met out) pins).

Lemma pins_prepared_nil req out : pins_prepared req out [].
Proof. split_and!; [|constructor|]; [intros q Hq|intros _ Hq]; by apply elem_of_nil in Hq. Qed.

Lemma pins_prepared_one req out p : pin_met out p -> pin_field p <> fieldStream -> pins_prepared req out [p].
Proof.
  intros Hp Hne. split_and!.
  - intros q Hq _. rewrite list_elem_of_singleton in Hq. by subst q.
  - intros _. by repeat constructor.
  - intros _ Hin. cbn in Hin. rewrite list_elem_of_singleton in Hin. congruence.
Qed.

Lemma pins_prepared_stream req out p :
  pin_met out p -> pin_field p <> fieldStream ->
  (not_streaming req -> pin_met out (PinnedField fieldStream ["false"] true)) ->
  (req !! fieldStream = Some (JBool true) -> out !! fieldStream = Some (JBool true)) ->
  pins_prepared req out [p; PinnedField fieldStream ["false"] true].
Proof.
  intros Hp Hne Hs Hst. split_and!.
  - intros q Hq Hnq. rewrite !elem_of_cons in Hq. destruct Hq as [-> | [-> | Hq]]; [done|done|by apply elem_of_nil in Hq].
  - intros Hns. repeat constructor; [exact Hp|by apply Hs].
  - intros Hreq _ HF. inversion HF as [|? ? _ HF']. inversion HF' as [|? ? Hpin _].
    unfold pin_met in Hpin. cbn [pin_field] in Hpin. rewrite (Hst Hreq) in Hpin.
    destruct Hpin as (got & [= <-] & Hin). cbn in Hin. by apply list_elem_of_singleton in Hin.
Qed.

(** C39: a prepared request meets its surface's pins. On every surface, the request that
    the row's rule hands on meets every pinned field of the row's profile but a pinned
    [stream], whatever the caller sent; when the caller does not ask for a stream it meets
    them all, so the protocol will not refuse it for one, and when the caller does, on a
    profile that pins [stream], the protocol refuses it; it differs from the caller's
    only in the fields that rule is about, and a response format the caller chose is
    never rewritten. *)
Theorem preSeal_prepares ep req out s :
  ep ∈ All -> preSeal ep req = Ok out -> spec (ep_Profile ep) = Ok s ->
  (forall p, p ∈ ps_pinned s -> pin_field p <> fieldStream -> pin_met out p) /\
  (not_streaming req -> validatePinnedValues s out = Ok tt) /\
  (req !! fieldStream = Some (JBool true) -> fieldStream ∈ map pin_field (ps_pinned s) ->
     validatePinnedValues s out <> Ok tt) /\
  (forall f, f ∉ preSeal_fields ep -> out !! f = req !! f) /\
  (forall raw, req !! fieldResponseFormat = Some raw -> raw <> JNull -> out !! fieldResponseFormat = Some raw).
Proof.
  intros Hep Hpre Hspec. rewrite validatePinnedValues_ok.
  assert (forall l : list string, (forall f : string, f ∉ l -> out !! f = req !! f) -> (fieldResponseFormat ∉ l) ->
    forall raw, req !! fieldResponseFormat = Some raw -> raw <> JNull -> out !! fieldResponseFormat = Some raw) as Hsame
    by (intros l Hl Hn raw Hr _; rewrite Hl; done).
  enough (pins_prepared req out (ps_pinned s) /\ (forall f, f ∉ preSeal_fields ep -> out !! f = req !! f) /\
    (forall raw, req !! fieldResponseFormat = Some raw -> raw <> JNull -> out !! fieldResponseFormat = Some raw))
    as ((N1 & N2 & N3) & ? & ?) by done.
  unfold All in Hep. rewrite !elem_of_cons in Hep. unfold preSeal in Hpre.
  destruct Hep as [-> | [-> | [-> | [-> | [-> | [-> | Hep]]]]]]; [..|by apply elem_of_nil in Hep];
    cbn in Hpre; vm_compute in Hspec; injection Hspec as <-; unfold preSeal_fields; cbn -[pin_met map].
  1,5: injection Hpre as <-; split_and!; [apply pins_prepared_nil|done|]; apply (Hsame []); [done|apply not_elem_of_nil].
  - destruct (anthropicPreSeal_ok req) as (out' & E & Hl). rewrite E in Hpre. injection Hpre as ->.
    split_and!; [apply pins_prepared_nil|exact Hl|]. apply (Hsame _ Hl). apply (bool_decide_eq_true_1 _). by vm_compute.
  - apply imagePreSeal_ok in Hpre as (Hp & Hl & Hk). split_and!; [by apply pins_prepared_one| |].
    + intros f Hf. apply Hl. rewrite !elem_of_cons in Hf. naive_solver.
    + intros raw Hr Hn. by rewrite (Hk raw Hr Hn).
  - apply speechPreSeal_ok in Hpre as (Hp & Hs & Hl & Hk & Hst). split_and!; [by apply pins_prepared_stream|exact Hl|exact Hk].
  - apply imagePreSeal_ok in Hpre as (Hp & Hl & Hk). split_and!; [by apply pins_prepared_one| |].
    + intros f Hf. apply Hl. rewrite !elem_of_cons in Hf. naive_solver.
    + intros raw Hr Hn. by rewrite (Hk raw Hr Hn).
Qed.

(** ** The fold, as a rearrangement of the whole conversation *)

Definition is_added (b : json) : bool := match added_tool b with Some _ => true | None => false end.

(** A block's definition with its name, when it adds a tool and has both. *)
Definition named_tool (b : json) : option (string * json) :=
  match added_tool b with
  | Some (Some d) => match unmarshal_def (Some d) with
                     | Ok name => if String.eqb name "" then None else Some (name, d)
                     | Err _ => None
                     end
  | _ => None
  end.

Definition nameable (b : json) : bool := negb (is_added b) || match named_tool b with Some _ => true | None => false end.

(** The blocks of a message whose content is a list of them. *)
Definition blocks_of (msg : option Request) : list json :=
  match nil_map msg !! fieldContent with
  | Some content => match unmarshal_raws content with Ok bs => bs | Err _ => [] end
  | None => []
  end.

Definition expressible (msg : option Request) : bool :=
  forallb nameable (blocks_of msg)
  && (bool_decide (blocks_of msg = []) || existsb (fun b => negb (is_added b)) (blocks_of msg)).

(** The message without the blocks that add tools; as it was when there are none. *)
Definition strip_msg (msg : option Request) : option Request :=
  if existsb is_added (blocks_of msg)
  then Some (<[fieldContent := JArr (map compact (List.filter (fun b => negb (is_added b)) (blocks_of msg)))]>
               (nil_map msg))
  else msg.

(** The definitions added by a conversation, in its order. *)
Definition added (msgs : list (option Request)) : list (string * json) :=
  omap named_tool (concat (map blocks_of msgs)).

(** Of these, the first of each name that is not taken. *)
Fixpoint fresh (names : gset string) (l : list (string * json)) : list json :=
  match l with
  | [] => []
  | (n, d) :: l => if bool_decide (n ∈ names) then fresh names l else d :: fresh ({[n]} ∪ names) l
  end.

(** The request with its added tools declared up front. *)
Definition folded (req : Request) : Request :=
  match req !! fieldMessages with
  | None => req
  | Some m =>
      match unmarshal_msgs m, unmarshal_raws (default JNull (req !! fieldTools)) with
      | Ok msgs, Ok tools =>
          if bytes_contains (print m) (quoted_name toolAddition)
             && negb (bytes_contains (print m) (quoted_name toolRemoval))
             && forallb expressible msgs && negb (bool_decide (added msgs = []))
          then <[fieldTools := JArr (map compact (tools ++ fresh (list_to_set (map lossy_name tools)) (added msgs)))]>
                 (<[fieldMessages := JArr (map json_of_msg (map strip_msg msgs))]> req)
          else req
      | _, _ => req
      end
  end.

(** What the fold carries after [l] was added. *)
Definition after (f : folding) (l : list (string * json)) : folding :=
  MkFolding (f_tools f ++ fresh (f_names f) l) (list_to_set l.*1 ∪ f_names f)
    (f_found f || negb (bool_decide (l = []))).

Lemma after_nil f : after f [] = f.
Proof. destruct f. unfold after. cbn. rewrite app_nil_r, orb_false_r. f_equal. set_solver. Qed.

Lemma after_cons f n d l :
  after f ((n, d) :: l)
  = after (if bool_decide (n ∈ f_names f) then MkFolding (f_tools f) (f_names f) true
           else MkFolding (f_tools f ++ [d]) ({[n]} ∪ f_names f) true) l.
Proof.
  unfold after. cbn [fresh fmap list_fmap f_tools f_names f_found].
  case_bool_decide as Hn; cbn [f_tools f_names f_found orb]; f_equal; rewrite ?orb_true_r; try done.
  - cbn. set_solver.
  - by rewrite <-app_assoc.
  - cbn. set_solver.
Qed.

Lemma after_app f l1 l2 : after f (l1 ++ l2) = after (after f l1) l2.
Proof.
  revert f. induction l1 as [|[n d] l1 IH]; intros f; [by rewrite after_nil|].
  rewrite <-app_comm_cons, !after_cons, IH. done.
Qed.

Lemma after_found f l : f_found (after f l) = f_found f || negb (bool_decide (l = [])).
Proof. done. Qed.

Lemma foldBlocks_after bs kept f :
  foldBlocks bs kept f
  = if forallb nameable bs
    then Some (kept ++ List.filter (fun b => negb (is_added b)) bs, after f (omap named_tool bs)) else None.
Proof.
  revert kept f. induction bs as [|b bs IH]; intros kept f; [by rewrite after_nil; cbn; rewrite app_nil_r|].
  cbn [foldBlocks forallb List.filter]. cbn [omap list_omap].
  unfold nameable at 1, is_added at 1 2, named_tool at 1 2. destruct (added_tool b) as [[d|]|]; cbn [negb orb].
  - destruct (unmarshal_def (Some d)) as [name|]; [|done]. destruct (String.eqb name ""); [done|].
    cbn [andb]. rewrite after_cons, <-IH. by case_bool_decide.
  - done.
  - rewrite IH. cbn [andb]. by rewrite <-app_assoc.
Qed.

Lemma filter_length {A} (p : A -> bool) l :
  Nat.eqb (length (List.filter (fun x => negb (p x)) l)) (length l) = negb (existsb p l).
Proof.
  assert (length (List.filter (fun x => negb (p x)) l) <= length l)%nat as Hle.
  { induction l as [|x l IH]; cbn; [lia|]. destruct (p x); cbn; lia. }
  induction l as [|x l IH]; [done|]. cbn in *. destruct (p x); cbn in *.
  - apply Nat.eqb_neq. assert (length (List.filter (fun x => negb (p x)) l) <= length l)%nat; [|lia].
    clear. induction l as [|x l IH]; cbn; [lia|]. destruct (p x); cbn; lia.
  - apply IH. lia.
Qed.

Lemma filter_nil {A} (p : A -> bool) l `{!Decision (List.filter p l = [])} :
  bool_decide (List.filter p l = []) = negb (existsb p l).
Proof.
  case_bool_decide as Hf.
  - symmetry. apply negb_true_iff. induction l as [|x l IH]; [done|]. cbn in *. destruct (p x); [done|].
    apply IH; [apply _|done].
  - symmetry. apply negb_false_iff. induction l as [|x l IH]; [done|]. cbn in *. destruct (p x); [done|].
    apply IH; [apply _|done].
Qed.

Lemma foldMessage_after msg f :
  foldMessage msg f
  = if expressible msg then Some (strip_msg msg, after f (omap named_tool (blocks_of msg))) else None.
Proof.
  unfold foldMessage, expressible, strip_msg, blocks_of.
  destruct (nil_map msg !! fieldContent) as [content|]; [|by rewrite after_nil].
  destruct (unmarshal_raws content) as [bs|]; [|by rewrite after_nil].
  rewrite foldBlocks_after, app_nil_l. destruct (forallb nameable bs); [|done]. cbn [andb].
  rewrite filter_nil, filter_length.
  destruct bs as [|b bs]; [done|]. cbn [negb]. rewrite (bool_decide_false (b :: bs = [])) by done. cbn [orb negb].
  rewrite andb_true_r. destruct (existsb (fun b => negb (is_added b)) (b :: bs)); [|done]. cbn [negb].
  by destruct (existsb is_added (b :: bs)).
Qed.

Lemma foldMessages_after msgs f :
  foldMessages msgs f
  = if forallb expressible msgs then Some (map strip_msg msgs, after f (added msgs)) else None.
Proof.
  revert f. induction msgs as [|msg msgs IH]; intros f; [unfold added; cbn; by rewrite after_nil|].
  cbn [foldMessages forallb]. rewrite foldMessage_after. destruct (expressible msg); [|done]. cbn [andb].
  rewrite IH. destruct (forallb expressible msgs); [|done]. unfold added. cbn [map].
  cbn [concat]. by rewrite omap_app, after_app.
Qed.

(** Folding rearranges the conversation and loses nothing. Preparing a messages
    request never fails, and comes to this: when the conversation adds tools and every
    block that does has a named definition and no message is emptied, the definitions
    are appended to [tools] in the order they were added, the first of each name that is
    not declared already, and just those blocks are dropped from the messages; otherwise
    the request is handed on as it was. *)
Theorem fold_rearranges req : anthropicPreSeal req = Ok (folded req).
Proof.
  unfold anthropicPreSeal, foldToolAdditions, folded. destruct (req !! fieldMessages) as [m|]; [|done].
  destruct (bytes_contains _ (quoted_name toolAddition)), (bytes_contains _ (quoted_name toolRemoval)); cbn [negb orb andb];
    destruct (unmarshal_msgs m) as [msgs|], (unmarshal_raws (default JNull (req !! fieldTools))) as [tools|]; try done.
  rewrite foldMessages_after. destruct (forallb expressible msgs); [|done]. cbn [andb].
  rewrite after_found. cbn [f_found orb]. by case_bool_decide.
Qed.

(** ** A form carries over whole *)

Definition file_part (p : form_part) : option (string * bytes) :=
  match p with
  | Part name filename (Some b) => if String.eqb name fieldFile then Some (filename, b) else None
  | _ => None
  end.

Definition value_part (key : string) (p : form_part) : option string :=
  match p with
  | Part name _ (Some b) =>
      if String.eqb name fieldFile then None
      else if String.eqb (cut_brackets name).1 key then Some (str_of b) else None
  | _ => None
  end.

(** Whether some part of this key was spelled with brackets. *)
Definition array_part (key : string) (p : form_part) : bool :=
  match p with
  | Part name _ (Some _) =>
      negb (String.eqb name fieldFile) && String.eqb (cut_brackets name).1 key && (cut_brackets name).2
  | _ => false
  end.

Definition form_value (key : string) (parts : list form_part) : option (list string * bool) :=
  match omap (value_part key) parts with
  | [] => None
  | vs => Some (vs, existsb (array_part key) parts)
  end.

(** How the request spells the values of a key: [stream] is typed when it can be. *)
Definition typed_value (key : string) (v : list string * bool) : json :=
  match v with
  | ([x], false) => if String.eqb key fieldStream
                    then match parse_bool (trim_space x) with Some b => JBool b | None => jstr x end
                    else jstr x
  | _ => encode_values v
  end.

(** What the reading loop holds after [parts]. *)
Record form_inv (parts : list form_part) (f : form) : Prop := {
  fi_values : forall key, fm_values f !! key = form_value key parts;
  fi_reserved : forall key, key ∈ [fieldFileBase64; fieldFilename; e2eeKey] -> form_value key parts = None;
  fi_file : match omap file_part parts with
            | [] => fm_req f = ∅ /\ fm_filename f = ""
            | [(name, b)] => fm_req f = {[fieldFileBase64 := jstr (str_of (b64_std b))]} /\ fm_filename f = name
            | _ => False
            end
}.

Lemma form_value_app key parts p :
  form_value key (parts ++ [p])
  = match form_value key parts, value_part key p with
    | None, None => None
    | Some (vs, arr), None => Some (vs, arr || array_part key p)
    | None, Some v => Some ([v], existsb (array_part key) parts || array_part key p)
    | Some (vs, arr), Some v => Some (vs ++ [v], arr || array_part key p)
    end.
Proof.
  unfold form_value. rewrite omap_app, existsb_app. cbn [existsb]. rewrite orb_false_r. cbn [omap list_omap].
  destruct (omap (value_part key) parts), (value_part key p); cbn; rewrite ?app_nil_r; done.
Qed.

Lemma value_part_none key p : value_part key p = None -> array_part key p = false.
Proof.
  destruct p as [name fn [b|]|]; try done. cbn. destruct (String.eqb name fieldFile); [done|].
  by destruct (String.eqb _ key).
Qed.

Lemma array_parts_none key parts : omap (value_part key) parts = [] -> existsb (array_part key) parts = false.
Proof.
  induction parts as [|p parts IH]; [done|]. cbn [omap list_omap existsb].
  destruct (value_part key p) eqn:E; [done|]. intros Hn. by rewrite (value_part_none _ _ E), IH.
Qed.

Lemma form_value_none key parts : form_value key parts = None -> existsb (array_part key) parts = false.
Proof. unfold form_value. intros Hn. apply array_parts_none. by destruct (omap _ parts). Qed.

Lemma form_value_skip key parts p : value_part key p = None -> form_value key (parts ++ [p]) = form_value key parts.
Proof.
  intros Hp. rewrite form_value_app, Hp, (value_part_none _ _ Hp).
  destruct (form_value key parts) as [[vs arr]|]; [by rewrite orb_false_r|done].
Qed.

Lemma speechFormNameAllowed_ok name key req :
  speechFormNameAllowed name key req = Ok tt ->
  name <> e2eeKey /\ key <> e2eeKey /\
  (name = fieldFile -> req !! fieldFileBase64 = None) /\
  (name <> fieldFile -> key ∉ [fieldFileBase64; fieldFilename; fieldFile]).
Proof.
  unfold speechFormNameAllowed. intros Ha. inv_ok.
  match goal with H : (_ || _) = false |- _ => apply orb_false_iff in H as [He1 He2] end.
  apply String.eqb_neq in He1, He2. split_and!; try done; intros Hf.
  - subst name. change (String.eqb fieldFile fieldFile) with true in Ha. cbn in Ha. inv_ok.
    by apply has_key_false.
  - apply String.eqb_neq in Hf. rewrite Hf in Ha. inv_ok. by apply contains_false.
Qed.

Lemma form_step_inv parts p f f' :
  form_inv parts f -> form_step p f = Ok f' -> form_inv (parts ++ [p]) f'.
Proof.
  intros [Hv Hr Hf] Hs. destruct p as [name filename body|]; [|done]. cbn [form_step] in Hs.
  destruct (cut_brackets name) as [key br] eqn:Hcut. inv_ok. subst body.
  rename x0 into b, H into Hok. apply speechFormNameAllowed_ok in Hok as (Hn & Hk & Hfile & Hres).
  destruct (String.eqb_spec name fieldFile) as [->|Hne].
  - injection Hs as <-. specialize (Hfile eq_refl).
    assert (forall k, form_value k (parts ++ [Part fieldFile filename (Some b)]) = form_value k parts) as Hskip
      by (intros k; by apply form_value_skip).
    split; cbn [fm_values fm_req fm_filename].
    + intros k. by rewrite Hskip.
    + intros k Hin. rewrite Hskip. by apply Hr.
    + rewrite omap_app. cbn. destruct (omap file_part parts) as [|[n' b'] [|? ?]]; [|destruct Hf as [Hf _]|done].
      * by destruct Hf as [-> _].
      * rewrite Hf, lookup_singleton_eq in Hfile. done.
  - specialize (Hres Hne). destruct (default _ _) as [vs arr] eqn:Hd. injection Hs as <-.
    assert (value_part key (Part name filename (Some b)) = Some (str_of b)) as Hvp.
    { cbn. rewrite Hcut. cbn. by rewrite (proj2 (String.eqb_neq _ _) Hne), String.eqb_refl. }
    assert (array_part key (Part name filename (Some b)) = br) as Hap.
    { cbn. rewrite Hcut. cbn. by rewrite (proj2 (String.eqb_neq _ _) Hne), String.eqb_refl. }
    assert (forall k, k <> key -> value_part k (Part name filename (Some b)) = None) as Hother.
    { intros k Hk'. cbn. rewrite Hcut. cbn. rewrite (proj2 (String.eqb_neq _ _) Hne).
      by rewrite (proj2 (String.eqb_neq key k)) by congruence. }
    split; cbn [fm_values fm_req fm_filename].
    + intros k. destruct (decide (k = key)) as [->|Hk'].
      * rewrite lookup_insert_eq, form_value_app, Hvp, Hap. rewrite Hv in Hd.
        destruct (form_value key parts) as [[vs' arr']|] eqn:Hfv; cbn in Hd; injection Hd as <- <-; [done|].
        by rewrite (form_value_none _ _ Hfv).
      * rewrite lookup_insert_ne, Hv by done. symmetry. apply form_value_skip. by apply Hother.
    + intros k Hin. rewrite form_value_skip; [by apply Hr|]. apply Hother. intros ->.
      rewrite !elem_of_cons in Hin, Hres. naive_solver.
    + rewrite omap_app. cbn. rewrite (proj2 (String.eqb_neq _ _) Hne). cbn. by rewrite app_nil_r.
Qed.

Lemma form_run_inv parts : forall pre f f', form_inv pre f -> form_run parts f = Ok f' -> form_inv (pre ++ parts) f'.
Proof.
  induction parts as [|p parts IH]; intros pre f f' Hi Hr; cbn in Hr; inv_ok.
  - subst. by rewrite app_nil_r.
  - replace (pre ++ p :: parts) with ((pre ++ [p]) ++ parts) by by rewrite <-app_assoc.
    eapply IH; [|exact Hr]. by eapply form_step_inv.
Qed.

Lemma typed_stream_lookup values req key :
  typed_stream values req !! key
  = match values !! key with
    | Some ([x], false) => if String.eqb key fieldStream
                           then match parse_bool (trim_space x) with Some b => Some (JBool b) | None => req !! key end
                           else req !! key
    | _ => req !! key
    end.
Proof.
  unfold typed_stream. destruct (String.eqb_spec key fieldStream) as [->|Hne].
  - destruct (values !! fieldStream) as [[[|x [|? ?]] [|]]|]; try done.
    destruct (parse_bool (trim_space x)); [by rewrite lookup_insert_eq|done].
  - destruct (values !! fieldStream) as [[[|x [|? ?]] [|]]|]; try destruct (parse_bool (trim_space x));
      rewrite ?lookup_insert_ne by done; by destruct (values !! key) as [[[|? [|? ?]] [|]]|].
Qed.

(** A converted form is the form that was sent. The request made of a multipart
    body has exactly one audio part, carried as its base64 beside its file name, and
    under every other name exactly the values of the parts of that name, in order: a
    string when one was sent plainly, an array when it was repeated or bracketed, a
    boolean for a [stream] that spells one. Nothing is dropped, merged or overwritten,
    and no part can pose as the envelope. *)
Theorem form_carried parts req :
  speechDecodeMultipart parts = Ok req ->
  exists filename audio, omap file_part parts = [(filename, audio)] /\
    req !! fieldFileBase64 = Some (jstr (str_of (b64_std audio))) /\
    req !! fieldFilename = (if String.eqb filename "" then None else Some (jstr filename)) /\
    req !! e2eeKey = None /\
    forall key, key ∉ [fieldFileBase64; fieldFilename] ->
      req !! key = typed_value key <$> form_value key parts.
Proof.
  unfold speechDecodeMultipart. intros Hd. inv_ok. subst req. rename x into f, H into Hr, H0 into Hk.
  apply (form_run_inv parts []) in Hr as [Hv Hres Hf];
    [|split; [done|done|cbn; done]]. cbn in *. apply negb_false_iff, has_key_true in Hk.
  destruct (omap file_part parts) as [|[filename audio] [|? ?]]; [|destruct Hf as [Hq Hn]|done].
  { destruct Hf as [Hq _]. rewrite Hq in Hk. by destruct Hk. }
  exists filename, audio. split; [done|].
  assert (forall key, ((encode_values <$> fm_values f) ∪ fm_req f) !! key
            = match form_value key parts with Some v => Some (encode_values v) | None => fm_req f !! key end) as Hu.
  { intros key. rewrite lookup_union, lookup_fmap, Hv. destruct (form_value key parts); [|by rewrite left_id_L by apply _].
    cbn. by destruct (fm_req f !! key). }
  set (base := if String.eqb _ "" then _ else _).
  assert (forall key, base !! key = if String.eqb key fieldFilename && negb (String.eqb filename "") then Some (jstr filename)
            else match form_value key parts with Some v => Some (encode_values v) | None => fm_req f !! key end) as Hb.
  { intros key. unfold base. rewrite Hn. destruct (String.eqb filename "") eqn:Hfn; cbn [negb]; rewrite ?andb_false_r, ?andb_true_r; [apply Hu|].
    destruct (String.eqb_spec key fieldFilename) as [->|Hne]; [by rewrite lookup_insert_eq|].
    rewrite lookup_insert_ne by done. apply Hu. }
  assert (forall key, key ∈ [fieldFileBase64; fieldFilename; e2eeKey] -> form_value key parts = None) as Hrk by exact Hres.
  rewrite !typed_stream_lookup, !Hb, !Hv, !Hq, !Hrk by (rewrite !elem_of_cons; auto). cbn -[form_value].
  split_and!; try done.
  - by destruct (String.eqb filename "").
  - intros key Hkey. rewrite !elem_of_cons in Hkey. rewrite typed_stream_lookup, Hb, Hv.
    rewrite (proj2 (String.eqb_neq key fieldFilename)) by naive_solver. cbn [andb].
    rewrite Hq, (lookup_insert_ne ∅) by naive_solver.
    destruct (form_value key parts) as [[[|x [|? ?]] [|]]|]; cbn; try done.
    destruct (String.eqb key fieldStream); [|done]. by destruct (parse_bool _).
Qed.

(** ** Examples *)

Lemma preSeal_prepares_witness :
  let req : Request := {[fieldPrompt := jstr "a cat"]} in
  let out : Request := <[fieldResponseFormat := jstr "b64_json"]> req in
  validatePinnedValues specImage out = Ok tt /\
  (forall f, f ∉ preSeal_fields Image -> out !! f = req !! f) /\
  (forall raw, req !! fieldResponseFormat = Some raw -> raw <> JNull -> out !! fieldResponseFormat = Some raw).
Proof.
  intros req out. destruct (preSeal_prepares Image req out specImage) as (_ & Hv & _ & Hf & Hk).
  - unfold All. rewrite !elem_of_cons. auto.
  - reflexivity.
  - vm_compute. reflexivity.
  - split_and!; [exact (Hv I)|exact Hf|exact Hk].
Defined.

Definition upload : list form_part :=
  [Part "model" "" (Some (bytes_of "whisper")); Part "file" "talk.mp3" (Some (bytes_of "ID3"));
   Part "timestamp_granularities[]" "" (Some (bytes_of "word")); Part "stream" "" (Some (bytes_of "0"))].

Definition uploaded : Request := ok_or ∅ (speechDecodeMultipart upload).

Lemma form_carried_witness :
  speechDecodeMultipart upload = Ok uploaded /\
  exists filename audio, omap file_part upload = [(filename, audio)] /\
    uploaded !! fieldFileBase64 = Some (jstr (str_of (b64_std audio))) /\
    uploaded !! fieldFilename = (if String.eqb filename "" then None else Some (jstr filename)) /\
    uploaded !! e2eeKey = None /\
    forall key, key ∉ [fieldFileBase64; fieldFilename] ->
      uploaded !! key = typed_value key <$> form_value key upload.
Proof.
  assert (speechDecodeMultipart upload = Ok uploaded) as Hd by (vm_compute; reflexivity).
  split; [exact Hd|]. apply (form_carried upload uploaded Hd).
Defined.

(** An added tool moves to the front of the request. *)
Definition added_block : json :=
  JObj [(bytes_of "type", jstr "tool_addition");
        (bytes_of "tool", JObj [(bytes_of "definition", JObj [(bytes_of "name", jstr "grep")])])].
Definition conversation : Request :=
  {[fieldMessages := JArr [JObj [(bytes_of "role", jstr "user");
                                 (bytes_of "content", JArr [added_block; JObj [(bytes_of "type", jstr "text")]])]]]}.

Example fold_moves_grep :
  (folded conversation) !! fieldTools = Some (JArr [JObj [(bytes_of "name", jstr "grep")]]) /\
  (folded conversation) !! fieldMessages
  = Some (JArr [JObj [(bytes_of "content", JArr [JObj [(bytes_of "type", jstr "text")]]);
                      (bytes_of "role", jstr "user")]]).
Proof. split; vm_compute; reflexivity. Qed.
