(* ===== verification/Preview.v ===== *)
(** * Preview: asking the router for candidates ([client/route/route.go])

    Each request is previewed at the untrusted router: [previewBody] is the request
    without the withheld fields (or with constant placeholders for those whose presence
    the router ranks on), [previewOnce] posts it and reads the ranked list, [preview]
    retries within a budget. What is outside (HTTP, waiting, the retry gate shared with
    other calls) is the interface [RouterOutside].

    The theorems: nothing withheld reaches the router, on any attempt; a preview ends
    within its budget plus one attempt, after at most three posts, and a definitive
    answer ends it at once; the candidates returned are the head of a list the router
    sent in answer to one of those posts. *)

From S2P Require Import Prelude GoBytes GoJson GoDecode GoJsonEq Profile Hpke Envelope GoHttp Walk RateLimit Endpoint.

Definition previewAttempts : nat := 3.
Definition previewRetryBackoff : Z := Second / 5.
Definition controlPlaneHeaderTimeout : Z := 30 * Second.
Definition previewAttemptTimeout : Z := controlPlaneHeaderTimeout.
Definition previewRetryBudget : Z := controlPlaneHeaderTimeout.
Definition maxPreviewCandidates : nat := 8.
Definition maxControlBodyBytes : Z := 1048576.
Definition previewPath : string := "/v1/routing/preview".
Definition providersPath : string := "/v1/providers".
Definition DefaultRouterURL : string := "https://router-api.0g.ai".
Definition StatusServiceUnavailable : Z := 503.

(** ** The router's configuration *)

Record Router := MkRouter {
  r_base : string;
  r_previewURL : string;
  r_providersURL : string;
  r_extraSensitiveFields : gset string;
  r_previewAttemptTO : Z;
  r_previewBudgetTO : Z
}.

Definition RouterOption : Type := Router -> Router.
Definition WithSensitiveFields (fields : list string) : RouterOption :=
  fun r => MkRouter (r_base r) (r_previewURL r) (r_providersURL r)
             (list_to_set fields ∪ r_extraSensitiveFields r) (r_previewAttemptTO r) (r_previewBudgetTO r).

(** [strings.TrimRight(s, "/")]. *)
Fixpoint trim_slashes (l : bytes) : bytes :=
  match l with
  | [] => []
  | c :: l => match trim_slashes l with
              | [] => if Ascii.eqb c "/" then [] else [c]
              | l' => c :: l'
              end
  end.

Definition newRouter (routerURL : string) (opts : list RouterOption) : Router :=
  let base := str_of (trim_slashes (bytes_of (if String.eqb routerURL "" then DefaultRouterURL else routerURL))) in
  fold_left (fun r o => o r) opts
    (MkRouter base (base +:+ previewPath) (base +:+ providersPath) ∅ previewAttemptTimeout previewRetryBudget).

Definition attemptTimeout (r : Router) : Z :=
  if 0 <? r_previewAttemptTO r then r_previewAttemptTO r else previewAttemptTimeout.
Definition retryBudget (r : Router) : Z :=
  if 0 <? r_previewBudgetTO r then r_previewBudgetTO r else previewRetryBudget.

Definition upstream (status : Z) (err : cerr) : cerr := EStage StageUpstream status err [] ∅.
Definition upstreamBody (status : Z) (body : bytes) (err : cerr) : cerr := EStage StageUpstream status err body ∅.

Definition upstreamURL (r : Router) (ep : Endpoint) : cresult string :=
  if String.eqb (ep_UpstreamPath ep) "" then Err (EMsg "endpoint row has no sealed upstream path")
  else Ok (r_base r +:+ ep_UpstreamPath ep).

(** ** What the router is shown of a request *)

(** The fields of every profile's default sealed set. *)
Definition everyProfilesPayloadFields : list string :=
  fold_left (fun out f => if contains out f then out else out ++ [f])
    (concat (map DefaultSealedFieldsFor Profiles)) [].

Definition sensitiveFieldsFor (ep : Endpoint) : list string :=
  match DefaultSealedFieldsFor (ep_Profile ep) with
  | [] => everyProfilesPayloadFields
  | fields => fields
  end.

Definition withheldFor (r : Router) (ep : Endpoint) : gset string :=
  list_to_set (sensitiveFieldsFor ep) ∪ r_extraSensitiveFields r.

(** [json.Unmarshal] into an [any] accepts the value: every number fits a float64. *)
Fixpoint any_ok (j : json) : bool :=
  match j with
  | JNum lit => match f64_of_lit lit with Some _ => true | None => false end
  | JArr l => forallb any_ok l
  | JObj l => forallb (fun kv => any_ok kv.2) l
  | _ => true
  end.

Definition presentAndNotNull (raw : json) : bool := any_ok raw && negb (JSON_null raw).

Definition nonEmptyJSONArray (raw : json) : bool :=
  any_ok raw &&
  match raw with
  | JNull => false
  | JArr l => negb (bool_decide (l = []))
  | _ => true
  end.

Record previewCapabilitySignal := MkSignal {
  sg_detected : json -> bool;
  sg_placeholder : gmap string json
}.

Definition jobject (l : list (string * json)) : json := JObj (map (fun kv => (bytes_of kv.1, kv.2)) l).

Definition previewCapabilitySignals : gmap string previewCapabilitySignal :=
  list_to_map
    [("tools", MkSignal nonEmptyJSONArray
       (list_to_map
          [(ProfileChat, JArr [jobject [("type", jstr "function"); ("function", jobject [("name", jstr "_")])]]);
           (ProfileAnthropic, JArr [jobject [("name", jstr "_"); ("input_schema", jobject [("type", jstr "object")])]])]));
     ("tool_choice", MkSignal presentAndNotNull
       (list_to_map
          [(ProfileChat, jstr "auto");
           (ProfileAnthropic, jobject [("type", jstr "auto")])]))].

Definition capabilitySignalFor (profile : Profile) (field : string) (raw : json) : option json :=
  match previewCapabilitySignals !! field with
  | Some sig => if sg_detected sig raw then sg_placeholder sig !! profile else None
  | None => None
  end.

(** The fields of the preview, before it is spelled. *)
Definition shown (r : Router) (ep : Endpoint) (req : Request) : gmap string json :=
  map_imap (fun k v => if bool_decide (k ∈ withheldFor r ep)
                       then capabilitySignalFor (ep_Profile ep) k v else Some v) req.

Definition previewPayload (r : Router) (ep : Endpoint) (req : Request) : gmap string json :=
  let payload := <["service_type" := jstr (ep_ServiceType ep)]> (shown r ep req) in
  if String.eqb (ep_APIFormat ep) "" then delete "api_format" payload
  else <["api_format" := jstr (ep_APIFormat ep)]> payload.

Definition previewBody (r : Router) (ep : Endpoint) (req : Request) : bytes :=
  marshal_map (previewPayload r ep req).

(** ** The reply *)

Record previewProvider := MkPP {
  pp_Address : string;
  pp_ProviderIdentity : option string;
  pp_CanonicalID : string;
  pp_Endpoint : string;
  pp_ModelID : string
}.
Definition zeroPP : previewProvider := MkPP "" None "" "" "".

Definition previewProvider_fields : list (string * (previewProvider -> json -> result jerr previewProvider)) :=
  [("address", fun p j => s ← set_string (pp_Address p) j;
      Ok (MkPP s (pp_ProviderIdentity p) (pp_CanonicalID p) (pp_Endpoint p) (pp_ModelID p)));
   ("provider_identity", fun p j =>
      id ← match j with
           | JNull => Ok None
           | _ => s ← set_string (default "" (pp_ProviderIdentity p)) j; Ok (Some s)
           end;
      Ok (MkPP (pp_Address p) id (pp_CanonicalID p) (pp_Endpoint p) (pp_ModelID p)));
   ("canonical_id", fun p j => s ← set_string (pp_CanonicalID p) j;
      Ok (MkPP (pp_Address p) (pp_ProviderIdentity p) s (pp_Endpoint p) (pp_ModelID p)));
   ("endpoint", fun p j => s ← set_string (pp_Endpoint p) j;
      Ok (MkPP (pp_Address p) (pp_ProviderIdentity p) (pp_CanonicalID p) s (pp_ModelID p)));
   ("model_id", fun p j => s ← set_string (pp_ModelID p) j;
      Ok (MkPP (pp_Address p) (pp_ProviderIdentity p) (pp_CanonicalID p) (pp_Endpoint p) s))].

(** The elements are decoded into the slots a previous [providers] member left. *)
Fixpoint set_providers (old : list previewProvider) (l : list json) : result jerr (list previewProvider) :=
  match l with
  | [] => Ok []
  | x :: l =>
      p ← unmarshal_struct previewProvider_fields (match old with o :: _ => o | [] => zeroPP end) x;
      ps ← set_providers (tl old) l;
      Ok (p :: ps)
  end.

(** [pr_slots] holds the whole backing array, [pr_len] of it in the slice. *)
Record previewResponse := MkPR {
  pr_Object : string;
  pr_ServiceType : string;
  pr_slots : list previewProvider;
  pr_len : nat
}.

Definition previewResponse_fields : list (string * (previewResponse -> json -> result jerr previewResponse)) :=
  [("object", fun p j => s ← set_string (pr_Object p) j; Ok (MkPR s (pr_ServiceType p) (pr_slots p) (pr_len p)));
   ("service_type", fun p j => s ← set_string (pr_ServiceType p) j; Ok (MkPR (pr_Object p) s (pr_slots p) (pr_len p)));
   ("providers", fun p j =>
      match j with
      | JNull | JArr [] => Ok (MkPR (pr_Object p) (pr_ServiceType p) [] 0)
      | JArr l => ps ← set_providers (pr_slots p) l;
                  Ok (MkPR (pr_Object p) (pr_ServiceType p) (ps ++ drop (length l) (pr_slots p)) (length l))
      | _ => Err JType
      end)].

Definition unmarshal_preview (raw : bytes) : result jerr (list previewProvider) :=
  pr ← unmarshal (unmarshal_struct previewResponse_fields (MkPR "" "" [] 0)) raw;
  Ok (take (pr_len pr) (pr_slots pr)).

(** ** One attempt *)

Inductive previewResult :=
| previewOK | previewRetryable | previewRejected | previewBroken | previewCanceled | previewInternal.

#[export] Instance previewResult_eq_dec : EqDecision previewResult.
Proof. solve_decision. Defined.

Definition callOutcome (r : previewResult) : string :=
  match r with
  | previewRejected => "rejected"
  | previewCanceled => "canceled"
  | previewInternal => "internal"
  | _ => "failed"
  end.

Definition previewStatusResult (status : Z) : previewResult :=
  if (500 <=? status) && (status <=? 599) then previewRetryable else previewRejected.

Definition modelDesc (req : Request) : string :=
  match req !! "model" with
  | None => "the requested service type"
  | Some raw => match unmarshal_string raw with
                | Ok model => if String.eqb model "" then "the requested service type" else model
                | Err _ => "the requested service type"
                end
  end.

(** What a preview does that others see. *)
Inductive revent :=
| EvPreviewPost (req : HttpRequest)
| EvPreviewAttempt (res : previewResult)
| EvPreviewRetrySuppressed (n : nat)
| EvPreviewCall (outcome : string) (dur : Z).

(** Outside: whether a URL makes a request, sending one under a deadline, reading its
    body, waiting ([false] when the caller went first), and the retry gate, which other
    calls change too. *)
Class RouterOutside (W : Type) := {
  url_ok : string -> bool;
  rt_do : Z -> HttpRequest -> W -> cresult (HttpResponse cerr) * W;
  rt_read : Z -> HttpResponse cerr -> W -> W;
  pause : Z -> W -> bool * W;
  rt_gate : W -> retryGate;
  set_gate : retryGate -> W -> W
}.

Record rstate (W : Type) := MkR { rs_world : W; rs_log : list revent }.
Arguments MkR {W} _ _.
Arguments rs_world {W} _.
Arguments rs_log {W} _.

Definition previewHeader (forward : Header) (credential : string) : Header :=
  let h := header_set "Content-Type" "application/json" ∅ in
  let h := fold_left (fun h kv => fold_left (fun h v => header_add kv.1 v h) kv.2 h) (map_to_list forward) h in
  if String.eqb credential "" then h else header_set "Authorization" credential h.

(** How an attempt ends. *)
Inductive previewed := Ranked (l : list previewProvider) | Unranked (res : previewResult) (err : cerr).

Section preview.
Context {W : Type} `{World W} `{RouterOutside W}.
Context (r : Router) (forward : Header) (credential : string).

Definition rlog (e : revent) (s : rstate W) : rstate W := MkR (rs_world s) (rs_log s ++ [e]).
Definition rworld (f : W -> W) (s : rstate W) : rstate W := MkR (f (rs_world s)) (rs_log s).

(** What is made of a reply. *)
Definition previewReply (req : Request) (resp : HttpResponse cerr) : previewed :=
  match read_all_limited maxControlBodyBytes resp with
  | Err err => Unranked previewRetryable (upstream 0 (EWrap "read route preview response" err))
  | Ok raw =>
      if negb (hs_Status resp =? StatusOK) then
        Unranked (previewStatusResult (hs_Status resp))
          (upstreamBody (hs_Status resp) raw (EMsg "route preview returned an error status"))
      else match unmarshal_preview raw with
           | Err e => Unranked previewBroken (upstream 0 (EWrap "decode route preview response" (EJson e)))
           | Ok [] => Unranked previewRejected (upstream StatusServiceUnavailable
                        (EWrap "no provider available" (EMsg (modelDesc req))))
           | Ok l => Ranked (take maxPreviewCandidates l)
           end
  end.

Definition previewOnce (body : bytes) (req : Request) (s : rstate W) : previewed * rstate W :=
  let deadline := now (rs_world s) + attemptTimeout r in
  if negb (url_ok (r_previewURL r)) then (Unranked previewInternal (upstream 0 (EMsg "bad preview URL")), s)
  else
    let hreq := MkHttpRequest (r_previewURL r) (previewHeader forward credential) body in
    let s := rlog (EvPreviewPost hreq) s in
    match rt_do deadline hreq (rs_world s) with
    | (Err err, w) => (Unranked previewRetryable (upstream 0 (EWrap "route preview request" err)), MkR w (rs_log s))
    | (Ok resp, w) => (previewReply req resp, MkR (rt_read deadline resp w) (rs_log s))
    end.

(** ** The retries *)

(** Leaving the loop with nothing but retryable failures. *)
Definition gaveUp (lastErr : cerr) (s : rstate W) : (string * cresult (list previewProvider)) * rstate W :=
  let s := rworld (fun w => set_gate (rg_noAnswer (rt_gate w) (now w)) w) s in
  (("failed", Err lastErr), s).

(** The attempt numbered [attempt], and what follows it. *)
Definition previewAttempt (body : bytes) (req : Request) (attempt : nat)
    (again : cerr -> rstate W -> (string * cresult (list previewProvider)) * rstate W) (s : rstate W)
    : (string * cresult (list previewProvider)) * rstate W :=
  match previewOnce body req s with
  | (Ranked l, s) =>
      let s := rlog (EvPreviewAttempt previewOK) s in
      let s := rworld (fun w => set_gate (rg_answered (rt_gate w)) w) s in
      ((if Nat.ltb 0 attempt then "ok_retried" else "ok", Ok l), s)
  | (Unranked res err, s) =>
      let res := if bool_decide (res = previewRetryable) && canceledBy (rs_world s) then previewCanceled else res in
      let s := rlog (EvPreviewAttempt res) s in
      if bool_decide (res = previewRetryable) then again err s else ((callOutcome res, Err err), s)
  end.

(** Attempts from the second on: [todo] are left, the pause before the next is [backoff]. *)
Fixpoint previewRetries (body : bytes) (req : Request) (start : Z) (todo attempt : nat) (backoff : Z)
    (lastErr : cerr) (s : rstate W) : (string * cresult (list previewProvider)) * rstate W :=
  match todo with
  | O => gaveUp lastErr s
  | S todo =>
      if retryBudget r <=? now (rs_world s) - start + backoff then gaveUp lastErr s
      else if negb (rg_allow (rt_gate (rs_world s)) (now (rs_world s))) then
        gaveUp lastErr (rlog (EvPreviewRetrySuppressed (previewAttempts - attempt)) s)
      else match pause backoff (rs_world s) with
           | (false, w) => (("canceled", Err (upstream 0 (EWrap "route preview" lastErr))), MkR w (rs_log s))
           | (true, w) =>
               previewAttempt body req attempt
                 (previewRetries body req start todo (S attempt) (backoff * 2)) (MkR w (rs_log s))
           end
  end.

Definition preview (ep : Endpoint) (req : Request) (s : rstate W) : cresult (list previewProvider) * rstate W :=
  let start := now (rs_world s) in
  let body := previewBody r ep req in
  let '((outcome, res), s) :=
    previewAttempt body req 0 (previewRetries body req start (previewAttempts - 1) 1 previewRetryBackoff) s in
  (res, rlog (EvPreviewCall outcome (now (rs_world s) - start)) s).
End preview.

(** ** What is withheld *)

Lemma dedup_elem (l : list string) f out :
  f ∈ fold_left (fun out f => if contains out f then out else out ++ [f]) l out <-> f ∈ out \/ f ∈ l.
Proof.
  revert out. induction l as [|x l IH]; intros out; cbn [fold_left]; [rewrite elem_of_nil; naive_solver|].
  rewrite IH, elem_of_cons. destruct (contains out x) eqn:Hc.
  - apply contains_spec in Hc. naive_solver.
  - rewrite elem_of_app, list_elem_of_singleton. naive_solver.
Qed.

Lemma everyProfilesPayloadFields_elem p s f :
  spec p = Ok s -> f ∈ defaultRequestSealed s -> f ∈ everyProfilesPayloadFields.
Proof.
  intros Hs Hf. apply dedup_elem. right. apply list_elem_of_In, in_concat.
  exists (DefaultSealedFieldsFor p). split; [|by unfold DefaultSealedFieldsFor; rewrite Hs; apply list_elem_of_In].
  apply in_map, list_elem_of_In. unfold Profiles. apply list_elem_of_fmap. exists (p, s). split; [done|].
  apply elem_of_entries. unfold spec in Hs. by inv_ok.
Qed.

Lemma sealed_not_nil p s : spec p = Ok s -> defaultRequestSealed s <> [].
Proof.
  unfold spec. intros Hs. inv_ok.
  assert (map_Forall (fun _ s => defaultRequestSealed s <> []) profiles) as Hall;
    [|by apply (Hall p s)].
  refine (bool_decide_eq_true_1 _ _). vm_compute. reflexivity.
Qed.

(** What a surface's request keeps secret is withheld; all of every profile's, for a
    profile the protocol does not know. *)
Lemma withheld_payload r ep p s f :
  (ep_Profile ep = p \/ spec (ep_Profile ep) = Err (EUnknownProfile (ep_Profile ep))) ->
  spec p = Ok s -> f ∈ defaultRequestSealed s -> f ∈ withheldFor r ep.
Proof.
  intros Hp Hs Hf. unfold withheldFor. apply elem_of_union_l, elem_of_list_to_set. unfold sensitiveFieldsFor.
  destruct (DefaultSealedFieldsFor (ep_Profile ep)) as [|x l] eqn:E; [by eapply everyProfilesPayloadFields_elem|].
  destruct Hp as [Hp|Hp]; unfold DefaultSealedFieldsFor in E; [|by rewrite Hp in E].
  rewrite Hp, Hs in E. by rewrite <-E.
Qed.

(** Whether the router is told that a field is there. *)
Definition routing_bit (req : Request) (f : string) : bool :=
  match previewCapabilitySignals !! f, req !! f with
  | Some sig, Some raw => sg_detected sig raw
  | _, _ => false
  end.

Lemma signal_fields f sig : previewCapabilitySignals !! f = Some sig -> f ∈ ["tools"; "tool_choice"].
Proof.
  intros Hs%elem_of_list_to_map_2. rewrite !elem_of_cons in Hs. rewrite !elem_of_cons.
  destruct Hs as [Hs|[Hs|Hs]]; [injection Hs as -> _; auto..|by apply elem_of_nil in Hs].
Qed.

Lemma signal_bit p f (req : Request) :
  (req !! f) ≫= capabilitySignalFor p f
  = if routing_bit req f then match previewCapabilitySignals !! f with
                              | Some sig => sg_placeholder sig !! p | None => None end
    else None.
Proof.
  unfold capabilitySignalFor, routing_bit. destruct (req !! f) as [raw|]; [cbn [mbind option_bind]|].
  - destruct (previewCapabilitySignals !! f) as [sg|]; [by destruct (sg_detected sg raw)|done].
  - by destruct (previewCapabilitySignals !! f).
Qed.

Lemma previewPayload_withheld r ep req req' :
  (forall f, f ∉ withheldFor r ep -> req !! f = req' !! f) ->
  (forall f, f ∈ ["tools"; "tool_choice"] -> routing_bit req f = routing_bit req' f) ->
  previewPayload r ep req = previewPayload r ep req'.
Proof.
  intros Hl Hb. assert (shown r ep req = shown r ep req') as E; [|unfold previewPayload; by rewrite E].
  apply map_eq. intros f. unfold shown. rewrite !map_lookup_imap. case_bool_decide as Hf; [|by rewrite Hl].
  rewrite !signal_bit. destruct (previewCapabilitySignals !! f) as [sg|] eqn:Hs.
  - by rewrite (Hb f) by (by eapply signal_fields).
  - by destruct (routing_bit req f), (routing_bit req' f).
Qed.

(** ** One preview *)

Section runs.
Context {W : Type} `{World W} `{RouterOutside W}.
Context (r : Router) (forward : Header) (credential : string).
Abbreviation once := (previewOnce r forward credential).
Abbreviation attempt_at := (previewAttempt r forward credential).
Abbreviation retries := (previewRetries r forward credential).
Abbreviation presultw := ((string * cresult (list previewProvider)) * rstate W)%type.

(** Two runs that only differ in what they tell their caller of an error. *)
Definition alike (x y : presultw) : Prop := x.1.1 = y.1.1 /\ x.2 = y.2.

Lemma previewReply_alike req req' resp :
  match previewReply req resp, previewReply req' resp with
  | Ranked l, Ranked l' => l = l'
  | Unranked res _, Unranked res' _ => res = res'
  | _, _ => False
  end.
Proof.
  unfold previewReply. destruct (read_all_limited _ resp); [|done]. destruct (negb _); [done|].
  destruct (unmarshal_preview _) as [[|? ?]|]; done.
Qed.

Lemma previewAttempt_alike body req req' n again again' s :
  (forall e e' s, alike (again e s) (again' e' s)) ->
  alike (attempt_at body req n again s) (attempt_at body req' n again' s).
Proof.
  intros Ha. unfold previewAttempt, previewOnce. destruct (negb (url_ok _)); [done|].
  destruct (rt_do _ _ _) as [[resp|e] w].
  2:{ rewrite (bool_decide_true (previewRetryable = previewRetryable)) by done. cbn [andb rs_world].
      destruct (canceledBy w); case_bool_decide; first [done | apply Ha]. }
  pose proof (previewReply_alike req req' resp) as Hr.
  destruct (previewReply req resp) as [l|res err], (previewReply req' resp) as [l'|res' err']; try done; subst; try done.
  set (res := if _ && _ then _ else _). case_bool_decide; [apply Ha|done].
Qed.

Lemma previewRetries_alike body req req' start todo : forall n backoff e e' s,
  alike (retries body req start todo n backoff e s) (retries body req' start todo n backoff e' s).
Proof.
  induction todo as [|todo IH]; intros n backoff e e' s; cbn [previewRetries]; [done|].
  destruct (_ <=? _); [done|]. destruct (negb _); [done|]. destruct (pause _ _) as [[|] w]; [|done].
  apply previewAttempt_alike. intros. apply IH.
Qed.

(** The attempts a log shows, and the requests it shows posted. *)
Definition attempts (l : list revent) : list previewResult :=
  omap (fun e => match e with EvPreviewAttempt res => Some res | _ => None end) l.
Definition posts (l : list revent) : list HttpRequest :=
  omap (fun e => match e with EvPreviewPost q => Some q | _ => None end) l.

(** The log grew by [l]. *)
Definition logged (s : rstate W) (l : list revent) (s' : rstate W) : Prop := rs_log s' = rs_log s ++ l.

(** ** What a run comes to *)

Definition previewRequest (body : bytes) : HttpRequest :=
  MkHttpRequest (r_previewURL r) (previewHeader forward credential) body.

(** The candidates are the head of a list sent in answer to the preview. *)
Definition answered (body : bytes) (l : list previewProvider) : Prop :=
  exists deadline w resp w' raw full,
    rt_do deadline (previewRequest body) w = (Ok resp, w') /\ hs_Status resp = StatusOK /\
    read_all_limited maxControlBodyBytes resp = Ok raw /\ unmarshal_preview raw = Ok full /\
    l = take maxPreviewCandidates full /\ full <> [].

(** A run from its [n]-th attempt, with [todo] allowed: its attempts are retryable
    failures up to the last, each posted the preview, and the result is the last's. *)
Record run_ok (body : bytes) (todo : nat) (s : rstate W) (x : presultw) : Prop := {
  ro_log : exists l k ress, logged s l x.2 /\ (length ress <= 1)%nat /\ (k + length ress <= todo)%nat /\
    attempts l = repeat previewRetryable k ++ ress /\ Forall (fun q => q = previewRequest body) (posts l) /\
    (length (posts l) <= k + length ress)%nat;
  ro_ok : forall ps, x.1.2 = Ok ps -> answered body ps
}.

Lemma previewReply_ranked body req deadline w resp w' l :
  rt_do deadline (previewRequest body) w = (Ok resp, w') -> previewReply req resp = Ranked l -> answered body l.
Proof.
  intros Hd. unfold previewReply. destruct (read_all_limited _ resp) as [raw|] eqn:Hr; [|done].
  destruct (hs_Status resp =? StatusOK) eqn:Hst; cbn [negb]; [|done]. apply Z.eqb_eq in Hst.
  destruct (unmarshal_preview raw) as [[|p full]|] eqn:Hu; try done. intros Hp. injection Hp as <-.
  by exists deadline, w, resp, w', raw, (p :: full).
Qed.

Lemma run_ok_end body todo s x :
  rs_log x.2 = rs_log s -> (forall ps, x.1.2 = Ok ps -> answered body ps) -> run_ok body todo s x.
Proof.
  intros Hl Ho. split; [|exact Ho]. exists [], 0%nat, []. unfold logged. rewrite Hl, app_nil_r.
  split_and!; try done; cbn; lia.
Qed.

(** One more attempt, whose events [evs] came before what follows it. *)
Lemma run_ok_after body todo s s' x evs :
  logged s evs s' -> run_ok body todo s' x -> attempts evs = [previewRetryable] ->
  Forall (fun q => q = previewRequest body) (posts evs) -> (length (posts evs) <= 1)%nat ->
  run_ok body (S todo) s x.
Proof.
  intros Hs [(l & k & ress & Hl & H1 & H2 & Ha & Hp & Hn) Ho] Hev Hpev Hlev. split; [|exact Ho].
  exists (evs ++ l), (S k), ress. unfold logged in *. unfold attempts, posts in *.
  rewrite Hl, Hs, !omap_app, Ha, Hev, <-app_assoc, length_app. split_and!; try done; try lia. by apply Forall_app.
Qed.

Lemma run_ok_last body todo s x evs res :
  logged s evs x.2 -> attempts evs = [res] -> Forall (fun q => q = previewRequest body) (posts evs) ->
  (length (posts evs) <= 1)%nat -> (forall ps, x.1.2 = Ok ps -> answered body ps) -> run_ok body (S todo) s x.
Proof.
  intros Hs Ha Hp Hn Ho. split; [|exact Ho]. exists evs, 0%nat, [res]. cbn. split_and!; try done; lia.
Qed.

Lemma previewAttempt_ok body req todo n again s :
  (forall e s, run_ok body todo s (again e s)) -> run_ok body (S todo) s (attempt_at body req n again s).
Proof.
  intros Hag. unfold previewAttempt, previewOnce. destruct (negb (url_ok _)).
  { apply (run_ok_last _ _ _ _ [EvPreviewAttempt previewInternal] previewInternal); by repeat constructor. }
  fold (previewRequest body). destruct (rt_do _ _ _) as [[resp|e] w] eqn:Hdo.
  2:{ rewrite (bool_decide_true (previewRetryable = previewRetryable)) by done. cbn [andb rs_world].
      destruct (canceledBy w); case_bool_decide; try done.
      - by apply (run_ok_last _ _ _ _ [EvPreviewPost (previewRequest body); EvPreviewAttempt previewCanceled] previewCanceled);
          [unfold logged; cbn; by rewrite <-app_assoc|repeat constructor..|].
      - eapply (run_ok_after _ _ _ _ _ [EvPreviewPost (previewRequest body); EvPreviewAttempt previewRetryable]);
          [|apply Hag|repeat constructor..]. unfold logged. cbn. by rewrite <-app_assoc. }
  destruct (previewReply req resp) as [l|res err] eqn:Hrep.
  { apply (run_ok_last _ _ _ _ [EvPreviewPost (previewRequest body); EvPreviewAttempt previewOK] previewOK);
      [unfold logged; cbn; by rewrite <-app_assoc|by repeat constructor..|].
    cbn. intros ps Hps. injection Hps as <-. by eapply previewReply_ranked. }
  set (res' := if _ && _ then _ else _). case_bool_decide as Hr.
  - eapply (run_ok_after _ _ _ _ _ [EvPreviewPost (previewRequest body); EvPreviewAttempt res']);
      [|apply Hag|by rewrite Hr|repeat constructor..]. unfold logged. cbn. by rewrite <-app_assoc.
  - by apply (run_ok_last _ _ _ _ [EvPreviewPost (previewRequest body); EvPreviewAttempt res'] res');
      [unfold logged; cbn; rewrite <-app_assoc|repeat constructor..|].
Qed.

Lemma run_ok_quiet body todo s s' x e :
  rs_log s' = rs_log s ++ [e] -> attempts [e] = [] -> posts [e] = [] -> run_ok body todo s' x -> run_ok body todo s x.
Proof.
  intros Hs Ha0 Hp0 [(l & k & ress & Hl & H1 & H2 & Ha & Hp & Hn) Ho]. split; [|exact Ho].
  exists (e :: l), k, ress. unfold logged, attempts, posts in *. rewrite Hl, Hs, <-app_assoc.
  change (e :: l) with ([e] ++ l). rewrite !omap_app, Ha0, Hp0. done.
Qed.

Lemma run_ok_log s s' body todo x : rs_log s = rs_log s' -> run_ok body todo s x -> run_ok body todo s' x.
Proof. intros He [(l & Hl) Ho]. split; [|exact Ho]. exists l. unfold logged in *. by rewrite <-He. Qed.

Lemma previewRetries_ok body req start todo : forall n backoff e s,
  run_ok body todo s (retries body req start todo n backoff e s).
Proof.
  induction todo as [|todo IH]; intros n backoff e s; cbn [previewRetries]; [by apply run_ok_end|].
  destruct (_ <=? _); [by apply run_ok_end|]. destruct (negb _).
  { eapply (run_ok_quiet _ _ _ (rlog (EvPreviewRetrySuppressed (previewAttempts - n)) s)); [done..|].
    by apply run_ok_end. }
  destruct (pause _ _) as [[|] w]; [|by apply run_ok_end].
  apply (run_ok_log (MkR w (rs_log s))); [done|]. apply (previewAttempt_ok _ _ todo). intros. apply IH.
Qed.

(** ** Time *)

(** The clock of what is outside: a request sent or read under a deadline ends by it, a
    pause is not longer than asked, and setting the gate takes no time. *)
Class RouterTiming := {
  rt_do_time : forall d q w, now w <= now (rt_do d q w).2 <= Z.max (now w) d;
  rt_read_time : forall d q w, now w <= now (rt_read d q w) <= Z.max (now w) d;
  pause_time : forall d w, 0 <= d -> now w <= now (pause d w).2 <= now w + d;
  set_gate_time : forall g w, now (set_gate g w) = now w
}.
Context `{!RouterTiming}.

Definition ends_by (t : Z) (x : presultw) : Prop := now (rs_world x.2) <= t.

Lemma attemptTimeout_pos : 0 < attemptTimeout r.
Proof. unfold attemptTimeout. destruct (Z.ltb_spec 0 (r_previewAttemptTO r)); [done|]. by vm_compute. Qed.
Lemma retryBudget_pos : 0 < retryBudget r.
Proof. unfold retryBudget. destruct (Z.ltb_spec 0 (r_previewBudgetTO r)); [done|]. by vm_compute. Qed.

Lemma previewOnce_time body req s :
  now (rs_world s) <= now (rs_world (once body req s).2) <= now (rs_world s) + attemptTimeout r.
Proof.
  pose proof attemptTimeout_pos. unfold previewOnce. destruct (negb (url_ok _)); [cbn; lia|].
  cbn [rs_world rlog]. fold (previewRequest body). set (d := now (rs_world s) + attemptTimeout r).
  pose proof (rt_do_time d (previewRequest body) (rs_world s)) as Ht.
  destruct (rt_do d (previewRequest body) (rs_world s)) as [[resp|e] w]; cbn in *; [|lia].
  pose proof (rt_read_time d resp w). lia.
Qed.

Lemma gaveUp_time t e s : now (rs_world s) <= t -> ends_by t (gaveUp e s).
Proof. intros Ht. unfold ends_by, gaveUp. cbn. by rewrite set_gate_time. Qed.

Lemma previewAttempt_time t body req n again s :
  now (rs_world s) + attemptTimeout r <= t ->
  (forall e s', now (rs_world s') <= now (rs_world s) + attemptTimeout r -> ends_by t (again e s')) ->
  ends_by t (attempt_at body req n again s).
Proof.
  intros Ht Ha. unfold previewAttempt. pose proof (previewOnce_time body req s) as Ho.
  destruct (once body req s) as [[l|res err] s']; cbn [snd] in Ho.
  - unfold ends_by. cbn. rewrite set_gate_time. lia.
  - set (res' := if _ && _ then _ else _). case_bool_decide; [apply Ha; cbn; lia|]. unfold ends_by. cbn. lia.
Qed.

(** A retry starts within the budget. *)
Lemma previewRetries_time body req start todo : forall n backoff e s,
  0 <= backoff -> now (rs_world s) <= start + retryBudget r + attemptTimeout r ->
  ends_by (start + retryBudget r + attemptTimeout r) (retries body req start todo n backoff e s).
Proof.
  induction todo as [|todo IH]; intros n backoff e s Hb Hs; cbn [previewRetries]; [by apply gaveUp_time|].
  destruct (Z.leb_spec (retryBudget r) (now (rs_world s) - start + backoff)); [by apply gaveUp_time|].
  destruct (negb _); [by apply gaveUp_time|].
  pose proof (pause_time backoff (rs_world s) Hb) as Hp.
  destruct (pause backoff (rs_world s)) as [[|] w]; cbn [snd] in Hp.
  - apply previewAttempt_time; [cbn; lia|]. intros e' s' Hs'. apply IH; cbn in *; lia.
  - unfold ends_by. cbn. pose proof attemptTimeout_pos. lia.
Qed.
End runs.

(** ** The theorems *)

Section theorems.
Context {W : Type} `{World W} `{RouterOutside W}.
Context (r : Router) (forward : Header) (credential : string).

(** C40: what is to be sealed is not shown to the router. For every surface, known to
    the protocol or not, all the payload its requests seal is among the withheld
    fields; and two requests that agree on what is not withheld, and on whether they
    use tools, lead to the same preview: the same posts, byte for byte, on every
    attempt, at the same times, with the same metrics. *)
Theorem preview_confidential ep :
  (forall p s f, ep_Profile ep = p \/ spec (ep_Profile ep) = Err (EUnknownProfile (ep_Profile ep)) ->
     spec p = Ok s -> f ∈ defaultRequestSealed s -> f ∈ withheldFor r ep) /\
  (forall req req' s,
     (forall f, f ∉ withheldFor r ep -> req !! f = req' !! f) ->
     (forall f, f ∈ ["tools"; "tool_choice"] -> routing_bit req f = routing_bit req' f) ->
     (preview r forward credential ep req s).2 = (preview r forward credential ep req' s).2).
Proof.
  split; [intros; by eapply withheld_payload|]. intros req req' s Hl Hb. unfold preview.
  assert (previewBody r ep req = previewBody r ep req') as Eb
    by (unfold previewBody; by rewrite (previewPayload_withheld _ _ _ _ Hl Hb)).
  rewrite <-Eb.
  match goal with |- context [previewAttempt ?r ?f ?c ?b req 0 ?a s] => set (x := previewAttempt r f c b req 0 a s) end.
  match goal with |- context [previewAttempt ?r ?f ?c ?b req' 0 ?a s] => set (x' := previewAttempt r f c b req' 0 a s) end.
  assert (alike x x') as [Ho Hs].
  { apply previewAttempt_alike. intros. apply previewRetries_alike. }
  destruct x as [[o res] s1], x' as [[o' res'] s1']. cbn in *. by subst.
Qed.

(** A preview is bounded. Whatever the router does, the call posts the preview at
    most three times, and nothing else; it goes on to another attempt only after one
    that got no answer, so an answer, good or bad, ends it; and it ends within its
    retry budget plus one attempt. *)
Theorem preview_bounded `{!RouterTiming} ep req s :
  exists l k ress dur outcome, rs_log (preview r forward credential ep req s).2 = rs_log s ++ l ++ [EvPreviewCall outcome dur] /\
    (length ress <= 1)%nat /\ (k + length ress <= previewAttempts)%nat /\
    attempts l = repeat previewRetryable k ++ ress /\
    Forall (fun q => q = previewRequest r forward credential (previewBody r ep req)) (posts l) /\
    (length (posts l) <= previewAttempts)%nat /\
    now (rs_world (preview r forward credential ep req s).2)
      <= now (rs_world s) + retryBudget r + attemptTimeout r.
Proof.
  unfold preview. set (body := previewBody r ep req).
  set (again := previewRetries _ _ _ _ _ _ _ _ _).
  assert (run_ok r forward credential body 3 s (previewAttempt r forward credential body req 0 again s))
    as [(l & k & ress & Hl & Hk1 & Hk2 & Ha & Hp & Hn) _] by (apply previewAttempt_ok; intros; apply previewRetries_ok).
  assert (ends_by (now (rs_world s) + retryBudget r + attemptTimeout r)
            (previewAttempt r forward credential body req 0 again s)) as Ht.
  { pose proof (retryBudget_pos r). apply previewAttempt_time; [exact _|lia|]. intros e s' Hs'.
    apply previewRetries_time; [exact _|by vm_compute|lia]. }
  destruct (previewAttempt _ _ _ _ _ _ _ _) as [[outcome res] s1]. unfold logged, ends_by in *. cbn in Hl, Ht.
  exists l, k, ress, (now (rs_world s1) - now (rs_world s)), outcome. cbn [snd rlog rs_log rs_world].
  rewrite Hl, <-app_assoc. unfold previewAttempts. split_and!; try done; lia.
Qed.

Lemma preview_answered ep req s l s' :
  preview r forward credential ep req s = (Ok l, s') -> answered r forward credential (previewBody r ep req) l.
Proof.
  unfold preview. set (body := previewBody r ep req). set (again := previewRetries _ _ _ _ _ _ _ _ _).
  assert (run_ok r forward credential body 3 s (previewAttempt r forward credential body req 0 again s))
    as [_ Ho] by (apply previewAttempt_ok; intros; apply previewRetries_ok).
  destruct (previewAttempt _ _ _ _ _ _ _ _) as [[outcome res] s1]. cbn in Ho. intros Hp. injection Hp as -> <-.
  exact (Ho l eq_refl).
Qed.

(** Candidates are the router's. The list a preview returns is not empty, has at
    most eight candidates, and is the head of the list in a 200 reply to this request's
    preview. *)
Theorem preview_sound ep req s l s' :
  preview r forward credential ep req s = (Ok l, s') ->
  answered r forward credential (previewBody r ep req) l /\ l <> [] /\ (length l <= maxPreviewCandidates)%nat.
Proof.
  intros Hp%preview_answered. split; [done|].
  destruct Hp as (? & ? & ? & ? & ? & full & ? & ? & ? & ? & -> & Hne).
  split; [by destruct full|]. rewrite length_take. lia.
Qed.
End theorems.

(** ** Witnesses *)

Section witnesses.

(** A router that drops the first connection and answers the second. *)
Record demo := MkDemo { d_clock : Z; d_gate : retryGate; d_calls : nat }.
Let tick (d : Z) (w : demo) : demo :=
  MkDemo (Z.max (d_clock w) (Z.min (d_clock w + Second) d)) (d_gate w) (S (d_calls w)).
Let reply : HttpResponse cerr :=
  MkHttpResponse 200 ∅ (print (jobject [("providers", JArr [jobject [("address", jstr "0xa")]])])) None.

#[local] Instance demo_world : World demo := {| now := d_clock; canceledBy := fun _ => false |}.
#[local] Instance demo_outside : RouterOutside demo := {|
  url_ok := fun _ => true;
  rt_do := fun d _ w => (if Nat.eqb (d_calls w) 0 then Err (EExt "reset" false) else Ok reply, tick d w);
  rt_read := fun d _ w => tick d w;
  pause := fun d w => (true, MkDemo (d_clock w + Z.max 0 d) (d_gate w) (d_calls w));
  rt_gate := d_gate;
  set_gate := fun g w => MkDemo (d_clock w) g (d_calls w) |}.

Lemma demo_timing : RouterTiming.
Proof. split; intros; cbn; lia. Qed.

Let router : Router := newRouter "https://router.example/" [].
Let asks (content : string) : Request :=
  list_to_map [("model", jstr "m"); (fieldMessages, JArr [jstr content]); (fieldTools, JArr [JNull])].
Let fresh_state : rstate demo := MkR (MkDemo 0 (MkGate 0 None) 0) [].

Lemma preview_confidential_witness :
  asks "one" <> asks "two" /\
  (preview router ∅ "" Chat (asks "one") fresh_state).2 = (preview router ∅ "" Chat (asks "two") fresh_state).2.
Proof.
  split.
  - intros E. apply (f_equal (lookup fieldMessages)) in E. vm_compute in E. discriminate E.
  - apply (preview_confidential router ∅ "" Chat).
    + intros f Hf. destruct (decide (f = fieldMessages)) as [->|Hne].
      * exfalso. apply Hf. refine (bool_decide_eq_true_1 _ _). vm_compute. reflexivity.
      * unfold asks. cbn [list_to_map foldr uncurry fst snd].
        destruct (decide (f = "model")) as [->|]; [by rewrite !lookup_insert_eq|].
        rewrite !(lookup_insert_ne _ "model"), !(lookup_insert_ne _ fieldMessages) by congruence. reflexivity.
    + intros f Hf. rewrite !elem_of_cons in Hf. destruct Hf as [-> | [-> | Hf]]; [..|by apply elem_of_nil in Hf];
        vm_compute; reflexivity.
Defined.

Lemma preview_bounded_witness :
  attempts (rs_log (preview router ∅ "" Chat (asks "one") fresh_state).2) = [previewRetryable; previewOK] /\
  now (rs_world (preview router ∅ "" Chat (asks "one") fresh_state).2) <= 60 * Second.
Proof.
  split; [vm_compute; reflexivity|].
  destruct (@preview_bounded demo demo_world demo_outside router ∅ "" demo_timing Chat (asks "one") fresh_state)
    as (l & k & ress & dur & outcome & _ & _ & _ & _ & _ & _ & Ht).
  etransitivity; [exact Ht|]. vm_compute. discriminate.
Defined.

Let ranked : list previewProvider := [MkPP "0xa" None "" "" ""].
Lemma preview_sound_witness :
  answered router ∅ "" (previewBody router Chat (asks "one")) ranked /\ ranked <> [] /\
  (length ranked <= maxPreviewCandidates)%nat.
Proof.
  eapply (preview_sound router ∅ "" Chat (asks "one") fresh_state ranked).
  vm_compute. reflexivity.
Defined.
End witnesses.
