(* ===== verification/Chain.v ===== *)
(** * Chain: providers' signers on chain ([client/chain]: registry.go, cache.go)

    [OnChainRegistry] reads a provider's service record over JSON-RPC: [ethCall] with
    its retries, [decodeService] and [decodeServiceURL] over the ABI encoding, with
    [uint64] arithmetic as it wraps and slicing as it panics. [cachedRegistry] keeps
    readings for a lifetime and a grace, and suppresses lookups after a failure. Both
    implement the interface [SignerRegistry].

    The theorems: decoding inverts the ABI encoding of a service record, and never
    slices out of range whatever an endpoint returns; a reading the cache gives is the
    latest the chain gave for that provider, no older than its flags admit, and a
    refreshed one is live; while a failure cools down, the chain is left alone. *)

From S2P Require Import Prelude GoBytes GoJson GoDecode GoHttp Walk RateLimit Preview.

Definition getServiceSelector : string := "15a52302".
Definition DefaultInferenceServingAddress : string := "0x47340d900bdFec2BD393c626E12ea0656F938d84".
Definition maxRPCBodyBytes : Z := 1048576.
Definition rpcAttempts : nat := 3.
Definition rpcAttemptTimeout : Z := 3 * Second.
Definition rpcRetryBackoff : Z := Second / 5.
Definition Minute : Z := 60 * Second.
Definition DefaultGrace : Z := 30 * Minute.
Definition FailureCooldown : Z := 30 * Second.
Definition maxCachedProviders : nat := 4096.

(** ** Decoding a service record *)

Definition u64 (z : Z) : Z := z mod 2 ^ 64.

(** Big-endian, as [big.Int.SetBytes]. *)
Definition be_val (l : bytes) : Z := fold_left (fun acc c => 256 * acc + bval c) l 0.

(** [raw[a:b]]; out of range is a panic. *)
Definition slice (raw : bytes) (a b : Z) : cresult bytes :=
  if (0 <=? a) && (a <=? b) && (b <=? Z.of_nat (length raw))
  then Ok (take (Z.to_nat (b - a)) (drop (Z.to_nat a) raw)) else Err EPanic.

Definition nonzero (c : ascii) : bool := negb (bval c =? 0).

Definition decodeService (raw : bytes) : cresult (string * bool) :=
  let len := Z.of_nat (length raw) in
  _ ← refuse (len <? 32) (EMsg "getService return too short");
  head ← slice raw 0 32;
  _ ← refuse (2 ^ 64 <=? be_val head) (EMsg "getService struct offset out of range");
  let base := be_val head in
  let end_ := u64 (base + 11 * 32) in
  _ ← refuse ((end_ <? base) || (len <? end_)) (EMsg "getService return too short for Service struct");
  signerWord ← slice raw (u64 (base + 9 * 32)) (u64 (base + 10 * 32));
  ackWord ← slice raw (u64 (base + 10 * 32)) (u64 (base + 11 * 32));
  high ← slice signerWord 0 12;
  _ ← refuse (existsb nonzero high) (EMsg "teeSignerAddress slot is not a padded address");
  low ← slice signerWord 12 (Z.of_nat (length signerWord));
  Ok (str_of (bytes_of "0x" ++ hex_encode low), existsb nonzero ackWord).

Definition readWordUint (raw : bytes) (off : Z) : cresult (option Z) :=
  let end_ := u64 (off + 32) in
  if (end_ <? off) || (Z.of_nat (length raw) <? end_) then Ok None
  else w ← slice raw off end_;
       Ok (if be_val w <? 2 ^ 64 then Some (be_val w) else None).

Definition decodeServiceURL (raw : bytes) : cresult string :=
  b ← readWordUint raw 0;
  base ← of_option b (EMsg "too short for offset");
  r ← readWordUint raw (u64 (base + 2 * 32));
  rel ← of_option r (EMsg "too short for url slot");
  let strStart := u64 (base + rel) in
  l ← readWordUint raw strStart;
  n ← of_option l (EMsg "url length out of range");
  let dataStart := u64 (strStart + 32) in
  let end_ := u64 (dataStart + n) in
  _ ← refuse ((end_ <? dataStart) || (Z.of_nat (length raw) <? end_)) (EMsg "url data truncated");
  data ← slice raw dataStart end_;
  Ok (str_of data).

(** ** Asking the chain *)

(** [hex.DecodeString(s[2:])] accepts. *)
Definition isHexAddress (s : string) : bool :=
  Nat.eqb (String.length s) 42 && has_prefix s "0x"
  && match hex_decode (skipn 2 (bytes_of s)) with Some _ => true | None => false end.

Definition leftPad32 (addr : string) : string :=
  let h := to_lower (trim_prefix addr "0x") in
  str_of (repeat "0"%char (64 - String.length h)) +:+ h.

Record OnChainRegistry := MkOnChain { oc_rpcURL : string; oc_contract : string; oc_blockTag : string }.

Definition NewOnChainRegistry (rpcURL contract blockTag : string) : cresult OnChainRegistry :=
  _ ← refuse (String.eqb (trim_space rpcURL) "") (EMsg "empty RPC URL");
  let contract := if String.eqb contract "" then DefaultInferenceServingAddress else contract in
  _ ← refuse (negb (isHexAddress contract)) (EMsg "bad contract address");
  Ok (MkOnChain rpcURL contract (if String.eqb blockTag "" then "latest" else blockTag)).

(** A reading: [Stale] implies [Cached]. *)
Record Signer := MkSigner { sg_Address : string; sg_Acknowledged : bool; sg_Stale : bool; sg_Cached : bool }.

Definition ProviderKey (providerAddr : string) : string := to_lower (trim_space providerAddr).

Class SignerRegistry (W : Type) := {
  AcknowledgedSigner : string -> W -> cresult Signer * W;
  RefreshSigner : string -> W -> cresult Signer * W
}.

(** What a registry promises its callers: a refreshed reading is live. *)
Class RegistryLaws (W : Type) `{SignerRegistry W} :=
  refresh_live : forall addr w sg w', RefreshSigner addr w = (Ok sg, w') ->
                   sg_Cached sg = false /\ sg_Stale sg = false.

(** [jsonRPCResponse]: the result, and whether there is an error. *)
Record jsonRPCResponse := MkRPC { rpc_Result : string; rpc_Error : option (Z * string) }.
Definition rpcError_fields : list (string * (Z * string -> json -> result jerr (Z * string))) :=
  [("code", fun e j => c ← set_int e.1 j; Ok (c, e.2)); ("message", fun e j => m ← set_string e.2 j; Ok (e.1, m))].
Definition jsonRPCResponse_fields : list (string * (jsonRPCResponse -> json -> result jerr jsonRPCResponse)) :=
  [("result", fun r j => s ← set_string (rpc_Result r) j; Ok (MkRPC s (rpc_Error r)));
   ("error", fun r j => match j with
                        | JNull => Ok (MkRPC (rpc_Result r) None)
                        | _ => e ← unmarshal_struct rpcError_fields (default (0, "") (rpc_Error r)) j;
                               Ok (MkRPC (rpc_Result r) (Some e))
                        end)].

Definition rpc_retryableStatus (status : Z) : bool :=
  (status =? StatusTooManyRequests) || ((500 <=? status) && (status <=? 599)).

Section chain.
Context {W : Type} `{World W} `{RouterOutside W}.
Context (c : OnChainRegistry).

Definition rpcBody (calldata : string) : bytes :=
  print (jobject [("jsonrpc", jstr "2.0"); ("id", json_of_int 1); ("method", jstr "eth_call");
                  ("params", JArr [jobject [("data", jstr calldata); ("to", jstr (oc_contract c))];
                                   jstr (oc_blockTag c)])]).

(** What is made of a reply: the bytes, or an error and whether to try again. *)
Definition rpcReply (resp : HttpResponse cerr) : bytes + bool * cerr :=
  match read_all_limited maxRPCBodyBytes resp with
  | Err err => inr (true, EWrap "read eth_call response" err)
  | Ok body =>
      if negb (hs_Status resp =? StatusOK)
      then inr (rpc_retryableStatus (hs_Status resp), EMsg "eth_call returned an error status")
      else match unmarshal (unmarshal_struct jsonRPCResponse_fields (MkRPC "" None)) body with
           | Err e => inr (false, EWrap "decode eth_call response" (EJson e))
           | Ok r => match rpc_Error r with
                     | Some (_, m) => inr (false, EWrap "eth_call error" (EMsg m))
                     | None => match hex_decode (bytes_of (trim_prefix (rpc_Result r) "0x")) with
                               | None => inr (false, EMsg "decode eth_call result hex")
                               | Some out => inl out
                               end
                     end
           end
  end.

Definition ethCallOnce (reqBody : bytes) (w : W) : (bytes + bool * cerr) * W :=
  let deadline := now w + rpcAttemptTimeout in
  if negb (url_ok (oc_rpcURL c)) then (inr (false, EMsg "build eth_call request"), w)
  else match rt_do deadline (MkHttpRequest (oc_rpcURL c) (header_set "Content-Type" "application/json" ∅) reqBody) w with
       | (Err err, w) => (inr (true, EWrap "eth_call request" err), w)
       | (Ok resp, w) => (rpcReply resp, rt_read deadline resp w)
       end.

(** The attempts from the second on. *)
Fixpoint ethRetries (reqBody : bytes) (todo : nat) (backoff : Z) (lastErr : cerr) (w : W) : cresult bytes * W :=
  match todo with
  | O => (Err (EWrap "eth_call failed after its attempts" lastErr), w)
  | S todo =>
      match pause backoff w with
      | (false, w) => (Err (EWrap "eth_call" lastErr), w)
      | (true, w) =>
          match ethCallOnce reqBody w with
          | (inl out, w) => (Ok out, w)
          | (inr (retryable, err), w) =>
              if negb retryable || canceledBy w then (Err err, w)
              else ethRetries reqBody todo (backoff * 2) err w
          end
      end
  end.

Definition ethCall (calldata : string) (w : W) : cresult bytes * W :=
  match ethCallOnce (rpcBody calldata) w with
  | (inl out, w) => (Ok out, w)
  | (inr (retryable, err), w) =>
      if negb retryable || canceledBy w then (Err err, w)
      else ethRetries (rpcBody calldata) (rpcAttempts - 1) rpcRetryBackoff err w
  end.

Definition getServiceRaw (providerAddr : string) (w : W) : cresult bytes * W :=
  if negb (isHexAddress providerAddr) then (Err (EMsg "bad provider address"), w)
  else ethCall ("0x" +:+ getServiceSelector +:+ leftPad32 providerAddr) w.

Definition onchain_signer (providerAddr : string) (w : W) : cresult Signer * W :=
  match getServiceRaw providerAddr w with
  | (Err err, w) => (Err err, w)
  | (Ok raw, w) => ('(signer, ack) ← decodeService raw; Ok (MkSigner signer ack false false), w)
  end.

Record ServiceInfo := MkServiceInfo { si_URL : string; si_Signer : string; si_Acknowledged : bool }.

(** The URL is best effort; a panic is not an error. *)
Definition serviceInfo (providerAddr : string) (w : W) : cresult ServiceInfo * W :=
  match getServiceRaw providerAddr w with
  | (Err err, w) => (Err err, w)
  | (Ok raw, w) =>
      ('(signer, ack) ← decodeService raw;
       match decodeServiceURL raw with
       | Ok url => Ok (MkServiceInfo url signer ack)
       | Err EPanic => Err EPanic
       | Err _ => Ok (MkServiceInfo "" signer ack)
       end, w)
  end.

(** The unwrapped registry: every reading is live. *)
Definition onchain_registry : SignerRegistry W :=
  {| AcknowledgedSigner := onchain_signer; RefreshSigner := onchain_signer |}.
End chain.

(** ** The cache *)

Record cacheEntry := MkEntry { ce_signer : string; ce_acknowledged : bool; ce_expires : Z }.
Record failure := MkFailure { fl_at : Z; fl_err : cerr }.

Record cacheConfig := MkCacheConfig { cc_ttl : Z; cc_grace : Z; cc_cooldown : Z }.
Record cachedRegistry := MkCached { cr_entries : gmap string cacheEntry; cr_failures : gmap string failure }.

(** [room]: whether a new key fits, and the map after the sweep that may make room. *)
Definition room {V} (m : gmap string V) (now : Z) (deadline : V -> Z) : bool * gmap string V :=
  if Nat.ltb (size m) maxCachedProviders then (true, m)
  else let m := sweepExpired m now deadline in (Nat.ltb (size m) maxCachedProviders, m).

(** A write that a full map may decline. *)
Definition bounded_insert {V} (m : gmap string V) (now : Z) (deadline : V -> Z) (key : string) (v : V) : gmap string V :=
  if has_key m key then <[key := v]> m
  else let '(ok, m) := room m now deadline in if ok then <[key := v]> m else m.

(** A caller whose lookup is shared may have left by the time it ends. *)
Class Flights (W : Type) := leaves : W -> bool.

Section cache.
Context {W : Type} `{World W} `{SignerRegistry W} `{Flights W}.
Context (k : cacheConfig).
Abbreviation cstate := (cachedRegistry * W)%type.

Definition store (key : string) (e : cacheEntry) (s : cstate) : cstate :=
  (MkCached (bounded_insert (cr_entries s.1) (now s.2) (fun e => ce_expires e + cc_grace k) key e) (cr_failures s.1), s.2).
Definition clearFailure (key : string) (s : cstate) : cstate :=
  (MkCached (cr_entries s.1) (delete key (cr_failures s.1)), s.2).
Definition recordFailure (key : string) (t : Z) (err : cerr) (s : cstate) : cstate :=
  (MkCached (cr_entries s.1)
     (bounded_insert (cr_failures s.1) t (fun f => fl_at f + cc_cooldown k) key (MkFailure t err)), s.2).
Definition noteFailure (key : string) (t : Z) (err : cerr) (s : cstate) : cstate :=
  if canceledBy s.2 then s else recordFailure key t err s.

Definition recentFailure (key : string) (t : Z) (c : cachedRegistry) : option failure :=
  if cc_cooldown k <=? 0 then None
  else match cr_failures c !! key with
       | Some f => if t <? fl_at f + cc_cooldown k then Some f else None
       | None => None
       end.

Definition staleWithinGrace (key : string) (t : Z) (c : cachedRegistry) : option Signer :=
  if cc_grace k <=? 0 then None
  else match cr_entries c !! key with
       | Some e => if t <? ce_expires e + cc_grace k
                   then Some (MkSigner (ce_signer e) (ce_acknowledged e) true true) else None
       | None => None
       end.

(** [refresh]: the shared lookup, then the caller's own wait for it. *)
Definition refresh (providerAddr : string) (s : cstate) : cresult Signer * cstate :=
  let key := ProviderKey providerAddr in
  match RefreshSigner providerAddr s.2 with
  | (Err err, w) => (if leaves w then Err (EMsg "context done") else Err err, (s.1, w))
  | (Ok got, w) =>
      let s := store key (MkEntry (sg_Address got) (sg_Acknowledged got) (now w + cc_ttl k)) (s.1, w) in
      let s := clearFailure key s in
      (if leaves w then Err (EMsg "context done")
       else Ok (MkSigner (sg_Address got) (sg_Acknowledged got) false false), s)
  end.

Definition cached_AcknowledgedSigner (providerAddr : string) (s : cstate) : cresult Signer * cstate :=
  let key := ProviderKey providerAddr in
  let t := now s.2 in
  let live :=
    match recentFailure key t s.1 with
    | Some f => (match staleWithinGrace key t s.1 with Some stale => Ok stale | None => Err (fl_err f) end, s)
    | None =>
        match refresh providerAddr s with
        | (Ok got, s) => (Ok got, s)
        | (Err err, s) =>
            let t := now s.2 in
            let s := noteFailure key t err s in
            (match staleWithinGrace key t s.1 with Some stale => Ok stale | None => Err err end, s)
        end
    end in
  match cr_entries s.1 !! key with
  | Some e => if t <? ce_expires e
              then (Ok (MkSigner (ce_signer e) (ce_acknowledged e) false true), s) else live
  | None => live
  end.

Definition cached_RefreshSigner (providerAddr : string) (s : cstate) : cresult Signer * cstate :=
  match refresh providerAddr s with
  | (Err err, s) => (Err err, noteFailure (ProviderKey providerAddr) (now s.2) err s)
  | (Ok got, s) => (Ok got, s)
  end.

Definition cached_registry : SignerRegistry cstate :=
  {| AcknowledgedSigner := cached_AcknowledgedSigner; RefreshSigner := cached_RefreshSigner |}.
End cache.

(** [Cached]: without a lifetime the registry is not wrapped; the cooldown is fixed. *)
Definition newCacheConfig (ttl grace : Z) : option cacheConfig :=
  if ttl <=? 0 then None else Some (MkCacheConfig ttl grace FailureCooldown).
Definition newCached : cachedRegistry := MkCached ∅ ∅.

(** ** The ABI encoding of [getService]'s result *)

(** A big-endian word of [n] bytes. *)
Fixpoint be_enc (n : nat) (z : Z) : bytes :=
  match n with O => [] | S n => be_enc n (z / 256) ++ [byte_of z] end.

Definition word (z : Z) : bytes := be_enc 32 z.
Definition address_word (a : bytes) : bytes := repeat (byte_of 0) 12 ++ a.
Definition abi_string (s : bytes) : bytes :=
  word (Z.of_nat (length s)) ++ s ++ repeat (byte_of 0) (Z.to_nat ((- Z.of_nat (length s)) mod 32)).

(** The contract's [Service]. *)
Record Service := MkService {
  sv_provider : bytes; sv_serviceType : bytes; sv_url : bytes; sv_inputPrice : Z; sv_outputPrice : Z;
  sv_updatedAt : Z; sv_model : bytes; sv_verifiability : bytes; sv_additionalInfo : bytes;
  sv_teeSigner : bytes; sv_acknowledged : bool
}.

(** The head of the struct, and the strings that follow it. *)
Definition abi_strings (sv : Service) : list bytes :=
  map abi_string [sv_serviceType sv; sv_url sv; sv_model sv; sv_verifiability sv; sv_additionalInfo sv].
Definition string_offset (sv : Service) (i : nat) : Z :=
  11 * 32 + Z.of_nat (length (concat (take i (abi_strings sv)))).

Definition abi_service (sv : Service) : bytes :=
  word 32
  ++ address_word (sv_provider sv) ++ word (string_offset sv 0) ++ word (string_offset sv 1)
  ++ word (sv_inputPrice sv) ++ word (sv_outputPrice sv) ++ word (sv_updatedAt sv)
  ++ word (string_offset sv 2) ++ word (string_offset sv 3) ++ word (string_offset sv 4)
  ++ address_word (sv_teeSigner sv) ++ word (if sv_acknowledged sv then 1 else 0)
  ++ concat (abi_strings sv).

Lemma be_enc_length n z : length (be_enc n z) = n.
Proof. revert z. induction n as [|n IH]; intros z; cbn; [done|]. rewrite length_app, IH. cbn. lia. Qed.

Lemma be_val_app l c : be_val (l ++ [c]) = 256 * be_val l + bval c.
Proof. unfold be_val. by rewrite fold_left_app. Qed.

Lemma be_val_enc n z : be_val (be_enc n z) = z mod 256 ^ Z.of_nat n.
Proof.
  revert z. induction n as [|n IH]; intros z; [by rewrite Z.mod_1_r|].
  cbn [be_enc]. rewrite be_val_app, IH, bval_byte_of, Nat2Z.inj_succ, Z.pow_succ_r by lia.
  rewrite (Z.rem_mul_r z 256) by lia. lia.
Qed.

Lemma be_val_range l : 0 <= be_val l < 256 ^ Z.of_nat (length l).
Proof.
  induction l as [|c l IH] using rev_ind; [by vm_compute|].
  rewrite be_val_app, length_app, Nat2Z.inj_add, Z.pow_add_r by lia. cbn. pose proof (bval_range c). nia.
Qed.

Lemma be_val_word z : 0 <= z < 2 ^ 64 -> be_val (word z) = z.
Proof.
  intros Hz. unfold word. rewrite be_val_enc. apply Z.mod_small.
  assert (2 ^ 64 < 256 ^ Z.of_nat 32) by (by vm_compute). lia.
Qed.

Lemma word_length z : length (word z) = 32%nat.
Proof. apply be_enc_length. Qed.
Lemma address_word_length a : length a = 20%nat -> length (address_word a) = 32%nat.
Proof. intros Ha. unfold address_word. rewrite length_app, repeat_length. lia. Qed.

Lemma slice_app a b c lo hi :
  lo = Z.of_nat (length a) -> hi = lo + Z.of_nat (length b) -> slice (a ++ b ++ c) lo hi = Ok b.
Proof.
  intros -> ->. unfold slice. rewrite !length_app.
  rewrite (proj2 (Z.leb_le _ _)), (proj2 (Z.leb_le _ _)), (proj2 (Z.leb_le _ _)) by lia. cbn [andb]. f_equal.
  replace (Z.to_nat (Z.of_nat (length a) + Z.of_nat (length b) - Z.of_nat (length a))) with (length b) by lia.
  rewrite Nat2Z.id, drop_app_length, take_app_length. done.
Qed.

Lemma u64_small z : 0 <= z < 2 ^ 64 -> u64 z = z.
Proof. apply Z.mod_small. Qed.

Lemma readWordUint_app a z c off :
  off = Z.of_nat (length a) -> 0 <= z < 2 ^ 64 -> Z.of_nat (length (a ++ word z ++ c)) < 2 ^ 64 ->
  readWordUint (a ++ word z ++ c) off = Ok (Some z).
Proof.
  intros -> Hz Hl. unfold readWordUint. rewrite !length_app, word_length in *. rewrite u64_small by lia.
  rewrite (proj2 (Z.ltb_ge _ _)), (proj2 (Z.ltb_ge _ _)) by lia. cbn [orb].
  rewrite (slice_app a (word z) c _ _ eq_refl) by (rewrite word_length; lia). rewrite bind_ok_l.
  rewrite be_val_word by done. rewrite (proj2 (Z.ltb_lt _ _)) by lia. done.
Qed.

(** The words before the signer's. *)
Definition abi_before (sv : Service) : bytes :=
  word 32
  ++ address_word (sv_provider sv) ++ word (string_offset sv 0) ++ word (string_offset sv 1)
  ++ word (sv_inputPrice sv) ++ word (sv_outputPrice sv) ++ word (sv_updatedAt sv)
  ++ word (string_offset sv 2) ++ word (string_offset sv 3) ++ word (string_offset sv 4).

Section roundtrip.
Context (sv : Service).
Hypothesis provider_len : length (sv_provider sv) = 20%nat.
Hypothesis signer_len : length (sv_teeSigner sv) = 20%nat.
Hypothesis fits : Z.of_nat (length (abi_service sv)) < 2 ^ 64.
Let ack : bytes := word (if sv_acknowledged sv then 1 else 0).

Lemma abi_service_split :
  abi_service sv = abi_before sv ++ address_word (sv_teeSigner sv) ++ ack ++ concat (abi_strings sv).
Proof. unfold abi_service, abi_before. by rewrite <-!app_assoc. Qed.

Lemma abi_before_length : length (abi_before sv) = 320%nat.
Proof. unfold abi_before. by rewrite !length_app, !word_length, address_word_length. Qed.

Lemma abi_service_length : length (abi_service sv) = (384 + length (concat (abi_strings sv)))%nat.
Proof.
  rewrite abi_service_split, !length_app, abi_before_length, address_word_length by done.
  unfold ack. rewrite word_length. lia.
Qed.

Lemma ack_nonzero : existsb nonzero ack = sv_acknowledged sv.
Proof. unfold ack. by destruct (sv_acknowledged sv); vm_compute. Qed.

Lemma zeros_high n : existsb nonzero (repeat (byte_of 0) n) = false.
Proof. induction n as [|n IH]; [done|]. by vm_compute in IH |- *. Qed.

Lemma address_high a : length a = 20%nat -> slice (address_word a) 0 12 = Ok (repeat (byte_of 0) 12).
Proof. intros Ha. by apply (slice_app []). Qed.

Lemma address_low a : length a = 20%nat ->
  slice (address_word a) 12 (Z.of_nat (length (address_word a))) = Ok a.
Proof.
  intros Ha. rewrite address_word_length by done. unfold address_word.
  rewrite <-(app_nil_r a) at 1. apply slice_app; [done|]. by rewrite Ha.
Qed.

Lemma signer_word : slice (abi_service sv) (32 + 9 * 32) (32 + 10 * 32) = Ok (address_word (sv_teeSigner sv)).
Proof.
  rewrite abi_service_split. apply slice_app; [by rewrite abi_before_length|by rewrite address_word_length].
Qed.

Lemma ack_word : slice (abi_service sv) (32 + 10 * 32) (32 + 11 * 32) = Ok ack.
Proof.
  rewrite abi_service_split, (app_assoc (abi_before sv)). apply slice_app; [|unfold ack; by rewrite word_length].
  by rewrite length_app, abi_before_length, address_word_length.
Qed.

Lemma decodeService_abi :
  decodeService (abi_service sv)
  = Ok (str_of (bytes_of "0x" ++ hex_encode (sv_teeSigner sv)), sv_acknowledged sv).
Proof.
  unfold decodeService. pose proof abi_service_length as Hl.
  rewrite (proj2 (Z.ltb_ge _ 32)) by lia. cbn [refuse]. rewrite bind_ok_l.
  assert (slice (abi_service sv) 0 32 = Ok (word 32)) as ->
    by (unfold abi_service; by apply (slice_app [])).
  rewrite bind_ok_l, (be_val_word 32) by lia. cbn [Z.leb]. rewrite (proj2 (Z.leb_gt (2 ^ 64) 32)) by lia.
  cbn [refuse]. rewrite bind_ok_l, !u64_small by lia.
  rewrite (proj2 (Z.ltb_ge _ 32)), (proj2 (Z.ltb_ge _ _)) by lia. cbn [refuse orb]. rewrite bind_ok_l.
  rewrite signer_word, bind_ok_l, ack_word.
  rewrite bind_ok_l, address_high, bind_ok_l, zeros_high by done. cbn [refuse].
  rewrite bind_ok_l, address_low, bind_ok_l, ack_nonzero by done. done.
Qed.

(** *** The URL *)

Lemma concat_take_app (l : list bytes) i x :
  l !! i = Some x -> concat l = concat (take i l) ++ x ++ concat (drop (S i) l).
Proof.
  intros Hi. rewrite <-(take_drop_middle l i x Hi) at 1. rewrite concat_app. cbn. done.
Qed.

(** The words up to the URL's offset, and the URL's string with what is around it. *)
Lemma url_slot :
  exists a c, abi_service sv = a ++ word (string_offset sv 1) ++ c /\ length a = 96%nat.
Proof.
  exists (word 32 ++ address_word (sv_provider sv) ++ word (string_offset sv 0)). eexists.
  split; [unfold abi_service; by rewrite <-!app_assoc|]. by rewrite !length_app, !word_length, address_word_length.
Qed.

Lemma url_string :
  exists a c, abi_service sv = a ++ abi_string (sv_url sv) ++ c /\ Z.of_nat (length a) = 32 + string_offset sv 1.
Proof.
  exists (abi_before sv ++ address_word (sv_teeSigner sv) ++ ack ++ concat (take 1 (abi_strings sv))).
  exists (concat (drop 2 (abi_strings sv))). split.
  - rewrite abi_service_split, (concat_take_app (abi_strings sv) 1 (abi_string (sv_url sv)) eq_refl).
    by rewrite <-!app_assoc.
  - rewrite !length_app, abi_before_length, address_word_length by done. unfold ack, string_offset.
    rewrite word_length. lia.
Qed.

Lemma decodeServiceURL_abi : decodeServiceURL (abi_service sv) = Ok (str_of (sv_url sv)).
Proof.
  unfold decodeServiceURL.
  destruct url_slot as (a1 & c1 & E1 & L1). destruct url_string as (a2 & c2 & E2 & L2).
  assert (0 <= string_offset sv 1) as Hoff by (unfold string_offset; lia).
  assert (32 + string_offset sv 1 + 32 + Z.of_nat (length (sv_url sv)) <= Z.of_nat (length (abi_service sv))) as Hin.
  { rewrite E2. unfold abi_string. rewrite !length_app, word_length. lia. }
  assert (readWordUint (abi_service sv) 0 = Ok (Some 32)) as ->
    by (unfold abi_service in fits |- *; by apply (readWordUint_app [])).
  rewrite bind_ok_l. cbn [of_option]. rewrite bind_ok_l, (u64_small (32 + 2 * 32)) by lia.
  assert (readWordUint (abi_service sv) (32 + 2 * 32) = Ok (Some (string_offset sv 1))) as ->.
  { rewrite E1. apply readWordUint_app; [by rewrite L1|lia|by rewrite <-E1]. }
  rewrite bind_ok_l. cbn [of_option]. rewrite bind_ok_l, (u64_small (32 + string_offset sv 1)) by lia.
  unfold abi_string in E2. rewrite <-!app_assoc in E2.
  assert (readWordUint (abi_service sv) (32 + string_offset sv 1) = Ok (Some (Z.of_nat (length (sv_url sv))))) as ->.
  { rewrite E2. apply readWordUint_app; [by rewrite L2|lia|by rewrite <-E2]. }
  rewrite bind_ok_l. cbn [of_option]. rewrite bind_ok_l, !u64_small by lia.
  rewrite (proj2 (Z.ltb_ge _ _)), (proj2 (Z.ltb_ge _ _)) by lia. cbn [refuse orb]. rewrite bind_ok_l.
  rewrite E2, (app_assoc a2), (slice_app (a2 ++ word _)); [done|..]; rewrite ?length_app, ?word_length; lia.
Qed.
End roundtrip.

(** ** Out of range *)

Lemma slice_ok raw a b l : slice raw a b = Ok l -> 0 <= a <= b /\ b <= Z.of_nat (length raw) /\ Z.of_nat (length l) = b - a.
Proof.
  unfold slice. destruct (_ && _) eqn:Hc; [|done]. intros Hl. injection Hl as <-.
  apply andb_true_iff in Hc as [[Ha Hb]%andb_true_iff Hn].
  apply Z.leb_le in Ha, Hb, Hn. rewrite length_take, length_drop. lia.
Qed.

Lemma slice_in raw a b : 0 <= a <= b -> b <= Z.of_nat (length raw) -> exists l, slice raw a b = Ok l.
Proof.
  intros [Ha Hb] Hn. unfold slice. rewrite !(proj2 (Z.leb_le _ _)) by lia. cbn. eauto.
Qed.

Lemma u64_range z : 0 <= u64 z < 2 ^ 64.
Proof. apply Z.mod_pos_bound. lia. Qed.

(** Where an end that did not wrap around lies. *)
Lemma u64_no_wrap a n : 0 <= a < 2 ^ 64 -> 0 <= n < 2 ^ 64 -> a <= u64 (a + n) -> u64 (a + n) = a + n.
Proof.
  intros Ha Hn Hw. unfold u64 in *. destruct (Z.lt_ge_cases (a + n) (2 ^ 64)) as [Hlt|Hge]; [apply Z.mod_small; lia|].
  exfalso. assert ((a + n) mod 2 ^ 64 = a + n - 2 ^ 64) as E; [|lia].
  symmetry. apply Z.mod_unique_pos with 1; lia.
Qed.

Lemma refuse_cases {E} b (e : E) : (b = true /\ refuse b e = Err e) \/ (b = false /\ refuse b e = Ok tt).
Proof. destruct b; auto. Qed.

Lemma decodeService_safe raw : decodeService raw <> Err EPanic.
Proof.
  unfold decodeService. destruct (refuse_cases (Z.of_nat (length raw) <? 32) (EMsg "getService return too short"))
    as [[_ ->]|[Hl ->]]; [done|]. rewrite bind_ok_l. apply Z.ltb_ge in Hl.
  destruct (slice_in raw 0 32) as [hd Hh]; [lia..|]. rewrite Hh, bind_ok_l.
  pose proof (be_val_range hd) as Hb. destruct (2 ^ 64 <=? be_val hd) eqn:Ho; [done|]. cbn [refuse]. rewrite bind_ok_l.
  apply Z.leb_gt in Ho. destruct ((u64 _ <? _) || _) eqn:He; [done|]. cbn [refuse]. rewrite bind_ok_l.
  apply orb_false_iff in He as [He1 He2]. apply Z.ltb_ge in He1, He2.
  pose proof (u64_range (be_val hd + 11 * 32)) as Hu. rewrite (u64_no_wrap _ (11 * 32)) in He2, Hu by lia.
  rewrite !u64_small by lia.
  destruct (slice_in raw (be_val hd + 9 * 32) (be_val hd + 10 * 32)) as [sw Hs]; [lia..|]. rewrite Hs, bind_ok_l.
  destruct (slice_in raw (be_val hd + 10 * 32) (be_val hd + 11 * 32)) as [aw Ha]; [lia..|]. rewrite Ha, bind_ok_l.
  apply slice_ok in Hs as (_ & _ & Hsl).
  destruct (slice_in sw 0 12) as [hi Hhi]; [lia..|]. rewrite Hhi, bind_ok_l.
  destruct (existsb nonzero hi); [done|]. cbn [refuse]. rewrite bind_ok_l.
  destruct (slice_in sw 12 (Z.of_nat (length sw))) as [lo Hlo]; [lia..|]. by rewrite Hlo.
Qed.

Lemma readWordUint_safe raw off : 0 <= off < 2 ^ 64 ->
  exists o, readWordUint raw off = Ok o /\ forall v, o = Some v -> 0 <= v < 2 ^ 64.
Proof.
  intros Hoff. unfold readWordUint. destruct ((u64 _ <? _) || _) eqn:He; [by exists None|].
  apply orb_false_iff in He as [He1 He2]. apply Z.ltb_ge in He1, He2. pose proof (u64_range (off + 32)).
  destruct (slice_in raw off (u64 (off + 32))) as [w Hw]; [lia..|]. rewrite Hw, bind_ok_l.
  eexists. split; [done|]. intros v. pose proof (be_val_range w). destruct (Z.ltb_spec (be_val w) (2 ^ 64)); [|done].
  intros Hv. injection Hv as <-. lia.
Qed.

Lemma decodeServiceURL_safe raw : decodeServiceURL raw <> Err EPanic.
Proof.
  unfold decodeServiceURL.
  destruct (readWordUint_safe raw 0) as (ob & -> & Hb); [lia|]. rewrite bind_ok_l.
  destruct ob as [base|]; [|done]. cbn [of_option]. rewrite bind_ok_l.
  destruct (readWordUint_safe raw (u64 (base + 2 * 32))) as (rr & -> & Hr); [apply u64_range|]. rewrite bind_ok_l.
  destruct rr as [rel|]; [|done]. cbn [of_option]. rewrite bind_ok_l.
  destruct (readWordUint_safe raw (u64 (base + rel))) as (ol & -> & Hl); [apply u64_range|]. rewrite bind_ok_l.
  destruct ol as [n|]; [|done]. cbn [of_option]. rewrite bind_ok_l.
  destruct ((u64 (u64 _ + n) <? _) || _) eqn:He; [done|]. cbn [refuse]. rewrite bind_ok_l.
  apply orb_false_iff in He as [He1 He2]. apply Z.ltb_ge in He1, He2.
  pose proof (u64_range (u64 (base + rel) + 32)).
  edestruct (slice_in raw) as [d Hd]; [| |rewrite Hd; done]; lia.
Qed.

Lemma isHexAddress_hex a : length a = 20%nat -> isHexAddress (str_of (bytes_of "0x" ++ hex_encode a)) = true.
Proof.
  intros Ha. unfold isHexAddress, has_prefix. rewrite length_bytes_of, bytes_of_str_of, length_app, hex_encode_length, Ha.
  change (skipn 2 (bytes_of "0x" ++ hex_encode a)) with (hex_encode a). rewrite hex_decode_encode.
  reflexivity.
Qed.

Lemma decodeService_address raw signer ack : decodeService raw = Ok (signer, ack) -> isHexAddress signer = true.
Proof.
  unfold decodeService. intros Hd. inv_ok. simplify_eq. apply isHexAddress_hex.
  repeat match goal with H : slice _ _ _ = Ok _ |- _ => apply slice_ok in H as (? & ? & ?) end.
  match goal with H : (_ || _) = false |- _ => apply orb_false_iff in H as [Hw He]; apply Z.ltb_ge in Hw, He end.
  match goal with H : (2 ^ 64 <=? _) = false |- _ => apply Z.leb_gt in H end.
  pose proof (be_val_range x0) as Hb. pose proof (u64_range (be_val x0 + 11 * 32)) as Hu.
  rewrite (u64_no_wrap _ (11 * 32)) in Hu by lia. rewrite !u64_small in * by lia. lia.
Qed.

(** A service record decodes to what the contract holds. The acknowledged signer,
    whether it is acknowledged, and the URL come back from the ABI encoding of any
    record, whatever its other fields. *)
Theorem service_roundtrip sv :
  length (sv_provider sv) = 20%nat -> length (sv_teeSigner sv) = 20%nat ->
  Z.of_nat (length (abi_service sv)) < 2 ^ 64 ->
  decodeService (abi_service sv)
    = Ok (str_of (bytes_of "0x" ++ hex_encode (sv_teeSigner sv)), sv_acknowledged sv) /\
  decodeServiceURL (abi_service sv) = Ok (str_of (sv_url sv)).
Proof. intros Hp Hs Hl. split; [by apply decodeService_abi|by apply decodeServiceURL_abi]. Qed.

(** A hostile endpoint cannot crash the reader. Whatever bytes an endpoint answers
    with, offsets and lengths near the end of [uint64] included, decoding never slices
    out of range; and no record whose signer slot is not a padded address yields one. *)
Theorem decode_total raw :
  decodeService raw <> Err EPanic /\ decodeServiceURL raw <> Err EPanic /\
  (forall signer ack, decodeService raw = Ok (signer, ack) -> isHexAddress signer = true).
Proof.
  split_and!; [apply decodeService_safe|apply decodeServiceURL_safe|]. apply decodeService_address.
Qed.

(** ** What the cache stands for *)

Section bounded.
Context {V : Type} (deadline : V -> Z).

Lemma bounded_insert_lookup m now key (v : V) k v' :
  bounded_insert m now deadline key v !! k = Some v' -> (k = key /\ v' = v) \/ (k <> key \/ has_key m key = false) /\ m !! k = Some v'.
Proof.
  unfold bounded_insert, room. destruct (has_key m key) eqn:Hk; [|destruct (Nat.ltb _ _); [|destruct (Nat.ltb (size (sweepExpired _ _ _)) _)]];
    destruct (decide (k = key)) as [->|Hne]; rewrite ?lookup_insert_eq, ?lookup_insert_ne, ?sweep_lookup by done;
    try (intros Hs; injection Hs as <-); naive_solver.
Qed.

Lemma bounded_insert_size m now key (v : V) :
  (size m <= maxCachedProviders)%nat -> (size (bounded_insert m now deadline key v) <= maxCachedProviders)%nat.
Proof.
  intros Hm. unfold bounded_insert, room. destruct (has_key m key) eqn:Hk.
  - apply has_key_true in Hk as [w Hw]. by rewrite (size_insert_held _ _ _ _ Hw).
  - destruct (Nat.ltb_spec (size m) maxCachedProviders) as [Hl|Hl].
    + pose proof (size_insert_le m key v). lia.
    + destruct (Nat.ltb_spec (size (sweepExpired m now deadline)) maxCachedProviders) as [Hs|Hs];
        [pose proof (size_insert_le (sweepExpired m now deadline) key v)|pose proof (sweep_size deadline m now)]; lia.
Qed.
End bounded.

Section vouching.
Context {W : Type} `{World W} `{SignerRegistry W} `{Flights W}.
Context (k : cacheConfig).
Abbreviation cstate := (cachedRegistry * W)%type.

(** A successful lookup: for which provider, when it ended, what it read. *)
Definition read := (string * Z * Signer)%type.

(** The lookup a [refresh] makes. *)
Definition lookup_read (addr : string) (w : W) : list read :=
  match RefreshSigner addr w with
  | (Ok got, w) => [(ProviderKey addr, now w, got)]
  | (Err _, _) => []
  end.

(** Whether [AcknowledgedSigner] goes to the chain. *)
Definition looks (addr : string) (s : cstate) : bool :=
  let key := ProviderKey addr in
  negb (match cr_entries s.1 !! key with Some e => now s.2 <? ce_expires e | None => false end)
  && match recentFailure k key (now s.2) s.1 with Some _ => false | None => true end.

(** The latest read for a key; the newest come first. *)
Definition latest (key : string) (reads : list read) : option (Z * Signer) :=
  (fun r : read => (r.1.2, r.2)) <$> List.find (fun r : read => String.eqb r.1.1 key) reads.

(** The states a registry passes through, with the reads made so far: calls, and
    whatever happens elsewhere between them. *)
Inductive reached : list read -> cstate -> Prop :=
| reached_new w : reached [] (newCached, w)
| reached_elsewhere reads c w w' : reached reads (c, w) -> reached reads (c, w')
| reached_ack reads s addr :
    reached reads s ->
    reached ((if looks addr s then lookup_read addr s.2 else []) ++ reads) (cached_AcknowledgedSigner k addr s).2
| reached_refresh reads s addr :
    reached reads s -> reached (lookup_read addr s.2 ++ reads) (cached_RefreshSigner k addr s).2.

(** Every entry is the latest read of its key, until its lifetime after it. *)
Record vouched (reads : list read) (c : cachedRegistry) : Prop := {
  vc_entries : forall key e, cr_entries c !! key = Some e ->
    exists t sg, latest key reads = Some (t, sg) /\
      e = MkEntry (sg_Address sg) (sg_Acknowledged sg) (t + cc_ttl k);
  vc_size : (size (cr_entries c) <= maxCachedProviders)%nat;
  vc_failures : (size (cr_failures c) <= maxCachedProviders)%nat
}.

Lemma latest_cons key k' t sg reads :
  latest key ((k', t, sg) :: reads) = if String.eqb k' key then Some (t, sg) else latest key reads.
Proof. unfold latest. cbn. by destruct (String.eqb k' key). Qed.

Lemma vouched_failures reads c f : vouched reads c -> (size f <= maxCachedProviders)%nat ->
  vouched reads (MkCached (cr_entries c) f).
Proof. intros [He Hs _] Hf. by split. Qed.

Lemma size_delete_le {V} (m : gmap string V) key n : (size m <= n)%nat -> (size (delete key m) <= n)%nat.
Proof.
  intros Hs. etransitivity; [|exact Hs]. apply map_subseteq_size, delete_subseteq.
Qed.

Lemma refresh_vouched reads addr s :
  vouched reads s.1 -> vouched (lookup_read addr s.2 ++ reads) (refresh k addr s).2.1.
Proof.
  intros [He Hs Hf]. unfold refresh, lookup_read. destruct (RefreshSigner addr s.2) as [[got|err] w]; [|by split].
  cbn [app snd fst store clearFailure cr_entries cr_failures]. split; cbn [cr_entries cr_failures].
  - intros key e Hl. rewrite latest_cons. apply bounded_insert_lookup in Hl as [[-> ->]|[Hne Hl]].
    + rewrite String.eqb_refl. eauto.
    + destruct Hne as [Hne|Hno]; [rewrite (proj2 (String.eqb_neq _ _)) by congruence; by apply He|].
      destruct (String.eqb_spec (ProviderKey addr) key) as [<-|]; [|by apply He].
      apply has_key_false in Hno. congruence.
  - by apply bounded_insert_size.
  - by apply size_delete_le.
Qed.

Lemma noteFailure_vouched reads key t err s : vouched reads s.1 -> vouched reads (noteFailure k key t err s).1.
Proof.
  intros Hv. unfold noteFailure. destruct (canceledBy s.2); [done|]. apply vouched_failures; [done|].
  apply bounded_insert_size, Hv.
Qed.

Lemma ack_vouched reads addr s :
  vouched reads s.1 ->
  vouched ((if looks addr s then lookup_read addr s.2 else []) ++ reads) (cached_AcknowledgedSigner k addr s).2.1.
Proof.
  intros Hv. unfold cached_AcknowledgedSigner, looks. set (key := ProviderKey addr).
  destruct (cr_entries s.1 !! key) as [e|]; [destruct (now s.2 <? ce_expires e); [done|]|]; cbn [negb andb];
    (destruct (recentFailure k key (now s.2) s.1) as [f|]; [done|]);
    pose proof (refresh_vouched reads addr s Hv) as Hr; destruct (refresh k addr s) as [[got|err] s']; cbn in Hr |- *;
    try exact Hr; by apply noteFailure_vouched.
Qed.

Lemma refresh_op_vouched reads addr s :
  vouched reads s.1 -> vouched (lookup_read addr s.2 ++ reads) (cached_RefreshSigner k addr s).2.1.
Proof.
  intros Hv. unfold cached_RefreshSigner. pose proof (refresh_vouched reads addr s Hv) as Hr.
  destruct (refresh k addr s) as [[got|err] s']; cbn in Hr |- *; [exact Hr|by apply noteFailure_vouched].
Qed.

Lemma reached_vouched reads s : reached reads s -> vouched reads s.1.
Proof.
  induction 1 as [w|reads c w w' _ IH|reads s addr _ IH|reads s addr _ IH].
  - split; [done|cbn; rewrite map_size_empty; lia..].
  - exact IH.
  - by apply ack_vouched.
  - by apply refresh_op_vouched.
Qed.

(** A refreshed reading is the lookup's own. *)
Lemma refresh_reads addr s sg s' :
  refresh k addr s = (Ok sg, s') ->
  exists got, lookup_read addr s.2 = [(ProviderKey addr, now s'.2, got)] /\
    sg = MkSigner (sg_Address got) (sg_Acknowledged got) false false.
Proof.
  unfold refresh, lookup_read. destruct (RefreshSigner addr s.2) as [[got|err] w]; [|destruct (leaves w); done].
  destruct (leaves w); [done|]. intros Hr. injection Hr as <- <-. cbn. eauto.
Qed.

(** What a reading's flags admit: live, within its lifetime, or within the grace. *)
Definition admits (reads : list read) (addr : string) (sg : Signer) (s s' : cstate) : Prop :=
  exists t got, latest (ProviderKey addr) reads = Some (t, got) /\
    sg_Address sg = sg_Address got /\ sg_Acknowledged sg = sg_Acknowledged got /\
    (if sg_Stale sg then sg_Cached sg = true /\ (now s.2 < t + cc_ttl k + cc_grace k \/ now s'.2 < t + cc_ttl k + cc_grace k)
     else if sg_Cached sg then now s.2 < t + cc_ttl k
     else lookup_read addr s.2 = [(ProviderKey addr, t, got)]).

Lemma stale_admits reads addr t c sg s s' :
  vouched reads c -> staleWithinGrace k (ProviderKey addr) t c = Some sg -> t = now s.2 \/ t = now s'.2 ->
  admits reads addr sg s s'.
Proof.
  intros [He _ _]. unfold staleWithinGrace. destruct (cc_grace k <=? 0); [done|].
  destruct (cr_entries c !! ProviderKey addr) as [e|] eqn:Hl; [|done].
  destruct (Z.ltb_spec t (ce_expires e + cc_grace k)) as [Ht|]; [|done]. intros Hs Hd. injection Hs as <-.
  apply He in Hl as (t0 & got & Hlat & ->). exists t0, got. cbn in *. split_and!; try done. naive_solver lia.
Qed.

(** The cache vouches only for what the chain said. However calls and the passage of
    time interleave, a reading [AcknowledgedSigner] gives carries the address and the
    acknowledgement of the latest successful read of that provider's record: read just
    now if it is not marked cached, within the lifetime if it is marked cached, within
    lifetime and grace if it is marked stale. A failure is never turned into a reading,
    [RefreshSigner] only gives the read it made itself, and the tables hold at most
    their cap of providers. *)
Theorem cache_vouches reads s addr sg s' :
  reached reads s ->
  (cached_AcknowledgedSigner k addr s = (Ok sg, s') ->
   admits ((if looks addr s then lookup_read addr s.2 else []) ++ reads) addr sg s s') /\
  (cached_RefreshSigner k addr s = (Ok sg, s') ->
   sg_Cached sg = false /\ admits (lookup_read addr s.2 ++ reads) addr sg s s') /\
  (size (cr_entries s.1) <= maxCachedProviders)%nat /\ (size (cr_failures s.1) <= maxCachedProviders)%nat.
Proof.
  intros Hre%reached_vouched.
  assert (forall sg s', refresh k addr s = (Ok sg, s') -> sg_Cached sg = false /\ admits (lookup_read addr s.2 ++ reads) addr sg s s') as Hlive.
  { intros sg0 s0 Hr. apply refresh_reads in Hr as (got & Hl & ->). split; [done|]. exists (now s0.2), got.
    rewrite Hl. cbn [app sg_Address sg_Acknowledged sg_Stale sg_Cached]. rewrite latest_cons, String.eqb_refl. done. }
  split_and!; [|unfold cached_RefreshSigner; destruct (refresh k addr s) as [[got|err] s1] eqn:Hr; [|done];
                intros Hx; injection Hx as <- <-; by apply Hlive|apply Hre..].
  unfold cached_AcknowledgedSigner, looks. set (key := ProviderKey addr).
  set (live := match recentFailure k key _ _ with Some f => _ | None => _ end).
  assert (live = (Ok sg, s') ->
    admits ((if match recentFailure k key (now s.2) s.1 with Some _ => false | None => true end
             then lookup_read addr s.2 else []) ++ reads) addr sg s s') as Hrest.
  { unfold live. destruct (recentFailure k key (now s.2) s.1) as [f|].
    - destruct (staleWithinGrace k key (now s.2) s.1) eqn:Hst; [|done]. intros Hx. injection Hx as <- <-.
      eapply stale_admits; [exact Hre|exact Hst|auto].
    - pose proof (refresh_vouched reads addr s Hre) as Hv. destruct (refresh k addr s) as [[got|err] s1] eqn:Hr; cbn in Hv.
      + intros Hx. injection Hx as <- <-. by apply Hlive.
      + destruct (staleWithinGrace _ _ _ _) eqn:Hst; [|done]. intros Hx. injection Hx as <- <-.
        eapply stale_admits; [by apply (noteFailure_vouched _ key (now s1.2) err)|exact Hst|].
        right. unfold noteFailure. by destruct (canceledBy s1.2). }
  destruct (cr_entries s.1 !! key) as [e|] eqn:He; [|exact Hrest].
  destruct (now s.2 <? ce_expires e) eqn:Hf; cbn [negb andb]; [|exact Hrest].
  intros Hx. injection Hx as <- <-. apply Hre in He as (t & got & Hlat & ->). exists t, got.
  apply Z.ltb_lt in Hf. by cbn in *.
Qed.
End vouching.

(** ** Witnesses *)

Section witnesses.

Let service : Service :=
  MkService (repeat "p"%char 20) (bytes_of "chatbot") (bytes_of "https://provider.example") 1 2 3
    (bytes_of "m") [] (bytes_of "{}") (repeat "s"%char 20) true.

Lemma service_roundtrip_witness :
  decodeService (abi_service service)
    = Ok (str_of (bytes_of "0x" ++ hex_encode (repeat "s"%char 20)), true) /\
  decodeServiceURL (abi_service service) = Ok "https://provider.example".
Proof.
  apply (service_roundtrip service); vm_compute; reflexivity.
Defined.

Lemma decode_total_witness : isHexAddress (str_of (bytes_of "0x" ++ hex_encode (repeat "s"%char 20))) = true.
Proof.
  apply (proj2 (proj2 (decode_total (abi_service service))) _ true). vm_compute. reflexivity.
Defined.

(** A chain that answers the same signer, until it fails. *)
#[local] Instance clock_world : World Z := {| now := id; canceledBy := fun _ => false |}.
#[local] Instance clock_flights : Flights Z := fun _ => false.
#[local] Instance clock_registry : SignerRegistry Z :=
  let read_chain w : cresult Signer * Z :=
    (if w <? 500 then Ok (MkSigner "0xs" true false false) else Err (EMsg "chain down"), w + 1) in
  {| AcknowledgedSigner := fun _ => read_chain; RefreshSigner := fun _ => read_chain |}.
Let config : cacheConfig := MkCacheConfig 300 1800 30.
Let first : cachedRegistry * Z := (cached_AcknowledgedSigner config "0xP" (newCached, 0)).2.
Let later : cachedRegistry * Z := (first.1, 600).

(** Read live at 0, then served stale at 600, when the chain is down. *)
Lemma cache_vouches_witness :
  (cached_AcknowledgedSigner config "0xP" later).1 = Ok (MkSigner "0xs" true true true) /\
  admits config [("0xp", 1, MkSigner "0xs" true false false)] "0xP" (MkSigner "0xs" true true true) later
    (cached_AcknowledgedSigner config "0xP" later).2.
Proof.
  assert (reached config [("0xp", 1, MkSigner "0xs" true false false)] later) as Hr.
  { apply (reached_elsewhere config _ _ 1 600).
    exact (reached_ack config [] (newCached, 0) "0xP" (reached_new config 0)). }
  split; [vm_compute; reflexivity|].
  refine (proj1 (cache_vouches config _ later "0xP" (MkSigner "0xs" true true true)
                   (cached_AcknowledgedSigner config "0xP" later).2 Hr) _).
  vm_compute. reflexivity.
Defined.
End witnesses.
