(* ===== verification/Ground.v ===== *)
(** * Ground: turning a candidate into a provider to seal to ([client/route/route.go])

    A candidate's key comes from an attestation quote ([verifiedProviderCached],
    [freshProvider], [reverifiedProvider]) or, without a verifier, from its pubkey
    endpoint; its signer is held against the chain ([groundSignerOnChain]); and
    [materialize] puts the two together. [Router_Resolve] previews and offers the
    candidates to the client. The state is a record of the caches and limiters beside
    the world; [between] is what other requests do to it while this one waits for a
    shared refresh. The gate of [enforce.go] is not modelled: [materialize] is the
    router's with [providerEnforce] off.

    The theorems: a provider is offered only with a well-formed pin and a key from a
    verified quote, and under enforcement only when the chain vouches for its signer;
    nobody is condemned on cached evidence, on either side, while evidence can still be
    renewed; a rotation seen on chain is followed at once. *)

From S2P Require Import Prelude GoBytes GoJson GoDecode GoUrl Profile Hpke Envelope GoHttp Attest Walk Client Stream RateLimit Endpoint Preview Chain.

Definition defaultPubkeyTTL : Z := 5 * Minute.
Definition defaultQuoteTTL : Z := 5 * Minute.
Definition quoteVerifyTimeout : Z := 60 * Second.
Definition x25519PubLen : nat := 32.
Definition reverifyFailureBackoff : Z := 30 * Second.
Definition signerRevalidateWindow : Z := Minute.

(** ** Names and addresses *)

Definition isAddress (s : string) : bool :=
  match bytes_of s with
  | z :: x :: r => Nat.eqb (length (bytes_of s)) 42 && Ascii.eqb z "0" && Ascii.eqb x "x" && forallb is_hex_letter r
  | _ => false
  end.

Section urls.
Context `{UrlLib}.

Definition absolute (endpoint : string) : cresult (string * string * string) :=
  u ← of_option (url_Parse endpoint) (EMsg "not a valid URL");
  _ ← refuse (String.eqb (u_Scheme u) "" || String.eqb (u_Host u) "") (EMsg "not an absolute URL");
  Ok (u_Scheme u, u_Host u, u_Path u).

Definition deriveV1Base (endpoint : string) : cresult string :=
  '(scheme, host, path) ← absolute endpoint;
  let base := trim_suffix path "/" in
  let base := if has_suffix base "/chat/completions" then trim_suffix base "/chat/completions"
              else if has_suffix base "/v1" then base
              else base +:+ "/v1" in
  Ok (to_lower scheme +:+ "://" +:+ to_lower host +:+ base).

Definition deriveOrigin (endpoint : string) : cresult string :=
  '(scheme, host, _) ← absolute endpoint;
  Ok (scheme +:+ "://" +:+ host).

Definition derivePubkeyURL (endpoint : string) : cresult string :=
  base ← deriveV1Base endpoint; Ok (base +:+ "/e2ee/pubkey").
Definition deriveQuoteURL (endpoint : string) : cresult string :=
  base ← deriveV1Base endpoint; Ok (base +:+ "/quote?legacy=false").
End urls.

(** ** What is known of a provider *)

Inductive Verdict := VerdictPass | VerdictNoMatch | VerdictNoBaseline | VerdictUnavailable | VerdictNotChecked.

(** [quoteFacts], as far as it is read here. *)
Record quoteFacts := MkFacts { qf_measurement : Verdict; qf_osImage : string; qf_respBind : bool }.
Record quoteResult := MkQuote { qr_encPub : PublicKey; qr_signer : string; qr_facts : quoteFacts }.

Record pubkeyResponse := MkPK { pk_V : Z; pk_KEMID : string; pk_EncPub : string; pk_KeyID : string; pk_SignerAddress : string }.
Definition pubkeyResponse_fields : list (string * (pubkeyResponse -> json -> result jerr pubkeyResponse)) :=
  [("v", fun p j => v ← set_int (pk_V p) j; Ok (MkPK v (pk_KEMID p) (pk_EncPub p) (pk_KeyID p) (pk_SignerAddress p)));
   ("kem_id", fun p j => v ← set_string (pk_KEMID p) j; Ok (MkPK (pk_V p) v (pk_EncPub p) (pk_KeyID p) (pk_SignerAddress p)));
   ("enc_pub", fun p j => v ← set_string (pk_EncPub p) j; Ok (MkPK (pk_V p) (pk_KEMID p) v (pk_KeyID p) (pk_SignerAddress p)));
   ("key_id", fun p j => v ← set_string (pk_KeyID p) j; Ok (MkPK (pk_V p) (pk_KEMID p) (pk_EncPub p) v (pk_SignerAddress p)));
   ("signer_address", fun p j => v ← set_string (pk_SignerAddress p) j; Ok (MkPK (pk_V p) (pk_KEMID p) (pk_EncPub p) (pk_KeyID p) v))].

Definition validatePubkey (pk : pubkeyResponse) : cresult (PublicKey * string) :=
  _ ← refuse (negb (pk_V pk =? 0) && negb (pk_V pk =? Version)) (EMsg "provider pubkey version unsupported");
  _ ← refuse (negb (String.eqb (pk_KEMID pk) "") && negb (String.eqb (pk_KEMID pk) KEMID)) (EMsg "provider kem_id unsupported");
  encPub ← of_option (unb64 (pk_EncPub pk)) (EMsg "bad enc_pub");
  _ ← refuse (negb (Nat.eqb (length encPub) x25519PubLen)) (EMsg "enc_pub must be 32 bytes");
  _ ← refuse (negb (isAddress (pk_SignerAddress pk))) (EMsg "bad signer_address");
  Ok (encPub, pk_SignerAddress pk).

(** ** The router's state *)

(** What the router was built with: [verifier], [registry] and how they are used. *)
Record Checks := MkChecks {
  ck_verifier : option Verifier;
  ck_registry : bool;
  ck_onchainEnforce : bool
}.

(** [groundingOutcome] and [grounding]. *)
Inductive groundingOutcome :=
| groundingOK | groundingOKStale | groundingMismatch | groundingNotAcknowledged | groundingLookupFailed.
#[export] Instance groundingOutcome_eq_dec : EqDecision groundingOutcome.
Proof. solve_decision. Defined.
Record grounding := MkGrounding { gr_outcome : groundingOutcome; gr_revalidated : bool }.

Definition revalidationResult (outcome : groundingOutcome) : string :=
  match outcome with
  | groundingOK | groundingOKStale => "ok"
  | groundingLookupFailed => "lookup_failed"
  | _ => "negative"
  end.

Definition onchainVerdictOf (outcome : groundingOutcome) : Verdict :=
  match outcome with
  | groundingOK | groundingOKStale => VerdictPass
  | groundingMismatch | groundingNotAcknowledged => VerdictNoMatch
  | groundingLookupFailed => VerdictUnavailable
  end.

(** [ProviderIdentity]: what a record says of a provider. *)
Record ProviderIdentity := MkIdentity {
  id_Address : string; id_Endpoint : string; id_QuoteURL : string;
  id_QuoteDCAP : Verdict; id_OnChainSigner : Verdict; id_Measurement : Verdict; id_OSImage : string
}.

Inductive gevent :=
| EvOnChainRevalidation (result : string)
| EvOnChainGrounding (outcome : groundingOutcome)
| EvIdentity (id : ProviderIdentity).

Record gstate (W : Type) := MkG {
  g_quotes : ttlCache quoteResult;
  g_pubkeys : ttlCache (PublicKey * string);
  g_quoteReverify : rateLimiter;
  g_signerRevalidate : rateLimiter;
  g_respBind : option respBindStore;
  g_log : list gevent;
  g_world : W
}.
Arguments MkG {W} _ _ _ _ _ _ _.
Arguments g_quotes {W} _.
Arguments g_pubkeys {W} _.
Arguments g_quoteReverify {W} _.
Arguments g_signerRevalidate {W} _.
Arguments g_respBind {W} _.
Arguments g_log {W} _.
Arguments g_world {W} _.

Definition signerAgrees (onchain : Signer) (signer : string) : bool :=
  sg_Acknowledged onchain && equal_fold (trim_space (sg_Address onchain)) (trim_space signer).

Section materializing.
Context {W : Type} `{World W} `{RouterOutside W} `{SignerRegistry W} `{Flights W} `{UrlLib}.
Context (r : Router) (k : Checks).
Abbreviation state := (gstate W).

Definition g_now (s : state) : Z := now (g_world s).
Definition with_world (w : W) (s : state) : state :=
  MkG (g_quotes s) (g_pubkeys s) (g_quoteReverify s) (g_signerRevalidate s) (g_respBind s) (g_log s) w.
Definition with_quotes (q : ttlCache quoteResult) (s : state) : state :=
  MkG q (g_pubkeys s) (g_quoteReverify s) (g_signerRevalidate s) (g_respBind s) (g_log s) (g_world s).
Definition with_pubkeys (p : ttlCache (PublicKey * string)) (s : state) : state :=
  MkG (g_quotes s) p (g_quoteReverify s) (g_signerRevalidate s) (g_respBind s) (g_log s) (g_world s).
Definition with_reverify (l : rateLimiter) (s : state) : state :=
  MkG (g_quotes s) (g_pubkeys s) l (g_signerRevalidate s) (g_respBind s) (g_log s) (g_world s).
Definition with_revalidate (l : rateLimiter) (s : state) : state :=
  MkG (g_quotes s) (g_pubkeys s) (g_quoteReverify s) l (g_respBind s) (g_log s) (g_world s).
Definition glog (e : gevent) (s : state) : state :=
  MkG (g_quotes s) (g_pubkeys s) (g_quoteReverify s) (g_signerRevalidate s) (g_respBind s) (g_log s ++ [e]) (g_world s).

(** ** Fetching ([fetchQuote], [pubkey]) *)

(** A GET whose reply is 200, and its body. *)
Definition get_ok (what : string) (deadline : Z) (url : string) (s : state) : cresult bytes * state :=
  if negb (url_ok url) then (Err (upstream 0 (EMsg "bad URL")), s)
  else match rt_do deadline (MkHttpRequest url ∅ []) (g_world s) with
       | (Err err, w) => (Err (upstream 0 (EWrap what err)), with_world w s)
       | (Ok resp, w) =>
           (match read_all_limited maxControlBodyBytes resp with
            | Err err => Err (upstream 0 (EWrap what err))
            | Ok body => if negb (hs_Status resp =? StatusOK)
                         then Err (upstreamBody (hs_Status resp) body (EMsg "an error status"))
                         else Ok body
            end, with_world (rt_read deadline resp w) s)
       end.

(** [fetchQuote]: the quote, and the reply it came in. *)
Definition fetchQuote (deadline : Z) (quoteURL : string) (s : state) : cresult (bytes * bytes) * state :=
  match get_ok "fetch provider quote" deadline quoteURL s with
  | (Err err, s) => (Err err, s)
  | (Ok body, s) => (raw ← map_err (fun _ => upstream 0 (EMsg "decode quote")) (DecodeQuoteResponse body);
                     Ok (raw, body), s)
  end.

Definition measurementVerdict (v : Verifier) (verified : Verified) : Verdict :=
  if vd_MeasurementTrusted verified then VerdictPass
  else if MeasurementBaselineConfigured v then VerdictNoMatch
  else VerdictNoBaseline.

(** [verifyQuoteAt]'s result, of a quote and the reply it came in. *)
Definition quoteResultOf (v : Verifier) (raw reply : bytes) : cresult quoteResult :=
  verified ← map_err (fun _ => upstream 0 (EMsg "provider quote")) (Verify v raw);
  Ok (MkQuote (vd_EncPub verified) (vd_SignerAddr verified)
        (MkFacts (measurementVerdict v verified) (vd_MeasurementImage verified) (quoteAdvertisesRespBind reply))).

Definition verifyQuoteAt (v : Verifier) (deadline : Z) (quoteURL : string) (s : state) : cresult quoteResult * state :=
  match fetchQuote deadline quoteURL s with
  | (Err err, s) => (Err err, s)
  | (Ok (raw, reply), s) => (quoteResultOf v raw reply, s)
  end.

(** [verifyAndCache]: the shared verification runs under its own deadline; who waits for
    it may be [gone] by the time it ends. *)
Definition verifyAndCacheFor (gone : W -> bool) (v : Verifier) (quoteURL : string) (s : state)
    : cresult quoteResult * state :=
  let '(res, s) := verifyQuoteAt v (g_now s + quoteVerifyTimeout) quoteURL s in
  let s := match res with
           | Ok res => with_quotes (cache_put (g_quotes s) (g_now s) quoteURL res) s
           | Err _ => s
           end in
  (if gone (g_world s) then Err (upstream 0 (EMsg "context done")) else res, s).

(** By the caller itself. *)
Definition verifyAndCache : Verifier -> string -> state -> cresult quoteResult * state := verifyAndCacheFor leaves.

Definition verifiedProviderCached (v : Verifier) (endpoint : string) (s : state) : cresult (quoteResult * bool) * state :=
  match deriveQuoteURL endpoint with
  | Err err => (Err (upstream 0 (EWrap "provider endpoint" err)), s)
  | Ok quoteURL =>
      match cache_get (g_quotes s) (g_now s) quoteURL with
      | Some res => (Ok (res, true), s)
      | None => match verifyAndCache v quoteURL s with
                | (Ok res, s) => (Ok (res, false), s)
                | (Err err, s) => (Err err, s)
                end
      end
  end.

Definition mayReverifyQuote (quoteURL : string) (s : state) : bool * state :=
  let window := if tc_ttl (g_quotes s) <=? 0 then defaultQuoteTTL else tc_ttl (g_quotes s) in
  let '(ok, l) := rl_allow (g_quoteReverify s) (g_now s) quoteURL window in (ok, with_reverify l s).

Definition reverifiedProviderFor (gone : W -> bool) (v : Verifier) (endpoint : string) (s : state)
    : cresult quoteResult * state :=
  match deriveQuoteURL endpoint with
  | Err err => (Err (upstream 0 (EWrap "provider endpoint" err)), s)
  | Ok quoteURL =>
      match mayReverifyQuote quoteURL s with
      | (false, s) => (Err (upstream 0 (EMsg "quote re-verification throttled")), s)
      | (true, s) =>
          match verifyAndCacheFor gone v quoteURL s with
          | (Ok res, s) => (Ok res, s)
          | (Err err, s) =>
              (Err err, with_reverify (rl_reschedule (g_quoteReverify s) (g_now s) quoteURL reverifyFailureBackoff) s)
          end
      end
  end.

(** [reverifiedProvider], under the caller's context and under one detached from it
    ([context.WithoutCancel]), which nobody leaves. *)
Definition reverifiedProvider : Verifier -> string -> state -> cresult quoteResult * state := reverifiedProviderFor leaves.
Definition reverifiedDetached : Verifier -> string -> state -> cresult quoteResult * state :=
  reverifiedProviderFor (fun _ => false).

(** ** A key the provider rejected *)

(** What other requests do before this one's shared refresh starts. *)
Context (between : state -> state).

Definition freshProvider (v : Verifier) (endpoint : string) (stale : option PublicKey) (s : state)
    : cresult (quoteResult * bool) * state :=
  match verifiedProviderCached v endpoint s with
  | (Err err, s) => (Err err, s)
  | (Ok (res, cached), s) =>
      match stale with
      | None => (Ok (res, cached), s)
      | Some stale =>
          if negb cached || negb (bool_decide (qr_encPub res = stale)) then (Ok (res, cached), s)
          else match deriveQuoteURL endpoint with
               | Err err => (Err (upstream 0 (EWrap "provider endpoint" err)), s)
               | Ok quoteURL =>
                   let s := between s in
                   let flight :=
                     match reverifiedDetached v endpoint s with
                     | (Err err, s) => (Err err, s)
                     | (Ok fresh, s) => (Ok (fresh, false), s)
                     end in
                   let '(got, s) :=
                     match cache_get (g_quotes s) (g_now s) quoteURL with
                     | Some res => if bool_decide (qr_encPub res = stale) then flight else (Ok (res, true), s)
                     | None => flight
                     end in
                   (if leaves (g_world s) then Err (upstream 0 (EMsg "context done")) else got, s)
               end
      end
  end.

(** ** Without quote verification ([pubkey], [freshPubkey]) *)

Definition pubkey (deadline : Z) (pubkeyURL : string) (s : state) : cresult (PublicKey * string) * state :=
  match cache_get (g_pubkeys s) (g_now s) pubkeyURL with
  | Some ks => (Ok ks, s)
  | None =>
      match get_ok "fetch provider pubkey" deadline pubkeyURL s with
      | (Err err, s) => (Err err, s)
      | (Ok body, s) =>
          match (pk ← map_err (fun e => upstream 0 (EWrap "decode provider pubkey" (EJson e)))
                        (unmarshal (unmarshal_struct pubkeyResponse_fields (MkPK 0 "" "" "" "")) body);
                 map_err (upstream 0) (validatePubkey pk)) with
          | Err err => (Err err, s)
          | Ok ks => (Ok ks, with_pubkeys (cache_put (g_pubkeys s) (g_now s) pubkeyURL ks) s)
          end
      end
  end.

Definition freshPubkey (deadline : Z) (pubkeyURL : string) (stale : option PublicKey) (s : state)
    : cresult (PublicKey * string) * state :=
  let s := match stale, cache_get (g_pubkeys s) (g_now s) pubkeyURL with
           | Some stale, Some (encPub, _) =>
               if bool_decide (encPub = stale) then with_pubkeys (cache_del (g_pubkeys s) pubkeyURL) s else s
           | _, _ => s
           end in
  pubkey deadline pubkeyURL s.

(** ** The chain *)

Definition onchainVerdict (outcome : groundingOutcome) (revalidated : bool) (msg : string)
    : grounding * option cerr :=
  (MkGrounding outcome revalidated, if ck_onchainEnforce k then Some (upstream 0 (EMsg msg)) else None).

Definition onchainLookupFailed (cause : cerr) : grounding * option cerr :=
  (MkGrounding groundingLookupFailed false,
   if ck_onchainEnforce k then Some (upstream 0 (EWrap "on-chain signer lookup failed" cause)) else None).

(** The verdict on a reading. *)
Definition judge (got : Signer) (signer : string) (revalidated : bool) : grounding * option cerr :=
  if negb (sg_Acknowledged got) then
    onchainVerdict groundingNotAcknowledged revalidated "no acknowledged on-chain TEE signer"
  else if negb (signerAgrees got signer) then
    onchainVerdict groundingMismatch revalidated "quote signer does not match on-chain teeSignerAddress"
  else (MkGrounding (if sg_Stale got then groundingOKStale else groundingOK) revalidated, None).

Definition groundSignerOnChain (providerAddr signer : string) (s : state) : (grounding * option cerr) * state :=
  match AcknowledgedSigner providerAddr (g_world s) with
  | (Err err, w) => (onchainLookupFailed err, with_world w s)
  | (Ok got, w) =>
      let s := with_world w s in
      let key := ProviderKey providerAddr in
      if sg_Cached got && negb (signerAgrees got signer) then
        let '(ok, l) := rl_allow (g_signerRevalidate s) (g_now s) key signerRevalidateWindow in
        let s := with_revalidate l s in
        if ok then
          match RefreshSigner providerAddr (g_world s) with
          | (Err err, w) =>
              let s := with_world w s in
              let s := with_revalidate (rl_reschedule (g_signerRevalidate s) (g_now s) key reverifyFailureBackoff) s in
              let '(g, e) := onchainLookupFailed err in ((MkGrounding (gr_outcome g) true, e), s)
          | (Ok got, w) => (judge got signer true, with_world w s)
          end
        else (judge got signer false, s)
      else (judge got signer false, s)
  end.

(** ** Materializing *)

Definition providerIdentityOf (address endpoint : string) (res : quoteResult) (onchain : Verdict) : ProviderIdentity :=
  MkIdentity address
    (match deriveOrigin endpoint with Ok o => o | Err _ => "" end)
    (match deriveQuoteURL endpoint with Ok u => u | Err _ => "" end)
    VerdictPass onchain (qf_measurement (qr_facts res))
    (match qf_measurement (qr_facts res) with VerdictPass => qf_osImage (qr_facts res) | _ => "" end).

(** The keys to seal to, and what is known of the enclave behind them: from its quote
    (cached or not), or from its pubkey endpoint. *)
Inductive keys_from := FromQuote (v : Verifier) (res : quoteResult) (cached : bool) | FromPubkey (ks : PublicKey * string).
Definition keys_of (f : keys_from) : PublicKey * string :=
  match f with FromQuote _ res _ => (qr_encPub res, qr_signer res) | FromPubkey ks => ks end.

Definition obtainKeys (deadline : Z) (prov : previewProvider) (stale : option PublicKey) (s : state)
    : cresult keys_from * state :=
  match ck_verifier k with
  | Some v => match freshProvider v (pp_Endpoint prov) stale s with
              | (Err err, s) => (Err err, s)
              | (Ok (res, cached), s) => (Ok (FromQuote v res cached), s)
              end
  | None => match derivePubkeyURL (pp_Endpoint prov) with
            | Err err => (Err (upstream 0 (EWrap "provider endpoint" err)), s)
            | Ok url => match freshPubkey deadline url stale s with
                        | (Err err, s) => (Err err, s)
                        | (Ok ks, s) => (Ok (FromPubkey ks), s)
                        end
            end
  end.

(** Grounding, and the recovery when a cached quote disagrees with the chain. *)
Definition groundKeys (prov : previewProvider) (from : keys_from) (s : state)
    : (keys_from * grounding * option cerr) * state :=
  let '((g, e), s) := groundSignerOnChain (pp_Address prov) (keys_of from).2 s in
  match from with
  | FromQuote v res true =>
      if bool_decide (gr_outcome g = groundingMismatch) then
        match reverifiedProvider v (pp_Endpoint prov) s with
        | (Err _, s) => ((from, g, e), s)
        | (Ok fresh, s) =>
            if String.eqb (qr_signer fresh) (qr_signer res) then ((from, g, e), s)
            else let '((g, e), s) := groundSignerOnChain (pp_Address prov) (qr_signer fresh) s in
                 ((FromQuote v fresh true, MkGrounding (gr_outcome g) true, e), s)
        end
      else ((from, g, e), s)
  | _ => ((from, g, e), s)
  end.

Definition bindsResponse (addr : string) (s : state) : bool :=
  match g_respBind s, ck_verifier k with Some b, Some _ => rb_supports b addr | _, _ => false end.

(** The record, then the candidate's refusal or the provider. *)
Definition conclude (upstreamURL : string) (prov : previewProvider) (from : keys_from) (onchain : Verdict)
    (grounded : option cerr) (s : state) : cresult Provider * state :=
  let s := match from with
           | FromQuote _ res _ =>
               glog (EvIdentity (providerIdentityOf (pp_Address prov) (pp_Endpoint prov) res onchain)) s
           | FromPubkey _ => s
           end in
  match grounded with
  | Some err => (Err err, s)
  | None => (Ok (MkProvider upstreamURL (keys_of from).1 (keys_of from).2 (pp_Address prov)
                   (pp_ProviderIdentity prov) (pp_Endpoint prov) (pp_CanonicalID prov)
                   (bindsResponse (pp_Address prov) s)), s)
  end.

Definition materialize (upstreamURL : string) (deadline : Z) (prov : previewProvider) (stale : option PublicKey)
    (s : state) : cresult Provider * state :=
  if negb (isAddress (pp_Address prov)) then (Err (upstream 0 (EMsg "no usable address")), s)
  else if String.eqb (pp_Endpoint prov) "" then (Err (upstream 0 (EMsg "no endpoint")), s)
  else if String.eqb (pp_CanonicalID prov) "" then (Err (upstream 0 (EMsg "no canonical_id")), s)
  else match obtainKeys deadline prov stale s with
  | (Err err, s) => (Err err, s)
  | (Ok from, s) =>
      if ck_registry k then
        let '((from, g, e), s) := groundKeys prov from s in
        let s := if gr_revalidated g then glog (EvOnChainRevalidation (revalidationResult (gr_outcome g))) s else s in
        conclude upstreamURL prov from (onchainVerdictOf (gr_outcome g)) e
          (glog (EvOnChainGrounding (gr_outcome g)) s)
      else conclude upstreamURL prov from VerdictNotChecked None s
  end.

(** The [i]-th candidate of a list; past its end is a panic. *)
Definition candidate (providers : list previewProvider) (upstreamURL : string) (deadline : Z) (i : nat)
    (stale : option PublicKey) (s : state) : cresult Provider * state :=
  match providers !! i with
  | Some prov => materialize upstreamURL deadline prov stale s
  | None => (Err EPanic, s)
  end.

(** [routeCandidates], which is a [KeyRefresher] too. *)
Definition routeCandidates (providers : list previewProvider) (upstreamURL : string) : Candidates state :=
  MkCandidates (length providers)
    (fun deadline i => candidate providers upstreamURL deadline i None)
    (Some (fun deadline i stale => candidate providers upstreamURL deadline i (Some stale))).

(** [Router.Resolve]. *)
Definition Router_preview (forward : Header) (credential : string) (ep : Endpoint) (req : Request) (s : state)
    : cresult (list previewProvider * string) * state :=
  match upstreamURL r ep with
  | Err err => (Err err, s)
  | Ok url =>
      let '(res, p) := preview r forward credential ep req (MkR (g_world s) []) in
      (providers ← res; Ok (providers, url), with_world (rs_world p) s)
  end.

Definition Router_Resolve (forward : Header) (credential : string) (ep : Endpoint) (req : Request) (s : state)
    : cresult (Candidates state) * state :=
  match Router_preview forward credential ep req s with
  | (Err err, s) => (Err err, s)
  | (Ok (providers, url), s) => (Ok (routeCandidates providers url), s)
  end.
End materializing.

(** ** Facts about the pieces *)

Section facts.
Context {W : Type} `{World W} `{RouterOutside W} `{SignerRegistry W} `{Flights W} `{UrlLib}.
Context (r : Router) (k : Checks) (between : gstate W -> gstate W).
Abbreviation state := (gstate W).

(** The body of a 200 reply to a GET of [url]. *)
Definition fetched (url : string) (body : bytes) : Prop :=
  exists deadline w resp w', rt_do deadline (MkHttpRequest url ∅ []) w = (Ok resp, w') /\
    hs_Status resp = StatusOK /\ read_all_limited maxControlBodyBytes resp = Ok body.

(** The facts of a quote that was served at [url] and verified. *)
Definition attested (v : Verifier) (url : string) (res : quoteResult) : Prop :=
  exists raw reply, fetched url reply /\ DecodeQuoteResponse reply = Ok raw /\ quoteResultOf v raw reply = Ok res.

(** Everything cached was attested. *)
Definition quotes_ok (v : Verifier) (s : state) : Prop :=
  forall url res exp, tc_m (g_quotes s) !! url = Some (res, exp) -> attested v url res.

Lemma get_ok_fetched what deadline url s body s' :
  get_ok what deadline url s = (Ok body, s') -> fetched url body /\ g_quotes s' = g_quotes s.
Proof.
  unfold get_ok. destruct (negb (url_ok url)); [done|].
  destruct (rt_do _ _ _) as [[resp|err] w] eqn:Hdo; [|done]. intros Hg. injection Hg as Hb <-. split; [|done].
  destruct (read_all_limited _ resp) as [b|] eqn:Hr; [|done]. destruct (hs_Status resp =? StatusOK) eqn:Hst; [|done].
  injection Hb as <-. apply Z.eqb_eq in Hst. by exists deadline, (g_world s), resp, w.
Qed.

Lemma get_ok_quotes what deadline url s : g_quotes (get_ok what deadline url s).2 = g_quotes s.
Proof. unfold get_ok. destruct (negb (url_ok url)); [done|]. by destruct (rt_do _ _ _) as [[resp|err] w]. Qed.

Lemma verifyQuoteAt_quotes v deadline url s : g_quotes (verifyQuoteAt v deadline url s).2 = g_quotes s.
Proof.
  unfold verifyQuoteAt, fetchQuote. pose proof (get_ok_quotes "fetch provider quote" deadline url s) as Hq.
  destruct (get_ok _ _ _ _) as [[body|err] s1]; [|done]. cbn in Hq |- *.
  destruct (map_err _ (DecodeQuoteResponse body)) as [raw|]; [|done]. by cbn.
Qed.

Lemma verifyQuoteAt_attested v deadline url s res s' :
  verifyQuoteAt v deadline url s = (Ok res, s') -> attested v url res.
Proof.
  unfold verifyQuoteAt, fetchQuote. destruct (get_ok _ _ _ _) as [[body|err] s1] eqn:Hg; [|done].
  apply get_ok_fetched in Hg as [Hf _]. destruct (DecodeQuoteResponse body) as [raw|] eqn:Hd; cbn; [|done].
  intros Hv. injection Hv as Hv _. by exists raw, body.
Qed.

Lemma verifyAndCacheFor_ok gone v url s :
  quotes_ok v s ->
  quotes_ok v (verifyAndCacheFor gone v url s).2 /\
  (forall res, (verifyAndCacheFor gone v url s).1 = Ok res -> attested v url res).
Proof.
  intros Hq. unfold verifyAndCacheFor. set (d := g_now s + quoteVerifyTimeout).
  pose proof (verifyQuoteAt_quotes v d url s) as Hs. pose proof (verifyQuoteAt_attested v d url s) as Ha.
  destruct (verifyQuoteAt v d url s) as [[res|err] s1]; cbn in Hs |- *.
  - split; [|destruct (gone _); [done|]; intros res' Hr; injection Hr as <-; by eapply Ha].
    intros u res' exp. cbn. unfold cache_put. rewrite Hs. destruct (tc_ttl (g_quotes s) <=? 0); [apply Hq|].
    cbn. rewrite lookup_insert_Some. intros [[<- Hr]|[_ Hr]]; [|by eapply Hq]. injection Hr as <- _. by eapply Ha.
  - split; [|by destruct (gone _)]. intros u res exp. rewrite Hs. apply Hq.
Qed.

Lemma cache_get_held {V} (c : ttlCache V) t key v : cache_get c t key = Some v -> exists exp, tc_m c !! key = Some (v, exp).
Proof.
  unfold cache_get. destruct (tc_ttl c <=? 0); [done|]. destruct (tc_m c !! key) as [[v' exp]|]; [|done].
  destruct (exp <? t); [done|]. intros Hv. injection Hv as <-. eauto.
Qed.

(** The quote URL of an endpoint, when it has one. *)
Definition quote_of (v : Verifier) (endpoint : string) (res : quoteResult) : Prop :=
  exists url, deriveQuoteURL endpoint = Ok url /\ attested v url res.

Lemma verifiedProviderCached_ok v endpoint s :
  quotes_ok v s ->
  quotes_ok v (verifiedProviderCached v endpoint s).2 /\
  (forall res c, (verifiedProviderCached v endpoint s).1 = Ok (res, c) -> quote_of v endpoint res).
Proof.
  intros Hq. unfold verifiedProviderCached, quote_of. destruct (deriveQuoteURL endpoint) as [url|]; [|done].
  destruct (cache_get _ _ url) as [res|] eqn:Hc.
  - split; [done|]. cbn. intros res' c Hr. injection Hr as <- <-. apply cache_get_held in Hc as [exp Hc]. eauto.
  - unfold verifyAndCache.
    destruct (verifyAndCacheFor_ok leaves v url s Hq) as [Hq' Ha]. destruct (verifyAndCacheFor _ v url s) as [[res|err] s1]; [|done].
    split; [done|]. cbn. intros res' c Hr. injection Hr as <- <-. eauto.
Qed.

Lemma reverifiedProviderFor_ok gone v endpoint s :
  quotes_ok v s ->
  quotes_ok v (reverifiedProviderFor gone v endpoint s).2 /\
  (forall res, (reverifiedProviderFor gone v endpoint s).1 = Ok res -> quote_of v endpoint res).
Proof.
  intros Hq. unfold reverifiedProviderFor, quote_of. destruct (deriveQuoteURL endpoint) as [url|]; [|done].
  unfold mayReverifyQuote. destruct (rl_allow _ _ _ _) as [[|] l]; [|done].
  destruct (verifyAndCacheFor_ok gone v url (with_reverify l s) Hq) as [Hq' Ha].
  destruct (verifyAndCacheFor _ v url _) as [[res|err] s1]; [|done]. split; [done|]. cbn. intros res' Hr.
  injection Hr as <-. eauto.
Qed.

(** Other requests keep the cache attested. *)
Definition fair : Prop := forall v s, quotes_ok v s -> quotes_ok v (between s).
Hypothesis others_fair : fair.

Lemma freshProvider_ok v endpoint stale s :
  quotes_ok v s ->
  quotes_ok v (freshProvider between v endpoint stale s).2 /\
  (forall res c, (freshProvider between v endpoint stale s).1 = Ok (res, c) -> quote_of v endpoint res).
Proof.
  intros Hq. unfold freshProvider. destruct (verifiedProviderCached_ok v endpoint s Hq) as [Hq1 Ha1].
  destruct (verifiedProviderCached v endpoint s) as [[[res c]|err] s1]; [|done].
  destruct stale as [stale|]; [|done]. destruct (_ || _); [done|]. cbn in Hq1.
  destruct (deriveQuoteURL endpoint) as [url|] eqn:Hu; [|done]. cbn zeta. pose proof (others_fair v s1 Hq1) as Hq2.
  destruct (reverifiedProviderFor_ok (fun _ => false) v endpoint (between s1) Hq2) as [Hq3 Ha3].
  fold (reverifiedDetached v endpoint (between s1)) in Hq3, Ha3.
  assert (forall res, cache_get (g_quotes (between s1)) (g_now (between s1)) url = Some res -> quote_of v endpoint res) as Hc.
  { intros res' Hc. apply cache_get_held in Hc as [exp Hc]. exists url. split; [done|]. by eapply Hq2. }
  destruct (reverifiedDetached v endpoint (between s1)) as [[fresh|err] s3]; cbn in Hq3, Ha3;
    (destruct (cache_get _ _ url) as [res'|]; [destruct (bool_decide _)|]); cbn;
    (split; [done|]); destruct (leaves _); try done; intros res0 c0 Hr; injection Hr as <- <-; eauto.
Qed.

Lemma pubkey_quotes deadline url s : g_quotes (pubkey deadline url s).2 = g_quotes s.
Proof.
  unfold pubkey. destruct (cache_get _ _ _); [done|]. pose proof (get_ok_quotes "fetch provider pubkey" deadline url s) as Hq.
  destruct (get_ok _ _ _ _) as [[body|err] s1]; [|done]. cbn in Hq. by destruct (_ ≫= _).
Qed.

(** What keys were obtained from. *)
Definition keys_ok (prov : previewProvider) (from : keys_from) : Prop :=
  match from with
  | FromQuote v res _ => ck_verifier k = Some v /\ quote_of v (pp_Endpoint prov) res
  | FromPubkey _ => ck_verifier k = None
  end.

Definition caches_ok (s : state) : Prop := forall v, ck_verifier k = Some v -> quotes_ok v s.

Lemma obtainKeys_ok deadline prov stale s :
  caches_ok s ->
  caches_ok (obtainKeys k between deadline prov stale s).2 /\
  (forall from, (obtainKeys k between deadline prov stale s).1 = Ok from -> keys_ok prov from).
Proof.
  intros Hq. unfold obtainKeys. destruct (ck_verifier k) as [v|] eqn:Hv.
  - destruct (freshProvider_ok v (pp_Endpoint prov) stale s (Hq v Hv)) as [Hq1 Ha].
    destruct (freshProvider between v (pp_Endpoint prov) stale s) as [[[res c]|err] s1]; cbn in *;
      (split; [intros v' Hv'; rewrite Hv in Hv'; injection Hv' as <-; exact Hq1|]); [|done]. intros from Hf. injection Hf as <-. cbn. eauto.
  - split; [intros v' Hv'; congruence|]. destruct (derivePubkeyURL _) as [url|]; [|done].
    destruct (freshPubkey _ _ _ _) as [[ks|err] s1]; [|done]. cbn. intros from Hf. by injection Hf as <-.
Qed.

(** ** The chain's word *)

(** Some reading of the registry vouches for the signer. *)
Definition vouches (addr signer : string) : Prop :=
  exists w got w', (AcknowledgedSigner addr w = (Ok got, w') \/ RefreshSigner addr w = (Ok got, w')) /\
    signerAgrees got signer = true.

Lemma signerAgrees_acked got signer : signerAgrees got signer = true -> sg_Acknowledged got = true.
Proof. unfold signerAgrees. by intros [? _]%andb_true_iff. Qed.

(** The outcomes that vouch for the signer, and those that speak against the provider. *)
Definition passing (o : groundingOutcome) : bool :=
  match o with groundingOK | groundingOKStale => true | _ => false end.
Definition negative (o : groundingOutcome) : bool :=
  match o with groundingMismatch | groundingNotAcknowledged => true | _ => false end.

Lemma judge_cases got signer b :
  if signerAgrees got signer
  then (judge k got signer b).2 = None /\ passing (gr_outcome (judge k got signer b).1) = true
  else ((judge k got signer b).2 = None -> ck_onchainEnforce k = false) /\
       negative (gr_outcome (judge k got signer b).1) = true.
Proof.
  unfold judge, onchainVerdict. destruct (signerAgrees got signer) eqn:Ha.
  - rewrite (signerAgrees_acked _ _ Ha). cbn. by destruct (sg_Stale got).
  - destruct (sg_Acknowledged got); cbn; by destruct (ck_onchainEnforce k).
Qed.

Lemma passing_negative o : passing o = true -> negative o = true -> False.
Proof. by destruct o. Qed.

(** A negative verdict rests on a live reading, unless the provider's allowance of live
    readings was spent at that instant. *)
Definition evidence (addr signer : string) (l : rateLimiter) : Prop :=
  exists w got w', signerAgrees got signer = false /\
    (RefreshSigner addr w = (Ok got, w') \/
     AcknowledgedSigner addr w = (Ok got, w') /\
     (sg_Cached got = false \/ (rl_allow l (now w') (ProviderKey addr) signerRevalidateWindow).1 = false)).

(** What a grounding rests on. *)
Record grounded_on (addr signer : string) (s : state) (g : grounding) (e : option cerr) : Prop := {
  go_pass : e = None -> ck_onchainEnforce k = true -> vouches addr signer;
  go_ok : passing (gr_outcome g) = true -> e = None /\ vouches addr signer;
  go_negative : negative (gr_outcome g) = true -> evidence addr signer (g_signerRevalidate s)
}.

Lemma judge_on addr signer s b w got w' g e :
  RefreshSigner addr w = (Ok got, w') \/
  (AcknowledgedSigner addr w = (Ok got, w') /\
   (signerAgrees got signer = true \/ sg_Cached got = false \/
    (rl_allow (g_signerRevalidate s) (now w') (ProviderKey addr) signerRevalidateWindow).1 = false)) ->
  judge k got signer b = (g, e) -> grounded_on addr signer s g e.
Proof.
  intros Hread Hg. pose proof (judge_cases got signer b) as Hj. rewrite Hg in Hj. cbn in Hj.
  destruct (signerAgrees got signer) eqn:Ha; destruct Hj as [He Ho].
  - assert (vouches addr signer) as Hv.
    { exists w, got, w'. split; [|done]. destruct Hread as [Hr|[Hr _]]; auto. }
    split; [auto..|]. intros Hn. by destruct (passing_negative _ Ho Hn).
  - split.
    + intros Hn Hen. rewrite (He Hn) in Hen. done.
    + intros Hp. by destruct (passing_negative _ Hp Ho).
    + intros _. exists w, got, w'. split; [done|]. destruct Hread as [Hr|[Hr [Hx|Hx]]]; [auto|congruence|auto].
Qed.

Lemma lookupFailed_on addr signer s err b :
  grounded_on addr signer s (MkGrounding groundingLookupFailed b) (onchainLookupFailed k err).2.
Proof. unfold onchainLookupFailed. split; cbn; [|done|done]. by destruct (ck_onchainEnforce k). Qed.

Lemma groundSignerOnChain_on addr signer s g e s' :
  groundSignerOnChain k addr signer s = ((g, e), s') -> grounded_on addr signer s g e.
Proof.
  unfold groundSignerOnChain. destruct (AcknowledgedSigner addr (g_world s)) as [[got|err] w] eqn:Hread.
  2:{ intros Hg. injection Hg as <- <- _. apply lookupFailed_on. }
  destruct (sg_Cached got) eqn:Hc; cbn [andb]; [destruct (signerAgrees got signer) eqn:Ha; cbn [negb]|].
  - intros Hg. apply (f_equal fst) in Hg. eapply judge_on; [|exact Hg]. right. split; [exact Hread|auto].
  - change (g_signerRevalidate (with_world w s)) with (g_signerRevalidate s).
    change (g_now (with_world w s)) with (now w).
    destruct (rl_allow (g_signerRevalidate s) (now w) _ _) as [[|] l] eqn:Hal.
    + cbn [g_world with_revalidate with_world]. destruct (RefreshSigner addr w) as [[got'|err] w'] eqn:Hre.
      * intros Hg. apply (f_equal fst) in Hg. eapply judge_on; [|exact Hg]. left. exact Hre.
      * intros Hg. cbn in Hg. injection Hg as <- <- _. apply lookupFailed_on.
    + intros Hg. apply (f_equal fst) in Hg. eapply judge_on; [|exact Hg]. right. split; [exact Hread|].
      right. right. by rewrite Hal.
  - intros Hg. apply (f_equal fst) in Hg. eapply judge_on; [|exact Hg]. right. split; [exact Hread|auto].
Qed.

Lemma groundSignerOnChain_quotes addr signer s : g_quotes (groundSignerOnChain k addr signer s).2 = g_quotes s.
Proof.
  unfold groundSignerOnChain. destruct (AcknowledgedSigner addr (g_world s)) as [[got|err] w]; [|done].
  destruct (_ && _); [|done]. destruct (rl_allow _ _ _ _) as [[|] l]; [|done].
  by destruct (RefreshSigner addr _) as [[got'|err] w'].
Qed.

(** ** Grounding a candidate's keys *)

(** The quote side of a mismatch was renewed, or could not be. *)
Definition quote_renewed (v : Verifier) (endpoint : string) (res : quoteResult) (from' : keys_from) : Prop :=
  exists s0, match (reverifiedProvider v endpoint s0).1 with
             | Err _ => True
             | Ok fresh => qr_signer fresh = qr_signer res \/ from' = FromQuote v fresh true
             end.

(** What grounding a candidate's keys comes to: the keys it ends with, the verdict on
    them, and what a verdict against them rests on. *)
Record keys_grounded (prov : previewProvider) (from from' : keys_from) (g : grounding) (e : option cerr) : Prop := {
  kg_keys : keys_ok prov from';
  kg_pass : e = None -> ck_onchainEnforce k = true -> vouches (pp_Address prov) (keys_of from').2;
  kg_negative : negative (gr_outcome g) = true ->
    exists s0 : state, evidence (pp_Address prov) (keys_of from').2 (g_signerRevalidate s0);
  kg_mismatch : forall v res, from = FromQuote v res true -> gr_outcome g = groundingMismatch ->
    quote_renewed v (pp_Endpoint prov) res from'
}.

Lemma groundKeys_ok prov from s from' g e s' :
  caches_ok s -> keys_ok prov from -> groundKeys k prov from s = ((from', g, e), s') ->
  caches_ok s' /\ keys_grounded prov from from' g e.
Proof.
  intros Hq Hk. unfold groundKeys. set (sg := (keys_of from).2).
  pose proof (groundSignerOnChain_quotes (pp_Address prov) sg s) as Hgq.
  destruct (groundSignerOnChain k (pp_Address prov) sg s) as [[g1 e1] s1] eqn:Hg1. cbn in Hgq.
  pose proof (groundSignerOnChain_on _ _ _ _ _ _ Hg1) as [Hp1 _ Hn1].
  assert (caches_ok s1) as Hq1 by (intros v Hv u res exp; rewrite Hgq; by apply Hq).
  assert ((forall v res, from = FromQuote v res true -> gr_outcome g1 = groundingMismatch ->
             quote_renewed v (pp_Endpoint prov) res from) -> keys_grounded prov from from g1 e1) as Hsame.
  { intros Hr. split; [done|done| |exact Hr]. intros Hn. exists s. by apply Hn1. }
  destruct from as [v res [|]|ks]; [|intros He; injection He as <- <- <- <-; split; [done|by apply Hsame]..].
  case_bool_decide as Hm; [|intros He; injection He as <- <- <- <-; split; [done|by apply Hsame]].
  destruct Hk as [Hv Hk]. pose proof (reverifiedProviderFor_ok leaves v (pp_Endpoint prov) s1 (Hq1 v Hv)) as [Hq2 Ha].
  fold (reverifiedProvider v (pp_Endpoint prov) s1) in Hq2, Ha.
  destruct (reverifiedProvider v (pp_Endpoint prov) s1) as [[fresh|err] s2] eqn:Hre; cbn in Hq2, Ha.
  2:{ intros He. injection He as <- <- <- <-. split; [intros v' Hv'; by replace v' with v by congruence|]. apply Hsame.
      intros v' res' E _. injection E as <- <-. exists s1. by rewrite Hre. }
  destruct (String.eqb_spec (qr_signer fresh) (qr_signer res)) as [E|E].
  { intros He. injection He as <- <- <- <-. split; [intros v' Hv'; by replace v' with v by congruence|]. apply Hsame.
    intros v' res' Ef _. injection Ef as <- <-. exists s1. rewrite Hre. by left. }
  pose proof (groundSignerOnChain_quotes (pp_Address prov) (qr_signer fresh) s2) as Hgq2.
  destruct (groundSignerOnChain k (pp_Address prov) (qr_signer fresh) s2) as [[g2 e2] s3] eqn:Hg2. cbn in Hgq2.
  pose proof (groundSignerOnChain_on _ _ _ _ _ _ Hg2) as [Hp2 _ Hn2].
  intros He. injection He as <- <- <- <-. split.
  - intros v' Hv' u res' exp. rewrite Hgq2. replace v' with v by congruence. apply Hq2.
  - split; cbn [keys_of fst snd gr_outcome].
    + split; [done|by apply Ha].
    + exact Hp2.
    + intros Hn. exists s2. by apply Hn2.
    + intros v' res' Ef _. injection Ef as <- <-. exists s1. rewrite Hre. by right.
Qed.

(** ** What a provider offered has behind it *)

Record offered_by (upstreamURL : string) (prov : previewProvider) (p : Provider) : Prop := {
  of_url : p_URL p = upstreamURL;
  of_address : p_Address p = pp_Address prov /\ isAddress (p_Address p) = true;
  of_model : p_Model p = pp_CanonicalID prov /\ p_Model p <> "";
  of_pin : p_RouterProviderIdentity p = pp_ProviderIdentity prov;
  of_keys : forall v, ck_verifier k = Some v ->
    exists res, quote_of v (pp_Endpoint prov) res /\ p_EncPubKey p = qr_encPub res /\ p_SignerAddr p = qr_signer res;
  of_bind : p_BindResponse p = true -> is_Some (ck_verifier k);
  of_chain : ck_registry k = true -> ck_onchainEnforce k = true -> vouches (p_Address p) (p_SignerAddr p)
}.

Lemma keys_ok_of prov from v :
  keys_ok prov from -> ck_verifier k = Some v ->
  exists res, quote_of v (pp_Endpoint prov) res /\ (keys_of from).1 = qr_encPub res /\ (keys_of from).2 = qr_signer res.
Proof. destruct from as [v' res c|ks]; cbn; [intros [Hv Hq] Hv'; replace v with v' by congruence; eauto|congruence]. Qed.

Lemma materialize_ok upstreamURL deadline prov stale s :
  caches_ok s ->
  caches_ok (materialize k between upstreamURL deadline prov stale s).2 /\
  (forall p, (materialize k between upstreamURL deadline prov stale s).1 = Ok p -> offered_by upstreamURL prov p).
Proof.
  intros Hq. unfold materialize. destruct (isAddress (pp_Address prov)) eqn:Hadr; [cbn [negb]|done].
  destruct (String.eqb (pp_Endpoint prov) ""); [done|]. destruct (String.eqb_spec (pp_CanonicalID prov) "") as [|Hid]; [done|].
  destruct (obtainKeys_ok deadline prov stale s Hq) as [Hq1 Hk1].
  destruct (obtainKeys k between deadline prov stale s) as [[from|err] s1]; cbn in Hq1, Hk1; [|done].
  specialize (Hk1 from eq_refl).
  assert (forall from onchain e s2, caches_ok s2 -> keys_ok prov from ->
    (e = None -> ck_registry k = true -> ck_onchainEnforce k = true -> vouches (pp_Address prov) (keys_of from).2) ->
    caches_ok (conclude k upstreamURL prov from onchain e s2).2 /\
    forall p, (conclude k upstreamURL prov from onchain e s2).1 = Ok p -> offered_by upstreamURL prov p) as Hend.
  { intros from0 onchain e s2 Hq2 Hk2 Hv. unfold conclude.
    set (s3 := match from0 with FromQuote _ _ _ => _ | FromPubkey _ => _ end).
    assert (caches_ok s3) as Hq3 by (unfold s3; by destruct from0).
    destruct e as [err|]; [done|]. split; [done|]. cbn. intros p Hp. injection Hp as <-. split; cbn; try done.
    - intros v Hvk. by eapply keys_ok_of.
    - unfold bindsResponse. destruct (g_respBind s3), (ck_verifier k); by eauto.
    - auto. }
  destruct (ck_registry k) eqn:Hreg; [|apply Hend; [done..|congruence]].
  destruct (groundKeys k prov from s1) as [[[from2 g] e] s2] eqn:Hg.
  destruct (groundKeys_ok _ _ _ _ _ _ _ Hq1 Hk1 Hg) as [Hq2 [Hk2 Hv _ _]].
  destruct (gr_revalidated g); apply Hend; auto.
Qed.

Lemma candidate_ok providers url deadline i stale s :
  caches_ok s ->
  caches_ok (candidate k between providers url deadline i stale s).2 /\
  (forall p, (candidate k between providers url deadline i stale s).1 = Ok p ->
     exists prov, prov ∈ providers /\ offered_by url prov p).
Proof.
  intros Hq. unfold candidate. destruct (providers !! i) as [prov|] eqn:Hi; [|done].
  destruct (materialize_ok url deadline prov stale s Hq) as [Hq' Hp]. split; [done|].
  intros p E. exists prov. split; [by eapply list_elem_of_lookup_2|by apply Hp].
Qed.

Lemma Router_preview_ok forward credential ep req s :
  caches_ok s ->
  caches_ok (Router_preview r forward credential ep req s).2 /\
  (forall providers url, (Router_preview r forward credential ep req s).1 = Ok (providers, url) ->
     upstreamURL r ep = Ok url /\
     exists s', preview r forward credential ep req (MkR (g_world s) []) = (Ok providers, s')).
Proof.
  intros Hq. unfold Router_preview. destruct (upstreamURL r ep) as [url|]; [|done].
  destruct (preview r forward credential ep req _) as [[l|err] p]; cbn; (split; [exact Hq|]); [|done].
  intros providers u E. injection E as <- <-. eauto.
Qed.
End facts.

(** ** Who is condemned, and who is followed *)

Section verdicts.
Context {W : Type} `{World W} `{RouterOutside W} `{SignerRegistry W} `{!RegistryLaws W} `{Flights W} `{UrlLib}.
Context (k : Checks) (between : gstate W -> gstate W).
Abbreviation state := (gstate W).

(** A reading made from [s] speaks against the signer: a live one, or a cached one that
    this provider's allowance of live readings does not cover. *)
Definition speaks_against (addr signer : string) (s : state) : Prop :=
  exists got w, AcknowledgedSigner addr (g_world s) = (Ok got, w) /\ signerAgrees got signer = false /\
    (sg_Cached got = false \/
     (exists live w', RefreshSigner addr w = (Ok live, w') /\ sg_Cached live = false /\ signerAgrees live signer = false) \/
     (rl_allow (g_signerRevalidate s) (now w) (ProviderKey addr) signerRevalidateWindow).1 = false).

Lemma groundSignerOnChain_against addr signer s g e s' :
  groundSignerOnChain k addr signer s = ((g, e), s') -> negative (gr_outcome g) = true -> speaks_against addr signer s.
Proof.
  assert (forall got b, negative (gr_outcome (judge k got signer b).1) = true -> signerAgrees got signer = false) as Hj.
  { intros got b Hn. pose proof (judge_cases k got signer b) as Hc. destruct (signerAgrees got signer); [|done].
    by destruct (passing_negative _ (proj2 Hc) Hn). }
  unfold groundSignerOnChain, speaks_against. destruct (AcknowledgedSigner addr (g_world s)) as [[got|err] w].
  2:{ intros Hg. injection Hg as <- _ _. done. }
  destruct (sg_Cached got) eqn:Hc; cbn [andb]; [destruct (signerAgrees got signer) eqn:Ha; cbn [negb]|].
  - intros Hg Hn. apply (f_equal (fun x => x.1.1)) in Hg. cbn in Hg. subst g. apply Hj in Hn. congruence.
  - change (g_now (with_world w s)) with (now w). change (g_signerRevalidate (with_world w s)) with (g_signerRevalidate s).
    destruct (rl_allow _ _ _ _) as [[|] l] eqn:Hl; cbn [g_world with_revalidate with_world].
    + destruct (RefreshSigner addr w) as [[live|err] w'] eqn:Hr; [|intros Hg; cbn in Hg; by injection Hg as <- _ _].
      intros Hg Hn. apply (f_equal (fun x => x.1.1)) in Hg. cbn in Hg. subst g. apply Hj in Hn.
      exists got, w. split; [done|]. split; [done|]. right. left. exists live, w'. split; [done|]. split; [|done]. by apply refresh_live in Hr as [? _].
    + intros Hg Hn. exists got, w. split; [done|]. split; [done|]. right. right. by rewrite Hl.
  - intros Hg Hn. apply (f_equal (fun x => x.1.1)) in Hg. cbn in Hg. subst g. apply Hj in Hn.
    exists got, w. split; [done|]. split; [done|]. by left.
Qed.

(** C20: nobody is condemned on cached evidence while it can be renewed. A verdict against
    a candidate rests on a chain reading that speaks against the signer of the keys it
    ends with: a live one, or a cached one when the provider's allowance of live readings
    is spent. And a mismatch against a cached quote comes only after the quote was
    fetched and verified anew: the renewed quote names the same signer, or is the one
    judged, or could not be had. *)
Theorem condemned_on_evidence prov from s from' g e s' :
  groundKeys k prov from s = ((from', g, e), s') -> negative (gr_outcome g) = true ->
  exists s0, speaks_against (pp_Address prov) (keys_of from').2 s0 /\
    (s0 = s /\ from' = from \/
     exists v res fresh s1, from = FromQuote v res true /\ from' = FromQuote v fresh true /\
       reverifiedProvider v (pp_Endpoint prov) s1 = (Ok fresh, s0)) /\
    (forall v res, from = FromQuote v res true -> gr_outcome g = groundingMismatch ->
       let s1 := (groundSignerOnChain k (pp_Address prov) (qr_signer res) s).2 in
       match (reverifiedProvider v (pp_Endpoint prov) s1).1 with
       | Ok fresh => qr_signer fresh = qr_signer res /\ from' = from \/ from' = FromQuote v fresh true
       | Err _ => from' = from
       end).
Proof.
  unfold groundKeys. destruct (groundSignerOnChain k (pp_Address prov) (keys_of from).2 s) as [[g1 e1] s1] eqn:Hg1.
  pose proof (groundSignerOnChain_against _ _ _ _ _ _ Hg1) as Hag.
  destruct from as [v res [|]|ks]; cbn [keys_of snd] in Hg1, Hag |- *.
  2,3: intros E Hn; injection E as <- <- _ _; exists s; split_and!; [by apply Hag|by left|done].
  case_bool_decide as Hm.
  2:{ intros E Hn. injection E as <- <- _ _. exists s. split_and!; [by apply Hag|by left|done]. }
  destruct (reverifiedProvider v (pp_Endpoint prov) s1) as [[fresh|err] s2] eqn:Hre.
  2:{ intros E Hn. injection E as <- <- _ _. exists s. split_and!; [by apply Hag|by left|].
      intros v' res' Ef _. injection Ef as <- <-. rewrite Hg1. cbn. by rewrite Hre. }
  destruct (String.eqb_spec (qr_signer fresh) (qr_signer res)) as [Es|Es].
  { intros E Hn. injection E as <- <- _ _. exists s. split_and!; [by apply Hag|by left|].
    intros v' res' Ef _. injection Ef as <- <-. rewrite Hg1. cbn. rewrite Hre. by left. }
  destruct (groundSignerOnChain k (pp_Address prov) (qr_signer fresh) s2) as [[g2 e2] s3] eqn:Hg2.
  intros E Hn. injection E as <- <- _ _. exists s2. split_and!.
  - by eapply groundSignerOnChain_against.
  - right. exists v, res, fresh, s1. done.
  - intros v' res' Ef _. injection Ef as <- <-. rewrite Hg1. cbn. rewrite Hre. by right.
Qed.

(** An endpoint's quote URL serves, at a time, a quote that verifies. *)
Definition serves (v : Verifier) (url : string) (w : W) (res : quoteResult) (w' : W) : Prop :=
  url_ok url = true /\ exists resp w1 body raw,
    rt_do (now w + quoteVerifyTimeout) (MkHttpRequest url ∅ []) w = (Ok resp, w1) /\
    hs_Status resp = StatusOK /\ read_all_limited maxControlBodyBytes resp = Ok body /\
    DecodeQuoteResponse body = Ok raw /\ quoteResultOf v raw body = Ok res /\
    w' = rt_read (now w + quoteVerifyTimeout) resp w1.

Lemma verifyAndCache_serves v url s res w' :
  serves v url (g_world s) res w' -> leaves w' = false ->
  verifyAndCache v url s = (Ok res, with_quotes (cache_put (g_quotes s) (now w') url res) (with_world w' s)).
Proof.
  intros (Hu & resp & w1 & body & raw & Hdo & Hst & Hb & Hd & Hv & ->) Hl.
  unfold verifyAndCache, verifyAndCacheFor, verifyQuoteAt, fetchQuote, get_ok, g_now. rewrite Hu, Hdo, Hb, Hst. cbn -[read_all_limited].
  rewrite Hd. cbn. rewrite Hv. cbn. by rewrite Hl.
Qed.

Lemma groundSignerOnChain_agrees addr signer s got w :
  AcknowledgedSigner addr (g_world s) = (Ok got, w) -> signerAgrees got signer = true ->
  groundSignerOnChain k addr signer s
    = ((MkGrounding (if sg_Stale got then groundingOKStale else groundingOK) false, None), with_world w s).
Proof.
  intros Hr Ha. unfold groundSignerOnChain, judge. rewrite Hr, Ha, (signerAgrees_acked _ _ Ha).
  by rewrite andb_false_r.
Qed.

Lemma groundSignerOnChain_mismatch addr signer s got w :
  AcknowledgedSigner addr (g_world s) = (Ok got, w) -> sg_Cached got = false ->
  sg_Acknowledged got = true -> signerAgrees got signer = false ->
  exists e, groundSignerOnChain k addr signer s = ((MkGrounding groundingMismatch false, e), with_world w s).
Proof. intros Hr Hc Hk Ha. unfold groundSignerOnChain, judge, onchainVerdict. rewrite Hr, Hc, Hk, Ha. eauto. Qed.

(** A rotation is followed at once. A candidate whose cached quote still verifies, but
    whose signer the chain, read live, no longer names: when the quote may be renewed and
    the endpoint serves one naming the signer the chain acknowledges, the candidate is
    offered, under the new key and signer, within the same call, whatever the
    enforcement; and the renewed quote is the one cached. *)
Theorem rotation_followed upstreamURL deadline prov url v res got w1 l fresh w2 got' w3 s :
  isAddress (pp_Address prov) = true -> pp_Endpoint prov <> "" -> pp_CanonicalID prov <> "" ->
  ck_verifier k = Some v -> ck_registry k = true -> deriveQuoteURL (pp_Endpoint prov) = Ok url ->
  cache_get (g_quotes s) (g_now s) url = Some res ->
  AcknowledgedSigner (pp_Address prov) (g_world s) = (Ok got, w1) -> sg_Cached got = false ->
  sg_Acknowledged got = true -> signerAgrees got (qr_signer res) = false ->
  mayReverifyQuote url (with_world w1 s) = (true, l) ->
  serves v url w1 fresh w2 -> leaves w2 = false -> qr_signer fresh <> qr_signer res ->
  AcknowledgedSigner (pp_Address prov) w2 = (Ok got', w3) -> signerAgrees got' (qr_signer fresh) = true ->
  exists s', materialize k between upstreamURL deadline prov None s =
    (Ok (MkProvider upstreamURL (qr_encPub fresh) (qr_signer fresh) (pp_Address prov) (pp_ProviderIdentity prov)
           (pp_Endpoint prov) (pp_CanonicalID prov) (bindsResponse k (pp_Address prov) s)), s') /\
    g_world s' = w3 /\ g_quotes s' = cache_put (g_quotes s) (now w2) url fresh.
Proof.
  intros Hadr Hep Hid Hv Hreg Hurl Hc Hr1 Hlive Hack Hdis Hmay Hserve Hstay Hnew Hr2 Hag.
  assert (obtainKeys k between deadline prov None s = (Ok (FromQuote v res true), s)) as Hob.
  { unfold obtainKeys, freshProvider, verifiedProviderCached. by rewrite Hv, Hurl, Hc. }
  destruct (groundSignerOnChain_mismatch _ _ _ _ _ Hr1 Hlive Hack Hdis) as [e1 Hg1].
  assert (exists q, l = with_reverify q (with_world w1 s)) as [q ->].
  { unfold mayReverifyQuote in Hmay. destruct (rl_allow _ _ _ _) as [ok q]. injection Hmay as _ <-. eauto. }
  set (s2 := with_quotes (cache_put (g_quotes s) (now w2) url fresh) (with_world w2 (with_reverify q (with_world w1 s)))).
  assert (reverifiedProvider v (pp_Endpoint prov) (with_world w1 s) = (Ok fresh, s2)) as Hre.
  { unfold reverifiedProvider, reverifiedProviderFor. rewrite Hurl, Hmay. fold verifyAndCache. by rewrite (verifyAndCache_serves v url (with_reverify q (with_world w1 s)) fresh w2 Hserve Hstay). }
  pose proof (groundSignerOnChain_agrees (pp_Address prov) (qr_signer fresh) s2 got' w3 Hr2 Hag) as Hg2.
  unfold materialize. rewrite Hadr, (proj2 (String.eqb_neq _ _) Hep), (proj2 (String.eqb_neq _ _) Hid), Hob, Hreg.
  cbn [negb]. unfold groundKeys. cbn [keys_of snd]. rewrite Hg1. cbn [gr_outcome].
  rewrite bool_decide_true by done. rewrite Hre, (proj2 (String.eqb_neq _ _) Hnew), Hg2.
  cbn. eexists. split; [reflexivity|]. done.
Qed.
End verdicts.

(** ** The client on top of the router *)

Section routed.
Context {W : Type} `{World W} `{RouterOutside W} `{SignerRegistry W} `{Flights W} `{UrlLib} `{Jcs} `{HpkeLib}.
Context (r : Router) (k : Checks) (between : gstate W -> gstate W) (others_fair : fair between).
Context (ep : Endpoint).

(** A router's state whose cache is attested: what the client's calls run over. *)
Record vetted := MkVetted { vt_state : gstate W; vt_ok : caches_ok k vt_state }.

Definition lift {A} (f : gstate W -> A * gstate W) (Hf : forall s, caches_ok k s -> caches_ok k (f s).2) (v : vetted)
    : A * vetted :=
  ((f (vt_state v)).1, MkVetted (f (vt_state v)).2 (Hf _ (vt_ok v))).

Definition vetted_candidate (providers : list previewProvider) (url : string) (deadline : Z) (i : nat)
    (stale : option PublicKey) : vetted -> cresult Provider * vetted :=
  lift (candidate k between providers url deadline i stale)
    (fun s Hs => proj1 (candidate_ok k between others_fair providers url deadline i stale s Hs)).

Definition vetted_candidates (providers : list previewProvider) (url : string) : Candidates vetted :=
  MkCandidates (length providers)
    (fun deadline i => vetted_candidate providers url deadline i None)
    (Some (fun deadline i stale => vetted_candidate providers url deadline i (Some stale))).

(** [Router.Resolve], over such states. *)
Definition vetted_Resolve (forward : Header) (credential : string) (req : Request) (v : vetted)
    : cresult (Candidates vetted) * vetted :=
  let '(res, v) := lift (Router_preview r forward credential ep req)
                     (fun s Hs => proj1 (Router_preview_ok r k forward credential ep req s Hs)) v in
  (pu ← res; Ok (vetted_candidates pu.1 pu.2), v).

(** The rest of the outside, whatever it does. *)
Context (world_of : World vetted) (rest : Outside vetted) (cx : CallContext).

#[local] Instance routed_world : World vetted := world_of.
#[local] Instance routed_outside : Outside vetted := {|
  http_do := @http_do _ rest;
  body_read := @body_read _ rest;
  random := @random _ rest;
  fetch_signature := @fetch_signature _ rest;
  resolve := fun _ => vetted_Resolve (cx_forward cx) (cx_credential cx)
|}.

Lemma vetted_offered providers url p :
  offered (vetted_candidates providers url) p -> exists prov, prov ∈ providers /\ offered_by k url prov p.
Proof.
  assert (forall deadline i stale v v', vetted_candidate providers url deadline i stale v = (Ok p, v') ->
            exists prov, prov ∈ providers /\ offered_by k url prov p) as Hc.
  { intros deadline i stale v v' E. apply (f_equal fst) in E. cbn in E.
    by apply (candidate_ok k between others_fair providers url deadline i stale (vt_state v) (vt_ok v)). }
  intros [(dl & i & w & w' & _ & E)|(kr & dl & i & stale & w & w' & Hkr & E & _)]; [exact (Hc dl i None w w' E)|].
  cbn in Hkr. injection Hkr as <-. exact (Hc dl i (Some _) w w' E).
Qed.

(** C19: what leaves the gateway is sealed to attested enclaves. Put the client on top of
    the router: whatever the router service, the providers, the chain and other requests
    do, every request that a buffered call, a streamed call or the submission of a job
    posts goes to the router's upstream URL for the surface,
    sealed under a key and pinned to an address of a candidate of this request's preview;
    with quote verification on, that key and signer were bound by a verified quote served
    at that candidate's endpoint; with enforcement on, the chain vouched for that signer
    at that address. *)
Theorem routed_posts_attested c req (v : vetted) log :
  (exists res s', Complete c cx req v = (res, s') /\ log = st_log s') \/
  (exists res s', SubmitAsync c cx req v = (res, s') /\ log = st_log s') \/
  (exists (reads : StreamReads vetted) onFrame res s', CompleteStream c cx onFrame req v = (res, s') /\ log = st_log s') ->
  forall p env h, EvPost p env h ∈ log ->
    (exists req' fields pub rnd, SealRequestFor (c_profile c) (p_EncPubKey p) req' (Some fields)
       (p_SignerAddr p) pub (c_unboundFields c) rnd = Ok env) /\
    header_get h headerProviderPin = p_Address p /\
    exists providers url prov, upstreamURL r ep = Ok url /\ prov ∈ providers /\
      answered r (cx_forward cx) (cx_credential cx) (previewBody r ep req) providers /\
      offered_by k url prov p.
Proof.
  intros Hlog p env h Hin.
  eapply call_posts in Hlog; [|exact Hin].
  destruct Hlog as (-> & (v0 & v1 & cands & Hr & Hoff) & req' & priv & pub & rnd & Hs & _).
  destruct (requestHeader_pins cx p) as (_ & Hpin & _).
  cbn in Hr. unfold vetted_Resolve, lift in Hr.
  pose proof (proj2 (Router_preview_ok r k (cx_forward cx) (cx_credential cx) ep req (vt_state v0) (vt_ok v0))) as Hpv.
  apply (f_equal fst) in Hr. cbn in Hr.
  destruct (Router_preview r (cx_forward cx) (cx_credential cx) ep req (vt_state v0)).1 as [[providers url]|] eqn:Ep;
    [|done]. cbn in Hr.
  injection Hr as <-. destruct (Hpv _ _ eq_refl) as [Hurl [s2 Hprev]].
  apply vetted_offered in Hoff as (prov & Hprov & Hof). split_and!.
  - destruct (seal_ok _ _ _ _ _ _ _ Hs) as (_ & req2 & fields & _ & _ & _ & Hseal). eauto.
  - apply Hpin. destruct (of_address _ _ _ _ Hof) as [_ Hadr]. intros E. by rewrite E in Hadr.
  - exists providers, url, prov. split_and!; try done. by eapply preview_answered.
Qed.
End routed.

(** ** Witnesses: a provider that rotated its signer *)

Module GroundWitness.
Import AttestWitness.
Definition addr : string := "0x00000000000000000000000000000000000000Bb".
Definition old_raw : bytes := repeat (byte_of 170) 20.
Definition new_raw : bytes := repeat (byte_of 187) 20.
Definition old_signer : string := hex_addr old_raw.
Definition new_signer : string := hex_addr new_raw.

#[export] Instance clock : World Z := {| now w := w; canceledBy _ := false |}.
#[export] Instance patient : Flights Z := fun _ => false.
#[export] Instance one_url : UrlLib :=
  fun s => if String.eqb s "https://p.example/v1" 
           then Some (MkURL "https" "" false "p.example" "/v1" "" false "/v1") else None.

Definition quote_url : string := "https://p.example/v1/quote?legacy=false".
Definition quote_reply : HttpResponse cerr :=
  MkHttpResponse 200 ∅ (print (jobject [("quote", jstr (str_of (hex_encode (bytes_of "new"))))])) None.
Definition ranking : HttpResponse cerr :=
  MkHttpResponse 200 ∅ (print (jobject [("providers", JArr [jobject
    [("address", jstr addr); ("endpoint", jstr "https://p.example/v1"); ("canonical_id", jstr "m")]])])) None.

(** The endpoint serves the new quote; anything else is the router's ranking. *)
#[export] Instance network : RouterOutside Z := {|
  url_ok := fun _ => true;
  rt_do := fun _ q w => (Ok (if String.eqb (hq_URL q) quote_url then quote_reply else ranking), w + Second);
  rt_read := fun _ _ w => w;
  pause := fun d w => (true, w + d);
  rt_gate := fun _ => MkGate 0 None;
  set_gate := fun _ w => w |}.

Definition parser : quoteParser := fun raw =>
  Ok (measured, report_data EnvelopeWitness.key (if bool_decide (raw = bytes_of "new") then new_raw else old_raw)).
Definition verifier : Verifier := New audited [WithQuoteParser (Some parser)].
Definition facts : quoteFacts := MkFacts VerdictPass "dstack-0.5.4" false.
Definition old_quote : quoteResult := MkQuote EnvelopeWitness.eph old_signer facts.
Definition new_quote : quoteResult := MkQuote EnvelopeWitness.key new_signer facts.

(** A chain that names one signer, always read live. *)
Definition chain_of (signer : string) : SignerRegistry Z :=
  let reading w : cresult Signer * Z := (Ok (MkSigner signer true false false), w) in
  {| AcknowledgedSigner := fun _ => reading; RefreshSigner := fun _ => reading |}.
Lemma chain_of_live signer : @RegistryLaws Z (chain_of signer).
Proof. intros a w sg w' E. injection E as <- _. done. Qed.

Definition checks : Checks := MkChecks (Some verifier) true true.
Definition ranked : previewProvider := MkPP addr None "m" "https://p.example/v1" "".
Definition held : ttlCache quoteResult := MkCache defaultQuoteTTL {[ quote_url := (old_quote, 100 * Second) ]}.
Definition cold : ttlCache quoteResult := MkCache defaultQuoteTTL ∅.
Definition at_zero (quotes : ttlCache quoteResult) : gstate Z := MkG quotes (MkCache defaultPubkeyTTL ∅) ∅ ∅
  (Some (rb_observe (newRespBindStore 8) addr true)) [] 0.

Lemma quote_served : serves verifier quote_url 0 new_quote Second.
Proof.
  split; [done|]. exists quote_reply, Second, (hs_Body quote_reply), (bytes_of "new").
  split_and!; try reflexivity; vm_compute; reflexivity.
Qed.
Definition condemned : (keys_from * grounding * option cerr) * gstate Z :=
  @groundKeys Z clock network (chain_of EnvelopeWitness.signer) patient one_url checks ranked
    (FromQuote verifier old_quote true) (at_zero held).
Lemma condemned_keys : condemned.1.1.1 = FromQuote verifier new_quote true.
Proof. vm_cast_no_check (eq_refl (FromQuote verifier new_quote true)). Qed.
Lemma condemned_negative : negative (gr_outcome condemned.1.1.2) = true.
Proof. vm_cast_no_check (eq_refl true). Qed.
Lemma four {A B C D} (x : (A * B * C) * D) : x = ((x.1.1.1, x.1.1.2, x.1.2), x.2).
Proof. by destruct x as [[[??]?]?]. Qed.

(** The client over the router: the request sealed to the provider's new key. *)
Definition router : Router := newRouter "https://router.example/" [].
Lemma id_fair : @fair Z network id.
Proof. by intros v s. Qed.
Lemma cold_ok : @caches_ok Z network checks (at_zero cold).
Proof. intros v _ url res exp E. cbn in E. by rewrite lookup_empty in E. Qed.
#[export] Instance vetted_clock : World (@vetted Z network checks) :=
  {| now v := g_now (vt_state checks v); canceledBy _ := false |}.
Definition silent : Outside (@vetted Z network checks) := {|
  http_do _ v := (Err (EExt "connection refused" false), v);
  body_read _ v := v;
  random v := (EnvelopeWitness.seed, v);
  fetch_signature _ _ v := (Err (EExt "no signatures" false), v);
  resolve _ _ v := (Err (EExt "unused" false), v)
|}.
Definition client : Client := NewWithResolver [].
Definition ctx : CallContext := MkCallContext ∅ "Bearer token" false.
#[export] Existing Instances EnvelopeWitness.identity_jcs Ideal.lib.
Definition routed_run : cresult Request * cstate (@vetted Z network checks) :=
  @Complete _ vetted_clock
    (@routed_outside Z clock network (chain_of new_signer) patient one_url router checks id id_fair Chat silent ctx) _ _
    client ctx (EnvelopeWitness.chat "hi") (MkVetted checks (at_zero cold) cold_ok).
Definition target : Provider :=
  MkProvider "https://router.example/v1/chat/completions" EnvelopeWitness.key new_signer addr None
    "https://p.example/v1" "m" true.
Definition first_post : option event := st_log routed_run.2 !! 0%nat.
Definition first_env : Request := match first_post with Some (EvPost _ env _) => env | _ => ∅ end.
Definition first_header : Header := match first_post with Some (EvPost _ _ h) => h | _ => ∅ end.
Lemma routed_post : EvPost target first_env first_header ∈ st_log routed_run.2.
Proof.
  apply (list_elem_of_lookup_2 _ 0).
  vm_cast_no_check (eq_refl (Some (EvPost target first_env first_header))).
Qed.
End GroundWitness.

Section witnesses.
Import AttestWitness EnvelopeWitness GroundWitness.

(** The chain names a third signer: the renewed quote is judged, and refused. *)
Lemma condemned_on_evidence_witness :
  condemned.1.1.1 = FromQuote GroundWitness.verifier new_quote true /\
  exists s0, @speaks_against Z GroundWitness.clock (chain_of signer) addr new_signer s0.
Proof.
  destruct (@condemned_on_evidence Z GroundWitness.clock network (chain_of signer) (chain_of_live signer) patient one_url
              checks ranked (FromQuote GroundWitness.verifier old_quote true) (at_zero held)
              condemned.1.1.1 condemned.1.1.2 condemned.1.2 condemned.2 (four condemned) condemned_negative) as (s0 & Hs & _).
  rewrite condemned_keys in Hs. split; [exact condemned_keys|]. exists s0. exact Hs.
Defined.

Lemma rotation_followed_witness :
  exists s', @materialize Z GroundWitness.clock network (chain_of new_signer) patient one_url checks id "https://router/v1" 0
               ranked None (at_zero held) =
    (Ok (MkProvider "https://router/v1" key new_signer addr None "https://p.example/v1" "m" true), s') /\
    g_world s' = Second /\ g_quotes s' = cache_put held Second quote_url new_quote.
Proof.
  refine (@rotation_followed Z GroundWitness.clock network (chain_of new_signer) patient one_url checks id
           "https://router/v1" 0 ranked quote_url GroundWitness.verifier old_quote
           (MkSigner new_signer true false false) 0 (mayReverifyQuote quote_url (at_zero held)).2 new_quote Second
           (MkSigner new_signer true false false) Second (at_zero held)
           _ _ _ _ _ _ _ _ _ _ _ _ quote_served _ _ _ _);
    try reflexivity; try discriminate; vm_compute; reflexivity.
Defined.

Lemma routed_posts_attested_witness :
  header_get first_header headerProviderPin = addr /\
  exists prov, @offered_by Z network (chain_of new_signer) one_url checks "https://router.example/v1/chat/completions" prov target.
Proof.
  destruct (@routed_posts_attested Z GroundWitness.clock network (chain_of new_signer) patient one_url _ _ router checks id
              id_fair Chat vetted_clock silent ctx client (chat "hi") (MkVetted checks (at_zero cold) cold_ok)
              (st_log routed_run.2)
              (or_introl (ex_intro _ routed_run.1 (ex_intro _ routed_run.2 (conj (surjective_pairing routed_run) eq_refl))))
              target first_env first_header routed_post) as (_ & Hpin & _ & url & prov & Hurl & _ & _ & Hoff).
  split; [exact Hpin|]. exists prov. injection Hurl as <-. exact Hoff.
Defined.
End witnesses.
