(* ===== verification/Sha384.v ===== *)
(** * Sha384: [crypto/sha512]'s SHA-384

    SHA-384 (FIPS 180-4) as an executable function on bytes: SHA-512's rounds over
    64-bit words, its own initial state, and the first 48 bytes of the result. TDX
    extends its measurement registers with it. *)

From S2P Require Import Prelude GoBytes GoHash.

(** ** 64-bit words *)

Definition w64 (z : Z) : Z := Z.land z 18446744073709551615.
Definition add64 (x y : Z) : Z := w64 (x + y).
Definition rotr64 (n x : Z) : Z := Z.lor (Z.shiftr x n) (w64 (Z.shiftl x (64 - n))).
Definition not64 (x : Z) : Z := Z.lxor x 18446744073709551615.

Definition Ch64 (x y z : Z) : Z := Z.lxor (Z.land x y) (Z.land (not64 x) z).
Definition BigSigma0 (x : Z) : Z := Z.lxor (Z.lxor (rotr64 28 x) (rotr64 34 x)) (rotr64 39 x).
Definition BigSigma1 (x : Z) : Z := Z.lxor (Z.lxor (rotr64 14 x) (rotr64 18 x)) (rotr64 41 x).
Definition smallSigma0 (x : Z) : Z := Z.lxor (Z.lxor (rotr64 1 x) (rotr64 8 x)) (Z.shiftr x 7).
Definition smallSigma1 (x : Z) : Z := Z.lxor (Z.lxor (rotr64 19 x) (rotr64 61 x)) (Z.shiftr x 6).

(** The first eighty primes; sixty-four bits of the fractional parts of their cube
    roots are the round constants, and of the square roots of the ninth to sixteenth
    the initial state. *)
Definition primes80 : list Z :=
  Eval vm_compute in List.filter is_prime (map Z.of_nat (seq 2 408)).

(** The integer cube root of a number below 2^210, bit by bit. *)
Definition cbrt70 (n : Z) : Z :=
  fold_left (fun r b => let r' := r + 2 ^ Z.of_nat b in if r' * r' * r' <=? n then r' else r)
    (rev (seq 0 70)) 0.

Definition sha512_k : list Z := Eval vm_compute in map (fun p => w64 (cbrt70 (p * 2 ^ 192))) primes80.

Definition sha384_init : sha_state :=
  Eval vm_compute in
  match map (fun p => w64 (Z.sqrt (p * 2 ^ 128))) (take 8 (drop 8 primes80)) with
  | [a; b; c; d; e; f; g; h] => St a b c d e f g h
  | _ => St 0 0 0 0 0 0 0 0
  end.

Definition sha512_round (s : sha_state) (kw : Z * Z) : sha_state :=
  let t1 := add64 (add64 (add64 (sh s) (BigSigma1 (se s))) (Ch64 (se s) (sf s) (sg s)))
                  (add64 kw.1 kw.2) in
  let t2 := add64 (BigSigma0 (sa s)) (Maj (sa s) (sb s) (sc s)) in
  St (add64 t1 t2) (sa s) (sb s) (sc s) (add64 (sd s) t1) (se s) (sf s) (sg s).

(** The message schedule, as [sha_schedule]. *)
Fixpoint sha512_schedule (n : nat) (w : list Z) : list Z :=
  match n with
  | O => w
  | S n =>
      match w with
      | x0 :: rest =>
          let nx := add64 (add64 (smallSigma1 (nth 13 rest 0)) (nth 8 rest 0))
                          (add64 (smallSigma0 (nth 0 rest 0)) x0) in
          x0 :: sha512_schedule n (rest ++ [nx])
      | [] => []
      end
  end.

Fixpoint words64_be (n : nat) (b : bytes) : list Z :=
  match n with O => [] | S n => word_be (take 8 b) :: words64_be n (drop 8 b) end.

Definition sha512_add (s t : sha_state) : sha_state :=
  St (add64 (sa s) (sa t)) (add64 (sb s) (sb t)) (add64 (sc s) (sc t)) (add64 (sd s) (sd t))
     (add64 (se s) (se t)) (add64 (sf s) (sf t)) (add64 (sg s) (sg t)) (add64 (sh s) (sh t)).

Definition sha512_block (s : sha_state) (b : bytes) : sha_state :=
  sha512_add s (fold_left sha512_round (zip sha512_k (sha512_schedule 64 (words64_be 16 b))) s).

Fixpoint sha512_blocks (n : nat) (s : sha_state) (b : bytes) : sha_state :=
  match n with O => s | S n => sha512_blocks n (sha512_block s (take 128 b)) (drop 128 b) end.

Definition sha512_pad (m : bytes) : bytes :=
  let len := Z.of_nat (length m) in
  m ++ byte_of 128 :: repeat (byte_of 0) (Z.to_nat ((111 - len) mod 128)) ++ be_bytes 16 (8 * len).

(** [sha512.New384], over all that is written. *)
Definition sha384 (m : bytes) : bytes :=
  let p := sha512_pad m in
  let s := sha512_blocks (Nat.div (length p) 128) sha384_init p in
  be_bytes 8 (sa s) ++ be_bytes 8 (sb s) ++ be_bytes 8 (sc s) ++
  be_bytes 8 (sd s) ++ be_bytes 8 (se s) ++ be_bytes 8 (sf s).

Lemma sha384_length m : length (sha384 m) = 48%nat.
Proof. unfold sha384. by rewrite !length_app, !be_bytes_length. Qed.

(** FIPS 180-4's example: the message "abc". *)
Example sha384_abc :
  str_of (hex_encode (sha384 (bytes_of "abc"))) =
  "cb00753f45a35e8bb5a03d699ac65007272c32ab0eded1631a8b605a43ff5bed8086072ba1e7cc2358baeca134c825a7".
Proof. vm_compute. reflexivity. Qed.

(** What a theorem that compares digests assumes: no collision among given messages. *)
Definition collision_free384 (l : list bytes) : Prop :=
  forall x y, x ∈ l -> y ∈ l -> sha384 x = sha384 y -> x = y.

#[global] Opaque sha384.
