(* ===== verification/Runtime.v ===== *)
(** * Runtime: what a CVM runs now ([client/evidence/rtmr3.go])

    A quote reply carries, unsigned, the log of what the CVM did since it booted;
    [replayRTMR3] requires it to replay to the RTMR3 of the verified quote, and
    [ReadRuntimeState] reads the 0G controller's records off it, record by record
    ([apply]), each under a grammar ([parseImageUpdate], [parseUpstreamSet]).
    [CheckRuntime] judges the result against the release policy ([brokerrelease.go]) and
    the keys of the report data.

    The theorems: absent a SHA-384 collision, a provider cannot make up a log, leave an
    entry out or change one: what is read from any log that replays is what the CVM's own
    log says, or it is reported as not understood; the two grammars accept exactly what
    their printers print; and the judgement is clean exactly when everything it is about
    holds. *)

From S2P Require Import Prelude GoBytes GoHash GoJson GoDecode GoUrl Attest Sha384.

Definition RTMRLen : nat := 48.
Definition runtimeEventType : Z := 134217729.
Definition systemReady : string := "system-ready".
Definition recImageUpdate : string := "zg-image-update".
Definition recConfigUpdate : string := "zg-config-update".
Definition recUpstreamSet : string := "zg-upstream-set".
Definition recEngineSet : string := "zg-engine-set".
Definition recInstanceConfigUpdate : string := "zg-instance-config-update".

Inductive everr :=
| ErrNoEventLog
| EFinding (what : string)
| EDecode (what : string) (e : jerr)
| EAt (n : nat) (event : string) (e : everr).
Abbreviation eresult := (result everr).

(** ** Release verdicts ([brokerrelease.go]) *)

Record BrokerRelease := MkRelease { br_Version : string; br_Digest : string; br_Commit : string }.
Inductive ReleaseStatus := ReleaseRejected | ReleaseAccepted | ReleaseUnavailable.
#[export] Instance ReleaseStatus_eq_dec : EqDecision ReleaseStatus.
Proof. solve_decision. Defined.
Record ReleaseVerdict := MkVerdict { rv_Status : ReleaseStatus; rv_Release : BrokerRelease; rv_Reason : string }.
Definition noRelease : BrokerRelease := MkRelease "" "" "".

(** [ReleaseVerifier]; the nil one is [None]. *)
Record ReleaseVerifier := MkReleases { rl_Repository : string; rl_Verify : string -> string -> ReleaseVerdict }.
Definition VerifyRelease (rels : option ReleaseVerifier) (repository digest : string) : ReleaseVerdict :=
  match rels with
  | None => MkVerdict ReleaseUnavailable noRelease "no release verifier was configured"
  | Some r => rl_Verify r repository digest
  end.

(** ** The records *)

Record ImageRecord := MkImage {
  im_Repository : string; im_Digest : string; im_Signer : string; im_EncPub : bytes; im_Index : nat
}.
Record Upstream := MkUpstream { up_Name : string; up_URL : string; up_Identity : string; up_Provider : string }.
Record UpstreamSet := MkUpstreams { us_Invalidated : bool; us_Members : list Upstream }.

Record RuntimeState := MkRuntime {
  st_Entries : nat; st_Runtime : nat;
  st_Ignored : list string;
  st_Image : option ImageRecord;
  st_ImageUpdates : nat; st_ConfigUpdates : nat;
  st_LastConfig : string;
  st_Upstreams : option UpstreamSet;
  st_Engines : nat;
  st_Instances : gmap string string;
  st_Unknown : list string
}.

Definition isLowerHex (s : bytes) (n : nat) : bool := Nat.eqb (length s) n && forallb is_lower_hex s.

(** [strings.ContainsAny] for a set of bytes. *)
Definition contains_any (cs : bytes) (s : bytes) : bool := existsb (fun c => bool_decide (c ∈ cs)) s.
Definition tab : ascii := byte_of 9.
Definition newline : ascii := byte_of 10.

Definition bad (e : string) : everr := EFinding e.

Definition parseImageUpdate (payload : bytes) : eresult ImageRecord :=
  match split_on " " payload with
  | [image; signer; encPub] =>
      match split_first "@" image with
      | None => Err (bad "the image is not repo@digest")
      | Some (repo, digest) =>
          _ ← refuse (bool_decide (repo = []) || contains_any ["@"%char; tab; newline] repo) (bad "the image is not repo@digest");
          hexDigest ← of_option (strip_prefix (bytes_of "sha256:") digest) (bad "the digest is not sha256:<64 lowercase hex>");
          _ ← refuse (negb (isLowerHex hexDigest 64)) (bad "the digest is not sha256:<64 lowercase hex>");
          hexSigner ← of_option (strip_prefix (bytes_of "0x") signer) (bad "the signer is not 0x + 40 lowercase hex");
          _ ← refuse (negb (isLowerHex hexSigner 40)) (bad "the signer is not 0x + 40 lowercase hex");
          _ ← refuse (negb (isLowerHex encPub 64)) (bad "enc_pub is not 64 lowercase hex");
          Ok (MkImage (str_of repo) (str_of digest) (str_of signer) (default [] (hex_decode encPub)) 0)
      end
  | _ => Err (bad "not three fields")
  end.

(** ** Upstream sets *)

Definition alnum (c : ascii) : bool := is_lower c || is_digit c.
Definition name_char (c : ascii) : bool := alnum c || Ascii.eqb c "_" || Ascii.eqb c "-".

(** [upstreamName], a regular expression: one or two ends, and up to 61 characters
    between them. *)
Definition upstreamName (s : bytes) : bool :=
  match s, rev s with
  | c :: _, d :: _ => alnum c && alnum d && forallb name_char s && Nat.leb (length s) 63
  | _, _ => false
  end.

Definition providerTag : bytes := bytes_of "provider=".
Definition upstreamProvider (s : bytes) : bool :=
  match strip_prefix (bytes_of "provider=0x") s with Some h => isLowerHex h 40 | None => false end.

Definition maxUpstreamLine : nat := 4096.
Definition maxUpstreamMembers : Z := 1024.

Section upstreams.
Context `{UrlLib}.

(** [Upstream.Host]. *)
Definition up_Host (u : Upstream) : string :=
  match url_Parse (up_URL u) with Some p => u_Hostname p | None => "" end.

(** A byte outside printable ASCII. *)
Definition unprintable (c : ascii) : bool := (bval c <=? 32) || (127 <=? bval c).

(** [strings.Cut(s, "://")]: the scheme, and what is left. *)
Fixpoint cut_scheme (s : bytes) : option (bytes * bytes) :=
  match strip_prefix (bytes_of "://") s with
  | Some r => Some ([], r)
  | None => match s with
            | c :: s => '(a, r) ← cut_scheme s; Some (c :: a, r)
            | [] => None
            end
  end.

Definition before_slash (s : bytes) : bytes := match split_first "/" s with Some (a, _) => a | None => s end.

Definition port_ok (p : string) : bool :=
  if String.eqb p "" then true
  else match Atoi (bytes_of p) with
       | Some n => (1 <=? n) && (n <=? 65535) && bool_decide (itoa n = bytes_of p)
       | None => false
       end.

Definition checkBaseURL (s : bytes) : eresult unit :=
  _ ← refuse (existsb unprintable s) (bad "a byte outside printable ASCII");
  u ← of_option (url_Parse (str_of s)) (bad "does not parse");
  let '(scheme, rest) := match cut_scheme s with Some (a, r) => (str_of a, r) | None => (str_of s, []) end in
  let host := u_Host u in
  _ ← refuse (negb (String.eqb scheme "http") && negb (String.eqb scheme "https")) (bad "not lowercase http or https");
  _ ← refuse (negb (String.eqb (u_Opaque u) "") || String.eqb host "") (bad "no host");
  _ ← refuse (u_User u || bool_decide ("@"%char ∈ before_slash rest)) (bad "userinfo");
  _ ← refuse (negb (String.eqb (u_RawQuery u) "") || u_ForceQuery u || bool_decide ("#"%char ∈ s)) (bad "query or fragment");
  _ ← refuse (negb (String.eqb host (to_lower host))) (bad "uppercase host");
  _ ← refuse (String.eqb scheme "http" && String.eqb (u_Port u) "80"
              || String.eqb scheme "https" && String.eqb (u_Port u) "443") (bad "default port");
  _ ← refuse (bool_decide ("%"%char ∈ bytes_of (u_EscapedPath u)) || bool_decide ("%"%char ∈ s)) (bad "percent-encoding");
  _ ← refuse (String.eqb (u_Path u) "/" || has_suffix (u_Path u) "/") (bad "ends in a slash");
  _ ← each (fun seg => refuse (bool_decide (seg = bytes_of ".") || bool_decide (seg = bytes_of "..")) (bad "dot segment"))
        (split_on "/" (bytes_of (u_Path u)));
  refuse (negb (port_ok (u_Port u))) (bad "port").

(** The provider field of a member, the last of more than two, and the fields before it. *)
Definition member_provider (fields : list bytes) : eresult (string * list bytes) :=
  match rev fields with
  | last :: before =>
      match strip_prefix providerTag last with
      | Some p => if Nat.ltb 2 (length fields)
                  then if upstreamProvider last then Ok (str_of p, rev before) else Err (bad "not provider=0x and 40 digits")
                  else Ok ("", fields)
      | None => Ok ("", fields)
      end
  | [] => Ok ("", fields)
  end.

(** One member line, after the members [done]. *)
Definition parseMember (done : list Upstream) (line : bytes) : eresult Upstream :=
  '(provider, f) ← member_provider (split_on " " line);
  match f with
  | name :: url :: identity =>
      _ ← refuse (Nat.ltb 1 (length identity)) (bad "not <name> <base URL> [<identity>] [provider=<address>]");
      _ ← refuse (negb (upstreamName name)) (bad "member name");
      _ ← refuse (match done with
                  | [] => false
                  | _ => negb (Bool.eqb (negb (String.eqb provider ""))
                                        (existsb (fun u => negb (String.eqb (up_Provider u) "")) done))
                  end) (bad "a set names the provider of every member or of none");
      _ ← refuse (existsb (fun u => String.eqb (up_Provider u) provider && String.eqb (up_Name u) (str_of name)) done)
            (bad "appears twice");
      _ ← checkBaseURL url;
      match identity with
      | [] => Ok (MkUpstream (str_of name) (str_of url) "" provider)
      | id :: _ => _ ← refuse (bool_decide (id = [])) (bad "empty identity");
                   Ok (MkUpstream (str_of name) (str_of url) (str_of id) provider)
      end
  | _ => Err (bad "not <name> <base URL> [<identity>] [provider=<address>]")
  end.

Fixpoint parseMembers (done : list Upstream) (lines : list bytes) : eresult (list Upstream) :=
  match lines with
  | [] => Ok done
  | l :: lines => u ← parseMember done l; parseMembers (done ++ [u]) lines
  end.

Definition parseUpstreamSet (payload : bytes) : eresult UpstreamSet :=
  if bool_decide (payload = bytes_of "invalidated") then Ok (MkUpstreams true [])
  else
  let lines := split_on newline payload in
  _ ← refuse (existsb (fun l => Nat.ltb maxUpstreamLine (length l)) lines) (bad "a line is too long");
  match lines with
  | [] => Err (bad "no line")
  | first :: members =>
      countText ← of_option (strip_prefix (bytes_of "count=") first) (bad "the first line is not count=<n>");
      n ← of_option (Atoi countText) (bad "the first line is not count=<n>");
      _ ← refuse ((n <? 0) || negb (bool_decide (itoa n = countText))) (bad "the first line is not count=<n>");
      let members := if (n =? 0) && bool_decide (members = [[]]) then [] else members in
      _ ← refuse (maxUpstreamMembers <? n) (bad "over the member cap");
      _ ← refuse (negb (Z.of_nat (length members) =? n)) (bad "another number of member lines");
      ms ← parseMembers [] members;
      Ok (MkUpstreams false ms)
  end.
End upstreams.

(** ** The event log *)

(** [eventEntry]: its digest field is not read. *)
Record eventEntry := MkEntry { ee_IMR : Z; ee_EventType : Z; ee_Event : string; ee_Payload : string }.

(** Into a [uint32]: no sign, no fraction, no overflow. *)
Definition set_uint32 (old : Z) (j : json) : result jerr Z :=
  match j with
  | JNum lit => n ← of_option (match lit with c :: _ => if is_digit c then int64_of_lit lit else None | [] => None end) JType;
                _ ← refuse (2 ^ 32 <=? n) JType; Ok n
  | JNull => Ok old
  | _ => Err JType
  end.

Definition eventEntry_fields : list (string * (eventEntry -> json -> result jerr eventEntry)) :=
  [("imr", fun e j => v ← set_int (ee_IMR e) j; Ok (MkEntry v (ee_EventType e) (ee_Event e) (ee_Payload e)));
   ("event_type", fun e j => v ← set_uint32 (ee_EventType e) j; Ok (MkEntry (ee_IMR e) v (ee_Event e) (ee_Payload e)));
   ("event", fun e j => v ← set_string (ee_Event e) j; Ok (MkEntry (ee_IMR e) (ee_EventType e) v (ee_Payload e)));
   ("event_payload", fun e j => v ← set_string (ee_Payload e) j; Ok (MkEntry (ee_IMR e) (ee_EventType e) (ee_Event e) v))].

Definition zeroEntry : eventEntry := MkEntry 0 0 "" "".
Fixpoint entries_of (l : list json) : result jerr (list eventEntry) :=
  match l with
  | [] => Ok []
  | j :: l => e ← unmarshal_struct eventEntry_fields zeroEntry j; es ← entries_of l; Ok (e :: es)
  end.
Definition unmarshal_entries (j : json) : result jerr (list eventEntry) :=
  match j with JArr l => entries_of l | JNull => Ok [] | _ => Err JType end.

Definition isAbsent (raw : bytes) : bool :=
  let t := trim_space_bytes raw in
  bool_decide (t = []) || bool_decide (t = bytes_of "null") || bool_decide (t = quoted []).

Definition raw_member (name : string) (body : bytes) : result jerr (option json) :=
  unmarshal (unmarshal_struct [(name, fun _ j => Ok (Some j))] None) body.

(** [eventLogOf]: the reply's own log, else the one in its [tcb_info]. *)
Definition eventLogOf (reply : bytes) : eresult (list eventEntry) :=
  outer ← map_err (EDecode "the /v1/quote reply is not JSON")
            (unmarshal (unmarshal_struct [("event_log", fun (t : option json * option json) j => Ok (Some j, t.2));
                                          ("tcb_info", fun t j => Ok (t.1, Some j))] (None, None)) reply);
  raw ← map_err (EDecode "the reply's event_log does not decode") (UnwrapJSONString (raw_bytes outer.1));
  raw ← (if isAbsent raw then
           tcb ← map_err (EDecode "the reply's tcb_info does not decode") (UnwrapJSONString (raw_bytes outer.2));
           if isAbsent tcb then Ok raw
           else t ← map_err (EDecode "the reply's tcb_info does not decode") (raw_member "event_log" tcb);
                map_err (EDecode "tcb_info's event_log does not decode") (UnwrapJSONString (raw_bytes t))
         else Ok raw);
  _ ← refuse (isAbsent raw) ErrNoEventLog;
  map_err (EDecode "the event log does not decode") (unmarshal unmarshal_entries raw).

(** ** The replay *)

Record rtmr3Entry := MkEntry3 { re_entry : eventEntry; re_payload : bytes }.
Definition re_Event (e : rtmr3Entry) : string := ee_Event (re_entry e).
Definition re_EventType (e : rtmr3Entry) : Z := ee_EventType (re_entry e).

Definition le_bytes (n : nat) (z : Z) : bytes := rev (be_bytes n z).

(** What is hashed of one entry, and the register's next value. *)
Definition event_text (eventType : Z) (event payload : bytes) : bytes :=
  le_bytes 4 eventType ++ ":"%char :: event ++ ":"%char :: payload.
Definition EventDigest (eventType : Z) (event : string) (payload : bytes) : bytes :=
  sha384 (event_text eventType (bytes_of event) payload).
Definition extend (mr : bytes) (e : rtmr3Entry) : bytes :=
  sha384 (mr ++ EventDigest (re_EventType e) (re_Event e) (re_payload e)).

Definition zeroMR : bytes := repeat (byte_of 0) RTMRLen.

Fixpoint replay_from (i : nat) (mr : bytes) (entries : list eventEntry) : eresult (bytes * list rtmr3Entry) :=
  match entries with
  | [] => Ok (mr, [])
  | e :: entries =>
      if negb (ee_IMR e =? 3) then replay_from (S i) mr entries
      else payload ← of_option (hex_decode (bytes_of (ee_Payload e))) (EAt i (ee_Event e) (EFinding "the payload is not hex"));
           let r := MkEntry3 e payload in
           '(mr, log) ← replay_from (S i) (extend mr r) entries;
           Ok (mr, r :: log)
  end.

Definition replayRTMR3 (reply rtmr3 : bytes) : eresult (list rtmr3Entry) :=
  entries ← eventLogOf reply;
  '(mr, log) ← replay_from 0 zeroMR entries;
  _ ← refuse (negb (bool_decide (mr = rtmr3))) (EFinding "the event log does not replay to the quote's RTMR3");
  Ok log.

(** ** Reading the records *)

Section reading.
Context `{UrlLib}.

Definition apply (st : RuntimeState) (n : nat) (name : string) (payload : bytes) : eresult RuntimeState :=
  let '(MkRuntime en ru ig im iu cu lc up eg ins unk) := st in
  if String.eqb name recImageUpdate then
    r ← parseImageUpdate payload;
    Ok (MkRuntime en ru ig (Some (MkImage (im_Repository r) (im_Digest r) (im_Signer r) (im_EncPub r) n)) (S iu) cu lc up eg ins unk)
  else if String.eqb name recConfigUpdate then
    _ ← refuse (negb (isLowerHex payload 64)) (EFinding "not a sha256 in lowercase hex");
    Ok (MkRuntime en ru ig im iu (S cu) (str_of payload) up eg ins unk)
  else if String.eqb name recUpstreamSet then
    set ← parseUpstreamSet payload;
    Ok (MkRuntime en ru ig im iu cu lc (Some set) eg ins unk)
  else if String.eqb name recEngineSet then
    Ok (MkRuntime en ru ig im iu cu lc up (S eg) ins unk)
  else if String.eqb name recInstanceConfigUpdate then
    '(inst, value) ← of_option (split_first " " payload) (EFinding "not <instance> <sha256 hex>");
    _ ← refuse (bool_decide (inst = []) || contains_any [" "%char; tab; newline] inst
                || negb (bool_decide (value = bytes_of "unknown")) && negb (isLowerHex value 64))
          (EFinding "not <instance> <sha256 hex>");
    Ok (MkRuntime en ru ig im iu cu lc up eg (<[str_of inst := str_of value]> ins) unk)
  else Ok (MkRuntime en ru ig im iu cu lc up eg ins (unk ++ [name])).

(** The entries before and after the first [system-ready]. *)
Fixpoint split_ready (log : list rtmr3Entry) : option (list rtmr3Entry * list rtmr3Entry) :=
  match log with
  | [] => None
  | e :: log => if String.eqb (re_Event e) systemReady then Some ([], log)
                else '(a, b) ← split_ready log; Some (e :: a, b)
  end.

Definition is_zg (e : rtmr3Entry) : bool := has_prefix (re_Event e) "zg-".

(** One runtime entry, the [n]-th. *)
Definition read_record (st : RuntimeState) (n : nat) (e : rtmr3Entry) : eresult RuntimeState :=
  let '(MkRuntime en ru ig im iu cu lc up eg ins unk) := st in
  let st := MkRuntime en (S ru) ig im iu cu lc up eg ins unk in
  if negb (is_zg e) then Ok st
  else _ ← refuse (negb (re_EventType e =? runtimeEventType)) (EAt n (re_Event e) (EFinding "not the runtime type"));
       map_err (EAt n (re_Event e)) (apply st n (re_Event e) (re_payload e)).

Fixpoint read_records (st : RuntimeState) (n : nat) (log : list rtmr3Entry) : eresult RuntimeState :=
  match log with
  | [] => Ok st
  | e :: log => st ← read_record st n e; read_records st (S n) log
  end.

(** [ReadRuntimeState] of a log that replayed. *)
Definition read_log (log : list rtmr3Entry) : eresult RuntimeState :=
  '(boot, runtime) ← of_option (split_ready log) (EFinding "the event log has no system-ready entry");
  read_records (MkRuntime (length log) 0 (map re_Event (List.filter is_zg boot)) None 0 0 "" None 0 ∅ []) 1 runtime.

Definition ReadRuntimeState (reply rtmr3 : bytes) : eresult RuntimeState :=
  log ← replayRTMR3 reply rtmr3; read_log log.
End reading.

(** ** The judgement *)

Record RuntimeCheck := MkCheck {
  rc_State : RuntimeState; rc_Release : option ReleaseVerdict; rc_KeysBound : bool;
  rc_Failures : list string; rc_Unverified : list string
}.

(** [dedupe]: the first of each. *)
Fixpoint dedupe_from (seen l : list string) : list string :=
  match l with
  | [] => []
  | s :: l => if bool_decide (s ∈ seen) then dedupe_from seen l else s :: dedupe_from (s :: seen) l
  end.
Definition dedupe (l : list string) : list string := dedupe_from [] l.

Definition opt_line (b : bool) (s : string) : list string := if b then [s] else [].

(** The part of the judgement the last image record is about. *)
Definition check_image (im : ImageRecord) (rels : option ReleaseVerifier) (signer : string) (encPub : bytes)
    : ReleaseVerdict * bool * list string * list string :=
  let v := VerifyRelease rels (im_Repository im) (im_Digest im) in
  let same_signer := equal_fold (im_Signer im) signer in
  let same_key := bool_decide (im_EncPub im = encPub) in
  (v, same_signer && same_key,
   opt_line (match rv_Status v with ReleaseRejected => true | _ => false end)
     ("the running broker build is not an accepted release: " +:+ rv_Reason v)
   ++ opt_line (negb same_signer) "the running broker's signer is not the signer in report_data"
   ++ opt_line (negb same_key) "the running broker's enc_pub is not the enc_pub in report_data",
   opt_line (match rv_Status v with ReleaseUnavailable => true | _ => false end)
     ("the running broker build could not be checked: " +:+ rv_Reason v)).

Definition CheckRuntime (st : RuntimeState) (rels : option ReleaseVerifier) (signer : string) (encPub : bytes)
    : RuntimeCheck :=
  let '(release, bound, fails, unv) :=
    match st_Image st with
    | Some im => let '(v, b, f, u) := check_image im rels signer encPub in (Some v, b, f, u)
    | None => (None, false, [], [])
    end in
  MkCheck st release bound
    (fails ++ opt_line (Nat.ltb 0 (st_Engines st)) "the controller created containers after launch")
    (unv
     ++ opt_line (negb (bool_decide (st_Unknown st = [])))
          ("the event log has record(s) this reader does not know: " +:+ String.concat ", " (dedupe (st_Unknown st)))
     ++ opt_line (match st_Upstreams st with Some u => us_Invalidated u | None => false end)
          "the controller could not state the broker's upstream set"
     ++ map (fun kv => "a config change to a broker instance aborted: " +:+ kv.1)
          (List.filter (fun kv => String.eqb kv.2 "unknown") (entries (st_Instances st)))).

(** ** Text at a separator *)

(** Two ways to cut one text at a separator, the second cut having none before it. *)
Lemma cut_at (sep : ascii) a b x y : sep ∉ a -> a ++ sep :: b = x ++ sep :: y ->
  (x = a /\ y = b) \/ (exists z, x = a ++ sep :: z /\ b = z ++ sep :: y).
Proof.
  revert x. induction a as [|c a IH]; intros x Hn E.
  - destruct x as [|d x]; cbn in E; [injection E as ->; by left|]. injection E as <- ->. right. by exists x.
  - destruct x as [|d x]; cbn in E.
    + injection E as <- _. destruct Hn. by left.
    + injection E as <- E. destruct (IH x) as [[-> ->]|(z & -> & ->)]; [intros Hc; apply Hn; by right|done|by left|].
      right. by exists z.
Qed.

Lemma prefix_before (sep : ascii) p a b : sep ∉ p ->
  (exists r, a ++ sep :: b = p ++ r) <-> (exists r, a = p ++ r).
Proof.
  intros Hn. split; [|intros [r ->]; exists (r ++ sep :: b); by rewrite <-app_assoc].
  revert a Hn. induction p as [|c p IH]; intros a Hn [r E]; [by exists a|].
  destruct a as [|d a]; cbn in E; injection E as Ec E; [subst c; destruct Hn; by left|].
  subst d. destruct (IH a) as [r' ->]; [intros Hc; apply Hn; by right|by exists r|]. by exists r'.
Qed.

(** ** A register pins its log *)

Definition replayed (mr : bytes) (log : list rtmr3Entry) : bytes := fold_left extend log mr.

(** Everything hashed while a log is replayed. *)
Fixpoint hashed (mr : bytes) (log : list rtmr3Entry) : list bytes :=
  match log with
  | [] => []
  | e :: log => event_text (re_EventType e) (bytes_of (re_Event e)) (re_payload e)
                :: (mr ++ EventDigest (re_EventType e) (re_Event e) (re_payload e))
                :: hashed (extend mr e) log
  end.

(** What is assumed of SHA-384: no collision among given texts, and none of them hashes
    to the register's initial zeros. *)
Definition chain_free (l : list bytes) : Prop :=
  collision_free384 l /\ forall x, x ∈ l -> sha384 x <> zeroMR.

(** Two entries with one digest. *)
Definition same_text (e e' : rtmr3Entry) : Prop :=
  event_text (re_EventType e) (bytes_of (re_Event e)) (re_payload e) =
  event_text (re_EventType e') (bytes_of (re_Event e')) (re_payload e').

Lemma replay_from_replayed entries i mr mr' log :
  replay_from i mr entries = Ok (mr', log) -> mr' = replayed mr log.
Proof.
  revert i mr mr' log. induction entries as [|e entries IH]; intros i mr mr' log; cbn [replay_from].
  - intros E. by injection E as <- <-.
  - destruct (negb _); [apply IH|]. intros E. inv_ok. destruct x0 as [m l]. inv_ok. subst. cbn. by eapply IH.
Qed.

Lemma hashed_snoc mr log e :
  hashed mr (log ++ [e]) = hashed mr log ++
    [event_text (re_EventType e) (bytes_of (re_Event e)) (re_payload e);
     replayed mr log ++ EventDigest (re_EventType e) (re_Event e) (re_payload e)].
Proof. revert mr. induction log as [|f log IH]; intros mr; cbn; [done|]. by rewrite IH. Qed.

Lemma extend_length mr e : length (extend mr e) = 48%nat.
Proof. apply sha384_length. Qed.

Lemma replayed_snoc mr log e : replayed mr (log ++ [e]) = extend (replayed mr log) e.
Proof. unfold replayed. by rewrite fold_left_app. Qed.

Lemma replayed_length log : length (replayed zeroMR log) = 48%nat.
Proof. destruct log as [|e log _] using rev_ind; [done|]. rewrite replayed_snoc. apply extend_length. Qed.

Lemma register_pins_log log log' :
  chain_free (hashed zeroMR log ++ hashed zeroMR log') -> replayed zeroMR log = replayed zeroMR log' ->
  Forall2 same_text log log'.
Proof.
  revert log'. induction log as [|e log IH] using rev_ind; intros log' [Hc Hz] E.
  - destruct log' as [|e' log' _] using rev_ind; [constructor|]. rewrite replayed_snoc in E.
    exfalso. apply (Hz (replayed zeroMR log' ++ EventDigest (re_EventType e') (re_Event e') (re_payload e'))); [|done].
    rewrite hashed_snoc. cbn. rewrite elem_of_app, !elem_of_cons. auto.
  - destruct log' as [|e' log' _] using rev_ind.
    { rewrite replayed_snoc in E. exfalso.
      apply (Hz (replayed zeroMR log ++ EventDigest (re_EventType e) (re_Event e) (re_payload e))); [|done].
      rewrite hashed_snoc, !elem_of_app, !elem_of_cons. auto 6. }
    rewrite !hashed_snoc in Hc, Hz. rewrite !replayed_snoc in E.
    apply Hc in E; [|rewrite !elem_of_app, !elem_of_cons; auto 8..].
    apply app_inj_1 in E as [Er Ed]; [|by rewrite !replayed_length].
    apply Hc in Ed; [|rewrite !elem_of_app, !elem_of_cons; auto 8..].
    apply Forall2_app; [|by repeat constructor]. apply IH; [|done]. split.
    + intros x y Hx Hy. apply Hc; rewrite !elem_of_app in *; tauto.
    + intros x Hx. apply Hz. rewrite !elem_of_app in *. tauto.
Qed.

(** ** What another log with the same register can say *)

(** The event names a CVM writes have no separator in them, [system-ready] has nothing to
    cut, and a type is 32 bits. *)
Definition log_ok (log : list rtmr3Entry) : Prop :=
  Forall (fun e => (":"%char ∉ bytes_of (re_Event e)) /\ 0 <= re_EventType e < 2 ^ 32 /\
                   (re_Event e = systemReady -> ":"%char ∉ re_payload e)) log.
Definition types_ok (log : list rtmr3Entry) : Prop := Forall (fun e => 0 <= re_EventType e < 2 ^ 32) log.

(** An entry of the log read, and the CVM's: the same one, or cut later. *)
Definition recut (e' e : rtmr3Entry) : Prop :=
  re_EventType e' = re_EventType e /\
  ((re_Event e' = re_Event e /\ re_payload e' = re_payload e) \/
   exists z, bytes_of (re_Event e') = bytes_of (re_Event e) ++ ":"%char :: z /\ re_Event e <> systemReady).

Lemma be_bytes_inj n x y : 0 <= x < 256 ^ Z.of_nat n -> 0 <= y < 256 ^ Z.of_nat n ->
  be_bytes n x = be_bytes n y -> x = y.
Proof.
  revert x y. induction n as [|n IH]; intros x y Hx Hy; [cbn in *; lia|]. cbn [be_bytes].
  rewrite Nat2Z.inj_succ, Z.pow_succ_r in Hx, Hy by lia.
  intros E. apply app_inj_2 in E as [E1 E2]; [|done]. injection E2 as E2.
  apply IH in E1; [|split; [apply Z.div_pos; lia|apply Z.div_lt_upper_bound; lia]..].
  apply (f_equal bval) in E2. rewrite !bval_byte_of in E2.
  rewrite (Z.div_mod x 256), (Z.div_mod y 256) by lia. by rewrite E1, E2.
Qed.

Lemma same_text_recut log' log : log_ok log -> types_ok log' -> Forall2 same_text log' log -> Forall2 recut log' log.
Proof.
  intros Hl Hl' H. revert Hl Hl'. induction H as [|e' e log' log He H IH]; intros Hl Hl'; [constructor|].
  inversion Hl as [|? ? (Hn & Ht & Hr) Hl2]; subst. inversion Hl' as [|? ? Ht' Hl2']; subst.
  constructor; [|by apply IH]. unfold same_text, event_text in He.
  apply app_inj_1 in He as [Et He]; [|unfold le_bytes; by rewrite !length_rev, !be_bytes_length].
  injection He as He. unfold le_bytes in Et. apply (f_equal (@rev _)) in Et. rewrite !rev_involutive in Et.
  apply be_bytes_inj in Et; [|cbn; lia..]. split; [done|].
  symmetry in He. destruct (cut_at _ _ _ _ _ Hn He) as [[E1 E2]|(z & E1 & E2)].
  - left. split; [by apply bytes_of_inj|done].
  - right. exists z. split; [done|]. intros Hs. apply (Hr Hs). rewrite E2, elem_of_app. right. by left.
Qed.

Lemma recut_ready e' e : recut e' e -> ":"%char ∉ bytes_of (re_Event e) ->
  String.eqb (re_Event e') systemReady = String.eqb (re_Event e) systemReady.
Proof.
  intros [_ [[-> _]|(z & Hz & Hs)]] _; [done|].
  destruct (String.eqb_spec (re_Event e) systemReady) as [|_]; [done|]. apply String.eqb_neq. intros E. rewrite E in Hz.
  assert (":"%char ∈ bytes_of systemReady) as Hin by (rewrite Hz, elem_of_app; right; by left).
  revert Hin. apply (bool_decide_unpack _). by vm_compute.
Qed.

Lemma recut_zg e' e : recut e' e -> is_zg e' = is_zg e.
Proof.
  intros [_ [[E _]|(z & Hz & _)]]; unfold is_zg; [by rewrite E|].
  apply Bool.eq_iff_eq_true. rewrite !has_prefix_iff, Hz. apply prefix_before.
  apply (bool_decide_unpack _). by vm_compute.
Qed.

Lemma split_ready_recut log' log a' b' : Forall2 recut log' log -> log_ok log ->
  split_ready log' = Some (a', b') ->
  exists a b, split_ready log = Some (a, b) /\ Forall2 recut b' b /\ log_ok b.
Proof.
  intros H. revert a' b'. induction H as [|e' e log' log He H IH]; intros a' b' Hl; [done|].
  inversion Hl as [|? ? (Hn & _ & _) Hl2]; subst. cbn. rewrite (recut_ready _ _ He Hn).
  destruct (String.eqb _ _); [intros E; injection E as <- <-; eauto|].
  destruct (split_ready log') as [[a b]|]; [|done]. cbn. intros E. injection E as <- <-.
  destruct (IH a b Hl2 eq_refl) as (a2 & b2 & -> & Hb). cbn. eauto.
Qed.

Section hiding.
Context `{UrlLib}.

(** A reading without the names ignored before [system-ready]. *)
Definition forget (st : RuntimeState) : RuntimeState :=
  let '(MkRuntime en ru _ im iu cu lc up eg ins unk) := st in MkRuntime en ru [] im iu cu lc up eg ins unk.

Lemma apply_forget st n name p : apply (forget st) n name p = (r ← apply st n name p; Ok (forget r)).
Proof.
  destruct st as [en ru ig im iu cu lc up eg ins unk]. unfold apply. cbn [forget].
  destruct (String.eqb name recImageUpdate); [by destruct (parseImageUpdate p)|].
  destruct (String.eqb name recConfigUpdate); [by destruct (refuse _ _)|].
  destruct (String.eqb name recUpstreamSet); [by destruct (parseUpstreamSet p)|].
  destruct (String.eqb name recEngineSet); [done|].
  destruct (String.eqb name recInstanceConfigUpdate); [|done].
  destruct (split_first " " p) as [[inst v]|]; [|done]. cbn. by destruct (refuse _ _).
Qed.

Lemma read_record_forget st n e : read_record (forget st) n e = (r ← read_record st n e; Ok (forget r)).
Proof.
  destruct st as [en ru ig im iu cu lc up eg ins unk]. unfold read_record. cbn [forget].
  destruct (negb (is_zg e)); [done|]. destruct (refuse _ _) as [[]|]; [|done]. cbn [mbind result_bind].
  change (MkRuntime en (S ru) [] im iu cu lc up eg ins unk) with (forget (MkRuntime en (S ru) ig im iu cu lc up eg ins unk)).
  rewrite apply_forget. by destruct (apply _ _ _ _).
Qed.

Lemma read_records_forget st n log : read_records (forget st) n log = (r ← read_records st n log; Ok (forget r)).
Proof.
  revert st n. induction log as [|e log IH]; intros st n; [done|]. cbn [read_records]. rewrite read_record_forget.
  destruct (read_record st n e) as [r|]; [|done]. cbn [mbind result_bind]. apply IH.
Qed.

(** Names not understood are kept. *)
Lemma read_record_unknown st n e r : read_record st n e = Ok r -> st_Unknown st <> [] -> st_Unknown r <> [].
Proof.
  destruct st as [en ru ig im iu cu lc up eg ins unk]. unfold read_record. cbn [st_Unknown].
  destruct (negb (is_zg e)); [intros E; by injection E as <-|].
  intros E Hu. inv_ok. unfold apply in E.
  repeat match type of E with context [String.eqb ?a ?b] => destruct (String.eqb a b) end;
    inv_ok; repeat match goal with p : bytes * bytes |- _ => destruct p end; inv_ok; subst; cbn; try done.
  by destruct unk.
Qed.

Lemma read_records_unknown st n log r : read_records st n log = Ok r -> st_Unknown st <> [] -> st_Unknown r <> [].
Proof.
  revert st n. induction log as [|e log IH]; intros st n; cbn; [intros E; by injection E as <-|].
  intros E Hu. inv_ok. eapply IH; [done|]. by eapply read_record_unknown.
Qed.

Definition known_names : list string :=
  [recImageUpdate; recConfigUpdate; recUpstreamSet; recEngineSet; recInstanceConfigUpdate].

(** A record cut later than the CVM wrote it is not understood. *)
Lemma read_record_recut st n e' e r : recut e' e -> read_record st n e' = Ok r ->
  st_Unknown r <> [] \/ read_record st n e = Ok r.
Proof.
  intros Hc Hr. pose proof (recut_zg _ _ Hc) as Hz. destruct Hc as [Ht [[En Ep]|(z & Hn & _)]].
  { right. unfold read_record, is_zg in *. by rewrite <-En, <-Ht, <-Ep. }
  destruct st as [en ru ig im iu cu lc up eg ins unk]. unfold read_record in *. rewrite Hz in Hr.
  destruct (negb (is_zg e)); [by right|]. left. inv_ok. unfold apply in Hr.
  assert (forall s, s ∈ known_names -> String.eqb (re_Event e') s = false) as Hk.
  { intros s Hs. apply String.eqb_neq. intros E. rewrite E in Hn.
    assert (":"%char ∈ bytes_of s) as Hin by (rewrite Hn, elem_of_app; right; by left).
    clear E Hn. revert s Hs Hin. apply (Forall_forall (fun s => ":"%char ∈ bytes_of s -> False)).
    apply (bool_decide_unpack _). by vm_compute. }
  rewrite !Hk in Hr by (unfold known_names; rewrite !elem_of_cons; auto 8). injection Hr as <-. cbn. by destruct unk.
Qed.

Lemma read_records_recut st n log' log r : Forall2 recut log' log -> read_records st n log' = Ok r ->
  st_Unknown r <> [] \/ read_records st n log = Ok r.
Proof.
  intros H1. revert st n. induction H1 as [|e' e log' log He H1 IH]; intros st n; cbn [read_records]; [by right|].
  intros E. apply bind_ok in E as (st1 & Hb & E). destruct (read_record_recut _ _ _ _ _ He Hb) as [Hu|Hr].
  - left. by eapply read_records_unknown.
  - rewrite Hr. autorewrite with wire. by apply IH.
Qed.
End hiding.

(** ** The image record's grammar *)

Lemma hex_val_lower c : is_lower_hex c = true -> exists x, hex_val c = Some x /\ 0 <= x < 16 /\ hex_digit x = c.
Proof.
  pose proof (all_bytes_forall (fun c => match is_lower_hex c, hex_val c with
    | true, Some x => (0 <=? x) && (x <? 16) && Ascii.eqb (hex_digit x) c
    | true, None => false
    | false, _ => true
    end = true)) as Hall.
  specialize (Hall ltac:(by vm_compute)).
  intros Hc. specialize (Hall c). cbv beta in Hall. rewrite Hc in Hall. destruct (hex_val c) as [x|]; [|done]. exists x.
  rewrite !andb_true_iff, Z.leb_le, Z.ltb_lt, Ascii.eqb_eq in Hall. tauto.
Qed.

Lemma hex_decode_lower n s : isLowerHex s (2 * n) = true ->
  exists b, hex_decode s = Some b /\ hex_encode b = s /\ length b = n.
Proof.
  unfold isLowerHex. revert s. induction n as [|n IH]; intros s; rewrite andb_true_iff, Nat.eqb_eq; intros [Hlen Hs].
  - destruct s; [|done]. by exists [].
  - destruct s as [|c1 [|c2 s]]; cbn in Hlen; [lia..|]. cbn [forallb] in Hs. rewrite !andb_true_iff in Hs. destruct Hs as (H1 & H2 & Hs).
    destruct (hex_val_lower _ H1) as (x & Ex & Hx & Dx), (hex_val_lower _ H2) as (y & Ey & Hy & Dy).
    destruct (IH s) as (b & Eb & Hb & Lb); [rewrite andb_true_iff, Nat.eqb_eq; split; [lia|done]|].
    exists (byte_of (16 * x + y) :: b). cbn [hex_decode hex_encode length]. rewrite Ex, Ey, Eb. split; [done|].
    rewrite bval_byte_of_small by lia. rewrite Hb, Lb. split; [|done].
    replace ((16 * x + y) / 16) with x by (apply (Z.div_unique _ _ _ y); lia).
    replace ((16 * x + y) mod 16) with y by (apply (Z.mod_unique _ _ x); lia). by rewrite Dx, Dy.
Qed.

Lemma isLowerHex_encode b : isLowerHex (hex_encode b) (2 * length b) = true.
Proof.
  unfold isLowerHex. rewrite hex_encode_length, Nat.eqb_refl. apply forallb_forall. intros c Hc.
  pose proof (hex_encode_lower b) as Hl. rewrite Forall_forall in Hl. by apply Hl, list_elem_of_In.
Qed.

Lemma lower_hex_not c s n : is_lower_hex c = false -> isLowerHex s n = true -> c ∉ s.
Proof.
  unfold isLowerHex. intros Hc [_ Hs]%andb_true_iff Hin. rewrite forallb_forall in Hs.
  apply list_elem_of_In, Hs in Hin. congruence.
Qed.

Lemma contains_any_false cs s : contains_any cs s = false <-> forall c, c ∈ cs -> c ∉ s.
Proof.
  unfold contains_any. split.
  - intros Hf c Hc Hin. assert (existsb (fun c => bool_decide (c ∈ cs)) s = true) as Ht; [|congruence].
    apply existsb_exists. exists c. split; [by apply list_elem_of_In|by apply bool_decide_eq_true].
  - intros Hn. destruct (existsb _ s) eqn:E; [|done]. apply existsb_exists in E as (c & Hin & Hc).
    apply bool_decide_eq_true in Hc. apply list_elem_of_In in Hin. by destruct (Hn c Hc).
Qed.

(** A record as the controller writes it, and the values it can have. *)
Definition print_image (r : ImageRecord) : bytes :=
  bytes_of (im_Repository r) ++ "@"%char :: bytes_of (im_Digest r) ++ " "%char ::
  bytes_of (im_Signer r) ++ " "%char :: hex_encode (im_EncPub r).

Record image_ok (r : ImageRecord) : Prop := {
  io_repo : im_Repository r <> "" /\ forall c, c ∈ ["@"%char; " "%char; tab; newline] -> c ∉ bytes_of (im_Repository r);
  io_digest : exists h, im_Digest r = "sha256:" +:+ str_of h /\ isLowerHex h 64 = true;
  io_signer : exists h, im_Signer r = "0x" +:+ str_of h /\ isLowerHex h 40 = true;
  io_key : length (im_EncPub r) = 32%nat;
  io_index : im_Index r = 0%nat
}.

Lemma split_first_some sep l a b : split_first sep l = Some (a, b) -> l = a ++ sep :: b /\ (sep ∉ a).
Proof.
  revert a b. induction l as [|c l IH]; intros a b; cbn; [done|]. destruct (Ascii.eqb_spec c sep) as [->|Hne].
  - intros E. injection E as <- <-. split; [done|by apply not_elem_of_nil].
  - destruct (split_first sep l) as [[a' b']|]; [|done]. intros E. injection E as <- <-.
    destruct (IH a' b' eq_refl) as [-> Hn]. split; [done|]. intros [->|?]%elem_of_cons; [by apply Hne|done].
Qed.

(** Splitting into three pieces, as an equation. *)
Lemma split_three sep a b c l :
  split_on sep l = [a; b; c] <-> l = a ++ sep :: b ++ sep :: c /\ (sep ∉ a) /\ (sep ∉ b) /\ (sep ∉ c).
Proof.
  split.
  - intros E. pose proof (join_split sep l) as Hj. pose proof (split_no_sep sep l) as Hn. rewrite E in Hj, Hn.
    inversion Hn as [|? ? Ha Hn2]; subst. inversion Hn2 as [|? ? Hb Hn3]; subst. inversion Hn3; subst. done.
  - intros (-> & Ha & Hb & Hc). rewrite !split_on_app by done. by rewrite split_on_piece.
Qed.

Lemma image_fields r : image_ok r ->
  exists hd hs, bytes_of (im_Digest r) = bytes_of "sha256:" ++ hd /\ isLowerHex hd 64 = true /\
    bytes_of (im_Signer r) = bytes_of "0x" ++ hs /\ isLowerHex hs 40 = true.
Proof.
  intros [_ (hd & Hd & Hd2) (hs & Hs & Hs2) _ _]. exists hd, hs. rewrite Hd, Hs, !bytes_of_app, !bytes_of_str_of. done.
Qed.

Lemma split_image r : image_ok r -> split_on " " (print_image r) =
  [bytes_of (im_Repository r) ++ "@"%char :: bytes_of (im_Digest r); bytes_of (im_Signer r); hex_encode (im_EncPub r)].
Proof.
  intros Hok. destruct (image_fields _ Hok) as (hd & hs & Ed & Hd & Esg & Hs). destruct Hok as [[_ Hrepo] _ _ _ _].
  apply split_three. unfold print_image. rewrite <-app_assoc. split; [done|]. rewrite Ed, Esg. split_and!.
  - rewrite elem_of_app, elem_of_cons, elem_of_app. intros [Hin|[Hin|[Hin|Hin]]]; [|done|..].
    + eapply Hrepo; [|exact Hin]. rewrite !elem_of_cons. auto.
    + revert Hin. apply (bool_decide_unpack _). by vm_compute.
    + revert Hin. by eapply lower_hex_not.
  - rewrite elem_of_app. intros [Hin|Hin]; [revert Hin; apply (bool_decide_unpack _); by vm_compute|].
    revert Hin. by eapply lower_hex_not.
  - eapply lower_hex_not; [|apply isLowerHex_encode]. done.
Qed.

(** An image record is read exactly when the controller could have written it: what is
    accepted is the print of what it reads as, and everything that can be printed reads
    back. *)
Theorem image_grammar payload r : parseImageUpdate payload = Ok r <-> image_ok r /\ payload = print_image r.
Proof.
  unfold parseImageUpdate, print_image. split.
  - destruct (split_on " " payload) as [|image [|signer [|enc [|? ?]]]] eqn:Es; try done.
    apply split_three in Es as (-> & Hi & Hs & He). destruct (split_first "@" image) as [[repo digest]|] eqn:Ea; [|done].
    apply split_first_some in Ea as [-> Hr]. intros E. inv_ok. bool_hyps.
    repeat match goal with H : strip_prefix _ _ = Some _ |- _ => apply strip_prefix_spec in H; subst end.
    destruct (hex_decode_lower 32 enc) as (k & Hk & Hk2 & Hk3); [done|]. rewrite Hk. cbn [default].
    match goal with H : contains_any _ _ = false |- _ => pose proof (proj1 (contains_any_false _ _) H) as Hc end.
    split.
    + split; cbn.
      * split.
        -- intros E0. apply (f_equal bytes_of) in E0. rewrite bytes_of_str_of in E0. by subst repo.
        -- rewrite bytes_of_str_of. intros c Hin Hcr. rewrite !elem_of_cons in Hin.
           destruct Hin as [-> | [-> | [-> | [-> | Hin]]]]; [done| |..].
           ++ apply Hi. rewrite elem_of_app. by left.
           ++ eapply Hc; [|exact Hcr]. rewrite !elem_of_cons. auto.
           ++ eapply Hc; [|exact Hcr]. rewrite !elem_of_cons. auto.
           ++ by apply elem_of_nil in Hin.
      * eexists. split; [reflexivity|done].
      * eexists. split; [reflexivity|done].
      * done.
      * done.
    + cbn [im_Repository im_Digest im_Signer im_EncPub from_option id]. rewrite !bytes_of_str_of, Hk2. by rewrite <-!app_assoc.
  - intros [Hok ->]. destruct (image_fields _ Hok) as (hd & hs & Ed & Hd & Esg & Hs). fold (print_image r).
    rewrite (split_image _ Hok). destruct Hok as [[Hne Hrepo] _ _ Hk Hix].
    rewrite split_first_app by (intros Hin; eapply Hrepo; [|exact Hin]; by left).
    rewrite Ed, Esg. rewrite !(proj2 (strip_prefix_spec _ _ _) eq_refl). 
    assert (contains_any ["@"%char; tab; newline] (bytes_of (im_Repository r)) = false) as ->.
    { apply contains_any_false. intros c Hc. apply Hrepo. rewrite !elem_of_cons in *. tauto. }
    rewrite bool_decide_false by (intros E; apply Hne; by apply bytes_of_inj).
    pose proof (isLowerHex_encode (im_EncPub r)) as He. rewrite Hk in He. change (2 * 32)%nat with 64%nat in He.
    cbn [of_option mbind result_bind orb refuse]. rewrite Hd, Hs, He, hex_decode_encode.
    cbn [of_option mbind result_bind orb refuse negb from_option id].
    rewrite <-Ed, <-Esg, !str_of_bytes_of. destruct r; cbn in *. by subst.
Qed.

(** ** The claims *)

Section claims.
Context `{UrlLib}.

(** Decoding into a struct keeps what each of its fields keeps. *)
Lemma unmarshal_struct_keeps {T} (P : T -> Prop) (fs : list (string * (T -> json -> result jerr T))) zero j t :
  Forall (fun f => forall t j t', P t -> f.2 t j = Ok t' -> P t') fs -> P zero ->
  unmarshal_struct fs zero j = Ok t -> P t.
Proof.
  intros Hf Hz. assert (forall p f, List.find p fs = Some f -> forall t j t', P t -> f.2 t j = Ok t' -> P t') as Hfind.
  { intros p f Hp. apply List.find_some in Hp as [Hin _]. rewrite Forall_forall in Hf. by apply Hf, list_elem_of_In. }
  destruct j; cbn; try done; [intros E; by injection E as <-|]. revert zero Hz.
  match goal with |- context [set_members _ _ ?l] => induction l as [|kv l IH] end; cbn; intros z Hz E; [by injection E as <-|].
  inv_ok. eapply IH; [|done]. unfold set_member, exact_field, folded_field in *.
  match goal with H : match List.find ?p _ with _ => _ end = Ok _ |- _ => destruct (List.find p fs) as [f|] eqn:E1 end; [by eapply Hfind|].
  match goal with H : match List.find ?p _ with _ => _ end = Ok _ |- _ => destruct (List.find p fs) as [f|] eqn:E2 end; [by eapply Hfind|].
  by inv_ok; subst.
Qed.

Definition type_ok (e : eventEntry) : Prop := 0 <= ee_EventType e < 2 ^ 32.

Lemma span_digits_digits l : Forall (fun c => is_digit c = true) (span_digits l).1.
Proof.
  induction l as [|c l IH]; cbn; [constructor|]. destruct (is_digit c) eqn:E; [|constructor].
  destruct (span_digits l). by constructor.
Qed.

Lemma digits_val_nonneg l : Forall (fun c => is_digit c = true) l -> 0 <= digits_val l.
Proof.
  intros Hl. unfold digits_val. assert (forall acc, 0 <= acc -> 0 <= fold_left (fun acc c => 10 * acc + (bval c - 48)) l acc) as Hf.
  { induction Hl as [|c l Hc Hl IH]; cbn; intros acc Ha; [done|]. apply IH. unfold is_digit, in_range in Hc. lia. }
  by apply Hf.
Qed.

(** A literal that starts with a digit is not negative. *)
Lemma int64_of_lit_nonneg c l n : is_digit c = true -> int64_of_lit (c :: l) = Some n -> 0 <= n.
Proof.
  intros Hc. unfold int64_of_lit, scan_sign. destruct (Ascii.eqb_spec c "-") as [->|_]; [by vm_compute in Hc|].
  pose proof (span_digits_digits (c :: l)) as Hd. destruct (span_digits (c :: l)) as [ds r].
  destruct (_ && _); [|done]. cbn. destruct (_ && _); [|done]. intros E. injection E as <-. by apply digits_val_nonneg.
Qed.

Lemma entry_type_ok j e : unmarshal_struct eventEntry_fields zeroEntry j = Ok e -> type_ok e.
Proof.
  apply unmarshal_struct_keeps; [|done]. unfold type_ok, eventEntry_fields.
  repeat apply Forall_cons_2; try apply Forall_nil_2; cbn; intros t j' t' Ht E; inv_ok; subst; cbn; try done.
  destruct j'; cbn in *; inv_ok; subst; try done.
  destruct lit as [|c l]; [done|]. destruct (is_digit c) eqn:Hc; [|done].
  match goal with H : int64_of_lit _ = Some _ |- _ => apply (int64_of_lit_nonneg _ _ _ Hc) in H end. lia.
Qed.

Lemma replay_from_types entries i mr mr' log :
  replay_from i mr entries = Ok (mr', log) -> Forall type_ok entries -> types_ok log.
Proof.
  revert i mr mr' log. induction entries as [|e entries IH]; intros i mr mr' log; cbn [replay_from].
  - intros E _. injection E as _ <-. constructor.
  - intros E Hf. inversion Hf as [|? ? He Hf2]; subst. destruct (negb _); [by eapply IH|]. inv_ok.
    destruct x0 as [m l]. inv_ok. subst. constructor; [exact He|by eapply IH].
Qed.

Lemma eventLogOf_types reply entries : eventLogOf reply = Ok entries -> Forall type_ok entries.
Proof.
  unfold eventLogOf. intros E. repeat (apply bind_ok in E as (? & _ & E)). apply map_err_ok in E.
  unfold unmarshal in E. destruct (parse _) as [j|]; [|done]. unfold unmarshal_entries in E.
  destruct j as [| | | |l|]; try done; [injection E as <-; constructor|].
  revert entries E. induction l as [|j l IH]; cbn; intros entries E; inv_ok; subst; [constructor|].
  constructor; [by eapply entry_type_ok|by apply IH].
Qed.

(** What [replayRTMR3] gives is a log with the quote's register. *)
Lemma replayRTMR3_ok reply rtmr3 log :
  replayRTMR3 reply rtmr3 = Ok log -> replayed zeroMR log = rtmr3 /\ types_ok log.
Proof.
  unfold replayRTMR3. intros E. inv_ok. destruct x0 as [mr l]. inv_ok. subst l.
  match goal with H : replay_from _ _ _ = _ |- _ => rename H into Hr end.
  match goal with H : negb _ = false |- _ => apply negb_false_iff, bool_decide_eq_true in H; subst mr end.
  split; [by rewrite <-(replay_from_replayed _ _ _ _ _ Hr)|].
  eapply replay_from_types; [exact Hr|]. by eapply eventLogOf_types.
Qed.

(** Whatever log is read against a register, what is read is what the CVM's own log says,
    or names an event that is not understood. *)
Lemma reading_is_the_machines reply rtmr3 served log st :
  replayRTMR3 reply rtmr3 = Ok served -> ReadRuntimeState reply rtmr3 = Ok st ->
  log_ok log -> replayed zeroMR log = rtmr3 -> chain_free (hashed zeroMR served ++ hashed zeroMR log) ->
  st_Unknown st <> [] \/ exists own, read_log log = Ok own /\ forget own = forget st.
Proof.
  intros Hs Hr Hl Hreg Hfree. destruct (replayRTMR3_ok _ _ _ Hs) as [Hreg' Hty].
  assert (Forall2 recut served log) as Hcut.
  { apply same_text_recut; [done..|]. apply register_pins_log; [done|congruence]. }
  unfold ReadRuntimeState in Hr. rewrite Hs in Hr. autorewrite with wire in Hr. unfold read_log in Hr.
  destruct (split_ready served) as [[a b]|] eqn:Esp; [|done]. cbn [of_option mbind result_bind] in Hr.
  destruct (split_ready_recut _ _ _ _ Hcut Hl Esp) as (a2 & b2 & Esp2 & Hb & _).
  destruct (read_records_recut _ _ _ _ _ Hb Hr) as [Hu|Hr2]; [by left|right].
  unfold read_log. rewrite Esp2. cbn [of_option mbind result_bind].
  pose proof (read_records_forget (MkRuntime (length served) 0 (map re_Event (List.filter is_zg a)) None 0 0 "" None 0 ∅ []) 1 b2) as Hf1.
  pose proof (read_records_forget (MkRuntime (length log) 0 (map re_Event (List.filter is_zg a2)) None 0 0 "" None 0 ∅ []) 1 b2) as Hf2.
  rewrite Hr2 in Hf1. cbn [forget mbind result_bind] in Hf1, Hf2. rewrite (Forall2_length _ _ _ Hcut) in Hf1. rewrite Hf1 in Hf2.
  symmetry in Hf2. apply bind_ok in Hf2 as (own & Eo & E). exists own. split; [exact Eo|]. by injection E.
Qed.
(** ** The judgement *)

Lemma opt_line_nil b s : opt_line b s = [] <-> b = false.
Proof. by destruct b. Qed.

Lemma aborted_nil (m : gmap string string) :
  map (fun kv : string * string => "a config change to a broker instance aborted: " +:+ kv.1)
    (List.filter (fun kv => String.eqb kv.2 "unknown") (entries m)) = [] <-> forall i, m !! i <> Some "unknown".
Proof.
  split.
  - intros E i Hi. apply map_eq_nil in E. assert (In (i, "unknown") (List.filter (fun kv => String.eqb kv.2 "unknown") (entries m))) as Hin.
    { apply filter_In. split; [|done]. by apply list_elem_of_In, elem_of_entries. }
    by rewrite E in Hin.
  - intros Hn. destruct (List.filter _ _) as [|[k v] l] eqn:E; [done|]. exfalso.
    assert (In (k, v) (List.filter (fun kv => String.eqb kv.2 "unknown") (entries m))) as Hin by (rewrite E; by left).
    apply filter_In in Hin as [Hin Hv]. cbn in Hv. apply String.eqb_eq in Hv. subst v.
    by apply (Hn k), elem_of_entries, list_elem_of_In.
Qed.

(** What contradicts the quote or the policy, and what could not be decided. *)
Definition contradicted (st : RuntimeState) (rels : option ReleaseVerifier) (signer : string) (encPub : bytes) : Prop :=
  st_Engines st <> 0%nat \/
  exists im, st_Image st = Some im /\
    (rv_Status (VerifyRelease rels (im_Repository im) (im_Digest im)) = ReleaseRejected \/
     equal_fold (im_Signer im) signer = false \/ im_EncPub im <> encPub).
Definition undecided (st : RuntimeState) (rels : option ReleaseVerifier) : Prop :=
  st_Unknown st <> [] \/ (exists u, st_Upstreams st = Some u /\ us_Invalidated u = true) \/
  (exists i, st_Instances st !! i = Some "unknown") \/
  exists im, st_Image st = Some im /\
    rv_Status (VerifyRelease rels (im_Repository im) (im_Digest im)) = ReleaseUnavailable.

Lemma failures_iff st rels signer encPub :
  rc_Failures (CheckRuntime st rels signer encPub) = [] <-> ~ contradicted st rels signer encPub.
Proof.
  unfold CheckRuntime, contradicted, check_image. split.
  - destruct (st_Image st) as [im|]; cbn [rc_Failures]; intros E; rewrite !app_nil, !opt_line_nil, Nat.ltb_ge in E;
      [|intros [H0|(im' & Him & _)]; [lia|done]].
    destruct E as ((E1 & E3 & E4) & E2). apply negb_false_iff in E3, E4. apply bool_decide_eq_true in E4.
    intros [H0|(im' & Him & Hbad)]; [lia|]. injection Him as <-.
    destruct Hbad as [Hb|[Hb|Hb]]; [by rewrite Hb in E1|congruence|done].
  - intros Hn. assert (st_Engines st = 0%nat) as He by (destruct (decide (st_Engines st = 0%nat)); [done|destruct Hn; auto]).
    rewrite He. destruct (st_Image st) as [im|]; [|done]. cbn.
    assert (forall P : Prop, (P -> rv_Status (VerifyRelease rels (im_Repository im) (im_Digest im)) = ReleaseRejected \/
     equal_fold (im_Signer im) signer = false \/ im_EncPub im <> encPub) -> ~ P) as Hno by (intros P Hp HP; apply Hn; eauto 6).
    destruct (rv_Status _); [destruct (Hno True); auto| |];
      (destruct (equal_fold _ _); [|destruct (Hno True); auto]); cbn;
      (case_bool_decide; [done|destruct (Hno True); auto]).
Qed.

Lemma unverified_iff st rels signer encPub :
  rc_Unverified (CheckRuntime st rels signer encPub) = [] <-> ~ undecided st rels.
Proof.
  assert (forall u : list string, u ++ opt_line (negb (bool_decide (st_Unknown st = [])))
          ("the event log has record(s) this reader does not know: " +:+ String.concat ", " (dedupe (st_Unknown st)))
     ++ opt_line (match st_Upstreams st with Some u => us_Invalidated u | None => false end)
          "the controller could not state the broker's upstream set"
     ++ map (fun kv => "a config change to a broker instance aborted: " +:+ kv.1)
          (List.filter (fun kv => String.eqb kv.2 "unknown") (entries (st_Instances st))) = [] <->
     u = [] /\ st_Unknown st = [] /\ (forall u, st_Upstreams st = Some u -> us_Invalidated u = false) /\
     forall i, st_Instances st !! i <> Some "unknown") as Hall.
  { intros u. rewrite !app_nil, !opt_line_nil, aborted_nil, negb_false_iff, bool_decide_eq_true.
    split; intros (? & ? & Hu & ?); split_and!; try done.
    - intros x Hx. by rewrite Hx in Hu.
    - destruct (st_Upstreams st) as [x|]; [by apply Hu|done]. }
  unfold CheckRuntime, undecided, check_image.
  destruct (st_Image st) as [im|]; cbn [rc_Unverified]; rewrite Hall, ?opt_line_nil.
  - split.
    + intros (Hv & Hu & Hs & Hi) [H0|[(x & Hx & Hx2)|[(i & Hi2)|(im' & Him & Hb)]]]; [done| |by destruct (Hi i)|].
      * rewrite (Hs _ Hx) in Hx2. done.
      * injection Him as <-. by rewrite Hb in Hv.
    + intros Hn. split_and!.
      * destruct (rv_Status _) eqn:E; [done..|]. destruct Hn. right. right. right. eauto.
      * destruct (st_Unknown st) eqn:E; [done|]. destruct Hn. by left.
      * intros x Hx. destruct (us_Invalidated x) eqn:E; [|done]. destruct Hn. right. left. eauto.
      * intros i Hi. apply Hn. right. right. left. eauto.
  - split.
    + intros (_ & Hu & Hs & Hi) [H0|[(x & Hx & Hx2)|[(i & Hi2)|(im' & Him & _)]]]; [done| |by destruct (Hi i)|done].
      rewrite (Hs _ Hx) in Hx2. done.
    + intros Hn. split_and!; [done| | |].
      * destruct (st_Unknown st) eqn:E; [done|]. destruct Hn. by left.
      * intros x Hx. destruct (us_Invalidated x) eqn:E; [|done]. destruct Hn. right. left. eauto.
      * intros i Hi. apply Hn. right. right. left. eauto.
Qed.

(** C21: a runtime that passes is the machine's. Let [log] be what the CVM wrote, its event
    names without a separator in them, and [rtmr3] the register it replays to, which is the
    verified quote's. Absent a SHA-384 collision, whatever reply a provider serves: if what
    is read of it against that register is judged without a contradiction and without an
    open question, then it is what the CVM's own log says, and on that log the last image
    update, if there is one, names an accepted release with the keys of the report data,
    no container was created after launch, and no instance was left in doubt. *)
Theorem clean_runtime_is_real reply rtmr3 served log st rels signer encPub :
  replayRTMR3 reply rtmr3 = Ok served -> ReadRuntimeState reply rtmr3 = Ok st ->
  log_ok log -> replayed zeroMR log = rtmr3 -> chain_free (hashed zeroMR served ++ hashed zeroMR log) ->
  rc_Failures (CheckRuntime st rels signer encPub) = [] -> rc_Unverified (CheckRuntime st rels signer encPub) = [] ->
  exists own, read_log log = Ok own /\ forget own = forget st /\ st_Engines own = 0%nat /\
    (forall u, st_Upstreams own = Some u -> us_Invalidated u = false) /\
    (forall i, st_Instances own !! i <> Some "unknown") /\
    forall im, st_Image own = Some im ->
      rv_Status (VerifyRelease rels (im_Repository im) (im_Digest im)) = ReleaseAccepted /\
      equal_fold (im_Signer im) signer = true /\ im_EncPub im = encPub.
Proof.
  intros Hs Hr Hl Hreg Hfree Hf Hu. apply failures_iff in Hf. apply unverified_iff in Hu.
  destruct (reading_is_the_machines _ _ _ _ _ Hs Hr Hl Hreg Hfree) as [Hn|(own & Ho & Ef)]; [destruct Hu; by left|].
  exists own. split; [done|]. split; [done|]. unfold contradicted, undecided in *.
  assert (st_Engines st = st_Engines own /\ st_Upstreams st = st_Upstreams own /\
          st_Instances st = st_Instances own /\ st_Image st = st_Image own) as (E1 & E2 & E3 & E4).
  { destruct st, own. cbn in *. by injection Ef as <- <- <- <- <- <- <- <- <- <-. }
  rewrite E1, E4 in Hf. rewrite E2, E3, E4 in Hu. split_and!.
  - destruct (decide (st_Engines own = 0%nat)); [done|]. destruct Hf. by left.
  - intros u Hx. destruct (us_Invalidated u) eqn:E; [|done]. destruct Hu. right. left. eauto.
  - intros i Hi. apply Hu. right. right. left. eauto.
  - intros im Him. split_and!.
    + destruct (rv_Status _) eqn:E; [|done|]; [destruct Hf; right; eauto|destruct Hu; right; right; right; eauto].
    + destruct (equal_fold _ _) eqn:E; [done|]. destruct Hf. right. eauto.
    + destruct (decide (im_EncPub im = encPub)); [done|]. destruct Hf. right. eauto.
Qed.
End claims.

(** ** Witnesses *)

Module RuntimeWitness.
#[export] Instance no_urls : UrlLib := fun _ => None.

Definition key : bytes := repeat "k"%char 32.
Definition signer : string := "0x00000000000000000000000000000000000000aa".
Definition digest : string := "sha256:" +:+ str_of (repeat "d"%char 64).
Definition image : ImageRecord := MkImage "ghcr.io/0gfoundation/broker" digest signer key 0.
Definition entry (event : string) (payload : bytes) : eventEntry :=
  MkEntry 3 runtimeEventType event (str_of (hex_encode payload)).
Definition booted : list (string * bytes) := [("compose-hash", key); (systemReady, []); (recImageUpdate, print_image image)].
Definition log : list rtmr3Entry := map (fun p => MkEntry3 (entry p.1 p.2) p.2) booted.

Definition served_entry (e : eventEntry) : json :=
  JObj [(bytes_of "imr", JNum (itoa (ee_IMR e))); (bytes_of "event_type", JNum (itoa (ee_EventType e)));
        (bytes_of "event", jstr (ee_Event e)); (bytes_of "event_payload", jstr (ee_Payload e))].
Definition reply_of (entries : list eventEntry) : bytes :=
  print (JObj [(bytes_of "event_log", JArr (map served_entry entries))]).
Definition reply : bytes := reply_of (map (fun p => entry p.1 p.2) booted).
Definition register : bytes := Eval vm_compute in replayed zeroMR log.

Definition releases : ReleaseVerifier :=
  MkReleases "ghcr.io/0gfoundation/broker" (fun _ d => MkVerdict ReleaseAccepted (MkRelease "v0.5.4" d "") "").
Definition state : RuntimeState := ok_or (MkRuntime 0 0 [] None 0 0 "" None 0 ∅ []) (ReadRuntimeState reply register).

Lemma register_log : replayed zeroMR log = register.
Proof. vm_cast_no_check (eq_refl register). Qed.
Lemma reply_replays : replayRTMR3 reply register = Ok log.
Proof. vm_cast_no_check (@eq_refl (eresult (list rtmr3Entry)) (Ok log)). Qed.
Lemma reply_read : ReadRuntimeState reply register = Ok state.
Proof. vm_cast_no_check (eq_refl (ReadRuntimeState reply register)). Qed.
Lemma log_wellformed : log_ok log.
Proof.
  repeat constructor; cbn [re_Event re_entry re_EventType ee_Event ee_EventType entry]; try (cbv; done);
    apply (bool_decide_unpack _); by vm_compute.
Qed.

(** One digest per text, compared pairwise. *)
Definition apart (l : list bytes) : bool :=
  let ps := map (fun x => (x, sha384 x)) l in
  forallb (fun p => negb (bool_decide (p.2 = zeroMR)) &&
                    forallb (fun q => negb (bool_decide (p.2 = q.2)) || bool_decide (p.1 = q.1)) ps) ps.
Lemma apart_free l : apart l = true -> chain_free (l ++ l).
Proof.
  unfold apart. rewrite forallb_forall. intros Hl.
  assert (forall z, z ∈ l ++ l -> In (z, sha384 z) (map (fun x => (x, sha384 x)) l)) as Hin.
  { intros z Hz. apply in_map_iff. exists z. split; [done|]. apply list_elem_of_In. apply elem_of_app in Hz. by destruct Hz. }
  split.
  - intros x y Hx Hy E. specialize (Hl _ (Hin _ Hx)). apply andb_true_iff in Hl as [_ Hl]. rewrite forallb_forall in Hl.
    specialize (Hl _ (Hin _ Hy)). cbn [fst snd] in Hl. rewrite (bool_decide_eq_true_2 _ E) in Hl.
    by apply bool_decide_eq_true_1 in Hl.
  - intros x Hx E. specialize (Hl _ (Hin _ Hx)). cbn [fst snd] in Hl. by rewrite (bool_decide_eq_true_2 _ E) in Hl.
Qed.
Lemma log_free : chain_free (hashed zeroMR log ++ hashed zeroMR log).
Proof. apply apart_free. vm_cast_no_check (eq_refl true). Qed.
Lemma image_read : st_Image state = Some (MkImage (im_Repository image) digest signer key 1).
Proof. vm_cast_no_check (eq_refl (Some (MkImage (im_Repository image) digest signer key 1))). Qed.
Lemma state_clean :
  rc_Failures (CheckRuntime state (Some releases) signer key) = [] /\ rc_Unverified (CheckRuntime state (Some releases) signer key) = [].
Proof. split; [vm_cast_no_check (@eq_refl (list string) [])|vm_cast_no_check (@eq_refl (list string) [])]. Qed.

Definition cut_payload : bytes * bytes := default ([], []) (split_first ":" (print_image image)).
Definition cut_event : string := recImageUpdate +:+ ":" +:+ str_of cut_payload.1.
Definition cut_reply : bytes := reply_of [entry "compose-hash" key; entry systemReady []; entry cut_event cut_payload.2].
End RuntimeWitness.

Section witnesses.
Import RuntimeWitness.

Lemma clean_runtime_is_real_witness :
  st_Image state = Some (MkImage (im_Repository image) digest signer key 1) /\
  exists own, read_log log = Ok own /\ forget own = forget state.
Proof.
  split; [exact image_read|].
  destruct (clean_runtime_is_real reply register log log state (Some releases) signer key reply_replays reply_read
              log_wellformed register_log log_free (proj1 state_clean) (proj2 state_clean)) as (own & Ho & Hf & _).
  exists own. split; [exact Ho|exact Hf].
Defined.

(** The same log, its image update cut at the separator inside the digest: it replays to
    the same register, and the update is reported as a record not understood. *)
Example recut_is_reported : st_Unknown (ok_or state (ReadRuntimeState cut_reply register)) = [cut_event].
Proof. vm_cast_no_check (eq_refl [cut_event]). Qed.
End witnesses.
