(* ===== verification/Boot.v ===== *)
(** * Boot: what a CVM booted ([client/evidence])

    The compose hash a verified quote commits to ([mrconfig.go]): in the clear under the
    first layout of [mr_config_id], and under the third rebuilt from the boot events of a
    log that replays to the quote's RTMR3. The manifest behind the hash
    ([appcompose.go]'s gate and comparison, [cloudcompose.go]'s selection by digest), the
    audited OS images ([osimage.go]), the evidence bundle's manifest ([manifest.go]), where
    an image comes from ([imageorigin.go]), and the app id's spellings and discovery
    ([appid.go]); DNS answers are arguments. The HTTP fetches around them are not modelled.

    The theorems: a quote commits to one compose hash, whatever replies it is read with,
    and the hash of an honest launch is found; bytes taken from the platform hash to what
    the quote commits to; the allowlist's two readings agree; and a parsed bundle manifest
    names each plain file once. *)

From S2P Require Import Prelude GoBytes GoHash GoJson GoDecode GoUrl GoJsonEq Attest Sha384 Runtime.

(** ** The compose hash ([mrconfig.go]) *)

Definition mrConfigV3Domain : string := "dstack-mr-config-v3:".
Definition evAppID : string := "app-id".
Definition evComposeHash : string := "compose-hash".
Definition evInitScriptHash : string := "init-script-hash".
Definition evGPUPolicyHash : string := "gpu-policy-hash".
Definition evInstanceID : string := "instance-id".
Definition evKeyProvider : string := "key-provider".

Definition keyProviderKinds (name : string) : option string :=
  if String.eqb name "none" then Some "none" else if String.eqb name "kms" then Some "kms"
  else if String.eqb name "local-sgx" then Some "local" else if String.eqb name "tpm" then Some "tpm" else None.

Definition mrConfigIDV3 (document : bytes) : bytes :=
  byte_of 3 :: sha256 (bytes_of mrConfigV3Domain ++ byte_of 0 :: document) ++ zeros 15.

Record bootLog := MkBoot {
  bl_appID : bytes; bl_composeHash : bytes; bl_gpuPolicyHash : bytes; bl_instanceID : bytes;
  bl_haveGPUPolicyHash : bool;
  bl_initScriptHashes : list bytes;
  bl_keyProvider : string; bl_keyProviderID : string
}.
Definition noBoot : bootLog := MkBoot [] [] [] [] false [] "" "".

(** The event names a second of is refused. *)
Definition once_names : list string := [evAppID; evComposeHash; evGPUPolicyHash; evInstanceID; evKeyProvider].

Definition keyProvider_of (payload : bytes) : eresult (string * string) :=
  kp ← map_err (EDecode "the key-provider event is not JSON")
         (unmarshal (unmarshal_struct [("name", fun (t : string * string) j => v ← set_string t.1 j; Ok (v, t.2));
                                       ("id", fun t j => v ← set_string t.2 j; Ok (t.1, v))] ("", "")) payload);
  kind ← of_option (keyProviderKinds kp.1) (EFinding "a key provider this reader does not know");
  _ ← of_option (hex_decode (bytes_of kp.2)) (EFinding "the key-provider event's id is not hex");
  Ok (kind, kp.2).

(** One event before [system-ready]. *)
Definition boot_event (b : bootLog) (e : rtmr3Entry) : eresult bootLog :=
  let '(MkBoot a c g i have scripts kp kpid) := b in
  let name := re_Event e in
  if String.eqb name evAppID then Ok (MkBoot (re_payload e) c g i have scripts kp kpid)
  else if String.eqb name evComposeHash then Ok (MkBoot a (re_payload e) g i have scripts kp kpid)
  else if String.eqb name evGPUPolicyHash then Ok (MkBoot a c (re_payload e) i true scripts kp kpid)
  else if String.eqb name evInstanceID then Ok (MkBoot a c g (re_payload e) have scripts kp kpid)
  else if String.eqb name evInitScriptHash then Ok (MkBoot a c g i have (scripts ++ [re_payload e]) kp kpid)
  else if String.eqb name evKeyProvider then
    k ← keyProvider_of (re_payload e); Ok (MkBoot a c g i have scripts k.1 k.2)
  else Ok b.

(** Up to [system-ready], which must come. *)
Fixpoint boot_events (seen : list string) (b : bootLog) (log : list rtmr3Entry) : eresult bootLog :=
  match log with
  | [] => Err (EFinding "the event log has no system-ready entry")
  | e :: log =>
      if String.eqb (re_Event e) systemReady then Ok b
      else _ ← refuse (contains once_names (re_Event e) && contains seen (re_Event e)) (EFinding "twice before system-ready");
           b ← boot_event b e;
           boot_events (re_Event e :: seen) b log
  end.

Definition bootEvents (log : list rtmr3Entry) : eresult bootLog :=
  b ← boot_events [] noBoot log;
  _ ← refuse (negb (Nat.eqb (length (bl_composeHash b)) ComposeHashLen)) (EFinding "the compose-hash has another length");
  _ ← refuse (String.eqb (bl_keyProvider b) "") (EFinding "no key-provider entry");
  Ok b.

Definition jhex (b : bytes) : json := jstr (str_of (hex_encode b)).

(** The fields a host may leave out of its launch document. *)
Definition optional_fields (b : bootLog) : list (string * json) :=
  (if Nat.ltb 0 (length (bl_appID b)) then [("app_id", jhex (bl_appID b))] else []) ++
  (if bl_haveGPUPolicyHash b then [("gpu_policy_hash", jhex (bl_gpuPolicyHash b))] else []) ++
  (if String.eqb (bl_keyProviderID b) "" then [] else [("key_provider_id", jstr (bl_keyProviderID b))]) ++
  [("init_script_hashes", JArr (map jhex (bl_initScriptHashes b)))].

Definition base_doc (b : bootLog) : gmap string json :=
  let doc := list_to_map [("version", JNum (itoa 3)); ("compose_hash", jhex (bl_composeHash b));
                          ("key_provider", jstr (bl_keyProvider b))] in
  if Nat.ltb 0 (length (bl_instanceID b)) then <["instance_id" := jhex (bl_instanceID b)]> doc else doc.

(** The document of a mask over the optional fields. *)
Fixpoint add_fields (mask : Z) (i : Z) (fields : list (string * json)) (doc : gmap string json) : gmap string json :=
  match fields with
  | [] => doc
  | (k, v) :: fields => add_fields mask (i + 1) fields (if Z.testbit mask i then <[k := v]> doc else doc)
  end.

(** [jcs]: for these values, the JSON of a map; none of them has a character to escape. *)
Definition jcs (doc : gmap string json) : bytes := print (json_of_map doc).

Definition v3Docs (b : bootLog) : list (gmap string json) :=
  let fields := optional_fields b in
  map (fun mask => add_fields mask 0 fields (base_doc b)) (zrange (2 ^ length fields)).
Definition v3Candidates (b : bootLog) : list bytes := map jcs (v3Docs b).

Definition ErrUnsupportedMRConfig (why : string) : everr := EFinding ("unsupported mr_config_id: " +:+ why).

(** [attest]'s errors, as this package wraps them. *)
Definition of_attest {A} (r : aresult A) : eresult A := map_err (fun _ => ErrUnsupportedMRConfig "version 1") r.

Definition ComposeHashOf (mrConfigID reply rtmr3 : bytes) : eresult bytes :=
  if negb (bval (nth 0 mrConfigID (byte_of 0)) =? 3) then of_attest (ComposeHashFromMRConfigID mrConfigID)
  else log ← map_err (fun _ => ErrUnsupportedMRConfig "the event log") (replayRTMR3 reply rtmr3);
       ev ← map_err (fun _ => ErrUnsupportedMRConfig "the boot events") (bootEvents log);
       if existsb (fun doc => bool_decide (mrConfigIDV3 doc = mrConfigID)) (v3Candidates ev)
       then Ok (bl_composeHash ev)
       else Err (ErrUnsupportedMRConfig "no document reproduces mr_config_id").

Definition LoggedAppID (reply rtmr3 : bytes) : eresult string :=
  log ← replayRTMR3 reply rtmr3;
  ev ← bootEvents log;
  _ ← refuse (negb (Nat.eqb (length (bl_appID ev)) AppIDLen)) (EFinding "the app-id has another length");
  Ok (str_of (hex_encode (bl_appID ev))).

(** ** The manifest behind the hash ([appcompose.go], [cloudcompose.go]) *)

Definition GateAppCompose (raw composeHash : bytes) : eresult unit :=
  refuse (negb (bool_decide (sha256 raw = composeHash))) (EFinding "app-compose digest does not match the compose_hash the quote binds").

Record AppCompose := MkApp { ac_Name : string; ac_DockerComposeFile : string; ac_AllowedEnvs : list string }.
Definition AppCompose_fields : list (string * (AppCompose -> json -> result jerr AppCompose)) :=
  [("name", fun a j => v ← set_string (ac_Name a) j; Ok (MkApp v (ac_DockerComposeFile a) (ac_AllowedEnvs a)));
   ("docker_compose_file", fun a j => v ← set_string (ac_DockerComposeFile a) j; Ok (MkApp (ac_Name a) v (ac_AllowedEnvs a)));
   ("allowed_envs", fun a j => v ← set_strings (ac_AllowedEnvs a) j; Ok (MkApp (ac_Name a) (ac_DockerComposeFile a) v))].

(** The app compose, and [ErrNoDockerCompose] beside it. *)
Definition VerifyAppCompose (raw composeHash : bytes) : eresult (AppCompose * bool) :=
  _ ← GateAppCompose raw composeHash;
  ac ← map_err (EDecode "app-compose is not valid JSON") (unmarshal (unmarshal_struct AppCompose_fields (MkApp "" "" [])) raw);
  Ok (ac, String.eqb (trim_space (ac_DockerComposeFile ac)) "").

(** [strings.ReplaceAll(s, "\r\n", "\n")]. *)
Fixpoint unix_lines (l : bytes) : bytes :=
  match l with
  | c :: r => match r with
              | d :: r' => if Ascii.eqb c (byte_of 13) && Ascii.eqb d newline then newline :: unix_lines r'
                           else c :: unix_lines r
              | [] => [c]
              end
  | [] => []
  end.

Definition splitLines (b : bytes) : list bytes :=
  let lines := split_on newline (unix_lines b) in
  match rev lines with
  | [] :: r => rev r
  | _ => lines
  end.

(** Where two files first differ: a line of both, or the end of one. *)
Inductive difference := DiffLine (line : nat) (got want : bytes) | ExtraLines (after : nat) (line : bytes) | MissingLines (after : nat) (line : bytes).
Fixpoint diff_lines (n : nat) (got want : list bytes) : option difference :=
  match got, want with
  | [], [] => None
  | g :: got, w :: want => if bool_decide (g = w) then diff_lines (S n) got want else Some (DiffLine (S n) g w)
  | g :: _, [] => Some (ExtraLines n g)
  | [], w :: _ => Some (MissingLines n w)
  end.
Definition diffComposeFile (got want : bytes) : option difference := diff_lines 0 (splitLines got) (splitLines want).

Record ExpectedCompose := MkExpected { ex_Label : string; ex_Content : bytes }.
Definition MatchCompose (got : bytes) (candidates : list ExpectedCompose) : eresult string :=
  match List.find (fun c => match diffComposeFile got (ex_Content c) with None => true | Some _ => false end) candidates with
  | Some c => Ok (ex_Label c)
  | None => Err (EFinding "matches no candidate")
  end.

(** *** From the platform's API *)

Record cloudInstance := MkInstance { ci_Name : string; ci_Status : string; ci_TCBInfo : option json; ci_ComposeFile : string }.

Definition tcbInfoAppCompose (raw : option json) : eresult bytes :=
  _ ← refuse (bool_decide (trim_space_bytes (raw_bytes raw) = [])) (EFinding "no tcb_info");
  doc ← map_err (EDecode "decode tcb_info") (UnwrapJSONString (raw_bytes raw));
  let trimmed := trim_space_bytes doc in
  _ ← refuse (bool_decide (trimmed = []) || bool_decide (trimmed = bytes_of "null")) (EFinding "empty tcb_info");
  app ← map_err (EDecode "decode tcb_info")
          (unmarshal (unmarshal_struct [("compose_hash", fun (t : string * string) j => v ← set_string t.1 j; Ok (v, t.2));
                                        ("app_compose", fun t j => v ← set_string t.2 j; Ok (t.1, v))] ("", "")) doc);
  _ ← refuse (String.eqb app.2 "") (EFinding "tcb_info carries no app_compose");
  Ok (bytes_of app.2).

(** The manifests an instance offers, each with its field's name. *)
Definition cloudInstanceAppCompose (inst : cloudInstance) : eresult (list (string * bytes)) :=
  let tcb := tcbInfoAppCompose (ci_TCBInfo inst) in
  let out := match tcb with Ok raw => [("tcb_info.app_compose", raw)] | Err _ => [] end in
  let file := bytes_of (ci_ComposeFile inst) in
  let out := if negb (bool_decide (file = [])) && match tcb with Ok raw => negb (bool_decide (raw = file)) | Err _ => true end
             then out ++ [("compose_file", file)] else out in
  match out with
  | [] => match tcb with Err e => Err e | Ok _ => Ok [] end
  | _ => Ok out
  end.

(** The first manifest with the quote's digest, and its instance's position. *)
Fixpoint pickCloudAppCompose (i : nat) (instances : list cloudInstance) (composeHash : bytes) : eresult (bytes * nat) :=
  match instances with
  | [] => Err (EFinding "no instance carries the app-compose this quote binds")
  | inst :: instances =>
      match cloudInstanceAppCompose inst with
      | Err _ => pickCloudAppCompose (S i) instances composeHash
      | Ok candidates =>
          match List.find (fun c => bool_decide (sha256 c.2 = composeHash)) candidates with
          | Some c => Ok (c.2, i)
          | None => pickCloudAppCompose (S i) instances composeHash
          end
      end
  end.

(** ** The audited OS images ([osimage.go]) *)

Record OSImage := MkOS { os_Name : string; os_OSImageHash : string; os_BootChain : BootChain }.

(** An entry of the file: name, image hash and the three registers' spellings. *)
Record osEntry := MkOSEntry { oe_Name : string; oe_OSImageHash : string; oe_MRTD : string; oe_RTMR1 : string; oe_RTMR2 : string }.
Definition osEntry_fields : list (string * (osEntry -> json -> result jerr osEntry)) :=
  [("name", fun '(MkOSEntry n h a b c) j => v ← set_string n j; Ok (MkOSEntry v h a b c));
   ("os_image_hash", fun '(MkOSEntry n h a b c) j => v ← set_string h j; Ok (MkOSEntry n v a b c));
   ("mrtd", fun '(MkOSEntry n h a b c) j => v ← set_string a j; Ok (MkOSEntry n h v b c));
   ("rtmr1", fun '(MkOSEntry n h a b c) j => v ← set_string b j; Ok (MkOSEntry n h a v c));
   ("rtmr2", fun '(MkOSEntry n h a b c) j => v ← set_string c j; Ok (MkOSEntry n h a b v))].

Definition parse_register (s : string) : eresult bytes :=
  b ← of_option (hex_decode (bytes_of (trim_space s))) (EFinding "a register is not hex");
  _ ← refuse (negb (Nat.eqb (length b) measurementRegLen)) (EFinding "a register has another length");
  Ok b.

Definition parse_os (e : osEntry) : eresult OSImage :=
  _ ← refuse (String.eqb (trim_space (oe_Name e)) "") (EFinding "name is required");
  a ← parse_register (oe_MRTD e);
  b ← parse_register (oe_RTMR1 e);
  c ← parse_register (oe_RTMR2 e);
  _ ← refuse (IsZero (MkBootChain a b c)) (EFinding "all registers are zero");
  Ok (MkOS (oe_Name e) (oe_OSImageHash e) (MkBootChain a b c)).

Fixpoint each_ok {A B} (f : A -> eresult B) (l : list A) : eresult (list B) :=
  match l with [] => Ok [] | x :: l => y ← f x; ys ← each_ok f l; Ok (y :: ys) end.

(** Into a slice of structs: an element keeps what its slot held. *)
Fixpoint structs_of {T} (dec : T -> json -> result jerr T) (zero : T) (old : list T) (l : list json) : result jerr (list T) :=
  match l with
  | [] => Ok []
  | j :: l => x ← dec (match old with o :: _ => o | [] => zero end) j;
              xs ← structs_of dec zero (match old with _ :: r => r | [] => [] end) l; Ok (x :: xs)
  end.

Definition ParseOSImages (raw : bytes) : eresult (list OSImage) :=
  images ← map_err (EDecode "the allowlist is not valid JSON")
    (unmarshal (unmarshal_struct
       [("images", fun (old : list osEntry) j =>
           match j with
           | JArr l => structs_of (unmarshal_struct osEntry_fields) (MkOSEntry "" "" "" "" "") old l
           | JNull => Ok []
           | _ => Err JType
           end)] []) raw);
  each_ok parse_os images.

Definition BootChainPolicyOf (allowed : list OSImage) : BootChainPolicy :=
  MkPolicy (map os_BootChain allowed)
    (fold_left (fun names img => match names !! os_BootChain img with
                                 | Some _ => names
                                 | None => <[os_BootChain img := os_Name img]> names
                                 end) allowed ∅).

Record OSImageCheck := MkOSCheck { oc_Configured : bool; oc_Matched : string; oc_Err : bool; oc_Observed : BootChain }.
Definition oc_OK (o : OSImageCheck) : bool := negb (oc_Configured o) || negb (oc_Err o).

Definition CheckOSImage (allowed : list OSImage) (m : Measurement) : OSImageCheck :=
  let configured := Nat.ltb 0 (length allowed) in
  let observed := BootChainOf m in
  if negb configured then MkOSCheck false "" false observed
  else let policy := BootChainPolicyOf allowed in
       let matched := Name policy observed in
       if negb (String.eqb matched "") then MkOSCheck true matched false observed
       else if Permits policy observed then MkOSCheck true "" false observed
       else MkOSCheck true "" true observed.

(** ** The bundle's manifest ([manifest.go]) *)

Record ManifestEntry := MkMEntry { me_Name : string; me_Digest : bytes }.

Definition checkBasename (name : bytes) : eresult unit :=
  _ ← refuse (bool_decide (name = [])) (EFinding "empty filename");
  _ ← refuse (contains_any ["/"%char; "\"%char] name) (EFinding "contains a path separator");
  _ ← refuse (bool_decide (name = bytes_of ".") || bool_decide (name = bytes_of "..")) (EFinding "not a plain basename");
  refuse (match name with c :: _ => Ascii.eqb c "-" | [] => false end) (EFinding "starts with a dash").

(** [strings.TrimRight(s, "\r")]. *)
Fixpoint drop_cr (l : bytes) : bytes :=
  match l with c :: r => if Ascii.eqb c (byte_of 13) then drop_cr r else l | [] => [] end.
Definition trim_cr (l : bytes) : bytes := rev (drop_cr (rev l)).

(** One line, after the names of [seen]. *)
Definition manifest_line (line : bytes) : eresult (option (bytes * bytes)) :=
  let line := trim_cr line in
  if bool_decide (trim_space_bytes line = []) then Ok None
  else
    _ ← refuse (match line with c :: _ => Ascii.eqb c "\" | [] => false end) (EFinding "escaped filename");
    '(hexDigest, rest) ← of_option (split_first " " line) (EFinding "not a sha256sum line");
    name ← of_option (match rest with
                      | c :: n => if Ascii.eqb c " " || Ascii.eqb c "*" then Some n else None
                      | [] => None
                      end) (EFinding "no separator");
    raw ← of_option (hex_decode hexDigest) (EFinding "not a SHA-256 digest");
    _ ← refuse (negb (Nat.eqb (length raw) 32)) (EFinding "not a SHA-256 digest");
    _ ← checkBasename name;
    Ok (Some (name, raw)).

Fixpoint manifest_lines (done : list ManifestEntry) (lines : list bytes) : eresult (list ManifestEntry) :=
  match lines with
  | [] => Ok done
  | l :: lines =>
      e ← manifest_line l;
      match e with
      | None => manifest_lines done lines
      | Some (name, raw) =>
          _ ← refuse (existsb (fun e => String.eqb (me_Name e) (str_of name)) done) (EFinding "duplicate entry");
          manifest_lines (done ++ [MkMEntry (str_of name) raw]) lines
      end
  end.

Definition parseManifest (b : bytes) : eresult (list ManifestEntry) :=
  entries ← manifest_lines [] (split_on newline b);
  _ ← refuse (bool_decide (length entries = 0%nat)) (EFinding "no entries");
  Ok entries.

(** ** Where an image comes from ([imageorigin.go]) *)

Inductive ImageOrigin := OriginNone | OriginFirstParty | OriginThirdParty | OriginForeignRegistry.
#[export] Instance ImageOrigin_eq_dec : EqDecision ImageOrigin.
Proof. solve_decision. Defined.

Definition FirstPartyNamespace : string := "0gfoundation".
Definition firstPartyRegistries (r : string) : bool := String.eqb r "ghcr.io".

Definition SplitRegistry (image : string) : string * string :=
  match split_first "/" (bytes_of image) with
  | Some (first, rest) =>
      if bool_decide ("."%char ∈ first) || bool_decide (":"%char ∈ first) || bool_decide (first = bytes_of "localhost")
      then (str_of first, str_of rest) else ("", image)
  | None => ("", image)
  end.

Definition ClassifyImageOrigin (image : string) : ImageOrigin :=
  let '(registry, repo) := SplitRegistry (trim_space image) in
  if String.eqb repo "" then OriginNone
  else match split_first "/" (bytes_of repo) with
       | None => OriginThirdParty
       | Some (ns, _) =>
           if negb (equal_fold (str_of ns) FirstPartyNamespace) then OriginThirdParty
           else if firstPartyRegistries (to_lower registry) then OriginFirstParty else OriginForeignRegistry
       end.

(** ** App ids ([appid.go]) *)

Definition appAddressPrefix : string := "_dstack-app-address".
Definition appAddressWildcardPrefix : string := "_dstack-app-address-wildcard".
Definition appIDHexLen : nat := 2 * AppIDLen.

Definition validAppID (s : string) : bool := isLowerHex (bytes_of s) appIDHexLen.
Definition normalizeAppID (s : string) : string := trim_prefix (to_lower (trim_space s)) "0x".

Definition parseAppAddress (record : string) : eresult string :=
  '(id, _) ← of_option (split_first ":" (bytes_of (trim_space record))) (EFinding "not <app_id>:<port>");
  let id := to_lower (trim_space (str_of id)) in
  _ ← refuse (negb (validAppID id)) (EFinding "does not begin with an app_id");
  Ok id.

Definition parentDomain (name : string) : string :=
  match split_first "." (bytes_of name) with
  | Some (_, rest) => if bool_decide ("."%char ∈ rest) then str_of rest else ""
  | None => ""
  end.

Section discovery.
Context `{UrlLib}.
(** [net.SplitHostPort]'s host, and the resolver: the answers to a TXT and a CNAME query. *)
Context (SplitHost : string -> option string).
Context (lookupTXT : string -> option (list string)) (lookupCNAME : option (string -> option string)).

(** [strings.Trim(s, "/")]. *)
Fixpoint drop_slash (l : bytes) : bytes :=
  match l with c :: r => if Ascii.eqb c "/" then drop_slash r else l | [] => [] end.
Definition trim_slash (s : string) : string := str_of (rev (drop_slash (rev (drop_slash (bytes_of s))))).
(** [strings.TrimRight(s, "/")]. *)
Definition trim_right_slash (s : string) : string := str_of (rev (drop_slash (rev (bytes_of s)))).

Definition bareHost (domain : string) : string :=
  let name := trim_suffix (to_lower (trim_space domain)) "." in
  let name := match cut_scheme (bytes_of name) with
              | Some _ => match url_Parse name with
                          | Some u => if String.eqb (u_Host u) "" then name else u_Host u
                          | None => name
                          end
              | None => name
              end in
  let name := trim_slash name in
  match SplitHost name with Some h => h | None => name end.

Fixpoint first_address (records : list string) : eresult string :=
  match records with
  | [] => Err (EFinding "no usable record")
  | r :: records => match parseAppAddress r with Ok id => Ok id | Err _ => first_address records end
  end.

Definition appAddressFromTXT (name : string) : eresult string :=
  match lookupTXT name with
  | None => Err (EFinding "lookup failed")
  | Some records => first_address records
  end.

Definition appAddressAt (name : string) : eresult string :=
  match appAddressFromTXT name with
  | Ok id => Ok id
  | Err direct =>
      match lookupCNAME with
      | None => Err direct
      | Some cname =>
          match cname name with
          | None => Err direct
          | Some target =>
              let target := trim_suffix (to_lower (trim_space target)) "." in
              if String.eqb target "" || String.eqb target name then Err direct
              else appAddressFromTXT target
          end
      end
  end.

Fixpoint first_query (queries : list string) : eresult string :=
  match queries with
  | [] => Err (EFinding "no usable record")
  | q :: queries => match appAddressAt q with Ok id => Ok id | Err _ => first_query queries end
  end.

(** [appIDHost] ([appcompose.go]): the guest agent's host name. *)
Definition guestAgentPort : Z := 8090.
Definition appIDHost (appID baseDomain : string) : string :=
  let d := trim_space baseDomain in
  if String.eqb d "" then ""
  else
    let d := match cut_scheme (bytes_of d) with
             | Some _ => match url_Parse d with
                         | Some u => if String.eqb (u_Host u) "" then d else u_Host u
                         | None => d
                         end
             | None => d
             end in
    let d := trim_prefix (trim_prefix (trim_slash d) "_.") "gw." in
    if String.eqb d "" then ""
    else to_lower (trim_space appID) +:+ "-" +:+ str_of (itoa guestAgentPort) +:+ "." +:+ to_lower d.

(** [deriveBaseDomain]: the end of a CNAME chain, at most [maxCNAMEHops] long. *)
Definition maxCNAMEHops : nat := 8.
Fixpoint cname_end (cname : string -> option string) (hops : nat) (last : string) : eresult string :=
  match hops with
  | O => Ok last
  | S hops =>
      match cname last with
      | None => Err (EFinding "resolve CNAME")
      | Some c =>
          let c := trim_suffix (to_lower c) "." in
          if String.eqb c "" || String.eqb c last then Ok last else cname_end cname hops c
      end
  end.
Definition deriveBaseDomain (cname : string -> option string) (domain : string) : eresult string :=
  let name := trim_suffix (to_lower (trim_space domain)) "." in
  let name := match SplitHost name with Some h => h | None => name end in
  _ ← refuse (String.eqb name "") (EFinding "no domain to derive a base domain from");
  last ← cname_end cname maxCNAMEHops name;
  base ← of_option (match strip_prefix (bytes_of "gw.") (bytes_of last) with
                    | Some b => Some b
                    | None => strip_prefix (bytes_of "_.") (bytes_of last)
                    end) (EFinding "not a dstack gateway domain");
  _ ← refuse (bool_decide (base = [])) (EFinding "not a dstack gateway domain");
  Ok (str_of base).

Definition discoverAppID (domain : string) : eresult string :=
  let name := bareHost domain in
  _ ← refuse (String.eqb name "") (EFinding "no domain to discover an app_id for");
  let parent := parentDomain name in
  first_query ((appAddressPrefix +:+ "." +:+ name) ::
               (if String.eqb parent "" then [] else [appAddressWildcardPrefix +:+ "." +:+ parent])).
End discovery.

(** ** A quote commits to one compose hash *)

Definition good_value (j : json) : Prop := raw_ok j = true.

Lemma jstr_good s : good_value (jstr s).
Proof. unfold good_value, raw_ok, jstr. cbn [wf jdepth]. by rewrite str_ok_quote. Qed.

Lemma jhex_list_good l : good_value (JArr (map jhex l)).
Proof.
  unfold good_value, raw_ok. cbn [wf jdepth].
  assert (forallb wf (map jhex l) = true) as ->.
  { apply forallb_forall. intros x (s & <- & _)%in_map_iff. apply str_ok_quote. }
  assert (fold_right (fun v acc => N.max (jdepth v) acc) 0%N (map jhex l) = 0%N) as -> by (induction l; cbn; [done|by rewrite IHl]).
  done.
Qed.

Definition field_names : list string :=
  ["version"; "compose_hash"; "key_provider"; "instance_id"; "app_id"; "gpu_policy_hash"; "key_provider_id"; "init_script_hashes"].

Lemma doc_insert_ok k v doc : k ∈ field_names -> good_value v -> map_ok doc -> map_ok (<[k := v]> doc).
Proof.
  intros Hk Hv Hd. apply map_Forall_insert_2; [|done]. split; [|exact Hv].
  revert k Hk. apply (Forall_forall (fun k => utf8_str k = true)). apply (bool_decide_unpack _). by vm_compute.
Qed.

Lemma optional_fields_ok b :
  Forall (fun kv => kv.1 ∈ field_names /\ kv.1 <> "compose_hash" /\ good_value kv.2) (optional_fields b).
Proof.
  assert (forall k, bool_decide (k ∈ field_names) && negb (String.eqb k "compose_hash") = true -> k ∈ field_names /\ k <> "compose_hash") as Hk.
  { intros k [H1 H2]%andb_true_iff. apply bool_decide_eq_true in H1. apply negb_true_iff, String.eqb_neq in H2. done. }
  unfold optional_fields. rewrite !Forall_app. split_and!.
  - destruct (Nat.ltb _ _); [|constructor]. constructor; [|constructor]. cbn [fst snd]. destruct (Hk "app_id"); [done|]. split_and!; [done..|apply jstr_good].
  - destruct (bl_haveGPUPolicyHash b); [|constructor]. constructor; [|constructor]. cbn [fst snd]. destruct (Hk "gpu_policy_hash"); [done|].
    split_and!; [done..|apply jstr_good].
  - destruct (String.eqb _ _); [constructor|]. constructor; [|constructor]. cbn [fst snd]. destruct (Hk "key_provider_id"); [done|].
    split_and!; [done..|apply jstr_good].
  - constructor; [|constructor]. cbn [fst snd]. destruct (Hk "init_script_hashes"); [done|]. split_and!; [done..|apply jhex_list_good].
Qed.

Lemma base_doc_ok b : map_ok (base_doc b) /\ base_doc b !! "compose_hash" = Some (jhex (bl_composeHash b)).
Proof.
  assert (forall k, bool_decide (k ∈ field_names) = true -> k ∈ field_names) as Hk by (intros k; apply bool_decide_eq_true).
  assert (map_ok (list_to_map [("version", JNum (itoa 3)); ("compose_hash", jhex (bl_composeHash b)); ("key_provider", jstr (bl_keyProvider b))])) as Hb.
  { cbn [list_to_map foldr uncurry fst snd]. repeat (apply doc_insert_ok; [by apply Hk|by first [apply jstr_good|vm_compute]|]). by apply map_Forall_empty. }
  assert (forall doc, map_ok doc /\ doc !! "compose_hash" = Some (jhex (bl_composeHash b)) ->
            let d := if Nat.ltb 0 (length (bl_instanceID b)) then <["instance_id" := jhex (bl_instanceID b)]> doc else doc in
            map_ok d /\ d !! "compose_hash" = Some (jhex (bl_composeHash b))) as Hi.
  { intros doc [Hd Hc]. destruct (Nat.ltb _ _); cbn; [|done]. split; [|by rewrite lookup_insert_ne].
    apply doc_insert_ok; [by apply Hk|apply jstr_good|done]. }
  apply Hi. split; [exact Hb|]. cbn [list_to_map foldr uncurry fst snd]. by rewrite lookup_insert_ne, lookup_insert_eq.
Qed.

Lemma add_fields_ok mask i fields doc h :
  Forall (fun kv => kv.1 ∈ field_names /\ kv.1 <> "compose_hash" /\ good_value kv.2) fields ->
  map_ok doc /\ doc !! "compose_hash" = Some h ->
  map_ok (add_fields mask i fields doc) /\ add_fields mask i fields doc !! "compose_hash" = Some h.
Proof.
  revert i doc. induction fields as [|[k v] fields IH]; intros i doc Hf Hd; [done|].
  inversion Hf as [|? ? (Hk & Hn & Hv) Hf2]; subst. cbn [fst snd] in *. apply IH; [done|]. destruct (Z.testbit mask i); [|done].
  destruct Hd as [Hd Hc]. split; [by apply doc_insert_ok|]. by rewrite lookup_insert_ne.
Qed.

(** The launch document of a boot that leaves out what a mask leaves out. *)
Definition launch_doc (b : bootLog) (mask : Z) : gmap string json := add_fields mask 0 (optional_fields b) (base_doc b).

Lemma launch_doc_ok b mask :
  map_ok (launch_doc b mask) /\ launch_doc b mask !! "compose_hash" = Some (jhex (bl_composeHash b)).
Proof. apply add_fields_ok; [apply optional_fields_ok|apply base_doc_ok]. Qed.

(** Its text determines the compose hash in it. *)
Lemma jcs_compose_hash b b' mask mask' :
  jcs (launch_doc b mask) = jcs (launch_doc b' mask') -> bl_composeHash b = bl_composeHash b'.
Proof.
  intros E. destruct (launch_doc_ok b mask) as [Hm Hc], (launch_doc_ok b' mask') as [Hm' Hc'].
  assert (compact <$> launch_doc b mask = compact <$> launch_doc b' mask') as Em.
  { pose proof (unmarshal_marshal_map _ Hm) as H1. pose proof (unmarshal_marshal_map _ Hm') as H2.
    unfold marshal_map in *. unfold jcs in E. rewrite E in H1. congruence. }
  apply (f_equal (lookup "compose_hash")) in Em. rewrite !lookup_fmap, Hc, Hc' in Em. cbn in Em. injection Em as Em.
  rewrite !esc_html_quote in Em. apply (f_equal unquote) in Em. rewrite !unquote_quote, !bytes_of_str_of in Em.
  - by apply hex_encode_inj.
  - rewrite bytes_of_str_of. apply utf8_ok_ascii. eapply Forall_impl; [apply hex_encode_lower|].
    intros c Hc0. unfold is_lower_hex, is_digit, in_range in Hc0. lia.
  - rewrite bytes_of_str_of. apply utf8_ok_ascii. eapply Forall_impl; [apply hex_encode_lower|].
    intros c Hc0. unfold is_lower_hex, is_digit, in_range in Hc0. lia.
Qed.

(** What is hashed to test a document. *)
Definition document_text (doc : bytes) : bytes := bytes_of mrConfigV3Domain ++ byte_of 0 :: doc.

Lemma mrConfigIDV3_inj d d' :
  (sha256 (document_text d) = sha256 (document_text d') -> document_text d = document_text d') ->
  mrConfigIDV3 d = mrConfigIDV3 d' -> d = d'.
Proof.
  unfold mrConfigIDV3. intros Hf E. apply (f_equal (@tl ascii)) in E. cbn [tl] in E.
  apply app_inj_1 in E as [E _]; [|by rewrite !sha256_length]. apply Hf in E.
  unfold document_text in E. apply app_inv_head in E. by apply (f_equal (@tl ascii)) in E.
Qed.

(** The documents tried of a reply, as they are hashed. *)
Definition tried (reply rtmr3 : bytes) : list bytes :=
  match (log ← replayRTMR3 reply rtmr3; bootEvents log) with
  | Ok ev => map document_text (v3Candidates ev)
  | Err _ => []
  end.

Lemma v3_candidate ev doc : doc ∈ v3Candidates ev -> exists mask, doc = jcs (launch_doc ev mask).
Proof.
  intros Hd. apply list_elem_of_In in Hd. unfold v3Candidates, v3Docs in Hd. rewrite map_map in Hd.
  apply in_map_iff in Hd as (mask & <- & _). by exists mask.
Qed.

Lemma mask_candidate ev mask :
  0 <= mask < 2 ^ Z.of_nat (length (optional_fields ev)) -> jcs (launch_doc ev mask) ∈ v3Candidates ev.
Proof.
  intros Hm. apply list_elem_of_In. unfold v3Candidates, v3Docs. rewrite map_map. apply in_map_iff. exists mask. split; [done|].
  unfold zrange. apply in_map_iff. exists (Z.to_nat mask). split; [lia|]. apply in_seq.
  enough (Z.of_nat (2 ^ length (optional_fields ev)) = 2 ^ Z.of_nat (length (optional_fields ev))) by lia.
  rewrite Nat2Z.inj_pow. done.
Qed.

(** A launch commits to its compose hash. Let a host launch with any document the
    guest accepts for its boot log, and let [mr_config_id] be what the quote then carries.
    Reading it with the CVM's own log finds the compose hash of that boot; and whatever
    other reply and register it is read with, absent a SHA-256 collision among the
    documents tried, no other hash is ever read. *)
Theorem launch_hash_read reply rtmr3 log ev mask id :
  replayRTMR3 reply rtmr3 = Ok log -> bootEvents log = Ok ev ->
  0 <= mask < 2 ^ Z.of_nat (length (optional_fields ev)) -> id = mrConfigIDV3 (jcs (launch_doc ev mask)) ->
  ComposeHashOf id reply rtmr3 = Ok (bl_composeHash ev) /\
  forall reply' rtmr3' h, ComposeHashOf id reply' rtmr3' = Ok h ->
    collision_free (document_text (jcs (launch_doc ev mask)) :: tried reply' rtmr3') -> h = bl_composeHash ev.
Proof.
  intros Hl He Hm ->. split.
  - unfold ComposeHashOf. cbn [nth mrConfigIDV3]. change (negb (bval (byte_of 3) =? 3)) with false. cbn iota.
    rewrite Hl. cbn [map_err mbind result_bind]. rewrite He. cbn [map_err mbind result_bind].
    rewrite (proj2 (existsb_exists _ _)); [done|]. exists (jcs (launch_doc ev mask)).
    split; [by apply list_elem_of_In, mask_candidate|by apply bool_decide_eq_true].
  - intros reply' rtmr3' h. unfold ComposeHashOf. cbn [nth mrConfigIDV3]. change (negb (bval (byte_of 3) =? 3)) with false. cbn iota.
    unfold tried. intros Hr. apply bind_ok in Hr as (log2 & H2 & Hr). apply map_err_ok in H2. apply bind_ok in Hr as (ev2 & H3 & Hr).
    apply map_err_ok in H3. rewrite H2. cbn [mbind result_bind]. rewrite H3.
    destruct (existsb _ _) eqn:Ex; [|done]. injection Hr as <-. intros Hfree.
    apply existsb_exists in Ex as (doc & Hin & Hd). apply bool_decide_eq_true in Hd. apply list_elem_of_In in Hin.
    destruct (v3_candidate _ _ Hin) as [mask2 ->].
    apply mrConfigIDV3_inj in Hd; [by apply jcs_compose_hash in Hd|].
    intros E. apply (collision_free_eq _ _ _ Hfree); [|by left|done]. right. apply list_elem_of_In, in_map_iff.
    eexists. split; [done|]. by apply list_elem_of_In.
Qed.

(** ** The manifest behind the hash is the quote's *)

(** An instance offers a manifest. *)
Definition offers (inst : cloudInstance) (raw : bytes) : Prop :=
  exists l field, cloudInstanceAppCompose inst = Ok l /\ (field, raw) ∈ l.

Lemma find_digest l h :
  match List.find (fun c : string * bytes => bool_decide (sha256 c.2 = h)) l with
  | Some c => c ∈ l /\ sha256 c.2 = h
  | None => forall c, c ∈ l -> sha256 c.2 <> h
  end.
Proof.
  destruct (List.find _ l) as [c|] eqn:E.
  - apply List.find_some in E as [Hin Hd]. split; [by apply list_elem_of_In|by apply bool_decide_eq_true in Hd].
  - intros c Hc. apply list_elem_of_In in Hc. pose proof (List.find_none _ _ E c Hc) as Hd. by apply bool_decide_eq_false in Hd.
Qed.

Lemma pick_from i insts h :
  match pickCloudAppCompose i insts h with
  | Ok (raw, j) => sha256 raw = h /\ (exists inst, insts !! (j - i)%nat = Some inst /\ offers inst raw) /\ (i <= j)%nat /\
                   forall k inst raw', (k < j - i)%nat -> insts !! k = Some inst -> offers inst raw' -> sha256 raw' <> h
  | Err _ => forall inst raw, inst ∈ insts -> offers inst raw -> sha256 raw <> h
  end.
Proof.
  revert i. induction insts as [|inst insts IH]; intros i; cbn [pickCloudAppCompose]; [by intros ? ? ?%elem_of_nil|].
  assert ((forall raw, offers inst raw -> sha256 raw <> h) ->
    match pickCloudAppCompose (S i) insts h with
    | Ok (raw, j) => sha256 raw = h /\ (exists inst0, (inst :: insts) !! (j - i)%nat = Some inst0 /\ offers inst0 raw) /\ (i <= j)%nat /\
        forall k inst0 raw', (k < j - i)%nat -> (inst :: insts) !! k = Some inst0 -> offers inst0 raw' -> sha256 raw' <> h
    | Err _ => forall inst0 raw, inst0 ∈ inst :: insts -> offers inst0 raw -> sha256 raw <> h
    end) as Hskip.
  { intros Hno. specialize (IH (S i)). destruct (pickCloudAppCompose (S i) insts h) as [[raw j]|e].
    - destruct IH as (Hd & (x & Hx & Ho) & Hij & Hk). split; [done|]. replace (j - i)%nat with (S (j - S i)) by lia. split_and!.
      + by exists x.
      + lia.
      + intros [|k] y raw' Hlt Hy Ho'; cbn in Hy; [injection Hy as <-; by apply Hno|]. eapply (Hk k y); [lia|done..].
    - intros y raw [->|Hy]%elem_of_cons Ho; [by apply Hno|by eapply IH]. }
  destruct (cloudInstanceAppCompose inst) as [l|e] eqn:Ec; [|apply Hskip; intros raw (l & f & E & _); congruence].
  pose proof (find_digest l h) as Hf. destruct (List.find _ l) as [[f raw]|].
  - destruct Hf as [Hin Hd]. cbn [snd] in *. replace (i - i)%nat with 0%nat by lia. split_and!; [done| |lia|].
    + exists inst. split; [done|]. by exists l, f.
    + intros k; lia.
  - apply Hskip. intros raw (l' & f & E & Hin). rewrite Ec in E. injection E as <-. by apply (Hf (f, raw)).
Qed.

(** The platform can only hand over the quote's own manifest. Whatever it reports, what
    is taken from it is the first manifest, by instance, whose bytes hash to what the quote
    commits to, and it passes the gate it is given to; when nothing is taken, no instance
    offered such bytes. Absent a collision with the manifest the CVM booted, the bytes are
    that manifest. *)
Theorem platform_manifest insts h booted :
  match pickCloudAppCompose 0 insts h with
  | Ok (raw, j) => (exists inst, insts !! j = Some inst /\ offers inst raw) /\ GateAppCompose raw h = Ok tt /\
                   (forall k inst raw', (k < j)%nat -> insts !! k = Some inst -> offers inst raw' -> sha256 raw' <> h) /\
                   (sha256 booted = h -> collision_free [booted; raw] -> raw = booted)
  | Err _ => forall inst raw, inst ∈ insts -> offers inst raw -> GateAppCompose raw h <> Ok tt
  end.
Proof.
  pose proof (pick_from 0 insts h) as Hp. destruct (pickCloudAppCompose 0 insts h) as [[raw j]|e].
  - destruct Hp as (Hd & Hx & _ & Hk). rewrite Nat.sub_0_r in Hx, Hk. split_and!; [done| |done|].
    + unfold GateAppCompose. by rewrite bool_decide_true.
    + intros Hb Hf. apply (collision_free_eq _ _ _ Hf); [right; by left|by left|congruence].
  - intros inst raw Hin Ho Hg. unfold GateAppCompose in Hg. destruct (bool_decide_reflect (sha256 raw = h)) as [E|]; [|done].
    by eapply Hp.
Qed.

(** ** One reading of the allowlist *)

Definition first_name (allowed : list OSImage) (b : BootChain) : option string :=
  option_map os_Name (List.find (fun i => bool_decide (os_BootChain i = b)) allowed).

Lemma names_first allowed (names : gmap BootChain string) b :
  fold_left (fun names img => match names !! os_BootChain img with
                              | Some _ => names
                              | None => <[os_BootChain img := os_Name img]> names
                              end) allowed names !! b =
  match names !! b with Some n => Some n | None => first_name allowed b end.
Proof.
  revert names. induction allowed as [|img allowed IH]; intros names; cbn [fold_left]; [unfold first_name; by destruct (names !! b)|].
  rewrite IH. unfold first_name. cbn [List.find]. destruct (bool_decide_reflect (os_BootChain img = b)) as [<-|Hne].
  - destruct (names !! os_BootChain img) as [n|] eqn:E; [by rewrite E|]. by rewrite lookup_insert_eq.
  - destruct (names !! os_BootChain img) eqn:E; [done|]. by rewrite lookup_insert_ne.
Qed.

Lemma first_name_allowed allowed b :
  existsb (fun a => bool_decide (a = b)) (map os_BootChain allowed) = match first_name allowed b with Some _ => true | None => false end.
Proof.
  unfold first_name. induction allowed as [|img allowed IH]; cbn; [done|]. destruct (bool_decide _); [done|exact IH].
Qed.

(** What parsing an allowlist leaves of each entry. *)
Definition entry_ok (i : OSImage) : Prop := os_Name i <> "" /\ IsZero (os_BootChain i) = false.

Lemma ParseOSImages_ok raw allowed : ParseOSImages raw = Ok allowed -> Forall entry_ok allowed.
Proof.
  unfold ParseOSImages. intros E. apply bind_ok in E as (images & _ & E). revert allowed E.
  induction images as [|e images IH]; cbn; intros allowed E; inv_ok; subst; [constructor|]. constructor; [|by apply IH].
  match goal with H : parse_os _ = _ |- _ => rename H into Hp end. unfold parse_os in Hp. inv_ok. subst. split; [|done]. cbn.
  intros Hn. rewrite Hn in *. done.
Qed.

(** The report and the sealing path read one allowlist one way. For an allowlist as
    the file gives it, the check a report shows passes a boot chain exactly when the policy
    a verifier enforces permits it, which no all-zero chain is; the image named is the same,
    and is the first entry with that chain. *)
Theorem one_allowlist raw allowed m :
  ParseOSImages raw = Ok allowed ->
  let c := CheckOSImage allowed m in
  let p := BootChainPolicyOf allowed in
  oc_Configured c = Configured p /\
  (oc_Configured c = true -> oc_OK c = Permits p (BootChainOf m)) /\
  oc_Matched c = Name p (BootChainOf m) /\
  Permits p (BootChainOf m) = match first_name allowed (BootChainOf m) with Some _ => true | None => false end /\
  (Permits p (BootChainOf m) = true -> first_name allowed (BootChainOf m) = Some (oc_Matched c) /\ oc_Matched c <> "" /\
     IsZero (BootChainOf m) = false).
Proof.
  intros Hp. apply ParseOSImages_ok in Hp. cbn zeta. set (b := BootChainOf m).
  assert (Permits (BootChainPolicyOf allowed) b = match first_name allowed b with Some _ => true | None => false end) as Hperm.
  { unfold Permits. cbn [Allowed BootChainPolicyOf]. rewrite first_name_allowed. destruct (IsZero b) eqn:Hz; [|done].
    destruct (first_name allowed b) as [n|] eqn:E; [|done]. exfalso. unfold first_name in E.
    destruct (List.find _ allowed) as [i|] eqn:Ef; [|done]. apply List.find_some in Ef as [Hin Hb]. apply bool_decide_eq_true in Hb.
    rewrite Forall_forall in Hp. apply list_elem_of_In in Hin. destruct (Hp _ Hin) as [_ Hz2]. rewrite Hb in Hz2. congruence. }
  assert (Name (BootChainPolicyOf allowed) b = default "" (first_name allowed b)) as Hname.
  { unfold Name. rewrite Hperm. cbn [Names BootChainPolicyOf]. rewrite names_first, lookup_empty. by destruct (first_name allowed b). }
  assert (forall n, first_name allowed b = Some n -> n <> "" /\ IsZero b = false) as Hn.
  { intros n E. unfold first_name in E. destruct (List.find _ allowed) as [i|] eqn:Ef; [|done]. injection E as <-.
    apply List.find_some in Ef as [Hin Hb]. apply bool_decide_eq_true in Hb. rewrite Forall_forall in Hp.
    apply list_elem_of_In in Hin. destruct (Hp _ Hin) as [H1 H2]. by rewrite <-Hb. }
  assert (oc_Matched (CheckOSImage allowed m) = default "" (first_name allowed b)) as Hmatch.
  { unfold CheckOSImage. fold b. rewrite Hname, Hperm. destruct allowed; [done|]. cbn [length Nat.ltb Nat.leb negb].
    destruct (first_name _ b) as [n|] eqn:E; cbn; [|done]. destruct (Hn n eq_refl) as [H1 _]. by rewrite (proj2 (String.eqb_neq _ _) H1). }
  split_and!.
  - unfold CheckOSImage, Configured. cbn [Allowed BootChainPolicyOf]. rewrite length_map. destruct (Nat.ltb 0 _); [|done]. cbn.
    destruct (String.eqb _ _); cbn; [|done]. by destruct (Permits _ _).
  - unfold CheckOSImage. fold b. rewrite Hname, Hperm. destruct (Nat.ltb 0 _); [|done]. intros _. cbn [negb].
    destruct (first_name allowed b) as [n|] eqn:E; cbn; [|done]. destruct (Hn n eq_refl) as [H1 _]. by rewrite (proj2 (String.eqb_neq _ _) H1).
  - by rewrite Hmatch, Hname.
  - done.
  - rewrite Hperm, Hmatch. destruct (first_name allowed b) as [n|] eqn:E; [|done]. intros _. cbn. split; [done|]. by apply Hn.
Qed.

(** ** The bundle's manifest *)

Definition ends_cr (l : bytes) : bool := match rev l with c :: _ => Ascii.eqb c (byte_of 13) | [] => false end.

Definition manifest_entry_ok (e : ManifestEntry) : Prop :=
  checkBasename (bytes_of (me_Name e)) = Ok tt /\ length (me_Digest e) = 32%nat /\ (newline ∉ bytes_of (me_Name e)) /\
  ends_cr (bytes_of (me_Name e)) = false.

(** A manifest as [sha256sum] writes it. *)
Definition print_line (e : ManifestEntry) : bytes := hex_encode (me_Digest e) ++ bytes_of "  " ++ bytes_of (me_Name e).
Definition print_manifest (es : list ManifestEntry) : bytes := concat (map (fun e => print_line e ++ [newline]) es).

Lemma trim_cr_ends l : ends_cr (trim_cr l) = false.
Proof.
  unfold ends_cr, trim_cr. rewrite rev_involutive. induction (rev l) as [|c r IH]; cbn; [done|].
  by destruct (Ascii.eqb c (byte_of 13)) eqn:E; [|cbn; rewrite E].
Qed.

Lemma trim_cr_id l : ends_cr l = false -> trim_cr l = l.
Proof.
  unfold ends_cr, trim_cr. intros Hl. destruct (rev l) as [|c r] eqn:E; cbn.
  - by rewrite <-(rev_involutive l), E.
  - rewrite Hl. by rewrite <-E, rev_involutive.
Qed.

Lemma trim_cr_prefix l : exists r, l = trim_cr l ++ r.
Proof.
  unfold trim_cr. assert (forall r, exists p, r = p ++ drop_cr r) as Hd.
  { induction r as [|d r [p IH]]; cbn; [by exists []|]. destruct (Ascii.eqb d (byte_of 13)); [|by exists []]. exists (d :: p). cbn. by rewrite <-IH. }
  destruct (Hd (rev l)) as [p Hp]. exists (rev p). rewrite <-rev_app_distr, <-Hp. by rewrite rev_involutive.
Qed.

Lemma ends_cr_app a b : b <> [] -> ends_cr (a ++ b) = ends_cr b.
Proof.
  intros Hb. unfold ends_cr. rewrite rev_app_distr. destruct (rev b) as [|c r] eqn:E; [|done].
  apply (f_equal (@rev _)) in E. rewrite rev_involutive in E. done.
Qed.

(** A line with something to see in it is not blank. *)
Definition no_graph (ps : list bytes) : bool := forallb (fun p => forallb (fun c => negb (graph c)) p) ps.

Lemma strip_any_in ps l r : strip_any ps l = Some r -> exists p, p ∈ ps /\ l = p ++ r.
Proof.
  unfold strip_any. induction ps as [|p ps IH]; cbn; [done|]. destruct (strip_prefix p l) as [r'|] eqn:E.
  - intros Hr. injection Hr as ->. apply strip_prefix_spec in E. exists p. split; [by left|done].
  - intros Hr. destruct (IH Hr) as (q & Hq & ->). exists q. split; [by right|done].
Qed.

Lemma trim_left_keeps ps l c : no_graph ps = true -> graph c = true -> c ∈ l -> c ∈ trim_left ps l.
Proof.
  intros Hps Hc. unfold trim_left. generalize (length l) as n. intros n. revert l. induction n as [|n IH]; intros l Hin; cbn; [done|].
  destruct (strip_any ps l) as [r|] eqn:E; [|done]. apply IH. apply strip_any_in in E as (p & Hp & ->).
  apply elem_of_app in Hin as [Hin|]; [|done]. exfalso. unfold no_graph in Hps. rewrite forallb_forall in Hps.
  apply list_elem_of_In in Hp. specialize (Hps _ Hp). rewrite forallb_forall in Hps. apply list_elem_of_In in Hin.
  specialize (Hps _ Hin). by rewrite Hc in Hps.
Qed.

Lemma trim_space_keeps l c : graph c = true -> c ∈ l -> trim_space_bytes l <> [].
Proof.
  intros Hc Hin E. assert (c ∈ trim_space_bytes l) as H; [|rewrite E in H; by apply elem_of_nil in H].
  unfold trim_space_bytes. apply list_elem_of_In, in_rev. rewrite rev_involutive. apply list_elem_of_In.
  apply trim_left_keeps; [by vm_compute|done|]. apply list_elem_of_In. rewrite <-in_rev. apply list_elem_of_In.
  by apply trim_left_keeps; [vm_compute| |].
Qed.

Lemma lower_hex_graph_char c : is_lower_hex c = true -> graph c = true /\ c <> " "%char /\ c <> "\"%char /\ c <> newline.
Proof.
  pose proof (all_bytes_forall (fun c => negb (is_lower_hex c) || (graph c && negb (Ascii.eqb c " ") &&
    negb (Ascii.eqb c "\") && negb (Ascii.eqb c newline)) = true)) as Ha. specialize (Ha ltac:(by vm_compute) c). cbv beta in Ha.
  intros Hc. rewrite Hc in Ha. cbn [negb orb] in Ha. rewrite !andb_true_iff, !negb_true_iff, !Ascii.eqb_neq in Ha. tauto.
Qed.

Lemma manifest_line_print e : manifest_entry_ok e -> manifest_line (print_line e) = Ok (Some (bytes_of (me_Name e), me_Digest e)).
Proof.
  intros (Hn & Hd & _ & Hcr). assert (bytes_of (me_Name e) <> []) as Hne by (intros E; rewrite E in Hn; done).
  pose proof (hex_encode_lower (me_Digest e)) as Hhex. pose proof (hex_encode_length (me_Digest e)) as Hlen.
  unfold manifest_line, print_line. rewrite trim_cr_id by (rewrite !app_assoc, ends_cr_app; done).
  destruct (hex_encode (me_Digest e)) as [|c h] eqn:Eh; [cbn in Hlen; lia|]. inversion Hhex as [|? ? Hc Hh]; subst.
  destruct (lower_hex_graph_char _ Hc) as (Hg & Hsp & Hbs & _).
  rewrite bool_decide_false by (eapply trim_space_keeps; [exact Hg|by left]).
  cbn [app]. rewrite (proj2 (Ascii.eqb_neq _ _) Hbs). cbn [refuse mbind result_bind].
  change (c :: h ++ bytes_of "  " ++ bytes_of (me_Name e)) with ((c :: h) ++ " "%char :: " "%char :: bytes_of (me_Name e)).
  rewrite split_first_app.
  - cbn [of_option mbind result_bind]. rewrite Ascii.eqb_refl. cbn [orb of_option mbind result_bind]. rewrite <-Eh, hex_decode_encode.
    cbn [of_option mbind result_bind]. rewrite Hd, Nat.eqb_refl. cbn [negb refuse mbind result_bind]. by rewrite Hn.
  - intros Hin. rewrite Forall_forall in Hhex. specialize (Hhex _ Hin). done.
Qed.

Lemma print_line_newline e : manifest_entry_ok e -> newline ∉ print_line e.
Proof.
  intros (_ & _ & Hn & _). unfold print_line. rewrite !elem_of_app. intros [Hin|[Hin|Hin]]; [|revert Hin; apply (bool_decide_unpack _); by vm_compute|done].
  pose proof (hex_encode_lower (me_Digest e)) as Hhex. rewrite Forall_forall in Hhex. specialize (Hhex _ Hin). done.
Qed.

Lemma split_print es : Forall manifest_entry_ok es -> split_on newline (print_manifest es) = map print_line es ++ [[]].
Proof.
  unfold print_manifest. induction 1 as [|e es He _ IH]; [done|]. cbn [map concat]. rewrite <-app_assoc. cbn [app].
  rewrite split_on_app by by apply print_line_newline. by rewrite IH.
Qed.

Lemma manifest_lines_print es acc : Forall manifest_entry_ok es -> NoDup (map me_Name (acc ++ es)) ->
  manifest_lines acc (map print_line es ++ [[]]) = Ok (acc ++ es).
Proof.
  intros He. revert acc. induction He as [|e es He _ IH]; intros acc Hnd; cbn [map app manifest_lines].
  - cbn. by rewrite app_nil_r.
  - rewrite manifest_line_print by done. cbn [mbind result_bind].
    assert (existsb (fun x => String.eqb (me_Name x) (str_of (bytes_of (me_Name e)))) acc = false) as ->.
    { rewrite str_of_bytes_of. destruct (existsb _ acc) eqn:E; [|done]. apply existsb_exists in E as (x & Hin & Hx). apply String.eqb_eq in Hx.
      rewrite map_app in Hnd. apply NoDup_app in Hnd as (_ & Hno & _). exfalso. apply (Hno (me_Name e)).
      - rewrite <-Hx. apply list_elem_of_In, in_map. done.
      - cbn. by left. }
    cbn [refuse mbind result_bind]. rewrite str_of_bytes_of. destruct e as [n d]. cbn [me_Name me_Digest].
    rewrite IH; [by rewrite <-app_assoc|by rewrite <-app_assoc].
Qed.

Lemma manifest_line_ok line name raw : (newline ∉ line) -> manifest_line line = Ok (Some (name, raw)) ->
  manifest_entry_ok (MkMEntry (str_of name) raw).
Proof.
  unfold manifest_line, manifest_entry_ok. cbn [me_Name me_Digest]. rewrite bytes_of_str_of. intros Hnl E.
  destruct (trim_cr_prefix line) as [tail Ht]. pose proof (trim_cr_ends line) as Hcr. destruct (bool_decide _); [done|]. inv_ok.
  destruct x0 as [hx rest]. inv_ok. bool_hyps. subst.
  match goal with H : split_first _ _ = Some _ |- _ => apply split_first_some in H as [Hs _] end.
  destruct rest as [|c rest]; [done|]. match goal with H : (if ?b then _ else _) = Some _ |- _ => destruct b; [injection H as ->|done] end.
  rewrite Hs in Ht, Hcr. assert (name <> []) as Hne by (intros ->; match goal with H : checkBasename [] = _ |- _ => by vm_compute in H end). split_and!; [done|by apply Nat.eqb_eq| |].
  - intros Hin. apply Hnl. rewrite Ht, !elem_of_app, !elem_of_cons. auto.
  - change (hx ++ " "%char :: c :: name) with (hx ++ [" "%char; c] ++ name) in Hcr. by rewrite app_assoc, ends_cr_app in Hcr.
Qed.

Lemma manifest_lines_ok lines acc es : Forall (fun l => newline ∉ l) lines ->
  Forall manifest_entry_ok acc -> NoDup (map me_Name acc) -> manifest_lines acc lines = Ok es ->
  Forall manifest_entry_ok es /\ NoDup (map me_Name es).
Proof.
  intros Hl. revert acc. induction Hl as [|l lines Hn _ IH]; intros acc Ha Hd; cbn [manifest_lines]; [intros E; by injection E as <-|].
  intros E. apply bind_ok in E as (o & Ho & E). destruct o as [[name raw]|]; [|by eapply IH]. inv_ok.
  eapply IH; [| |exact E].
  - apply Forall_app. split; [done|]. constructor; [by eapply manifest_line_ok|constructor].
  - rewrite map_app. apply NoDup_app. split; [done|]. split; [|cbn; apply NoDup_singleton].
    intros x Hx Hx2. cbn in Hx2. apply list_elem_of_singleton in Hx2 as ->. apply list_elem_of_In, in_map_iff in Hx as (y & Hy & Hin).
    match goal with H : existsb _ acc = false |- _ => rename H into Hex end.
    assert (existsb (fun e => String.eqb (me_Name e) (str_of name)) acc = true); [|congruence].
    apply existsb_exists. exists y. split; [done|]. by apply String.eqb_eq.
Qed.

(** A bundle's manifest is read as [sha256sum] writes it. Every list of entries with
    plain, distinct names and digests of the right length survives being written and
    parsed; and whatever bytes are accepted, what they are read as is such a list: no path,
    no name twice, no digest of another length. *)
Theorem manifest_roundtrip :
  (forall es, es <> [] -> Forall manifest_entry_ok es -> NoDup (map me_Name es) -> parseManifest (print_manifest es) = Ok es) /\
  (forall b es, parseManifest b = Ok es -> es <> [] /\ Forall manifest_entry_ok es /\ NoDup (map me_Name es)).
Proof.
  unfold parseManifest. split.
  - intros es Hne He Hd. rewrite split_print, manifest_lines_print by done. cbn [app mbind result_bind].
    by destruct es.
  - intros b es E. apply bind_ok in E as (es' & Hl & E). apply manifest_lines_ok in Hl as [H1 H2];
      [|apply split_no_sep|constructor|constructor]. inv_ok. subst es'. split; [|done]. intros ->. done.
Qed.

(** ** Witnesses *)

Module BootWitness.
Import RuntimeWitness.
Definition compose : bytes := bytes_of "services: {}".
Definition hash : bytes := Eval vm_compute in sha256 compose.
Definition boot : list (string * bytes) :=
  [(evComposeHash, hash); (evKeyProvider, print (JObj [(bytes_of "name", jstr "none"); (bytes_of "id", jstr "")])); (systemReady, [])].
Definition boot_log : list rtmr3Entry := map (fun p => MkEntry3 (entry p.1 p.2) p.2) boot.
Definition boot_reply : bytes := reply_of (map (fun p => entry p.1 p.2) boot).
Definition boot_register : bytes := Eval vm_compute in replayed zeroMR boot_log.
Definition launched : bootLog := MkBoot [] hash [] [] false [] "none" "".
Definition config_id : bytes := Eval vm_compute in mrConfigIDV3 (jcs (launch_doc launched 0)).

Lemma boot_replays : replayRTMR3 boot_reply boot_register = Ok boot_log.
Proof. vm_cast_no_check (@eq_refl (eresult (list rtmr3Entry)) (Ok boot_log)). Qed.
Lemma boot_read : bootEvents boot_log = Ok launched.
Proof. vm_cast_no_check (@eq_refl (eresult bootLog) (Ok launched)). Qed.
Lemma config_id_doc : config_id = mrConfigIDV3 (jcs (launch_doc launched 0)).
Proof. vm_cast_no_check (eq_refl config_id). Qed.
Lemma tried_apart : collision_free (document_text (jcs (launch_doc launched 0)) :: tried boot_reply boot_register).
Proof. apply distinct_digests_ok. vm_cast_no_check (eq_refl true). Qed.

Lemma no_mask : 0 <= 0 < 2 ^ Z.of_nat (length (optional_fields launched)).
Proof. split; [lia|]. change (length (optional_fields launched)) with 1%nat. lia. Qed.

Definition reg (c : ascii) : string := str_of (hex_encode (repeat c 48)).
Definition listed (name : string) : json :=
  JObj [(bytes_of "name", jstr name); (bytes_of "mrtd", jstr (reg "m")); (bytes_of "rtmr1", jstr (reg "1")); (bytes_of "rtmr2", jstr (reg "2"))].
Definition allowlist : bytes := print (JObj [(bytes_of "images", JArr [listed "dstack-0.5.4"; listed "a copy of it"])]).
Definition image_os : OSImage := MkOS "dstack-0.5.4" "" (MkBootChain (repeat "m"%char 48) (repeat "1"%char 48) (repeat "2"%char 48)).
Definition copy_os : OSImage := MkOS "a copy of it" "" (os_BootChain image_os).
Lemma allowlist_parsed : ParseOSImages allowlist = Ok [image_os; copy_os].
Proof. vm_cast_no_check (@eq_refl (eresult (list OSImage)) (Ok [image_os; copy_os])). Qed.
End BootWitness.

Section witnesses.
Import BootWitness.

Lemma launch_hash_read_witness :
  ComposeHashOf config_id boot_reply boot_register = Ok hash /\
  (forall h, ComposeHashOf config_id boot_reply boot_register = Ok h -> h = hash).
Proof.
  destruct (launch_hash_read boot_reply boot_register boot_log launched 0 config_id boot_replays boot_read
              no_mask config_id_doc) as [Hfound Honly].
  split; [exact Hfound|]. intros h Hh. exact (Honly boot_reply boot_register h Hh tried_apart).
Defined.

Lemma one_allowlist_witness :
  let m := MkMeasurement (repeat "m"%char 48) (repeat "9"%char 48) (repeat "1"%char 48) (repeat "2"%char 48) (repeat "3"%char 48) in
  oc_Matched (CheckOSImage [image_os; copy_os] m) = Name (BootChainPolicyOf [image_os; copy_os]) (BootChainOf m) /\
  oc_Matched (CheckOSImage [image_os; copy_os] m) = "dstack-0.5.4".
Proof.
  intros m. destruct (one_allowlist allowlist [image_os; copy_os] m allowlist_parsed) as (_ & _ & Hname & _).
  split; [exact Hname|]. vm_compute. reflexivity.
Defined.
End witnesses.
