(* ===== verification/GoText.v ===== *)
(** * GoText: searching and replacing in text, and cleaning paths

    The [strings] functions that look for one text in another ([Contains], [Cut],
    [ReplaceAll], [LastIndex]) and [path.Clean], as the compose review uses them, with the
    lemmas its theorems need: what a replacement leaves of its needle, and how the text a
    replacement came from can be read back off its result. *)

From S2P Require Import Prelude GoBytes GoUrl.

(** ** Looking for a text *)

(** The text cut at the first occurrence of [needle]. *)
Fixpoint cut_sub (needle l : bytes) : option (bytes * bytes) :=
  match strip_prefix needle l with
  | Some r => Some ([], r)
  | None =>
      match l with
      | [] => None
      | c :: l => '(a, b) ← cut_sub needle l; Some (c :: a, b)
      end
  end.

(** [strings.Contains]. *)
Definition str_contains (s sub : string) : bool :=
  match cut_sub (bytes_of sub) (bytes_of s) with Some _ => true | None => false end.

(** [strings.ReplaceAll] of a needle that is not empty: left to right, what was put in is
    not searched again. The fuel is the length of the text, and every round takes the
    needle off it. *)
Fixpoint replace_fuel (n : nat) (needle by_ l : bytes) : bytes :=
  match n with
  | O => l
  | S n =>
      match cut_sub needle l with
      | Some (a, b) => a ++ by_ ++ replace_fuel n needle by_ b
      | None => l
      end
  end.
Definition replace_bytes (needle by_ l : bytes) : bytes := replace_fuel (length l) needle by_ l.
Definition ReplaceAll (s old new : string) : string :=
  str_of (replace_bytes (bytes_of old) (bytes_of new) (bytes_of s)).

(** [strings.Cut] at a byte: what is before it, what is after it, whether it is there. *)
Definition Cut (s : string) (sep : ascii) : string * string * bool :=
  match split_first sep (bytes_of s) with
  | Some (a, b) => (str_of a, str_of b, true)
  | None => (s, "", false)
  end.

(** [strings.LastIndex] of a byte, [None] for -1. *)
Definition LastIndexByte (l : bytes) (c : ascii) : option nat :=
  match split_last c l with Some (a, _) => Some (length a) | None => None end.

(** [strings.ToUpper], of ASCII text. *)
Definition to_upper (s : string) : string := str_of (map upper (bytes_of s)).

(** [strings.ContainsAny] of ASCII characters. *)
Definition contains_any_of (cs : string) (s : string) : bool :=
  existsb (fun c => bool_decide (c ∈ bytes_of cs)) (bytes_of s).

(** ** [path.Clean] *)

Definition dot : bytes := bytes_of ".".
Definition dotdot : bytes := bytes_of "..".

(** One segment after [out], the segments kept so far, last first. *)
Definition clean_seg (rooted : bool) (out : list bytes) (seg : bytes) : list bytes :=
  if bool_decide (seg = []) || bool_decide (seg = dot) then out
  else if bool_decide (seg = dotdot) then
    match out with
    | [] => if rooted then [] else [dotdot]
    | top :: rest => if bool_decide (top = dotdot) then dotdot :: out else rest
    end
  else seg :: out.

Definition rooted (p : bytes) : bool := match p with c :: _ => Ascii.eqb c "/" | [] => false end.
Definition clean_segs (r : bool) (segs : list bytes) : list bytes := rev (fold_left (clean_seg r) segs []).
(** Where a path leads: from the root or not, and the names on the way. *)
Definition path_to (p : bytes) : bool * list bytes := (rooted p, clean_segs (rooted p) (split_on "/" p)).
Definition render_path (to : bool * list bytes) : bytes :=
  let body := join_on "/" to.2 in
  if to.1 then "/"%char :: body else if bool_decide (to.2 = []) then dot else body.
Definition path_Clean (p : string) : string := str_of (render_path (path_to (bytes_of p))).

(** ** Lemmas: occurrences *)

Definition occurs (needle l : bytes) : Prop := exists a b, l = a ++ needle ++ b.

Lemma cut_sub_some needle l a b : cut_sub needle l = Some (a, b) -> l = a ++ needle ++ b.
Proof.
  revert a. induction l as [|c l IH]; intros a; cbn;
    destruct (strip_prefix needle _) as [r|] eqn:E; try done.
  - intros [= <- <-]. by apply strip_prefix_spec in E.
  - intros [= <- <-]. by apply strip_prefix_spec in E.
  - destruct (cut_sub needle l) as [[a' b']|]; cbn; [|done]. intros [= <- <-]. cbn. f_equal. auto.
Qed.

Lemma occurs_cons needle c l : occurs needle (c :: l) <-> (exists b, c :: l = needle ++ b) \/ occurs needle l.
Proof.
  split.
  - intros ([|x a] & b & E); [left; eauto|]. injection E as -> ->. right. by exists a, b.
  - intros [[b E]|(a & b & ->)]; [by exists [], b|by exists (c :: a), b].
Qed.

Lemma cut_sub_none needle l : cut_sub needle l = None <-> ~ occurs needle l.
Proof.
  induction l as [|c l IH]; cbn; destruct (strip_prefix needle _) as [r|] eqn:E.
  - apply strip_prefix_spec in E. split; [done|]. intros Hn. destruct Hn. by exists [], r.
  - split; [|done]. intros _ (a & b & Hab). destruct a; [|done]. cbn in Hab.
    symmetry in Hab. apply app_nil in Hab as [-> ->]. done.
  - apply strip_prefix_spec in E. split; [done|]. intros Hn. destruct Hn. by exists [], r.
  - rewrite occurs_cons. destruct (cut_sub needle l) as [[a b]|] eqn:E2; cbn.
    + split; [done|]. intros Hn. destruct Hn. right. exists a, b. by apply cut_sub_some.
    + split; [|done]. intros _ [[b Hb]|Ho]; [|by apply IH in Ho].
      apply strip_prefix_spec in Hb. congruence.
Qed.

(** The cut is at the first start of the needle. *)
Lemma cut_sub_iff needle l x y :
  cut_sub needle l = Some (x, y) <->
  l = x ++ needle ++ y /\ forall x' y', l = x' ++ needle ++ y' -> (length x <= length x')%nat.
Proof.
  assert (forall x y, cut_sub needle l = Some (x, y) ->
    forall x' y', l = x' ++ needle ++ y' -> (length x <= length x')%nat) as Hmin.
  { clear. induction l as [|c l IH]; intros x y; cbn;
      destruct (strip_prefix needle _) as [r|] eqn:E; try done; try (intros [= <- <-]; cbn; lia).
    destruct (cut_sub needle l) as [[a b]|]; cbn; [|done]. intros [= <- <-] [|d x'] y' Hl.
    - cbn in Hl. apply strip_prefix_spec in Hl. congruence.
    - injection Hl as -> Hl. cbn. apply le_n_S. by eapply IH. }
  split.
  - intros Hc. split; [by apply cut_sub_some|by eapply Hmin].
  - intros [Hl Hle]. destruct (cut_sub needle l) as [[x2 y2]|] eqn:E.
    + pose proof (Hmin _ _ eq_refl x y Hl). apply cut_sub_some in E. pose proof (Hle _ _ E).
      rewrite Hl in E. apply app_inj_1 in E as [-> E]; [|lia]. by apply (inj (app needle)) in E as ->.
    + apply cut_sub_none in E. destruct E. by exists x, y.
Qed.

Lemma cut_sub_first needle l a b : cut_sub needle l = Some (a, b) -> needle <> [] -> ~ occurs needle a.
Proof.
  intros Hc Hne (x & y & ->). apply cut_sub_iff in Hc as [-> Hle].
  specialize (Hle x (y ++ needle ++ b) ltac:(by rewrite <-!(assoc_L (++)))).
  rewrite !length_app in Hle. destruct needle; [done|]. cbn in Hle. lia.
Qed.

(** A character the needle does not have keeps its starts apart. *)
Lemma occurs_at (needle : bytes) (c : ascii) a b x y : needle <> [] -> c ∉ needle -> a ++ c :: b = x ++ needle ++ y ->
  (exists y', a = x ++ needle ++ y' /\ y = y' ++ c :: b) \/
  (exists x', x = a ++ c :: x' /\ b = x' ++ needle ++ y).
Proof.
  intros Hne Hc E. apply app_eq_inv in E as [(k & -> & E)|(k & -> & E)].
  - apply app_eq_inv in E as [(k' & -> & E)|(k' & -> & ->)].
    + destruct k' as [|d k']; cbn in E.
      * left. exists []. by rewrite !app_nil_r.
      * injection E as <- _. destruct Hc. apply elem_of_app. right. by left.
    + left. by exists k'.
  - destruct k as [|d k]; cbn in E.
    + destruct needle as [|n needle]; [done|]. injection E as -> _. destruct Hc. by left.
    + injection E as <- E. right. by exists k.
Qed.

Lemma occurs_sep (needle : bytes) (c : ascii) a b : needle <> [] -> c ∉ needle ->
  occurs needle (a ++ c :: b) <-> occurs needle a \/ occurs needle b.
Proof.
  intros Hne Hc. split.
  - intros (x & y & E). apply occurs_at in E as [(y' & -> & _)|(x' & _ & ->)]; [left; by exists x, y'|right; by exists x', y|done..].
  - intros [(x & y & ->)|(x & y & ->)]; [exists x, (y ++ c :: b)|exists (a ++ c :: x), y]; by rewrite <-!(assoc_L (++)).
Qed.

Lemma occurs_app_l needle a b : occurs needle a -> occurs needle (a ++ b).
Proof. intros (x & y & ->). exists x, (y ++ b). by rewrite <-!app_assoc. Qed.
Lemma occurs_app_r needle a b : occurs needle b -> occurs needle (a ++ b).
Proof. intros (x & y & ->). exists (a ++ x), y. by rewrite <-!app_assoc. Qed.
Lemma occurs_trans n1 n2 l : occurs n1 n2 -> occurs n2 l -> occurs n1 l.
Proof. intros (a & b & ->) (x & y & ->). exists (x ++ a), (b ++ y). by rewrite <-!app_assoc. Qed.

(** ** Lemmas: replacing *)

Lemma replace_fuel_enough n needle by_ l : needle <> [] -> (length l <= n)%nat ->
  replace_fuel n needle by_ l = replace_bytes needle by_ l.
Proof.
  intros Hne. unfold replace_bytes. revert l.
  assert (forall n l, (length l <= n)%nat -> forall m, (length l <= m)%nat ->
    replace_fuel n needle by_ l = replace_fuel m needle by_ l) as Hgen.
  { clear n. induction n as [|n IH]; intros l Hn m Hm.
    - destruct l; [|cbn in Hn; lia]. destruct m; [done|]. cbn.
      destruct (strip_prefix needle []) as [r|] eqn:E; [|done]. apply strip_prefix_spec in E.
      symmetry in E. by apply app_nil in E as [? _].
    - destruct m as [|m].
      + destruct l; [|cbn in Hm; lia]. cbn.
        destruct (strip_prefix needle []) as [r|] eqn:E; [|done]. apply strip_prefix_spec in E.
        symmetry in E. by apply app_nil in E as [? _].
      + cbn. destruct (cut_sub needle l) as [[a b]|] eqn:E; [|done]. apply cut_sub_some in E. subst l.
        rewrite !length_app in *. destruct needle as [|c needle]; [done|]. cbn in *.
        rewrite (IH b ltac:(lia) m ltac:(lia)). done. }
  intros l Hl. by apply Hgen.
Qed.

Lemma replace_cut needle by_ l a b : needle <> [] -> cut_sub needle l = Some (a, b) ->
  replace_bytes needle by_ l = a ++ by_ ++ replace_bytes needle by_ b.
Proof.
  intros Hne Hc. unfold replace_bytes at 1. pose proof Hc as E. apply cut_sub_some in E.
  destruct (length l) as [|n] eqn:El.
  { subst l. rewrite !length_app in El. destruct needle; [done|cbn in El; lia]. }
  cbn. rewrite Hc. f_equal. f_equal. apply replace_fuel_enough; [done|].
  subst l. rewrite !length_app in El. destruct needle; [done|]. cbn in El. lia.
Qed.

Lemma replace_none needle by_ l : ~ occurs needle l -> replace_bytes needle by_ l = l.
Proof.
  intros Hn. unfold replace_bytes. destruct (length l); [done|]. cbn.
  apply cut_sub_none in Hn. by rewrite Hn.
Qed.

(** Induction on a text by its occurrences of a needle. *)
Lemma occurs_ind needle (P : bytes -> Prop) : needle <> [] ->
  (forall l, ~ occurs needle l -> P l) ->
  (forall a b l, cut_sub needle l = Some (a, b) -> P b -> P l) -> forall l, P l.
Proof.
  intros Hne H0 H1 l. remember (length l) as n eqn:En. revert l En.
  induction (lt_wf n) as [n _ IH]. intros l ->. destruct (cut_sub needle l) as [[a b]|] eqn:E.
  - apply (H1 a b l E). eapply IH; [|done]. apply cut_sub_some in E. subst l.
    rewrite !length_app. destruct needle; [done|cbn; lia].
  - apply H0. by apply cut_sub_none.
Qed.

(** ** Lemmas: replacing by a mark that can be told apart

    The mark starts with a character and ends with one that the needles do not have, and
    has neither inside. *)
Section marks.
Context (lt gt : ascii) (mid : bytes).
Definition mark : bytes := lt :: mid ++ [gt].

(** A needle the mark cannot be confused with. *)
Record apart (needle : bytes) : Prop := {
  ap_nonempty : needle <> [];
  ap_lt : lt ∉ needle;
  ap_gt : gt ∉ needle;
  ap_mid : ~ occurs needle mid
}.

Lemma occurs_mark needle a b : apart needle ->
  occurs needle (a ++ mark ++ b) <-> occurs needle a \/ occurs needle b.
Proof.
  intros [Hne Hlt Hgt Hmid]. unfold mark. cbn. rewrite <-(assoc_L (++)), occurs_sep by done. cbn.
  rewrite occurs_sep by done. tauto.
Qed.

(** Nothing of the needle is left, so a second pass changes nothing. *)
Lemma replaced_free needle l : apart needle -> ~ occurs needle (replace_bytes needle mark l).
Proof.
  intros Ha. pose proof (ap_nonempty _ Ha) as Hne.
  apply (occurs_ind needle (fun l => ~ occurs needle (replace_bytes needle mark l)));
    [done|intros l' Hn; by rewrite replace_none|intros a b l' Hc IH].
  rewrite (replace_cut _ _ _ _ _ Hne Hc), occurs_mark by done.
  intros [?|?]; [by eapply cut_sub_first|done].
Qed.


Lemma occurs_at_mark needle a b x y : apart needle -> a ++ mark ++ b = x ++ needle ++ y ->
  (exists y', a = x ++ needle ++ y' /\ y = y' ++ mark ++ b) \/
  (exists x', x = a ++ mark ++ x' /\ b = x' ++ needle ++ y).
Proof.
  intros [Hne Hlt Hgt Hmid]. unfold mark. cbn. rewrite <-(assoc_L (++)). cbn. intros E.
  apply occurs_at in E as [(y' & -> & ->)|(x' & -> & E)]; [left; by exists y'| |done..].
  apply occurs_at in E as [(y' & E & _)|(x2 & -> & ->)]; [destruct Hmid; by exists x', y'| |done..].
  right. exists x2. by rewrite <-!(assoc_L (++)).
Qed.

(** A replacement goes on on the two sides of a mark. *)
Lemma replace_mark needle a b : apart needle ->
  replace_bytes needle mark (a ++ mark ++ b) = replace_bytes needle mark a ++ mark ++ replace_bytes needle mark b.
Proof.
  intros Ha. pose proof (ap_nonempty _ Ha) as Hne. revert a.
  assert (forall b, replace_bytes needle mark (mark ++ b) = mark ++ replace_bytes needle mark b) as Hb.
  { intros b0. destruct (cut_sub needle b0) as [[x y]|] eqn:E.
    - rewrite (replace_cut _ _ _ _ _ Hne E). rewrite (replace_cut _ _ _ (mark ++ x) y Hne); [by rewrite <-!(assoc_L (++))|].
      apply cut_sub_iff in E as [-> Hle]. apply cut_sub_iff. split; [by rewrite <-!(assoc_L (++))|].
      intros x' y' E. apply (occurs_at_mark _ [] _ _ _ Ha) in E as [(y2 & E & _)|(x2 & -> & E)].
      + destruct x'; [destruct needle; done|done].
      + apply Hle in E. rewrite !length_app. cbn. lia.
    - apply cut_sub_none in E. rewrite !replace_none; [done|done|].
      intros Ho. apply (occurs_mark _ [] _ Ha) in Ho as [(x & y & E2)|?]; [|done].
      destruct x; [destruct needle; done|done]. }
  intros a. apply (occurs_ind needle (fun a => replace_bytes needle mark (a ++ mark ++ b) =
    replace_bytes needle mark a ++ mark ++ replace_bytes needle mark b)); [done| |].
  - clear a. intros a Hn. rewrite (replace_none _ _ a Hn). destruct (cut_sub needle b) as [[x y]|] eqn:E.
    + rewrite (replace_cut _ _ b _ _ Hne E). rewrite (replace_cut _ _ _ (a ++ mark ++ x) y Hne); [by rewrite <-!(assoc_L (++))|].
      apply cut_sub_iff in E as [-> Hle]. apply cut_sub_iff. split; [by rewrite <-!(assoc_L (++))|].
      intros x' y' E. apply (occurs_at_mark _ _ _ _ _ Ha) in E as [(y2 & E & _)|(x2 & -> & E)].
      * destruct Hn. by exists x', y2.
      * apply Hle in E. rewrite !length_app. lia.
    + apply cut_sub_none in E. rewrite !replace_none; [done|done|]. by rewrite occurs_mark by done; intros [?|?].
  - clear a. intros x y a E IH. rewrite (replace_cut _ _ a _ _ Hne E).
    rewrite (replace_cut _ _ _ x (y ++ mark ++ b) Hne); [rewrite IH; by rewrite <-!(assoc_L (++))|].
    apply cut_sub_iff in E as [-> Hle]. apply cut_sub_iff. split; [by rewrite <-!(assoc_L (++))|].
    intros x' y' E. apply (occurs_at_mark _ _ _ _ _ Ha) in E as [(y2 & E & _)|(x2 & -> & E)].
    + by apply Hle in E.
    + rewrite !length_app. lia.
Qed.

(** *** Reading the text back *)

(** Literal pieces with something between each two. *)
Definition fill (first : bytes) (rest : list (bytes * bytes)) : bytes :=
  first ++ concat (map (fun hl => hl.1 ++ hl.2) rest).
Definition marks (rest : list (bytes * bytes)) : list (bytes * bytes) := map (fun hl => (mark, hl.2)) rest.

(** [out] is [s] with every one of some occurrences of [hs] marked. *)
Definition reduces (hs : list bytes) (s out : bytes) : Prop :=
  exists first rest, s = fill first rest /\ Forall (fun hl => hl.1 ∈ hs) rest /\ out = fill first (marks rest).

Lemma fill_app first r1 r2 : fill first (r1 ++ r2) = fill first r1 ++ concat (map (fun hl => hl.1 ++ hl.2) r2).
Proof. unfold fill. by rewrite map_app, concat_app, (assoc_L (++)). Qed.

Lemma fill_cons f h l rest : fill f ((h, l) :: rest) = f ++ h ++ fill l rest.
Proof. unfold fill. cbn. by rewrite <-!(assoc_L (++)). Qed.

Lemma marks_cons h l rest : marks ((h, l) :: rest) = (mark, l) :: marks rest.
Proof. done. Qed.
Lemma marks_app r1 r2 : marks (r1 ++ r2) = marks r1 ++ marks r2.
Proof. apply map_app. Qed.

Lemma reduces_replace needle s : needle <> [] -> reduces [needle] s (replace_bytes needle mark s).
Proof.
  intros Hne. apply (occurs_ind needle (fun s => reduces [needle] s (replace_bytes needle mark s))); [done| |].
  - intros l Hn. exists l, []. rewrite replace_none by done. unfold fill. cbn. by rewrite app_nil_r.
  - intros a b l Hc (f & rest & Hb & Hh & Hr). rewrite (replace_cut _ _ _ _ _ Hne Hc).
    exists a, ((needle, f) :: rest). cbn [marks map]. rewrite !fill_cons, <-Hb. split_and!.
    + by apply cut_sub_some.
    + constructor; [by left|done].
    + by rewrite Hr.
Qed.

Lemma reduces_weaken hs hs' s out : hs ⊆ hs' -> reduces hs s out -> reduces hs' s out.
Proof.
  intros Hs (f & rest & -> & Hh & ->). exists f, rest. split_and!; [done| |done].
  eapply Forall_impl; [done|]. intros hl. cbn. apply Hs.
Qed.

(** Marking one more needle in a text already marked. *)
Lemma reduces_again hs needle s out : apart needle -> reduces hs s out ->
  reduces (needle :: hs) s (replace_bytes needle mark out).
Proof.
  intros Ha (f & rest & -> & Hh & ->). pose proof (ap_nonempty _ Ha) as Hne. revert f.
  induction Hh as [|[h l] rest Hin _ IH]; intros f.
  - unfold fill at 2. cbn. rewrite app_nil_r. eapply reduces_weaken; [|unfold fill; cbn; rewrite app_nil_r; by apply reduces_replace].
    intros x Hx. apply elem_of_cons in Hx as [->|Hx]; [by left|by apply elem_of_nil in Hx].
  - rewrite marks_cons, !fill_cons, replace_mark by done.
    destruct (IH l) as (f1 & r1 & -> & H1 & E1). destruct (reduces_replace needle f Hne) as (f0 & r0 & -> & H0 & E0).
    exists f0, (r0 ++ (h, f1) :: r1). rewrite fill_app, marks_app, marks_cons, fill_app, <-E0, E1. split_and!.
    + unfold fill. cbn. by rewrite <-!(assoc_L (++)).
    + apply Forall_app. split; [|constructor; [by right|done]].
      eapply Forall_impl; [done|]. intros hl Hx. apply elem_of_cons in Hx as [->|Hx]; [by left|by apply elem_of_nil in Hx].
    + rewrite E0. unfold fill. cbn. by rewrite <-!(assoc_L (++)).
Qed.

(** A text without the mark: the pieces are what its reduction has between the marks. *)
Context (lt_mid : lt ∉ mid) (lt_gt : lt <> gt).

Lemma cut_mark_first f x : ~ occurs mark f -> cut_sub mark (f ++ mark ++ x) = Some (f, x).
Proof.
  intros Hn. apply cut_sub_iff. split; [done|]. intros x' y' E.
  destruct (decide (length f <= length x')%nat) as [|Hlt]; [done|]. exfalso.
  apply app_eq_inv in E as [(k & -> & E)|(k & -> & _)]; [|rewrite length_app in Hlt; lia].
  destruct k as [|c k]; [rewrite app_nil_r in Hlt; lia|].
  (* the occurrence starts in [f]; it cannot reach the mark behind it *)
  apply app_eq_inv in E as [(k' & E & E2)|(k' & E & _)].
  - destruct k' as [|c' k'].
    + rewrite app_nil_r in E. apply Hn. exists x', []. by rewrite <-E, app_nil_r.
    + unfold mark in E, E2. injection E as <- E. injection E2 as <- E2.
      assert (lt ∈ mid ++ [gt]) as Hin by (rewrite E; apply elem_of_app; right; by left).
      apply elem_of_app in Hin as [?|Hin]; [done|]. apply elem_of_cons in Hin as [?|Hin]; [done|by apply elem_of_nil in Hin].
  - apply Hn. exists x', k'. by rewrite E.
Qed.

Lemma fill_marks_inj f1 r1 f2 r2 :
  ~ occurs mark f1 -> Forall (fun hl : bytes * bytes => ~ occurs mark hl.2) r1 ->
  ~ occurs mark f2 -> Forall (fun hl : bytes * bytes => ~ occurs mark hl.2) r2 ->
  fill f1 (marks r1) = fill f2 (marks r2) -> f1 = f2 /\ map snd r1 = map snd r2.
Proof.
  intros Hf1 Hr1 Hf2 Hr2. revert f1 f2 r2 Hf1 Hf2 Hr2.
  assert (forall f, fill f [] = f) as Hnil by (intros f; unfold fill; cbn; apply app_nil_r).
  induction Hr1 as [|[h1 l1] r1 Hl1 _ IH]; intros f1 f2 [|[h2 l2] r2] Hf1 Hf2 Hr2; rewrite ?marks_cons, ?fill_cons; cbn [marks map].
  - by rewrite !Hnil.
  - rewrite Hnil. intros ->. destruct Hf1. by eexists _, _.
  - rewrite Hnil. intros <-. destruct Hf2. by eexists _, _.
  - intros E. inversion Hr2 as [|? ? Hl2 Hr2']; subst.
    assert (Some (f1, fill l1 (marks r1)) = Some (f2, fill l2 (marks r2))) as E2 by (by rewrite <-!cut_mark_first, E).
    injection E2 as -> E2. destruct (IH l1 l2 r2 Hl1 Hl2 Hr2' E2) as [-> ->]. done.
Qed.

Lemma reduces_same hs1 s1 hs2 s2 out :
  ~ occurs mark s1 -> ~ occurs mark s2 -> reduces hs1 s1 out -> reduces hs2 s2 out ->
  exists first r1 r2, s1 = fill first r1 /\ s2 = fill first r2 /\ map snd r1 = map snd r2 /\
    Forall (fun hl => hl.1 ∈ hs1) r1 /\ Forall (fun hl => hl.1 ∈ hs2) r2.
Proof.
  intros Hn1 Hn2 (f1 & r1 & -> & H1 & ->) (f2 & r2 & -> & H2 & E).
  assert (forall f rest, ~ occurs mark (fill f rest) ->
    ~ occurs mark f /\ Forall (fun hl : bytes * bytes => ~ occurs mark hl.2) rest) as Hpieces.
  { clear. intros f rest. revert f. induction rest as [|[h l] rest IH]; intros f Hn.
    - split; [|done]. contradict Hn. by apply occurs_app_l.
    - rewrite fill_cons in Hn. destruct (IH l) as [Hl Hr]; [contradict Hn; by do 2 apply occurs_app_r|].
      split; [contradict Hn; by apply occurs_app_l|by constructor]. }
  destruct (Hpieces _ _ Hn1), (Hpieces _ _ Hn2).
  destruct (fill_marks_inj f1 r1 f2 r2) as [-> Hr]; [done..|]. by exists f2, r1, r2.
Qed.
End marks.

(** ** Lemmas: paths *)

(** A segment that is a name. *)
Definition name_seg (s : bytes) : Prop := s <> [] /\ s <> dot /\ s <> dotdot /\ "/"%char ∉ s.

(** What is kept, last first: names, above steps up if the path does not start at the root. *)
Definition kept (r : bool) (out : list bytes) : Prop :=
  exists names ups, out = names ++ ups /\ Forall name_seg names /\ Forall (eq dotdot) ups /\ (r = true -> ups = []).

Lemma clean_seg_name r out s : name_seg s -> clean_seg r out s = s :: out.
Proof.
  intros (H1 & H2 & H3 & _). unfold clean_seg. by rewrite !bool_decide_eq_false_2.
Qed.

Lemma clean_seg_kept r out s : "/"%char ∉ s -> kept r out -> kept r (clean_seg r out s).
Proof.
  intros Hs (names & ups & -> & Hn & Hu & Hr). unfold clean_seg.
  destruct (bool_decide (s = []) || bool_decide (s = dot)) eqn:E1; [by exists names, ups|].
  apply orb_false_iff in E1 as [E1%bool_decide_eq_false E2%bool_decide_eq_false].
  case_bool_decide as E3.
  - destruct names as [|n names]; cbn [app].
    + destruct ups as [|u ups].
      * destruct r; [by exists [], []|]. exists [], [dotdot]. by repeat constructor.
      * inversion Hu; subst. rewrite bool_decide_eq_true_2 by done.
        exists [], (dotdot :: dotdot :: ups). split_and!; [done|done|by constructor|]. intros Hx. by apply Hr in Hx.
    + inversion Hn as [|? ? Hn1 Hn2]; subst. rewrite bool_decide_eq_false_2 by (by destruct Hn1 as (_ & _ & ? & _)).
      by exists names, ups.
  - exists (s :: names), ups. split_and!; [done| |done|done]. constructor; [|done]. by split_and!.
Qed.

Lemma clean_segs_kept r segs : Forall (fun s => "/"%char ∉ s) segs -> kept r (rev (clean_segs r segs)).
Proof.
  intros Hs. unfold clean_segs. rewrite rev_involutive.
  assert (forall out, kept r out -> kept r (fold_left (clean_seg r) segs out)) as Hgen.
  { induction Hs as [|s segs Hs1 _ IH]; intros out Ho; [done|]. cbn. by apply IH, clean_seg_kept. }
  apply Hgen. exists [], []. by repeat constructor.
Qed.

(** What is kept is kept again. *)
Lemma clean_segs_again r segs : kept r (rev segs) -> clean_segs r segs = segs.
Proof.
  intros (names & ups & E & Hn & Hu & Hr). unfold clean_segs.
  rewrite <-(rev_involutive segs), E, rev_app_distr, fold_left_app.
  assert (fold_left (clean_seg r) (rev ups) [] = ups) as ->.
  { destruct r; [by rewrite (Hr eq_refl)|].
    assert (forall out, Forall (eq dotdot) out -> fold_left (clean_seg false) (rev ups) out = rev (rev ups) ++ out) as Hgen.
    { apply Forall_rev in Hu. induction Hu as [|u us <- _ IH]; intros out Ho; [done|].
      cbn [fold_left rev]. assert (clean_seg false out dotdot = dotdot :: out) as ->.
      { unfold clean_seg. cbn. inversion Ho; subst; [done|]. done. }
      rewrite IH by (by constructor). by rewrite <-(assoc_L (++)). }
    rewrite Hgen by done. by rewrite rev_involutive, app_nil_r. }
  assert (forall l out, Forall name_seg l -> fold_left (clean_seg r) l out = rev l ++ out) as Hgen.
  { induction l as [|s l IH]; intros out Hl; [done|]. inversion Hl; subst. cbn.
    rewrite clean_seg_name by done. rewrite IH by done. by rewrite <-(assoc_L (++)). }
  rewrite Hgen by (by apply Forall_rev). by rewrite rev_involutive, rev_app_distr.
Qed.

Lemma kept_pieces r out : kept r out -> Forall (fun s => s <> [] /\ "/"%char ∉ s) out.
Proof.
  intros (names & ups & -> & Hn & Hu & _). apply Forall_app. split.
  - eapply Forall_impl; [done|]. intros s (? & _ & _ & ?). done.
  - eapply Forall_impl; [done|]. intros s <-. split; [done|]. by apply (bool_decide_unpack _), I.
Qed.

(** A cleaned path leads where the path did: cleaning is idempotent, and what it renders is
    a function of where the path leads. *)
Lemma path_to_clean p : path_to (render_path (path_to p)) = path_to p.
Proof.
  unfold path_to at 2 3. set (r := rooted p). set (segs := clean_segs r (split_on "/" p)).
  assert (kept r (rev segs)) as Hk by (by apply clean_segs_kept, split_no_sep).
  pose proof (kept_pieces _ _ Hk) as Hp. apply Forall_rev in Hp. rewrite rev_involutive in Hp.
  unfold path_to, render_path. cbn [fst snd]. destruct r eqn:Er.
  - cbn [rooted]. rewrite Ascii.eqb_refl. f_equal.
    assert (split_on "/" ("/"%char :: join_on "/" segs) = [] :: split_on "/" (join_on "/" segs)) as ->
      by (apply (split_on_app "/" []); apply not_elem_of_nil).
    assert (forall l, clean_segs true ([] :: l) = clean_segs true l) as -> by done.
    destruct segs as [|s segs'] eqn:Es; [done|]. rewrite <-Es in *. rewrite split_join.
    + by apply clean_segs_again.
    + by rewrite Es.
    + eapply Forall_impl; [done|]. by intros s' [_ ?].
  - case_bool_decide as E; [by rewrite E|].
    rewrite split_join; [|done|eapply Forall_impl; [done|]; by intros s' [_ ?]].
    assert (rooted (join_on "/" segs) = false) as ->.
    { destruct segs as [|s segs']; [done|]. inversion Hp as [|? ? [Hs1 Hs2] _]; subst.
      destruct s as [|c s]; [done|]. destruct segs'; cbn; apply Ascii.eqb_neq; intros ->; apply Hs2; by left. }
    by rewrite clean_segs_again.
Qed.

Lemma path_Clean_idem p : path_Clean (path_Clean p) = path_Clean p.
Proof. unfold path_Clean. by rewrite bytes_of_str_of, path_to_clean. Qed.
