(* ===== verification/Yaml.v ===== *)
(** * Yaml: YAML nodes, and the images a compose text names ([client/compose/compose.go])

    A [yaml.Node] is its kind, tag, value, presentation (style, anchor, comments) and
    content; a nil pointer is [None]. What yaml.v3 makes of text, and of a node at a typed
    place, is a class of functions; the walks over nodes are defined. *)

From S2P Require Import Prelude GoBytes GoUrl GoText.

Inductive NodeKind := DocumentNode | SequenceNode | MappingNode | ScalarNode | AliasNode.
#[export] Instance NodeKind_eq_dec : EqDecision NodeKind.
Proof. solve_decision. Defined.

(** What is presentation rather than content. *)
Record presentation := MkPres {
  pr_Style : Z; pr_Anchor : string; pr_HeadComment : string; pr_LineComment : string; pr_FootComment : string
}.
Definition plain : presentation := MkPres 0 "" "" "" "".

Inductive node : Type := Node (kind : NodeKind) (tag value : string) (pres : presentation) (content : list node).
Definition n_Kind (n : node) : NodeKind := let 'Node k _ _ _ _ := n in k.
Definition n_Tag (n : node) : string := let 'Node _ t _ _ _ := n in t.
Definition n_Value (n : node) : string := let 'Node _ _ v _ _ := n in v.
Definition n_Pres (n : node) : presentation := let 'Node _ _ _ p _ := n in p.
Definition n_Content (n : node) : list node := let 'Node _ _ _ _ c := n in c.

Lemma node_ind' (P : node -> Prop) :
  (forall k t v p c, Forall P c -> P (Node k t v p c)) -> forall n, P n.
Proof.
  intros H. fix IH 1. intros [k t v p c]. apply H. induction c as [|n c IHc]; constructor; auto.
Qed.

Definition is_kind (k : NodeKind) (n : node) : bool := bool_decide (n_Kind n = k).

(** A decoded value: Go's [any], with [ANilList] the nil slice. A map is its entries, one
    per key, in the order a range happens to go. *)
Inductive any : Type :=
| ANull | ABool (b : bool) | AInt (z : Z) | AFloat (repr : string) | AStr (s : string)
| ANilList | AList (l : list any) | AMap (m : list (string * any)).

(** yaml.v3: a text as its one document's node ([yaml.Unmarshal]); a text as its documents
    ([Decoder.Decode], until the end or an error); a node as text; a value as a node
    ([Node.Encode]); a node as a boolean ([Decode] into a [bool]). *)
Class YamlLib := {
  yaml_Unmarshal : string -> option node;
  yaml_Documents : string -> list node * bool;
  yaml_Marshal : node -> option string;
  yaml_Encode : any -> option node;
  yaml_Bool : node -> option bool
}.

(** The key/value pairs of a mapping node's content; a last key without a value is none. *)
Fixpoint pairs (l : list node) : list (node * node) :=
  match l with
  | k :: v :: l => (k, v) :: pairs l
  | _ => []
  end.

(** [mapValue], [mappingValue]: the first pair's value. *)
Definition mapValue (n : option node) (key : string) : option node :=
  match n with
  | None => None
  | Some n => if negb (is_kind MappingNode n) then None
              else snd <$> List.find (fun kv => String.eqb (n_Value kv.1) key) (pairs (n_Content n))
  end.

(** ** Image references *)

(** [SplitImageRef]: repository, tag, digest. *)
Definition SplitImageRef (ref : string) : string * string * string :=
  let ref := trim_space ref in
  if String.eqb ref "" then ("", "", "")
  else
    let '(image, digest) := match split_last "@" (bytes_of ref) with
                            | Some (a, b) => (a, str_of b)
                            | None => (bytes_of ref, "")
                            end in
    match split_last ":" image with
    | Some (a, b) =>
        (* the colon counts after the last slash only *)
        if match LastIndexByte image "/" with Some i => Nat.ltb i (length a) | None => true end
        then (str_of a, str_of b, digest) else (str_of image, "", digest)
    | None => (str_of image, "", digest)
    end.

(** ** The services of a text ([ParseServices]) *)

Record Service := MkService { sv_Name : string; sv_Ref : string; sv_Image : string; sv_Tag : string; sv_Digest : string }.
Inductive composeErr := ErrTooLarge | ErrYaml | ErrNoServices.
Definition maxDocBytes : Z := 1048576.

Definition service_of (name : string) (body : node) : Service :=
  if is_kind MappingNode body then
    match mapValue (Some body) "image" with
    | Some img => if is_kind ScalarNode img then
                    let ref := trim_space (n_Value img) in
                    let '(image, tag, digest) := SplitImageRef ref in MkService name ref image tag digest
                  else MkService name "" "" "" ""
    | None => MkService name "" "" "" ""
    end
  else MkService name "" "" "" "".

Definition services_of (l : list (node * node)) : list Service :=
  omap (fun kv => let name := n_Value kv.1 in
                  if String.eqb name "" then None else Some (service_of name kv.2)) l.

Definition ParseServices `{YamlLib} (doc : string) : result composeErr (list Service) :=
  _ ← refuse (maxDocBytes <? Z.of_nat (String.length doc)) ErrTooLarge;
  root ← of_option (yaml_Unmarshal doc) ErrYaml;
  match is_kind DocumentNode root, n_Content root with
  | true, top :: _ =>
      match mapValue (Some top) "services" with
      | Some services =>
          _ ← refuse (negb (is_kind MappingNode services)) ErrNoServices;
          let out := services_of (pairs (n_Content services)) in
          _ ← refuse (match out with [] => true | _ => false end) ErrNoServices;
          Ok out
      | None => Err ErrNoServices
      end
  | _, _ => Err ErrNoServices
  end.

(** ** The readers of the review ([composereview.go]) *)

(** [nodeScalar]: [None] for a node that is there and is not a scalar. *)
Definition nodeScalar (n : option node) : option string :=
  match n with
  | None => Some ""
  | Some n => if is_kind ScalarNode n then Some (trim_space (n_Value n)) else None
  end.

Definition nodeBool `{YamlLib} (n : option node) : option bool :=
  match n with
  | None => Some false
  | Some n => yaml_Bool n
  end.

Fixpoint scalars (l : list node) : option (list string) :=
  match l with
  | [] => Some []
  | n :: l => if is_kind ScalarNode n then s ← scalars l; Some (trim_space (n_Value n) :: s) else None
  end.

Definition nodeStrings (n : option node) : option (list string) :=
  match n with
  | None => Some []
  | Some n =>
      if is_kind ScalarNode n && (String.eqb (n_Tag n) "!!null" || String.eqb (trim_space (n_Value n)) "") then Some []
      else if negb (is_kind SequenceNode n) then None
      else scalars (n_Content n)
  end.

Definition nodeHasContent (n : option node) : bool :=
  match n with
  | None => false
  | Some n =>
      match n_Kind n with
      | SequenceNode | MappingNode => match n_Content n with [] => false | _ => true end
      | ScalarNode => negb (String.eqb (n_Tag n) "!!null") && negb (String.eqb (trim_space (n_Value n)) "")
      | _ => true
      end
  end.

Definition declaredExternal `{YamlLib} (decl : node) : bool :=
  match mapValue (Some decl) "external" with
  | None => false
  | Some e => match nodeBool (Some e) with None => true | Some b => b end
  end.

(** ** Lemmas *)

Lemma is_kind_true k n : is_kind k n = true <-> n_Kind n = k.
Proof. unfold is_kind. apply bool_decide_eq_true. Qed.

Lemma mapValue_some n key v : mapValue (Some n) key = Some v ->
  n_Kind n = MappingNode /\ exists k, (k, v) ∈ pairs (n_Content n) /\ n_Value k = key.
Proof.
  unfold mapValue. destruct (is_kind MappingNode n) eqn:Ek; [|done]. apply is_kind_true in Ek. cbn.
  destruct (List.find _ _) as [[k v']|] eqn:E; [|done]. intros [= ->]. apply find_some in E as [Hin Hk].
  cbn in Hk. apply String.eqb_eq in Hk. split; [done|]. exists k. split; [by apply list_elem_of_In|done].
Qed.
