(* ===== verification/Load.v ===== *)
(** * Load: reading compose text as docker compose does ([client/evidence/compose/composeload.go])

    compose-go's steps (parsing a document, interpolating, merging, de-duplicating, the
    schema, the canonical transforms) are a class of functions that may also panic; the
    loop around them is [loadModel]: its order, the bound on documents, the templates held
    back from parsing and put back, and which schema violations are set aside. A panic in
    the library comes back as a manifest that was not read.

    Values have no identity here, so the copies the code makes ([cloneNode],
    [withTemplatesRestored]'s) are not written out.

    The theorems: what a loaded model has passed; a mapping the provider wrote is never
    taken for a held template; a violation about which keys exist is never set aside. *)

From S2P Require Import Prelude GoBytes GoDecode GoUrl GoText Yaml.

(** [errNotRead] against docker compose's refusal; [EPanicked] is a panic nobody recovers. *)
Inductive loadErr := ELoad (what : string) | ENotRead (what : string) | EPanicked.
Abbreviation lresult := (result loadErr).

(** ** compose-go *)

Inductive cgerr := CgErr (what : string) | CgPanic (what : string).
Abbreviation cgresult := (result cgerr).
Abbreviation amap := (list (string * any)).

(** A schema violation, as gojsonschema reports it. *)
Record violation := MkViolation { vi_Type : string; vi_Value : any; vi_Field : string; vi_Description : string }.

(** What is read of [interpolation.Options]. *)
Record interpOptions := MkInterp {
  io_TypeCastMapping : list (string * (string -> cgresult any));
  io_Substitute : string -> cgresult string
}.

(** What [template.Substitute] says of a template. *)
Inductive templateCheck := TemplateFine | TemplateInvalid (what : string) | TemplateOther.

Class ComposeGo := {
  cg_PathMatchAll : string;
  cg_PathMatchList : string;
  cg_NewPath : list string -> string;
  cg_Next : string -> string -> string;
  cg_Matches : string -> string -> bool;
  cg_typeCasts : list (string * (string -> cgresult any));
  cg_Template : string -> templateCheck;
  cg_ParseYAML : string -> cgresult amap;
  cg_Interpolate : amap -> interpOptions -> cgresult amap;
  cg_Merge : amap -> amap -> cgresult amap;
  cg_EnforceUnicity : amap -> cgresult amap;
  cg_Schema : amap -> cgresult (list violation);
  cg_Canonical : amap -> cgresult amap;
  cg_Validate : amap -> cgresult unit
}.

(** ** Maps *)

Definition alookup (k : string) (m : amap) : option any :=
  snd <$> List.find (fun kv => String.eqb kv.1 k) m.
Definition adelete (k : string) (m : amap) : amap := List.filter (fun kv => negb (String.eqb kv.1 k)) m.
(** A value changed where it is. *)
Definition map_at (k : string) (f : any -> any) (m : amap) : amap :=
  map (fun kv => if String.eqb kv.1 k then (kv.1, f kv.2) else kv) m.

Definition has_dollar (s : string) : bool := str_contains s "$".

(** [holdsTemplate]: keys are not looked at. *)
Fixpoint holdsTemplate (v : any) : bool :=
  match v with
  | AStr s => has_dollar s
  | AMap m => existsb (fun kv => holdsTemplate kv.2) m
  | AList l => existsb holdsTemplate l
  | _ => false
  end.

(** [fixEmptyNotNull]. *)
Fixpoint fixEmptyNotNull (v : any) : any :=
  match v with
  | ANilList => AList []
  | AList l => AList (map fixEmptyNotNull l)
  | AMap m => AMap (map (fun kv => (kv.1, fixEmptyNotNull kv.2)) m)
  | _ => v
  end.

(** ** Held templates *)

Definition holdKeyPrefix : string := "x-pcverify-held-".

(** [newHoldKey], of what [rand.Read] filled the 16 bytes with. *)
Definition newHoldKey (drawn : option bytes) : option string :=
  b ← drawn; Some (holdKeyPrefix +:+ str_of (hex_encode b)).

Definition heldTemplate (key v : string) : any := AMap [(key, AStr v); ("target", AStr (key +:+ ":" +:+ v))].

Definition heldText (v : any) (key : string) : option string :=
  match v with
  | AMap m =>
      if negb (Nat.eqb (length m) 2) then None
      else match alookup key m with
           | Some (AStr s) =>
               match alookup "target" m with
               | Some (AStr t) => if String.eqb t (key +:+ ":" +:+ s) then Some s else None
               | _ => None
               end
           | _ => None
           end
  | _ => None
  end.

Definition restore1 (key : string) (e : any) : any := match heldText e key with Some s => AStr s | None => e end.
Definition restore_list (key : string) (v : any) : any :=
  match v with AList l => AList (map (restore1 key) l) | _ => v end.
Definition restore_values (key : string) (v : any) : any :=
  match v with AMap m => AMap (map (fun kv => (kv.1, restore1 key kv.2)) m) | _ => v end.
Definition restore_body (key : string) (svc : any) : any :=
  match svc with
  | AMap body => AMap (map_at "ulimits" (restore_values key)
                        (map_at "ports" (restore_list key) (map_at "volumes" (restore_list key) body)))
  | _ => svc
  end.
(** [restoreTemplates]; [withTemplatesRestored] is its result on a copy. *)
Definition restoreTemplates (model : amap) (key : string) : amap :=
  map_at "services" (fun services => match services with
                                     | AMap svcs => AMap (map (fun kv => (kv.1, restore_body key kv.2)) svcs)
                                     | _ => services
                                     end) model.

Section loading.
Context `{YamlLib} `{ComposeGo}.

(** ** Interpolation without an environment ([castOnly]) *)

Definition templatedShortSyntax : list string :=
  [cg_NewPath ["services"; cg_PathMatchAll; "volumes"; cg_PathMatchList];
   cg_NewPath ["services"; cg_PathMatchAll; "ports"; cg_PathMatchList];
   cg_NewPath ["services"; cg_PathMatchAll; "ulimits"; cg_PathMatchAll]].

Definition cast_literal (cast : string -> cgresult any) (v : string) : cgresult any :=
  if has_dollar v then Ok (AStr v) else cast v.
Definition cast_held (key : string) (cast : option (string -> cgresult any)) (v : string) : cgresult any :=
  if has_dollar v then Ok (heldTemplate key v)
  else match cast with Some cast => cast v | None => Ok (AStr v) end.

Definition cast_at (casts : list (string * (string -> cgresult any))) (p : string) : option (string -> cgresult any) :=
  snd <$> List.find (fun pc => String.eqb pc.1 p) casts.

Definition castOnly (key : string) : interpOptions :=
  let casts := map (fun pc => (pc.1, cast_literal pc.2)) cg_typeCasts in
  let held := fold_left (fun casts p => (p, cast_held key (cast_at casts p)) :: casts) templatedShortSyntax casts in
  MkInterp held (fun s => match cg_Template s with TemplateInvalid e => Err (CgErr e) | _ => Ok s end).

(** ** Resets ([recordResets], [applyResets]) *)

Fixpoint recordResets (n : node) (p : string) : list string :=
  if String.eqb (n_Tag n) "!reset" || String.eqb (n_Tag n) "!override" then [p]
  else
    let 'Node kind _ _ _ content := n in
    let fix items (i : nat) (l : list node) : list string :=
      match l with
      | [] => []
      | c :: l => recordResets c (cg_Next p (str_of (itoa (Z.of_nat i)))) ++ items (S i) l
      end in
    let fix members (l : list node) : list string :=
      match l with
      | k :: v :: l => recordResets v (cg_Next p (n_Value k)) ++ members l
      | _ => []
      end in
    match kind with
    | SequenceNode => items 0%nat content
    | MappingNode => members content
    | _ => []
    end.

(** With no paths nothing matches, and the walk changes nothing. *)
Fixpoint applyResets (target : any) (paths : list string) (p : string) : any :=
  match target with
  | AMap m =>
      AMap (omap (fun kv => let next := cg_Next p kv.1 in
                            if existsb (cg_Matches next) paths then None
                            else Some (kv.1, applyResets kv.2 paths next)) m)
  | AList l =>
      AList ((fix items (i : nat) (l : list any) : list any :=
                match l with
                | [] => []
                | e :: l => let next := cg_Next p ("[" +:+ str_of (itoa (Z.of_nat i)) +:+ "]") in
                            (if existsb (cg_Matches next) paths then e else applyResets e paths next) :: items (S i) l
                end) 0%nat l)
  | _ => target
  end.

(** ** Documents *)

Definition maxDocuments : nat := 16.
Record document := MkDoc { dc_text : string; dc_resets : list string; dc_empty : bool }.

Definition document_of (n : node) (out : string) : document :=
  let empty := match n_Content n with
               | [] => true
               | [c] => is_kind ScalarNode c && String.eqb (n_Tag c) "!!null"
               | _ => false
               end in
  let resets := match is_kind DocumentNode n, n_Content n with
                | true, [c] => recordResets c (cg_NewPath [])
                | _, _ => []
                end in
  MkDoc out resets empty.

(** [documents]' loop, over what the decoder yields: one document past the bound ends it. *)
Fixpoint documents_from (docs : list document) (nodes : list node) (bad : bool) : lresult (list document) :=
  match nodes with
  | [] => if bad then Err (ELoad "the text does not decode") else Ok docs
  | n :: nodes =>
      out ← of_option (yaml_Marshal n) (ELoad "a document does not marshal");
      let docs' := docs ++ [document_of n out] in
      if Nat.eqb (length docs) maxDocuments then Ok docs' else documents_from docs' nodes bad
  end.
Definition documents (text : string) : lresult (list document) :=
  let '(nodes, bad) := yaml_Documents text in documents_from [] nodes bad.

(** ** The schema ([validateSchema]) *)

Definition settledByEnvironment (e : violation) : bool :=
  if contains ["additional_property_not_allowed"; "required"; "invalid_property_name"] (vi_Type e) then false
  else holdsTemplate (vi_Value e).

Definition validateSchema (model : amap) : cgresult unit :=
  errors ← cg_Schema model;
  match List.filter (fun e => negb (settledByEnvironment e)) errors with
  | [] => Ok tt
  | k :: kept =>
      let pick := default k (List.find (fun e => negb (String.eqb (vi_Type e) "number_one_of")
                                                  && negb (String.eqb (vi_Type e) "number_any_of")) (k :: kept)) in
      Err (CgErr (vi_Field pick +:+ ": " +:+ vi_Description pick))
  end.

(** ** The loop ([loadModel]) *)

(** A library call inside [loadModel]: its error is docker compose's, its panic is
    recovered there as a manifest that was not read. *)
Definition cg {A} (r : cgresult A) : lresult A :=
  map_err (fun e => match e with CgErr w => ELoad w | CgPanic w => ENotRead w end) r.

Definition load_document (key : string) (model : amap) (doc : document) : lresult amap :=
  _ ← refuse (dc_empty doc) (ELoad "Top-level object must be a mapping");
  raw ← cg (cg_ParseYAML (dc_text doc));
  cfg ← cg (cg_Interpolate raw (castOnly key));
  let cfg := map (fun kv => (kv.1, fixEmptyNotNull kv.2)) cfg in
  let model := match applyResets (AMap model) (dc_resets doc) (cg_NewPath []) with AMap m => m | _ => model end in
  model ← cg (cg_Merge model cfg);
  model ← cg (cg_EnforceUnicity model);
  _ ← cg (validateSchema (restoreTemplates model key));
  Ok (adelete "version" model).

Fixpoint load_documents (key : string) (model : amap) (docs : list document) : lresult amap :=
  match docs with
  | [] => Ok model
  | doc :: docs => model ← load_document key model doc; load_documents key model docs
  end.

Definition loadModel (drawn : option bytes) (text : string) : lresult amap :=
  docs ← documents text;
  _ ← refuse (Nat.ltb maxDocuments (length docs)) (ENotRead "too many YAML documents");
  key ← of_option (newHoldKey drawn) (ENotRead "cannot draw a key to hold templates under");
  model ← load_documents key [] docs;
  _ ← refuse (match model with [] => true | _ => false end) (ELoad "empty compose file");
  model ← cg (cg_Canonical model);
  model ← cg (cg_EnforceUnicity model);
  let model := restoreTemplates model key in
  _ ← cg (cg_Validate model);
  Ok model.

(** ** Nodes of what was loaded *)

Definition toNode (model : any) : lresult node := of_option (yaml_Encode model) (ELoad "the model does not re-encode").

Definition readComposeDocument (drawn : option bytes) (doc : string) : lresult node :=
  model ← loadModel drawn doc; toNode (AMap model).

Definition parseOneDocument (text : string) : lresult node :=
  match yaml_Documents text with
  | ([], false) => Err (ELoad "the recorded block is empty")
  | ([], true) => Err (ELoad "the recorded block does not parse as YAML")
  | ([doc], false) =>
      match is_kind DocumentNode doc, n_Content doc with
      | true, [c] => Ok c
      | _, _ => Err (ELoad "the recorded block is empty")
      end
  | _ => Err (ELoad "the recorded block holds more than one YAML document")
  end.

Definition mapOf (key : string) (value : node) : node :=
  Node MappingNode "" "" plain [Node ScalarNode "!!str" key plain []; value].

(** [wrap]: it panics if the tree does not marshal. *)
Definition wrap (sections : gmap string node) : lresult string :=
  of_option (yaml_Marshal (Node MappingNode "" "" plain
    (concat (map (fun kv => n_Content (mapOf kv.1 kv.2)) (entries sections))))) EPanicked.

Definition field_of (v : option any) (name : string) : any :=
  match v with Some (AMap m) => default ANull (alookup name m) | _ => ANull end.

Definition loadServiceBlock (drawn : option bytes) (name : string) (body : string) : lresult node :=
  parsed ← parseOneDocument body;
  _ ← refuse (negb (is_kind MappingNode parsed)) (ELoad "the recorded block is not a mapping");
  text ← wrap {[ "services" := mapOf name parsed ]};
  model ← loadModel drawn text;
  toNode (field_of (alookup "services" model) name).

Definition loadTopLevelBlock (drawn : option bytes) (key : string) (value : string) : lresult node :=
  parsed ← parseOneDocument value;
  text ← wrap {[ key := parsed ]};
  model ← loadModel drawn text;
  toNode (default ANull (alookup key model)).

(** ** Lemmas *)

(** What has been loaded has passed: there is a document and none too many, none is empty,
    the transforms had a model, and the post-load validation ran on the result itself. *)
Lemma loadModel_ok drawn text model : loadModel drawn text = Ok model ->
  exists docs key m, documents text = Ok docs /\ newHoldKey drawn = Some key /\ (length docs <= maxDocuments)%nat /\
    load_documents key [] docs = Ok m /\ m <> [] /\ Forall (fun d => dc_empty d = false) docs /\
    cg_Validate model = Ok tt.
Proof.
  unfold loadModel. intros E.
  apply bind_ok in E as (docs & Hd & E). apply bind_ok in E as (u & Hn & E). destruct u. apply refuse_ok, Nat.ltb_ge in Hn.
  apply bind_ok in E as (key & Hk & E). apply of_option_ok in Hk.
  apply bind_ok in E as (m & Hm & E). apply bind_ok in E as (u & Hne & E). destruct u. apply refuse_ok in Hne.
  apply bind_ok in E as (m1 & _ & E). apply bind_ok in E as (m2 & _ & E). apply bind_ok in E as (u & Hv & [= <-]).
  exists docs, key, m. split_and!; try done.
  - by destruct m.
  - clear -Hm. revert Hm. generalize ([] : amap). induction docs as [|d docs IH]; intros m0 E; [done|].
    cbn in E. apply bind_ok in E as (m1 & Hd & E). constructor; [|by eapply IH].
    unfold load_document in Hd. apply bind_ok in Hd as (u & Hd & _). destruct u. by apply refuse_ok in Hd.
  - destruct u. by apply map_err_ok in Hv.
Qed.

(** A panic in the library is never one of the process. *)
Lemma loadModel_recovers drawn text : loadModel drawn text <> Err EPanicked.
Proof.
  assert (forall A (r : cgresult A), cg r <> Err EPanicked) as Hcg by (by intros A [a|[w|w]]).
  assert (forall A B (r : lresult A) (f : A -> lresult B), r <> Err EPanicked -> (forall a, f a <> Err EPanicked) ->
    (r ≫= f) <> Err EPanicked) as Hbind by (by intros A B [a|[w|w|]] f Hr Hf; cbn; [apply Hf|..]).
  assert (forall b e, e <> EPanicked -> @refuse loadErr b e <> Err EPanicked) as Hrefuse by (by intros [] e He [= ?]).
  unfold loadModel. repeat (apply Hbind; [|intros ?]); try apply Hcg; try (by apply Hrefuse); try done.
  - unfold documents. destruct (yaml_Documents text) as [nodes bad]. generalize ([] : list document) as docs.
    induction nodes as [|n nodes IH]; intros docs; cbn; [by destruct bad|].
    destruct (yaml_Marshal n); cbn; [|done]. case_match; [done|]. apply IH.
  - by destruct (newHoldKey drawn).
  - generalize ([] : amap) as m. induction a as [|d docs IH]; intros m; cbn; [done|].
    apply Hbind; [|apply IH]. unfold load_document. repeat (apply Hbind; [|intros ?]); try apply Hcg; try (by apply Hrefuse); done.
Qed.

(** *** Held templates cannot be forged *)

Lemma alookup_in k m v : alookup k m = Some v -> (k, v) ∈ m.
Proof.
  unfold alookup. destruct (List.find _ m) as [[k' v']|] eqn:E; [|done]. intros [= ->].
  apply find_some in E as [Hin Hk]. cbn in Hk. apply String.eqb_eq in Hk as ->. by apply list_elem_of_In.
Qed.

Lemma alookup_none k m : k ∉ map fst m -> alookup k m = None.
Proof.
  unfold alookup. intros Hn. destruct (List.find _ m) as [[k' v']|] eqn:E; [|done].
  apply find_some in E as [Hin Hk]. cbn in Hk. apply String.eqb_eq in Hk as ->. destruct Hn.
  apply list_elem_of_In, in_map_iff. by exists (k, v').
Qed.

Lemma heldText_held key v : key <> "target" -> heldText (heldTemplate key v) key = Some v.
Proof.
  intros Hk. unfold heldText, heldTemplate, alookup. cbn. rewrite String.eqb_refl. cbn.
  assert (String.eqb key "target" = false) as -> by (by apply String.eqb_neq). cbn. by rewrite String.eqb_refl.
Qed.

(** Only what [heldTemplate] builds is taken for held: those two entries, in either order. *)
Lemma heldText_only key v s : key <> "target" -> heldText v key = Some s ->
  v = heldTemplate key s \/ v = AMap [("target", AStr (key +:+ ":" +:+ s)); (key, AStr s)].
Proof.
  intros Hk. unfold heldText. destruct v as [| | | | | | |m]; try done.
  destruct m as [|e1 [|e2 [|]]]; try done. cbn [length Nat.eqb negb].
  destruct (alookup key [e1; e2]) as [[]|] eqn:E1; try done.
  destruct (alookup "target" [e1; e2]) as [[]|] eqn:E2; try done.
  destruct (String.eqb_spec s1 (key +:+ ":" +:+ s0)) as [->|]; [|done]. intros [= ->].
  apply alookup_in in E1, E2. repeat setoid_rewrite elem_of_cons in E1. repeat setoid_rewrite elem_of_cons in E2.
  destruct E1 as [<-|[<-|E1%elem_of_nil]], E2 as [E2|[E2|E2%elem_of_nil]]; try (exfalso; congruence); subst; auto.
Qed.

(** A key the model does not have: no mapping of it is taken for a held template. *)
Fixpoint key_absent (key : string) (v : any) : bool :=
  match v with
  | AMap m => forallb (fun kv => negb (String.eqb kv.1 key) && key_absent key kv.2) m
  | AList l => forallb (key_absent key) l
  | _ => true
  end.

Lemma restore1_absent key e : key_absent key e = true -> restore1 key e = e.
Proof.
  intros Ha. unfold restore1, heldText. destruct e as [| | | | | | |m]; try done.
  destruct (negb _); [done|]. destruct (alookup key m) as [v|] eqn:E; [|done]. exfalso.
  apply alookup_in, list_elem_of_In in E. cbn in Ha. rewrite forallb_forall in Ha. apply Ha in E. cbn in E.
  by rewrite String.eqb_refl in E.
Qed.

Lemma map_at_same k f m : (forall v, (k, v) ∈ m -> f v = v) -> map_at k f m = m.
Proof.
  intros Hf. unfold map_at. rewrite <-(map_id m) at 2. apply map_ext_in. intros [k' v] Hin. cbn.
  destruct (String.eqb_spec k' k) as [->|]; [|done]. f_equal. apply Hf. by apply list_elem_of_In.
Qed.

Lemma map_values_same f (m : amap) : (forall k v, (k, v) ∈ m -> f v = v) -> map (fun kv => (kv.1, f kv.2)) m = m.
Proof.
  intros Hf. rewrite <-(map_id m) at 2. apply map_ext_in. intros [k v] Hin. cbn. f_equal. eapply Hf. by apply list_elem_of_In.
Qed.

(** A key drawn after the manifest was written restores nothing the manifest holds. *)
Lemma restoreTemplates_absent key model : key_absent key (AMap model) = true -> restoreTemplates model key = model.
Proof.
  intros Ha.
  assert (forall k v m, key_absent key (AMap m) = true -> (k, v) ∈ m -> key_absent key v = true) as Hin.
  { intros k v m Hm Hk. cbn in Hm. rewrite forallb_forall in Hm. apply list_elem_of_In in Hk. apply Hm in Hk.
    by apply andb_true_iff in Hk as [_ ?]. }
  assert (forall v, key_absent key v = true -> restore_list key v = v) as Hl.
  { intros [] Hv; try done. cbn. f_equal. rewrite <-(map_id l) at 2. apply map_ext_in. intros e He.
    apply restore1_absent. cbn in Hv. rewrite forallb_forall in Hv. by apply Hv. }
  assert (forall v, key_absent key v = true -> restore_values key v = v) as Hv.
  { intros [] Hv; try done. cbn. f_equal. apply map_values_same. intros k v Hkv. apply restore1_absent. by eapply Hin. }
  apply map_at_same. intros v Hs. pose proof (Hin _ _ _ Ha Hs) as Hsv. destruct v; try done. f_equal.
  apply map_values_same. intros name svc Hsvc. pose proof (Hin _ _ _ Hsv Hsvc) as Hb. destruct svc; try done.
  cbn. f_equal.
  assert (map_at "volumes" (restore_list key) m0 = m0) as -> by (apply map_at_same; intros; apply Hl; by eapply Hin).
  assert (map_at "ports" (restore_list key) m0 = m0) as -> by (apply map_at_same; intros; apply Hl; by eapply Hin).
  apply map_at_same. intros; apply Hv; by eapply Hin.
Qed.

(** A violation about which keys exist always refuses. *)
Lemma validateSchema_keys model errors e : cg_Schema model = Ok errors -> In e errors ->
  contains ["additional_property_not_allowed"; "required"; "invalid_property_name"] (vi_Type e) = true ->
  exists w, validateSchema model = Err (CgErr w).
Proof.
  intros Es Hin Ht. unfold validateSchema. rewrite Es. cbn.
  destruct (List.filter _ errors) as [|k kept] eqn:E; [|eauto].
  assert (In e (List.filter (fun e => negb (settledByEnvironment e)) errors)) as Hf.
  { apply filter_In. split; [done|]. unfold settledByEnvironment. by rewrite Ht. }
  by rewrite E in Hf.
Qed.

(** Text without a template is judged whole. *)
Lemma validateSchema_literal model errors : cg_Schema model = Ok errors ->
  Forall (fun e => holdsTemplate (vi_Value e) = false) errors ->
  validateSchema model = Ok tt <-> errors = [].
Proof.
  intros Es Hl. unfold validateSchema. rewrite Es. cbn. destruct errors as [|e errors]; [done|].
  inversion Hl as [|? ? He _]; subst. cbn [List.filter]. unfold settledByEnvironment at 1.
  destruct (contains _ _); rewrite ?He; cbn; split; done.
Qed.
End loading.
