(* ===== verification/Block.v ===== *)
(** * Block: the canonical form of a service ([client/evidence/compose/composeblock.go])

    [blockOf] renders a service body twice, with and without its image identity; the
    second form is what a baseline records for a service whose image may move. A tree is
    normalized, rendered by yaml.v3 (a parameter), and the identity is erased from its
    scalars by [stripImageIdentity].

    The theorems, for the hold-out: two services whose reduced forms agree are the same
    but for their own image identities, and no trace of the digest is left in one. *)

From S2P Require Import Prelude GoBytes GoHash GoDecode GoUrl GoText Yaml Load.

Record ServiceBlock := MkBlock {
  sb_Name : string; sb_Canonical : string; sb_Digest : string;
  sb_CanonicalNoImage : string; sb_DigestNoImage : string;
  sb_ImageRef : string; sb_Err : option string
}.
Definition Pinnable (b : ServiceBlock) : bool := match sb_Err b with None => true | Some _ => false end.

(** [TopLevelBlock]. *)
Record TopLevelBlock := MkTop { tb_Key : string; tb_Canonical : string; tb_Digest : string; tb_Err : option string }.

Definition digestOf (s : string) : string := str_of (hex_encode (sha256 (bytes_of s))).

(** ** Rendering *)

Fixpoint normalize (n : node) : node :=
  let 'Node kind tag value _ content := n in Node kind tag value plain (map normalize content).

Definition renderCanonical `{YamlLib} (n : node) : option string := yaml_Marshal (normalize n).

(** ** The image identity *)

Definition imageHeldOut : string := "<image-held-out>".

(** [digestShape]: an algorithm, pieces of lower-case letters and digits with one separator
    between each two, a colon, and at least 32 hex digits. *)
Definition alnum (c : ascii) : bool := is_lower c || is_digit c.
Definition alg_sep (c : ascii) : bool := existsb (Ascii.eqb c) (bytes_of ".+_-").
Fixpoint algorithm (l : bytes) : bool :=
  match l with
  | [] => false
  | [c] => alnum c
  | c :: (d :: _) as l' => alnum c && (if alg_sep d then match l' with _ :: r => algorithm r | [] => false end else algorithm l')
  end.
Definition isDigestShaped (digest : string) : bool :=
  match split_first ":" (bytes_of digest) with
  | Some (alg, hex) => algorithm alg && Nat.leb 32 (length hex) && forallb is_lower_hex hex
  | None => false
  end.

Definition replace_needles (needles : list string) (v : string) : string :=
  fold_left (fun v needle => if String.eqb needle "" then v else ReplaceAll v needle imageHeldOut) needles v.

Fixpoint replaceScalars (needles : list string) (n : node) : node :=
  let 'Node kind tag value pres content := n in
  Node kind tag (if bool_decide (kind = ScalarNode) then replace_needles needles value else value) pres
    (map (replaceScalars needles) content).

Definition needles_of (imageRef : string) : list string :=
  if String.eqb imageRef "" then []
  else let '(_, _, digest) := SplitImageRef imageRef in
       if isDigestShaped digest then [imageRef; digest] else [].
Definition stripImageIdentity (n : node) (imageRef : string) : node :=
  match needles_of imageRef with [] => n | needles => replaceScalars needles n end.

Fixpoint remove_pairs (key : string) (l : list node) : list node :=
  match l with
  | k :: v :: l => if String.eqb (n_Value k) key then remove_pairs key l else k :: v :: remove_pairs key l
  | l => l
  end.
Definition removeKey (n : node) (key : string) : node :=
  let 'Node kind tag value pres content := n in
  if bool_decide (kind = MappingNode) then Node kind tag value pres (remove_pairs key content) else n.

(** ** Lists docker compose de-duplicates ([templatedIdentity]) *)

Definition identityOf : Type := node -> string.
Definition beforeEquals : identityOf := fun e => if is_kind ScalarNode e then (Cut (n_Value e) "=").1.1 else "".
Definition scalarOr (fields : list string) : identityOf := fun e =>
  if is_kind ScalarNode e then n_Value e
  else String.concat " " (omap (fun f => match mapValue (Some e) f with
                                         | Some v => if is_kind ScalarNode v then Some (n_Value v) else None
                                         | None => None
                                         end) fields).

Definition dedupedLists : gmap string identityOf :=
  list_to_map (map (fun p => (p, beforeEquals))
    ["annotations"; "cap_add"; "cap_drop"; "dns"; "dns_opt"; "dns_search"; "environment"; "extra_hosts"; "labels";
     "links"; "profiles"; "sysctls"; "tmpfs"; "deploy.labels"; "build.args"; "build.additional_contexts";
     "build.extra_hosts"; "build.platform"; "build.tags"; "build.labels"; "networks.*.aliases";
     "networks.*.link_local_ips"]
  ++ [("configs", scalarOr ["target"; "source"]); ("secrets", scalarOr ["target"; "source"]);
      ("env_file", scalarOr ["path"]); ("expose", scalarOr []);
      ("ports", scalarOr ["host_ip"; "published"; "target"; "protocol"]); ("volumes", scalarOr ["target"])]).

Fixpoint listsAt (n : node) (path : list string) : list node :=
  match path with
  | [] => [n]
  | p :: path =>
      if negb (is_kind MappingNode n) then []
      else concat (map (fun kv => if String.eqb p "*" || String.eqb (n_Value kv.1) p then listsAt kv.2 path else [])
                     (pairs (n_Content n)))
  end.

Definition sortedIdentityPaths : list (string * identityOf) := entries dedupedLists.
Definition path_parts (path : string) : list string := map str_of (split_on "." (bytes_of path)).

Definition templated_entry (id : identityOf) (list : node) : bool :=
  is_kind SequenceNode list && Nat.leb 2 (length (n_Content list))
  && existsb (fun e => has_dollar (id e)) (n_Content list).

(** The first list that holds one, by its path; [None] for the empty reason. *)
Definition templatedIdentity (body : option node) : option string :=
  match body with
  | None => None
  | Some body => fst <$> List.find (fun pi => existsb (templated_entry pi.2) (listsAt body (path_parts pi.1))) sortedIdentityPaths
  end.

(** ** The blocks *)

Section blocks.
Context `{YamlLib}.

Definition failed_block (name ref why : string) : ServiceBlock := MkBlock name "" "" "" "" ref (Some why).

Definition image_ref (body : node) : string :=
  match mapValue (Some body) "image" with
  | Some img => if is_kind ScalarNode img then trim_space (n_Value img) else ""
  | None => ""
  end.

(** The tree whose rendering is the reduced form. [renderCanonical] normalizes in place, so
    the key is removed from a normalized tree. *)
Definition reduced_tree (body : node) : node :=
  stripImageIdentity (removeKey (normalize body) "image") (image_ref body).

Definition blockOf (name : string) (body : option node) : ServiceBlock :=
  match templatedIdentity body with
  | Some path => failed_block name "" (path +:+ " holds an entry identified by a template")
  | None =>
      match body with
      | None => failed_block name "" "the service body is not a mapping"
      | Some body =>
          if negb (is_kind MappingNode body) then failed_block name "" "the service body is not a mapping"
          else
            let ref := image_ref body in
            match renderCanonical body with
            | None => failed_block name ref "cannot render the service block"
            | Some canonical =>
                if str_contains canonical imageHeldOut
                then failed_block name ref "the block contains the string the image hold-out substitutes in"
                else match renderCanonical (reduced_tree body) with
                     | None => failed_block name ref "cannot render the service block"
                     | Some noImage => MkBlock name canonical (digestOf canonical) noImage (digestOf noImage) ref None
                     end
            end
      end
  end.

Definition top_block (key : string) (value : node) : TopLevelBlock :=
  match renderCanonical value with
  | Some c => MkTop key c (digestOf c) None
  | None => MkTop key "" "" (Some "cannot render the service block")
  end.
Definition topLevelBlocks (top : node) : list TopLevelBlock :=
  omap (fun kv => let key := n_Value kv.1 in
                  if String.eqb key "services" || has_prefix key "x-" then None else Some (top_block key kv.2))
    (pairs (n_Content top)).

(** ** What a baseline's side goes through *)

Context `{ComposeGo}.
Definition render_loaded (r : lresult node) : lresult string :=
  n ← r; of_option (renderCanonical n) (ELoad "cannot render the service block").
Definition CanonicalizeServiceBlock (drawn : option bytes) (name blockText : string) : lresult string :=
  render_loaded (loadServiceBlock drawn name blockText).
Definition canonicalizeTopLevel (drawn : option bytes) (key text : string) : lresult string :=
  render_loaded (loadTopLevelBlock drawn key text).
End blocks.

(** ** Lemmas *)

Definition held_mid : bytes := bytes_of "image-held-out".
Abbreviation held_mark := (mark "<" ">" held_mid).
Lemma held_mark_text : bytes_of imageHeldOut = held_mark.
Proof. reflexivity. Qed.

Definition elem_of_dec (c : ascii) (l : bytes) : bool := bool_decide (c ∈ l).

Lemma alg_chars l : algorithm l = true -> Forall (fun c => alnum c || alg_sep c = true) l.
Proof.
  remember (length l) as n eqn:En. revert l En. induction (lt_wf n) as [n _ IH]. intros l ->.
  destruct l as [|c [|d l]]; [done| |].
  - intros E. change (alnum c = true) in E. constructor; [by rewrite E|constructor].
  - intros E. change (alnum c && (if alg_sep d then algorithm l else algorithm (d :: l)) = true) in E.
    apply andb_true_iff in E as [Hc E]. constructor; [by rewrite Hc|].
    destruct (alg_sep d) eqn:Ed.
    + constructor; [by rewrite Ed, orb_true_r|]. eapply IH; [|done|done]. cbn. lia.
    + eapply IH; [|done|done]. cbn. lia.
Qed.

Lemma digest_apart digest : isDigestShaped digest = true -> apart "<" ">" held_mid (bytes_of digest).
Proof.
  unfold isDigestShaped. destruct (split_first ":" (bytes_of digest)) as [[alg hex]|] eqn:E; [|done].
  intros Hs. apply andb_true_iff in Hs as [Hs Hx]. apply andb_true_iff in Hs as [Ha _].
  apply alg_chars in Ha. rewrite forallb_forall in Hx.
  assert (bytes_of digest = alg ++ ":"%char :: hex) as ->.
  { clear -E. revert alg E. induction (bytes_of digest) as [|c l IH]; intros alg; cbn; [done|].
    destruct (Ascii.eqb_spec c ":") as [->|]; [by intros [= <- <-]|].
    destruct (split_first ":" l) as [[a b]|]; [|done]. intros [= <- <-]. cbn. f_equal. by apply IH. }
  assert (forall c, (c = "<"%char \/ c = ">"%char) -> c ∉ alg ++ ":"%char :: hex) as Hno.
  { intros c Hc Hin. apply elem_of_app in Hin as [Hin|Hin].
    - rewrite Forall_forall in Ha. apply Ha in Hin. by destruct Hc as [-> | ->].
    - apply elem_of_cons in Hin as [Hin|Hin]; [subst; by destruct Hc|].
      apply list_elem_of_In, Hx in Hin. by destruct Hc as [-> | ->]. }
  split.
  - by destruct alg.
  - apply Hno. by left.
  - apply Hno. by right.
  - intros (a & b & Em). assert (":"%char ∈ held_mid) as Hin.
    { rewrite Em. apply elem_of_app. right. apply elem_of_app. left. apply elem_of_app. right. by left. }
    revert Hin. apply (bool_decide_unpack _). exact I.
Qed.

Lemma ReplaceAll_bytes s old new :
  bytes_of (ReplaceAll s old new) = replace_bytes (bytes_of old) (bytes_of new) (bytes_of s).
Proof. unfold ReplaceAll. apply bytes_of_str_of. Qed.

Lemma bytes_nil s : bytes_of s = [] -> s = "".
Proof. by destruct s. Qed.

(** The needles of a reference: none, or the reference and its digest. *)
Lemma needles_cases ref : needles_of ref = [] \/
  exists digest, needles_of ref = [ref; digest] /\ bytes_of ref <> [] /\ isDigestShaped digest = true.
Proof.
  unfold needles_of. destruct (String.eqb_spec ref "") as [|Hne]; [by left|].
  destruct (SplitImageRef ref) as [[image tag] digest]. destruct (isDigestShaped digest) eqn:E; [|by left].
  right. exists digest. split_and!; [done| |done]. intros Hb. by apply bytes_nil in Hb.
Qed.

Lemma replace_needles_pair ref digest v : bytes_of ref <> [] -> isDigestShaped digest = true ->
  bytes_of (replace_needles [ref; digest] v)
  = replace_bytes (bytes_of digest) held_mark (replace_bytes (bytes_of ref) held_mark (bytes_of v)).
Proof.
  intros Hr Hd. pose proof (ap_nonempty _ _ _ _ (digest_apart _ Hd)) as Hne. unfold replace_needles. cbn [fold_left].
  assert (String.eqb ref "" = false) as -> by (apply String.eqb_neq; by intros ->).
  assert (String.eqb digest "" = false) as -> by (apply String.eqb_neq; by intros ->).
  rewrite !ReplaceAll_bytes. by rewrite held_mark_text.
Qed.

Definition identity_of (ref : string) : list bytes := map bytes_of (needles_of ref).

Lemma replace_needles_reduces ref v :
  reduces "<" ">" held_mid (identity_of ref) (bytes_of v) (bytes_of (replace_needles (needles_of ref) v)).
Proof.
  unfold identity_of. destruct (needles_cases ref) as [->|(digest & -> & Hr & Hd)].
  - exists (bytes_of v), []. unfold fill. cbn. by rewrite !app_nil_r.
  - rewrite replace_needles_pair by done. eapply reduces_weaken; [|apply reduces_again; [by apply digest_apart|by apply reduces_replace]].
    cbn. intros x. rewrite !elem_of_cons. tauto.
Qed.

(** ** Trees *)

Inductive scalar_of (v : string) : node -> Prop :=
| scalar_here t p c : scalar_of v (Node ScalarNode t v p c)
| scalar_under k t v' p c n : n ∈ c -> scalar_of v n -> scalar_of v (Node k t v' p c).

(** The trees [Node.Encode] makes: mappings, sequences and scalars, tagged as such. *)
Fixpoint well_tagged (n : node) : bool :=
  let 'Node kind tag value _ content := n in
  match kind with
  | ScalarNode => match content with [] => true | _ => false end
  | SequenceNode => String.eqb tag "!!seq" && String.eqb value "" && forallb well_tagged content
  | MappingNode => String.eqb tag "!!map" && String.eqb value "" && forallb well_tagged content
  | _ => false
  end.

(** What is used of yaml.v3: it renders different trees differently, and a scalar's text
    holding the placeholder, which no escape or fold of YAML's touches, shows in the text. *)
Class YamlLaws `{YamlLib} : Prop := {
  marshal_inj n1 n2 t : well_tagged n1 = true -> well_tagged n2 = true ->
    yaml_Marshal (normalize n1) = Some t -> yaml_Marshal (normalize n2) = Some t -> normalize n1 = normalize n2;
  marshal_shows n t v : well_tagged n = true -> yaml_Marshal (normalize n) = Some t ->
    scalar_of v n -> str_contains v imageHeldOut = true -> str_contains t imageHeldOut = true
}.

(** Two trees that agree but for scalars that are the same pieces around one of [h1] here
    and one of [h2] there. *)
Inductive differ_by (h1 h2 : list bytes) : node -> node -> Prop :=
| differ_node k t v1 v2 p c1 c2 :
    (if bool_decide (k = ScalarNode) then
       exists first r1 r2, bytes_of v1 = fill first r1 /\ bytes_of v2 = fill first r2 /\ map snd r1 = map snd r2 /\
         Forall (fun hl => hl.1 ∈ h1) r1 /\ Forall (fun hl => hl.1 ∈ h2) r2
     else v1 = v2) ->
    Forall2 (differ_by h1 h2) c1 c2 -> differ_by h1 h2 (Node k t v1 p c1) (Node k t v2 p c2).

Definition mark_free (n : node) : Prop := forall v, scalar_of v n -> str_contains v imageHeldOut = false.

Lemma str_contains_occurs s sub : str_contains s sub = true <-> occurs (bytes_of sub) (bytes_of s).
Proof.
  unfold str_contains. destruct (cut_sub _ _) as [[a b]|] eqn:E.
  - split; [|done]. intros _. exists a, b. by apply cut_sub_some.
  - split; [done|]. by apply cut_sub_none in E.
Qed.

Lemma mark_free_content k t v p c n : mark_free (Node k t v p c) -> n ∈ c -> mark_free n.
Proof. intros Hm Hn v' Hv. apply Hm. by eapply scalar_under. Qed.

Lemma replaceScalars_differ ref1 ref2 n1 n2 : mark_free n1 -> mark_free n2 ->
  replaceScalars (needles_of ref1) n1 = replaceScalars (needles_of ref2) n2 ->
  differ_by (identity_of ref1) (identity_of ref2) n1 n2.
Proof.
  revert n2. induction n1 as [k t v1 p c1 IH] using node_ind'. intros [k2 t2 v2 p2 c2] H1 H2 E.
  cbn in E. injection E as -> -> Ev -> Ec. constructor.
  - case_bool_decide as Hk; [|done]. subst k2.
    assert (forall v p c t, mark_free (Node ScalarNode t v p c) -> ~ occurs held_mark (bytes_of v)) as Hfree.
    { intros v p c t Hm Ho. assert (str_contains v imageHeldOut = false) as Hc by (apply Hm; constructor).
      rewrite <-held_mark_text in Ho. apply str_contains_occurs in Ho. congruence. }
    apply (reduces_same "<" ">" held_mid) with (out := bytes_of (replace_needles (needles_of ref1) v1)).
    + apply (bool_decide_unpack _). exact I.
    + apply (bool_decide_unpack _). exact I.
    + by eapply Hfree.
    + by eapply Hfree.
    + apply replace_needles_reduces.
    + rewrite Ev. apply replace_needles_reduces.
  - assert (forall n, n ∈ c1 -> mark_free n) as Hc1 by (intros n; by eapply mark_free_content).
    assert (forall n, n ∈ c2 -> mark_free n) as Hc2 by (intros n; by eapply mark_free_content).
    clear -IH Ec Hc1 Hc2. revert c2 Ec Hc2. induction IH as [|n c1 Hn _ IH]; intros [|n2 c2] Ec Hc2; try done.
    injection Ec as En Ec. constructor.
    + apply Hn; [apply Hc1; by left|apply Hc2; by left|done].
    + apply IH; try done; intros m Hm; first [apply Hc1; by right|apply Hc2; by right].
Qed.

Lemma normalize_idem n : normalize (normalize n) = normalize n.
Proof.
  induction n as [k t v p c IH] using node_ind'. cbn. f_equal. rewrite map_map. apply map_ext_Forall. exact IH.
Qed.

Lemma well_tagged_normalize n : well_tagged (normalize n) = well_tagged n.
Proof.
  induction n as [k t v p c IH] using node_ind'. cbn. destruct k; try done.
  - f_equal. induction IH as [|n c Hn _ IHc]; [done|]. cbn. by rewrite Hn, IHc.
  - f_equal. induction IH as [|n c Hn _ IHc]; [done|]. cbn. by rewrite Hn, IHc.
  - by destruct c.
Qed.

Lemma forallb_pairs_remove f key l : forallb f l = true -> forallb f (remove_pairs key l) = true.
Proof.
  remember (length l) as n eqn:En. revert l En. induction (lt_wf n) as [n _ IH]. intros l ->.
  destruct l as [|k [|v l]]; [done|done|]. cbn. intros E. apply andb_true_iff in E as [Hk E]. apply andb_true_iff in E as [Hv E].
  assert (forallb f (remove_pairs key l) = true) by (eapply IH; [|done|done]; cbn; lia).
  destruct (String.eqb _ _); [done|]. cbn. by rewrite Hk, Hv.
Qed.

Lemma remove_pairs_subset key l : remove_pairs key l ⊆ l.
Proof.
  remember (length l) as n eqn:En. revert l En. induction (lt_wf n) as [n _ IH]. intros l ->.
  destruct l as [|k [|v l]]; [done|done|]. cbn.
  assert (remove_pairs key l ⊆ l) as Hs by (eapply IH; [|done]; cbn; lia).
  intros x Hx. destruct (String.eqb _ _); rewrite !elem_of_cons in *; [right; right; by apply Hs|].
  destruct Hx as [?|[?|?]]; auto.
Qed.

Lemma well_tagged_removeKey n key : well_tagged n = true -> well_tagged (removeKey n key) = true.
Proof.
  destruct n as [k t v p c]. cbn. case_bool_decide as Hk; [|done]. subst k. cbn. rewrite !andb_true_iff. intros [[? ?] E].
  split; [done|]. by apply forallb_pairs_remove.
Qed.

Lemma well_tagged_replace needles n : well_tagged n = true -> well_tagged (replaceScalars needles n) = true.
Proof.
  induction n as [k t v p c IH] using node_ind'. cbn. destruct k; try done.
  - rewrite !andb_true_iff. intros [Ht E]. split; [done|]. clear Ht. induction IH as [|n c Hn _ IHc]; [done|]. cbn in *.
    apply andb_true_iff in E as [E1 E2]. by rewrite Hn, IHc.
  - rewrite !andb_true_iff. intros [Ht E]. split; [done|]. clear Ht. induction IH as [|n c Hn _ IHc]; [done|]. cbn in *.
    apply andb_true_iff in E as [E1 E2]. by rewrite Hn, IHc.
  - by destruct c.
Qed.

Lemma scalar_removeKey v n key : scalar_of v (removeKey n key) -> scalar_of v n.
Proof.
  destruct n as [k t v' p c]. cbn. case_bool_decide as Hk; [|done]. subst k. intros Hs.
  inversion Hs as [|? ? ? ? ? m Hm Hv]; subst. eapply scalar_under; [|done]. by eapply remove_pairs_subset.
Qed.

Lemma scalar_normalize v n : scalar_of v (normalize n) -> scalar_of v n.
Proof.
  induction n as [k t v' p c IH] using node_ind'. cbn. intros Hs. inversion Hs as [|? ? ? ? ? m Hm Hv]; subst; [constructor|].
  apply list_elem_of_In, in_map_iff in Hm as (m' & <- & Hm). apply list_elem_of_In in Hm.
  eapply scalar_under; [done|]. rewrite Forall_forall in IH. by apply IH.
Qed.

Lemma normalize_replace needles n : normalize (replaceScalars needles n) = replaceScalars needles (normalize n).
Proof.
  induction n as [k t v p c IH] using node_ind'. cbn. f_equal. rewrite !map_map. by apply map_ext_Forall.
Qed.

Lemma strip_replace n ref : stripImageIdentity n ref = replaceScalars (needles_of ref) n.
Proof.
  unfold stripImageIdentity. destruct (needles_of ref); [|done]. symmetry.
  induction n as [k t v p c IH] using node_ind'. cbn. f_equal; [by case_bool_decide|].
  rewrite <-(map_id c) at 2. by apply map_ext_Forall.
Qed.

Lemma normalize_removeKey n key : normalize (removeKey n key) = removeKey (normalize n) key.
Proof.
  destruct n as [k t v p c]. cbn. case_bool_decide; [|done]. cbn. f_equal. clear.
  remember (length c) as n eqn:En. revert c En. induction (lt_wf n) as [n _ IH]. intros c ->.
  destruct c as [|[k1 t1 v1 p1 c1] [|v l]]; [done|done|]. cbn.
  assert (map normalize (remove_pairs key l) = remove_pairs key (map normalize l)) as E by (eapply IH; [|done]; cbn; lia).
  destruct (String.eqb _ _); [done|]. cbn. by rewrite E.
Qed.

(** ** The hold-out *)

Section holdout.
Context `{YL : YamlLib} {LAWS : YamlLaws}.

Lemma blockOf_inv name body : Pinnable (blockOf name (Some body)) = true ->
  exists canonical noImage, n_Kind body = MappingNode /\ renderCanonical body = Some canonical /\
    str_contains canonical imageHeldOut = false /\ renderCanonical (reduced_tree body) = Some noImage /\
    blockOf name (Some body)
    = MkBlock name canonical (digestOf canonical) noImage (digestOf noImage) (image_ref body) None.
Proof.
  unfold blockOf. destruct (templatedIdentity _); [done|]. destruct (is_kind MappingNode body) eqn:Ek; [|done].
  apply is_kind_true in Ek. cbn [negb]. destruct (renderCanonical body) as [canonical|]; [|done].
  destruct (str_contains canonical imageHeldOut) eqn:Ec; [done|].
  destruct (renderCanonical (reduced_tree body)) as [noImage|]; [|done]. intros _. exists canonical, noImage. by split_and!.
Qed.

(** A pinnable body has the placeholder nowhere. *)
Lemma pinnable_mark_free name body : well_tagged body = true -> Pinnable (blockOf name (Some body)) = true ->
  mark_free body.
Proof.
  intros Hw Hp v Hv. apply blockOf_inv in Hp as (canonical & _ & _ & Hr & Hc & _).
  destruct (str_contains v imageHeldOut) eqn:E; [|done]. by rewrite (marshal_shows _ _ _ Hw Hr Hv E) in Hc.
Qed.

Definition body_without_image (body : node) : node := removeKey (normalize body) "image".

Lemma reduced_tree_eq body :
  reduced_tree body = replaceScalars (needles_of (image_ref body)) (body_without_image body).
Proof. unfold reduced_tree. by rewrite strip_replace. Qed.

Lemma reduced_normal body : normalize (reduced_tree body) = reduced_tree body.
Proof.
  rewrite reduced_tree_eq, normalize_replace. unfold body_without_image.
  by rewrite normalize_removeKey, normalize_idem.
Qed.

(** The image hold-out loses nothing but the image. When two services reduce to one
    text with their images held out, their bodies without the [image] key are the same
    tree, scalar by scalar, except that where the one has its own image reference or
    digest the other may have its own: the same pieces of text around them. So what a
    baseline recorded with the image held out matches, differs from what was recorded in
    the image alone. *)
Theorem holdout_sound name1 name2 body1 body2 :
  well_tagged body1 = true -> well_tagged body2 = true ->
  Pinnable (blockOf name1 (Some body1)) = true -> Pinnable (blockOf name2 (Some body2)) = true ->
  sb_CanonicalNoImage (blockOf name1 (Some body1)) = sb_CanonicalNoImage (blockOf name2 (Some body2)) ->
  differ_by (identity_of (image_ref body1)) (identity_of (image_ref body2))
    (body_without_image body1) (body_without_image body2).
Proof.
  intros Hw1 Hw2 Hp1 Hp2 E.
  pose proof (pinnable_mark_free _ _ Hw1 Hp1) as Hm1. pose proof (pinnable_mark_free _ _ Hw2 Hp2) as Hm2.
  apply blockOf_inv in Hp1 as (c1 & t1 & _ & _ & _ & Hr1 & E1). apply blockOf_inv in Hp2 as (c2 & t2 & _ & _ & _ & Hr2 & E2).
  rewrite E1, E2 in E. cbn in E. subst t2. unfold renderCanonical in Hr1, Hr2.
  assert (forall b, well_tagged b = true -> well_tagged (reduced_tree b) = true) as Hw.
  { intros b Hb. rewrite reduced_tree_eq. apply well_tagged_replace, well_tagged_removeKey. by rewrite well_tagged_normalize. }
  pose proof (marshal_inj _ _ _ (Hw _ Hw1) (Hw _ Hw2) Hr1 Hr2) as Et.
  rewrite !reduced_normal, !reduced_tree_eq in Et. apply replaceScalars_differ; [..|done].
  - intros v Hv. apply Hm1. by apply scalar_normalize, (scalar_removeKey _ _ "image").
  - intros v Hv. apply Hm2. by apply scalar_normalize, (scalar_removeKey _ _ "image").
Qed.

Lemma scalar_replaced needles n v : scalar_of v (replaceScalars needles n) -> exists v', v = replace_needles needles v'.
Proof.
  induction n as [k t v' p c IH] using node_ind'. cbn. intros Hs. inversion Hs as [t' p' c' Ek|? ? ? ? ? m Hm Hv]; subst.
  - exists v'. by rewrite bool_decide_eq_true_2.
  - apply list_elem_of_In, in_map_iff in Hm as (m' & <- & Hm). apply list_elem_of_In in Hm.
    rewrite Forall_forall in IH. by eapply IH.
Qed.

(** What is recorded does not move with the image: no scalar of the reduced form has the
    digest in it, so neither a second pass nor another release finds anything to change. *)
Lemma holdout_clean body v image tag digest :
  SplitImageRef (image_ref body) = (image, tag, digest) -> isDigestShaped digest = true ->
  scalar_of v (reduced_tree body) -> str_contains v digest = false.
Proof.
  intros Es Hd Hv. rewrite reduced_tree_eq in Hv. apply scalar_replaced in Hv as [v' ->].
  destruct (str_contains _ _) eqn:E; [|done]. exfalso. apply str_contains_occurs in E.
  assert (needles_of (image_ref body) = [image_ref body; digest]) as En.
  { unfold needles_of. rewrite Es, Hd. destruct (String.eqb_spec (image_ref body) "") as [E0|]; [|done].
    rewrite E0 in Es. injection Es as <- <- <-. done. }
  destruct (needles_cases (image_ref body)) as [E0|(d & E2 & Hr & _)]; [congruence|].
  rewrite En, replace_needles_pair in E by done.
  by apply (replaced_free "<" ">" held_mid _ _ (digest_apart _ Hd)) in E.
Qed.
End holdout.

(** ** Witnesses *)

Module BlockWitness.

(** A rendering with the laws: every text behind its length. *)
Definition net (s : string) : bytes := repeat "1"%char (String.length s) ++ ":"%char :: bytes_of s.
Fixpoint render (n : node) : bytes :=
  let 'Node kind tag value _ content := n in
  match kind with
  | ScalarNode => "s"%char :: net tag ++ net value
  | SequenceNode => "["%char :: concat (map render content) ++ ["]"%char]
  | MappingNode => "{"%char :: concat (map render content) ++ ["]"%char]
  | _ => ["?"%char]
  end.

Lemma net_inj s1 s2 r1 r2 : net s1 ++ r1 = net s2 ++ r2 -> s1 = s2 /\ r1 = r2.
Proof.
  unfold net. rewrite <-!(assoc_L (++)). cbn. intros E.
  assert (forall n1 n2 x y, repeat "1"%char n1 ++ ":"%char :: x = repeat "1"%char n2 ++ ":"%char :: y -> n1 = n2 /\ x = y) as Hn.
  { induction n1 as [|n1 IH]; intros [|n2] x y; cbn; try done; [by intros [= ->]|].
    intros [= Ex]. apply IH in Ex as [-> ->]. done. }
  apply Hn in E as [El E]. assert (length (bytes_of s1) = length (bytes_of s2)) as Eb.
  { assert (forall s, length (bytes_of s) = String.length s) as Hl by (induction s; cbn; auto). by rewrite !Hl. }
  apply app_inj_1 in E as [Eb' ->]; [|done]. split; [|done]. by rewrite <-(str_of_bytes_of s1), Eb', str_of_bytes_of.
Qed.

Lemma render_head n : well_tagged n = true -> exists c l, render n = c :: l /\ c <> "]"%char.
Proof. destruct n as [[] t v p c]; cbn; try done; intros _; by eexists _, _. Qed.

Lemma render_inj n1 n2 r1 r2 : well_tagged n1 = true -> well_tagged n2 = true ->
  render n1 ++ r1 = render n2 ++ r2 -> normalize n1 = normalize n2 /\ r1 = r2.
Proof.
  revert n2 r1 r2. induction n1 as [k1 t1 v1 p1 c1 IH] using node_ind'.
  assert (forall c2 r1 r2, forallb well_tagged c1 = true -> forallb well_tagged c2 = true ->
    (concat (map render c1) ++ ["]"%char]) ++ r1 = (concat (map render c2) ++ ["]"%char]) ++ r2 ->
    map normalize c1 = map normalize c2 /\ r1 = r2) as Hl.
  { induction IH as [|n c1 Hn _ IHc]; intros [|n2 c2] r1 r2 H1 H2; cbn in H1, H2 |- *; rewrite ?andb_true_iff in *.
    - by intros [= ->].
    - destruct (render_head n2) as (c & l & -> & Hc); [tauto|]. cbn. intros [= Ec _]. by destruct Hc.
    - destruct (render_head n) as (c & l & -> & Hc); [tauto|]. cbn. intros [= Ec _]. by destruct Hc.
    - rewrite <-!(assoc_L (++)). intros E. apply Hn in E as [-> E]; [|tauto..]. 
      rewrite !(assoc_L (++)) in E. apply IHc in E as [-> ->]; [done|tauto..]. }
  intros [k2 t2 v2 p2 c2] r1 r2. destruct k1, k2; cbn; try done; rewrite ?andb_true_iff, ?String.eqb_eq.
  - intros [[-> ->] Hc1] [[-> ->] Hc2] [= E]. apply Hl in E as [-> ->]; done.
  - intros [[-> ->] Hc1] [[-> ->] Hc2] [= E]. apply Hl in E as [-> ->]; done.
  - destruct c1, c2; try done. intros _ _ [= E]. rewrite <-!(assoc_L (++)) in E.
    apply net_inj in E as [-> E]. apply net_inj in E as [-> ->]. done.
Qed.

Lemma render_shows n v : scalar_of v n -> well_tagged n = true -> occurs (bytes_of v) (render n).
Proof.
  intros Hs. induction Hs as [t p c|k t v' p c n Hn Hs IH]; intros Hw.
  - cbn. exists ("s"%char :: net t ++ repeat "1"%char (String.length v) ++ [":"%char]), []. unfold net at 2.
    rewrite app_nil_r. cbn. by rewrite <-!(assoc_L (++)).
  - assert (forallb well_tagged c = true -> occurs (bytes_of v) (concat (map render c) ++ ["]"%char])) as Hc.
    { intros Hf. apply occurs_app_l. apply list_elem_of_split in Hn as (a & b & ->). rewrite map_app, concat_app. cbn.
      apply occurs_app_r, occurs_app_l, IH. rewrite forallb_forall in Hf. apply Hf, in_app_iff. right. by left. }
    destruct k; cbn in Hw |- *; rewrite ?andb_true_iff in Hw; try done.
    + apply (occurs_app_r _ ["["%char]). apply Hc. tauto.
    + apply (occurs_app_r _ ["{"%char]). apply Hc. tauto.
    + destruct c; [by apply elem_of_nil in Hn|done].
Qed.

Fixpoint encode (v : any) : node :=
  match v with
  | ANull | ANilList => Node ScalarNode "!!null" "null" plain []
  | ABool b => Node ScalarNode "!!bool" (if b then "true" else "false") plain []
  | AInt z => Node ScalarNode "!!int" (str_of (itoa z)) plain []
  | AFloat r => Node ScalarNode "!!float" r plain []
  | AStr s => Node ScalarNode "!!str" s plain []
  | AList l => Node SequenceNode "!!seq" "" plain (map encode l)
  | AMap m => Node MappingNode "!!map" "" plain (concat (map (fun kv => [Node ScalarNode "!!str" kv.1 plain []; encode kv.2]) m))
  end.
Definition bool_of (n : node) : option bool :=
  if String.eqb (n_Value n) "true" then Some true
  else if String.eqb (n_Value n) "false" || String.eqb (n_Tag n) "!!null" then Some false else None.

#[export] Instance yaml : YamlLib := {|
  yaml_Unmarshal := fun _ => None;
  yaml_Documents := fun _ => ([], true);
  yaml_Marshal := fun n => Some (str_of (render n));
  yaml_Encode := fun v => Some (encode v);
  yaml_Bool := bool_of
|}.

#[export] Instance yaml_laws : YamlLaws.
Proof.
  split.
  - intros n1 n2 t H1 H2 [= E1] [= E2]. rewrite <-E2 in E1. apply (f_equal bytes_of) in E1. rewrite !bytes_of_str_of in E1.
    rewrite <-(app_nil_r (render (normalize n1))), <-(app_nil_r (render (normalize n2))) in E1.
    apply render_inj in E1 as [E _]; rewrite ?well_tagged_normalize; try done. by rewrite !normalize_idem in E.
  - intros n t v Hw [= <-] Hv Hc. apply str_contains_occurs. rewrite bytes_of_str_of. apply str_contains_occurs in Hc.
    eapply occurs_trans; [done|]. apply render_shows; [|by rewrite well_tagged_normalize].
    clear -Hv. induction Hv as [t p c|k t v' p c n Hn Hs IH]; cbn; [constructor|].
    eapply scalar_under; [|done]. apply list_elem_of_In, in_map, list_elem_of_In. done.
Qed.

(** A broker service that copies its digest into the environment, at two releases. *)
Definition digest_of (c : ascii) : string := "sha256:" +:+ str_of (repeat c 64).
Definition broker_body (c : ascii) : node := encode (AMap
  [("image", AStr ("ghcr.io/0gfoundation/broker@" +:+ digest_of c));
   ("environment", AMap [("IMAGE_REPO", AStr "ghcr.io/0gfoundation/broker"); ("IMAGE_DIGEST", AStr (digest_of c))])]).

Lemma holdout_sound_witness :
  sb_CanonicalNoImage (blockOf "broker" (Some (broker_body "a"))) = sb_CanonicalNoImage (blockOf "broker" (Some (broker_body "b"))) /\
  sb_Canonical (blockOf "broker" (Some (broker_body "a"))) <> sb_Canonical (blockOf "broker" (Some (broker_body "b"))) /\
  differ_by (identity_of (image_ref (broker_body "a"))) (identity_of (image_ref (broker_body "b")))
    (body_without_image (broker_body "a")) (body_without_image (broker_body "b")).
Proof.
  assert (Eq : sb_CanonicalNoImage (blockOf "broker" (Some (broker_body "a"))) = sb_CanonicalNoImage (blockOf "broker" (Some (broker_body "b"))))
    by (vm_compute; reflexivity).
  split; [exact Eq|split; [vm_compute; discriminate|]].
  apply (holdout_sound "broker" "broker"); [vm_compute; reflexivity..|exact Eq].
Defined.
End BlockWitness.
