(* ===== verification/Review.v ===== *)
(** * Review: what a manifest asks for ([client/evidence/compose/composereview.go], [composecontroller.go])

    The review of an authenticated app-compose: rules over its fields, its top-level
    sections, its services and their mounts, each adding findings, and the one exception
    made for 0G's own controller. Findings are threaded through the rules in the order the
    code adds them, since the exception finds the ones it may lower by their place. A
    finding's detail is its opening words with the values it names, not the whole sentence.

    The theorems: a mount of the container runtime's socket stays blocking unless the
    service meets every condition of the exception; no key of a service passes without a
    rule, a table or a finding; what is present and cannot be read is reported; how a path
    is spelled changes no verdict. *)

From S2P Require Import Prelude GoBytes GoHash GoJson GoDecode GoUrl GoText Attest Runtime Boot Yaml Load Block.

(** ** Findings *)

Inductive Severity := SeverityNote | SeverityJustify | SeverityBlocking.
#[export] Instance Severity_eq_dec : EqDecision Severity.
Proof. solve_decision. Defined.
Definition sev_rank (s : Severity) : nat :=
  match s with SeverityNote => 1 | SeverityJustify => 2 | SeverityBlocking => 3 end.

Record Finding := MkFinding { f_Severity : Severity; f_Service : string; f_Key : string; f_Detail : string }.
Definition add (s : Severity) (service key detail : string) (fs : list Finding) : list Finding :=
  fs ++ [MkFinding s service key detail].
Definition add_if (b : bool) (s : Severity) (service key detail : string) (fs : list Finding) : list Finding :=
  if b then add s service key detail fs else fs.

(** [sortFindings]: most severe first, then by service, key and detail. *)
Definition str_lt (a b : string) : bool := String.ltb a b.
Definition finding_le (a b : Finding) : Prop :=
  (if negb (Nat.eqb (sev_rank (f_Severity a)) (sev_rank (f_Severity b))) then Nat.ltb (sev_rank (f_Severity b)) (sev_rank (f_Severity a))
   else if negb (String.eqb (f_Service a) (f_Service b)) then str_lt (f_Service a) (f_Service b)
   else if negb (String.eqb (f_Key a) (f_Key b)) then str_lt (f_Key a) (f_Key b)
   else String.leb (f_Detail a) (f_Detail b)) = true.
#[export] Instance finding_le_dec : RelDecision finding_le.
Proof. intros a b. unfold finding_le. apply _. Defined.
Definition sortFindings (fs : list Finding) : list Finding := merge_sort finding_le fs.

(** ** Services and the review *)

Record ReviewedService := MkReviewed {
  rs_Name : string; rs_Ref : string; rs_Image : string; rs_Tag : string; rs_Digest : string; rs_Origin : ImageOrigin
}.
Definition Pinned (s : ReviewedService) : bool := isDigestShaped (rs_Digest s).

Record ComposeReview := MkReview {
  cr_Name : string; cr_Runner : string;
  cr_Features : list string; cr_AllowedEnvs : list string; cr_FeaturesUnreadable : bool;
  cr_Fields : list string;
  cr_PreLaunchBytes : nat; cr_PreLaunchSHA256 : string;
  cr_Services : list ReviewedService; cr_Blocks : list ServiceBlock;
  cr_LoadErr : option loadErr;
  cr_TopLevel : list TopLevelBlock;
  cr_Findings : list Finding
}.
Definition Count (r : ComposeReview) (s : Severity) : nat :=
  length (List.filter (fun f => bool_decide (f_Severity f = s)) (cr_Findings r)).
Definition Summary (r : ComposeReview) : string :=
  let n s := str_of (itoa (Z.of_nat (Count r s))) in
  n SeverityBlocking +:+ " blocking, " +:+ n SeverityJustify +:+ " to justify, " +:+ n SeverityNote +:+ " notes".

(** ** The app-compose's fields *)

(** A member's text in the place of its value: what a [json.RawMessage] holds. *)
Definition raw_text (n : nat) (l : bytes) : option (json * bytes) :=
  '(_, r) ← pval n l; let l := skip_ws l in Some (JStr (firstn (length l - length r) l), r).
Definition raw_of (j : json) : bytes := match j with JStr t => t | _ => [] end.

(** [json.Unmarshal] into a [map[string]json.RawMessage]: every value's own text. *)
Definition raw_fields (raw : bytes) : result jerr (gmap string bytes) :=
  match parse raw with
  | None => Err JSyntax
  | Some JNull => Ok ∅
  | Some (JObj []) => Ok ∅
  | Some (JObj _) =>
      match skip_ws raw with
      | _ :: r => match pmembers (raw_text (length raw)) (S (length raw)) r with
                  | Some (ms, _) => Ok (raw_of <$> members_map ms)
                  | None => Err JSyntax
                  end
      | [] => Err JSyntax
      end
  | Some _ => Err JType
  end.

Definition raw_field (fields : gmap string bytes) (key : string) : bytes := default [] (fields !! key).
Definition raw_absent (raw : bytes) : bool := bool_decide (raw = []) || bool_decide (raw = bytes_of "null").
Definition json_read {A} (zero : A) (dec : json -> result jerr A) (raw : bytes) : option A :=
  if raw_absent raw then Some zero
  else match unmarshal dec raw with Ok a => Some a | Err _ => None end.
(** Present and of another type is [None]; absent is the zero value. *)
Definition jsonString : bytes -> option string := json_read "" unmarshal_string.
Definition jsonStrings : bytes -> option (list string) := json_read [] unmarshal_strings.
Definition jsonBool : bytes -> option bool := json_read false (set_bool false).

Definition knownAppComposeFields : list string :=
  ["allowed_envs"; "bash_script"; "docker_compose_file"; "docker_config"; "features"; "gateway_enabled";
   "host_api_enabled"; "key_provider"; "key_provider_id"; "kms_enabled"; "local_key_provider_enabled";
   "manifest_version"; "name"; "no_instance_id"; "pre_launch_script"; "public_logs"; "public_sysinfo";
   "public_tcbinfo"; "runner"; "secure_time"; "storage_fs"; "tproxy_enabled"].
Definition rootAccessEnvs : list string := ["DSTACK_AUTHORIZED_KEYS"; "DSTACK_ROOT_PASSWORD"; "DSTACK_ROOT_PUBLIC_KEY"].

(** [flag]: an unreadable value is reported and reads as off. *)
Definition flag (fields : gmap string bytes) (key : string) (sev : Severity) (fs : list Finding) : bool * list Finding :=
  match jsonBool (raw_field fields key) with
  | Some v => (v, fs)
  | None => (false, add sev "" key "the value is not a boolean, so it could not be read; treat it as set" fs)
  end.

(** A rule that fires on true. *)
Definition flag_rule (fields : gmap string bytes) (key : string) (sev : Severity) (detail : string) (fs : list Finding) : list Finding :=
  let '(on, fs) := flag fields key sev fs in add_if on sev "" key detail fs.

(** A rule that fires on false: it reads the three states itself. *)
Definition off_rule (fields : gmap string bytes) (key detail : string) (fs : list Finding) : list Finding :=
  match jsonBool (raw_field fields key) with
  | None => add SeverityNote "" key "the value is not a boolean, so it could not be read" fs
  | Some v => add_if (has_key fields key && negb v) SeverityNote "" key detail fs
  end.

Definition unknown_fields (names : list string) (fs : list Finding) : list Finding :=
  fold_left (fun fs k => add_if (negb (contains knownAppComposeFields k)) SeverityJustify "" k
    "this review has no rule for the field" fs) names fs.

Definition runner_rule (fields : gmap string bytes) (fs : list Finding) : list Finding :=
  match jsonString (raw_field fields "runner") with
  | None => add SeverityBlocking "" "runner" "runner is not a string, so it could not be read" fs
  | Some runner =>
      if String.eqb runner "docker-compose" then fs
      else if String.eqb runner "" then add SeverityBlocking "" "runner" "runner is not set" fs
      else add SeverityBlocking "" "runner" ("runner is " +:+ runner) fs
  end.

Definition features_rule (fields : gmap string bytes) (fs : list Finding) : list Finding :=
  match jsonStrings (raw_field fields "features") with
  | Some _ => fs
  | None => add SeverityJustify "" "features" "features is not a list of strings" fs
  end.

Definition envs_rule (fields : gmap string bytes) (fs : list Finding) : list Finding :=
  match jsonStrings (raw_field fields "allowed_envs") with
  | None => add SeverityBlocking "" "allowed_envs" "allowed_envs is not a list of strings" fs
  | Some [] => fs
  | Some envs =>
      fold_left (fun fs e => add_if (contains rootAccessEnvs (to_upper (trim_space e))) SeverityBlocking "" "allowed_envs"
          (e +:+ " lets the untrusted host place a credential for interactive root access inside the CVM at boot") fs)
        envs (add SeverityNote "" "allowed_envs" ("the host may inject " +:+ String.concat ", " envs) fs)
  end.

Definition kms_rule (fields : gmap string bytes) (fs : list Finding) : list Finding :=
  let '(on, fs) := flag fields "kms_enabled" SeverityJustify fs in
  if negb on then fs
  else
    let kp := match jsonString (raw_field fields "key_provider") with
              | Some kp => if String.eqb kp "" then "kms" else kp
              | None => "unreadable"
              end in
    let id := match jsonString (raw_field fields "key_provider_id") with
              | None => ", id unreadable"
              | Some id => if String.eqb id "" then "" else ", id " +:+ id
              end in
    add SeverityJustify "" "kms_enabled" ("keys come from an external key provider (" +:+ kp +:+ id +:+ ")") fs.

Definition docker_config_rule (fields : gmap string bytes) (fs : list Finding) : list Finding :=
  let raw := raw_field fields "docker_config" in
  add_if (negb (bool_decide (raw = [])) && negb (bool_decide (raw = bytes_of "null")) && negb (bool_decide (raw = bytes_of "{}")))
    SeverityNote "" "docker_config" "images are pulled with registry credentials carried in the manifest" fs.

Definition nonblank (s : string) : bool := negb (String.eqb (trim_space s) "").
(** [pre_launch_script]'s length and digest: zero and empty when there is none to read. *)
Definition pre_launch (fields : gmap string bytes) : nat * string :=
  match jsonString (raw_field fields "pre_launch_script") with
  | Some s => if nonblank s then (String.length s, digestOf s) else (0%nat, "")
  | None => (0%nat, "")
  end.
Definition pre_launch_rule (fields : gmap string bytes) (fs : list Finding) : list Finding :=
  match jsonString (raw_field fields "pre_launch_script") with
  | None => add SeverityJustify "" "pre_launch_script" "pre_launch_script is present but is not a string" fs
  | Some s => add_if (nonblank s) SeverityJustify "" "pre_launch_script"
                (str_of (itoa (Z.of_nat (String.length s))) +:+ " bytes, sha256 " +:+ digestOf s) fs
  end.
Definition bash_script_rule (fields : gmap string bytes) (fs : list Finding) : list Finding :=
  add_if (match jsonString (raw_field fields "bash_script") with None => true | Some s => nonblank s end)
    SeverityBlocking "" "bash_script" "the manifest runs a bare shell script" fs.

Definition reviewAppComposeFields (names : list string) (fields : gmap string bytes) (fs : list Finding) : list Finding :=
  let fs := unknown_fields names fs in
  let fs := runner_rule fields fs in
  let fs := features_rule fields fs in
  let fs := envs_rule fields fs in
  let fs := kms_rule fields fs in
  let fs := flag_rule fields "local_key_provider_enabled" SeverityNote "keys are derived inside the CVM instead of from a KMS" fs in
  let fs := flag_rule fields "public_logs" SeverityJustify "container logs are readable from outside the CVM" fs in
  let fs := flag_rule fields "public_sysinfo" SeverityNote "host and CVM system info is readable from outside" fs in
  let fs := off_rule fields "public_tcbinfo" "the CVM does not publish tcb_info" fs in
  let fs := off_rule fields "secure_time" "the guest clock is the untrusted host's" fs in
  let fs := docker_config_rule fields fs in
  let fs := flag_rule fields "host_api_enabled" SeverityJustify "the host-API channel is on" fs in
  let fs := pre_launch_rule fields fs in
  bash_script_rule fields fs.

(** ** Templates ([firstInterpolated], [interpolatedEntries]) *)

Definition join_key (at_ key : string) : string := if String.eqb at_ "" then key else at_ +:+ "." +:+ key.
Definition index_text (i : nat) : string := "[" +:+ str_of (itoa (Z.of_nat i)) +:+ "]".

(** The path of the first key or scalar holding a template. *)
Fixpoint firstInterpolated (n : node) (at_ : string) : option string :=
  let 'Node kind _ value _ content := n in
  let fix members (l : list node) : option string :=
    match l with
    | [] => None
    | k :: l =>
        if has_dollar (n_Value k) then Some (join_key at_ (n_Value k))
        else match l with
             | [] => None
             | v :: l => match firstInterpolated v (join_key at_ (n_Value k)) with Some p => Some p | None => members l end
             end
    end in
  let fix items (i : nat) (l : list node) : option string :=
    match l with
    | [] => None
    | c :: l => match firstInterpolated c (at_ +:+ index_text i) with Some p => Some p | None => items (S i) l end
    end in
  let fix others (l : list node) : option string :=
    match l with
    | [] => None
    | c :: l => match firstInterpolated c at_ with Some p => Some p | None => others l end
    end in
  match kind with
  | ScalarNode => if has_dollar value then Some at_ else None
  | MappingNode => members content
  | SequenceNode => items 0%nat content
  | _ => others content
  end.
Definition interpolated_at (n : option node) (at_ : string) : option string := n ← n; firstInterpolated n at_.
Definition interpolated (n : node) : bool := match firstInterpolated n "" with Some _ => true | None => false end.

Definition interpolatedEntries (n : option node) : list string :=
  match n with
  | Some n => if is_kind MappingNode n
              then omap (fun kv => if interpolated kv.2 || has_dollar (n_Value kv.1) then Some (n_Value kv.1) else None)
                     (pairs (n_Content n))
              else []
  | None => []
  end.

(** ** Host paths ([hostPathVerdict]) *)

Definition guestAgentSockets : list string :=
  ["/var/run/dstack.sock"; "/var/run/tappd.sock"; "/run/dstack.sock"; "/run/tappd.sock"].
Definition dockerSockets : list string :=
  ["/var/run/docker.sock"; "/run/docker.sock"; "/var/run/containerd/containerd.sock"].
Definition runtimeDockerSockets : list string := ["/var/run/docker.sock"; "/run/docker.sock"].
Definition blockingHostPrefixes : list string :=
  ["/proc"; "/sys"; "/dev"; "/etc"; "/boot"; "/root"; "/home"; "/usr"; "/bin"; "/sbin";
   "/lib"; "/lib64"; "/var/lib/docker"; "/var/lib/containerd"; "/var/log"].
Definition blockingHostExact : list string := ["/"; "/var"; "/var/run"; "/run"; "/var/lib"].

Definition hasPrefixPath (p : string) (prefixes : list string) : bool :=
  existsb (fun pre => String.eqb p pre || has_prefix p (pre +:+ "/")) prefixes.

(** The severity, the path it was judged as, and why: [""] for nothing to say. *)
Definition hostPathVerdict (p : string) : Severity * string * string :=
  let clean := path_Clean p in
  if contains guestAgentSockets clean then (SeverityJustify, clean, "the guest-agent socket")
  else if contains dockerSockets clean then (SeverityBlocking, clean, "the container runtime's socket")
  else if String.eqb clean "/dev/shm" || has_prefix clean "/dev/shm/" then (SeverityJustify, clean, "shared memory")
  else if contains blockingHostExact clean || hasPrefixPath clean blockingHostPrefixes
  then (SeverityBlocking, clean, "a host tree the CVM's own OS owns")
  else (SeverityNote, clean, "").

Definition normalizedAs (wrote clean : string) : string :=
  if String.eqb wrote clean then "" else " (normalizes to " +:+ clean +:+ ")".
Definition mode (ro : bool) : string := if ro then "ro" else "rw".

Section reviewing.
Context `{YamlLib}.

(** ** The top-level sections *)

Definition knownComposeTopKeys : list string :=
  ["configs"; "include"; "name"; "networks"; "secrets"; "services"; "version"; "volumes"].
Definition knownVolumeKeys : list string := ["driver"; "driver_opts"; "external"; "labels"; "name"].
Definition networkFSTypes : list string := ["nfs"; "nfs4"; "cifs"; "smb3"; "ceph"; "glusterfs"].

Definition top_keys_rule (top : node) (fs : list Finding) : list Finding :=
  fold_left (fun fs kv => let key := n_Value kv.1 in
      add_if (negb (String.eqb key "" || contains knownComposeTopKeys key || has_prefix key "x-"))
        SeverityJustify "" ("compose." +:+ key) "this review has no rule for the top-level compose key" fs)
    (pairs (n_Content top)) fs.
Definition include_rule (top : node) (fs : list Finding) : list Finding :=
  add_if (nodeHasContent (mapValue (Some top) "include")) SeverityBlocking "" "compose.include"
    "the manifest includes another compose file by path" fs.

Record namedVolume := MkVolume { nv_HostPath : string; nv_External : bool; nv_Opaque : string }.

Definition templated_fields (decl : node) (key what : string) (fs : list Finding) : list Finding :=
  fold_left (fun fs field =>
      match interpolated_at (mapValue (Some decl) field) (key +:+ "." +:+ field) with
      | Some at_ => add SeverityJustify "" key (what +:+ field +:+ " holds a template (at " +:+ at_ +:+ ")") fs
      | None => fs
      end) ["name"; "external"] fs.

Definition volume_keys_rule (decl : node) (key : string) (fs : list Finding) : list Finding :=
  fold_left (fun fs kv => let k := n_Value kv.1 in
      add_if (negb (String.eqb k "" || contains knownVolumeKeys k || has_prefix k "x-")) SeverityJustify "" (key +:+ "." +:+ k)
        "this review has no rule for the volume key" fs) (pairs (n_Content decl)) fs.

(** What [driver_opts] makes of a volume: a host path, or a reason it cannot be reduced. *)
Definition driver_opts_rule (decl : node) (key : string) (fs : list Finding) : (string * string) * list Finding :=
  match mapValue (Some decl) "driver_opts" with
  | Some opts =>
      if negb (nodeHasContent (Some opts)) then (("", ""), fs)
      else if negb (is_kind MappingNode opts) then
        (("", "driver_opts could not be read"), add SeverityJustify "" (key +:+ ".driver_opts") "driver_opts is not a mapping" fs)
      else
        let fsType := default "" (nodeScalar (mapValue (Some opts) "type")) in
        match nodeScalar (mapValue (Some opts) "device") with
        | None => (("", "driver_opts.device could not be read"),
                   add SeverityJustify "" (key +:+ ".driver_opts") "driver_opts.device is not a scalar" fs)
        | Some device =>
            if contains networkFSTypes (to_lower fsType) then
              (("", "a " +:+ fsType +:+ " mount of " +:+ device),
               add SeverityBlocking "" key ("the volume is a " +:+ fsType +:+ " mount of " +:+ device) fs)
            else if has_prefix device "/" then ((device, ""), fs)
            else if negb (String.eqb device "") then
              (("", "device " +:+ device), add SeverityJustify "" key ("the volume names device " +:+ device) fs)
            else (("", ""), fs)
        end
  | None => (("", ""), fs)
  end.

Definition review_volume (name : string) (decl : node) (fs : list Finding) : namedVolume * list Finding :=
  let key := "compose.volumes." +:+ name in
  if negb (nodeHasContent (Some decl)) then (MkVolume "" false "", fs)
  else if negb (is_kind MappingNode decl) then
    (MkVolume "" false "the declaration is not a mapping", add SeverityJustify "" key "the volume declaration could not be read" fs)
  else
    match interpolated_at (mapValue (Some decl) "driver") (key +:+ ".driver") with
    | Some at_ => (MkVolume "" false "its driver is decided by the deployment's environment",
                   add SeverityBlocking "" key ("the volume's driver holds a template (at " +:+ at_ +:+ ")") fs)
    | None =>
        match interpolated_at (mapValue (Some decl) "driver_opts") (key +:+ ".driver_opts") with
        | Some at_ => (MkVolume "" false "its driver_opts are decided by the deployment's environment",
                       add SeverityBlocking "" key ("driver_opts holds a template (at " +:+ at_ +:+ ")") fs)
        | None =>
            let fs := templated_fields decl key "the volume's " fs in
            let fs := volume_keys_rule decl key fs in
            let external := declaredExternal decl in
            let fs := add_if external SeverityJustify "" key "the volume is EXTERNAL" fs in
            let '((path, opaque), fs) := driver_opts_rule decl key fs in
            (MkVolume path external opaque, fs)
        end
    end.

Definition reviewTopLevelVolumes (n : option node) (fs : list Finding) : gmap string namedVolume * list Finding :=
  match n with
  | None => (∅, fs)
  | Some n =>
      if negb (is_kind MappingNode n)
      then (∅, add SeverityJustify "" "compose.volumes" "the top-level volumes section is not a mapping" fs)
      else fold_left (fun '(out, fs) kv =>
               let name := n_Value kv.1 in
               if String.eqb name "" then (out, fs)
               else let '(v, fs) := review_volume name kv.2 fs in (<[name := v]> out, fs))
             (pairs (n_Content n)) (∅, fs)
  end.

Definition review_source (section name : string) (decl : node) (fs : list Finding) : list Finding :=
  let key := "compose." +:+ section +:+ "." +:+ name in
  if negb (is_kind MappingNode decl) then add SeverityJustify "" key "the declaration could not be read" fs
  else
    let fs := add_if (declaredExternal decl) SeverityJustify "" key "external: the content is whatever the host already holds" fs in
    let fs := match nodeScalar (mapValue (Some decl) "environment") with
              | Some env => add_if (negb (String.eqb env "")) SeverityJustify "" key
                              ("the content comes from environment variable " +:+ env) fs
              | None => fs
              end in
    let fs := templated_fields decl key "the " fs in
    match nodeScalar (mapValue (Some decl) "file") with
    | None => add SeverityJustify "" key "the file: path is not a scalar" fs
    | Some file =>
        if String.eqb file "" then fs
        else if has_dollar file then add SeverityBlocking "" key ("reads " +:+ file +:+ " from the host: the path holds a template") fs
        else if negb (has_prefix file "/") then add SeverityJustify "" key ("reads " +:+ file +:+ " from the host, by a RELATIVE path") fs
        else let '(sev, clean, why) := hostPathVerdict file in
             add_if (negb (String.eqb why "")) sev "" key
               ("reads " +:+ file +:+ normalizedAs file clean +:+ " from the host: " +:+ why) fs
    end.

Definition reviewFileSources (n : option node) (section : string) (fs : list Finding) : list Finding :=
  match n with
  | None => fs
  | Some n =>
      if negb (is_kind MappingNode n)
      then add SeverityJustify "" ("compose." +:+ section) ("the top-level " +:+ section +:+ " section is not a mapping") fs
      else fold_left (fun fs kv => if String.eqb (n_Value kv.1) "" then fs else review_source section (n_Value kv.1) kv.2 fs)
             (pairs (n_Content n)) fs
  end.

Definition reviewTopLevelNetworks (n : option node) (fs : list Finding) : list Finding :=
  match n with
  | Some n =>
      if is_kind MappingNode n
      then fold_left (fun fs kv =>
               add_if (negb (String.eqb (n_Value kv.1) "") && is_kind MappingNode kv.2 && declaredExternal kv.2)
                 SeverityJustify "" ("compose.networks." +:+ n_Value kv.1) "the network is EXTERNAL" fs)
             (pairs (n_Content n)) fs
      else fs
  | None => fs
  end.

(** ** A service's keys *)

Definition benignServiceKeys : list string :=
  ["annotations"; "attach"; "blkio_config"; "cap_drop"; "command"; "container_name"; "cpu_shares"; "cpus"; "cpuset";
   "credential_spec"; "depends_on"; "deploy"; "domainname"; "entrypoint"; "env_file"; "environment"; "expose";
   "healthcheck"; "hostname"; "image"; "init"; "isolation"; "labels"; "logging"; "mac_address"; "mem_limit";
   "mem_reservation"; "memswap_limit"; "networks"; "oom_score_adj"; "pids_limit"; "platform"; "ports"; "profiles";
   "pull_policy"; "read_only"; "restart"; "runtime"; "shm_size"; "stdin_open"; "stop_grace_period"; "stop_signal";
   "storage_opt"; "tmpfs"; "tty"; "ulimits"; "user"; "working_dir"].

Definition templatedSeverity (key : string) : option Severity :=
  if contains ["privileged"; "cap_add"; "security_opt"; "device_cgroup_rules"; "volumes_from"; "cgroup"; "pid"; "network_mode"] key
  then Some SeverityBlocking
  else if contains ["ipc"; "uts"; "userns_mode"; "cgroup_parent"; "devices"; "sysctls"; "group_add"; "secrets"; "configs"] key
  then Some SeverityJustify
  else if contains ["extra_hosts"; "dns"; "dns_search"; "dns_opt"; "links"; "external_links"; "oom_kill_disable"] key
  then Some SeverityNote
  else None.

(** [scalar]: what is not one is reported. *)
Definition scalar (sev : Severity) (name key : string) (val : node) (fs : list Finding) : option string * list Finding :=
  match nodeScalar (Some val) with
  | Some v => (Some v, fs)
  | None => (None, add sev name key "the value is not a scalar, so it could not be read" fs)
  end.

(** A rule on a list: what is not one is reported, and so is one with anything in it. *)
Definition list_rule (sev : Severity) (name key what : string) (val : node) (fs : list Finding) : list Finding :=
  match nodeStrings (Some val) with
  | None => add sev name key "the value is not a list, so it could not be read" fs
  | Some l => add_if (match l with [] => false | _ => true end) sev name key (what +:+ " " +:+ String.concat ", " l) fs
  end.
Definition content_rule (sev : Severity) (name key what : string) (val : node) (fs : list Finding) : list Finding :=
  add_if (nodeHasContent (Some val)) sev name key what fs.
(** A rule on a scalar that joins a host namespace. *)
Definition host_rule (sev : Severity) (name key : string) (val : node) (fs : list Finding) : list Finding :=
  let '(v, fs) := scalar sev name key val fs in
  match v with Some v => add_if (equal_fold v "host") sev name key ("the container joins the host's " +:+ key) fs | None => fs end.

Definition loosens (o : string) : bool :=
  let l := to_lower o in
  str_contains l "unconfined" || str_contains l "label:disable" || str_contains l "label=disable" || str_contains l "systempaths".

Definition privileged_rule (name key : string) (val : node) (fs : list Finding) : list Finding :=
  match nodeBool (Some val) with
  | None => add SeverityBlocking name key "the value is not a boolean, so it could not be read; treat as set" fs
  | Some b => add_if b SeverityBlocking name key "the container runs privileged" fs
  end.
Definition security_opt_rule (name key : string) (val : node) (fs : list Finding) : list Finding :=
  match nodeStrings (Some val) with
  | None => add SeverityBlocking name key "the value is not a list, so it could not be read" fs
  | Some opts => fold_left (fun fs o => add_if (loosens o) SeverityBlocking name key (o +:+ " switches off a confinement") fs) opts fs
  end.
Definition cgroup_parent_rule (name key : string) (val : node) (fs : list Finding) : list Finding :=
  let '(v, fs) := scalar SeverityJustify name key val fs in
  match v with Some v => add_if (negb (String.eqb v "")) SeverityJustify name key ("the container is placed under cgroup " +:+ v) fs | None => fs end.
Definition pid_rule (name key : string) (val : node) (fs : list Finding) : list Finding :=
  let '(v, fs) := scalar SeverityBlocking name key val fs in
  match v with
  | None => fs
  | Some v => if equal_fold v "host" then add SeverityBlocking name key "the container shares the host PID namespace" fs
              else add_if (negb (String.eqb v "")) SeverityJustify name key ("the container shares a PID namespace (" +:+ v +:+ ")") fs
  end.
Definition other_namespace (l : string) : bool := has_prefix l "container:" || has_prefix l "service:".
Definition network_mode_rule (name key : string) (val : node) (fs : list Finding) : list Finding :=
  let '(v, fs) := scalar SeverityBlocking name key val fs in
  match v with
  | None => fs
  | Some v => if equal_fold v "host" then add SeverityBlocking name key "the container shares the host network namespace" fs
              else add_if (other_namespace (to_lower v)) SeverityJustify name key
                     ("the container shares another container's network namespace (" +:+ v +:+ ")") fs
  end.
Definition ipc_rule (name key : string) (val : node) (fs : list Finding) : list Finding :=
  let '(v, fs) := scalar SeverityJustify name key val fs in
  match v with
  | None => fs
  | Some v => let l := to_lower v in
              add_if (String.eqb l "host" || String.eqb l "shareable" || other_namespace l) SeverityJustify name key
                ("the container shares an IPC namespace (" +:+ v +:+ ")") fs
  end.
Definition oom_rule (name key : string) (val : node) (fs : list Finding) : list Finding :=
  match nodeBool (Some val) with
  | Some true => add SeverityNote name key "the container is exempt from the OOM killer" fs
  | _ => fs
  end.

(** The rule for a key, if there is one. *)
Definition key_rule (name key : string) (val : node) (fs : list Finding) : option (list Finding) :=
  let named := String.eqb key in
  if named "privileged" then Some (privileged_rule name key val fs)
  else if named "cap_add" then Some (list_rule SeverityBlocking name key "adds capabilities:" val fs)
  else if named "security_opt" then Some (security_opt_rule name key val fs)
  else if named "device_cgroup_rules" then Some (list_rule SeverityBlocking name key "device access by cgroup rule:" val fs)
  else if named "volumes_from" then Some (list_rule SeverityBlocking name key "takes the mounts of" val fs)
  else if named "cgroup" then Some (host_rule SeverityBlocking name key val fs)
  else if named "cgroup_parent" then Some (cgroup_parent_rule name key val fs)
  else if named "pid" then Some (pid_rule name key val fs)
  else if named "network_mode" then Some (network_mode_rule name key val fs)
  else if named "ipc" then Some (ipc_rule name key val fs)
  else if named "uts" then Some (host_rule SeverityJustify name key val fs)
  else if named "userns_mode" then Some (host_rule SeverityJustify name key val fs)
  else if named "devices" then Some (list_rule SeverityJustify name key "passes host devices:" val fs)
  else if named "sysctls" then Some (content_rule SeverityJustify name key "the container sets kernel parameters" val fs)
  else if named "group_add" then Some (list_rule SeverityJustify name key "joins extra groups:" val fs)
  else if named "extra_hosts" then Some (content_rule SeverityNote name key "name resolution is overridden" val fs)
  else if named "dns" || named "dns_search" || named "dns_opt" then Some (content_rule SeverityNote name key "a resolver the manifest chose" val fs)
  else if named "links" || named "external_links" then Some (content_rule SeverityNote name key "legacy container linking" val fs)
  else if named "secrets" || named "configs" then Some (content_rule SeverityJustify name key "files are injected into the container" val fs)
  else if named "oom_kill_disable" then Some (oom_rule name key val fs)
  else if named "extends" then Some (add SeverityBlocking name key "the service extends another service" fs)
  else None.

(** [reviewServiceKey]: [None] when there is no rule. *)
Definition reviewServiceKey (name key : string) (val : node) (fs : list Finding) : option (list Finding) :=
  match templatedSeverity key with
  | Some sev =>
      match firstInterpolated val key with
      | Some at_ =>
          let fs := add sev name key ("the value holds a template (at " +:+ at_ +:+ ")") fs in
          if is_kind ScalarNode val then Some fs else key_rule name key val fs
      | None => key_rule name key val fs
      end
  | None => key_rule name key val fs
  end.

(** ** A service's mounts *)

(** [mountIndex]. *)
Record mountIndex := MkMounts {
  mi_holders : gmap string (list string);
  mi_named : gset string;
  mi_volumes : gmap string namedVolume;
  mi_runtimeSocketAt : gset nat;
  mi_interpolatedVolumes : list string
}.
Definition hold (src name : string) (m : mountIndex) : mountIndex :=
  MkMounts (<[src := default [] (mi_holders m !! src) ++ [name]]> (mi_holders m)) (mi_named m) (mi_volumes m)
    (mi_runtimeSocketAt m) (mi_interpolatedVolumes m).
Definition name_source (src : string) (m : mountIndex) : mountIndex :=
  MkMounts (mi_holders m) ({[ src ]} ∪ mi_named m) (mi_volumes m) (mi_runtimeSocketAt m) (mi_interpolatedVolumes m).
Definition socket_at (i : nat) (m : mountIndex) : mountIndex :=
  MkMounts (mi_holders m) (mi_named m) (mi_volumes m) ({[ i ]} ∪ mi_runtimeSocketAt m) (mi_interpolatedVolumes m).

(** [parseMount]: source, target, read-only. *)
Definition parseMount (n : node) : option (string * string * bool) :=
  match n_Kind n with
  | ScalarNode =>
      match map str_of (split_on ":" (bytes_of (n_Value n))) with
      | [t] => Some ("", t, false)
      | [s; t] => Some (s, t, false)
      | [s; t; o] => Some (s, t, str_contains o "ro")
      | _ => None
      end
  | MappingNode =>
      src ← nodeScalar (mapValue (Some n) "source");
      target ← nodeScalar (mapValue (Some n) "target");
      Some (trim_space src, trim_space target, default false (nodeBool (mapValue (Some n) "read_only")))
  | _ => None
  end.

Definition isNamedVolume (src : string) : bool :=
  negb (String.eqb src "") && negb (has_prefix src "/") && negb (has_prefix src ".") && negb (contains_any_of "/~$" src).

Definition mount_text (src target : string) (ro : bool) : string := src +:+ " -> " +:+ target +:+ " (" +:+ mode ro +:+ ")".

(** A mount of a declared or undeclared volume. *)
Definition named_mount (name src target : string) (ro : bool) (st : list Finding * mountIndex) : list Finding * mountIndex :=
  let '(fs, m) := st in
  match mi_volumes m !! src with
  | Some decl =>
      if negb (String.eqb (nv_HostPath decl) "") then
        let '(sev, clean, why) := hostPathVerdict (nv_HostPath decl) in
        let where_ := mount_text src target ro +:+ " resolves to the HOST PATH " +:+ nv_HostPath decl
                      +:+ normalizedAs (nv_HostPath decl) clean in
        ((if negb (String.eqb why "") then add sev name "volumes" (where_ +:+ ": " +:+ why) fs
          else add SeverityJustify name "volumes" (where_ +:+ ": a host bind wearing a volume name") fs), name_source src m)
      else if negb (String.eqb (nv_Opaque decl) "") then
        (add SeverityJustify name "volumes" (mount_text src target ro +:+ ": " +:+ nv_Opaque decl) fs, name_source src m)
      else (fs, m)
  | None => (add SeverityJustify name "volumes" (mount_text src target ro +:+ " names a volume the compose file does not declare") fs, m)
  end.

(** A direct bind of an absolute path. *)
Definition host_mount (name src target : string) (ro : bool) (st : list Finding * mountIndex) : list Finding * mountIndex :=
  let '(fs, m) := st in
  let '(sev, clean, why) := hostPathVerdict src in
  if String.eqb why "" then (fs, m)
  else
    let m := name_source src m in
    let m := if contains runtimeDockerSockets clean then socket_at (length fs) m else m in
    (add sev name "volumes" (src +:+ normalizedAs src clean +:+ " -> " +:+ target +:+ " (" +:+ mode ro +:+ "): " +:+ why) fs, m).

Definition review_mount (name : string) (st : list Finding * mountIndex) (entry : node) : list Finding * mountIndex :=
  let '(fs, m) := st in
  if is_kind ScalarNode entry && has_dollar (n_Value entry) then
    (add SeverityBlocking name "volumes" (n_Value entry +:+ " is a short-syntax mount holding a template") fs, m)
  else
    match parseMount entry with
    | None => (add SeverityJustify name "volumes" "a mount entry could not be read" fs, m)
    | Some (src, target, ro) =>
        if String.eqb src "" then (fs, m)
        else
          let m := hold src name m in
          if has_dollar src then
            (add SeverityBlocking name "volumes" (mount_text src target ro +:+ ": the source is interpolated") fs, name_source src m)
          else if isNamedVolume src then named_mount name src target ro (fs, m)
          else if negb (has_prefix src "/") then
            (add SeverityJustify name "volumes" (src +:+ " -> " +:+ target +:+ ": a RELATIVE bind mount") fs, m)
          else host_mount name src target ro (fs, m)
    end.

Definition reviewVolumes (name : string) (val : node) (st : list Finding * mountIndex) : list Finding * mountIndex :=
  if negb (is_kind SequenceNode val)
  then (add SeverityJustify name "volumes" "the value is not a list of mounts, so it could not be read" st.1, st.2)
  else fold_left (review_mount name) (n_Content val) st.

Definition reviewTemplatedPorts (name : string) (val : node) (fs : list Finding) : list Finding :=
  if negb (is_kind SequenceNode val) then fs
  else fold_left (fun fs e => add_if (is_kind ScalarNode e && has_dollar (n_Value e)) SeverityJustify name "ports"
         (n_Value e +:+ " is a short-syntax port holding a template") fs) (n_Content val) fs.

(** ** 0G's controller ([composecontroller.go]) *)

Definition controllerService : string := "0g-controller".
Definition controllerCommand : string := "0g-controller".
Definition controllerEnginesEnv : string := "ZG_CONTROLLER_ENGINES".
Definition controllerKeys : list string :=
  ["image"; "command"; "container_name"; "environment"; "volumes"; "depends_on"; "networks"; "ports"; "healthcheck";
   "logging"; "restart"; "labels"; "stop_grace_period"; "stop_signal"].
Definition controllerEnv : list string :=
  ["CONFIG_FILE"; "ATTEST_PROXY_SOCKET"; "ATTEST_PROXY_READONLY_SOCKET"; "ZG_CONTROLLER_INSTANCES"].
Definition controllerHealthcheckTest : list string := ["CMD-SHELL"; "grep -q '0g-controller' /proc/1/cmdline"].
Definition controllerHealthcheckKeys : list string := ["test"; "interval"; "timeout"; "retries"; "start_period"].

Definition shortDigest (d : string) : string :=
  if Nat.ltb 19 (String.length d) then String.substring 0 19 d +:+ "..." else d.

Definition commandOf (n : option node) : option string :=
  match n with
  | None => None
  | Some n => if is_kind ScalarNode n then Some (trim_space (n_Value n))
              else match nodeStrings (Some n) with Some [p] => Some p | _ => None end
  end.

(** The reason the engine flag disqualifies, [""] when the environment does not name it. *)
Definition engines_set (how : string) : string := "its environment sets " +:+ controllerEnginesEnv +:+ " (" +:+ how +:+ ")".
Fixpoint engines_list (l : list node) : string :=
  match l with
  | [] => ""
  | e :: l =>
      if negb (is_kind ScalarNode e) then "an environment entry could not be read"
      else let '(k, v, has) := Cut (trim_space (n_Value e)) "=" in
           if negb (String.eqb (trim_space k) controllerEnginesEnv) then engines_list l
           else if negb has then engines_set "passed through from the host" else engines_set ("to " +:+ v)
  end.
Definition enginesSet (env : option node) : string :=
  match env with
  | None => ""
  | Some env =>
      match n_Kind env with
      | SequenceNode => engines_list (n_Content env)
      | MappingNode =>
          match List.find (fun kv => String.eqb (trim_space (n_Value kv.1)) controllerEnginesEnv) (pairs (n_Content env)) with
          | Some (_, v) => if is_kind ScalarNode v && negb (String.eqb (n_Tag v) "!!null") then engines_set ("to " +:+ n_Value v)
                           else engines_set "passed through from the host"
          | None => ""
          end
      | _ => "the environment could not be read"
      end
  end.

Definition env_names (env : option node) : option (list string) :=
  match env with
  | None => Some []
  | Some env =>
      match n_Kind env with
      | SequenceNode => Some (map (fun e => trim_space (Cut (trim_space (n_Value e)) "=").1.1) (n_Content env))
      | MappingNode => Some (map (fun kv => trim_space (n_Value kv.1)) (pairs (n_Content env)))
      | _ => None
      end
  end.
Definition onlyControllerEnv (env : option node) : string :=
  match env_names env with
  | None => "the environment could not be read"
  | Some names => match List.find (fun k => negb (contains controllerEnv k)) names with
                  | Some k => "its environment sets " +:+ k
                  | None => ""
                  end
  end.

Definition onlyControllerHealthcheck (hc : option node) : string :=
  match hc with
  | None => ""
  | Some hc =>
      if negb (is_kind MappingNode hc) then "its healthcheck could not be read"
      else match List.find (fun kv => negb (contains controllerHealthcheckKeys (n_Value kv.1))) (pairs (n_Content hc)) with
           | Some (k, _) => "its healthcheck sets " +:+ n_Value k
           | None => match nodeStrings (mapValue (Some hc) "test") with
                     | Some test => if bool_decide (test = controllerHealthcheckTest) then ""
                                    else "its healthcheck runs " +:+ String.concat " " test
                     | None => "its healthcheck runs something that is not the recorded test"
                     end
           end
  end.

Definition mount_refused (m : mountIndex) (entry : node) : string :=
  match parseMount entry with
  | None => "a mount could not be read"
  | Some (src, _, _) =>
      if String.eqb src "" then ""
      else if isNamedVolume src then
        match mi_volumes m !! src with
        | None => "it mounts " +:+ src +:+ ", which the top-level volumes section does not declare"
        | Some decl =>
            if contains (mi_interpolatedVolumes m) src then "the declaration of the volume " +:+ src +:+ " contains `$`"
            else if negb (String.eqb (nv_HostPath decl) "") || negb (String.eqb (nv_Opaque decl) "") || nv_External decl
            then "the volume " +:+ src +:+ " is not an ordinary local volume this manifest creates" else ""
        end
      else if negb (has_prefix src "/") then "it mounts the relative host path " +:+ src
      else let clean := path_Clean src in
           if negb (contains runtimeDockerSockets clean) && negb (contains guestAgentSockets clean)
           then "it mounts the host path " +:+ clean else ""
  end.
Definition first_reason {A} (f : A -> string) (l : list A) : string :=
  default "" (List.find (fun s => negb (String.eqb s "")) (map f l)).
Definition onlySocketHostMounts (vols : option node) (m : mountIndex) : string :=
  match vols with
  | None => ""
  | Some vols => if negb (is_kind SequenceNode vols) then "its volumes could not be read"
                 else first_reason (mount_refused m) (n_Content vols)
  end.

(** A condition that gives a reason it is not met, [""] when it is. *)
Definition unless (why : string) : result string unit := if String.eqb why "" then Ok tt else Err why.

Definition controllerEligible (body : node) (svc : ReviewedService) (m : mountIndex) (rels : option ReleaseVerifier)
    : result string BrokerRelease :=
  _ ← refuse (negb (Pinned svc)) "its image is not pinned by digest";
  _ ← refuse (match rels with Some r => negb (String.eqb (rs_Image svc) (rl_Repository r)) | None => false end)
        ("its image is " +:+ rs_Image svc +:+ ", not 0G's broker image");
  let v := VerifyRelease rels (rs_Image svc) (rs_Digest svc) in
  _ ← (match rv_Status v with
       | ReleaseAccepted => Ok tt
       | ReleaseUnavailable => Err ("whether " +:+ rs_Image svc +:+ "@" +:+ shortDigest (rs_Digest svc) +:+ " is a release could not be checked")
       | ReleaseRejected => Err (rs_Image svc +:+ "@" +:+ shortDigest (rs_Digest svc) +:+ " is not an accepted release")
       end);
  _ ← (match firstInterpolated body "" with
       | Some at_ => Err ("its " +:+ at_ +:+ " contains `$`")
       | None => Ok tt
       end);
  _ ← (match List.find (fun kv => negb (contains controllerKeys (n_Value kv.1))) (pairs (n_Content body)) with
       | Some (k, _) => Err ("it sets " +:+ n_Value k)
       | None => Ok tt
       end);
  _ ← refuse (negb (bool_decide (commandOf (mapValue (Some body) "command") = Some controllerCommand))) "its command is not 0g-controller";
  _ ← unless (enginesSet (mapValue (Some body) "environment"));
  _ ← unless (onlyControllerEnv (mapValue (Some body) "environment"));
  _ ← unless (onlyControllerHealthcheck (mapValue (Some body) "healthcheck"));
  _ ← unless (onlySocketHostMounts (mapValue (Some body) "volumes") m);
  Ok (rv_Release v).

(** The places of a service's blocking findings from [start] on: those of a docker socket
    mounted directly, and the key of the first other one. *)
Definition is_blocking_of (name : string) (f : Finding) : bool :=
  String.eqb (f_Service f) name && bool_decide (f_Severity f = SeverityBlocking).
Definition blocking_places (name : string) (start : nat) (fs : list Finding) : list (nat * Finding) :=
  List.filter (fun p => Nat.leb start p.1 && is_blocking_of name p.2) (imap pair fs).
Definition socket_places (name : string) (m : mountIndex) (start : nat) (fs : list Finding) : list nat :=
  map fst (List.filter (fun p => bool_decide (p.1 ∈ mi_runtimeSocketAt m)) (blocking_places name start fs)).
Definition other_blocking (name : string) (m : mountIndex) (start : nat) (fs : list Finding) : string :=
  first_reason (fun p => f_Key p.2)
    (List.filter (fun p => negb (bool_decide (p.1 ∈ mi_runtimeSocketAt m))) (blocking_places name start fs)).

Definition exception_verdict (name : string) (body : node) (svc : ReviewedService) (m : mountIndex)
    (rels : option ReleaseVerifier) (start : nat) (fs : list Finding) : result string BrokerRelease :=
  rel ← controllerEligible body svc m rels;
  let other := other_blocking name m start fs in
  _ ← refuse (negb (String.eqb other "")) ("the service has another blocking finding (" +:+ other +:+ ")");
  Ok rel.

Definition justify (v : result string BrokerRelease) (f : Finding) : Finding :=
  match v with
  | Err why => MkFinding (f_Severity f) (f_Service f) (f_Key f)
                 (f_Detail f +:+ ". The exception for 0G's controller does not apply: " +:+ why)
  | Ok rel => MkFinding SeverityJustify (f_Service f) (f_Key f)
                (f_Detail f +:+ ". JUSTIFIED rather than blocking: this is 0G's controller at verified release " +:+ br_Version rel
                 +:+ (if String.eqb (br_Commit rel) "" then "" else " (commit " +:+ br_Commit rel +:+ ")"))
  end.

Definition justifyControllerRuntimeSocket (name : string) (body : node) (svc : ReviewedService) (m : mountIndex)
    (rels : option ReleaseVerifier) (start : nat) (fs : list Finding) : list Finding :=
  if negb (String.eqb name controllerService) then fs
  else
    let places := socket_places name m start fs in
    match places with
    | [] => fs
    | _ => let v := exception_verdict name body svc m rels start fs in
           imap (fun i f => if bool_decide (i ∈ places) then justify v f else f) fs
    end.

(** ** A service *)

Definition reviewed (name : string) (body : node) : ReviewedService :=
  match mapValue (Some body) "image" with
  | Some img =>
      if is_kind ScalarNode img then
        let ref := trim_space (n_Value img) in
        let '(image, tag, digest) := SplitImageRef ref in MkReviewed name ref image tag digest (ClassifyImageOrigin image)
      else MkReviewed name "" "" "" "" OriginNone
  | None => MkReviewed name "" "" "" "" OriginNone
  end.

Definition displayRegistry (registry : string) : string :=
  if String.eqb registry "" then "docker.io (the reference names no registry, so it resolves there)" else registry.

Definition image_rules (svc : ReviewedService) (build : bool) (fs : list Finding) : list Finding :=
  let name := rs_Name svc in
  let ref := rs_Ref svc in
  let fs := if String.eqb ref "" && build then add SeverityBlocking name "build" "the service is built at deploy time" fs
            else if String.eqb ref "" then add SeverityBlocking name "image" "the service names no image" fs
            else if negb (String.eqb (rs_Digest svc) "") && negb (Pinned svc)
            then add SeverityBlocking name "image" (ref +:+ " carries something after the @ that is not a digest") fs
            else add_if (negb (Pinned svc)) SeverityBlocking name "image" (ref +:+ " is not pinned by @sha256:") fs in
  let fs := add_if (bool_decide (rs_Origin svc = OriginForeignRegistry)) SeverityJustify name "image"
              (ref +:+ " carries our namespace on " +:+ displayRegistry (SplitRegistry (rs_Image svc)).1) fs in
  add_if (build && negb (String.eqb ref "")) SeverityJustify name "build" "the service declares both an image and a build" fs.

Definition review_key (name : string) (st : list Finding * mountIndex) (kv : node * node) : list Finding * mountIndex :=
  let '(fs, m) := st in
  let key := n_Value kv.1 in
  let fs := if String.eqb key "ports" then reviewTemplatedPorts name kv.2 fs else fs in
  if String.eqb key "" || String.eqb key "image" || String.eqb key "build" || contains benignServiceKeys key then (fs, m)
  else if has_prefix key "x-" then (fs, m)
  else if String.eqb key "volumes" then reviewVolumes name kv.2 (fs, m)
  else match reviewServiceKey name key kv.2 fs with
       | Some fs => (fs, m)
       | None => (add SeverityJustify name key "this review has no rule for the key" fs, m)
       end.

(** What the services add: services, blocks, findings and mounts. *)
Record progress := MkProgress {
  pg_Services : list ReviewedService; pg_Blocks : list ServiceBlock; pg_Findings : list Finding; pg_Mounts : mountIndex
}.

Definition reviewService (rels : option ReleaseVerifier) (pg : progress) (name : string) (body : node) : progress :=
  let start := length (pg_Findings pg) in
  let blocks := pg_Blocks pg ++ [blockOf name (Some body)] in
  if negb (is_kind MappingNode body) then
    MkProgress (pg_Services pg ++ [MkReviewed name "" "" "" "" OriginNone]) blocks
      (add SeverityBlocking name "" "the service body is not a mapping" (pg_Findings pg)) (pg_Mounts pg)
  else
    let svc := reviewed name body in
    let build := match mapValue (Some body) "build" with Some _ => true | None => false end in
    let fs := image_rules svc build (pg_Findings pg) in
    let '(fs, m) := fold_left (review_key name) (pairs (n_Content body)) (fs, pg_Mounts pg) in
    MkProgress (pg_Services pg ++ [svc]) blocks (justifyControllerRuntimeSocket name body svc m rels start fs) m.

Definition reviewSharedMounts (m : mountIndex) (fs : list Finding) : list Finding :=
  fold_left (fun fs sh =>
      let holders := dedupe sh.2 in
      add_if (negb (bool_decide (sh.1 ∈ mi_named m)) && Nat.leb 2 (length holders)) SeverityJustify "" "volumes"
        (sh.1 +:+ " is mounted by " +:+ String.concat ", " holders) fs)
    (entries (mi_holders m)) fs.

(** ** The document ([reviewComposeText]) *)

Context `{ComposeGo}.

Definition with_text (r : ComposeReview) (services : list ReviewedService) (blocks : list ServiceBlock)
    (err : option loadErr) (top : list TopLevelBlock) (fs : list Finding) : ComposeReview :=
  MkReview (cr_Name r) (cr_Runner r) (cr_Features r) (cr_AllowedEnvs r) (cr_FeaturesUnreadable r) (cr_Fields r)
    (cr_PreLaunchBytes r) (cr_PreLaunchSHA256 r) services blocks err top fs.

Definition load_text (e : loadErr) : string := match e with ELoad w => w | ENotRead w => w | EPanicked => "" end.

Definition top_rules (top : node) (fs : list Finding) : gmap string namedVolume * list Finding :=
  let fs := include_rule top (top_keys_rule top fs) in
  let '(volumes, fs) := reviewTopLevelVolumes (mapValue (Some top) "volumes") fs in
  let fs := reviewFileSources (mapValue (Some top) "secrets") "secrets" fs in
  let fs := reviewFileSources (mapValue (Some top) "configs") "configs" fs in
  (volumes, reviewTopLevelNetworks (mapValue (Some top) "networks") fs).

Definition service_rules (rels : option ReleaseVerifier) (top services : node) (volumes : gmap string namedVolume)
    (fs : list Finding) : progress :=
  let mounts := MkMounts ∅ ∅ volumes ∅ (interpolatedEntries (mapValue (Some top) "volumes")) in
  fold_left (fun pg kv => if String.eqb (n_Value kv.1) "" then pg else reviewService rels pg (n_Value kv.1) kv.2)
    (pairs (n_Content services)) (MkProgress [] [] fs mounts).

Definition reviewComposeText (drawn : option bytes) (rels : option ReleaseVerifier) (doc : string) (r : ComposeReview) : ComposeReview :=
  match readComposeDocument drawn doc with
  | Err err => with_text r [] [] (Some err) [] (add SeverityBlocking "" "docker_compose_file" (load_text err) (cr_Findings r))
  | Ok top =>
      if negb (is_kind MappingNode top)
      then with_text r [] [] None [] (add SeverityBlocking "" "docker_compose_file" "the compose text is not a mapping" (cr_Findings r))
      else
        let '(volumes, fs) := top_rules top (cr_Findings r) in
        let topLevel := topLevelBlocks top in
        match mapValue (Some top) "services" with
        | Some services =>
            if negb (is_kind MappingNode services)
            then with_text r [] [] None topLevel (add SeverityBlocking "" "docker_compose_file" "the compose text has no services mapping" fs)
            else
              let pg := service_rules rels top services volumes fs in
              let fs := add_if (match pg_Services pg with [] => true | _ => false end) SeverityBlocking "" "docker_compose_file"
                          "the compose text declares no services" (pg_Findings pg) in
              with_text r (pg_Services pg) (pg_Blocks pg) None topLevel (reviewSharedMounts (pg_Mounts pg) fs)
        | None => with_text r [] [] None topLevel (add SeverityBlocking "" "docker_compose_file" "the compose text has no services mapping" fs)
        end
  end.

(** [reviewFields]: the review of the fields, and of the compose text among them. *)
Definition fields_review (fields : gmap string bytes) : ComposeReview :=
  let names := map fst (entries fields) in
  let features := jsonStrings (raw_field fields "features") in
  let '(n, d) := pre_launch fields in
  MkReview (default "" (jsonString (raw_field fields "name"))) (default "" (jsonString (raw_field fields "runner")))
    (default [] features) (default [] (jsonStrings (raw_field fields "allowed_envs")))
    (match features with Some _ => false | None => true end) names n d [] [] None []
    (reviewAppComposeFields names fields []).

Definition sorted (r : ComposeReview) : ComposeReview :=
  with_text r (cr_Services r) (cr_Blocks r) (cr_LoadErr r) (cr_TopLevel r) (sortFindings (cr_Findings r)).
Definition with_finding (r : ComposeReview) (key detail : string) : ComposeReview :=
  with_text r (cr_Services r) (cr_Blocks r) (cr_LoadErr r) (cr_TopLevel r) (add SeverityBlocking "" key detail (cr_Findings r)).

Definition reviewFields (drawn : option bytes) (rels : option ReleaseVerifier) (fields : gmap string bytes) : ComposeReview :=
  let r := fields_review fields in
  sorted (match jsonString (raw_field fields "docker_compose_file") with
          | None => with_finding r "docker_compose_file" "the field is not a string, so the compose text could not be read"
          | Some text => if negb (nonblank text)
                         then with_finding r "docker_compose_file" "the manifest embeds no compose text"
                         else reviewComposeText drawn rels text r
          end).

(** [ReviewCompose]: nothing is read that the quote does not bind. *)
Definition ReviewCompose (drawn : option bytes) (raw composeHash : bytes) (releases : option ReleaseVerifier) : eresult ComposeReview :=
  _ ← GateAppCompose raw composeHash;
  fields ← map_err (EDecode "app-compose is not a JSON object") (raw_fields raw);
  Ok (reviewFields drawn releases fields).

(** ** Lemmas: rules only add *)

(** What a rule for [service] does to the findings. *)
Definition adds (service : string) (fs fs' : list Finding) : Prop :=
  exists new, fs' = fs ++ new /\ Forall (fun f => f_Service f = service) new.

Lemma adds_refl service fs : adds service fs fs.
Proof. exists []. by rewrite app_nil_r. Qed.
Lemma adds_trans service a b c : adds service a b -> adds service b c -> adds service a c.
Proof.
  intros (n1 & -> & H1) (n2 & -> & H2). exists (n1 ++ n2). rewrite (assoc_L (++)). split; [done|]. by apply Forall_app.
Qed.
Lemma adds_add s service key detail fs : adds service fs (add s service key detail fs).
Proof. eexists. split; [done|]. by repeat constructor. Qed.
Lemma adds_if b s service key detail fs : adds service fs (add_if b s service key detail fs).
Proof. destruct b; [apply adds_add|apply adds_refl]. Qed.
Lemma adds_then s service key detail fs fs' : adds service fs fs' -> adds service fs (add s service key detail fs').
Proof. intros H1. eapply adds_trans; [done|apply adds_add]. Qed.
Lemma adds_then_if b s service key detail fs fs' : adds service fs fs' -> adds service fs (add_if b s service key detail fs').
Proof. intros H1. eapply adds_trans; [done|apply adds_if]. Qed.
Lemma adds_fold {A} service (f : list Finding -> A -> list Finding) l fs :
  (forall fs a, adds service fs (f fs a)) -> adds service fs (fold_left f l fs).
Proof.
  intros Hf. revert fs. induction l as [|a l IH]; intros fs; cbn; [apply adds_refl|].
  eapply adds_trans; [apply Hf|apply IH].
Qed.

#[local] Arguments contains : simpl never.
Create HintDb adds.
#[local] Hint Resolve adds_refl adds_add adds_if adds_then adds_then_if adds_fold : adds.

Lemma adds_lookup service fs fs' i f : adds service fs fs' -> fs !! i = Some f -> fs' !! i = Some f.
Proof. intros (new & -> & _) Hi. by apply lookup_app_l_Some. Qed.
Lemma adds_length service fs fs' : adds service fs fs' -> (length fs <= length fs')%nat.
Proof. intros (new & -> & _). rewrite length_app. lia. Qed.

Ltac adds_cases := repeat case_match; simplify_eq/=; eauto with adds.

Lemma scalar_adds sev name key val fs v fs' : scalar sev name key val fs = (v, fs') -> adds name fs fs'.
Proof. unfold scalar. destruct (nodeScalar _); intros [= <- <-]; auto with adds. Qed.
#[local] Hint Resolve scalar_adds : adds.

Lemma security_opt_adds name key val fs : adds name fs (security_opt_rule name key val fs).
Proof. unfold security_opt_rule. adds_cases. Qed.

Lemma key_rule_adds name key val fs fs' : key_rule name key val fs = Some fs' -> adds name fs fs'.
Proof.
  pose proof (security_opt_adds name key val fs) as Hsec.
  unfold key_rule, privileged_rule, list_rule, host_rule, cgroup_parent_rule, pid_rule, network_mode_rule, ipc_rule,
    content_rule, oom_rule.
  intros E. repeat (case_match; [injection E as <-; try done; repeat case_match; eauto with adds|]); done.
Qed.

Lemma reviewServiceKey_adds name key val fs fs' : reviewServiceKey name key val fs = Some fs' -> adds name fs fs'.
Proof.
  unfold reviewServiceKey. intros E. repeat case_match; simplify_eq; eauto using key_rule_adds with adds.
  eapply adds_trans; [|by eapply key_rule_adds]. apply adds_add.
Qed.

(** *** Findings and mounts together *)

Record grows (name : string) (a b : list Finding * mountIndex) : Prop := {
  gw_adds : adds name a.1 b.1;
  gw_volumes : mi_volumes b.2 = mi_volumes a.2;
  gw_interpolated : mi_interpolatedVolumes b.2 = mi_interpolatedVolumes a.2;
  gw_kept : forall i, i ∈ mi_runtimeSocketAt a.2 -> i ∈ mi_runtimeSocketAt b.2;
  gw_new : forall i, i ∈ mi_runtimeSocketAt b.2 -> i ∈ mi_runtimeSocketAt a.2 \/ (length a.1 <= i < length b.1)%nat
}.

Lemma grows_fs name fs fs' m : adds name fs fs' -> grows name (fs, m) (fs', m).
Proof. intros Ha. split; auto. Qed.
Lemma grows_then name a b c : grows name a b -> grows name b c -> grows name a c.
Proof.
  intros [A1 V1 I1 K1 N1] [A2 V2 I2 K2 N2].
  pose proof (adds_length _ _ _ A1). pose proof (adds_length _ _ _ A2). split.
  - by eapply adds_trans.
  - congruence.
  - congruence.
  - auto.
  - intros i Hi. apply N2 in Hi as [Hi|Hi]; [apply N1 in Hi as [?|?]; [by left|right; lia]|right; lia].
Qed.
Lemma grows_fold {A} name (f : list Finding * mountIndex -> A -> list Finding * mountIndex) l st :
  (forall st a, grows name st (f st a)) -> grows name st (fold_left f l st).
Proof.
  intros Hf. revert st. induction l as [|a l IH]; intros st; cbn.
  - destruct st. apply grows_fs, adds_refl.
  - eapply grows_then; [apply Hf|apply IH].
Qed.
(** Mounts noted beside the findings. *)
Lemma grows_noted name fs fs' m m' : adds name fs fs' -> mi_volumes m' = mi_volumes m ->
  mi_interpolatedVolumes m' = mi_interpolatedVolumes m -> mi_runtimeSocketAt m' = mi_runtimeSocketAt m ->
  grows name (fs, m) (fs', m').
Proof. intros Ha Hv Hi Hs. split; cbn; rewrite ?Hs; auto. Qed.

Lemma host_mount_grows name src target ro fs m : grows name (fs, m) (host_mount name src target ro (fs, m)).
Proof.
  unfold host_mount. destruct (hostPathVerdict src) as [[sev clean] why].
  destruct (String.eqb why ""); [apply grows_fs, adds_refl|].
  destruct (contains runtimeDockerSockets clean).
  - split; cbn; [apply adds_add|done|done|set_solver|].
    intros i Hi. apply elem_of_union in Hi as [->%elem_of_singleton|Hi]; [right|by left].
    unfold add. rewrite length_app. cbn. lia.
  - apply grows_noted; [apply adds_add|done..].
Qed.

Lemma named_mount_grows name src target ro fs m : grows name (fs, m) (named_mount name src target ro (fs, m)).
Proof.
  unfold named_mount. destruct (mi_volumes m !! src) as [decl|]; [|apply grows_fs, adds_add].
  destruct (hostPathVerdict _) as [[sev clean] why].
  repeat case_match; [apply grows_noted; [apply adds_add|done..]..|apply grows_fs, adds_refl].
Qed.

Lemma hold_grows name fs src m st : grows name (fs, hold src name m) st -> grows name (fs, m) st.
Proof. intros [A V I K N]. by split. Qed.

Lemma review_mount_grows name st entry : grows name st (review_mount name st entry).
Proof.
  destruct st as [fs m]. unfold review_mount. case_match; [apply grows_fs, adds_add|].
  destruct (parseMount entry) as [[[src target] ro]|]; [|apply grows_fs, adds_add].
  case_match; [apply grows_fs, adds_refl|]. apply (hold_grows _ _ src).
  case_match; [apply grows_noted; [apply adds_add|done..]|].
  case_match; [apply named_mount_grows|]. case_match; [apply grows_fs, adds_add|apply host_mount_grows].
Qed.

Lemma reviewVolumes_grows name val st : grows name st (reviewVolumes name val st).
Proof.
  unfold reviewVolumes. case_match; [destruct st; apply grows_fs, adds_add|]. apply grows_fold, review_mount_grows.
Qed.

Lemma ports_adds name val fs : adds name fs (reviewTemplatedPorts name val fs).
Proof. unfold reviewTemplatedPorts. adds_cases. Qed.

Lemma review_key_grows name st kv : grows name st (review_key name st kv).
Proof.
  destruct st as [fs m]. unfold review_key.
  set (fs1 := if String.eqb (n_Value kv.1) "ports" then _ else fs).
  assert (adds name fs fs1) as Ha by (unfold fs1; case_match; [apply ports_adds|apply adds_refl]).
  apply (grows_then _ _ (fs1, m)); [by apply grows_fs|]. clearbody fs1. clear fs Ha.
  case_match; [apply grows_fs, adds_refl|]. case_match; [apply grows_fs, adds_refl|].
  case_match; [apply reviewVolumes_grows|].
  destruct (reviewServiceKey _ _ _ _) eqn:E; apply grows_fs; [by eapply reviewServiceKey_adds|apply adds_add].
Qed.

(** ** The runtime's socket *)

(** The host path a mount entry delivers: directly, or through a declared volume. *)
Definition mounted_path (volumes : gmap string namedVolume) (entry : node) : option (string * bool) :=
  if is_kind ScalarNode entry && has_dollar (n_Value entry) then None
  else '(src, _, _) ← parseMount entry;
       if String.eqb src "" || has_dollar src then None
       else if isNamedVolume src then
         decl ← volumes !! src; if String.eqb (nv_HostPath decl) "" then None else Some (nv_HostPath decl, false)
       else if has_prefix src "/" then Some (src, true) else None.

Definition below (st : list Finding * mountIndex) : Prop :=
  forall i, i ∈ mi_runtimeSocketAt st.2 -> (i < length st.1)%nat.

(** A blocking finding about a mount, marked or not as one the exception may lower. *)
Definition socket_finding (name : string) (marked : bool) (st : list Finding * mountIndex) (i : nat) : Prop :=
  exists f, st.1 !! i = Some f /\ f_Service f = name /\ f_Key f = "volumes" /\ f_Severity f = SeverityBlocking /\
    (i ∈ mi_runtimeSocketAt st.2 <-> marked = true).

Lemma grows_below name a b : grows name a b -> below a -> below b.
Proof.
  intros [A _ _ _ N] Hb i Hi. pose proof (adds_length _ _ _ A). apply N in Hi as [Hi|?]; [apply Hb in Hi; lia|lia].
Qed.

Lemma grows_finding service name marked a b i : grows service a b -> socket_finding name marked a i -> socket_finding name marked b i.
Proof.
  intros [A _ _ K N] (f & Hi & Hs & Hk & Hv & Hm). exists f. split_and!; try done; [by eapply adds_lookup|].
  apply lookup_lt_Some in Hi as Hlt. rewrite <-Hm. split; [|apply K]. intros Hb. apply N in Hb as [?|?]; [done|lia].
Qed.

Lemma docker_verdict p : contains dockerSockets (path_Clean p) = true ->
  hostPathVerdict p = (SeverityBlocking, path_Clean p, "the container runtime's socket").
Proof.
  intros Hc. unfold hostPathVerdict. generalize dependent (path_Clean p). intros c Hc.
  apply contains_spec in Hc. unfold dockerSockets in Hc. rewrite !elem_of_cons in Hc.
  by destruct Hc as [-> | [-> | [-> | ?%elem_of_nil]]].
Qed.

Lemma mount_found name st entry path direct : below st -> mounted_path (mi_volumes st.2) entry = Some (path, direct) ->
  contains dockerSockets (path_Clean path) = true ->
  socket_finding name (direct && contains runtimeDockerSockets (path_Clean path)) (review_mount name st entry) (length st.1).
Proof.
  destruct st as [fs m]. intros Hb Hp Hc. cbn [fst snd] in *. unfold mounted_path in Hp. unfold review_mount.
  destruct (is_kind ScalarNode entry && has_dollar (n_Value entry)); [done|].
  destruct (parseMount entry) as [[[src target] ro]|]; cbn in Hp; [|done].
  destruct (String.eqb src ""); [done|]. cbn in Hp. destruct (has_dollar src); [done|].
  assert (forall i, i ∈ mi_runtimeSocketAt m -> i = length fs -> False) as Hfresh.
  { intros i Hi ->. apply Hb in Hi. cbn in Hi. lia. }
  assert (forall f, (fs ++ [f]) !! length fs = Some f) as Hlast by (intros f; by apply list_lookup_middle).
  destruct (isNamedVolume src).
  - unfold named_mount. cbn [mi_volumes hold]. destruct (mi_volumes m !! src) as [decl|]; cbn in Hp; [|done].
    destruct (String.eqb (nv_HostPath decl) "") eqn:Eh; [done|]. injection Hp as <- <-. cbn [negb].
    rewrite docker_verdict by done. cbn. eexists. unfold add. split; [apply Hlast|]. cbn. split_and!; try done.
    split; [|done]. intros Hi. exfalso. by eapply Hfresh.
  - destruct (has_prefix src "/"); [|done]. injection Hp as <- <-. cbn [negb andb].
    unfold host_mount. rewrite docker_verdict by done. generalize (contains runtimeDockerSockets (path_Clean src)) as marked.
    intros marked. cbn [String.eqb]. eexists. unfold add. cbn. split; [apply Hlast|]. cbn. split_and!; try done.
    destruct marked; cbn.
    + split; [done|]. intros _. apply elem_of_union. left. by apply elem_of_singleton.
    + split; [|done]. intros Hi. exfalso. by eapply Hfresh.
Qed.

(** Found in a fold of steps that only grow. *)
Lemma fold_found {A} service name marked (f : list Finding * mountIndex -> A -> list Finding * mountIndex) l x st :
  (forall st a, grows service st (f st a)) -> x ∈ l -> below st ->
  (forall st', grows service st st' -> below st' -> exists i, (length st'.1 <= i)%nat /\ socket_finding name marked (f st' x) i) ->
  exists i, (length st.1 <= i)%nat /\ socket_finding name marked (fold_left f l st) i.
Proof.
  intros Hf Hx Hb Hfound. apply list_elem_of_split in Hx as (a & b & ->). rewrite fold_left_app. cbn.
  pose proof (grows_fold service f a st Hf) as Ha. destruct (Hfound _ Ha) as (i & Hi & Hs); [by eapply grows_below|].
  exists i. pose proof (adds_length _ _ _ (gw_adds _ _ _ Ha)). split; [lia|].
  eapply grows_finding; [by apply grows_fold|done].
Qed.

Lemma service_found name body vols k entry path direct st : below st ->
  (k, vols) ∈ pairs (n_Content body) -> n_Value k = "volumes" -> n_Kind vols = SequenceNode -> entry ∈ n_Content vols ->
  mounted_path (mi_volumes st.2) entry = Some (path, direct) -> contains dockerSockets (path_Clean path) = true ->
  exists i, (length st.1 <= i)%nat /\
    socket_finding name (direct && contains runtimeDockerSockets (path_Clean path))
      (fold_left (review_key name) (pairs (n_Content body)) st) i.
Proof.
  intros Hb Hk Ek Hv He Hp Hc. apply (fold_found name) with (x := (k, vols)); [apply review_key_grows|done..|].
  intros [fs m] Hg Hb'. unfold review_key. cbn [fst snd]. rewrite Ek. cbn [String.eqb Ascii.eqb Bool.eqb].
  replace (contains benignServiceKeys "volumes") with false by reflexivity.
  replace (has_prefix "volumes" "x-") with false by reflexivity. cbn -[reviewVolumes].
  unfold reviewVolumes. unfold is_kind. rewrite Hv. cbn [negb bool_decide].
  rewrite bool_decide_eq_true_2 by done. cbn [negb].
  apply (fold_found name name _ (review_mount name) _ entry (fs, m)); [apply review_mount_grows|done..|].
  intros st' Hg' Hb2. exists (length st'.1). split; [done|]. apply mount_found; [done| |done].
  rewrite (gw_volumes _ _ _ Hg'). cbn. pose proof (gw_volumes _ _ _ Hg) as Hvol. cbn in Hvol. by rewrite Hvol.
Qed.

(** *** The exception's conditions *)

(** What [controllerEligible] establishes of a service. *)
Record limited_controller (body : node) (volumes : gmap string namedVolume) (interpolated_volumes : list string)
    (rels : option ReleaseVerifier) : Prop := {
  lc_pinned : Pinned (reviewed controllerService body) = true;
  lc_released : exists r, rels = Some r /\ rs_Image (reviewed controllerService body) = rl_Repository r /\
    rv_Status (rl_Verify r (rs_Image (reviewed controllerService body)) (rs_Digest (reviewed controllerService body))) = ReleaseAccepted;
  lc_literal : firstInterpolated body "" = None;
  lc_keys : forall k v, (k, v) ∈ pairs (n_Content body) -> n_Value k ∈ controllerKeys;
  lc_command : commandOf (mapValue (Some body) "command") = Some controllerCommand;
  lc_env : exists names, env_names (mapValue (Some body) "environment") = Some names /\
    Forall (fun k => k ∈ controllerEnv) names /\ controllerEnginesEnv ∉ names;
  lc_healthcheck : onlyControllerHealthcheck (mapValue (Some body) "healthcheck") = "";
  lc_mounts : forall vols entry src t ro, mapValue (Some body) "volumes" = Some vols -> entry ∈ n_Content vols ->
    parseMount entry = Some (src, t, ro) -> src <> "" ->
    if isNamedVolume src then
      exists decl, volumes !! src = Some decl /\ (src ∉ interpolated_volumes) /\
        nv_HostPath decl = "" /\ nv_Opaque decl = "" /\ nv_External decl = false
    else has_prefix src "/" = true /\
      (path_Clean src ∈ runtimeDockerSockets \/ path_Clean src ∈ guestAgentSockets)
}.

Lemma first_reason_empty {A} (f : A -> string) l : first_reason f l = "" -> forall x, x ∈ l -> f x = "".
Proof.
  unfold first_reason. destruct (List.find _ (map f l)) as [s|] eqn:E.
  - apply find_some in E as [_ Hs]. cbn. intros ->. done.
  - intros _ x Hx. apply list_elem_of_In in Hx. pose proof (find_none _ _ E (f x) (in_map f l x Hx)) as Hn. cbn in Hn.
    apply negb_false_iff in Hn. by apply String.eqb_eq.
Qed.

Lemma unless_ok why : unless why = Ok tt <-> why = "".
Proof. unfold unless. destruct (String.eqb_spec why ""); split; congruence. Qed.

Lemma nonempty_message s (P : Prop) : s = "" -> (s <> "" \/ P) -> P.
Proof. intros -> [?|?]; done. Qed.

Lemma find_none_all {A} (f : A -> bool) l : List.find f l = None -> forall x, x ∈ l -> f x = false.
Proof. intros E x Hx. apply (find_none _ _ E), list_elem_of_In, Hx. Qed.

Lemma onlyControllerEnv_names env : onlyControllerEnv env = "" ->
  exists names, env_names env = Some names /\ Forall (fun k => k ∈ controllerEnv) names.
Proof.
  unfold onlyControllerEnv. destruct (env_names env) as [names|]; [|done].
  destruct (List.find _ names) eqn:E; [done|]. intros _. exists names. split; [done|]. apply Forall_forall. intros k Hk.
  pose proof (find_none_all _ _ E k Hk) as Hf. apply negb_false_iff in Hf. by apply contains_spec.
Qed.

Lemma mount_refused_spec m entry src t ro : mount_refused m entry = "" -> parseMount entry = Some (src, t, ro) -> src <> "" ->
  if isNamedVolume src then
    exists decl, mi_volumes m !! src = Some decl /\ (src ∉ mi_interpolatedVolumes m) /\
      nv_HostPath decl = "" /\ nv_Opaque decl = "" /\ nv_External decl = false
  else has_prefix src "/" = true /\ (path_Clean src ∈ runtimeDockerSockets \/ path_Clean src ∈ guestAgentSockets).
Proof.
  unfold mount_refused. intros Hm Hp Hne. rewrite Hp in Hm. apply String.eqb_neq in Hne. rewrite Hne in Hm.
  destruct (isNamedVolume src).
  - destruct (mi_volumes m !! src) as [decl|]; [|done]. exists decl.
    destruct (contains (mi_interpolatedVolumes m) src) eqn:Ei; [done|]. apply contains_false in Ei.
    destruct (String.eqb_spec (nv_HostPath decl) ""); [|done]. destruct (String.eqb_spec (nv_Opaque decl) ""); [|done].
    destruct (nv_External decl); [done|]. done.
  - destruct (has_prefix src "/"); [|done]. split; [done|]. cbn in Hm.
    destruct (contains runtimeDockerSockets _) eqn:E1; [left; by apply contains_spec|].
    destruct (contains guestAgentSockets _) eqn:E2; [right; by apply contains_spec|]. done.
Qed.

Lemma engines_allowed : controllerEnginesEnv ∉ controllerEnv.
Proof. apply (bool_decide_unpack _). exact I. Qed.

Lemma eligible_limited body m rels rel :
  controllerEligible body (reviewed controllerService body) m rels = Ok rel ->
  limited_controller body (mi_volumes m) (mi_interpolatedVolumes m) rels.
Proof.
  unfold controllerEligible. intros E.
  apply bind_ok in E as ([] & H1 & E). apply refuse_ok, negb_false_iff in H1.
  apply bind_ok in E as ([] & H2 & E). apply refuse_ok in H2.
  apply bind_ok in E as ([] & H3 & E). apply bind_ok in E as ([] & H4 & E). apply bind_ok in E as ([] & H5 & E).
  apply bind_ok in E as ([] & H6 & E). apply refuse_ok, negb_false_iff, bool_decide_eq_true in H6.
  apply bind_ok in E as ([] & H7 & E). apply bind_ok in E as ([] & H8 & E). apply bind_ok in E as ([] & H9 & E).
  apply bind_ok in E as ([] & H10 & _). apply unless_ok in H7, H8, H9, H10.
  destruct rels as [r|]; [|by cbn in H3]. apply negb_false_iff, String.eqb_eq in H2.
  split; try done.
  - exists r. split_and!; [done|done|]. cbn in H3. by destruct (rv_Status _).
  - by destruct (firstInterpolated body "").
  - intros k v Hk. destruct (List.find _ _) as [[]|] eqn:Ef; [done|]. pose proof (find_none_all _ _ Ef _ Hk) as Hf.
    cbn in Hf. apply negb_false_iff in Hf. by apply contains_spec.
  - apply onlyControllerEnv_names in H8 as (names & Hn & Hall). exists names. split_and!; [done..|].
    intros Hin. rewrite Forall_forall in Hall. by apply Hall, engines_allowed in Hin.
  - intros vols entry src t ro Hv He Hp Hne. unfold onlySocketHostMounts in H10. rewrite Hv in H10.
    destruct (negb (is_kind SequenceNode vols)); [done|].
    eapply mount_refused_spec; [by apply (first_reason_empty _ _ H10)|done..].
Qed.

Lemma elem_of_places name start fs i f : (i, f) ∈ blocking_places name start fs <->
  fs !! i = Some f /\ (start <= i)%nat /\ f_Service f = name /\ f_Severity f = SeverityBlocking.
Proof.
  unfold blocking_places. rewrite list_elem_of_In, filter_In, <-list_elem_of_In, elem_of_lookup_imap.
  unfold is_blocking_of. rewrite !andb_true_iff, Nat.leb_le, String.eqb_eq, bool_decide_eq_true. cbn. split.
  - intros [(j & y & [= -> ->] & Hj) ?]. tauto.
  - intros (Hi & ?). split; [by exists i, f|tauto].
Qed.

Lemma elem_of_socket_places name m start fs i : i ∈ socket_places name m start fs <->
  i ∈ mi_runtimeSocketAt m /\ exists f, fs !! i = Some f /\ (start <= i)%nat /\ f_Service f = name /\ f_Severity f = SeverityBlocking.
Proof.
  unfold socket_places. rewrite list_elem_of_In, in_map_iff. split.
  - intros ([j f] & <- & Hin). apply filter_In in Hin as [Hin Hm]. apply list_elem_of_In, elem_of_places in Hin.
    apply bool_decide_eq_true in Hm. split; [done|]. by exists f.
  - intros (Hm & f & Hf). exists (i, f). split; [done|]. apply filter_In. split.
    + apply list_elem_of_In. by apply elem_of_places.
    + by apply bool_decide_eq_true.
Qed.

Lemma justify_lookup name body svc m rels start fs i :
  justifyControllerRuntimeSocket name body svc m rels start fs !! i =
  (fun f => if bool_decide (name = controllerService /\ i ∈ socket_places name m start fs)
            then justify (exception_verdict name body svc m rels start fs) f else f) <$> fs !! i.
Proof.
  unfold justifyControllerRuntimeSocket. destruct (String.eqb_spec name controllerService) as [->|Hne]; cbn [negb].
  - destruct (socket_places _ _ _ _) as [|j l] eqn:E.
    + rewrite bool_decide_eq_false_2; [by destruct (fs !! i)|]. intros [_ Hi]. by apply elem_of_nil in Hi.
    + rewrite <-E, list_lookup_imap. destruct (fs !! i); [|done]. cbn. f_equal.
      rewrite (bool_decide_ext (controllerService = controllerService /\ _) (i ∈ socket_places controllerService m start fs)); [done|tauto].
  - rewrite bool_decide_eq_false_2 by tauto. by destruct (fs !! i).
Qed.

Lemma justify_length name body svc m rels start fs :
  length (justifyControllerRuntimeSocket name body svc m rels start fs) = length fs.
Proof. unfold justifyControllerRuntimeSocket. repeat case_match; [done..|]. apply length_imap. Qed.

Definition pg_state (pg : progress) : list Finding * mountIndex := (pg_Findings pg, pg_Mounts pg).

Lemma image_rules_adds svc build fs : adds (rs_Name svc) fs (image_rules svc build fs).
Proof. unfold image_rules. apply adds_then_if, adds_then_if. repeat case_match; auto with adds. Qed.

Lemma reviewed_name name body : rs_Name (reviewed name body) = name.
Proof. unfold reviewed. repeat case_match; done. Qed.

(** The state a service's rules reach before the exception is considered. *)
Definition before_exception (pg : progress) (name : string) (body : node) : list Finding * mountIndex :=
  let build := match mapValue (Some body) "build" with Some _ => true | None => false end in
  fold_left (review_key name) (pairs (n_Content body)) (image_rules (reviewed name body) build (pg_Findings pg), pg_Mounts pg).

Lemma before_exception_grows pg name body : grows name (pg_state pg) (before_exception pg name body).
Proof.
  unfold before_exception. eapply grows_then; [|apply grows_fold, review_key_grows].
  apply grows_fs. rewrite <-(reviewed_name name body) at 1. apply image_rules_adds.
Qed.

Lemma reviewService_eq rels pg name body : n_Kind body = MappingNode ->
  pg_state (reviewService rels pg name body) =
  (justifyControllerRuntimeSocket name body (reviewed name body) (before_exception pg name body).2 rels
     (length (pg_Findings pg)) (before_exception pg name body).1, (before_exception pg name body).2).
Proof.
  intros Hk. unfold reviewService, before_exception, is_kind. rewrite bool_decide_eq_true_2 by done. cbn [negb].
  by destruct (fold_left _ _ _) as [fs m].
Qed.

(** What a service leaves alone: the findings before it, and the declared volumes. *)
Lemma reviewService_keeps rels pg name body : below (pg_state pg) ->
  below (pg_state (reviewService rels pg name body)) /\
  mi_volumes (pg_Mounts (reviewService rels pg name body)) = mi_volumes (pg_Mounts pg) /\
  mi_interpolatedVolumes (pg_Mounts (reviewService rels pg name body)) = mi_interpolatedVolumes (pg_Mounts pg) /\
  forall i f, pg_Findings pg !! i = Some f -> pg_Findings (reviewService rels pg name body) !! i = Some f.
Proof.
  intros Hb. destruct (decide (n_Kind body = MappingNode)) as [Hk|Hk].
  - pose proof (reviewService_eq rels pg name body Hk) as E. pose proof (before_exception_grows pg name body) as Hg.
    set (b := before_exception pg name body) in *. injection E as Ef Em. rewrite Em. split_and!.
    + intros i Hi. cbn in Hi |- *. rewrite Em in Hi. rewrite Ef, justify_length. by apply (grows_below _ _ _ Hg).
    + apply (gw_volumes _ _ _ Hg).
    + apply (gw_interpolated _ _ _ Hg).
    + intros i f Hf. rewrite Ef, justify_lookup, (adds_lookup _ _ _ _ _ (gw_adds _ _ _ Hg) Hf). cbn.
      rewrite bool_decide_eq_false_2; [done|]. intros [_ Hi]. apply elem_of_socket_places in Hi as (_ & _ & _ & Hge & _).
      apply lookup_lt_Some in Hf. lia.
  - unfold reviewService, is_kind. rewrite bool_decide_eq_false_2 by done. cbn. split_and!; try done.
    + intros i Hi. apply Hb in Hi. cbn in *. unfold add. rewrite length_app. lia.
    + intros i f Hf. by apply lookup_app_l_Some.
Qed.

(** A service's own socket: blocking, unless the exception's conditions are met. *)
Lemma reviewService_socket rels pg name body vols k entry path direct : below (pg_state pg) ->
  n_Kind body = MappingNode -> (k, vols) ∈ pairs (n_Content body) -> n_Value k = "volumes" ->
  n_Kind vols = SequenceNode -> entry ∈ n_Content vols ->
  mounted_path (mi_volumes (pg_Mounts pg)) entry = Some (path, direct) -> contains dockerSockets (path_Clean path) = true ->
  (exists f, f ∈ pg_Findings (reviewService rels pg name body) /\ f_Service f = name /\ f_Key f = "volumes" /\
     f_Severity f = SeverityBlocking) \/
  (direct = true /\ path_Clean path ∈ runtimeDockerSockets /\ name = controllerService /\
   limited_controller body (mi_volumes (pg_Mounts pg)) (mi_interpolatedVolumes (pg_Mounts pg)) rels).
Proof.
  intros Hb Hk Hv Ek Hs He Hp Hc. pose proof (reviewService_eq rels pg name body Hk) as E.
  pose proof (before_exception_grows pg name body) as Hg.
  set (build := match mapValue (Some body) "build" with Some _ => true | None => false end).
  destruct (service_found name body vols k entry path direct
    (image_rules (reviewed name body) build (pg_Findings pg), pg_Mounts pg)) as (i & Hi & f & Hf & Hfs & Hfk & Hfv & Hm); try done.
  { assert (grows name (pg_state pg) (image_rules (reviewed name body) build (pg_Findings pg), pg_Mounts pg)) as Hg1.
    { apply grows_fs. rewrite <-(reviewed_name name body) at 1. apply image_rules_adds. }
    by eapply grows_below. }
  change (fold_left _ _ _) with (before_exception pg name body) in Hf, Hm.
  set (b := before_exception pg name body) in *. injection E as Ef Em.
  assert (pg_Findings (reviewService rels pg name body) !! i = (fun f =>
     if bool_decide (name = controllerService /\ i ∈ socket_places name b.2 (length (pg_Findings pg)) b.1)
     then justify (exception_verdict name body (reviewed name body) b.2 rels (length (pg_Findings pg)) b.1) f else f) <$> Some f) as El
    by (by rewrite Ef, justify_lookup, Hf).
  case_bool_decide as Hpl; cbn in El; [|left; exists f; split; [by eapply list_elem_of_lookup_2|done]].
  destruct Hpl as [-> Hpl]. destruct (exception_verdict _ _ _ _ _ _ _) as [rel|why] eqn:Ev.
  - right. apply elem_of_socket_places in Hpl as [Hpl _]. apply Hm, andb_true_iff in Hpl as [Hd Hr].
    apply contains_spec in Hr. unfold exception_verdict in Ev. apply bind_ok in Ev as (rel' & Hel & _).
    split_and!; [done..|]. apply eligible_limited in Hel.
    by rewrite (gw_volumes _ _ _ Hg), (gw_interpolated _ _ _ Hg) in Hel.
  - left. eexists. split; [by eapply list_elem_of_lookup_2|]. done.
Qed.

(** *** The whole review *)

Lemma driver_opts_fs decl key fs fs' : (driver_opts_rule decl key fs).1 = (driver_opts_rule decl key fs').1.
Proof. unfold driver_opts_rule. repeat case_match; done. Qed.

Lemma first_of {A B C D} (x y : (A * B) * C) (g : A -> B -> D) : x.1 = y.1 ->
  (let '((p, o), c) := x in (g p o, c)).1 = (let '((p, o), c) := y in (g p o, c)).1.
Proof. destruct x as [[] ?], y as [[] ?]. cbn. by intros [= -> ->]. Qed.

Lemma review_volume_fs name decl fs fs' : (review_volume name decl fs).1 = (review_volume name decl fs').1.
Proof.
  unfold review_volume. case_match; [done|]. case_match; [done|]. case_match; [done|]. case_match; [done|].
  apply first_of, driver_opts_fs.
Qed.

Lemma volumes_fs n fs fs' : (reviewTopLevelVolumes n fs).1 = (reviewTopLevelVolumes n fs').1.
Proof.
  unfold reviewTopLevelVolumes. destruct n as [n|]; [|done]. case_match; [done|].
  generalize (∅ : gmap string namedVolume) as out. revert fs fs'.
  induction (pairs (n_Content n)) as [|kv l IH]; intros fs fs' out; cbn; [done|].
  destruct (String.eqb (n_Value kv.1) ""); [apply IH|].
  pose proof (review_volume_fs (n_Value kv.1) kv.2 fs fs') as E.
  destruct (review_volume _ _ fs) as [v1 fs1], (review_volume _ _ fs') as [v2 fs2]. cbn in E. subst v2. apply IH.
Qed.

(** What the volumes a compose text declares mean, and which of them hold a template. *)
Definition declared (top : node) : gmap string namedVolume := (reviewTopLevelVolumes (mapValue (Some top) "volumes") []).1.
Definition templated (top : node) : list string := interpolatedEntries (mapValue (Some top) "volumes").

Lemma top_rules_volumes top fs : (top_rules top fs).1 = declared top.
Proof.
  unfold top_rules, declared. set (fs1 := include_rule _ _).
  rewrite (volumes_fs _ [] fs1). by destruct (reviewTopLevelVolumes _ fs1).
Qed.

(** The manifest's compose text, and what it loads to. *)
Definition manifest_of (drawn : option bytes) (raw : bytes) (top : node) : Prop :=
  exists fields text, raw_fields raw = Ok fields /\ jsonString (raw_field fields "docker_compose_file") = Some text /\
    nonblank text = true /\ readComposeDocument drawn text = Ok top /\ n_Kind top = MappingNode.

(** A service of it. *)
Definition service_in (top : node) (name : string) (body : node) : Prop :=
  name <> "" /\ n_Kind body = MappingNode /\ exists services k, mapValue (Some top) "services" = Some services /\
    n_Kind services = MappingNode /\ (k, body) ∈ pairs (n_Content services) /\ n_Value k = name.

(** One of its mounts delivers a path of the host. *)
Definition mounts_host (top body : node) (path : string) (direct : bool) : Prop :=
  exists k vols entry, (k, vols) ∈ pairs (n_Content body) /\ n_Value k = "volumes" /\ n_Kind vols = SequenceNode /\
    entry ∈ n_Content vols /\ mounted_path (declared top) entry = Some (path, direct).

Definition service_step (rels : option ReleaseVerifier) (pg : progress) (kv : node * node) : progress :=
  if String.eqb (n_Value kv.1) "" then pg else reviewService rels pg (n_Value kv.1) kv.2.

Lemma service_steps_keep rels l pg : below (pg_state pg) ->
  below (pg_state (fold_left (service_step rels) l pg)) /\
  mi_volumes (pg_Mounts (fold_left (service_step rels) l pg)) = mi_volumes (pg_Mounts pg) /\
  mi_interpolatedVolumes (pg_Mounts (fold_left (service_step rels) l pg)) = mi_interpolatedVolumes (pg_Mounts pg) /\
  forall f, f ∈ pg_Findings pg -> f ∈ pg_Findings (fold_left (service_step rels) l pg).
Proof.
  revert pg. induction l as [|kv l IH]; intros pg Hb; cbn; [done|]. unfold service_step at 2 4 6 8.
  destruct (String.eqb _ _); [by apply IH|].
  destruct (reviewService_keeps rels pg (n_Value kv.1) kv.2 Hb) as (Hb' & Hv & Hi & Hf).
  destruct (IH _ Hb') as (H1 & H2 & H3 & H4). split_and!; [done|congruence|congruence|].
  intros f Hin. apply H4. apply list_elem_of_lookup in Hin as [i Hin]. by eapply list_elem_of_lookup_2, Hf.
Qed.

Lemma in_sorted fs f : f ∈ fs -> f ∈ sortFindings fs.
Proof. unfold sortFindings. by rewrite merge_sort_Permutation. Qed.

Lemma adds_elem service fs fs' f : adds service fs fs' -> f ∈ fs -> f ∈ fs'.
Proof. intros (new & -> & _) Hin. apply elem_of_app. by left. Qed.

Lemma shared_adds m fs : adds "" fs (reviewSharedMounts m fs).
Proof. unfold reviewSharedMounts. auto with adds. Qed.

(** A runtime's socket under a path of its own is not judged one: containerd's is listed
    under [/var/run] alone, and [/run], where that links to, is only judged as a whole. *)
Example unlisted_runtime_socket :
  map (fun p => (hostPathVerdict p).1.1)
    ["/var/run/docker.sock"; "/run/docker.sock"; "/var/run/containerd/containerd.sock"; "/run/containerd/containerd.sock"; "/run/containerd"]
  = [SeverityBlocking; SeverityBlocking; SeverityBlocking; SeverityNote; SeverityNote].
Proof. vm_compute. reflexivity. Qed.

(** C35: a listed runtime socket is blocking, for everyone but the known controller.
    Whatever way a service of a reviewed manifest is handed a path that is one of the
    three runtime sockets the review lists, [/var/run/docker.sock], [/run/docker.sock] and
    [/var/run/containerd/containerd.sock] (directly or behind a volume's name, in any
    spelling that [path.Clean] brings to it), the review holds a blocking finding for that service's volumes, unless it is mounted
    directly from docker's own socket into the service named 0g-controller and that
    service meets every condition: a pinned image the release verifier accepts, no template
    anywhere, no key or variable outside the lists, the engines variable absent, the
    recorded command and healthcheck, and no other mount than sockets and ordinary volumes. *)
Theorem runtime_socket_blocks drawn raw composeHash rels r top name body path direct :
  ReviewCompose drawn raw composeHash rels = Ok r -> manifest_of drawn raw top -> service_in top name body ->
  mounts_host top body path direct -> path_Clean path ∈ dockerSockets ->
  (exists f, f ∈ cr_Findings r /\ f_Service f = name /\ f_Key f = "volumes" /\ f_Severity f = SeverityBlocking) \/
  (direct = true /\ path_Clean path ∈ runtimeDockerSockets /\ name = controllerService /\
   limited_controller body (declared top) (templated top) rels).
Proof.
  intros Hr (fields & text & Hfields & Htext & Hnb & Hdoc & Htop) (Hne & Hbody & services & k & Hs & Hsk & Hk & Hkn)
    (kv & vols & entry & Hv & Hvn & Hvk & He & Hp) Hc.
  unfold ReviewCompose in Hr. apply bind_ok in Hr as ([] & _ & Hr). rewrite Hfields in Hr. cbn [map_err] in Hr.
  rewrite bind_ok_l in Hr. injection Hr as <-.
  unfold reviewFields. rewrite Htext, Hnb. cbn [negb]. unfold reviewComposeText. rewrite Hdoc.
  unfold is_kind. rewrite !bool_decide_eq_true_2 by done. cbn [negb].
  pose proof (top_rules_volumes top (cr_Findings (fields_review fields))) as Ev.
  destruct (top_rules top _) as [volumes fs]. cbn in Ev. subst volumes.
  rewrite Hs. rewrite bool_decide_eq_true_2 by done. cbn [negb sorted with_text cr_Findings].
  set (pg0 := MkProgress [] [] fs (MkMounts ∅ ∅ (declared top) ∅ (templated top))).
  assert (service_rules rels top services (declared top) fs = fold_left (service_step rels) (pairs (n_Content services)) pg0) as -> by done.
  apply list_elem_of_split in Hk as (a & b & ->). rewrite fold_left_app. cbn [fold_left].
  assert (below (pg_state pg0)) as Hb0 by (intros i Hi; by apply elem_of_empty in Hi).
  destruct (service_steps_keep rels a pg0 Hb0) as (Hb1 & Hv1 & Hi1 & _).
  set (pg1 := fold_left (service_step rels) a pg0) in *.
  unfold service_step at 2 4 6. cbn [fst snd]. rewrite Hkn. apply String.eqb_neq in Hne as Hne'. rewrite Hne'.
  destruct (reviewService_socket rels pg1 name body vols kv entry path direct) as [(f & Hf & Hfs)|Hex]; try done.
  - by rewrite Hv1.
  - by apply contains_spec.
  - left. exists f. split; [|done]. apply in_sorted. eapply adds_elem; [apply shared_adds|].
    eapply adds_elem; [apply adds_if|].
    destruct (reviewService_keeps rels pg1 name body Hb1) as (Hb2 & _).
    by apply (service_steps_keep rels b _ Hb2).
  - right. by rewrite Hv1, Hi1 in Hex.
Qed.

End reviewing.

(** ** Paths by where they lead *)

(** The names from the root on. *)
Definition names_to (p : string) : list bytes := (path_to (bytes_of p)).2.

Definition starts_with (pre segs : list bytes) : bool := bool_decide (firstn (length pre) segs = pre).

(** The verdict on a place: its own names against the recorded places', tree by tree. *)
Definition verdict_at (segs : list bytes) : Severity * string :=
  if bool_decide (segs ∈ map names_to guestAgentSockets) then (SeverityJustify, "the guest-agent socket")
  else if bool_decide (segs ∈ map names_to dockerSockets) then (SeverityBlocking, "the container runtime's socket")
  else if starts_with (names_to "/dev/shm") segs then (SeverityJustify, "shared memory")
  else if bool_decide (segs ∈ map names_to blockingHostExact)
          || existsb (fun pre => starts_with (names_to pre) segs) blockingHostPrefixes
  then (SeverityBlocking, "a host tree the CVM's own OS owns")
  else (SeverityNote, "").

Lemma split_on_join_app sep a b : split_on sep (a ++ sep :: b) = split_on sep a ++ split_on sep b.
Proof.
  induction a as [|c a IH]; cbn.
  - destruct (split_on_cons sep b) as (p & ps & ->). by rewrite Ascii.eqb_refl.
  - rewrite IH. destruct (split_on_cons sep a) as (p & ps & ->). cbn. by destruct (Ascii.eqb c sep).
Qed.

(** What [path.Clean] leaves of a path from the root. *)
Lemma names_kept p : Forall (fun s => s <> [] /\ "/"%char ∉ s) (names_to p).
Proof.
  pose proof (kept_pieces _ _ (clean_segs_kept (rooted (bytes_of p)) _ (split_no_sep "/" (bytes_of p)))) as Hk.
  apply Forall_rev in Hk. by rewrite rev_involutive in Hk.
Qed.

Lemma clean_rooted p : has_prefix p "/" = true -> bytes_of (path_Clean p) = "/"%char :: join_on "/" (names_to p).
Proof.
  intros Hp. unfold path_Clean. rewrite bytes_of_str_of. unfold render_path, names_to.
  assert (rooted (bytes_of p) = true) as Hr.
  { unfold has_prefix in Hp. destruct (bytes_of p) as [|c l]; [done|]. cbn [rooted].
    change (bytes_of "/") with ["/"%char] in Hp. cbn [strip_prefix] in Hp.
    destruct (Ascii.eqb_spec "/"%char c) as [<-|]; [done|done]. }
  unfold path_to. cbn [fst snd]. by rewrite Hr.
Qed.

Lemma join_inj s t : Forall (fun s => s <> [] /\ "/"%char ∉ s) s -> Forall (fun s => s <> [] /\ "/"%char ∉ s) t ->
  join_on "/" s = join_on "/" t -> s = t.
Proof.
  intros Hs Ht E. destruct s as [|x s], t as [|y t]; [done| | |].
  - exfalso. inversion Ht as [|? ? [Hy _] _]; subst. destruct y; [done|]. by destruct t.
  - exfalso. inversion Hs as [|? ? [Hx _] _]; subst. destruct x; [done|]. by destruct s.
  - apply (f_equal (split_on "/")) in E. rewrite !split_join in E; try done; eapply Forall_impl; try done; by intros ? [_ ?].
Qed.

Lemma join_starts pre segs : pre <> [] ->
  Forall (fun s => s <> [] /\ "/"%char ∉ s) pre -> Forall (fun s => s <> [] /\ "/"%char ∉ s) segs ->
  ((exists r, join_on "/" segs = join_on "/" pre ++ "/"%char :: r) \/ segs = pre <-> firstn (length pre) segs = pre).
Proof.
  intros Hne Hp Hs.
  assert (forall l, Forall (fun s : bytes => s <> [] /\ "/"%char ∉ s) l -> Forall (fun s => "/"%char ∉ s) l) as Hno.
  { intros l Hl. eapply Forall_impl; [done|]. by intros ? [_ ?]. }
  split.
  - intros [[r E]| ->]; [|by rewrite firstn_all]. destruct segs as [|x segs].
    + cbn in E. by destruct (join_on "/" pre).
    + apply (f_equal (split_on "/")) in E. rewrite split_on_join_app, !split_join in E by auto.
      by rewrite E, firstn_app, firstn_all, Nat.sub_diag, app_nil_r.
  - intros E. rewrite <-(firstn_skipn (length pre) segs), E. destruct (skipn (length pre) segs) as [|x rest]; [right; by rewrite app_nil_r|].
    left. exists (join_on "/" (x :: rest)). clear -Hne. induction pre as [|y pre IH]; [done|].
    destruct pre as [|z pre]; [done|]. cbn [app join_on] in *. rewrite IH by done. by rewrite <-(assoc_L (++)).
Qed.

(** The recorded paths are spelled as they are cleaned. *)
Lemma recorded_clean a : a ∈ guestAgentSockets ++ dockerSockets ++ blockingHostExact ++ blockingHostPrefixes ++ ["/dev/shm"] ->
  bytes_of a = "/"%char :: join_on "/" (names_to a) /\ (a <> "/" -> names_to a <> []).
Proof.
  intros Ha. assert (forallb (fun a => bool_decide (bytes_of a = "/"%char :: join_on "/" (names_to a)) &&
    (String.eqb a "/" || negb (bool_decide (names_to a = []))))
    (guestAgentSockets ++ dockerSockets ++ blockingHostExact ++ blockingHostPrefixes ++ ["/dev/shm"]) = true) as Hall by (vm_compute; reflexivity).
  rewrite forallb_forall in Hall. apply list_elem_of_In, Hall in Ha. apply andb_true_iff in Ha as [H1 H2].
  apply bool_decide_eq_true in H1. split; [done|]. intros Hne. apply orb_true_iff in H2 as [H2|H2].
  - by apply String.eqb_eq in H2.
  - apply negb_true_iff in H2. by apply bool_decide_eq_false in H2.
Qed.

Lemma contains_place l p : l ⊆ guestAgentSockets ++ dockerSockets ++ blockingHostExact ++ blockingHostPrefixes ++ ["/dev/shm"] ->
  has_prefix p "/" = true -> contains l (path_Clean p) = bool_decide (names_to p ∈ map names_to l).
Proof.
  intros Hl Hp. apply eq_true_iff_eq. rewrite contains_spec, bool_decide_eq_true, !list_elem_of_In, in_map_iff.
  pose proof (clean_rooted p Hp) as Hc. split.
  - intros Hin. exists (path_Clean p). split; [|done].
    destruct (recorded_clean (path_Clean p)) as [Hr _]; [by apply Hl, list_elem_of_In|]. rewrite Hc in Hr. injection Hr as Hr.
    apply join_inj in Hr; [done|apply names_kept..].
  - intros (a & E & Ha). destruct (recorded_clean a) as [Hr _]; [by apply Hl, list_elem_of_In|].
    assert (path_Clean p = a) as ->; [|done]. apply bytes_of_inj. by rewrite Hc, Hr, E.
Qed.

Lemma under_place a p : a ∈ guestAgentSockets ++ dockerSockets ++ blockingHostExact ++ blockingHostPrefixes ++ ["/dev/shm"] ->
  a <> "/" -> has_prefix p "/" = true ->
  (String.eqb (path_Clean p) a || has_prefix (path_Clean p) (a +:+ "/")) = starts_with (names_to a) (names_to p).
Proof.
  intros Ha Hne Hp. destruct (recorded_clean a Ha) as [Hr Hn]. specialize (Hn Hne).
  pose proof (clean_rooted p Hp) as Hc. apply eq_true_iff_eq. unfold starts_with.
  rewrite orb_true_iff, String.eqb_eq, bool_decide_eq_true, has_prefix_iff, Hc.
  rewrite <-(join_starts _ _ Hn (names_kept a) (names_kept p)).
  assert (bytes_of (a +:+ "/") = bytes_of a ++ ["/"%char]) as -> by (by rewrite bytes_of_app).
  rewrite Hr. split.
  - intros [E|[r E]].
    + right. apply (f_equal bytes_of) in E. rewrite Hc, Hr in E. injection E as E.
      by apply join_inj in E; [|apply names_kept..].
    + left. exists r. cbn [app] in E. injection E as E. by rewrite E, <-(assoc_L (++)).
  - intros [[r E]|E].
    + right. exists r. cbn [app]. by rewrite E, <-(assoc_L (++)).
    + left. apply bytes_of_inj. by rewrite Hc, Hr, E.
Qed.

(** A host path is judged by where it leads. For every absolute path, in whatever
    spelling ([//], [/./], [..], a trailing slash), the verdict is the one of the list of
    names it leads along: a recorded socket or directory is matched name by name, and a
    recorded tree takes in exactly the places whose first names are its own, so that
    /etc/hosts is under /etc and /etcetera is not. *)
Theorem verdict_by_place p : has_prefix p "/" = true ->
  hostPathVerdict p = ((verdict_at (names_to p)).1, path_Clean p, (verdict_at (names_to p)).2).
Proof.
  intros Hp. unfold hostPathVerdict, verdict_at.
  rewrite !contains_place by (done || (intros a Ha; rewrite !elem_of_app; tauto)).
  assert (hasPrefixPath (path_Clean p) blockingHostPrefixes = existsb (fun pre => starts_with (names_to pre) (names_to p)) blockingHostPrefixes) as ->.
  { unfold hasPrefixPath. assert (forall l, (forall a, a ∈ l -> a ∈ blockingHostPrefixes) ->
      existsb (fun pre => String.eqb (path_Clean p) pre || has_prefix (path_Clean p) (pre +:+ "/")) l = existsb (fun pre => starts_with (names_to pre) (names_to p)) l) as Hgen; [|by apply Hgen].
    induction l as [|a l IH]; intros Hl; [done|]. cbn [existsb]. rewrite IH by (intros b Hb; apply Hl; by right).
    rewrite under_place; [done|rewrite !elem_of_app; right; right; right; left; apply Hl; by left| |done].
    intros ->. assert ("/" ∈ blockingHostPrefixes) as Hin by (apply Hl; by left). revert Hin. apply (bool_decide_unpack _). exact I. }
  rewrite (under_place "/dev/shm") by (done || (rewrite !elem_of_app; do 4 right; by left)).
  repeat case_match; done.
Qed.

(** ** Witnesses *)

Module ReviewWitness.
Import BlockWitness.

(** A loader whose one document is [model]. *)
Section loader.
Context (model : amap).
Definition yaml_one : YamlLib := {|
  yaml_Unmarshal := fun _ => None;
  yaml_Documents := fun _ => ([Node DocumentNode "" "" plain [Node ScalarNode "!!str" "x" plain []]], false);
  yaml_Marshal := fun n => Some (str_of (render n));
  yaml_Encode := fun v => Some (encode v);
  yaml_Bool := bool_of
|}.
Definition compose_one : ComposeGo := {|
  cg_PathMatchAll := "*"; cg_PathMatchList := "[]";
  cg_NewPath := String.concat ".";
  cg_Next := fun p k => if String.eqb p "" then k else p +:+ "." +:+ k;
  cg_Matches := String.eqb;
  cg_typeCasts := [];
  cg_Template := fun _ => TemplateFine;
  cg_ParseYAML := fun _ => Ok model;
  cg_Interpolate := fun m _ => Ok m;
  cg_Merge := fun _ m => Ok m;
  cg_EnforceUnicity := Ok;
  cg_Schema := fun _ => Ok [];
  cg_Canonical := Ok;
  cg_Validate := fun _ => Ok tt
|}.
End loader.

Definition raw : bytes := print (JObj [(bytes_of "runner", jstr "docker-compose"); (bytes_of "docker_compose_file", jstr "x")]).
Definition hash : bytes := Eval vm_compute in sha256 raw.
Definition drawn : option bytes := Some (repeat "k"%char 16).

Definition bind_of (source : string) : any :=
  AMap [("type", AStr "bind"); ("source", AStr source); ("target", AStr "/var/run/docker.sock")].
Definition broker : string := "ghcr.io/0gfoundation/broker".
Definition socket : string := "/run/../var/run//docker.sock".
Definition body_of (image : string) : any :=
  AMap [("image", AStr image); ("command", AStr "0g-controller"); ("volumes", AList [bind_of socket])].
Definition model_of (name image : string) : amap := [("services", AMap [(name, body_of image)])].
Definition releases : ReleaseVerifier :=
  MkReleases broker (fun _ d => if String.eqb d (digest_of "a") then MkVerdict ReleaseAccepted (MkRelease "v0.5.4" d "") ""
                                else MkVerdict ReleaseRejected noRelease "not a release").

Definition review_of (name image : string) : eresult ComposeReview :=
  @ReviewCompose yaml_one (compose_one (model_of name image)) drawn raw hash (Some releases).
Definition top_of (name image : string) : node := encode (AMap (model_of name image)).
Definition blocking (name image : string) : nat :=
  match review_of name image with Ok r => Count r SeverityBlocking | Err _ => 99%nat end.

(** The controller at its release keeps no blocking finding; anyone else, and another build, does. *)
Example exception_applies : blocking controllerService (broker +:+ "@" +:+ digest_of "a") = 0%nat.
Proof. vm_compute. reflexivity. Qed.
Example exception_needs_the_release : blocking controllerService (broker +:+ "@" +:+ digest_of "b") = 1%nat.
Proof. vm_compute. reflexivity. Qed.
Example exception_needs_the_service : blocking "gateway" (broker +:+ "@" +:+ digest_of "a") = 1%nat.
Proof. vm_compute. reflexivity. Qed.

Definition gateway_image : string := broker +:+ "@" +:+ digest_of "a".
Definition gateway_review : ComposeReview :=
  match review_of "gateway" gateway_image with Ok r => r | Err _ => fields_review ∅ end.

Lemma runtime_socket_blocks_witness :
  review_of "gateway" gateway_image = Ok gateway_review /\ path_Clean socket = "/var/run/docker.sock" /\
  exists f, f ∈ cr_Findings gateway_review /\ f_Service f = "gateway" /\ f_Key f = "volumes" /\ f_Severity f = SeverityBlocking.
Proof.
  assert (Er : review_of "gateway" gateway_image = Ok gateway_review) by (vm_compute; reflexivity).
  split; [exact Er|]. split; [vm_compute; reflexivity|].
  destruct (@runtime_socket_blocks yaml_one (compose_one (model_of "gateway" gateway_image)) drawn raw hash (Some releases)
    gateway_review (top_of "gateway" gateway_image) "gateway" (encode (body_of gateway_image)) socket true) as [Hf|Hx].
  - exact Er.
  - exists (ok_or ∅ (raw_fields raw)), "x".
    split_and!; vm_compute; reflexivity.
  - split_and!; [discriminate|reflexivity|].
    exists (encode (AMap [("gateway", body_of gateway_image)])), (Node ScalarNode "!!str" "gateway" plain []).
    split_and!; [reflexivity..|left|reflexivity].
  - exists (Node ScalarNode "!!str" "volumes" plain []), (encode (AList [bind_of socket])), (encode (bind_of socket)).
    split_and!; [do 2 right; left|reflexivity|reflexivity|left|vm_compute; reflexivity].
  - replace (path_Clean socket) with "/var/run/docker.sock" by (vm_compute; reflexivity). left.
  - exact Hf.
  - destruct Hx as (_ & _ & Hn & _). discriminate Hn.
Defined.

Lemma verdict_by_place_witness :
  has_prefix "/etcetera/../etc/./hosts" "/" = true /\
  hostPathVerdict "/etcetera/../etc/./hosts" = (SeverityBlocking, "/etc/hosts", "a host tree the CVM's own OS owns").
Proof.
  assert (Hp : has_prefix "/etcetera/../etc/./hosts" "/" = true) by (vm_compute; reflexivity). split; [exact Hp|].
  rewrite (verdict_by_place _ Hp). vm_compute. reflexivity.
Defined.
End ReviewWitness.
