(* ===== verification/Baseline.v ===== *)
(** * Baseline: a manifest against the recorded deployment ([client/evidence/compose/composebaseline.go])

    The recorded deployments are read ([ParseComposeBaseline], unknown keys refused, every
    block reduced by the canonicalizer of the other side) and a manifest's blocks are
    compared with the one recorded for a provider ([CheckCompose], [CheckReview]), service
    by service and section by section, in every direction. The release verifier is an
    effectful one: it answers from, and may change, a state that is a parameter, since the
    route's answers from a cache that other requests share.

    The theorems: a comparison that passes means the manifest is the recorded deployment
    and every image the record lets move is an accepted release, and the converse; what
    a parsed baseline guarantees. *)

From S2P Require Import Prelude GoBytes GoJson GoDecode GoUrl GoText Profile Attest Runtime Boot Yaml Load Block Review.

Record ImageRule := MkRule { ir_Repository : string }.
Definition pinsImageInBlock (r : ImageRule) : bool := String.eqb (ir_Repository r) "".
Record BaselineService := MkBService { bs_Name : string; bs_Block : string; bs_Image : ImageRule }.
Record BaselineTopLevel := MkBTop { bt_Key : string; bt_Block : string }.
Record Deployment := MkDep {
  dp_Name : string; dp_Contract : string; dp_Providers : list string;
  dp_Services : list BaselineService; dp_TopLevel : list BaselineTopLevel
}.
Definition ComposeBaseline : Type := list Deployment.

Definition isAddress (s : string) : bool :=
  let b := bytes_of (trim_space s) in
  Nat.eqb (length b) 42 && has_prefix (trim_space s) "0x" && forallb is_hex_letter (skipn 2 b).
Definition normAddr (s : string) : string := to_lower (trim_space s).

(** [For]: the deployment recorded for a provider on a contract. *)
Definition For (b : ComposeBaseline) (contract provider : string) : option Deployment :=
  List.find (fun d => String.eqb (dp_Contract d) (normAddr contract) && contains (dp_Providers d) (normAddr provider)) b.

(** ** The file *)

Record imageFile := MkImageFile { if_Repository : string; if_Digest : string; if_Reference : string }.
Record serviceFile := MkServiceFile {
  sf_Name : string; sf_Note : list string; sf_Block : list string; sf_Image : option imageFile
}.
Record topLevelFile := MkTopFile { tf_Key : string; tf_Note : list string; tf_Block : list string }.
Record deploymentFile := MkDepFile {
  df_Name : string; df_Note : list string; df_Contract : string; df_Providers : list string;
  df_Services : list serviceFile; df_TopLevel : list topLevelFile
}.
Record composeBaselineFile := MkFile { cf_Comment : list string; cf_Deployments : list deploymentFile; cf_Services : bool }.

(** Into a struct with unknown keys refused. *)
Definition strict_struct {T} (fs : list (string * (T -> json -> result jerr T))) (zero : T) (j : json) : result jerr T :=
  match j with
  | JObj l =>
      _ ← refuse (negb (forallb (fun kv => let k := unquote_str kv.1 in
                                           existsb (fun f => equal_fold f.1 k || String.eqb f.1 k) fs) l)) JType;
      unmarshal_struct fs zero j
  | _ => unmarshal_struct fs zero j
  end.
Definition set_structs {T} (dec : T -> json -> result jerr T) (zero : T) (old : list T) (j : json) : result jerr (list T) :=
  match j with
  | JArr l => structs_of dec zero old l
  | JNull => Ok []
  | _ => Err JType
  end.

Definition imageFile_fields : list (string * (imageFile -> json -> result jerr imageFile)) :=
  [("repository", fun i j => v ← set_string (if_Repository i) j; Ok (MkImageFile v (if_Digest i) (if_Reference i)));
   ("digest", fun i j => v ← set_string (if_Digest i) j; Ok (MkImageFile (if_Repository i) v (if_Reference i)));
   ("reference", fun i j => v ← set_string (if_Reference i) j; Ok (MkImageFile (if_Repository i) (if_Digest i) v))].
(** Through a pointer: [null] makes it nil. *)
Definition set_image (old : option imageFile) (j : json) : result jerr (option imageFile) :=
  match j with
  | JNull => Ok None
  | _ => i ← strict_struct imageFile_fields (default (MkImageFile "" "" "") old) j; Ok (Some i)
  end.
Definition serviceFile_fields : list (string * (serviceFile -> json -> result jerr serviceFile)) :=
  [("name", fun s j => v ← set_string (sf_Name s) j; Ok (MkServiceFile v (sf_Note s) (sf_Block s) (sf_Image s)));
   ("note", fun s j => v ← set_strings (sf_Note s) j; Ok (MkServiceFile (sf_Name s) v (sf_Block s) (sf_Image s)));
   ("block", fun s j => v ← set_strings (sf_Block s) j; Ok (MkServiceFile (sf_Name s) (sf_Note s) v (sf_Image s)));
   ("image", fun s j => v ← set_image (sf_Image s) j; Ok (MkServiceFile (sf_Name s) (sf_Note s) (sf_Block s) v))].
Definition topLevelFile_fields : list (string * (topLevelFile -> json -> result jerr topLevelFile)) :=
  [("key", fun t j => v ← set_string (tf_Key t) j; Ok (MkTopFile v (tf_Note t) (tf_Block t)));
   ("note", fun t j => v ← set_strings (tf_Note t) j; Ok (MkTopFile (tf_Key t) v (tf_Block t)));
   ("block", fun t j => v ← set_strings (tf_Block t) j; Ok (MkTopFile (tf_Key t) (tf_Note t) v))].
Definition zeroService : serviceFile := MkServiceFile "" [] [] None.
Definition zeroTop : topLevelFile := MkTopFile "" [] [].
Definition deploymentFile_fields : list (string * (deploymentFile -> json -> result jerr deploymentFile)) :=
  [("name", fun d j => v ← set_string (df_Name d) j;
      Ok (MkDepFile v (df_Note d) (df_Contract d) (df_Providers d) (df_Services d) (df_TopLevel d)));
   ("note", fun d j => v ← set_strings (df_Note d) j;
      Ok (MkDepFile (df_Name d) v (df_Contract d) (df_Providers d) (df_Services d) (df_TopLevel d)));
   ("contract", fun d j => v ← set_string (df_Contract d) j;
      Ok (MkDepFile (df_Name d) (df_Note d) v (df_Providers d) (df_Services d) (df_TopLevel d)));
   ("providers", fun d j => v ← set_strings (df_Providers d) j;
      Ok (MkDepFile (df_Name d) (df_Note d) (df_Contract d) v (df_Services d) (df_TopLevel d)));
   ("services", fun d j => v ← set_structs (strict_struct serviceFile_fields) zeroService (df_Services d) j;
      Ok (MkDepFile (df_Name d) (df_Note d) (df_Contract d) (df_Providers d) v (df_TopLevel d)));
   ("top_level", fun d j => v ← set_structs (strict_struct topLevelFile_fields) zeroTop (df_TopLevel d) j;
      Ok (MkDepFile (df_Name d) (df_Note d) (df_Contract d) (df_Providers d) (df_Services d) v))].
Definition zeroDep : deploymentFile := MkDepFile "" [] "" [] [] [].
(** [services] at the top is a [RawMessage]: whatever is there is kept, [null] included. *)
Definition file_fields : list (string * (composeBaselineFile -> json -> result jerr composeBaselineFile)) :=
  [("_comment", fun f j => v ← set_strings (cf_Comment f) j; Ok (MkFile v (cf_Deployments f) (cf_Services f)));
   ("deployments", fun f j => v ← set_structs (strict_struct deploymentFile_fields) zeroDep (cf_Deployments f) j;
      Ok (MkFile (cf_Comment f) v (cf_Services f)));
   ("services", fun f j => Ok (MkFile (cf_Comment f) (cf_Deployments f) true))].
Definition zeroFile : composeBaselineFile := MkFile [] [] false.

(** [Decoder.Decode]'s reading of the first value, and what is left: a literal has to be
    followed by a space or the end. *)
Definition decode_first (l : bytes) : result jerr (json * bytes) :=
  '(j, r) ← of_option (pval (S (length l)) l) JSyntax;
  _ ← refuse (negb (jdepth j <=? maxNestingDepth)%N) JSyntax;
  match j with
  | JObj _ | JArr _ => Ok (j, r)
  | _ => _ ← refuse (match r with c :: _ => negb (is_ws c) | [] => false end) JSyntax; Ok (j, r)
  end.
(** [Decoder.More]: a closing bracket is not more. *)
Definition more (r : bytes) : bool :=
  match skip_ws r with c :: _ => negb (Ascii.eqb c "]") && negb (Ascii.eqb c "}") | [] => false end.

Inductive baseErr := BInvalid (e : jerr) | BTrailing | BOldFormat | BBad (label why : string) | BReduce (label : string) (e : loadErr).
Abbreviation bresult := (result baseErr).

Section parsing.
Context `{YamlLib} `{ComposeGo}.
(** What the load for a label draws its hold key from. *)
Context (draw : string -> option bytes).

Definition block_text (lines : list string) : string := String.concat (str_of [newline]) lines +:+ str_of [newline].

Definition parseImage (label : string) (i : option imageFile) : bresult ImageRule :=
  match i with
  | None => Ok (MkRule "")
  | Some i =>
      let repo := trim_space (if_Repository i) in
      _ ← refuse (nonblank (if_Digest i) || nonblank (if_Reference i)) (BBad label "image sets digest or reference");
      _ ← refuse (String.eqb repo "") (BBad label "image is present but states no repository");
      Ok (MkRule repo)
  end.

Definition parseService (deployment : string) (seen : gset string) (i : nat) (e : serviceFile) : bresult BaselineService :=
  let label := deployment +:+ "/" +:+
    (if String.eqb (sf_Name e) "" then "entry " +:+ str_of (itoa (Z.of_nat (i + 1))) else sf_Name e) in
  _ ← refuse (negb (nonblank (sf_Name e))) (BBad label "name is required");
  _ ← refuse (bool_decide (sf_Name e ∈ seen)) (BBad label "listed twice");
  _ ← refuse (match sf_Block e with [] => true | _ => false end) (BBad label "block is required");
  block ← map_err (BReduce label) (CanonicalizeServiceBlock (draw label) (sf_Name e) (block_text (sf_Block e)));
  image ← parseImage label (sf_Image e);
  Ok (MkBService (sf_Name e) block image).

Fixpoint parseServices (deployment : string) (seen : gset string) (i : nat) (l : list serviceFile) : bresult (list BaselineService) :=
  match l with
  | [] => Ok []
  | e :: l => s ← parseService deployment seen i e;
              ss ← parseServices deployment ({[ sf_Name e ]} ∪ seen) (S i) l; Ok (s :: ss)
  end.

Definition parseTop (deployment : string) (seen : gset string) (i : nat) (e : topLevelFile) : bresult BaselineTopLevel :=
  let key := trim_space (tf_Key e) in
  let label := deployment +:+ "/top_level " +:+ str_of (itoa (Z.of_nat (i + 1))) in
  _ ← refuse (String.eqb key "") (BBad label "key is required");
  _ ← refuse (String.eqb key "services") (BBad label "services is recorded per service");
  _ ← refuse (has_prefix key "x-") (BBad label "an extension field is not compared");
  _ ← refuse (bool_decide (key ∈ seen)) (BBad label "listed twice");
  _ ← refuse (match tf_Block e with [] => true | _ => false end) (BBad label "block is required");
  block ← map_err (BReduce label) (canonicalizeTopLevel (draw label) key (block_text (tf_Block e)));
  Ok (MkBTop key block).

Fixpoint parseTopLevel (deployment : string) (seen : gset string) (i : nat) (l : list topLevelFile) : bresult (list BaselineTopLevel) :=
  match l with
  | [] => Ok []
  | e :: l => t ← parseTop deployment seen i e;
              ts ← parseTopLevel deployment ({[ trim_space (tf_Key e) ]} ∪ seen) (S i) l; Ok (t :: ts)
  end.

Fixpoint parseProviders (label contract : string) (owner : gmap string string) (l : list string)
    : bresult (list string * gmap string string) :=
  match l with
  | [] => Ok ([], owner)
  | p :: l =>
      _ ← refuse (negb (isAddress p)) (BBad label "provider is not a 0x-prefixed 20-byte address");
      let key := contract +:+ "/" +:+ normAddr p in
      _ ← refuse (has_key owner key) (BBad label "provider listed in two deployments");
      '(ps, owner) ← parseProviders label contract (<[key := label]> owner) l;
      Ok (normAddr p :: ps, owner)
  end.

Definition parseDeployment (names : gset string) (owner : gmap string string) (i : nat) (d : deploymentFile)
    : bresult (Deployment * gmap string string) :=
  let label := trim_space (df_Name d) in
  _ ← refuse (String.eqb label "") (BBad (str_of (itoa (Z.of_nat (i + 1)))) "name is required");
  _ ← refuse (bool_decide (label ∈ names)) (BBad label "listed twice");
  _ ← refuse (negb (isAddress (df_Contract d))) (BBad label "contract is not a 0x-prefixed 20-byte address");
  let contract := normAddr (df_Contract d) in
  _ ← refuse (match df_Providers d with [] => true | _ => false end) (BBad label "providers is required");
  '(providers, owner) ← parseProviders label contract owner (df_Providers d);
  _ ← refuse (match df_Services d with [] => true | _ => false end) (BBad label "services is required");
  services ← parseServices label ∅ 0 (df_Services d);
  top ← parseTopLevel label ∅ 0 (df_TopLevel d);
  Ok (MkDep label contract providers services top, owner).

Fixpoint parseDeployments (names : gset string) (owner : gmap string string) (i : nat) (l : list deploymentFile)
    : bresult ComposeBaseline :=
  match l with
  | [] => Ok []
  | d :: l =>
      '(dep, owner) ← parseDeployment names owner i d;
      deps ← parseDeployments ({[ trim_space (df_Name d) ]} ∪ names) owner (S i) l;
      Ok (dep :: deps)
  end.

Definition ParseComposeBaseline (raw : bytes) : bresult ComposeBaseline :=
  '(j, rest) ← map_err BInvalid (decode_first raw);
  f ← map_err BInvalid (strict_struct file_fields zeroFile j);
  _ ← refuse (more rest) BTrailing;
  _ ← refuse (cf_Services f) BOldFormat;
  parseDeployments ∅ ∅ 0 (cf_Deployments f).
End parsing.

(** ** The comparison *)

Record ComposeMismatch := MkMismatch { cm_Service : string; cm_Reason : string; cm_Diff : string }.
Record ComposeCheck := MkComposeCheck {
  cc_Configured : bool; cc_Recorded : bool; cc_Deployment : string; cc_Expected : nat;
  cc_Mismatches : list ComposeMismatch; cc_Matched : nat;
  cc_TopExpected : nat; cc_TopMatched : nat;
  cc_Unverified : list ComposeMismatch
}.
Definition Compared (c : ComposeCheck) : bool := cc_Configured c && cc_Recorded c.
Definition Complete (c : ComposeCheck) : bool := match cc_Unverified c with [] => true | _ => false end.
Definition check_OK (c : ComposeCheck) : bool := negb (Compared c) || match cc_Mismatches c with [] => true | _ => false end.

Definition truncate (s : string) : string :=
  if Nat.leb (String.length s) 100 then s else String.substring 0 100 s +:+ "...".
Definition diff_text_lines (s : string) : list string :=
  let fix drop (l : bytes) := match l with c :: r => if Ascii.eqb c newline then drop r else l | [] => [] end in
  map str_of (split_on newline (rev (drop (rev (bytes_of s))))).
Fixpoint first_diff (i : nat) (w g : list string) : string :=
  match w, g with
  | x :: w, y :: g => if String.eqb x y then first_diff (S i) w g
                      else "line " +:+ str_of (itoa (Z.of_nat (i + 1))) +:+ ": deployed: " +:+ truncate y +:+ " baseline: " +:+ truncate x
  | [], y :: _ => "deployed has " +:+ str_of (itoa (Z.of_nat (length g))) +:+ " extra line(s) after line " +:+ str_of (itoa (Z.of_nat i)) +:+ ", first: " +:+ truncate y
  | x :: _, [] => "deployed is missing " +:+ str_of (itoa (Z.of_nat (length w))) +:+ " line(s) after line " +:+ str_of (itoa (Z.of_nat i)) +:+ ", first expected: " +:+ truncate x
  | [], [] => ""
  end.
Definition firstDiff (want got : string) : string := first_diff 0 (diff_text_lines want) (diff_text_lines got).

Definition describeRepo (r : string) : string := if String.eqb r "" then "no repository" else r.
Definition describeRef (ref : string) : string := if nonblank ref then ref else "absent".

(** [evidence.ReleaseVerifier], answering from a state. *)
Record Verifying (S : Type) := MkVerifying { vf_Repository : string; vf_Verify : string -> string -> S -> ReleaseVerdict * S }.
Arguments MkVerifying {S} _ _.
Arguments vf_Repository {S} _.
Arguments vf_Verify {S} _ _ _ _.

Section checking.
Context {S : Type}.

Definition verify_release (rels : option (Verifying S)) (repo digest : string) (s : S) : ReleaseVerdict * S :=
  match rels with
  | None => (VerifyRelease None repo digest, s)
  | Some r => vf_Verify r repo digest s
  end.

(** What a step adds to the mismatches and to the unverified. *)
Abbreviation outcome := (list ComposeMismatch * list ComposeMismatch)%type.
Definition differs (service reason diff : string) : outcome := ([MkMismatch service reason diff], []).

Definition checkImage (want : BaselineService) (got : ServiceBlock) (rels : option (Verifying S)) (s : S) : outcome * S :=
  if pinsImageInBlock (bs_Image want) then (([], []), s)
  else
    let '(repo, _, digest) := SplitImageRef (sb_ImageRef got) in
    let rule := ir_Repository (bs_Image want) in
    if negb (isDigestShaped digest) then
      (differs (bs_Name want) ("the image is " +:+ describeRef (sb_ImageRef got) +:+ "; the baseline accepts a released build of " +:+ rule) "", s)
    else if negb (String.eqb repo rule) then
      (differs (bs_Name want) ("the image is in " +:+ repo +:+ "; the baseline accepts only " +:+ rule) "", s)
    else if match rels with Some r => negb (String.eqb (vf_Repository r) rule) | None => false end then
      (differs (bs_Name want) ("the baseline accepts released builds of " +:+ rule +:+ ", but the release verifier judges "
         +:+ describeRepo (match rels with Some r => vf_Repository r | None => "" end)) "", s)
    else
      let '(v, s) := verify_release rels repo digest s in
      (match rv_Status v with
       | ReleaseAccepted => ([], [])
       | ReleaseUnavailable => ([], [MkMismatch (bs_Name want) ("whether " +:+ repo +:+ "@" +:+ shortDigest digest +:+ " is a release could not be checked: " +:+ rv_Reason v) ""])
       | ReleaseRejected => differs (bs_Name want) ("the image is " +:+ repo +:+ "@" +:+ shortDigest digest +:+ ", which is not an accepted release of " +:+ repo +:+ ": " +:+ rv_Reason v) ""
       end, s).

Definition checkService (want : BaselineService) (got : ServiceBlock) (rels : option (Verifying S)) (s : S) : outcome * S :=
  if negb (Pinnable got) then (differs (bs_Name want) "the service has no canonical form, so it cannot be compared" "", s)
  else
    let observed := if pinsImageInBlock (bs_Image want) then sb_Canonical got else sb_CanonicalNoImage got in
    if negb (String.eqb observed (bs_Block want))
    then (differs (bs_Name want) "the service block differs from the baseline" (firstDiff (bs_Block want) observed), s)
    else checkImage want got rels s.

(** The first block of each name, and the names that come again. *)
Definition observe_step (od : gmap string ServiceBlock * gset string) (b : ServiceBlock) : gmap string ServiceBlock * gset string :=
  if has_key od.1 (sb_Name b) then (od.1, {[ sb_Name b ]} ∪ od.2) else (<[sb_Name b := b]> od.1, od.2).
Definition observe (blocks : list ServiceBlock) : gmap string ServiceBlock * gset string :=
  fold_left observe_step blocks (∅, ∅).
Definition sortedBoolKeys (m : gset string) : list string := map fst (entries (gset_to_gmap tt m)).

(** The recorded services in turn; counts the ones that match. *)
Fixpoint check_services (baseline : list BaselineService) (observed : gmap string ServiceBlock) (rels : option (Verifying S)) (s : S)
    : outcome * nat * S :=
  match baseline with
  | [] => (([], []), 0%nat, s)
  | want :: baseline =>
      match observed !! bs_Name want with
      | None =>
          let '((m, u), n, s) := check_services baseline observed rels s in
          ((MkMismatch (bs_Name want) "the baseline records this service but the manifest does not declare it" "" :: m, u), n, s)
      | Some got =>
          let '((m0, u0), s) := checkService want got rels s in
          let '((m, u), n, s) := check_services baseline observed rels s in
          ((m0 ++ m, u0 ++ u), (match m0, u0 with [], [] => Datatypes.S n | _, _ => n end), s)
      end
  end.

Definition check_section (observed : gmap string TopLevelBlock) (w : BaselineTopLevel) : list ComposeMismatch :=
  let where_ := "top-level " +:+ bt_Key w in
  match observed !! bt_Key w with
  | None => [MkMismatch where_ "the baseline records this section but the manifest does not have it" ""]
  | Some g =>
      match tb_Err g with
      | Some _ => [MkMismatch where_ "the section has no canonical form, so it cannot be compared" ""]
      | None => if String.eqb (tb_Canonical g) (bt_Block w) then []
                else [MkMismatch where_ "the section differs from the baseline" (firstDiff (bt_Block w) (tb_Canonical g))]
      end
  end.

(** The sections by key: a key that comes again replaces the one before. *)
Definition observe_top (got : list TopLevelBlock) (m : gmap string TopLevelBlock) : gmap string TopLevelBlock :=
  fold_left (fun m g => <[tb_Key g := g]> m) got m.
(** [checkTopLevel]: the mismatches and the number of sections that match. *)
Definition checkTopLevel (want : list BaselineTopLevel) (got : list TopLevelBlock) : list ComposeMismatch * nat :=
  let observed := observe_top got ∅ in
  let each_ := map (check_section observed) want in
  (concat each_
   ++ omap (fun g => if contains (map bt_Key want) (tb_Key g) then None
                     else Some (MkMismatch ("top-level " +:+ tb_Key g) "the manifest has this section but the baseline does not record it" "")) got,
   length (List.filter (fun l => match l with [] => true | _ => false end) each_)).

Definition not_compared (b : ComposeBaseline) : ComposeCheck :=
  MkComposeCheck (match b with [] => false | _ => true end) false "" 0 [] 0 0 0 [].

Definition CheckCompose (b : ComposeBaseline) (rels : option (Verifying S)) (contract provider : string)
    (blocks : list ServiceBlock) (top : list TopLevelBlock) (s : S) : ComposeCheck * S :=
  match b, For b contract provider with
  | _ :: _, Some dep =>
      let '(observed, dupes) := observe blocks in
      let twice := map (fun name => MkMismatch name "the manifest declares this service more than once" "") (sortedBoolKeys dupes) in
      let '((m, u), matched, s) := check_services (dp_Services dep) observed rels s in
      let extra := omap (fun b => if contains (map bs_Name (dp_Services dep)) (sb_Name b) then None
                                  else Some (MkMismatch (sb_Name b) "the manifest declares this service but the baseline does not record it" "")) blocks in
      let '(tm, topMatched) := checkTopLevel (dp_TopLevel dep) top in
      (MkComposeCheck true true (dp_Name dep) (length (dp_Services dep)) (twice ++ m ++ extra ++ tm) matched
         (length (dp_TopLevel dep)) topMatched u, s)
  | _, _ => (not_compared b, s)
  end.

Definition CheckReview (b : ComposeBaseline) (rels : option (Verifying S)) (contract provider : string)
    (r : ComposeReview) (s : S) : ComposeCheck * S :=
  match cr_LoadErr r with
  | None => CheckCompose b rels contract provider (cr_Blocks r) (cr_TopLevel r) s
  | Some err =>
      match b, For b contract provider with
      | _ :: _, Some dep =>
          let '(m, u) := match err with
                         | ENotRead w => ([], [MkMismatch "" ("not compared: " +:+ w) ""])
                         | _ => ([MkMismatch "" ("cannot be compared: " +:+ load_text err) ""], [])
                         end in
          (MkComposeCheck true true (dp_Name dep) (length (dp_Services dep)) m 0 (length (dp_TopLevel dep)) 0 u, s)
      | _, _ => (not_compared b, s)
      end
  end.
End checking.

(** ** What passing means *)

Section passing.
Context {S : Type} (rels : option (Verifying S)).
(** [accepts] is a fact about a build, and [good] what is kept of the verifier's state. *)
Context (good : S -> Prop) (accepts : string -> string -> Prop).

(** A service that is the recorded one. *)
Definition service_is (want : BaselineService) (got : ServiceBlock) : Prop :=
  Pinnable got = true /\
  if pinsImageInBlock (bs_Image want) then sb_Canonical got = bs_Block want
  else sb_CanonicalNoImage got = bs_Block want /\
       exists r tag digest, rels = Some r /\ vf_Repository r = ir_Repository (bs_Image want) /\
         SplitImageRef (sb_ImageRef got) = (ir_Repository (bs_Image want), tag, digest) /\
         isDigestShaped digest = true /\ accepts (ir_Repository (bs_Image want)) digest.

(** A manifest that is the recorded deployment, in every direction. *)
Record is_deployment (dep : Deployment) (blocks : list ServiceBlock) (top : list TopLevelBlock) : Prop := {
  id_once : NoDup (map sb_Name blocks);
  id_services : forall want, want ∈ dp_Services dep ->
    exists got, got ∈ blocks /\ sb_Name got = bs_Name want /\ service_is want got;
  id_only : forall got, got ∈ blocks -> exists want, want ∈ dp_Services dep /\ bs_Name want = sb_Name got;
  id_top : forall w, w ∈ dp_TopLevel dep ->
    exists g, g ∈ top /\ tb_Key g = bt_Key w /\ tb_Err g = None /\ tb_Canonical g = bt_Block w;
  id_top_only : forall g, g ∈ top -> exists w, w ∈ dp_TopLevel dep /\ bt_Key w = tb_Key g
}.

Definition passes (c : ComposeCheck) : Prop := Compared c = true /\ cc_Mismatches c = [] /\ cc_Unverified c = [].

(** *** Lemmas *)

Lemma omap_nil {A B} (f : A -> option B) l : omap f l = [] <-> forall x, x ∈ l -> f x = None.
Proof.
  induction l as [|x l IH]; cbn; [split; [intros _ x Hx; by apply elem_of_nil in Hx|done]|]. split.
  - destruct (f x) eqn:E; [done|]. intros Hl y Hy. apply elem_of_cons in Hy as [->|Hy]; [done|]. by apply IH.
  - intros Hall. rewrite (Hall x) by (by left). apply IH. intros y Hy. apply Hall. by right.
Qed.

Lemma observe_spec blocks : forall o d o' d', fold_left observe_step blocks (o, d) = (o', d') ->
  d ⊆ d' /\
  (forall n b, o' !! n = Some b -> o !! n = Some b \/ (b ∈ blocks /\ sb_Name b = n)) /\
  (d' = ∅ -> NoDup (map sb_Name blocks) /\ forall b, b ∈ blocks -> o !! sb_Name b = None /\ o' !! sb_Name b = Some b) /\
  (forall n b, o !! n = Some b -> o' !! n = Some b) /\
  (NoDup (map sb_Name blocks) -> (forall b, b ∈ blocks -> o !! sb_Name b = None) -> d' = d).
Proof.
  induction blocks as [|b blocks IH]; intros o d o' d'; cbn; [|unfold observe_step at 2; cbn [fst snd]].
  - intros [= <- <-]. split_and!; try done; [by left|]. intros _. split; [constructor|]. intros b Hb. by apply elem_of_nil in Hb.
  - destruct (has_key o (sb_Name b)) eqn:Ek; intros E; apply IH in E as (Hd & Ho & Hn & Hk & Hc).
    + apply has_key_true in Ek as [b0 Hb0]. split_and!.
      * etransitivity; [apply union_subseteq_r|done].
      * intros n x Hx. destruct (Ho _ _ Hx) as [?|[? ?]]; [by left|right; split; [by right|done]].
      * intros ->. exfalso. apply (not_elem_of_empty (C := gset string) (sb_Name b)), Hd, elem_of_union_l. by apply elem_of_singleton_2.
      * done.
      * intros Hnd Hf. rewrite (Hf b) in Hb0 by (by left). done.
    + apply has_key_false in Ek. split_and!.
      * done.
      * intros n x Hx. destruct (Ho _ _ Hx) as [Hi|[? ?]]; [|right; split; [by right|done]].
        destruct (decide (sb_Name b = n)) as [<-|Hne]; [|left; by rewrite lookup_insert_ne in Hi].
        rewrite lookup_insert_eq in Hi. injection Hi as <-. right. split; [by left|done].
      * intros Hd'. destruct (Hn Hd') as [Hnd Hall]. split.
        -- cbn. constructor; [|done]. intros Hin. apply list_elem_of_In, in_map_iff in Hin as (x & Hx & Hin).
           apply list_elem_of_In in Hin. destruct (Hall x Hin) as [Hl _]. by rewrite Hx, lookup_insert_eq in Hl.
        -- intros x Hx. apply elem_of_cons in Hx as [->|Hx].
           ++ split; [done|]. apply Hk, lookup_insert_eq.
           ++ destruct (Hall x Hx) as [Hl ?]. split; [|done]. by apply lookup_insert_None in Hl as [? _].
      * intros n x Hx. apply Hk. rewrite lookup_insert_ne; [done|]. intros <-. congruence.
      * intros Hnd Hf. apply NoDup_cons in Hnd as [Hnin Hnd]. apply Hc; [done|]. intros x Hx.
        rewrite lookup_insert_ne; [apply Hf; by right|]. intros Heq. apply Hnin. rewrite Heq.
        apply list_elem_of_In, in_map, list_elem_of_In. done.
Qed.

Lemma observe_ok blocks o d : observe blocks = (o, d) ->
  (d = ∅ <-> NoDup (map sb_Name blocks)) /\
  (forall n b, o !! n = Some b -> b ∈ blocks /\ sb_Name b = n) /\
  (d = ∅ -> forall b, b ∈ blocks -> o !! sb_Name b = Some b).
Proof.
  intros E. unfold observe in E. apply observe_spec in E as (_ & Ho & Hn & _ & Hc). split_and!.
  - split; [intros Hd; by apply Hn|intros Hnd; by apply Hc].
  - intros n b Hb. destruct (Ho _ _ Hb) as [?|?]; [done|done].
  - intros Hd b Hb. by apply Hn.
Qed.

Lemma sortedBoolKeys_nil m : sortedBoolKeys m = [] <-> m = ∅.
Proof.
  unfold sortedBoolKeys. split.
  - intros E. apply map_eq_nil in E. apply set_eq. intros x. split; [|set_solver]. intros Hx.
    assert ((x, tt) ∈ entries (gset_to_gmap tt m)) as Hin by (by apply elem_of_entries, lookup_gset_to_gmap_Some).
    rewrite E in Hin. by apply elem_of_nil in Hin.
  - intros ->. destruct (entries (gset_to_gmap () (∅ : gset string))) as [|[k v] l] eqn:E; [done|].
    assert ((k, v) ∈ entries (gset_to_gmap () (∅ : gset string))) as Hin by (rewrite E; by left).
    apply elem_of_entries, lookup_gset_to_gmap_Some in Hin as [Hin _]. set_solver.
Qed.

Context (Hgood : forall r s repo digest, rels = Some r -> isDigestShaped digest = true -> good s ->
  good (vf_Verify r repo digest s).2).
Context (Hsound : forall r s repo digest, rels = Some r -> isDigestShaped digest = true -> good s ->
  rv_Status (vf_Verify r repo digest s).1 = ReleaseAccepted -> accepts repo digest).

Lemma checkImage_sound want got s o s' : good s -> checkImage want got rels s = (o, s') ->
  good s' /\ (o = ([], []) -> pinsImageInBlock (bs_Image want) = false ->
    exists r tag digest, rels = Some r /\ vf_Repository r = ir_Repository (bs_Image want) /\
      SplitImageRef (sb_ImageRef got) = (ir_Repository (bs_Image want), tag, digest) /\
      isDigestShaped digest = true /\ accepts (ir_Repository (bs_Image want)) digest).
Proof.
  intros Hg. unfold checkImage. destruct (pinsImageInBlock (bs_Image want)); [by intros [= <- <-]|].
  destruct (SplitImageRef (sb_ImageRef got)) as [[repo tag] digest].
  destruct (isDigestShaped digest) eqn:Ed; [|by intros [= <- <-]]. cbn [negb].
  destruct (String.eqb_spec repo (ir_Repository (bs_Image want))) as [->|]; [|by intros [= <- <-]]. cbn [negb].
  destruct rels as [r|] eqn:Er.
  - destruct (String.eqb_spec (vf_Repository r) (ir_Repository (bs_Image want))) as [Hrr|]; [|by intros [= <- <-]]. cbn [negb verify_release].
    pose proof (Hgood r s (ir_Repository (bs_Image want)) digest eq_refl Ed Hg) as Hg'.
    pose proof (Hsound r s (ir_Repository (bs_Image want)) digest eq_refl Ed Hg) as Ha.
    destruct (vf_Verify r _ digest s) as [v s1]. cbn in Hg', Ha. intros [= <- <-]. split; [done|].
    intros Ho _. exists r, tag, digest. split_and!; try done. apply Ha. by destruct (rv_Status v).
  - cbn. intros [= <- <-]. done.
Qed.

Lemma checkService_sound want got s o s' : good s -> checkService want got rels s = (o, s') ->
  good s' /\ (o = ([], []) -> service_is want got).
Proof.
  intros Hg. unfold checkService, service_is. destruct (Pinnable got); [|by intros [= <- <-]]. cbn [negb].
  destruct (String.eqb_spec (if pinsImageInBlock (bs_Image want) then sb_Canonical got else sb_CanonicalNoImage got) (bs_Block want))
    as [Hb|]; [|by intros [= <- <-]]. cbn [negb].
  intros E. apply (checkImage_sound _ _ _ _ _ Hg) in E as [Hg' Ho]. split; [done|]. intros Hoo. split; [done|].
  destruct (pinsImageInBlock (bs_Image want)) eqn:Ep; [done|]. split; [done|]. by apply Ho.
Qed.

Lemma check_services_sound baseline observed s o n s' : good s -> check_services baseline observed rels s = (o, n, s') ->
  good s' /\ (o = ([], []) -> n = length baseline /\ forall want, want ∈ baseline ->
    exists got, observed !! bs_Name want = Some got /\ service_is want got).
Proof.
  revert s o n s'. induction baseline as [|w baseline IH]; intros s o n s' Hg; cbn.
  - intros [= <- <- <-]. split; [done|]. intros _. split; [done|]. intros want Hw. by apply elem_of_nil in Hw.
  - destruct (observed !! bs_Name w) as [got|] eqn:Eo.
    + destruct (checkService w got rels s) as [[m0 u0] s1] eqn:Ec. apply (checkService_sound _ _ _ _ _ Hg) in Ec as [Hg1 Hs].
      destruct (check_services baseline observed rels s1) as [[[m u] k] s2] eqn:E2.
      apply (IH _ _ _ _ Hg1) in E2 as [Hg2 Hall]. intros [= <- <- <-]. split; [done|]. intros [= Hm Hu].
      apply app_nil in Hm as [-> ->]. apply app_nil in Hu as [-> ->]. destruct (Hall eq_refl) as [-> Hw]. split; [done|].
      intros want Hin. apply elem_of_cons in Hin as [->|Hin]; [exists got; by auto|by apply Hw].
    + destruct (check_services baseline observed rels s) as [[[m u] k] s2] eqn:E2.
      apply (IH _ _ _ _ Hg) in E2 as [Hg2 _]. intros [= <- <- <-]. split; [done|]. done.
Qed.

Lemma observed_top (got : list TopLevelBlock) m k g : observe_top got m !! k = Some g -> m !! k = Some g \/ (g ∈ got /\ tb_Key g = k).
Proof.
  revert m. induction got as [|x got IH]; intros m; cbn; [by left|]. intros Hl.
  apply IH in Hl as [Hl|[? ?]]; [|right; split; [by right|done]].
  destruct (decide (tb_Key x = k)) as [<-|Hne]; [rewrite lookup_insert_eq in Hl; injection Hl as <-; right; split; [by left|done]|].
  rewrite lookup_insert_ne in Hl by done. by left.
Qed.

Lemma checkTopLevel_ok want got l n : checkTopLevel want got = (l, n) -> l = [] ->
  n = length want /\
  (forall w, w ∈ want -> exists g, g ∈ got /\ tb_Key g = bt_Key w /\ tb_Err g = None /\ tb_Canonical g = bt_Block w) /\
  (forall g, g ∈ got -> exists w, w ∈ want /\ bt_Key w = tb_Key g).
Proof.
  unfold checkTopLevel. intros [= <- <-] E. apply app_nil in E as [E1 E2].
  assert (forall w, w ∈ want -> check_section (observe_top got ∅) w = []) as Hall.
  { intros w Hw. apply list_elem_of_In in Hw. apply (in_map (check_section (observe_top got ∅))) in Hw.
    revert Hw E1. generalize (check_section (observe_top got ∅) w).
    generalize (map (check_section (observe_top got ∅)) want). clear.
    induction l as [|x l IH]; intros y Hy E; [done|]. cbn in E. apply app_nil in E as [-> E]. destruct Hy as [<-|Hy]; auto. }
  split_and!.
  - clear E1 E2. rewrite <-(length_map (check_section (observe_top got ∅)) want).
    f_equal. induction want as [|w want IH]; [done|]. cbn. rewrite Hall by (by left). f_equal. apply IH. intros w' Hw'. apply Hall. by right.
  - intros w Hw. specialize (Hall w Hw). unfold check_section in Hall.
    destruct (_ !! bt_Key w) as [g|] eqn:Eg; [|done]. apply observed_top in Eg as [Eg|[Hg Hk]]; [done|].
    destruct (tb_Err g) eqn:Ee; [done|]. destruct (String.eqb_spec (tb_Canonical g) (bt_Block w)); [|done]. by exists g.
  - intros g Hg. rewrite omap_nil in E2. specialize (E2 g Hg). destruct (contains _ _) eqn:Ec; [|done].
    apply contains_spec, list_elem_of_In, in_map_iff in Ec as (w & Hk & Hw). exists w. split; [by apply list_elem_of_In|done].
Qed.

(** Passing is sound, whatever the verifier's state goes through. *)
Lemma CheckCompose_sound b contract provider blocks top s c s' : good s ->
  CheckCompose b rels contract provider blocks top s = (c, s') ->
  good s' /\ (passes c -> exists dep, For b contract provider = Some dep /\ is_deployment dep blocks top).
Proof.
  intros Hg. unfold CheckCompose. destruct b as [|d0 b]; [intros [= <- <-]; by split; [|intros (? & _)]|].
  destruct (For (d0 :: b) contract provider) as [dep|]; [|intros [= <- <-]; by split; [|intros (? & _)]].
  destruct (observe blocks) as [o dupes] eqn:Eo. apply observe_ok in Eo as (Hnd & Ho & _).
  destruct (check_services (dp_Services dep) o rels s) as [[[m u] n] s1] eqn:Es.
  apply (check_services_sound _ _ _ _ _ _ Hg) in Es as [Hg1 Hs].
  destruct (checkTopLevel (dp_TopLevel dep) top) as [tm tn] eqn:Et. pose proof (checkTopLevel_ok _ _ _ _ Et) as Ht.
  intros [= <- <-]. split; [done|]. intros (_ & Hm & Hu). cbn in Hm, Hu. subst u.
  apply app_nil in Hm as [H1 Hm]. apply app_nil in Hm as [-> Hm]. apply app_nil in Hm as [H3 ->].
  apply map_eq_nil in H1. apply sortedBoolKeys_nil in H1. destruct (Hs eq_refl) as [_ Hw]. destruct (Ht eq_refl) as (_ & Ht1 & Ht2).
  exists dep. split; [done|]. split; try done.
  - by apply Hnd.
  - intros want Hin. destruct (Hw want Hin) as (got & Hgot & Hsi). apply Ho in Hgot as [? ?]. by exists got.
  - intros got Hin. rewrite omap_nil in H3. specialize (H3 got Hin). destruct (contains _ _) eqn:Ec; [|done].
    apply contains_spec, list_elem_of_In, in_map_iff in Ec as (w & Hk & Hw'). exists w. split; [by apply list_elem_of_In|done].
Qed.

Lemma CheckReview_sound b contract provider r s c s' : good s ->
  CheckReview b rels contract provider r s = (c, s') ->
  good s' /\ (passes c -> exists dep, For b contract provider = Some dep /\ cr_LoadErr r = None /\
    is_deployment dep (cr_Blocks r) (cr_TopLevel r)).
Proof.
  intros Hg. unfold CheckReview. destruct (cr_LoadErr r) as [err|].
  - destruct b as [|d0 b]; [intros [= <- <-]; by split; [|intros (? & _)]|].
    destruct (For (d0 :: b) contract provider) as [dep|]; [|intros [= <- <-]; by split; [|intros (? & _)]].
    destruct err; intros [= <- <-]; (split; [done|]); intros (_ & Hm & Hu); done.
  - intros E. apply (CheckCompose_sound _ _ _ _ _ _ _ _ Hg) in E as [Hg' Hp]. split; [done|]. intros Hc.
    destruct (Hp Hc) as (dep & ? & ?). by exists dep.
Qed.

(** *** The converse: the recorded deployment passes *)

Context (Hcomplete : forall r s repo digest, rels = Some r -> good s -> accepts repo digest ->
  rv_Status (vf_Verify r repo digest s).1 = ReleaseAccepted).

Lemma checkService_complete want got s : good s -> service_is want got ->
  exists s', checkService want got rels s = (([], []), s') /\ good s'.
Proof.
  intros Hg [Hp Hb]. unfold checkService. rewrite Hp. cbn [negb]. unfold checkImage.
  destruct (pinsImageInBlock (bs_Image want)).
  - rewrite Hb, String.eqb_refl. by exists s.
  - destruct Hb as (-> & r & tag & digest & Hr & Hrepo & Hsplit & Hd & Ha). rewrite String.eqb_refl. cbn [negb].
    rewrite Hsplit, Hd. cbn [negb]. rewrite String.eqb_refl. cbn [negb]. rewrite Hr. rewrite Hrepo, String.eqb_refl. cbn [negb verify_release].
    pose proof (Hcomplete r s _ _ Hr Hg Ha) as Hv. pose proof (Hgood r s (ir_Repository (bs_Image want)) digest Hr Hd Hg) as Hg'.
    destruct (vf_Verify r _ digest s) as [v s1]. cbn in Hv, Hg'. rewrite Hv. by exists s1.
Qed.

Lemma check_services_complete baseline observed s : good s ->
  (forall want, want ∈ baseline -> exists got, observed !! bs_Name want = Some got /\ service_is want got) ->
  exists s', check_services baseline observed rels s = (([], []), length baseline, s') /\ good s'.
Proof.
  revert s. induction baseline as [|w baseline IH]; intros s Hg Hall; cbn; [by exists s|].
  destruct (Hall w ltac:(by left)) as (got & -> & Hs). destruct (checkService_complete w got s Hg Hs) as (s1 & -> & Hg1).
  destruct (IH s1 Hg1) as (s2 & -> & Hg2); [intros want Hw; apply Hall; by right|]. by exists s2.
Qed.

Lemma observed_top_in (got : list TopLevelBlock) m g : NoDup (map tb_Key got) -> g ∈ got -> observe_top got m !! tb_Key g = Some g.
Proof.
  revert m. induction got as [|x got IH]; intros m Hn Hg; [by apply elem_of_nil in Hg|]. cbn in Hn. apply NoDup_cons in Hn as [Hx Hn].
  cbn. apply elem_of_cons in Hg as [->|Hg]; [|by apply IH].
  assert (forall m k, k ∉ map tb_Key got -> observe_top got m !! k = m !! k) as ->; [|by apply lookup_insert_eq|done].
  clear. induction got as [|y got IH]; intros m k Hk; [done|]. cbn in *. apply not_elem_of_cons in Hk as [Hk1 Hk2].
  rewrite IH by done. by apply lookup_insert_ne.
Qed.

Lemma CheckCompose_complete b contract provider blocks top s dep : good s ->
  For b contract provider = Some dep -> NoDup (map tb_Key top) -> is_deployment dep blocks top ->
  passes (CheckCompose b rels contract provider blocks top s).1.
Proof.
  intros Hg0 Hf Htop [Ho Hs Hon Ht Hto]. unfold CheckCompose. destruct b as [|d0 b]; [done|]. rewrite Hf.
  destruct (observe blocks) as [o dupes] eqn:Eo. apply observe_ok in Eo as (Hnd & _ & Hin). apply Hnd in Ho as ->. specialize (Hin eq_refl).
  destruct (check_services_complete (dp_Services dep) o s Hg0) as (s1 & -> & _).
  { intros want Hw. destruct (Hs want Hw) as (got & Hg & Hn & Hsi). exists got. split; [|done]. rewrite <-Hn. by apply Hin. }
  destruct (checkTopLevel (dp_TopLevel dep) top) as [tm tn] eqn:Et.
  assert (tm = []) as ->.
  { unfold checkTopLevel in Et. injection Et as <- _. apply app_nil. split.
    - assert (forall w, w ∈ dp_TopLevel dep -> check_section (observe_top top ∅) w = []) as Hall.
      { intros w Hw. destruct (Ht w Hw) as (g & Hg & Hk & He & Hc). unfold check_section.
        rewrite <-Hk, (observed_top_in _ _ _ Htop Hg), He, Hc, String.eqb_refl. done. }
      revert Hall. generalize (dp_TopLevel dep). clear. induction l as [|w l IH]; intros Hall; [done|]. cbn.
      rewrite (Hall w) by (by left). apply IH. intros w' Hw'. apply Hall. by right.
    - apply omap_nil. intros g Hg. destruct (Hto g Hg) as (w & Hw & Hk). rewrite (proj2 (contains_spec _ _)); [done|].
      rewrite <-Hk. apply list_elem_of_In, in_map, list_elem_of_In. done. }
  split; [done|]. cbn. split; [|done]. rewrite (proj2 (sortedBoolKeys_nil ∅) eq_refl). cbn. rewrite app_nil_r.
  apply omap_nil. intros got Hg. destruct (Hon got Hg) as (w & Hw & Hk). rewrite (proj2 (contains_spec _ _)); [done|].
  rewrite <-Hk. apply list_elem_of_In, in_map, list_elem_of_In. done.
Qed.
End passing.

(** A verifier whose answers do not change. *)
Definition fixed (r : ReleaseVerifier) : Verifying unit := MkVerifying (rl_Repository r) (fun repo d s => (rl_Verify r repo d, s)).
Definition accepted_by (r : option ReleaseVerifier) (repo digest : string) : Prop :=
  rv_Status (VerifyRelease r repo digest) = ReleaseAccepted.

(** C36: the comparison with the recorded deployment is exact. Against a verifier with
    fixed answers (or none), a manifest's blocks and sections are reported as compared,
    without a mismatch and with nothing left unverified, if and only if a deployment is
    recorded for the provider on the contract and the manifest is it: each service
    declared once, every recorded service there with the recorded text (its image held out
    and an accepted release of the recorded repository, where the record lets it move),
    every recorded section there with the recorded text, and nothing else of either kind. *)
Theorem baseline_exact b (r : option ReleaseVerifier) contract provider blocks top :
  NoDup (map tb_Key top) ->
  passes (CheckCompose b (fixed <$> r) contract provider blocks top tt).1 <->
  exists dep, For b contract provider = Some dep /\ is_deployment (fixed <$> r) (accepted_by r) dep blocks top.
Proof.
  intros Htop. destruct (CheckCompose b (fixed <$> r) contract provider blocks top tt) as [c s'] eqn:E. cbn. split.
  - apply (CheckCompose_sound (fixed <$> r) (fun _ => True) (accepted_by r)) in E as [_ Hp]; [done|done| |done].
    intros v s repo digest Hv _ _. destruct r as [r|]; [|done]. injection Hv as <-. done.
  - intros (dep & Hf & Hd). replace c with (CheckCompose b (fixed <$> r) contract provider blocks top tt).1 by (by rewrite E).
    eapply (CheckCompose_complete (fixed <$> r) (fun _ => True) (accepted_by r)); [done| |done|done|done|done].
    intros v s repo digest Hv. destruct r as [r|]; [|done]. injection Hv as <-. done.
Qed.

(** ** What a parsed baseline guarantees *)

Definition owned (contract p : string) : string := contract +:+ "/" +:+ p.

Section parsed.
Context `{YamlLib} `{ComposeGo} (draw : string -> option bytes).

(** An address in the form a baseline is looked up by. *)
Definition normal_address (a : string) : Prop := exists s, isAddress s = true /\ a = normAddr s.

(** A recorded block: what docker compose and the reduction make of some text, as they
    make it of a deployed one. *)
Definition recorded_service (s : BaselineService) : Prop :=
  exists label text, CanonicalizeServiceBlock (draw label) (bs_Name s) text = Ok (bs_Block s).
Definition recorded_section (t : BaselineTopLevel) : Prop :=
  exists label text, canonicalizeTopLevel (draw label) (bt_Key t) text = Ok (bt_Block t).

Record deployment_ok (d : Deployment) : Prop := {
  do_name : dp_Name d <> "";
  do_contract : normal_address (dp_Contract d);
  do_providers : dp_Providers d <> [] /\ Forall normal_address (dp_Providers d);
  do_services : dp_Services d <> [] /\ NoDup (map bs_Name (dp_Services d));
  do_blanks : Forall (fun s => nonblank (bs_Name s) = true) (dp_Services d);
  do_blocks : Forall recorded_service (dp_Services d) /\ Forall recorded_section (dp_TopLevel d);
  do_top : NoDup (map bt_Key (dp_TopLevel d)) /\
    Forall (fun t => bt_Key t <> "" /\ bt_Key t <> "services" /\ has_prefix (bt_Key t) "x-" = false) (dp_TopLevel d)
}.

Lemma parseProviders_ok label contract l : forall owner ps owner', parseProviders label contract owner l = Ok (ps, owner') ->
  length ps = length l /\ Forall normal_address ps /\
  (forall p, p ∈ ps -> owner !! owned contract p = None /\ is_Some (owner' !! owned contract p)) /\
  (forall k, is_Some (owner !! k) -> is_Some (owner' !! k)).
Proof.
  induction l as [|p l IH]; intros owner ps owner'; cbn.
  - intros [= <- <-]. split_and!; [done|done| |done]. intros p Hp. by apply elem_of_nil in Hp.
  - intros E. apply bind_ok in E as ([] & Ha & E). apply refuse_ok, negb_false_iff in Ha. apply bind_ok in E as ([] & Hk & E). apply refuse_ok, has_key_false in Hk.
    apply bind_ok in E as ([ps1 owner1] & E & [= <- <-]). apply IH in E as (Hl & Hna & Hps & Hkeep). split_and!.
    + cbn. by rewrite Hl.
    + constructor; [by exists p|done].
    + intros q Hq. apply elem_of_cons in Hq as [->|Hq].
      * split; [done|]. apply Hkeep. unfold owned. by rewrite lookup_insert_eq.
      * destruct (Hps q Hq) as [Hn Hs]. split; [|done]. by apply lookup_insert_None in Hn as [? _].
    + intros k Hs. apply Hkeep. destruct (decide (contract +:+ "/" +:+ normAddr p = k)) as [<-|Hne]; [by rewrite lookup_insert_eq|].
      by rewrite lookup_insert_ne.
Qed.

Lemma parseServices_ok label l : forall seen i ss, parseServices draw label seen i l = Ok ss ->
  map bs_Name ss = map sf_Name l /\ NoDup (map bs_Name ss) /\ (forall n, n ∈ map bs_Name ss -> n ∉ seen) /\
  Forall (fun s => nonblank (bs_Name s) = true) ss /\ Forall recorded_service ss.
Proof.
  induction l as [|e l IH]; intros seen i ss; cbn.
  - intros [= <-]. cbn. split_and!; [done|constructor|intros n Hn; by apply elem_of_nil in Hn|done..].
  - intros E. apply bind_ok in E as (sv & Es & E). apply bind_ok in E as (ss1 & E & [= <-]). apply IH in E as (Hm & Hn & Hs & Hb & Hr).
    unfold parseService in Es. apply bind_ok in Es as ([] & H1 & Es). apply refuse_ok, negb_false_iff in H1.
    apply bind_ok in Es as ([] & H2 & Es). apply refuse_ok, bool_decide_eq_false in H2. apply bind_ok in Es as ([] & _ & Es).
    apply bind_ok in Es as (blk & Hblk & Es). apply bind_ok in Es as (img & _ & [= <-]). cbn. split_and!.
    + by rewrite Hm.
    + constructor; [|done]. intros Hin. apply Hs in Hin. set_solver.
    + intros n Hin. apply elem_of_cons in Hin as [->|Hin]; [done|]. apply Hs in Hin. set_solver.
    + by constructor.
    + constructor; [|done]. eexists _, _. cbn. eapply map_err_ok; exact Hblk.
Qed.

Lemma parseTopLevel_ok label l : forall seen i ts, parseTopLevel draw label seen i l = Ok ts ->
  NoDup (map bt_Key ts) /\ (forall n, n ∈ map bt_Key ts -> n ∉ seen) /\
  Forall (fun t => bt_Key t <> "" /\ bt_Key t <> "services" /\ has_prefix (bt_Key t) "x-" = false) ts /\
  Forall recorded_section ts.
Proof.
  induction l as [|e l IH]; intros seen i ts; cbn.
  - intros [= <-]. cbn. split_and!; [constructor|intros n Hn; by apply elem_of_nil in Hn|done..].
  - intros E. apply bind_ok in E as (t & Et & E). apply bind_ok in E as (ts1 & E & [= <-]). apply IH in E as (Hn & Hs & Hb & Hr).
    unfold parseTop in Et. apply bind_ok in Et as ([] & H1 & Et). apply refuse_ok in H1. apply bind_ok in Et as ([] & H2 & Et). apply refuse_ok in H2.
    apply bind_ok in Et as ([] & H3 & Et). apply refuse_ok in H3. apply bind_ok in Et as ([] & H4 & Et).
    apply refuse_ok, bool_decide_eq_false in H4. apply bind_ok in Et as ([] & _ & Et). apply bind_ok in Et as (blk & Hblk & [= <-]). cbn.
    split_and!.
    + constructor; [|done]. intros Hin. apply Hs in Hin. set_solver.
    + intros n Hin. apply elem_of_cons in Hin as [->|Hin]; [done|]. apply Hs in Hin. set_solver.
    + constructor; [|done]. split_and!; [by apply String.eqb_neq..|done].
    + constructor; [|done]. eexists _, _. cbn. eapply map_err_ok; exact Hblk.
Qed.

Lemma parseDeployment_ok names owner i d dep owner' : parseDeployment draw names owner i d = Ok (dep, owner') ->
  deployment_ok dep /\ dp_Name dep = trim_space (df_Name d) /\ (dp_Name dep ∉ names) /\
  (forall p, p ∈ dp_Providers dep -> owner !! owned (dp_Contract dep) p = None /\ is_Some (owner' !! owned (dp_Contract dep) p)) /\
  (forall k, is_Some (owner !! k) -> is_Some (owner' !! k)).
Proof.
  unfold parseDeployment. intros E. apply bind_ok in E as ([] & H1 & E). apply refuse_ok, String.eqb_neq in H1.
  apply bind_ok in E as ([] & H2 & E). apply refuse_ok, bool_decide_eq_false in H2. apply bind_ok in E as ([] & Hc & E).
  apply refuse_ok, negb_false_iff in Hc. apply bind_ok in E as ([] & H3 & E). apply refuse_ok in H3. apply bind_ok in E as ([ps ow] & Hp & E).
  apply bind_ok in E as ([] & H4 & E). apply refuse_ok in H4. apply bind_ok in E as (ss & Hs & E).
  apply bind_ok in E as (ts & Ht & [= <- <-]). apply parseProviders_ok in Hp as (Hl & Hna & Hps & Hk).
  apply parseServices_ok in Hs as (Hm & Hnd & _ & Hb & Hr). apply parseTopLevel_ok in Ht as (Htn & _ & Hts & Hrt).
  split_and!; try done. split; cbn; try done.
  - by exists (df_Contract d).
  - split; [|done]. intros ->. by destruct (df_Providers d).
  - split; [|done]. intros ->. by destruct (df_Services d).
Qed.

(** C37: a baseline that parses names one deployment per provider. Of a file that is read
    without an error: the deployments' names are distinct, no provider is listed twice on
    one contract (so which deployment it is compared with does not depend on their order);
    and each has a name, a contract and at least one provider, all of them addresses in
    the normal form they are looked up by, at least one service, its services under
    distinct names that are not blank, its top-level sections under distinct non-empty
    keys that are neither the services nor an extension, and as the block of each service
    and section what the canonical reduction makes of some text. *)
Theorem parsed_baseline raw b : ParseComposeBaseline draw raw = Ok b ->
  NoDup (map dp_Name b) /\ Forall deployment_ok b /\
  forall i j d e p, b !! i = Some d -> b !! j = Some e -> dp_Contract d = dp_Contract e ->
    p ∈ dp_Providers d -> p ∈ dp_Providers e -> i = j.
Proof.
  unfold ParseComposeBaseline. intros E. apply bind_ok in E as ([j0 rest] & _ & E). apply bind_ok in E as (f & _ & E).
  apply bind_ok in E as ([] & _ & E). apply bind_ok in E as ([] & _ & E).
  assert (forall l names owner i b, parseDeployments draw names owner i l = Ok b ->
    NoDup (map dp_Name b) /\ (forall n, n ∈ map dp_Name b -> n ∉ names) /\ Forall deployment_ok b /\
    (forall d p, d ∈ b -> p ∈ dp_Providers d -> owner !! owned (dp_Contract d) p = None) /\
    forall i j d e p, b !! i = Some d -> b !! j = Some e -> dp_Contract d = dp_Contract e ->
      p ∈ dp_Providers d -> p ∈ dp_Providers e -> i = j) as Hgen.
  { clear. induction l as [|d l IH]; intros names owner i b; cbn.
    - intros [= <-]. cbn. split_and!; [constructor|intros n Hn; by apply elem_of_nil in Hn|done| |done].
      intros d p Hd. by apply elem_of_nil in Hd.
    - intros E. apply bind_ok in E as ([dep ow] & Ed & E). apply bind_ok in E as (deps & E & [= <-]).
      apply parseDeployment_ok in Ed as (Hok & Hname & Hnn & Hps & Hkeep). apply IH in E as (Hn & Hs & Hall & Hfree & Hone).
      assert (forall e p, e ∈ deps -> dp_Contract dep = dp_Contract e -> p ∈ dp_Providers dep -> p ∈ dp_Providers e -> False) as Hapart.
      { intros e p He Hc Hp Hpe. destruct (Hps p Hp) as [_ [v Hv]]. specialize (Hfree e p He Hpe). rewrite <-Hc in Hfree. congruence. }
      split_and!.
      + cbn. constructor; [|done]. intros Hin. apply Hs in Hin. rewrite Hname in Hin. set_solver.
      + intros n Hin. cbn in Hin. apply elem_of_cons in Hin as [->|Hin]; [done|]. apply Hs in Hin. set_solver.
      + by constructor.
      + intros d' p Hd Hp. apply elem_of_cons in Hd as [->|Hd]; [by apply Hps|]. specialize (Hfree d' p Hd Hp).
        destruct (owner !! owned (dp_Contract d') p) as [v|] eqn:Ev; [|done].
        destruct (Hkeep (owned (dp_Contract d') p)) as [v' Hv']; [by rewrite Ev|]. congruence.
      + intros [|i'] [|j'] d1 e1 p Hi Hj Hc Hp Hpe; cbn in Hi, Hj.
        * done.
        * injection Hi as <-. exfalso. eapply Hapart; [by eapply list_elem_of_lookup_2|done..].
        * injection Hj as <-. exfalso. eapply (Hapart d1 p); [by eapply list_elem_of_lookup_2|done..].
        * f_equal. by eapply Hone. }
  apply Hgen in E as (Hn & _ & Hall & _ & Hone). done.
Qed.
End parsed.

(** ** What becomes of a manifest that does not load *)

(** A manifest the loader refuses is told apart from one this process did not read. For
    an authentic manifest whose compose text does not load: the review holds the error, no
    service and a blocking finding; and against the provider's recorded deployment, where
    docker compose itself refuses the text the comparison fails, while where the loader
    panicked or gave up, nothing is held against the provider and the comparison is left
    open. No such manifest ever passes, and no panic of the loader's leaves the reader. *)
Theorem load_failures `{YamlLib} `{ComposeGo} {S} drawn raw hash rels r fields text e b (v : option (Verifying S)) contract provider dep s :
  ReviewCompose drawn raw hash rels = Ok r -> raw_fields raw = Ok fields ->
  jsonString (raw_field fields "docker_compose_file") = Some text -> nonblank text = true ->
  readComposeDocument drawn text = Err e -> For b contract provider = Some dep ->
  (exists f, f ∈ cr_Findings r /\ f_Severity f = SeverityBlocking /\ f_Key f = "docker_compose_file") /\
  cr_Services r = [] /\ cr_Blocks r = [] /\ cr_LoadErr r = Some e /\
  exists c, CheckReview b v contract provider r s = (c, s) /\ Compared c = true /\
    match e with
    | ELoad _ => check_OK c = false /\ Complete c = true
    | ENotRead _ => check_OK c = true /\ Complete c = false
    | EPanicked => False
    end.
Proof.
  intros Er Ef Et Hb Ee Hf. assert (e <> EPanicked) as Hp.
  { intros ->. unfold readComposeDocument, toNode in Ee. destruct (loadModel drawn text) as [m|x] eqn:El.
    - cbn in Ee. by destruct (yaml_Encode (AMap m)).
    - injection Ee as ->. by apply loadModel_recovers in El. }
  assert (r = sorted (with_text (fields_review fields) [] [] (Some e) []
    (add SeverityBlocking "" "docker_compose_file" (load_text e) (cr_Findings (fields_review fields))))) as ->.
  { unfold ReviewCompose in Er. apply bind_ok in Er as (u & _ & Er). rewrite Ef in Er. cbn in Er. injection Er as <-.
    unfold reviewFields. rewrite Et, Hb. cbn [negb]. unfold reviewComposeText. by rewrite Ee. }
  split_and!; [|done..|].
  - eexists. split; [apply in_sorted; cbn [with_text cr_Findings]; unfold add; apply elem_of_app; right; by left|done].
  - unfold CheckReview. cbn [sorted with_text cr_LoadErr]. destruct b as [|d b]; [done|]. rewrite Hf.
    destruct e; [| |done]; eexists; (split; [reflexivity|done]).
Qed.

(** ** Witnesses *)

Module BaselineWitness.
Import BlockWitness ReviewWitness.

Definition recorded_block (c : ascii) : string := sb_CanonicalNoImage (@blockOf yaml "broker" (Some (broker_body c))).
Definition contract : string := "0x" +:+ str_of (repeat "c"%char 40).
Definition provider : string := "0x" +:+ str_of (repeat "b"%char 40).
(** Recorded at one release, run at another, spelled in another case. *)
Definition recorded : ComposeBaseline :=
  [MkDep "cn-1" contract [provider] [MkBService "broker" (recorded_block "b") (MkRule broker)] []].
Definition running : list ServiceBlock := [@blockOf yaml "broker" (Some (broker_body "a"))].
Definition spelled : string := "0x" +:+ str_of (repeat "B"%char 40).

Lemma baseline_exact_witness :
  passes (CheckCompose recorded (fixed <$> Some releases) contract spelled running [] tt).1 /\
  exists dep, For recorded contract spelled = Some dep /\
    is_deployment (fixed <$> Some releases) (accepted_by (Some releases)) dep running [].
Proof.
  assert (Hp : passes (CheckCompose recorded (fixed <$> Some releases) contract spelled running [] tt).1)
    by (split; [|split]; vm_compute; reflexivity).
  split; [exact Hp|]. apply baseline_exact; [constructor|exact Hp].
Defined.

(** A build that is not a release is a mismatch, and without a verifier nothing is decided. *)
Example unreleased_differs :
  (CheckCompose recorded (fixed <$> Some releases) contract provider [@blockOf yaml "broker" (Some (broker_body "c"))] [] tt).1.(cc_Mismatches) <> [].
Proof. vm_compute. discriminate. Qed.
Example undecided_without_a_verifier :
  let c := (CheckCompose recorded (fixed <$> None) contract provider running [] tt).1 in
  check_OK c = true /\ Complete c = false.
Proof. vm_compute. split; reflexivity. Qed.

(** A file with one deployment, and the loader's view of its block. *)
Definition yaml_map : YamlLib := {|
  yaml_Unmarshal := fun _ => None;
  yaml_Documents := fun _ => ([Node DocumentNode "" "" plain [encode (body_of "x")]], false);
  yaml_Marshal := fun n => Some (str_of (render n));
  yaml_Encode := fun v => Some (encode v);
  yaml_Bool := bool_of
|}.
Definition file : bytes := print (JObj [(bytes_of "deployments", JArr [JObj
  [(bytes_of "name", jstr "cn-1"); (bytes_of "contract", jstr contract); (bytes_of "providers", JArr [jstr spelled]);
   (bytes_of "services", JArr [JObj [(bytes_of "name", jstr "broker"); (bytes_of "block", JArr [jstr "image: x"])]])]])]).
Definition parsed : ComposeBaseline :=
  match @ParseComposeBaseline yaml_map (compose_one (model_of "broker" "x")) (fun _ => drawn) file with Ok b => b | Err _ => [] end.

Lemma parsed_baseline_witness : map dp_Providers parsed = [[provider]] /\
  NoDup (map dp_Name parsed) /\
  Forall (@deployment_ok yaml_map (compose_one (model_of "broker" "x")) (fun _ => drawn)) parsed /\
  forall i j d e p, parsed !! i = Some d -> parsed !! j = Some e -> dp_Contract d = dp_Contract e ->
    p ∈ dp_Providers d -> p ∈ dp_Providers e -> i = j.
Proof.
  split; [vm_compute; reflexivity|].
  apply (@parsed_baseline yaml_map (compose_one (model_of "broker" "x")) (fun _ => drawn) file). vm_compute. reflexivity.
Defined.

(** A loader that panics after the merge: nothing is held against the provider. *)
Definition compose_broken : ComposeGo := {|
  cg_PathMatchAll := "*"; cg_PathMatchList := "[]"; cg_NewPath := String.concat "."; cg_Next := fun p k => p +:+ "." +:+ k;
  cg_Matches := String.eqb; cg_typeCasts := []; cg_Template := fun _ => TemplateFine; cg_ParseYAML := fun _ => Ok (model_of "broker" "x");
  cg_Interpolate := fun m _ => Ok m; cg_Merge := fun _ m => Ok m; cg_EnforceUnicity := fun _ => Err (CgPanic "index out of range");
  cg_Schema := fun _ => Ok []; cg_Canonical := Ok; cg_Validate := fun _ => Ok tt
|}.
Definition broken_review : ComposeReview :=
  match @ReviewCompose yaml_one compose_broken drawn raw hash None with Ok r => r | Err _ => fields_review ∅ end.

Lemma load_failures_witness : cr_LoadErr broken_review = Some (ENotRead "index out of range") /\
  exists c, CheckReview recorded (fixed <$> Some releases) contract provider broken_review tt = (c, tt) /\
    check_OK c = true /\ Complete c = false.
Proof.
  destruct (@load_failures yaml_one compose_broken unit drawn raw hash None broken_review (ok_or ∅ (raw_fields raw)) "x"
    (ENotRead "index out of range") recorded (fixed <$> Some releases) contract provider
    (default (MkDep "" "" [] [] []) (For recorded contract provider)) tt) as (_ & _ & _ & Hl & c & Hc & _ & Hv).
  - vm_compute. reflexivity.
  - vm_compute. reflexivity.
  - vm_compute. reflexivity.
  - reflexivity.
  - vm_compute. reflexivity.
  - vm_compute. reflexivity.
  - split; [exact Hl|]. exists c. split; [exact Hc|exact Hv].
Defined.

(** What follows the first object is looked for only up to a closing bracket. *)
Example trailing_bracket_read :
  @ParseComposeBaseline yaml_map (compose_one []) (fun _ => drawn) (bytes_of "{}} and a second file") = Ok [].
Proof. vm_compute. reflexivity. Qed.
Example trailing_object_refused :
  @ParseComposeBaseline yaml_map (compose_one []) (fun _ => drawn) (bytes_of "{} {}") = Err BTrailing.
Proof. vm_compute. reflexivity. Qed.
End BaselineWitness.
