(* ===== verification/Judge.v ===== *)
(** * Judge: whether a provider may be used for what it runs ([client/route/runtimerelease.go],
      [client/route/composebaseline.go], [client/route/enforce.go], [client/route/untrusted.go])

    [releaseJudge] holds a verdict per broker build and has the missing ones checked in the
    background, at most [maxReleaseChecks] at a time: its map and its slots are shared by
    every request, so it is a state with the moves of its goroutines ([move], [play]), each
    a critical section of the code. [judgeRuntime] and [judgeBaseline] judge what a quote
    verification read of a provider, through the judge; [providerPasses] asks both, awaits
    what they were missing and asks them again, and [refuseProvider] is the gate.

    The theorems: what the judge keeps in every state it can reach ([judge_kept]); that an
    acceptance is for good ([acceptance_lasts]); and that a provider the gate lets through,
    however the other goroutines move in between, runs the deployment recorded for it with
    builds the release verifier accepted ([gate_sound]). *)

From S2P Require Import Prelude GoBytes GoHash GoJson GoDecode GoUrl Attest Walk Client RateLimit Endpoint Preview Sha384 Runtime GoText Yaml Load Block Review Baseline Ground.

Definition maxReleaseChecks : nat := 4.
Definition maxJudgedReleases : Z := 1024.
(** A minute, in nanoseconds. *)
Definition releaseRecheck : Z := 60000000000.

#[export] Instance Verdict_eq_dec : EqDecision Verdict.
Proof. solve_decision. Defined.

(** ** The judge *)

Record judgedRelease := MkJudged { jr_verdict : ReleaseVerdict; jr_have : bool; jr_at : Z; jr_running : bool }.
Definition zeroJudged : judgedRelease := MkJudged (MkVerdict ReleaseRejected noRelease "") false 0 false.

(** [m], and the slots: one for each check still asking the verifier, and one for each
    that has stored its answer and not let go of its slot yet. A running entry is never
    dropped from [m], so the entry a check writes to is the one under its key. *)
Record releaseJudge := MkJudge {
  rj_m : gmap string judgedRelease;
  rj_checks : list (string * string);
  rj_releasing : nat
}.
Definition newReleaseJudge : releaseJudge := MkJudge ∅ [] 0.
Definition slots (j : releaseJudge) : nat := length (rj_checks j) + rj_releasing j.
Definition build_key (repository digest : string) : string := repository +:+ "@" +:+ digest.

Definition acceptance (v : ReleaseVerdict) : bool := bool_decide (rv_Status v = ReleaseAccepted).
Definition held (e : option judgedRelease) : option ReleaseVerdict :=
  e ← e; if jr_have e then Some (jr_verdict e) else None.

(** The entries [makeRoomLocked] drops. *)
Definition droppable (e : judgedRelease) : bool := negb (jr_running e) && (negb (jr_have e) || negb (acceptance (jr_verdict e))).
Definition room (m : gmap string judgedRelease) : bool := Z.of_nat (size m) <? maxJudgedReleases.
Definition makeRoomLocked (m : gmap string judgedRelease) : bool * gmap string judgedRelease :=
  if room m then (true, m)
  else let m := filter (fun kv => droppable kv.2 = false) m in (room m, m).

Definition due (now : Z) (e : option judgedRelease) : bool :=
  match e with
  | None => true
  | Some e => negb (jr_have e) || (negb (acceptance (jr_verdict e)) && (releaseRecheck <=? now - jr_at e))
  end.
Definition running (e : option judgedRelease) : bool := match e with Some e => jr_running e | None => false end.

(** The send on [slots], when there is room on it. *)
Definition launch (repository digest : string) (e : judgedRelease) (j : releaseJudge) : releaseJudge :=
  if Nat.ltb (slots j) maxReleaseChecks
  then MkJudge (<[build_key repository digest := MkJudged (jr_verdict e) (jr_have e) (jr_at e) true]> (rj_m j))
         (rj_checks j ++ [(repository, digest)]) (rj_releasing j)
  else j.

Definition verdict (now : Z) (repository digest : string) (start : bool) (j : releaseJudge)
    : option ReleaseVerdict * releaseJudge :=
  let key := build_key repository digest in
  let e := rj_m j !! key in
  if start && due now e && negb (running e) then
    match e with
    | Some e => (held (Some e), launch repository digest e j)
    | None =>
        let '(ok, m) := makeRoomLocked (rj_m j) in
        (None, if ok then launch repository digest zeroJudged (MkJudge (<[key := zeroJudged]> m) (rj_checks j) (rj_releasing j))
               else MkJudge m (rj_checks j) (rj_releasing j))
    end
  else (held e, j).

(** The first occurrence of a build, taken out. *)
Fixpoint take_out (b : string * string) (l : list (string * string)) : list (string * string) :=
  match l with [] => [] | x :: l => if bool_decide (x = b) then l else x :: take_out b l end.

(** [check] once the verifier has answered, up to the end of its critical section. *)
Definition answer (now : Z) (repository digest : string) (v : ReleaseVerdict) (j : releaseJudge) : releaseJudge :=
  MkJudge (alter (fun _ => MkJudged v true now false) (build_key repository digest) (rj_m j))
    (take_out (repository, digest) (rj_checks j)) (S (rj_releasing j)).

(** What the goroutines sharing the judge do. *)
Inductive move :=
| MVerdict (now : Z) (repository digest : string) (start : bool)
| MAnswer (now : Z) (repository digest : string) (v : ReleaseVerdict)
| MRelease.

(** A move that is not there to be made (the answer of a check that is not in flight, a
    slot nobody is about to let go) does nothing. *)
Definition play (x : move) (j : releaseJudge) : releaseJudge :=
  match x with
  | MVerdict now repository digest start => (verdict now repository digest start j).2
  | MAnswer now repository digest v =>
      if bool_decide ((repository, digest) ∈ rj_checks j) then answer now repository digest v j else j
  | MRelease => MkJudge (rj_m j) (rj_checks j) (pred (rj_releasing j))
  end.
Definition play_all (l : list move) (j : releaseJudge) : releaseJudge := fold_left (fun j x => play x j) l j.

(** Whether the check of a build in flight is answered by the moves: [done] is closed. *)
Fixpoint closes (key : string) (l : list move) (j : releaseJudge) : bool :=
  match l with
  | [] => false
  | x :: l =>
      match x with
      | MAnswer _ repository digest _ =>
          bool_decide ((repository, digest) ∈ rj_checks j) && String.eqb (build_key repository digest) key
      | _ => false
      end || closes key l (play x j)
  end.

(** ** What a quote verification read of a provider *)

(** The error of a reader: its own finding, or [errReaderFailed] where it panicked. *)
Inductive readErr := ROwn (e : everr) | RFailed.
Record runtimeFacts := MkRtFacts { rf_state : result readErr RuntimeState; rf_signer : string; rf_encPub : bytes }.
(** [observed], shared by the holders of one verification's facts, is its own state. *)
Record manifestFacts := MkMfFacts { mf_review : option ComposeReview; mf_err : string }.

(** [recoverReader]: what a reader gives behind the boundary, [None] being a panic. *)
Definition recovered {A} (r : option (result everr A)) : result readErr A :=
  match r with None => Err RFailed | Some (Ok a) => Ok a | Some (Err e) => Err (ROwn e) end.

(** [observation.first]; the nil observation is [None]. Keys are [chain.ProviderKey]s. *)
Definition first (key : string) (o : option (gset string)) : bool * option (gset string) :=
  match o with
  | None => (true, None)
  | Some seen => if bool_decide (key ∈ seen) then (false, Some seen) else (true, Some ({[ key ]} ∪ seen))
  end.

(** The router's own configuration of the checks: its release verifier's repository, and
    the baseline with the contract its deployments are on. *)
Record checks := MkChecks { ch_releases : option string; ch_baseline : option (ComposeBaseline * string); ch_enforce : bool }.

(** [readManifest], over [ReviewCompose] behind the boundary. *)
Definition readManifest (k : checks) (review : bytes -> bytes -> result readErr ComposeReview)
    (appCompose composeHash : bytes) (haveHash : bool) : manifestFacts :=
  match ch_baseline k with
  | None => MkMfFacts None ""
  | Some _ =>
      if negb haveHash then MkMfFacts None "the quote's mr_config_id does not expose a compose hash, so no manifest is authenticated"
      else match appCompose with
           | [] => MkMfFacts None "the quote reply carries no app-compose"
           | _ => match review appCompose composeHash with
                  | Err _ => MkMfFacts None "the manifest was not read"
                  | Ok r => MkMfFacts (Some r) ""
                  end
           end
  end.

Record runtimeVerdict := MkRV { rv_verdict : Verdict; rv_running : string; rv_release : string; rv_why : list string }.
Record baselineVerdict := MkBV { bv_verdict : Verdict; bv_deployment : string; bv_why : list string }.

Definition mismatchReason (m : ComposeMismatch) : string :=
  (if String.eqb (cm_Service m) "" then "" else cm_Service m +:+ ": ") +:+ cm_Reason m
  +:+ (if String.eqb (cm_Diff m) "" then "" else " (" +:+ cm_Diff m +:+ ")").
Definition mismatchReasons (l : list ComposeMismatch) : list string := map mismatchReason l.

Section judging.
Context (k : checks).
(** How the other goroutines move before this one's [n]-th step on the judge, and its
    clock then. *)
Context (turns : nat -> list move * Z).

(** A caller of the judge: the judge, the builds it had no verdict for, and its steps. *)
Record asking := MkAsking { as_judge : releaseJudge; as_missing : list (string * string); as_step : nat }.
Definition turn (s : asking) : asking * Z :=
  let '(l, now) := turns (as_step s) in (MkAsking (play_all l (as_judge s)) (as_missing s) (S (as_step s)), now).

Definition notYet : ReleaseVerdict := MkVerdict ReleaseUnavailable noRelease "its release provenance has not been checked yet".

(** [judgedReleases.Verify]. *)
Definition judged_Verify (start : bool) (repository digest : string) (s : asking) : ReleaseVerdict * asking :=
  let '(s, now) := turn s in
  match verdict now repository digest start (as_judge s) with
  | (Some v, j) => (v, MkAsking j (as_missing s) (as_step s))
  | (None, j) => (notYet, MkAsking j (as_missing s ++ [(repository, digest)]) (as_step s))
  end.
Definition judged (start : bool) : option (Verifying asking) :=
  (fun repository => MkVerifying repository (judged_Verify start)) <$> ch_releases k.

Definition running_build (im : ImageRecord) : string := im_Repository im +:+ "@" +:+ im_Digest im.

(** The one build [CheckRuntime] asks about, asked before it. *)
Definition ask_running (st : RuntimeState) (start : bool) (s : asking) : ReleaseVerdict * asking :=
  match st_Image st with
  | Some im => verify_release (judged start) (im_Repository im) (im_Digest im) s
  | None => (notYet, s)
  end.

Definition judgeRuntime (f : runtimeFacts) (start : bool) (s : asking) : runtimeVerdict * asking :=
  match ch_releases k with
  | None => (MkRV VerdictNotChecked (match rf_state f with
                                     | Ok st => match st_Image st with Some im => running_build im | None => "" end
                                     | Err _ => "" end) "" [], s)
  | Some repository =>
      match rf_state f with
      | Err (ROwn ErrNoEventLog) => (MkRV VerdictUnavailable "" "" ["the quote reply carries no event log"], s)
      | Err RFailed => (MkRV VerdictUnavailable "" "" ["this process failed while reading it"], s)
      | Err (ROwn _) => (MkRV VerdictNoMatch "" "" ["the event log is refused"], s)
      | Ok st =>
          let '(v, s) := ask_running st start s in
          let c := CheckRuntime st (Some (MkReleases repository (fun _ _ => v))) (rf_signer f) (rf_encPub f) in
          let build := match st_Image st with Some im => running_build im | None => "" end in
          (match rc_Failures c, rc_Unverified c, rc_Release c with
           | _ :: _, _, _ => MkRV VerdictNoMatch build "" (rc_Failures c)
           | [], _ :: _, _ => MkRV VerdictUnavailable build "" (rc_Unverified c)
           | [], [], None => MkRV VerdictNotChecked build "" ["no runtime image record"]
           | [], [], Some r => MkRV VerdictPass build (br_Version (rv_Release r)) []
           end, s)
      end
  end.

Definition judgeBaseline (address : string) (f : manifestFacts) (start : bool) (s : asking) : baselineVerdict * asking :=
  match ch_baseline k, mf_review f with
  | None, _ => (MkBV VerdictNotChecked "" [], s)
  | Some _, None => (MkBV VerdictUnavailable "" [mf_err f], s)
  | Some (b, contract), Some review =>
      let '(c, s) := CheckReview b (judged start) contract address review s in
      (if negb (Compared c) then MkBV VerdictNoBaseline (cc_Deployment c) []
       else match cc_Mismatches c, cc_Unverified c with
            | _ :: _, _ => MkBV VerdictNoMatch (cc_Deployment c) (mismatchReasons (cc_Mismatches c))
            | [], _ :: _ => MkBV VerdictUnavailable (cc_Deployment c) (mismatchReasons (cc_Unverified c))
            | [], [] => MkBV VerdictPass (cc_Deployment c) []
            end, s)
  end.

(** The observation of a verification, and of a manifest the first time it is used for a
    provider; both send a build without a verdict for one. *)
Definition observeRuntime (f : runtimeFacts) (s : asking) : runtimeVerdict * asking := judgeRuntime f true s.
Definition observeBaseline (provider_key address : string) (f : manifestFacts) (seen : option (gset string)) (s : asking)
    : bool * option (gset string) * asking :=
  match first provider_key seen with
  | (false, seen) => (false, seen, s)
  | (true, seen) => (true, seen, (judgeBaseline address f true s).2)
  end.

(** ** The gate *)

(** Where [await] is: about to ask, about to look at the entry, or blocked on [done]. *)
Inductive waiting := Asking | Looking | Blocked.

(** [await], for at most [patience] of its steps: then its context has ended. A timer it
    waits on is a turn before it asks again. *)
Fixpoint await (patience : nat) (w : waiting) (repository digest : string) (s : asking) : asking :=
  match patience with
  | O => s
  | S patience =>
      let key := build_key repository digest in
      let shut := closes key (turns (as_step s)).1 (as_judge s) in
      let '(s, now) := turn s in
      match w with
      | Asking => await patience Looking repository digest
                    (MkAsking (verdict now repository digest true (as_judge s)).2 (as_missing s) (as_step s))
      | Looking => match rj_m (as_judge s) !! key with
                   | Some e => if jr_have e then s
                               else await patience (if jr_running e then Blocked else Asking) repository digest s
                   | None => await patience Asking repository digest s
                   end
      | Blocked => await patience (if shut then Asking else Blocked) repository digest s
      end
  end.

(** The facts of a verification the gate reads, and whether a check they failed. *)
Record providerFacts := MkPF { pf_runtime : runtimeFacts; pf_manifest : manifestFacts }.

Definition runtime_passes (v : runtimeVerdict) : bool :=
  bool_decide (rv_verdict v = VerdictPass) || (bool_decide (rv_verdict v = VerdictNotChecked) && match ch_releases k with Some _ => true | None => false end).

Definition await_all (patience : nat -> nat) (s : asking) : asking :=
  fold_left (fun s b => await (patience (as_step s)) Asking b.1 b.2 s) (as_missing s) s.

Definition providerPasses (patience : nat -> nat) (address : string) (facts : providerFacts) (s : asking)
    : list string * runtimeVerdict * baselineVerdict * asking :=
  let s := MkAsking (as_judge s) [] (as_step s) in
  let '(_, s) := judgeRuntime (pf_runtime facts) true s in
  let '(_, s) := judgeBaseline address (pf_manifest facts) true s in
  let s := match ch_releases k with Some _ => await_all patience s | None => s end in
  let '(rt, s) := judgeRuntime (pf_runtime facts) false s in
  let '(bl, s) := judgeBaseline address (pf_manifest facts) false s in
  ((if runtime_passes rt then [] else ["runtime_release"])
   ++ (if bool_decide (bv_verdict bl = VerdictPass) then [] else ["compose_baseline"]), rt, bl, s).

(** The checks a refusal names. *)
Definition refuseProvider (patience : nat -> nat) (address : string) (facts : providerFacts) (s : asking)
    : option (list string) * asking :=
  let '(failed, _, _, s) := providerPasses patience address facts s in
  (match failed with [] => None | _ => Some failed end, s).

(** The end of a materialization whose quote was verified: the gate, after the record and
    the on-chain check, on what is otherwise offered. *)
Definition gated (patience : nat -> nat) (address : string) (facts : providerFacts) (offered : cresult Provider) (s : asking)
    : cresult Provider * asking :=
  match offered with
  | Err e => (Err e, s)
  | Ok p =>
      if ch_enforce k then
        match refuseProvider patience address facts s with
        | (Some _, s) => (Err (upstream 0 (EMsg "provider refused (provider enforce)")), s)
        | (None, s) => (Ok p, s)
        end
      else (Ok p, s)
  end.
End judging.

(** ** What the judge keeps *)

Section kept.
(** What the release verifier answers, at whatever time. *)
Context (answers : string -> string -> ReleaseVerdict -> Prop).

Definition no_at (digest : string) : Prop := "@"%char ∉ bytes_of digest.

(** The moves of callers that ask about digests, and of a verifier. *)
Definition honest (x : move) : Prop :=
  match x with
  | MVerdict _ _ digest _ => no_at digest
  | MAnswer _ repository digest v => answers repository digest v
  | MRelease => True
  end.

Inductive reachable : releaseJudge -> Prop :=
| reach_new : reachable newReleaseJudge
| reach_play x j : honest x -> reachable j -> reachable (play x j).

Definition pair_key (b : string * string) : string := build_key b.1 b.2.

Record judge_kept (j : releaseJudge) : Prop := {
  kept_slots : (slots j <= maxReleaseChecks)%nat;
  kept_size : Z.of_nat (size (rj_m j)) <= maxJudgedReleases;
  kept_once : NoDup (map pair_key (rj_checks j));
  kept_plain : forall b, b ∈ rj_checks j -> no_at b.2;
  kept_running : forall key, running (rj_m j !! key) = true <-> key ∈ map pair_key (rj_checks j);
  kept_pending : forall key e, rj_m j !! key = Some e -> jr_running e = true -> jr_have e && acceptance (jr_verdict e) = false;
  kept_held : forall key e, rj_m j !! key = Some e -> jr_have e = true ->
    exists repository digest, key = build_key repository digest /\ no_at digest /\ answers repository digest (jr_verdict e)
}.

Lemma build_key_inj r1 d1 r2 d2 : no_at d1 -> no_at d2 -> build_key r1 d1 = build_key r2 d2 -> r1 = r2 /\ d1 = d2.
Proof.
  unfold build_key, no_at. intros H1 H2 E. apply (f_equal bytes_of) in E. rewrite !bytes_of_app in E. cbn [bytes_of] in E.
  apply (f_equal (split_last "@")) in E. cbn in E. rewrite !split_last_app in E by done. injection E as E1 E2.
  split; by apply bytes_of_inj.
Qed.

Lemma launch_kept repository digest e j : judge_kept j -> no_at digest ->
  rj_m j !! build_key repository digest = Some e -> jr_running e = false -> jr_have e && acceptance (jr_verdict e) = false ->
  judge_kept (launch repository digest e j).
Proof.
  intros [Hs Hz Ho Hp Hr He Hh] Hd Hl Hrun Hacc. unfold launch. destruct (Nat.ltb_spec (slots j) maxReleaseChecks) as [Hlt|]; [|by split].
  assert (build_key repository digest ∉ map pair_key (rj_checks j)) as Hnew by (rewrite <-Hr, Hl; cbn; congruence).
  split; cbn [rj_m rj_checks rj_releasing]; unfold slots in *; cbn [rj_checks rj_releasing].
  - rewrite length_app. cbn. lia.
  - by rewrite map_size_insert_Some by eauto.
  - rewrite map_app. cbn. apply NoDup_app. split_and!; [done| |apply NoDup_singleton]. intros x Hx Hin. apply list_elem_of_singleton in Hin as ->. done.
  - intros b [Hb|Hb]%elem_of_app; [by apply Hp|]. by apply list_elem_of_singleton in Hb as ->.
  - intros key. rewrite map_app, elem_of_app, <-Hr. destruct (decide (build_key repository digest = key)) as [<-|Hne].
    + rewrite lookup_insert_eq. cbn. split; [intros _; right; by left|done].
    + rewrite lookup_insert_ne by done. split; [by left|]. intros [?|Hin]; [done|]. by apply list_elem_of_singleton in Hin as ->.
  - intros key x Hx Hxr. apply lookup_insert_Some in Hx as [[<- <-]|[_ Hx]]; [done|by eapply He].
  - intros key x Hx Hxh. apply lookup_insert_Some in Hx as [[<- <-]|[_ Hx]]; [by eapply (Hh _ e)|by eapply Hh].
Qed.

Lemma room_kept j : judge_kept j -> judge_kept (MkJudge (makeRoomLocked (rj_m j)).2 (rj_checks j) (rj_releasing j)).
Proof.
  intros [Hs Hz Ho Hp Hr He Hh]. unfold makeRoomLocked. destruct (room (rj_m j)); [by split|].
  assert (forall key e, filter (fun kv => droppable kv.2 = false) (rj_m j) !! key = Some e -> rj_m j !! key = Some e) as Hf.
  { intros key e. rewrite map_lookup_filter_Some. by intros [? _]. }
  split; cbn [rj_m rj_checks rj_releasing snd]; try done.
  - pose proof (map_size_filter (fun kv => droppable kv.2 = false) (rj_m j)). lia.
  - intros key. rewrite <-Hr. split.
    + destruct (_ !! key) as [e|] eqn:El; [|done]. by rewrite (Hf _ _ El).
    + destruct (rj_m j !! key) as [e|] eqn:El; [|done]. cbn. intros Hrun.
      assert (filter (fun kv => droppable kv.2 = false) (rj_m j) !! key = Some e) as ->; [|done].
      apply map_lookup_filter_Some. split; [done|]. unfold droppable. cbn. by rewrite Hrun.
  - intros key e El. apply He with key. by apply Hf.
  - intros key e El. apply Hh. by apply Hf.
Qed.

Lemma insert_kept key j : judge_kept j -> room (rj_m j) = true -> rj_m j !! key = None ->
  judge_kept (MkJudge (<[key := zeroJudged]> (rj_m j)) (rj_checks j) (rj_releasing j)).
Proof.
  intros [Hs Hz Ho Hp Hr He Hh] Hroom Hl. split; cbn [rj_m rj_checks rj_releasing]; try done.
  - rewrite map_size_insert_None by done. unfold room in Hroom. lia.
  - intros x. rewrite <-Hr. destruct (decide (key = x)) as [<-|Hne]; [by rewrite lookup_insert_eq, Hl|by rewrite lookup_insert_ne].
  - intros x e Hx Hrun. apply lookup_insert_Some in Hx as [[<- <-]|[_ Hx]]; [done|by eapply He].
  - intros x e Hx Hhave. apply lookup_insert_Some in Hx as [[<- <-]|[_ Hx]]; [done|by eapply Hh].
Qed.

Lemma due_not_accepted now e : due now (Some e) = true -> jr_have e && acceptance (jr_verdict e) = false.
Proof. unfold due. destruct (jr_have e), (acceptance (jr_verdict e)); cbn; congruence. Qed.

Lemma makeRoom_room m : (makeRoomLocked m).1 = true -> room (makeRoomLocked m).2 = true.
Proof. unfold makeRoomLocked. by destruct (room m) eqn:E. Qed.

Lemma makeRoom_sub m key : m !! key = None -> (makeRoomLocked m).2 !! key = None.
Proof. unfold makeRoomLocked. destruct (room m); [done|]. intros Hn. apply map_lookup_filter_None. by left. Qed.

Lemma verdict_kept now repository digest start j : judge_kept j -> no_at digest ->
  judge_kept (verdict now repository digest start j).2.
Proof.
  intros Hj Hd. unfold verdict. destruct (rj_m j !! build_key repository digest) as [e|] eqn:El.
  - destruct (start && due now (Some e) && negb (running (Some e))) eqn:E; [|done].
    apply andb_true_iff in E as [E Hrun]. apply andb_true_iff in E as [_ Hdue]. apply negb_true_iff in Hrun.
    apply launch_kept; try done. by eapply due_not_accepted.
  - destruct (start && due now None && negb (running None)); [|done].
    destruct (makeRoomLocked (rj_m j)) as [ok m] eqn:Em. pose proof (room_kept _ Hj) as Hm. rewrite Em in Hm. cbn in Hm.
    destruct ok; [|done]. pose proof (makeRoom_room (rj_m j)) as Hroom. pose proof (makeRoom_sub (rj_m j) _ El) as Hsub.
    rewrite Em in Hroom, Hsub. apply launch_kept; try done; [|by apply lookup_insert_eq].
    by apply (insert_kept _ (MkJudge m (rj_checks j) (rj_releasing j))); [..|by apply Hroom|].
Qed.

(** Taking a check out leaves the others. *)
Lemma take_out_spec b l : b ∈ l -> NoDup (map pair_key l) ->
  length l = S (length (take_out b l)) /\ NoDup (map pair_key (take_out b l)) /\
  (forall x, x ∈ take_out b l -> x ∈ l) /\
  (forall key, key ∈ map pair_key (take_out b l) <-> key ∈ map pair_key l /\ key <> pair_key b).
Proof.
  induction l as [|x l IH]; intros Hin Hnd; [by apply elem_of_nil in Hin|]. cbn [take_out map] in *. apply NoDup_cons in Hnd as [Hx Hnd].
  destruct (bool_decide_reflect (x = b)) as [->|Hne].
  - split_and!; [done|done|intros y Hy; by right|]. intros key. rewrite elem_of_cons. split; [|by intros [[-> |?] ?]].
    intros Hk. split; [by right|]. by intros ->.
  - apply elem_of_cons in Hin as [->|Hin]; [done|]. destruct (IH Hin Hnd) as (Hl & Hn & Hs & Hk). cbn [length map]. split_and!.
    + by rewrite Hl.
    + constructor; [|done]. rewrite Hk. by intros [? _].
    + intros y Hy. apply elem_of_cons in Hy as [->|Hy]; [by left|right; by apply Hs].
    + intros key. rewrite !elem_of_cons, Hk. split; [|by intros [[-> |?] ?]; auto]. intros [-> |[? ?]]; [|by auto].
      split; [by left|]. intros E. apply Hx. rewrite E. apply list_elem_of_In, in_map, list_elem_of_In. done.
Qed.

Lemma answer_kept now repository digest v j : judge_kept j -> (repository, digest) ∈ rj_checks j -> answers repository digest v ->
  judge_kept (answer now repository digest v j).
Proof.
  intros [Hs Hz Ho Hp Hr He Hh] Hin Ha. destruct (take_out_spec _ _ Hin Ho) as (Hl & Hn & Hsub & Hk).
  split; cbn [rj_m rj_checks rj_releasing answer]; unfold slots, answer in *; cbn [rj_checks rj_releasing].
  - lia.
  - by rewrite <-size_dom, dom_alter_L, size_dom.
  - done.
  - intros b Hb. apply Hp. by apply Hsub.
  - intros key. rewrite Hk, <-Hr. destruct (decide (build_key repository digest = key)) as [<-|Hne].
    + rewrite lookup_alter_eq. split; [by destruct (rj_m j !! _)|]. intros [_ Hx]. by destruct Hx.
    + rewrite lookup_alter_ne by done. split; [by intros ?; split|by intros [? _]].
  - intros key e Hx Hrun. apply lookup_alter_Some in Hx as [(<- & x & _ & ->)|[_ Hx]]; [done|by eapply He].
  - intros key e Hx Hhave. apply lookup_alter_Some in Hx as [(<- & x & _ & ->)|[_ Hx]]; [|by eapply Hh].
    exists repository, digest. split_and!; [done| |done]. by apply (Hp (repository, digest)).
Qed.

Lemma play_kept x j : honest x -> judge_kept j -> judge_kept (play x j).
Proof.
  intros Hx Hj. destruct x as [now repository digest start|now repository digest v|]; cbn [play].
  - by apply verdict_kept.
  - destruct (bool_decide_reflect ((repository, digest) ∈ rj_checks j)); [by apply answer_kept|done].
  - destruct Hj as [Hs Hz Ho Hp Hr He Hh]. split; try done. unfold slots in *. cbn. lia.
Qed.

Lemma play_all_kept l j : Forall honest l -> judge_kept j -> judge_kept (play_all l j).
Proof. intros Hl. revert j. induction Hl as [|x l Hx _ IH]; intros j Hj; [done|]. apply IH. by apply play_kept. Qed.

Lemma new_kept : judge_kept newReleaseJudge.
Proof.
  split; cbn; unfold slots; cbn; try done; try (intros ? ?; by rewrite lookup_empty).
  - unfold maxReleaseChecks. lia.
  - constructor.
  - intros b Hb. by apply elem_of_nil in Hb.
  - intros key. rewrite lookup_empty. split; [done|]. intros Hb. by apply elem_of_nil in Hb.
Qed.

(** The judge keeps its bounds and its books. In every state its goroutines can bring
    it to: at most four checks hold a slot and at most 1024 builds an entry; an entry is
    running exactly when one check of its build is in flight, and no build is checked twice
    at once; an accepted build is never being checked; and every verdict held is one the
    release verifier gave for that build. *)
Theorem judge_invariant j : reachable j -> judge_kept j.
Proof. induction 1 as [|x j Hx _ IH]; [apply new_kept|by apply play_kept]. Qed.

Definition accepted_at (j : releaseJudge) (key : string) (v : ReleaseVerdict) : Prop :=
  exists e, rj_m j !! key = Some e /\ jr_have e = true /\ jr_verdict e = v /\ acceptance v = true.

Lemma play_accepted x j key v : honest x -> judge_kept j -> accepted_at j key v -> accepted_at (play x j) key v.
Proof.
  intros Hx Hj (e & El & Hhave & <- & Hacc).
  assert (jr_running e = false) as Hrun.
  { destruct (jr_running e) eqn:E; [|done]. pose proof (kept_pending _ Hj _ _ El E) as Hp. by rewrite Hhave, Hacc in Hp. }
  assert (forall m, (makeRoomLocked (rj_m j)) = m -> m.2 !! key = Some e) as Hroom.
  { intros m <-. unfold makeRoomLocked. destruct (room (rj_m j)); [done|]. apply map_lookup_filter_Some. split; [done|].
    unfold droppable. cbn. by rewrite Hhave, Hacc, andb_false_r. }
  exists e. split; [|done]. destruct x as [now repository digest start|now repository digest w|]; cbn [play].
  - unfold verdict. destruct (rj_m j !! build_key repository digest) as [f|] eqn:Ef.
    + destruct (start && due now (Some f) && negb (running (Some f))) eqn:E; [|done]. unfold launch.
      destruct (Nat.ltb _ _); [|done]. cbn [rj_m snd]. rewrite lookup_insert_ne; [done|]. intros Ek. rewrite Ek, El in Ef. injection Ef as <-.
      apply andb_true_iff in E as [E _]. apply andb_true_iff in E as [_ E]. apply due_not_accepted in E. by rewrite Hhave, Hacc in E.
    + assert (build_key repository digest <> key) as Hne by congruence.
      destruct (start && due now None && negb (running None)); [|done]. destruct (makeRoomLocked (rj_m j)) as [ok m] eqn:Em.
      specialize (Hroom _ eq_refl). cbn in Hroom. destruct ok; [|done]. unfold launch. destruct (Nat.ltb _ _); cbn [rj_m snd].
      * by rewrite !lookup_insert_ne.
      * by rewrite lookup_insert_ne.
  - destruct (bool_decide_reflect ((repository, digest) ∈ rj_checks j)) as [Hin|]; [|done]. cbn [answer rj_m].
    rewrite lookup_alter_ne; [done|]. intros Ek.
    assert (running (rj_m j !! key) = true) as Hr.
    { apply (kept_running _ Hj). rewrite <-Ek. apply list_elem_of_In, in_map_iff. exists (repository, digest).
      split; [done|by apply list_elem_of_In]. }
    rewrite El in Hr. cbn in Hr. congruence.
  - done.
Qed.

(** An acceptance is for good: a build the judge holds an acceptance of keeps it,
    whatever its goroutines go on to do, room being made for others included. *)
Theorem acceptance_lasts j l key v : reachable j -> Forall honest l -> accepted_at j key v ->
  accepted_at (play_all l j) key v.
Proof.
  intros Hj. apply judge_invariant in Hj. intros Hl. revert j Hj. induction Hl as [|x l Hx _ IH]; intros j Hj Ha; [done|].
  apply IH; [by apply play_kept|by apply play_accepted].
Qed.

(** *** Through a caller *)

Section caller.
Context (k : checks) (turns : nat -> list move * Z).
Context (Hturns : forall n, Forall honest (turns n).1).
(** Something else the judge's moves keep. *)
Context (P : releaseJudge -> Prop) (HP : forall x j, honest x -> judge_kept j -> P j -> P (play x j)).

Definition accepted_build (repository digest : string) : Prop :=
  exists v, answers repository digest v /\ rv_Status v = ReleaseAccepted.
Record in_order (s : asking) : Prop := {
  io_judge : judge_kept (as_judge s);
  io_also : P (as_judge s);
  io_missing : forall b, b ∈ as_missing s -> no_at b.2
}.

Lemma play_all_also l j : Forall honest l -> judge_kept j -> P j -> P (play_all l j).
Proof. intros Hl. revert j. induction Hl as [|x l Hx _ IH]; intros j Hj Hp; [done|]. apply IH; [by apply play_kept|by apply HP]. Qed.

Lemma verdict_also now repository digest start j : no_at digest -> judge_kept j -> P j -> P (verdict now repository digest start j).2.
Proof. intros Hd. by apply (HP (MVerdict now repository digest start)). Qed.

Lemma turn_kept s : in_order s -> in_order (turn turns s).1.
Proof.
  unfold turn. intros [Hs Hp Hm]. pose proof (Hturns (as_step s)) as Hl. destruct (turns (as_step s)) as [l now].
  split; [by apply play_all_kept|by apply play_all_also|done].
Qed.

Lemma held_sound now repository digest start j v : judge_kept j -> no_at digest ->
  (verdict now repository digest start j).1 = Some v -> answers repository digest v.
Proof.
  intros Hj Hd Hv. assert (held (rj_m j !! build_key repository digest) = Some v) as Hh.
  { revert Hv. unfold verdict. destruct (rj_m j !! build_key repository digest) as [e|]; [by destruct (_ && _)|].
    destruct (_ && _); [|done]. by destruct (makeRoomLocked (rj_m j)) as [[] m]. }
  destruct (rj_m j !! build_key repository digest) as [e|] eqn:El; [|done]. cbn in Hh. destruct (jr_have e) eqn:Eh; [|done].
  injection Hh as <-. destruct (kept_held _ Hj _ _ El Eh) as (r & d & Ek & Hd' & Ha).
  by apply build_key_inj in Ek as [-> ->].
Qed.

Lemma judged_sound start repository digest s : no_at digest -> in_order s ->
  in_order (judged_Verify turns start repository digest s).2 /\
  (rv_Status (judged_Verify turns start repository digest s).1 = ReleaseAccepted -> accepted_build repository digest).
Proof.
  intros Hd Hs. unfold judged_Verify. pose proof (turn_kept s Hs) as [Ht Hp Hm]. destruct (turn turns s) as [s1 now]. cbn in Ht, Hp, Hm.
  pose proof (verdict_kept now repository digest start _ Ht Hd) as Hk. pose proof (verdict_also now repository digest start _ Hd Ht Hp) as Hk2.
  pose proof (held_sound now repository digest start (as_judge s1)) as Hh.
  destruct (verdict now repository digest start (as_judge s1)) as [[v|] j]; cbn in *.
  - split; [by split|]. intros Hv. exists v. split; [by apply Hh|done].
  - split; [|done]. split; [done..|]. intros b [Hb|Hb]%elem_of_app; [by apply Hm|]. by apply list_elem_of_singleton in Hb as ->.
Qed.

Lemma shaped_no_at digest : isDigestShaped digest = true -> no_at digest.
Proof.
  unfold isDigestShaped, no_at. destruct (split_first ":" (bytes_of digest)) as [[alg hex]|] eqn:E; [|done].
  intros Hs. apply andb_true_iff in Hs as [Hs Hx]. apply andb_true_iff in Hs as [Ha _].
  apply alg_chars in Ha. rewrite forallb_forall in Hx. apply split_first_some in E as [-> _]. intros Hin.
  apply elem_of_app in Hin as [Hin|Hin]; [by rewrite Forall_forall in Ha; apply Ha in Hin|].
  apply elem_of_cons in Hin as [Hin|Hin]; [done|]. apply list_elem_of_In, Hx in Hin. done.
Qed.

Lemma await_kept patience : forall w repository digest s, no_at digest -> in_order s ->
  in_order (await turns patience w repository digest s).
Proof.
  induction patience as [|patience IH]; intros w repository digest s Hd Hs; cbn [await]; [done|].
  pose proof (turn_kept s Hs) as Ht. destruct (turn turns s) as [s1 now]. cbn in Ht.
  destruct w.
  - apply IH; [done|]. destruct Ht. split; [by apply verdict_kept|by apply verdict_also|done].
  - destruct (rj_m (as_judge s1) !! build_key repository digest) as [e|]; [|by apply IH].
    destruct (jr_have e); [done|]. by apply IH.
  - by apply IH.
Qed.

Lemma await_all_kept patience s : in_order s -> in_order (await_all turns patience s).
Proof.
  intros Hs. unfold await_all. pose proof (io_missing _ Hs) as Hm.
  revert s Hs Hm. enough (forall l s, in_order s -> (forall b, b ∈ l -> no_at b.2) ->
    in_order (fold_left (fun s b => await turns (patience (as_step s)) Asking b.1 b.2 s) l s)) as H by (intros s Hs Hm; by apply H).
  induction l as [|b l IH]; intros s Hs Hl; [done|]. cbn. apply IH; [|intros x Hx; apply Hl; by right].
  apply await_kept; [apply Hl; by left|done].
Qed.

End caller.

(** *** What is read of a log names builds by digest *)

Lemma image_no_at payload r : parseImageUpdate payload = Ok r -> no_at (im_Digest r).
Proof.
  unfold parseImageUpdate. destruct (split_on " " payload) as [|image [|signer [|enc [|? ?]]]]; try done.
  destruct (split_first "@" image) as [[repo digest]|]; [|done]. intros E. inv_ok. bool_hyps.
  repeat match goal with H : strip_prefix _ _ = Some _ |- _ => apply strip_prefix_spec in H; subst end.
  unfold no_at. cbn [im_Digest]. rewrite bytes_of_str_of. intros [Hin|Hin]%elem_of_app.
  - revert Hin. apply (bool_decide_unpack _). by vm_compute.
  - revert Hin. by eapply lower_hex_not.
Qed.

Definition plain_image (st : RuntimeState) : Prop := forall im, st_Image st = Some im -> no_at (im_Digest im).

Section facts.
Context `{UrlLib}.

Lemma record_plain st n e st' : plain_image st -> read_record st n e = Ok st' -> plain_image st'.
Proof.
  destruct st as [en ru ig im iu cu lc up eg ins unk]. intros Hp. unfold read_record.
  destruct (is_zg e); cbn [negb]; [|by intros [= <-]]. destruct (refuse _ _) as [[]|]; [|done]. cbn [mbind result_bind].
  destruct (apply _ n (re_Event e) (re_payload e)) as [x|] eqn:E; [|done]. cbn. intros [= <-]. revert E. unfold apply.
  destruct (String.eqb (re_Event e) recImageUpdate).
  { destruct (parseImageUpdate _) as [r|] eqn:Er; [|done]. cbn. intros [= <-] im' [= <-]. cbn. by eapply image_no_at. }
  destruct (String.eqb _ recConfigUpdate); [destruct (refuse _ _) as [[]|]; [|done]; by intros [= <-]|].
  destruct (String.eqb _ recUpstreamSet); [destruct (parseUpstreamSet _); [|done]; by intros [= <-]|].
  destruct (String.eqb _ recEngineSet); [by intros [= <-]|].
  destruct (String.eqb _ recInstanceConfigUpdate); [|by intros [= <-]].
  destruct (of_option _ _) as [[inst v]|]; [|done]. cbn. destruct (refuse _ _) as [[]|]; [|done]. by intros [= <-].
Qed.

Lemma records_plain log : forall st n st', plain_image st -> read_records st n log = Ok st' -> plain_image st'.
Proof.
  induction log as [|e log IH]; intros st n st' Hp; cbn; [by intros [= <-]|].
  destruct (read_record st n e) as [x|] eqn:E; [|done]. apply IH. by eapply record_plain.
Qed.

Lemma state_plain reply rtmr3 st : ReadRuntimeState reply rtmr3 = Ok st -> plain_image st.
Proof.
  unfold ReadRuntimeState. destruct (replayRTMR3 reply rtmr3) as [log|]; [|done]. cbn. unfold read_log.
  destruct (split_ready log) as [[boot runtime]|]; [|done]. cbn. by apply records_plain.
Qed.
End facts.

(** *** The judgements, and the gate *)

(** What runs, when nothing speaks against it and every build is one of [accepts]. *)
Record clean_runtime (accepts : string -> string -> Prop) (st : RuntimeState) (signer : string) (encPub : bytes) : Prop := {
  cr_engines : st_Engines st = 0%nat;
  cr_known : st_Unknown st = [];
  cr_upstreams : forall u, st_Upstreams st = Some u -> us_Invalidated u = false;
  cr_instances : forall i, st_Instances st !! i <> Some "unknown";
  cr_image : forall im, st_Image st = Some im ->
    accepts (im_Repository im) (im_Digest im) /\ equal_fold (im_Signer im) signer = true /\ im_EncPub im = encPub
}.

Lemma clean_of_verdict accepts st repository v signer encPub :
  let c := CheckRuntime st (Some (MkReleases repository (fun _ _ => v))) signer encPub in
  (forall im, st_Image st = Some im -> rv_Status v = ReleaseAccepted -> accepts (im_Repository im) (im_Digest im)) ->
  rc_Failures c = [] -> rc_Unverified c = [] -> clean_runtime accepts st signer encPub.
Proof.
  intros c Hv Hf Hu. apply failures_iff in Hf. apply unverified_iff in Hu. unfold contradicted, undecided in *. cbn in *. split.
  - destruct (decide (st_Engines st = 0%nat)); [done|]. destruct Hf. by left.
  - destruct (decide (st_Unknown st = [])); [done|]. destruct Hu. by left.
  - intros u Hx. destruct (us_Invalidated u) eqn:E; [|done]. destruct Hu. right. left. eauto.
  - intros i Hi. apply Hu. right. right. left. eauto.
  - intros im Him. split_and!.
    + apply Hv; [done|]. destruct (rv_Status v) eqn:E; [destruct Hf; right; eauto|done|destruct Hu; right; right; right; eauto].
    + destruct (equal_fold _ _) eqn:E; [done|]. destruct Hf. right. eauto.
    + destruct (decide (im_EncPub im = encPub)); [done|]. destruct Hf. right. eauto 6.
Qed.

Lemma verdict_of_clean accepts st repository v signer encPub :
  let c := CheckRuntime st (Some (MkReleases repository (fun _ _ => v))) signer encPub in
  (forall im, st_Image st = Some im -> rv_Status v = ReleaseAccepted) ->
  clean_runtime accepts st signer encPub -> rc_Failures c = [] /\ rc_Unverified c = [].
Proof.
  intros c Hv [He Hk Hu Hi Him]. split; [apply failures_iff|apply unverified_iff]; unfold contradicted, undecided; cbn.
  - intros [?|(im & Hx & Hbad)]; [done|]. specialize (Hv _ Hx). destruct (Him _ Hx) as (_ & Hs & Hk2).
    destruct Hbad as [?|[?|?]]; congruence.
  - intros [?|[(u & Hx & Hy)|[(x & Hx)|(im & Hx & Hy)]]]; [done| |by eapply Hi|].
    + apply Hu in Hx. congruence.
    + apply Hv in Hx. congruence.
Qed.

Lemma accepted_held j now repository digest start v : judge_kept j -> accepted_at j (build_key repository digest) v ->
  (verdict now repository digest start j).1 = Some v.
Proof.
  intros Hj (e & El & Hh & <- & Ha). unfold verdict. rewrite El. cbn [held mbind option_bind].
  destruct (_ && _); cbn; by rewrite Hh.
Qed.

Section gate.
Context `{UrlLib} (k : checks) (turns : nat -> list move * Z).
Context (Hturns : forall n, Forall honest (turns n).1).
Context (P : releaseJudge -> Prop) (HP : forall x j, honest x -> judge_kept j -> P j -> P (play x j)).
(** The builds of which [P] says that an acceptance is held. *)
Context (holds : string -> string -> Prop).
Context (Hholds : forall j repository digest, P j -> holds repository digest ->
  exists v, accepted_at j (build_key repository digest) v).

Lemma judged_complete start repository digest s : in_order P s -> holds repository digest ->
  rv_Status (judged_Verify turns start repository digest s).1 = ReleaseAccepted.
Proof.
  intros Hs Hh. unfold judged_Verify. pose proof (turn_kept turns Hturns P HP s Hs) as [Ht Hp _].
  destruct (turn turns s) as [s1 now]. cbn in Ht, Hp. destruct (Hholds _ _ _ Hp Hh) as [v Ha].
  pose proof (accepted_held _ now repository digest start v Ht Ha) as Hv. destruct (verdict _ _ _ _ _) as [[w|] j]; [|done].
  cbn in *. injection Hv as ->. destruct Ha as (_ & _ & _ & _ & Ha). by apply bool_decide_eq_true_1 in Ha.
Qed.

Lemma ask_running_spec st start s v s' : plain_image st -> in_order P s -> ask_running k turns st start s = (v, s') ->
  in_order P s' /\
  (forall im, st_Image st = Some im -> rv_Status v = ReleaseAccepted -> accepted_build (im_Repository im) (im_Digest im)) /\
  (forall im, st_Image st = Some im -> ch_releases k <> None -> holds (im_Repository im) (im_Digest im) -> rv_Status v = ReleaseAccepted).
Proof.
  intros Hp Hs. unfold ask_running. destruct (st_Image st) as [im|] eqn:Ei; [|by intros [= <- <-]].
  unfold judged. destruct (ch_releases k) as [repository|]; cbn [fmap option_fmap option_map verify_release vf_Verify].
  - pose proof (judged_sound turns Hturns P HP start (im_Repository im) (im_Digest im) s (Hp _ Ei) Hs) as [Hg Ha].
    pose proof (judged_complete start (im_Repository im) (im_Digest im) s Hs) as Hc.
    destruct (judged_Verify _ _ _ _ s) as [w s1]. cbn in Hg, Ha, Hc. intros [= <- <-]. split_and!; [done|by intros im' [= <-]|].
    intros im' [= <-] _. by apply Hc.
  - intros [= <- <-]. split_and!; [done| |done]. cbn. congruence.
Qed.

Lemma judgeRuntime_spec f start s v s' : in_order P s -> (forall st, rf_state f = Ok st -> plain_image st) ->
  judgeRuntime k turns f start s = (v, s') ->
  in_order P s' /\
  (runtime_passes k v = true ->
    exists st, rf_state f = Ok st /\ clean_runtime accepted_build st (rf_signer f) (rf_encPub f)) /\
  (forall st, ch_releases k <> None -> rf_state f = Ok st -> clean_runtime holds st (rf_signer f) (rf_encPub f) -> runtime_passes k v = true).
Proof.
  intros Hs Hp. unfold judgeRuntime, runtime_passes. destruct (ch_releases k) as [repository|] eqn:Ek; [|intros [= <- <-]; by split_and!].
  destruct (rf_state f) as [st|[e|]] eqn:Est; [|destruct e; by intros [= <- <-]|by intros [= <- <-]].
  destruct (ask_running k turns st start s) as [w s1] eqn:Ea. apply ask_running_spec in Ea as (Hs1 & Hw & Hh); [|by apply Hp|done].
  pose proof (clean_of_verdict accepted_build st repository w (rf_signer f) (rf_encPub f)) as Hc. cbv zeta in *.
  pose proof (verdict_of_clean holds st repository w (rf_signer f) (rf_encPub f)) as Hd. cbv zeta in *.
  set (c := CheckRuntime _ _ _ _) in *. specialize (Hc Hw).
  assert (forall im, clean_runtime holds st (rf_signer f) (rf_encPub f) -> st_Image st = Some im -> rv_Status w = ReleaseAccepted) as Hr.
  { intros im Hcl Him. eapply Hh; [done|congruence|]. by apply (cr_image _ _ _ _ Hcl). }
  assert (clean_runtime holds st (rf_signer f) (rf_encPub f) -> rc_Failures c = [] /\ rc_Unverified c = []) as Hcl by (intros ?; apply Hd; eauto).
  destruct (rc_Failures c) eqn:Ef.
  2: { intros [= <- <-]. split_and!; [done..|]. intros st' _ [= <-] Hx. by destruct (Hcl Hx). }
  destruct (rc_Unverified c) eqn:Eu.
  2: { intros [= <- <-]. split_and!; [done..|]. intros st' _ [= <-] Hx. by destruct (Hcl Hx). }
  destruct (rc_Release c); intros [= <- <-]; split_and!; try done; intros _; exists st; (split; [done|]); by apply Hc.
Qed.

Lemma judged_ok start r s repository digest : judged k turns start = Some r -> isDigestShaped digest = true -> in_order P s ->
  in_order P (vf_Verify r repository digest s).2.
Proof.
  unfold judged. destruct (ch_releases k); [|done]. intros [= <-] Hd Hs.
  by apply (judged_sound turns Hturns P HP); [apply shaped_no_at|].
Qed.

Lemma judgeBaseline_spec address f start s v s' : in_order P s -> judgeBaseline k turns address f start s = (v, s') ->
  in_order P s' /\ (bv_verdict v = VerdictPass ->
    exists b contract review dep, ch_baseline k = Some (b, contract) /\ mf_review f = Some review /\
      For b contract address = Some dep /\ cr_LoadErr review = None /\
      is_deployment (judged k turns start) accepted_build dep (cr_Blocks review) (cr_TopLevel review)).
Proof.
  intros Hs. unfold judgeBaseline. destruct (ch_baseline k) as [[b contract]|]; [|by intros [= <- <-]].
  destruct (mf_review f) as [review|]; [|by intros [= <- <-]].
  destruct (CheckReview b _ contract address review s) as [c s1] eqn:Ec.
  apply (CheckReview_sound (judged k turns start) (in_order P) accepted_build) in Ec as [Hs1 Hp];
    [|intros r x repository digest Er Hd Hx; by eapply judged_ok
     |intros r x repository digest Er Hd Hx; unfold judged in Er; destruct (ch_releases k); [|done]; injection Er as <-;
      apply (judged_sound turns Hturns P HP); [by apply shaped_no_at|done]|done].
  destruct (Compared c) eqn:Ecmp; cbn [negb]; [|by intros [= <- <-]].
  destruct (cc_Mismatches c) eqn:Em; [|by intros [= <- <-]]. destruct (cc_Unverified c) eqn:Eu; intros [= <- <-]; [|done].
  split; [done|]. intros _. destruct (Hp ltac:(done)) as (dep & ? & ? & ?). by exists b, contract, review, dep.
Qed.

Lemma judgeBaseline_complete address f start s v s' b contract review dep : in_order P s ->
  judgeBaseline k turns address f start s = (v, s') ->
  ch_baseline k = Some (b, contract) -> mf_review f = Some review -> For b contract address = Some dep -> cr_LoadErr review = None ->
  NoDup (map tb_Key (cr_TopLevel review)) ->
  is_deployment (judged k turns start) holds dep (cr_Blocks review) (cr_TopLevel review) ->
  bv_verdict v = VerdictPass.
Proof.
  intros Hs Ej Hb Hr Hf Hl Hn Hd. revert Ej. unfold judgeBaseline. rewrite Hb, Hr. unfold CheckReview. rewrite Hl.
  assert (passes (CheckCompose b (judged k turns start) contract address (cr_Blocks review) (cr_TopLevel review) s).1) as (Hp1 & Hp2 & Hp3).
  { eapply (CheckCompose_complete (judged k turns start) (in_order P) holds); [..|exact Hs|exact Hf|exact Hn|exact Hd].
    - intros r x repository digest Er Hd0 Hx. by eapply judged_ok.
    - intros r x repository digest Er Hx Hh. unfold judged in Er. destruct (ch_releases k); [|done]. injection Er as <-.
      by apply judged_complete. }
  destruct (CheckCompose _ _ _ _ _ _ _) as [c s1]. cbn in *. rewrite Hp1, Hp2, Hp3. by intros [= <- <-].
Qed.

(** What [providerPasses] comes to: its two last judgements, made in order. *)
Lemma refuseProvider_spec patience address facts s o s' : judge_kept (as_judge s) -> P (as_judge s) ->
  (forall st, rf_state (pf_runtime facts) = Ok st -> plain_image st) ->
  refuseProvider k turns patience address facts s = (o, s') ->
  exists s1 s2 rt bl, in_order P s1 /\ in_order P s2 /\
    judgeRuntime k turns (pf_runtime facts) false s1 = (rt, s2) /\
    judgeBaseline k turns address (pf_manifest facts) false s2 = (bl, s') /\
    (o = None <-> runtime_passes k rt = true /\ bv_verdict bl = VerdictPass).
Proof.
  intros Hj Hp Hst. assert (in_order P (MkAsking (as_judge s) [] (as_step s))) as H0.
  { split; [done..|]. cbn. intros b Hb. by apply elem_of_nil in Hb. }
  unfold refuseProvider, providerPasses.
  destruct (judgeRuntime _ _ _ true _) as [r1 s1] eqn:E1. apply judgeRuntime_spec in E1 as [H1 _]; [|done..].
  destruct (judgeBaseline _ _ _ _ true _) as [b1 s2] eqn:E2. apply judgeBaseline_spec in E2 as [H2 _]; [|done].
  set (s3 := match ch_releases k with Some _ => _ | None => _ end).
  assert (in_order P s3) as H3 by (unfold s3; destruct (ch_releases k); [by apply (await_all_kept turns Hturns P HP)|done]). clearbody s3.
  destruct (judgeRuntime _ _ _ false _) as [r4 s4] eqn:E4. pose proof E4 as E4'. apply judgeRuntime_spec in E4' as [H4 _]; [|done..].
  destruct (judgeBaseline _ _ _ _ false _) as [b5 s5] eqn:E5. intros [= <- <-]. exists s3, s4, r4, b5. split_and!; try done.
  destruct (runtime_passes k r4); [destruct (bool_decide_reflect (bv_verdict b5 = VerdictPass)) as [|Hn]|]; cbn;
    (split; [intros E|intros [? ?]]); by try done.
Qed.
End gate.

Lemma read_facts `{UrlLib} reply rtmr3 st :
  recovered (Some (ReadRuntimeState reply rtmr3)) = Ok st <-> ReadRuntimeState reply rtmr3 = Ok st.
Proof. unfold recovered. destruct (ReadRuntimeState reply rtmr3); split; by try intros [= ->]. Qed.

(** A provider is sealed to only for what it runs. Let the runtime facts be what was
    read of a reply's event log, and the release judge be in any state it can reach, its
    goroutines moving between the steps of the gate however they do. If the gate lets the
    provider through, then its booted manifest is, service by service and section by
    section, the deployment recorded for its address, each image the record lets move being
    a build the release verifier has accepted; and what the log says was done since holds
    nothing unknown, undecided or forbidden, and the build it says runs, if it names one,
    is accepted too and has the keys the quote carries. *)
Theorem gate_sound `{UrlLib} k turns patience address reply rtmr3 facts offered p s s' :
  (forall n, Forall honest (turns n).1) -> reachable (as_judge s) ->
  rf_state (pf_runtime facts) = recovered (Some (ReadRuntimeState reply rtmr3)) ->
  ch_enforce k = true -> gated k turns patience address facts offered s = (Ok p, s') ->
  offered = Ok p /\
  (exists st, ReadRuntimeState reply rtmr3 = Ok st /\
     clean_runtime accepted_build st (rf_signer (pf_runtime facts)) (rf_encPub (pf_runtime facts))) /\
  exists b contract review dep, ch_baseline k = Some (b, contract) /\ mf_review (pf_manifest facts) = Some review /\
    For b contract address = Some dep /\ cr_LoadErr review = None /\
    is_deployment (judged k turns false) accepted_build dep (cr_Blocks review) (cr_TopLevel review).
Proof.
  intros Hturns Hr Hrf Hen Eg. unfold gated in Eg. destruct offered as [q|]; [|done]. rewrite Hen in Eg.
  destruct (refuseProvider k turns patience address facts s) as [[|] s0] eqn:Er0; [done|]. injection Eg as -> _. split; [done|].
  rename Er0 into Eg. set (P := fun _ : releaseJudge => True). set (holds := fun _ _ : string => False).
  assert (judge_kept (as_judge s)) as Hs by (by apply judge_invariant).
  assert (forall x j, honest x -> judge_kept j -> P j -> P (play x j)) as HP by done.
  assert (forall j r d, P j -> holds r d -> exists v, accepted_at j (build_key r d) v) as Hh by (intros j r d _ []).
  eapply (refuseProvider_spec k turns Hturns P HP holds Hh) in Eg
    as (s1 & s2 & rt & bl & H1 & H2 & Er & Eb & Ho);
    [|done|done|intros st Hx; rewrite Hrf, read_facts in Hx; by eapply state_plain].
  destruct (proj1 Ho eq_refl) as [Hp1 Hp2].
  eapply (judgeRuntime_spec k turns Hturns P HP holds Hh) in Er as (_ & Hrt & _);
    [|done|intros st Hx; rewrite Hrf, read_facts in Hx; by eapply state_plain].
  apply (judgeBaseline_spec k turns Hturns P HP) in Eb as [_ Hbl]; [|done]. split; [|by apply Hbl].
  destruct (Hrt Hp1) as (st & Hx & Hc). rewrite Hrf, read_facts in Hx. by exists st.
Qed.

(** A build the judge holds an acceptance of. *)
Definition held_build (j : releaseJudge) (repository digest : string) : Prop :=
  exists v, accepted_at j (build_key repository digest) v.

(** A provider that is what it should be is let through. Once the judge holds an
    acceptance of the builds a provider's record and its log name, the gate passes that
    provider whenever its manifest is its recorded deployment and its log is clean: no
    verifier has to answer again and nobody's other moves on the judge can turn it away. *)
Theorem gate_admits `{UrlLib} k turns patience address reply rtmr3 facts offered s st repository b contract review dep :
  (forall n, Forall honest (turns n).1) -> reachable (as_judge s) ->
  rf_state (pf_runtime facts) = recovered (Some (ReadRuntimeState reply rtmr3)) -> ReadRuntimeState reply rtmr3 = Ok st ->
  ch_releases k = Some repository -> ch_baseline k = Some (b, contract) -> mf_review (pf_manifest facts) = Some review ->
  For b contract address = Some dep -> cr_LoadErr review = None -> NoDup (map tb_Key (cr_TopLevel review)) ->
  clean_runtime (held_build (as_judge s)) st (rf_signer (pf_runtime facts)) (rf_encPub (pf_runtime facts)) ->
  is_deployment (judged k turns false) (held_build (as_judge s)) dep (cr_Blocks review) (cr_TopLevel review) ->
  (gated k turns patience address facts offered s).1 = offered.
Proof.
  intros Hturns Hr Hrf Hst Hk Hb Hrev Hf Hl Hn Hclean Hdep. unfold gated. destruct offered as [p|]; [|done].
  destruct (ch_enforce k); [|done]. enough ((refuseProvider k turns patience address facts s).1 = None) as Hgo
    by (destruct (refuseProvider _ _ _ _ _ _) as [[|] ?]; cbn in *; congruence).
  set (holds := held_build (as_judge s)). set (P := fun j => forall r d, holds r d -> held_build j r d).
  assert (forall x j, honest x -> judge_kept j -> P j -> P (play x j)) as HP.
  { intros x j Hx Hj Hp r d Hh. destruct (Hp r d Hh) as [v Hv]. exists v. by apply play_accepted. }
  assert (forall j r d, P j -> holds r d -> exists v, accepted_at j (build_key r d) v) as Hh by (intros j r d Hp Hh; by apply Hp).
  assert (judge_kept (as_judge s)) as Hs by (by apply judge_invariant).
  destruct (refuseProvider k turns patience address facts s) as [o s'] eqn:Eg.
  eapply (refuseProvider_spec k turns Hturns P HP holds Hh) in Eg
    as (s1 & s2 & rt & bl & H1 & H2 & Er & Eb & Ho);
    [|done|by intros r d|intros x Hx; rewrite Hrf, read_facts in Hx; by eapply state_plain].
  apply Ho. split.
  - eapply (judgeRuntime_spec k turns Hturns P HP holds Hh) in Er as (_ & _ & Hrt);
      [|done|intros x Hx; rewrite Hrf, read_facts in Hx; by eapply state_plain].
    apply (Hrt st); [congruence|by rewrite Hrf, read_facts|done].
  - by eapply (judgeBaseline_complete k turns Hturns P HP holds Hh).
Qed.
End kept.

(** ** Witnesses *)

Lemma pair_of {A B} (p : A * B) a : p.1 = a -> p = (a, p.2).
Proof. destruct p. by intros <-. Qed.

Module JudgeWitness.
Import BlockWitness ReviewWitness BaselineWitness.

Definition release : ReleaseVerdict := MkVerdict ReleaseAccepted (MkRelease "v0.5.4" RuntimeWitness.digest "") "".
Definition the_verifier (repository digest : string) (v : ReleaseVerdict) : Prop :=
  repository = broker /\ digest = RuntimeWitness.digest /\ v = release.
(** Whatever check of that build is in flight is answered before the gate's next step. *)
Definition answering (n : nat) : list move * Z := ([MAnswer 0 broker RuntimeWitness.digest release; MRelease], 0).
Definition silent (n : nat) : list move * Z := ([], 0).
Definition k : checks := MkChecks (Some broker) (Some (recorded, contract)) true.

Definition review : ComposeReview :=
  with_text (fields_review ∅) [] [@blockOf yaml "broker" (Some (broker_body "d"))] None [] [].
Definition facts : providerFacts :=
  MkPF (MkRtFacts (Ok RuntimeWitness.state) RuntimeWitness.signer RuntimeWitness.key) (MkMfFacts (Some review) "").
Definition start : asking := MkAsking newReleaseJudge [] 0.
Definition gate (turns : nat -> list move * Z) (f : providerFacts) : option (list string) * asking :=
  refuseProvider k turns (fun _ => 4%nat) spelled f start.

Definition the_provider : Provider := MkProvider "https://router" [] RuntimeWitness.signer spelled None "https://cn-1" "model" false.
Definition passed (turns : nat -> list move * Z) (f : providerFacts) : cresult Provider * asking :=
  gated k turns (fun _ => 4%nat) spelled f (Ok the_provider) start.

Lemma start_reachable : reachable the_verifier newReleaseJudge.
Proof. apply reach_new. Qed.

Definition answered : releaseJudge := play_all [MVerdict 0 broker RuntimeWitness.digest true; MAnswer 0 broker RuntimeWitness.digest release] newReleaseJudge.
Definition build : string := build_key broker RuntimeWitness.digest.

Lemma judge_invariant_witness : reachable the_verifier answered /\ size (rj_m answered) = 1%nat /\ judge_kept the_verifier answered.
Proof.
  assert (Hr : reachable the_verifier answered).
  { apply (reach_play _ (MAnswer 0 broker RuntimeWitness.digest release)); [by split_and!|].
    apply (reach_play _ (MVerdict 0 broker RuntimeWitness.digest true)); [|apply start_reachable].
    apply (bool_decide_unpack _). by vm_compute. }
  split; [exact Hr|]. split; [vm_compute; reflexivity|]. exact (judge_invariant the_verifier answered Hr).
Defined.
Lemma answered_reachable : reachable the_verifier answered.
Proof.
  apply (reach_play _ (MAnswer 0 broker RuntimeWitness.digest release)); [by split_and!|].
  apply (reach_play _ (MVerdict 0 broker RuntimeWitness.digest true)); [|apply start_reachable].
  apply (bool_decide_unpack _). by vm_compute.
Qed.

Lemma acceptance_lasts_witness :
  accepted_at answered build release /\
  accepted_at (play_all [MVerdict 0 broker RuntimeWitness.digest true; MRelease; MVerdict 120000000000 broker RuntimeWitness.digest true] answered) build release.
Proof.
  assert (Ha : accepted_at answered build release) by (eexists; split; [vm_compute; reflexivity|split_and!; vm_compute; reflexivity]).
  split; [exact Ha|]. apply (acceptance_lasts the_verifier); [apply answered_reachable| |exact Ha].
  repeat constructor; apply (bool_decide_unpack _); by vm_compute.
Defined.

(** A first request: both judgements miss the build, it is awaited, and the gate opens. *)
Lemma gate_sound_witness :
  (passed answering facts).1 = Ok the_provider /\
  exists b contract review dep, ch_baseline k = Some (b, contract) /\ mf_review (pf_manifest facts) = Some review /\
    For b contract spelled = Some dep /\ cr_LoadErr review = None /\
    is_deployment (judged k answering false) (accepted_build the_verifier) dep (cr_Blocks review) (cr_TopLevel review).
Proof.
  assert (Hg : (passed answering facts).1 = Ok the_provider) by (vm_compute; reflexivity). split; [exact Hg|].
  refine (proj2 (proj2 (@gate_sound the_verifier RuntimeWitness.no_urls k answering (fun _ => 4%nat) spelled RuntimeWitness.reply
    RuntimeWitness.register facts (Ok the_provider) the_provider start (passed answering facts).2 _ _ _ _ _))).
  - intros n. repeat constructor.
  - exact start_reachable.
  - rewrite RuntimeWitness.reply_read. reflexivity.
  - reflexivity.
  - exact (pair_of _ _ Hg).
Defined.

(** A later request, with nobody answering. *)
Definition later : asking := MkAsking answered [] 0.
Definition the_deployment : Deployment :=
  MkDep "cn-1" contract [provider] [MkBService "broker" (recorded_block "b") (MkRule broker)] [].

Lemma build_held : held_build answered broker RuntimeWitness.digest.
Proof. exists release. eexists. split; [vm_compute; reflexivity|split_and!; vm_compute; reflexivity]. Qed.

Lemma facts_clean : clean_runtime (held_build answered) RuntimeWitness.state RuntimeWitness.signer RuntimeWitness.key.
Proof.
  apply (clean_of_verdict _ _ broker release); [|vm_compute; reflexivity..].
  intros im. rewrite RuntimeWitness.image_read. intros [= <-] _. exact build_held.
Qed.

Lemma review_deployed : is_deployment (judged k silent false) (held_build answered) the_deployment (cr_Blocks review) (cr_TopLevel review).
Proof.
  split; cbn [review with_text cr_Blocks cr_TopLevel the_deployment dp_Services dp_TopLevel].
  - apply NoDup_singleton.
  - intros want Hw. apply list_elem_of_singleton in Hw as ->. eexists. split; [by left|]. split; [vm_compute; reflexivity|].
    split; [vm_compute; reflexivity|]. cbn [bs_Image pinsImageInBlock ir_Repository]. split; [vm_compute; reflexivity|].
    eexists _, _, RuntimeWitness.digest. split; [reflexivity|]. split_and!; try (vm_compute; reflexivity). exact build_held.
  - intros got Hg. apply list_elem_of_singleton in Hg as ->. eexists. split; [by left|vm_compute; reflexivity].
  - intros w Hw. by apply elem_of_nil in Hw.
  - intros g Hg. by apply elem_of_nil in Hg.
Qed.

Lemma gate_admits_witness : (gated k silent (fun _ => 4%nat) spelled facts (Ok the_provider) later).1 = Ok the_provider.
Proof.
  apply (@gate_admits the_verifier RuntimeWitness.no_urls k silent (fun _ => 4%nat) spelled RuntimeWitness.reply
    RuntimeWitness.register facts (Ok the_provider) later RuntimeWitness.state broker recorded contract review the_deployment).
  - intros n. constructor.
  - exact answered_reachable.
  - rewrite RuntimeWitness.reply_read. reflexivity.
  - exact RuntimeWitness.reply_read.
  - reflexivity.
  - reflexivity.
  - reflexivity.
  - vm_compute. reflexivity.
  - reflexivity.
  - constructor.
  - exact facts_clean.
  - exact review_deployed.
Defined.

(** Nobody answers: the wait ends and the provider is refused by both checks. *)
Example unanswered_refused : (gate silent facts).1 = Some ["runtime_release"; "compose_baseline"].
Proof. vm_compute. reflexivity. Qed.
(** The manifest alone is not enough. *)
Example no_log_refused :
  (gate answering (MkPF (MkRtFacts (Err (ROwn ErrNoEventLog)) RuntimeWitness.signer RuntimeWitness.key) (MkMfFacts (Some review) ""))).1
  = Some ["runtime_release"].
Proof. vm_compute. reflexivity. Qed.
End JudgeWitness.
