(* ===== verification/GoServe.v ===== *)
(** * GoServe: the server side of [net/http]

    A request as a handler sees it, the response writer it writes to, cookies, the
    escaping of URL paths and [http.ServeMux]: patterns, their precedence, cleaning and
    redirects. Bytes on the wire are the server's; handlers are functions on these. *)

From S2P Require Import Prelude GoBytes GoDecode GoUrl GoText GoHttp.

(** ** Requests *)

(** Why reading a body failed: the connection's read deadline passed, or anything else. *)
Inductive body_err := BodyDeadline | BodyBroken.

(** [r_Body]: what arrives, with the time each part is there; [r_BodyEnd]: when the body
    ends, and how ([None] is [io.EOF]). *)
Record ServerRequest := MkServerRequest {
  r_Method : string;
  r_Path : string;
  r_RawPath : string;
  r_RawQuery : string;
  r_Header : Header;
  r_Body : list (Z * bytes);
  r_BodyEnd : Z * option body_err;
  r_PathValues : gmap string string
}.

Definition with_Path (path raw : string) (r : ServerRequest) : ServerRequest :=
  MkServerRequest (r_Method r) path raw (r_RawQuery r) (r_Header r) (r_Body r) (r_BodyEnd r) (r_PathValues r).
Definition with_Header (h : Header) (r : ServerRequest) : ServerRequest :=
  MkServerRequest (r_Method r) (r_Path r) (r_RawPath r) (r_RawQuery r) h (r_Body r) (r_BodyEnd r) (r_PathValues r).
Definition with_Body (b : list (Z * bytes)) (e : Z * option body_err) (r : ServerRequest) : ServerRequest :=
  MkServerRequest (r_Method r) (r_Path r) (r_RawPath r) (r_RawQuery r) (r_Header r) b e (r_PathValues r).
Definition with_PathValues (v : gmap string string) (r : ServerRequest) : ServerRequest :=
  MkServerRequest (r_Method r) (r_Path r) (r_RawPath r) (r_RawQuery r) (r_Header r) (r_Body r) (r_BodyEnd r) v.

Definition header_values (h : Header) (k : string) : list string := default [] (h !! canonical_key k).
Definition path_value (k : string) (r : ServerRequest) : string := default "" (r_PathValues r !! k).

(** The body, read to its end. *)
Definition body_bytes (r : ServerRequest) : bytes := concat (map snd (r_Body r)).
Definition body_size (r : ServerRequest) : Z := Z.of_nat (length (body_bytes r)).

(** A read deadline at [t]: what arrives later is not read. *)
Definition read_until (t : Z) (r : ServerRequest) : ServerRequest :=
  let late (x : Z * bytes) := t <? x.1 in
  if existsb late (r_Body r) || (t <? (r_BodyEnd r).1)
  then with_Body (List.filter (fun x => negb (late x)) (r_Body r)) (t, Some BodyDeadline) r
  else r.

(** [io.ReadAll] of [http.MaxBytesReader]: more than [n] bytes is its own error ([None]),
    before whatever comes after them. *)
Definition read_max (n : Z) (r : ServerRequest) : result (option body_err) bytes :=
  if n <? body_size r then Err None
  else match (r_BodyEnd r).2 with Some e => Err (Some e) | None => Ok (body_bytes r) end.

(** [io.ReadAll] of [io.LimitReader(body, n)]: what was read, and the error met within. *)
Definition read_limit (n : Z) (r : ServerRequest) : bytes * option body_err :=
  (take_z n (body_bytes r), if n <=? body_size r then None else (r_BodyEnd r).2).

(** ** The response writer *)

(** [w_Header] is the map a handler sets; [w_Sent] what went out with the status line. *)
Record Writer := MkWriter { w_Header : Header; w_Sent : option (Z * Header); w_Out : bytes }.
Definition new_writer : Writer := MkWriter ∅ None [].

Definition on_header (f : Header -> Header) (w : Writer) : Writer := MkWriter (f (w_Header w)) (w_Sent w) (w_Out w).
Definition WriteHeader (code : Z) (w : Writer) : Writer :=
  match w_Sent w with
  | None => MkWriter (w_Header w) (Some (code, w_Header w)) (w_Out w)
  | Some _ => w
  end.
Definition Write (b : bytes) (w : Writer) : Writer :=
  let w := WriteHeader StatusOK w in MkWriter (w_Header w) (w_Sent w) (w_Out w ++ b).

(** The status the client gets: a handler that never wrote one answers 200. *)
Definition status_of (w : Writer) : Z := match w_Sent w with Some (code, _) => code | None => StatusOK end.
Definition sent_header (w : Writer) : Header := match w_Sent w with Some (_, h) => h | None => w_Header w end.

(** ** Cookies *)

(** [textproto.TrimString]. *)
Definition is_lws (c : ascii) : bool := existsb (Z.eqb (bval c)) [32; 9; 10; 13].
Fixpoint drop_lws (l : bytes) : bytes :=
  match l with c :: l' => if is_lws c then drop_lws l' else l | [] => [] end.
Definition trim_lws (l : bytes) : bytes := rev (drop_lws (rev (drop_lws l))).

Definition cookie_byte (c : ascii) : bool :=
  (32 <=? bval c) && (bval c <? 127) && negb (existsb (Z.eqb (bval c)) [34; 59; 92]).
(** [parseCookieValue], double quotes allowed. *)
Definition cookie_value (raw : bytes) : option bytes :=
  let inner :=
    match raw with
    | q :: (_ :: _) as r =>
        if (bval q =? 34) && (match rev r with q' :: _ => bval q' =? 34 | [] => false end)
        then removelast r else raw
    | _ => raw
    end in
  if forallb cookie_byte inner then Some inner else None.

Definition is_token_text (s : bytes) : bool := match s with [] => false | _ => forallb is_token s end.

Definition cookie_of (name part : bytes) : option bytes :=
  let part := trim_lws part in
  match part with
  | [] => None
  | _ => let '(n, v) := match split_first "=" part with Some nv => nv | None => (part, []) end in
         let n := trim_lws n in
         if is_token_text n && bool_decide (n = name) then cookie_value v else None
  end.

(** [Request.Cookie]: the first cookie of that name. *)
Definition Cookie (name : string) (h : Header) : option string :=
  let parts := concat (map (fun line => split_on ";" (trim_lws (bytes_of line))) (header_values h "Cookie")) in
  match omap (cookie_of (bytes_of name)) parts with
  | v :: _ => Some (str_of v)
  | [] => None
  end.

(** ** URL paths *)

(** [url.unescape] of a path or one of its segments. *)
Fixpoint path_unescape (l : bytes) : option bytes :=
  match l with
  | [] => Some []
  | c :: l =>
      if Ascii.eqb c "%" then
        match l with
        | a :: b :: l =>
            match hex_val a, hex_val b with
            | Some x, Some y => r ← path_unescape l; Some (byte_of (16 * x + y) :: r)
            | _, _ => None
            end
        | _ => None
        end
      else r ← path_unescape l; Some (c :: r)
  end.

Definition alnum_byte (c : ascii) : bool := is_digit c || is_lower c || is_upper c.
(** [shouldEscape] and [escape] for a whole path. *)
Definition path_plain (c : ascii) : bool :=
  alnum_byte c || existsb (Ascii.eqb c) (bytes_of "-_.~$&+,/:;=@").
Definition upper_hex (z : Z) : ascii := upper (hex_digit z).
Fixpoint path_escape (l : bytes) : bytes :=
  match l with
  | [] => []
  | c :: l => (if path_plain c then [c] else ["%"%char; upper_hex (bval c / 16); upper_hex (bval c mod 16)])
              ++ path_escape l
  end.
(** [url.PathEscape]. *)
Definition segment_plain (c : ascii) : bool := alnum_byte c || existsb (Ascii.eqb c) (bytes_of "-_.~$&+:=@").
Fixpoint PathEscape (l : bytes) : bytes :=
  match l with
  | [] => []
  | c :: l => (if segment_plain c then [c] else ["%"%char; upper_hex (bval c / 16); upper_hex (bval c mod 16)]) ++ PathEscape l
  end.
(** [url.QueryUnescape], and the first value of a name in a query. *)
Definition query_unescape (l : bytes) : option bytes :=
  path_unescape (map (fun c => if Ascii.eqb c "+" then " "%char else c) l).
Definition query_pair (part : bytes) : option (bytes * bytes) :=
  match part with
  | [] => None
  | _ => if existsb (Ascii.eqb ";") part then None
         else let '(k, v) := match split_first "=" part with Some kv => kv | None => (part, []) end in
              k ← query_unescape k; v ← query_unescape v; Some (k, v)
  end.
Definition query_get (name query : string) : string :=
  match List.filter (fun kv => bool_decide (kv.1 = bytes_of name)) (omap query_pair (split_on "&" (bytes_of query))) with
  | kv :: _ => str_of kv.2
  | [] => ""
  end.

(** [url.QueryEscape]. *)
Fixpoint QueryEscape (l : bytes) : bytes :=
  match l with
  | [] => []
  | c :: l =>
      (if alnum_byte c || existsb (Ascii.eqb c) (bytes_of "-_.~") then [c]
       else if Ascii.eqb c " " then ["+"%char]
       else ["%"%char; upper_hex (bval c / 16); upper_hex (bval c mod 16)]) ++ QueryEscape l
  end.

(** [validEncoded]. *)
Definition path_encoded (l : bytes) : bool :=
  forallb (fun c => path_plain c || existsb (Ascii.eqb c) (bytes_of "!'()*[]%")) l.

(** [URL.EscapedPath]. *)
Definition EscapedPath (r : ServerRequest) : string :=
  let raw := bytes_of (r_RawPath r) in
  if negb (String.eqb (r_RawPath r) "") && path_encoded raw
     && bool_decide (path_unescape raw = Some (bytes_of (r_Path r)))
  then r_RawPath r
  else if String.eqb (r_Path r) "*" then "*"
  else str_of (path_escape (bytes_of (r_Path r))).

(** [URL.setPath]: the fields of a request's URL for the path on its request line. *)
Definition set_path (raw : string) (r : ServerRequest) : option ServerRequest :=
  p ← path_unescape (bytes_of raw);
  Some (with_Path (str_of p) (if String.eqb raw (str_of (path_escape p)) then "" else raw) r).

(** ** [http.ServeMux] *)

(** [{$}] is the literal ["/"]; a trailing slash matches any rest. *)
Inductive segment := SLit (s : string) | SWild (name : string) | SMulti.
Record Pattern := MkPattern { pt_Method : string; pt_Segs : list segment }.

(** The pieces of a path: what is between its slashes, unescaped, and ["/"] for a
    slash at the end ([firstSegment]). *)
Definition seg_text (l : bytes) : string :=
  match path_unescape l with Some l' => str_of l' | None => str_of l end.
Fixpoint end_slash (l : list bytes) : list string :=
  match l with
  | [] => []
  | [[]] => ["/"]
  | p :: l => seg_text p :: end_slash l
  end.
Definition path_segs (path : string) : list string :=
  match bytes_of path with [] => [] | _ :: l => end_slash (split_on "/" l) end.

Definition pattern_seg (l : bytes) : segment :=
  match l with
  | c :: r => if Ascii.eqb c "{" then
                if bool_decide (r = bytes_of "$}") then SLit "/" else SWild (str_of (removelast r))
              else SLit (seg_text l)
  | [] => SLit ""
  end.
Fixpoint pattern_segs (l : list bytes) : list segment :=
  match l with
  | [] => []
  | [[]] => [SMulti]
  | p :: l => pattern_seg p :: pattern_segs l
  end.
(** A pattern's text: a method and a path, or a path. *)
Definition pattern (s : string) : Pattern :=
  let '(m, path) := match split_first " " (bytes_of s) with
                    | Some mp => mp
                    | None => ([], bytes_of s)
                    end in
  MkPattern (str_of m) (match path with [] => [] | _ :: l => pattern_segs (split_on "/" l) end).

Section mux.
Context {A : Type}.

(** The patterns that agree with what was matched so far, with what is left of them. *)
Definition node : Type := list (list segment * (Pattern * A)).

Definition child (f : segment -> bool) (n : node) : node :=
  omap (fun x => match x.1 with
                 | s :: segs => if f s then Some (segs, x.2) else None
                 | [] => None
                 end) n.
Definition is_lit (t : string) (s : segment) : bool := match s with SLit u => String.eqb u t | _ => false end.
Definition is_wild (s : segment) : bool := match s with SWild _ => true | _ => false end.
Definition is_multi (s : segment) : bool := match s with SMulti => true | _ => false end.

(** [routingNode.matchPath]: a literal before a wildcard before the rest. *)
Fixpoint match_path (segs : list string) (n : node) : option ((Pattern * A) * list string) :=
  match segs with
  | [] => match List.filter (fun x => match x.1 with [] => true | _ => false end) n with
          | x :: _ => Some (x.2, [])
          | [] => None
          end
  | s :: segs =>
      match match_path segs (child (is_lit s) n) with
      | Some r => Some r
      | None =>
          match (if String.eqb s "/" then None else match_path segs (child is_wild n)) with
          | Some (x, ms) => Some (x, s :: ms)
          | None => match child is_multi n with x :: _ => Some (x.2, []) | [] => None end
          end
      end
  end.

(** [matchMethodAndPath]. *)
Definition method_node (method : string) (m : list (Pattern * A)) : node :=
  map (fun x => (pt_Segs x.1, x)) (List.filter (fun x => String.eqb (pt_Method x.1) method) m).
Definition mux_match (m : list (Pattern * A)) (method path : string) : option ((Pattern * A) * list string) :=
  let segs := path_segs path in
  match match_path segs (method_node method m) with
  | Some r => Some r
  | None =>
      match (if String.eqb method "HEAD" then match_path segs (method_node "GET" m) else None) with
      | Some r => Some r
      | None => match_path segs (method_node "" m)
      end
  end.

(** [exactMatch]. *)
Definition slashes (path : string) : nat := length (List.filter (Ascii.eqb "/") (bytes_of path)).
Definition exact_match (found : option ((Pattern * A) * list string)) (path : string) : bool :=
  match found with
  | None => false
  | Some (x, _) =>
      negb (existsb is_multi (pt_Segs x.1))
      || (has_suffix path "/" && Nat.eqb (length (pt_Segs x.1)) (slashes path))
  end.

(** [cleanPath]. *)
Definition clean_path (p : string) : string :=
  match bytes_of p with
  | [] => "/"
  | c :: _ =>
      let p := if Ascii.eqb c "/" then p else "/" +:+ p in
      let np := path_Clean p in
      if has_suffix p "/" && negb (String.eqb np "/") then np +:+ "/" else np
  end.

Inductive routed :=
| Routed (a : A) (values : gmap string string)
| Redirected (code : Z) (location : string)
| MethodNotAllowed (allow : list string)
| NotFound
| BadRequest.

(** [URL.String] of a path and a query. *)
Definition location (path query : string) : string :=
  str_of (path_escape (bytes_of path)) +:+ (if String.eqb query "" then "" else "?" +:+ query).

Fixpoint wild_names (segs : list segment) : list string :=
  match segs with SWild n :: segs => n :: wild_names segs | _ :: segs => wild_names segs | [] => [] end.

(** [matchingMethods]. *)
Definition allowed_methods (m : list (Pattern * A)) (path : string) : list string :=
  let at_path path := map (fun x => pt_Method x.1)
    (List.filter (fun x => match match_path (path_segs path) (method_node (pt_Method x.1) m) with
                           | Some _ => true | None => false end) m) in
  let ms := at_path path ++ (if has_suffix path "/" then [] else at_path (path +:+ "/")) in
  merge_sort String.le (remove_dups (if contains ms "GET" then "HEAD" :: ms else ms)).

(** [ServeMux.findHandler]. *)
Definition mux_route (m : list (Pattern * A)) (r : ServerRequest) : routed :=
  let escaped := EscapedPath r in
  let connect := String.eqb (r_Method r) "CONNECT" in
  let path := if connect then escaped else clean_path escaped in
  let found := mux_match m (r_Method r) path in
  if String.eqb (r_Path r) "*" then BadRequest
  else if negb (exact_match found path) && negb (has_suffix path "/")
          && exact_match (mux_match m (r_Method r) (path +:+ "/")) (path +:+ "/")
  then Redirected 307 (location (clean_path (r_Path r) +:+ "/") (r_RawQuery r))
  else if negb connect && negb (String.eqb path escaped)
  then Redirected 301 (location path (r_RawQuery r))
  else match found with
       | Some (x, ms) => Routed x.2 (list_to_map (zip (wild_names (pt_Segs x.1)) ms))
       | None => match allowed_methods m path with
                 | [] => NotFound
                 | allow => MethodNotAllowed allow
                 end
       end.
End mux.
Arguments routed A : clear implicits.
Arguments node A : clear implicits.
