(* ===== verification/Evidence.v ===== *)
(** * Evidence: an endpoint against the evidence it publishes ([client/evidence/evidence.go])

    [Check]: the bundle's files against their manifest, the manifest against the verified
    quote, the certificate served against the one in the bundle, the quote's compose hash
    against the manifest of the application, and the boot chain against the allowlist. The
    lookups of that manifest ([appcompose.go], [cloudcompose.go]) are here too, over the
    decisions [Boot] models.

    What is outside: the connection to the endpoint with the certificates it presents, the
    platform's two APIs and the resolver, as a class over a world; X.509 and PEM as a class
    of functions. [rn_log] records what was asked and answered. *)

From S2P Require Import Prelude GoBytes GoHash GoJson GoDecode GoUrl GoJsonEq GoHttp GoServe Attest Sha384 Runtime Boot.

(** ** Certificates *)

Record Certificate := MkCert {
  Raw : bytes; RawSubjectPublicKeyInfo : bytes; PublicKeyAlgorithm : Z;
  x_Subject : string; x_Issuer : string; x_NotAfter : Z
}.
(** [pem.Decode] again and again, each block's type and bytes; [x509.ParseCertificate];
    [Certificate.Verify] of a leaf for a name with intermediates, over the roots in use. *)
Class X509Lib := {
  pem_blocks : bytes -> list (string * bytes);
  ParseCertificate : bytes -> option Certificate;
  chain_verifies : string -> Certificate -> list Certificate -> bool
}.
Definition cert_Equal (a b : Certificate) : bool := bool_decide (Raw a = Raw b).

Inductive CertMatch := CertMismatch | CertExact | CertInChain | CertSameKeyDifferentCert.
Definition match_OK (m : CertMatch) : bool := match m with CertExact => true | _ => false end.

Definition samePublicKey (a b : Certificate) : bool :=
  Nat.ltb 0 (length (RawSubjectPublicKeyInfo a))
  && bool_decide (RawSubjectPublicKeyInfo a = RawSubjectPublicKeyInfo b).
(** The bundle is its first certificate and the others. *)
Definition compareCert (leaf first : Certificate) (others : list Certificate) : CertMatch :=
  if cert_Equal leaf first then CertExact
  else if existsb (cert_Equal leaf) others then CertInChain
  else if (PublicKeyAlgorithm leaf =? PublicKeyAlgorithm first) && samePublicKey leaf first then CertSameKeyDifferentCert
  else CertMismatch.

Fixpoint parse_blocks `{X509Lib} (blocks : list (string * bytes)) : eresult (list Certificate) :=
  match blocks with
  | [] => Ok []
  | (type, b) :: blocks =>
      if negb (String.eqb type "CERTIFICATE") then parse_blocks blocks
      else c ← of_option (ParseCertificate b) (EFinding "parse certificate");
           cs ← parse_blocks blocks; Ok (c :: cs)
  end.
Definition parseCertChain `{X509Lib} (pem : bytes) : eresult (Certificate * list Certificate) :=
  out ← parse_blocks (pem_blocks pem);
  match out with
  | [] => Err (EFinding "no CERTIFICATE block found")
  | c :: cs => Ok (c, cs)
  end.

(** ** Configuration *)

Definition defaultTimeout : Z := 30000000000.
Definition maxFileBytes : Z := 1048576.
Definition maxAppComposeBytes : Z := 4194304.
Definition maxCloudAttestationsBytes : Z := 16777216.
Definition DefaultCloudAPIBase : string := "https://cloud-api.phala.com/api/v1".
Definition manifestName : string := "sha256sum.txt".
Definition quoteName : string := "quote.json".
Definition accountName : string := "acme-account.json".
Definition certName (domain : string) : string := "cert-" +:+ domain +:+ ".pem".

(** [cfg_ownClient]: no [HTTPClient] was given, so a run rides a connection of its own. *)
Record Config := MkConfig {
  cfg_QuoteParser : option quoteParser;
  cfg_ownClient : bool;
  cfg_Timeout : Z;
  cfg_AppCompose : option bytes;
  cfg_BaseDomain : string;
  cfg_AppID : string;
  cfg_CloudAPIBase : string;
  cfg_NoCloudAPI : bool;
  cfg_NoDNSDiscovery : bool;
  cfg_OSImages : option (list OSImage);
  cfg_ExpectComposeFiles : list ExpectedCompose;
  cfg_ExpectComposeExplicit : bool
}.

Record Checker := MkChecker { ck_cfg : Config; ck_parser : quoteParser; ck_limit : Z; ck_osImages : list OSImage }.

(** The embedded allowlist is the file's bytes. *)
Definition BuiltinOSImages (embedded : bytes) : eresult (list OSImage) := ParseOSImages embedded.
Definition evidence_New (embedded : bytes) (cfg : Config) : eresult Checker :=
  parser ← of_option (cfg_QuoteParser cfg) (EFinding "QuoteParser is required");
  let timeout := if cfg_Timeout cfg <=? 0 then defaultTimeout else cfg_Timeout cfg in
  osImages ← match cfg_OSImages cfg with Some l => Ok l | None => BuiltinOSImages embedded end;
  Ok (MkChecker cfg parser timeout osImages).

Definition given (s : string) : bool := negb (String.eqb (trim_space s) "").

(** ** A run *)

Inductive exchange :=
| XGet (url : string) (chains : list (list Certificate)) (resp : option (HttpResponse everr))
| XDial (host name : string) (chain : option (list Certificate))
| XPlatform (url : string) (resp : option (HttpResponse everr)).

(** Each operation has the deadline it is given; a GET of the endpoint comes with the
    chains of the connections it dialled, if any. *)
Class EvidenceWorld (W : Type) := {
  ev_now : W -> Z;
  endpoint_get : option Z -> string -> W -> (list (list Certificate) * option (HttpResponse everr)) * W;
  tls_dial : option Z -> string -> string -> W -> option (list Certificate) * W;
  platform_get : option Z -> string -> Header -> W -> option (HttpResponse everr) * W;
  LookupTXT : W -> string -> option (list string);
  LookupCNAME : W -> string -> option string
}.

(** [session] with the world and the log: the chains of the connections dialled so far. *)
Record run (W : Type) := MkRun { rn_world : W; rn_chains : list (list Certificate); rn_log : list exchange }.
Arguments MkRun {W} _ _ _.
Arguments rn_world {W} _.
Arguments rn_chains {W} _.
Arguments rn_log {W} _.

(** [context.WithTimeout]. *)
Definition with_timeout (ctx : option Z) (now d : Z) : option Z :=
  Some (match ctx with Some t => Z.min t (now + d) | None => now + d end).

(** A reply read up to a limit, in the order the reads and the checks are made. *)
Definition read_reply (limit : Z) (resp : option (HttpResponse everr)) : eresult bytes :=
  resp ← of_option resp (EFinding "fetch");
  body ← read_all_limited (limit + 1) resp;
  _ ← refuse (negb (hs_Status resp =? StatusOK)) (EFinding "not 200");
  _ ← refuse (limit <? Z.of_nat (length body)) (EFinding "larger than the limit");
  Ok body.

(** *** The manifest of the application, from the platform *)

Definition set_instances (old : list cloudInstance) (j : json) : result jerr (list cloudInstance) :=
  match j with
  | JArr l =>
      structs_of (unmarshal_struct
        [("name", fun '(MkInstance n st t f) j => v ← set_string n j; Ok (MkInstance v st t f));
         ("status", fun '(MkInstance n st t f) j => v ← set_string st j; Ok (MkInstance n v t f));
         ("tcb_info", fun '(MkInstance n st t f) j => Ok (MkInstance n st (Some j) f));
         ("compose_file", fun '(MkInstance n st t f) j => v ← set_string f j; Ok (MkInstance n st t v))])
        (MkInstance "" "" None "") old l
  | JNull => Ok []
  | _ => Err JType
  end.
Definition cloudAttestations_fields : list (string * (string * list cloudInstance -> json -> result jerr (string * list cloudInstance))) :=
  [("app_id", fun d j => v ← set_string d.1 j; Ok (v, d.2));
   ("instances", fun d j => l ← set_instances d.2 j; Ok (d.1, l))].

Definition cloud_base (apiBase : string) : string :=
  let base := trim_right_slash (trim_space apiBase) in if String.eqb base "" then DefaultCloudAPIBase else base.
Definition instance_label (insts : list cloudInstance) (i : nat) : string :=
  let label := "instance " +:+ str_of (itoa (Z.of_nat (S i))) +:+ " of " +:+ str_of (itoa (Z.of_nat (length insts))) in
  match insts !! i with
  | Some inst => if String.eqb (ci_Name inst) "" then label else label +:+ " (" +:+ ci_Name inst +:+ ")"
  | None => label
  end.
Definition read_attestations (body composeHash : bytes) : eresult (bytes * string) :=
  doc ← map_err (EDecode "decode attestations") (unmarshal (unmarshal_struct cloudAttestations_fields ("", [])) body);
  _ ← refuse (Nat.eqb (length doc.2) 0) (EFinding "no instances");
  '(raw, i) ← pickCloudAppCompose 0 doc.2 composeHash;
  Ok (raw, instance_label doc.2 i).
Definition cloudAppComposeSource (base appID instance : string) : string :=
  trim_right_slash (if String.eqb base "" then DefaultCloudAPIBase else base)
    +:+ "/apps/" +:+ appID +:+ "/attestations — " +:+ instance.

(** The manifest in a guest agent's [Info]. *)
Definition read_info (body : bytes) : eresult bytes :=
  info ← map_err (EDecode "decode guest-agent Info")
           (unmarshal (unmarshal_struct [("app_id", fun (t : string * option json) j => v ← set_string t.1 j; Ok (v, t.2));
                                         ("tcb_info", fun t j => Ok (t.1, Some j))] ("", None)) body);
  doc ← map_err (EDecode "decode tcb_info") (UnwrapJSONString (raw_bytes info.2));
  _ ← refuse (bool_decide (trim_space_bytes doc = [])) (EFinding "no tcb_info");
  app ← map_err (EDecode "decode tcb_info")
          (unmarshal (unmarshal_struct [("compose_hash", fun (t : string * string) j => v ← set_string t.1 j; Ok (v, t.2));
                                        ("app_compose", fun t j => v ← set_string t.2 j; Ok (t.1, v))] ("", "")) doc);
  _ ← refuse (String.eqb app.2 "") (EFinding "tcb_info carries no app_compose");
  Ok (bytes_of app.2).

Section checks.
Context {W : Type} `{EvidenceWorld W} `{UrlLib} `{X509Lib}.
(** [net.SplitHostPort]'s host. *)
Context (SplitHost : string -> option string).

(** A GET of a URL that parses, on the platform's client. *)
Definition ask_platform (ctx : option Z) (limit : Z) (u : string) (h : Header) (s : run W) : eresult bytes * run W :=
  match url_Parse u with
  | None => (Err (EFinding "not a URL"), s)
  | Some _ =>
      let '(resp, w) := platform_get ctx u h (rn_world s) in
      (read_reply limit resp, MkRun w (rn_chains s) (rn_log s ++ [XPlatform u resp]))
  end.

Definition FetchAppComposeFromCloud (ctx : option Z) (apiBase appID : string) (composeHash : bytes) (s : run W)
    : eresult (bytes * string) * run W :=
  let id := normalizeAppID appID in
  if String.eqb id "" then (Err (EFinding "no app_id to fetch app-compose for"), s)
  else if negb (validAppID id) then (Err (EFinding "app_id is not hex digits"), s)
  else
    let '(body, s) := ask_platform ctx maxCloudAttestationsBytes (cloud_base apiBase +:+ "/apps/" +:+ id +:+ "/attestations")
                        (header_set "Accept" "application/json" ∅) s in
    (body ← body; read_attestations body composeHash, s).

Definition FetchAppCompose (ctx : option Z) (appID baseDomain : string) (s : run W) : eresult bytes * run W :=
  if negb (given appID) then (Err (EFinding "no app_id to fetch app-compose for"), s)
  else
    let host := appIDHost appID baseDomain in
    if String.eqb host "" then (Err (EFinding "cannot build a guest-agent host"), s)
    else
      let '(body, s) := ask_platform ctx maxAppComposeBytes ("https://" +:+ host +:+ "/prpc/Info") ∅ s in
      (body ← body; read_info body, s).

(** *** Which app *)

Definition appIDFromConfig : string := "supplied".
Definition appIDFromEventLog : string := "the quote's RTMR3 event log".
Definition appIDFromDNS : string := appAddressPrefix +:+ " TXT".
Definition appIDFromComposeHash : string := "compose_hash prefix".

Definition resolveAppID (cfg : Config) (domain : string) (composeHash : bytes) (logged : string) (w : W)
    : string * string * option everr :=
  let pinned := normalizeAppID (cfg_AppID cfg) in
  if negb (String.eqb pinned "") then (pinned, appIDFromConfig, None)
  else if negb (String.eqb logged "") then (logged, appIDFromEventLog, None)
  else match (if cfg_NoDNSDiscovery cfg then Err (EFinding "DNS discovery is off")
              else discoverAppID SplitHost (LookupTXT w) (Some (LookupCNAME w)) domain) with
       | Ok discovered => (discovered, appIDFromDNS, None)
       | Err e => (AppIDFromComposeHash composeHash, appIDFromComposeHash, Some e)
       end.
Definition appIDWithoutDNS (cfg : Config) (composeHash : bytes) (logged : string) : string * string :=
  let pinned := normalizeAppID (cfg_AppID cfg) in
  if negb (String.eqb pinned "") then (pinned, appIDFromConfig)
  else if negb (String.eqb logged "") then (logged, appIDFromEventLog)
  else (AppIDFromComposeHash composeHash, appIDFromComposeHash).

(** [cloudLookupCtx]'s deadline: half of what remains, when there is a fallback to save. *)
Definition cloudLookupCtx (ctx : option Z) (fallbackPossible : bool) (now : Z) : option Z :=
  match ctx with
  | None => None
  | Some deadline =>
      if negb fallbackPossible then ctx
      else let remaining := deadline - now in
           if remaining <=? 0 then ctx else with_timeout ctx now (Z.quot remaining 2)
  end.

(** *** Code identity *)

(** [ac_Expect] of the comparison: [None] when none was made, else [MatchedExpect] or
    [ExpectErr]. [ci_Compose] holds [Name], [AllowedEnvs] and [ComposeFile] together. *)
Record CodeIdentity := MkCode {
  ci_ComposeHash : bytes;
  ci_AppID : string; ci_AppIDSource : string; ci_AppIDErr : option everr;
  ci_HashErr : option everr;
  ci_Requested : bool;
  ci_Source : string;
  ci_FetchErr : list everr;
  ci_BoundErr : option everr;
  ci_Compose : option AppCompose;
  ci_ExpectRequested : bool;
  ci_Expect : option (eresult string);
  ci_ExpectExplicit : bool;
  ci_Discovered : bool;
  ci_NoSource : bool
}.
Definition no_code : CodeIdentity := MkCode [] "" "" None None false "" [] None None false None false false false.

Definition CodeIdentity_OK (c : CodeIdentity) : bool :=
  if ci_NoSource c then negb (ci_ExpectExplicit c)
  else match ci_HashErr c with
       | Some _ => negb (ci_Requested c) && negb (ci_ExpectRequested c)
       | None =>
           match ci_BoundErr c with
           | Some _ => false
           | None =>
               match ci_FetchErr c with
               | _ :: _ => ci_Discovered c && negb (ci_ExpectExplicit c)
               | [] => if negb (ci_ExpectRequested c) then true
                       else match ci_Expect c with
                            | Some (Ok label) => negb (String.eqb label "")
                            | _ => false
                            end
               end
           end
       end.

Definition code_asked (cfg : Config) : CodeIdentity :=
  MkCode [] "" "" None None
    (match cfg_AppCompose cfg with Some _ => true | None => false end || given (cfg_BaseDomain cfg) || given (cfg_AppID cfg))
    "" [] None None (negb (Nat.eqb (length (cfg_ExpectComposeFiles cfg)) 0)) None (cfg_ExpectComposeExplicit cfg) false false.
Definition with_HashErr (e : everr) (c : CodeIdentity) : CodeIdentity :=
  MkCode (ci_ComposeHash c) (ci_AppID c) (ci_AppIDSource c) (ci_AppIDErr c) (Some e) (ci_Requested c) (ci_Source c) (ci_FetchErr c)
    (ci_BoundErr c) (ci_Compose c) (ci_ExpectRequested c) (ci_Expect c) (ci_ExpectExplicit c) (ci_Discovered c) (ci_NoSource c).
Definition with_app (hash : bytes) (id source : string) (err : option everr) (discovered : bool) (c : CodeIdentity) : CodeIdentity :=
  MkCode hash id source err (ci_HashErr c) (ci_Requested c) (ci_Source c) (ci_FetchErr c)
    (ci_BoundErr c) (ci_Compose c) (ci_ExpectRequested c) (ci_Expect c) (ci_ExpectExplicit c) discovered (ci_NoSource c).
Definition with_NoSource (c : CodeIdentity) : CodeIdentity :=
  MkCode (ci_ComposeHash c) (ci_AppID c) (ci_AppIDSource c) (ci_AppIDErr c) (ci_HashErr c) (ci_Requested c) (ci_Source c) (ci_FetchErr c)
    (ci_BoundErr c) (ci_Compose c) (ci_ExpectRequested c) (ci_Expect c) (ci_ExpectExplicit c) (ci_Discovered c) true.
Definition with_FetchErr (errs : list everr) (c : CodeIdentity) : CodeIdentity :=
  MkCode (ci_ComposeHash c) (ci_AppID c) (ci_AppIDSource c) (ci_AppIDErr c) (ci_HashErr c) (ci_Requested c) (ci_Source c) errs
    (ci_BoundErr c) (ci_Compose c) (ci_ExpectRequested c) (ci_Expect c) (ci_ExpectExplicit c) (ci_Discovered c) (ci_NoSource c).
Definition with_bound (source : string) (err : option everr) (compose : option AppCompose) (expect : option (eresult string))
    (c : CodeIdentity) : CodeIdentity :=
  MkCode (ci_ComposeHash c) (ci_AppID c) (ci_AppIDSource c) (ci_AppIDErr c) (ci_HashErr c) (ci_Requested c) source (ci_FetchErr c)
    err compose (ci_ExpectRequested c) expect (ci_ExpectExplicit c) (ci_Discovered c) (ci_NoSource c).

(** The bytes in hand: bound to the quote, then compared. *)
Definition bind_compose (cfg : Config) (raw composeHash : bytes) (source : string) (code : CodeIdentity) : CodeIdentity :=
  match VerifyAppCompose raw composeHash with
  | Err e => with_bound source (Some e) None None code
  | Ok (_, true) => with_bound source (Some (EFinding "no docker_compose_file")) None None code
  | Ok (ac, false) =>
      with_bound source None (Some ac)
        (if ci_ExpectRequested code
         then Some (MatchCompose (bytes_of (ac_DockerComposeFile ac)) (cfg_ExpectComposeFiles cfg)) else None) code
  end.

(** The two lookups. [None] of the result: there was nothing to try. *)
Inductive located := Found (raw : bytes) (source : string) | Lost (errs : list everr) | NothingToTry.

Definition cloud_lookup (cfg : Config) (ctx : option Z) (appID : string) (composeHash : bytes) (s : run W)
    : option (eresult (bytes * string)) * run W :=
  let cloudUsable := negb (cfg_NoCloudAPI cfg) && (given (cfg_AppID cfg) || negb (cfg_NoDNSDiscovery cfg)) in
  let fallbackPossible := given (cfg_BaseDomain cfg) || negb (cfg_NoDNSDiscovery cfg) in
  if negb cloudUsable then (None, s)
  else
    let base := trim_space (cfg_CloudAPIBase cfg) in
    let '(r, s) := FetchAppComposeFromCloud (cloudLookupCtx ctx fallbackPossible (ev_now (rn_world s))) base appID composeHash s in
    (Some ('(raw, instance) ← r; Ok (raw, cloudAppComposeSource base appID instance)), s).

Definition agent_lookup (cfg : Config) (ctx : option Z) (domain appID : string) (errs : list everr) (s : run W)
    : located * run W :=
  let base := trim_space (cfg_BaseDomain cfg) in
  let ask (base : string) (s : run W) : located * run W :=
    let '(b, s) := FetchAppCompose ctx appID base s in
    match b with Ok raw => (Found raw (appIDHost appID base), s) | Err e => (Lost (errs ++ [e]), s) end in
  if negb (String.eqb base "") then ask base s
  else if cfg_NoDNSDiscovery cfg then
    match errs with
    | [] => (NothingToTry, s)
    | _ => (Lost (errs ++ [EFinding "no guest-agent fallback"]), s)
    end
  else match deriveBaseDomain SplitHost (LookupCNAME (rn_world s)) domain with
       | Err e => (Lost (errs ++ [e]), s)
       | Ok base => if String.eqb base "" then (Lost errs, s) else ask base s
       end.

Definition locate_compose (cfg : Config) (ctx : option Z) (domain appID : string) (composeHash : bytes) (s : run W)
    : located * run W :=
  let '(cloud, s) := cloud_lookup cfg ctx appID composeHash s in
  match cloud with
  | Some (Ok (raw, source)) => (Found raw source, s)
  | Some (Err e) => agent_lookup cfg ctx domain appID [e] s
  | None => agent_lookup cfg ctx domain appID [] s
  end.

(** What the quote step found: [qf_Err] is [QuoteErr], the rest is meaningful without it. *)
Record QuoteFacts := MkQuoteFacts {
  qf_Err : option everr;
  qf_Measurement : Measurement;
  qf_ReportData : bytes;
  qf_MRConfigID : eresult bytes;
  qf_Reply : bytes;
  qf_BindingErr : option everr
}.
Definition zeroMeasurement : Measurement :=
  MkMeasurement (zeros 48) (zeros 48) (zeros 48) (zeros 48) (zeros 48).
Definition noQuote (reply : bytes) (e : everr) : QuoteFacts :=
  MkQuoteFacts (Some e) zeroMeasurement (zeros 64) (Ok (zeros 48)) reply
    (Some (EFinding "not checked: the quote did not verify")).

Definition err_of {E A} (r : result E A) : option E := match r with Ok _ => None | Err e => Some e end.
Definition quote_error (what : string) : aerr -> everr := fun _ => EFinding what.

(** Steps 2 and 3: the verified quote, and whether it binds the manifest. *)
Definition read_quote (parser : quoteParser) (manifest : bytes) (reply : eresult bytes) : QuoteFacts :=
  match reply with
  | Err e => noQuote [] e
  | Ok body =>
      match map_err (quote_error "quote") (raw ← DecodeQuoteResponse body; v ← parser raw; Ok (raw, v)) with
      | Err e => noQuote body e
      | Ok (raw, (m, rd)) =>
          MkQuoteFacts None m rd (q ← map_err (quote_error "layout") (ParseTDXQuoteBody raw); Ok (qb_MRConfigID q)) body
            (err_of (map_err (quote_error "binding") (VerifyEvidenceReportData rd manifest)))
      end
  end.

(** Step 6. *)
Definition checkCodeIdentity (cfg : Config) (ctx : option Z) (domain : string) (q : QuoteFacts) (s : run W)
    : CodeIdentity * run W :=
  let code := code_asked cfg in
  match match qf_Err q with Some _ => Err (EFinding "not checked: the quote did not verify") | None => qf_MRConfigID q end with
  | Err e => (with_HashErr e code, s)
  | Ok mrConfigID =>
      match ComposeHashOf mrConfigID (qf_Reply q) (RTMR3 (qf_Measurement q)) with
      | Err e => (with_HashErr e code, s)
      | Ok hash =>
          let logged := match LoggedAppID (qf_Reply q) (RTMR3 (qf_Measurement q)) with Ok id => id | Err _ => "" end in
          match cfg_AppCompose cfg with
          | Some raw =>
              let '(id, source) := appIDWithoutDNS cfg hash logged in
              (bind_compose cfg raw hash "supplied" (with_app hash id source None false code), s)
          | None =>
              let '(id, source, err) := resolveAppID cfg domain hash logged (rn_world s) in
              let code := with_app hash id source err (negb (ci_Requested code)) code in
              let '(found, s) := locate_compose cfg ctx domain id hash s in
              match found with
              | Found raw source => (bind_compose cfg raw hash source code, s)
              | NothingToTry => (with_NoSource code, s)
              | Lost errs => (with_FetchErr (errs ++ match err with Some e => [e] | None => [] end) code, s)
              end
          end
      end
  end.

(** *** The bundle *)

Definition bundle_url (host name : string) : string :=
  "https://" +:+ host +:+ "/evidences/" +:+ str_of (PathEscape (bytes_of name)).
Definition fetch (cfg : Config) (ctx : option Z) (host name : string) (s : run W) : eresult bytes * run W :=
  let u := bundle_url host name in
  match url_Parse u with
  | None => (Err (EFinding "not a URL"), s)
  | Some _ =>
      let '(chains, resp, w) := endpoint_get ctx u (rn_world s) in
      (read_reply maxFileBytes resp,
       MkRun w (rn_chains s ++ if cfg_ownClient cfg then chains else []) (rn_log s ++ [XGet u chains resp]))
  end.

Record FileCheck := MkFileCheck { fc_Name : string; fc_Want : bytes; fc_Got : bytes; fc_Err : option everr }.
Definition FileCheck_OK (f : FileCheck) : bool :=
  match fc_Err f with None => bool_decide (fc_Got f = fc_Want f) | Some _ => false end.

(** Every entry, and the certificate file when it was fetched. *)
Fixpoint fetch_files (cfg : Config) (ctx : option Z) (host name : string) (entries : list ManifestEntry)
    (certPEM : option bytes) (s : run W) : list FileCheck * option bytes * run W :=
  match entries with
  | [] => ([], certPEM, s)
  | e :: entries =>
      let '(body, s) := fetch cfg ctx host (me_Name e) s in
      let fc := MkFileCheck (me_Name e) (me_Digest e) (match body with Ok b => sha256 b | Err _ => zeros 32 end) (err_of body) in
      let certPEM := match body with
                     | Ok b => if String.eqb (me_Name e) (certName name) then Some b else certPEM
                     | Err _ => certPEM
                     end in
      let '(files, certPEM, s) := fetch_files cfg ctx host name entries certPEM s in
      (fc :: files, certPEM, s)
  end.

Definition requireEntries (entries : list ManifestEntry) (name : string) : eresult unit :=
  let have := map me_Name entries in
  _ ← refuse (negb (contains have (certName name))) (EFinding "no entry for the certificate");
  refuse (negb (contains have accountName)) (EFinding "no entry for the account").

(** *** The certificate served *)

(** [servedChain]: the first chain, unless another connection's leaf differs; no chain is
    the nil one. *)
Definition servedChain (chains : list (list Certificate)) : list Certificate * bool :=
  match chains with
  | [] => ([], false)
  | first :: others =>
      if existsb (fun other => match other, first with
                               | o :: _, f :: _ => negb (cert_Equal o f)
                               | _, _ => true
                               end) others
      then ([], true) else (first, false)
  end.

Record CertFacts := MkCertFacts {
  cf_Err : option everr;
  cf_Match : CertMatch;
  cf_ServedSHA256 : bytes; cf_BundleSHA256 : bytes;
  cf_Subject : string; cf_Issuer : string; cf_NotAfter : Z;
  cf_ChainTrusted : bool
}.
Definition noCert (e : everr) : CertFacts := MkCertFacts (Some e) CertMismatch (zeros 32) (zeros 32) "" "" 0 true.

Definition judge_cert (name : string) (bundle : Certificate * list Certificate) (served : list Certificate) : CertFacts :=
  match served with
  | [] => noCert (EFinding "no certificate")
  | leaf :: others =>
      MkCertFacts None (compareCert leaf bundle.1 bundle.2) (sha256 (Raw leaf)) (sha256 (Raw bundle.1))
        (x_Subject leaf) (x_Issuer leaf) (x_NotAfter leaf) (chain_verifies name leaf others)
  end.
Definition checkServedCert (c : Checker) (ctx : option Z) (host name : string) (certPEM : option bytes) (s : run W)
    : CertFacts * run W :=
  match pem ← of_option certPEM (EFinding "not fetched"); parseCertChain pem with
  | Err e => (noCert e, s)
  | Ok bundle =>
      match servedChain (rn_chains s) with
      | (_, true) => (noCert (EFinding "the connection changed mid-run"), s)
      | (first :: others, _) => (judge_cert name bundle (first :: others), s)
      | ([], _) =>
          let '(chain, w) := tls_dial (with_timeout ctx (ev_now (rn_world s)) (ck_limit c)) host name (rn_world s) in
          let s := MkRun w (rn_chains s) (rn_log s ++ [XDial host name chain]) in
          match chain with
          | None => (noCert (EFinding "TLS handshake"), s)
          | Some served => (judge_cert name bundle served, s)
          end
      end
  end.

(** ** The report *)

Inductive caveat := noteNoCodeIdentity | noteNoComposeFileCheck | noteFloatingTag | noteNoOSImage | noteNoComposeAuthenticated.

Record Report := MkReport {
  rep_Domain : string;
  rep_Files : list FileCheck;
  rep_ManifestErr : option everr;
  rep_Quote : QuoteFacts;
  rep_Cert : CertFacts;
  rep_Code : CodeIdentity;
  rep_OSImage : OSImageCheck;
  rep_Note : list caveat
}.

(** [note] of a finished run. *)
Definition note (c : Checker) (code : CodeIdentity) : list caveat :=
  let cfg := ck_cfg c in
  let noAppCompose := match cfg_AppCompose cfg with None => true | Some _ => false end
                      && negb (given (cfg_BaseDomain cfg)) && cfg_NoDNSDiscovery cfg in
  let unauthenticated := negb noAppCompose && match ci_Compose code with None => true | Some _ => false end in
  (if noAppCompose then [noteNoCodeIdentity]
   else if unauthenticated then [noteNoComposeAuthenticated]
   else if Nat.eqb (length (cfg_ExpectComposeFiles cfg)) 0 then [noteNoComposeFileCheck; noteFloatingTag]
   else [noteFloatingTag])
  ++ (if Nat.eqb (length (ck_osImages c)) 0 then [noteNoOSImage] else []).

Definition is_none {A} (o : option A) : bool := match o with None => true | Some _ => false end.
Definition Pass (r : Report) : bool :=
  is_none (rep_ManifestErr r) && is_none (qf_Err (rep_Quote r)) && is_none (qf_BindingErr (rep_Quote r))
  && is_none (cf_Err (rep_Cert r))
  && match_OK (cf_Match (rep_Cert r)) && CodeIdentity_OK (rep_Code r) && oc_OK (rep_OSImage r)
  && negb (Nat.eqb (length (rep_Files r)) 0) && forallb FileCheck_OK (rep_Files r).

Definition normalizeDomain (domain : string) : eresult string :=
  let d := trim_space domain in
  _ ← refuse (String.eqb d "") (EFinding "empty domain");
  d ← match cut_scheme (bytes_of d) with
      | None => Ok d
      | Some _ =>
          u ← of_option (url_Parse d) (EFinding "not a valid URL");
          _ ← refuse (negb (String.eqb (u_Scheme u) "https")) (EFinding "must be https");
          _ ← refuse (negb (String.eqb (trim_slash (u_Path u)) "")) (EFinding "not a path");
          Ok (u_Host u)
      end;
  _ ← refuse (contains_any ["/"%char; "?"%char; "#"%char] (bytes_of d)) (EFinding "not a bare domain");
  _ ← refuse (String.eqb d "") (EFinding "no host");
  Ok (to_lower d).

(** A measurement nobody verified. *)
Definition noOSImage : OSImageCheck := MkOSCheck false "" false (BootChainOf zeroMeasurement).
Definition manifest_failed (c : Checker) (host : string) (e : everr) : Report :=
  MkReport host [] (Some e) (MkQuoteFacts None zeroMeasurement (zeros 64) (Ok (zeros 48)) [] None)
    (MkCertFacts None CertMismatch (zeros 32) (zeros 32) "" "" 0 true) no_code noOSImage (note c no_code).

Definition read_manifest (manifest : eresult bytes) (name : string) : eresult (bytes * list ManifestEntry) :=
  b ← manifest; entries ← parseManifest b; _ ← requireEntries entries name; Ok (b, entries).

Definition Check (c : Checker) (ctx : option Z) (domain : string) (w : W) : eresult Report * run W :=
  let s := MkRun w [] [] in
  match normalizeDomain domain with
  | Err e => (Err e, s)
  | Ok host =>
      let cfg := ck_cfg c in
      let name := default host (SplitHost host) in
      let '(manifest, s) := fetch cfg ctx host manifestName s in
      match read_manifest manifest name with
      | Err e => (Ok (manifest_failed c host e), s)
      | Ok (manifest, entries) =>
          let '(files, certPEM, s) := fetch_files cfg ctx host name entries None s in
          let '(reply, s) := fetch cfg ctx host quoteName s in
          let q := read_quote (ck_parser c) manifest reply in
          let '(cert, s) := checkServedCert c ctx host name certPEM s in
          let '(code, s) := checkCodeIdentity cfg ctx host q s in
          let os := match qf_Err q with
                    | None => CheckOSImage (ck_osImages c) (qf_Measurement q)
                    | Some _ => MkOSCheck (Nat.ltb 0 (length (ck_osImages c))) "" true (BootChainOf zeroMeasurement)
                    end in
          (Ok (MkReport host files None q cert code os (note c code)), s)
      end
  end.
End checks.

(** ** What a run asked and was answered *)

Section facts.
Context {W : Type} `{EvidenceWorld W} `{UrlLib} `{X509Lib}.
Context (SplitHost : string -> option string).

Definition answered (s : run W) (url : string) (body : bytes) : Prop :=
  exists chains resp, XGet url chains (Some resp) ∈ rn_log s /\ read_reply maxFileBytes (Some resp) = Ok body.
Definition dialled (log : list exchange) : list (list Certificate) :=
  concat (map (fun x => match x with XGet _ chains _ => chains | _ => [] end) log).

(** A run only grows; on its own connection, what it compares are the chains it dialled. *)
Record after (cfg : Config) (s s' : run W) : Prop := {
  af_log : rn_log s `prefix_of` rn_log s';
  af_chains : cfg_ownClient cfg = true -> rn_chains s = dialled (rn_log s) -> rn_chains s' = dialled (rn_log s')
}.
#[export] Instance after_refl cfg : Reflexive (after cfg).
Proof. intros s. by split. Qed.
#[export] Instance after_trans cfg : Transitive (after cfg).
Proof. intros s1 s2 s3 [A B] [C D]. split; [by trans (rn_log s2)|eauto]. Qed.

Lemma answered_after cfg s s' u b : after cfg s s' -> answered s u b -> answered s' u b.
Proof.
  intros [[l Hl] _] (chains & resp & Hin & Hr). exists chains, resp. split; [|done]. rewrite Hl. apply elem_of_app. by left.
Qed.
Lemma dialled_app l l' : dialled (l ++ l') = dialled l ++ dialled l'.
Proof. unfold dialled. by rewrite map_app, concat_app. Qed.

(** A step that dials nothing to the endpoint. *)
Definition quiet (cfg : Config) (s s' : run W) : Prop := after cfg s s' /\ rn_chains s' = rn_chains s.
#[export] Instance quiet_refl cfg : Reflexive (quiet cfg).
Proof. by intros s. Qed.
#[export] Instance quiet_trans cfg : Transitive (quiet cfg).
Proof. intros s1 s2 s3 [A B] [C D]. split; [by trans s2|congruence]. Qed.
Lemma quiet_step cfg s w x : dialled [x] = [] -> quiet cfg s (MkRun w (rn_chains s) (rn_log s ++ [x])).
Proof. intros Hx. split; [|done]. split; cbn [rn_log rn_chains]; [by eexists|]. intros _ ->. by rewrite dialled_app, Hx, app_nil_r. Qed.

Lemma fetch_after cfg ctx host name s :
  let r := fetch cfg ctx host name s in
  after cfg s r.2 /\ forall b, r.1 = Ok b -> answered r.2 (bundle_url host name) b.
Proof.
  unfold fetch. destruct (url_Parse _); [|by split]. destruct (endpoint_get _ _ _) as [[chains resp] w]. cbn [fst snd]. split.
  - split; cbn [rn_log rn_chains]; [by eexists|]. intros -> ->. rewrite dialled_app. cbn. by rewrite app_nil_r.
  - intros b Hb. destruct resp as [resp|]; [|done]. exists chains, resp. split; [|done].
    apply elem_of_app. right. by left.
Qed.

Lemma fetch_files_after cfg ctx host name entries pem s :
  let '(files, pem', s') := fetch_files cfg ctx host name entries pem s in
  after cfg s s' /\ length files = length entries /\
  (forallb FileCheck_OK files = true ->
   (forall e, e ∈ entries -> exists b, answered s' (bundle_url host (me_Name e)) b /\ sha256 b = me_Digest e) /\
   (pem' = pem \/ exists b, pem' = Some b /\ answered s' (bundle_url host (certName name)) b /\
      MkMEntry (certName name) (sha256 b) ∈ entries)).
Proof.
  revert pem s. induction entries as [|e entries IH]; intros pem s; cbn [fetch_files].
  { split; [done|]. split; [done|]. intros _. split; [by intros e ?%elem_of_nil|by left]. }
  pose proof (fetch_after cfg ctx host (me_Name e) s) as [Hs Hb]. destruct (fetch cfg ctx host (me_Name e) s) as [body s1].
  cbn [fst snd] in *. set (pem1 := match body with Ok b => _ | Err _ => _ end). specialize (IH pem1 s1).
  destruct (fetch_files _ _ _ _ entries pem1 s1) as [[files pem'] s2]. destruct IH as (Hs2 & Hlen & IH).
  split; [by trans s1|]. split; [cbn; lia|]. cbn [forallb]. intros [Hok Hf]%andb_true_iff. destruct (IH Hf) as [He Hp].
  destruct body as [b|]; cbn in Hok; [|done]. unfold FileCheck_OK in Hok. cbn in Hok. apply bool_decide_eq_true in Hok.
  split.
  - intros e' [->|Hin]%elem_of_cons; [|by apply He]. exists b. split; [|done]. eapply answered_after; [exact Hs2|by apply Hb].
  - destruct Hp as [Hp|(b' & -> & Ha & Hin)]; [|right; exists b'; split_and!; [done..|by right]].
    unfold pem1 in Hp. destruct (String.eqb_spec (me_Name e) (certName name)) as [En|]; [|by left].
    right. exists b. split_and!; [done| |].
    + rewrite <-En. eapply answered_after; [exact Hs2|by apply Hb].
    + rewrite Hok, <-En. destruct e. by left.
Qed.

Lemma ask_platform_quiet cfg ctx limit u h s : quiet cfg s (ask_platform ctx limit u h s).2.
Proof.
  unfold ask_platform. destruct (url_Parse u); [|done]. destruct (platform_get _ _ _ _) as [resp w]. by apply quiet_step.
Qed.
Lemma cloud_quiet cfg ctx base id hash s : quiet cfg s (FetchAppComposeFromCloud ctx base id hash s).2.
Proof.
  unfold FetchAppComposeFromCloud. destruct (String.eqb _ _); [done|]. destruct (negb _); [done|].
  match goal with |- context [ask_platform ?c ?l ?u ?h s] => pose proof (ask_platform_quiet cfg c l u h s) as Ha;
    destruct (ask_platform c l u h s) as [b s1] end. done.
Qed.
Lemma agent_quiet cfg ctx id base s : quiet cfg s (FetchAppCompose ctx id base s).2.
Proof.
  unfold FetchAppCompose. destruct (negb _); [done|]. destruct (String.eqb _ _); [done|].
  match goal with |- context [ask_platform ?c ?l ?u ?h s] => pose proof (ask_platform_quiet cfg c l u h s) as Ha;
    destruct (ask_platform c l u h s) as [b s1] end. done.
Qed.
Lemma agent_lookup_quiet cfg cfg' ctx domain id errs s : quiet cfg s (agent_lookup SplitHost cfg' ctx domain id errs s).2.
Proof.
  unfold agent_lookup. assert (forall base, quiet cfg s (let '(b, s) := FetchAppCompose ctx id base s in
    match b with Ok raw => (Found raw (appIDHost id base), s) | Err e => (Lost (errs ++ [e]), s) end).2) as Hask.
  { intros base. pose proof (agent_quiet cfg ctx id base s) as Ha. destruct (FetchAppCompose ctx id base s) as [[raw|e] s1]; done. }
  destruct (negb _); [apply Hask|]. destruct (cfg_NoDNSDiscovery _); [by destruct errs|].
  destruct (deriveBaseDomain _ _ _) as [base|]; [|done]. destruct (String.eqb base ""); [done|apply Hask].
Qed.
Lemma locate_quiet cfg cfg' ctx domain id hash s : quiet cfg s (locate_compose SplitHost cfg' ctx domain id hash s).2.
Proof.
  unfold locate_compose, cloud_lookup. destruct (negb _); [apply agent_lookup_quiet|].
  match goal with |- context [FetchAppComposeFromCloud ?c ?b ?i ?h s] => pose proof (cloud_quiet cfg c b i h s) as Ha;
    destruct (FetchAppComposeFromCloud c b i h s) as [r s1] end. cbn [fst snd] in *.
  destruct r as [[raw inst]|e]; cbn; [done|]. etrans; [exact Ha|apply agent_lookup_quiet].
Qed.
Lemma code_quiet cfg cfg' ctx domain q s : quiet cfg s (checkCodeIdentity SplitHost cfg' ctx domain q s).2.
Proof.
  unfold checkCodeIdentity. destruct (match qf_Err q with Some _ => _ | None => _ end) as [id|]; [|done].
  destruct (ComposeHashOf _ _ _) as [hash|]; [|done]. destruct (cfg_AppCompose cfg'); [by destruct (appIDWithoutDNS _ _ _)|].
  destruct (resolveAppID _ _ _ _ _ _) as [[aid source] err].
  match goal with |- context [locate_compose ?a ?b ?c ?d ?e ?f s] => pose proof (locate_quiet cfg b c d e f s) as Ha;
    destruct (locate_compose a b c d e f s) as [found s1] end. by destruct found.
Qed.

(** How the code-identity step can end. *)
Definition bound_to (q : QuoteFacts) (hash : bytes) : Prop :=
  qf_Err q = None /\ exists id, qf_MRConfigID q = Ok id /\ ComposeHashOf id (qf_Reply q) (RTMR3 (qf_Measurement q)) = Ok hash.
Inductive code_end (cfg : Config) (q : QuoteFacts) : CodeIdentity -> Prop :=
| EndHash e : code_end cfg q (with_HashErr e (code_asked cfg))
| EndBound hash id source err discovered raw from : bound_to q hash ->
    code_end cfg q (bind_compose cfg raw hash from (with_app hash id source err discovered (code_asked cfg)))
| EndNothing hash id source err discovered :
    code_end cfg q (with_NoSource (with_app hash id source err discovered (code_asked cfg)))
| EndLost errs hash id source err discovered :
    code_end cfg q (with_FetchErr errs (with_app hash id source err discovered (code_asked cfg))).

Lemma code_ends cfg ctx domain q s : code_end cfg q (checkCodeIdentity SplitHost cfg ctx domain q s).1.
Proof.
  unfold checkCodeIdentity. destruct (qf_Err q) eqn:Eq; [constructor|]. destruct (qf_MRConfigID q) as [id|] eqn:Ei; [|constructor].
  destruct (ComposeHashOf _ _ _) as [hash|] eqn:Eh; [|constructor].
  assert (bound_to q hash) as Hb by (split; [done|by exists id]).
  destruct (cfg_AppCompose cfg) as [raw|].
  { destruct (appIDWithoutDNS _ _ _). by apply EndBound. }
  destruct (resolveAppID _ _ _ _ _ _) as [[aid source] err]. destruct (locate_compose _ _ _ _ _ _ _) as [[raw from|errs|] s1].
  - by apply EndBound.
  - apply EndLost.
  - apply EndNothing.
Qed.

(** The manifest a report calls authenticated is the one the quote's hash commits to. *)
Lemma code_authentic cfg q code ac : code_end cfg q code -> ci_Compose code = Some ac ->
  ci_ExpectRequested code = negb (Nat.eqb (length (cfg_ExpectComposeFiles cfg)) 0) /\
  exists hash raw, bound_to q hash /\ VerifyAppCompose raw hash = Ok (ac, false) /\
    ci_Expect code = (if ci_ExpectRequested code
                      then Some (MatchCompose (bytes_of (ac_DockerComposeFile ac)) (cfg_ExpectComposeFiles cfg)) else None) /\
    ci_NoSource code = false /\ ci_HashErr code = None /\ ci_BoundErr code = None /\ ci_FetchErr code = [].
Proof.
  intros [| hash id source err discovered raw from Hb | |] Hc; [done| |done|done]. unfold bind_compose in *.
  destruct (VerifyAppCompose raw hash) as [[ac' [|]]|] eqn:Ev; [done| |done]. cbn in Hc. injection Hc as ->.
  split; [done|]. exists hash, raw. by split_and!.
Qed.

(** A demand is not met by silence. *)
Lemma code_demanded cfg q code : code_end cfg q code -> cfg_ExpectComposeExplicit cfg = true ->
  cfg_ExpectComposeFiles cfg <> [] -> CodeIdentity_OK code = true -> exists ac, ci_Compose code = Some ac.
Proof.
  intros He Hx Hf. assert (negb (Nat.eqb (length (cfg_ExpectComposeFiles cfg)) 0) = true) as Hr
    by by destruct (cfg_ExpectComposeFiles cfg).
  destruct He as [e|hash id source err discovered raw from Hb|hash id source err discovered|errs hash id source err discovered].
  - cbn. rewrite Hr, andb_false_r. done.
  - unfold bind_compose. destruct (VerifyAppCompose raw hash) as [[ac [|]]|]; [done| |done]. intros _. by exists ac.
  - cbn. by rewrite Hx.
  - cbn. destruct errs; cbn; [by rewrite Hr|]. by rewrite Hx, andb_false_r.
Qed.

Lemma MatchCompose_ok got l label : MatchCompose got l = Ok label ->
  exists x, x ∈ l /\ ex_Label x = label /\ diffComposeFile got (ex_Content x) = None.
Proof.
  unfold MatchCompose. destruct (List.find _ l) as [x|] eqn:E; [|done]. intros [= <-].
  apply List.find_some in E as [Hin Hd]. exists x. split_and!; [by apply list_elem_of_In|done|].
  by destruct (diffComposeFile got (ex_Content x)).
Qed.
End facts.

Lemma diff_lines_none n got want : diff_lines n got want = None <-> got = want.
Proof.
  revert n want. induction got as [|g got IH]; intros n [|w want]; cbn; try done.
  destruct (bool_decide_reflect (g = w)) as [->|Hne].
  - rewrite IH. split; [by intros ->|by intros [= ->]].
  - split; [done|]. intros [= -> _]. done.
Qed.

Lemma collision_free_sub l l' : l ⊆ l' -> collision_free l' -> collision_free l.
Proof.
  unfold collision_free. rewrite !Forall_forall. intros Hs Hl x Hx. specialize (Hl x (Hs x Hx)).
  rewrite Forall_forall in *. intros y Hy. by apply Hl, Hs.
Qed.

Section theorems.
Context {W : Type} `{EvidenceWorld W} `{UrlLib} `{X509Lib}.
Context (SplitHost : string -> option string).
Abbreviation Check := (Check SplitHost).

(** The leaf the endpoint presented: on the run's connections, all of which agree on it,
    or else in a handshake of its own. *)
Definition presented (s : run W) (host name : string) (leaf : Certificate) : Prop :=
  (forall other others, other :: others ∈ rn_chains s -> Raw other = Raw leaf) /\
  exists others, leaf :: others ∈ rn_chains s \/ XDial host name (Some (leaf :: others)) ∈ rn_log s.

Lemma servedChain_ok chains leaf others : servedChain chains = (leaf :: others, false) ->
  leaf :: others ∈ chains /\ forall other rest, other :: rest ∈ chains -> Raw other = Raw leaf.
Proof.
  destruct chains as [|first chains]; [done|]. cbn. destruct (existsb _ chains) eqn:Ex; [done|]. intros [= ->].
  split; [by left|]. intros other rest [[= -> ->]|Hin]%elem_of_cons; [done|].
  apply not_true_iff_false in Ex. rewrite existsb_exists in Ex. destruct (decide (Raw other = Raw leaf)) as [|Hne]; [done|].
  destruct Ex. exists (other :: rest). split; [by apply list_elem_of_In|]. unfold cert_Equal. by rewrite bool_decide_false.
Qed.

Lemma cert_checked c ctx host name pem s : 
  let r := checkServedCert c ctx host name pem s in
  quiet (ck_cfg c) s r.2 /\
  (cf_Err r.1 = None -> cf_Match r.1 = CertExact ->
   exists b first others leaf, pem = Some b /\ parseCertChain b = Ok (first, others) /\ Raw leaf = Raw first /\
     cf_ServedSHA256 r.1 = sha256 (Raw leaf) /\ presented r.2 host name leaf).
Proof.
  unfold checkServedCert. destruct pem as [b|]; cbn [of_option mbind result_bind]; [|by split_and!].
  destruct (parseCertChain b) as [[first others]|] eqn:Ep; [|by split_and!].
  assert (forall leaf rest, cf_Match (judge_cert name (first, others) (leaf :: rest)) = CertExact -> Raw leaf = Raw first) as Hexact.
  { intros leaf rest. cbn. unfold compareCert, cert_Equal. destruct (bool_decide_reflect (Raw leaf = Raw first)) as [|]; [done|].
    destruct (existsb _ _); [done|]. by destruct (_ && _). }
  destruct (servedChain (rn_chains s)) as [[|leaf rest] [|]] eqn:Es; try by split_and!.
  - destruct (tls_dial _ _ _ _) as [chain w]. destruct chain as [[|leaf rest]|]; cbn [fst snd]; (split; [by apply quiet_step|]); [done| |done]. intros _ Hm. exists b, first, others, leaf. split_and!; [done..|by eapply Hexact|done|].
    split; [|exists rest; right; apply elem_of_app; right; by left].
    intros other more Hin. exfalso. cbn [rn_chains] in Hin. destruct (rn_chains s) as [|fst chains]; [by apply elem_of_nil in Hin|].
    cbn in Es. destruct (existsb _ chains) eqn:Ex; [done|]. injection Es as ->. apply elem_of_cons in Hin as [|Hin]; [done|].
    apply not_true_iff_false in Ex. rewrite existsb_exists in Ex. destruct Ex. eexists. split; [by apply list_elem_of_In|done].
  - cbn [fst snd]. split; [done|]. intros _ Hm. apply servedChain_ok in Es as [Hin Hall].
    exists b, first, others, leaf. split_and!; [done..|by eapply Hexact|done|]. split; [done|]. exists rest. by left.
Qed.

Lemma Pass_all rep : Pass rep = true ->
  rep_ManifestErr rep = None /\ qf_Err (rep_Quote rep) = None /\ qf_BindingErr (rep_Quote rep) = None /\
  cf_Err (rep_Cert rep) = None /\ cf_Match (rep_Cert rep) = CertExact /\ CodeIdentity_OK (rep_Code rep) = true /\
  oc_OK (rep_OSImage rep) = true /\ rep_Files rep <> [] /\ forallb FileCheck_OK (rep_Files rep) = true.
Proof.
  unfold Pass. rewrite !andb_true_iff. intros ((((((((A & B) & C) & D) & E) & F) & G) & I) & J).
  split_and!; try (by destruct (rep_ManifestErr rep)); try done.
  - by destruct (qf_Err (rep_Quote rep)).
  - by destruct (qf_BindingErr (rep_Quote rep)).
  - by destruct (cf_Err (rep_Cert rep)).
  - by destruct (cf_Match (rep_Cert rep)).
  - by destruct (rep_Files rep).
Qed.

Lemma read_quote_ok parser manifest reply : 
  let q := read_quote parser manifest reply in
  qf_Err q = None -> exists body raw, reply = Ok body /\ DecodeQuoteResponse body = Ok raw /\
    parser raw = Ok (qf_Measurement q, qf_ReportData q) /\ qf_Reply q = body /\
    qf_MRConfigID q = (b ← map_err (quote_error "layout") (ParseTDXQuoteBody raw); Ok (qb_MRConfigID b)) /\
    (qf_BindingErr q = None -> VerifyEvidenceReportData (qf_ReportData q) manifest = Ok tt).
Proof.
  unfold read_quote. destruct reply as [body|]; [|done]. destruct (DecodeQuoteResponse body) as [raw|] eqn:Ed; [|done].
  cbn [mbind result_bind]. destruct (parser raw) as [[m rd]|] eqn:Ep; [|done]. cbn. intros _. exists body, raw. split_and!; [done..|].
  by destruct (VerifyEvidenceReportData rd manifest) as [[]|].
Qed.

(** What [Check] does on the way to a report that passed its manifest. *)
Record checked (c : Checker) (ctx : option Z) (host name : string) (rep : Report) (s : run W)
    (manifest : bytes) (entries : list ManifestEntry) (pem : option bytes) (reply : eresult bytes) : Prop := {
  kd_manifest : answered s (bundle_url host manifestName) manifest;
  kd_entries : parseManifest manifest = Ok entries;
  kd_quote : rep_Quote rep = read_quote (ck_parser c) manifest reply;
  kd_reply : forall b, reply = Ok b -> answered s (bundle_url host quoteName) b;
  kd_files : forallb FileCheck_OK (rep_Files rep) = true ->
    (forall e, e ∈ entries -> exists b, answered s (bundle_url host (me_Name e)) b /\ sha256 b = me_Digest e) /\
    (pem = None \/ exists b, pem = Some b /\ answered s (bundle_url host (certName name)) b /\
       MkMEntry (certName name) (sha256 b) ∈ entries);
  kd_chains : cfg_ownClient (ck_cfg c) = true -> rn_chains s = dialled (rn_log s);
  kd_cert : cf_Err (rep_Cert rep) = None -> cf_Match (rep_Cert rep) = CertExact ->
    exists b first others leaf, pem = Some b /\ parseCertChain b = Ok (first, others) /\ Raw leaf = Raw first /\
      cf_ServedSHA256 (rep_Cert rep) = sha256 (Raw leaf) /\ presented s host name leaf;
  kd_code : code_end (ck_cfg c) (rep_Quote rep) (rep_Code rep);
  kd_os : qf_Err (rep_Quote rep) = None -> rep_OSImage rep = CheckOSImage (ck_osImages c) (qf_Measurement (rep_Quote rep));
  kd_note : rep_Note rep = note c (rep_Code rep)
}.

Lemma presented_quiet cfg s s' host name leaf : quiet cfg s s' -> presented s host name leaf -> presented s' host name leaf.
Proof.
  intros [[[l Hl] _] Hc] [Hall (others & Hin)]. split; [by rewrite Hc|]. exists others. rewrite Hc, Hl.
  destruct Hin; [by left|]. right. apply elem_of_app. by left.
Qed.

Lemma Check_passed c ctx domain w rep s :
  Check c ctx domain w = (Ok rep, s) -> rep_ManifestErr rep = None ->
  exists host manifest entries pem reply, normalizeDomain domain = Ok host /\
    (certName (default host (SplitHost host)) ∈ map me_Name entries) /\
    checked c ctx host (default host (SplitHost host)) rep s manifest entries pem reply.
Proof.
  unfold Check. destruct (normalizeDomain domain) as [host|]; [|done]. set (name := default host (SplitHost host)).
  set (cfg := ck_cfg c). set (s0 := MkRun w [] []).
  pose proof (fetch_after cfg ctx host manifestName s0) as [A1 F1].
  destruct (fetch cfg ctx host manifestName s0) as [mb s1]. cbn [fst snd] in A1, F1.
  destruct (read_manifest mb name) as [[manifest entries]|] eqn:Em; [|by intros [= <- <-]].
  unfold read_manifest in Em. inv_ok. subst. unfold requireEntries in *. inv_ok.
  pose proof (fetch_files_after cfg ctx host name entries None s1) as Hf.
  destruct (fetch_files cfg ctx host name entries None s1) as [[files pem] s2]. destruct Hf as (A2 & _ & F2).
  pose proof (fetch_after cfg ctx host quoteName s2) as [A3 F3].
  destruct (fetch cfg ctx host quoteName s2) as [reply s3]. cbn [fst snd] in A3, F3.
  set (q := read_quote (ck_parser c) manifest reply).
  pose proof (cert_checked c ctx host name pem s3) as [A4 F4]. destruct (checkServedCert c ctx host name pem s3) as [cert s4].
  cbn [fst snd] in A4, F4. pose proof (code_quiet SplitHost cfg cfg ctx host q s4) as A5. pose proof (code_ends SplitHost cfg ctx host q s4) as F5.
  destruct (checkCodeIdentity SplitHost cfg ctx host q s4) as [code s5]. cbn [fst snd] in A5, F5.
  intros [= <- <-] _. exists host, manifest, entries, pem, reply. split; [done|]. split.
  { match goal with H : negb (contains _ _) = false |- _ => apply negb_false_iff, contains_spec in H; done end. }
  assert (after cfg s3 s5) as A35 by (trans s4; [apply A4|apply A5]). assert (after cfg s2 s5) as A25 by by trans s3.
  assert (after cfg s1 s5) as A15 by by trans s2. split; cbn [rep_Quote rep_Files rep_Cert rep_Code rep_OSImage rep_Note].
  - eapply answered_after; [exact A15|]. by apply F1.
  - done.
  - done.
  - intros b Hb. eapply answered_after; [exact A35|by apply F3].
  - intros Hok. destruct (F2 Hok) as [He Hp]. split.
    + intros e Hin. destruct (He e Hin) as (b & Hb & Hd). exists b. split; [|done]. by eapply answered_after; [exact A25|].
    + destruct Hp as [->|(b & -> & Hb & Hin)]; [by left|]. right. exists b. split_and!; [done| |done]. by eapply answered_after; [exact A25|].
  - intros Hown. assert (after cfg s0 s5) as A05 by by trans s1. by apply A05.
  - intros He Hm. destruct (F4 He Hm) as (b & first & others & leaf & Hx1 & Hx2 & Hx3 & Hx4 & Hp).
    exists b, first, others, leaf. split_and!; [done..|]. by eapply presented_quiet.
  - done.
  - by intros ->.
  - done.
Qed.

(** C22: a pass is about the endpoint that was asked. When a report passes, a quote the
    endpoint served was verified, its report data commits to the manifest the endpoint
    served, every file the manifest names was served with its digest, the boot chain is on
    the allowlist if there is one, and the certificate the endpoint presented, on every
    connection the run dialled, is the first of the certificate file; so whatever manifest
    and certificate file the quoted enclave made its report data from, the certificate
    presented is that file's, unless SHA-256 collides on them. *)
Theorem endpoint_attested c ctx domain w rep s :
  Check c ctx domain w = (Ok rep, s) -> Pass rep = true ->
  exists host manifest entries pem first others leaf body raw m rd,
    let name := default host (SplitHost host) in
    normalizeDomain domain = Ok host /\
    answered s (bundle_url host manifestName) manifest /\ parseManifest manifest = Ok entries /\
    (forall e, e ∈ entries -> exists b, answered s (bundle_url host (me_Name e)) b /\ sha256 b = me_Digest e) /\
    answered s (bundle_url host quoteName) body /\ DecodeQuoteResponse body = Ok raw /\ ck_parser c raw = Ok (m, rd) /\
    VerifyEvidenceReportData rd manifest = Ok tt /\
    (ck_osImages c <> [] -> oc_OK (CheckOSImage (ck_osImages c) m) = true) /\
    answered s (bundle_url host (certName name)) pem /\ parseCertChain pem = Ok (first, others) /\
    Raw leaf = Raw first /\ presented s host name leaf /\
    (cfg_ownClient (ck_cfg c) = true -> rn_chains s = dialled (rn_log s)) /\
    forall manifest0 entries0 pem0 first0 others0, rd = EvidenceReportData manifest0 -> parseManifest manifest0 = Ok entries0 ->
      (forall e, e ∈ entries0 -> me_Name e = certName name -> me_Digest e = sha256 pem0) ->
      parseCertChain pem0 = Ok (first0, others0) -> collision_free [manifest; manifest0; pem; pem0] ->
      Raw leaf = Raw first0.
Proof.
  intros Hc Hp. apply Pass_all in Hp as (Hm & Hq & Hb & Hce & Hcm & _ & Hos & _ & Hf).
  destruct (Check_passed c ctx domain w rep s Hc Hm) as (host & manifest & entries & pem & reply & Hn & Hin & K).
  destruct (kd_files _ _ _ _ _ _ _ _ _ _ K Hf) as [He Hpem].
  destruct (kd_cert _ _ _ _ _ _ _ _ _ _ K Hce Hcm) as (b & first & others & leaf & -> & Hpc & Hraw & _ & Hpr).
  destruct Hpem as [|(b' & [= <-] & Hbp & Hentry)]; [done|].
  pose proof (kd_quote _ _ _ _ _ _ _ _ _ _ K) as Eq. rewrite Eq in Hq, Hb.
  destruct (read_quote_ok _ _ _ Hq) as (body & raw & Er & Hd & Hparse & _ & _ & Hbind). specialize (Hbind Hb).
  eexists host, manifest, entries, b, first, others, leaf, body, raw, _, _. cbv zeta.
  split_and!; [done|by apply K|by apply K|done|by apply (kd_reply _ _ _ _ _ _ _ _ _ _ K)|done|exact Hparse|exact Hbind| |done|done|done|done|by apply K|].
  - intros _. rewrite (kd_os _ _ _ _ _ _ _ _ _ _ K), Eq in Hos; [done|by rewrite Eq].
  - intros m0 e0 p0 f0 o0 Hrd Hpm Hdig Hpc0 Hfree.
    assert (length (qf_ReportData (read_quote (ck_parser c) manifest reply)) = reportDataLen) as Hl.
    { rewrite Hrd. unfold EvidenceReportData. by rewrite length_app, sha256_length. }
    destruct (evidence_binding _ m0 Hl) as [Hiff Huniq]. pose proof (proj2 Hiff Hrd) as Hv0.
    assert (manifest = m0) as ->.
    { apply Huniq; [|done|done]. eapply collision_free_sub; [|exact Hfree]. set_solver. }
    rewrite (kd_entries _ _ _ _ _ _ _ _ _ _ K) in Hpm. injection Hpm as <-.
    pose proof (Hdig _ Hentry eq_refl : sha256 b = sha256 p0) as Hsha.
    assert (b = p0) as -> by (apply (collision_free_eq _ _ _ Hfree); [repeat constructor..|exact Hsha]).
    rewrite Hpc0 in Hpc. injection Hpc as -> _. done.
Qed.

(** C23: no silence is a match. When a report passes and the comparison with published
    manifests was demanded, or its note has no word of one that was not made, the quote's
    compose hash is that of a manifest of the application whose compose text is, line by
    line, that of a candidate given; and a report whose note does not say that the OS image
    is unpinned has an image on the allowlist. *)
Theorem published_or_said c ctx domain w rep s :
  Check c ctx domain w = (Ok rep, s) -> Pass rep = true ->
  (cfg_ExpectComposeExplicit (ck_cfg c) = true /\ cfg_ExpectComposeFiles (ck_cfg c) <> [] \/
   (noteNoCodeIdentity ∉ rep_Note rep) /\ (noteNoComposeAuthenticated ∉ rep_Note rep) /\ (noteNoComposeFileCheck ∉ rep_Note rep) ->
   exists hash raw ac x, bound_to (rep_Quote rep) hash /\ VerifyAppCompose raw hash = Ok (ac, false) /\ sha256 raw = hash /\
     x ∈ cfg_ExpectComposeFiles (ck_cfg c) /\ splitLines (bytes_of (ac_DockerComposeFile ac)) = splitLines (ex_Content x)) /\
  ((noteNoOSImage ∉ rep_Note rep) ->
   exists i, i ∈ ck_osImages c /\ os_BootChain i = BootChainOf (qf_Measurement (rep_Quote rep))).
Proof.
  intros Hc Hp. apply Pass_all in Hp as (Hm & Hq & _ & _ & _ & Hcode & Hos & _ & _).
  destruct (Check_passed c ctx domain w rep s Hc Hm) as (host & manifest & entries & pem & reply & Hn & Hin & K).
  pose proof (kd_code _ _ _ _ _ _ _ _ _ _ K) as He. rewrite (kd_note _ _ _ _ _ _ _ _ _ _ K). unfold note. cbv zeta. split.
  - intros Hwhy. assert (exists ac, ci_Compose (rep_Code rep) = Some ac /\ cfg_ExpectComposeFiles (ck_cfg c) <> []) as (ac & Hac & Hfiles).
    { destruct Hwhy as [[Hx Hf]|(N1 & N2 & N3)].
      - destruct (code_demanded _ _ _ He Hx Hf Hcode) as [ac Hac]. by exists ac.
      - rewrite !elem_of_app in N1, N2, N3. destruct (_ && cfg_NoDNSDiscovery (ck_cfg c)); cbn [negb andb] in *; [destruct N1; left; by left|].
        destruct (ci_Compose (rep_Code rep)) as [ac|]; [|destruct N2; left; by left]. exists ac. split; [done|].
        intros Hf. rewrite Hf in N3. destruct N3. left. by left. }
    destruct (code_authentic _ _ _ _ He Hac) as (Hr & hash & raw & Hb & Hv & Hx & X1 & X2 & X3 & X4).
    assert (ci_ExpectRequested (rep_Code rep) = true) as Hreq by (rewrite Hr; by destruct (cfg_ExpectComposeFiles (ck_cfg c))).
    unfold CodeIdentity_OK in Hcode. rewrite X1, X2, X3, X4, Hreq, Hx, Hreq in Hcode. cbn [negb] in Hcode.
    destruct (MatchCompose _ _) as [label|] eqn:Em; [|done]. apply MatchCompose_ok in Em as (x & Hxin & _ & Hd%diff_lines_none).
    exists hash, raw, ac, x. split_and!; [done|done| |done|done]. unfold VerifyAppCompose, GateAppCompose in Hv. inv_ok.
    match goal with H : negb (bool_decide _) = false |- _ => apply negb_false_iff, bool_decide_eq_true in H; done end.
  - intros Hnote. rewrite elem_of_app in Hnote. rewrite (kd_os _ _ _ _ _ _ _ _ _ _ K Hq) in Hos.
    destruct (ck_osImages c) as [|o l] eqn:El; [destruct Hnote; right; by left|].
    unfold oc_OK, CheckOSImage in Hos. cbn [length Nat.ltb Nat.leb negb] in Hos.
    set (b := BootChainOf _) in *. set (policy := BootChainPolicyOf (o :: l)) in *.
    assert (Permits policy b = true) as Hpermit.
    { destruct (negb (String.eqb (Name policy b) "")) eqn:En; [|by destruct (Permits policy b)].
      unfold Name in En. by destruct (Permits policy b). }
    unfold Permits in Hpermit. destruct (IsZero b); [done|]. apply existsb_exists in Hpermit as (x & Hx & E%bool_decide_eq_true).
    cbn [Allowed policy BootChainPolicyOf] in Hx. apply in_map_iff in Hx as (i & <- & Hi). exists i. split; [by apply list_elem_of_In|done].
Qed.

(** ** An honest deployment passes *)

(** The endpoint serves the files of a bundle, and presents one chain on every connection. *)
Record serves (ctx : option Z) (host name : string) (names : list string) (files : string -> bytes)
    (leaf : Certificate) (rest : list Certificate) : Prop := {
  sv_url n : n ∈ names -> is_Some (url_Parse (bundle_url host n));
  sv_get n w : n ∈ names -> exists chains h w', Forall (eq (leaf :: rest)) chains /\
    endpoint_get ctx (bundle_url host n) w = (chains, Some (MkHttpResponse StatusOK h (files n) None), w');
  sv_dial d w : (tls_dial d host name w).1 = Some (leaf :: rest);
  sv_small n : n ∈ names -> Z.of_nat (length (files n)) <= maxFileBytes
}.
(** What is in the bundle, made from a quote and a manifest of the application. *)
Record bundled (c : Checker) (name : string) (files : string -> bytes) (entries : list ManifestEntry)
    (leaf : Certificate) (compose : bytes) : Prop := {
  bu_entries : parseManifest (files manifestName) = Ok entries;
  bu_required : requireEntries entries name = Ok tt;
  bu_digests e : e ∈ entries -> me_Digest e = sha256 (files (me_Name e));
  bu_quote : exists raw m qb, DecodeQuoteResponse (files quoteName) = Ok raw /\
    ck_parser c raw = Ok (m, EvidenceReportData (files manifestName)) /\ oc_OK (CheckOSImage (ck_osImages c) m) = true /\
    ParseTDXQuoteBody raw = Ok qb /\ ComposeHashOf (qb_MRConfigID qb) (files quoteName) (RTMR3 m) = Ok (sha256 compose);
  bu_cert : exists first others, parseCertChain (files (certName name)) = Ok (first, others) /\ Raw leaf = Raw first;
  bu_compose : exists ac x, VerifyAppCompose compose (sha256 compose) = Ok (ac, false) /\
    x ∈ cfg_ExpectComposeFiles (ck_cfg c) /\ splitLines (bytes_of (ac_DockerComposeFile ac)) = splitLines (ex_Content x) /\
    forall y, y ∈ cfg_ExpectComposeFiles (ck_cfg c) -> ex_Label y <> ""
}.

Lemma read_reply_whole h b : Z.of_nat (length b) <= maxFileBytes ->
  read_reply maxFileBytes (Some (MkHttpResponse StatusOK h b None)) = Ok b.
Proof.
  intros Hl. unfold read_reply, read_all_limited. cbn [of_option mbind result_bind hs_Body].
  destruct (Z.leb_spec (maxFileBytes + 1) (Z.of_nat (length b))); [lia|].
  cbn [read_all hs_BodyErr hs_Body hs_Status mbind result_bind].
  destruct (Z.ltb_spec maxFileBytes (Z.of_nat (length b))); [lia|]. reflexivity.
Qed.

Lemma fetch_served cfg ctx host name names files leaf rest n s :
  serves ctx host name names files leaf rest -> n ∈ names -> Forall (eq (leaf :: rest)) (rn_chains s) ->
  let r := fetch cfg ctx host n s in r.1 = Ok (files n) /\ Forall (eq (leaf :: rest)) (rn_chains r.2).
Proof.
  intros Hs Hn Hc. unfold fetch. destruct (sv_url _ _ _ _ _ _ _ Hs n Hn) as [u ->].
  destruct (sv_get _ _ _ _ _ _ _ Hs n (rn_world s) Hn) as (chains & h & w & Hf & ->). cbn [fst snd rn_chains].
  rewrite read_reply_whole by by eapply sv_small. split; [done|]. apply Forall_app. split; [done|]. by destruct (cfg_ownClient cfg).
Qed.

Lemma fetch_files_served cfg ctx host name names files leaf rest entries pem s :
  serves ctx host name names files leaf rest -> (forall e, e ∈ entries -> me_Name e ∈ names) ->
  (forall e, e ∈ entries -> me_Digest e = sha256 (files (me_Name e))) -> Forall (eq (leaf :: rest)) (rn_chains s) ->
  let '(fs, pem', s') := fetch_files cfg ctx host name entries pem s in
  length fs = length entries /\ forallb FileCheck_OK fs = true /\ Forall (eq (leaf :: rest)) (rn_chains s') /\
  (pem = Some (files (certName name)) \/ certName name ∈ map me_Name entries -> pem' = Some (files (certName name))).
Proof.
  intros Hs. revert pem s. induction entries as [|e entries IH]; intros pem s Hn Hd Hc; cbn [fetch_files].
  { split_and!; [done..|]. intros [|Hin]; [done|]. by apply elem_of_nil in Hin. }
  pose proof (fetch_served cfg ctx host name names files leaf rest (me_Name e) s Hs (Hn e ltac:(by left)) Hc) as [Hb Hc1].
  destruct (fetch cfg ctx host (me_Name e) s) as [body s1]. cbn [fst snd] in *. subst body.
  set (pem1 := if String.eqb _ _ then _ else _).
  assert (forall e, e ∈ entries -> me_Name e ∈ names) as Hn' by (intros e' ?; apply Hn; by right).
  assert (forall e, e ∈ entries -> me_Digest e = sha256 (files (me_Name e))) as Hd' by (intros e' ?; apply Hd; by right).
  specialize (IH pem1 s1 Hn' Hd' Hc1).
  destruct (fetch_files cfg ctx host name entries pem1 s1) as [[fs pem'] s2]. destruct IH as (Hl & Hok & Hc2 & Hp).
  split_and!; [cbn; lia| |done|].
  - cbn [forallb]. rewrite Hok, andb_true_r. unfold FileCheck_OK. cbn [fc_Err fc_Got fc_Want]. apply bool_decide_eq_true.
    symmetry. apply Hd. by left.
  - intros Hwhy. apply Hp. destruct (String.eqb_spec (me_Name e) (certName name)) as [En|Hne].
    + left. unfold pem1. by rewrite En.
    + destruct Hwhy as [->|Hin]; [by left|]. cbn [map] in Hin. apply elem_of_cons in Hin as [E|Hin]; [congruence|by right].
Qed.


Lemma cert_served c ctx host name names files leaf rest first others s :
  serves ctx host name names files leaf rest ->
  Forall (eq (leaf :: rest)) (rn_chains s) ->
  parseCertChain (files (certName name)) = Ok (first, others) -> Raw leaf = Raw first ->
  let cert := (checkServedCert c ctx host name (Some (files (certName name))) s).1 in
  cf_Err cert = None /\ cf_Match cert = CertExact.
Proof.
  intros Hs Hc Hp Hraw. unfold checkServedCert. cbn [of_option mbind result_bind]. rewrite Hp.
  assert (cf_Match (judge_cert name (first, others) (leaf :: rest)) = CertExact) as Hexact.
  { cbn. unfold compareCert, cert_Equal. by rewrite bool_decide_true. }
  destruct (rn_chains s) as [|chain chains].
  - cbn [servedChain]. pose proof (sv_dial _ _ _ _ _ _ _ Hs (with_timeout ctx (ev_now (rn_world s)) (ck_limit c)) (rn_world s)) as Hd.
    destruct (tls_dial _ _ _ _) as [o w]. cbn in Hd. subst o. done.
  - apply Forall_cons in Hc as [<- Hc]. cbn [servedChain].
    destruct (existsb _ chains) eqn:Ex; [exfalso|done]. apply existsb_exists in Ex as (x & Hx & E).
    rewrite Forall_forall in Hc. apply list_elem_of_In in Hx. rewrite <-(Hc x Hx) in E. unfold cert_Equal in E. by rewrite bool_decide_true in E.
Qed.


Lemma code_matched c hash (app : CodeIdentity) compose from ac x :
  VerifyAppCompose compose hash = Ok (ac, false) ->
  x ∈ cfg_ExpectComposeFiles (ck_cfg c) -> splitLines (bytes_of (ac_DockerComposeFile ac)) = splitLines (ex_Content x) ->
  (forall y, y ∈ cfg_ExpectComposeFiles (ck_cfg c) -> ex_Label y <> "") ->
  ci_NoSource app = false -> ci_HashErr app = None -> ci_FetchErr app = [] ->
  CodeIdentity_OK (bind_compose (ck_cfg c) compose hash from app) = true.
Proof.
  intros Hv Hx Hd Hl Q1 Q2 Q3. unfold bind_compose. rewrite Hv. unfold CodeIdentity_OK, with_bound.
  cbn [ci_NoSource ci_HashErr ci_BoundErr ci_FetchErr ci_ExpectRequested ci_Expect]. rewrite Q1, Q2, Q3.
  destruct (ci_ExpectRequested app); [|done]. cbn [negb]. unfold MatchCompose. destruct (List.find _ _) as [y|] eqn:Ef.
  - apply List.find_some in Ef as [Hin _]. apply list_elem_of_In, Hl in Hin. apply negb_true_iff. by apply String.eqb_neq.
  - exfalso. apply list_elem_of_In in Hx. pose proof (List.find_none _ _ Ef x Hx) as Hn. cbv beta in Hn. unfold diffComposeFile in Hn.
    by rewrite (proj2 (diff_lines_none 0 _ _) Hd) in Hn.
Qed.

(** C24: an honest deployment passes, where the application's manifest is configured. Let
    the checker's configuration supply the application's manifest and, as the published
    ones to compare with, a list of labelled manifests among which is its compose text.
    Let the endpoint serve, each whole and within the size limit, a bundle whose manifest
    lists the required files with their digests, and present one and the same chain on
    every connection, its leaf the certificate of the bundle; let the bundle's quote parse
    and verify, commit to the bundle's manifest and to the hash of the application's, and
    come from a boot chain on the allowlist. Then the check is carried out and passes. (An
    application's manifest looked up on the cloud or through DNS is not covered.) *)
Theorem honest_deployment_passes c ctx domain host files entries leaf rest compose w :
  normalizeDomain domain = Ok host ->
  serves ctx host (default host (SplitHost host)) (manifestName :: quoteName :: map me_Name entries) files leaf rest ->
  bundled c (default host (SplitHost host)) files entries leaf compose -> cfg_AppCompose (ck_cfg c) = Some compose ->
  exists rep s, Check c ctx domain w = (Ok rep, s) /\ Pass rep = true.
Proof.
  intros Hn Hs Hb Hac. unfold Check. rewrite Hn. set (name := default host (SplitHost host)) in *. set (cfg := ck_cfg c) in *.
  set (names := manifestName :: quoteName :: map me_Name entries) in *.
  destruct (bu_quote _ _ _ _ _ _ Hb) as (raw & m & qb & Hdec & Hparse & Hos & Hqb & Hhash).
  destruct (bu_cert _ _ _ _ _ _ Hb) as (first & others & Hcert & Hraw).
  destruct (bu_compose _ _ _ _ _ _ Hb) as (ac & x & Hv & Hx & Hd & Hlab).
  pose proof (fetch_served cfg ctx host name names files leaf rest manifestName (MkRun w [] []) Hs ltac:(by left)
    ltac:(by constructor)) as [F1 C1].
  destruct (fetch cfg ctx host manifestName _) as [mb s1]. cbn [fst snd] in *. subst mb.
  assert (read_manifest (Ok (files manifestName)) name = Ok (files manifestName, entries)) as ->.
  { unfold read_manifest. cbn [mbind result_bind]. rewrite (bu_entries _ _ _ _ _ _ Hb). cbn [mbind result_bind].
    by rewrite (bu_required _ _ _ _ _ _ Hb). }
  assert (certName name ∈ map me_Name entries) as Hcn.
  { pose proof (bu_required _ _ _ _ _ _ Hb) as Hr. unfold requireEntries in Hr. inv_ok.
    match goal with H : negb (contains _ _) = false |- _ => by apply negb_false_iff, contains_spec in H end. }
  pose proof (fetch_files_served cfg ctx host name names files leaf rest entries None s1 Hs) as Hf.
  destruct (fetch_files cfg ctx host name entries None s1) as [[fs pem] s2].
  destruct Hf as (Hlen & Hok & C2 & Hpem); [|by apply Hb|done|].
  { intros e He. right. right. apply list_elem_of_In, in_map. by apply list_elem_of_In. }
  rewrite Hpem by by right.
  pose proof (fetch_served cfg ctx host name names files leaf rest quoteName s2 Hs ltac:(right; by left) C2) as [F3 C3].
  destruct (fetch cfg ctx host quoteName s2) as [reply s3]. cbn [fst snd] in *. subst reply.
  assert (read_quote (ck_parser c) (files manifestName) (Ok (files quoteName)) =
    MkQuoteFacts None m (EvidenceReportData (files manifestName)) (Ok (qb_MRConfigID qb)) (files quoteName) None) as ->.
  { unfold read_quote. rewrite Hdec. cbn [mbind result_bind]. rewrite Hparse. cbn [map_err mbind result_bind]. rewrite Hqb. cbn [map_err mbind result_bind]. f_equal.
    destruct (evidence_binding (EvidenceReportData (files manifestName)) (files manifestName)) as [Hiff _].
    { unfold EvidenceReportData. by rewrite length_app, sha256_length. }
    by rewrite (proj2 Hiff eq_refl). }
  pose proof (cert_served c ctx host name names files leaf rest first others s3 Hs C3 Hcert Hraw) as [He Hm].
  destruct (checkServedCert c ctx host name _ s3) as [cert s4]. cbn [fst] in He, Hm.
  unfold checkCodeIdentity. cbn [qf_Err qf_MRConfigID qf_Reply qf_Measurement]. rewrite Hhash, Hac.
  destruct (appIDWithoutDNS _ _ _) as [id source]. eexists _, s4. split; [reflexivity|].
  unfold Pass. cbn [rep_ManifestErr rep_Quote rep_Cert rep_Code rep_OSImage rep_Files qf_Err qf_BindingErr is_none].
  rewrite He, Hm, Hos, Hok, Hlen. rewrite (code_matched c _ _ _ _ ac x) by done.
  destruct entries; [by apply elem_of_nil in Hcn|done].
Qed.
End theorems.

(** ** Witnesses *)

Module EvidenceWitness.
#[export] Instance any_url : UrlLib := fun s => Some (MkURL "https" "" false s "" "" false "").
#[export] Instance raw_certs : X509Lib :=
  {| pem_blocks b := [("CERTIFICATE", b)]; ParseCertificate b := Some (MkCert b [] 0 "" "" 0); chain_verifies _ _ _ := true |}.
Definition no_port (s : string) : option string := None.

Definition text : string := "services: {}".
Definition compose : bytes := print (JObj [(bytes_of "name", jstr "gateway"); (bytes_of "docker_compose_file", jstr text)]).
Definition hash : bytes := Eval vm_compute in sha256 compose.
Definition host : string := "gw.test".
Definition cert_file : bytes := bytes_of "the certificate".
Definition leaf : Certificate := MkCert cert_file [] 0 "" "" 0.
Definition account : bytes := bytes_of "{}".
Definition listing : list ManifestEntry :=
  Eval vm_compute in [MkMEntry accountName (sha256 account); MkMEntry (certName host) (sha256 cert_file)].
Definition manifest : bytes := Eval vm_compute in print_manifest listing.
Definition report_data : bytes := Eval vm_compute in EvidenceReportData manifest.

(** A quote whose configuration is [hash] in the clear. *)
Definition config_id : bytes := byte_of 1 :: hash ++ zeros 15.
Definition quote : bytes := zeros mrConfigIDOff ++ config_id ++ zeros (minQuoteLen - mrConfigIDOff - mrConfigIDLen).
Definition quote_reply : bytes := Eval vm_compute in print (JObj [(bytes_of "quote", jhex quote)]).
Definition measured : Measurement :=
  MkMeasurement (repeat "m"%char 48) (zeros 48) (repeat "1"%char 48) (repeat "2"%char 48) (zeros 48).
Definition parser : quoteParser := fun raw => if bool_decide (raw = quote) then Ok (measured, report_data) else Err AEmptyQuote.
Definition image : OSImage := MkOS "dstack-0.5.4" "" (BootChainOf measured).

Definition files (n : string) : bytes :=
  if String.eqb n manifestName then manifest else if String.eqb n quoteName then quote_reply
  else if String.eqb n accountName then account else if String.eqb n (certName host) then cert_file else [].

Definition app_id : string := "00112233445566778899aabbccddeeff00112233".
Definition attestations : bytes := Eval vm_compute in
  print (JObj [(bytes_of "instances", JArr [JObj [(bytes_of "compose_file", jstr (str_of compose))]])]).
(** The connection is dialled by the first request. *)
#[export] Instance endpoint : EvidenceWorld Z := {|
  ev_now w := w;
  endpoint_get _ u w := (if w =? 0 then [[leaf]] else [],
    match List.find (fun n => String.eqb (bundle_url host n) u) [manifestName; quoteName; accountName; certName host] with
    | Some n => Some (MkHttpResponse 200 ∅ (files n) None)
    | None => None
    end, w + 1);
  tls_dial _ _ _ w := (Some [leaf], w);
  platform_get _ u _ w := (Some (MkHttpResponse 200 ∅ attestations None), w);
  LookupTXT _ _ := None;
  LookupCNAME _ _ := None
|}.

Definition published : ExpectedCompose := MkExpected "v1.0.0" (bytes_of text ++ [newline]).
Definition config : Config :=
  MkConfig (Some parser) true 0 (Some compose) "" "" "" false true (Some [image]) [published] true.
Definition checker : Checker := MkChecker config parser defaultTimeout [image].

Lemma passes : match Check no_port checker None host 0 with (Ok rep, _) => Pass rep | _ => false end = true.
Proof. vm_compute. reflexivity. Qed.

(** With an app id given and DNS off, the manifest is found and compared, and the note still
    says that code identity was not checked. *)
Definition pinned : Config :=
  MkConfig (Some parser) true 0 None "" app_id "" false true (Some [image]) [published] true.
Example checked_yet_disclaimed :
  match Check no_port (MkChecker pinned parser defaultTimeout [image]) None host 0 with
  | (Ok rep, _) => (Pass rep, ci_Expect (rep_Code rep), rep_Note rep)
  | _ => (false, None, [])
  end = (true, Some (Ok "v1.0.0"), [noteNoCodeIdentity]).
Proof. vm_compute. reflexivity. Qed.
End EvidenceWitness.

Section witnesses.
Import EvidenceWitness.

Lemma passed : exists rep s, Check no_port checker None host 0 = (Ok rep, s) /\ Pass rep = true.
Proof. pose proof passes as H. destruct (Check no_port checker None host 0) as [[rep|] s]; [by exists rep, s|done]. Qed.

Lemma endpoint_attested_witness : exists rep s m0,
  Check no_port checker None host 0 = (Ok rep, s) /\ Pass rep = true /\
  answered s (bundle_url host manifestName) m0 /\ exists e rd, parseManifest m0 = Ok e /\ VerifyEvidenceReportData rd m0 = Ok tt.
Proof.
  destruct passed as (rep & s & Hc & Hp). exists rep, s.
  destruct (endpoint_attested no_port checker None host 0 rep s Hc Hp)
    as (h & m0 & entries & pem & first & others & l & body & raw & m & rd & Hn & Ha & He & _ & _ & _ & _ & Hv & _).
  exists m0. assert (h = host) as -> by (vm_compute in Hn; by injection Hn as <-).
  refine (conj Hc (conj Hp (conj Ha _))). exists entries, rd. exact (conj He Hv).
Defined.

Lemma published_or_said_witness : exists rep s,
  Check no_port checker None host 0 = (Ok rep, s) /\ Pass rep = true /\
  (exists h raw ac x, bound_to (rep_Quote rep) h /\ VerifyAppCompose raw h = Ok (ac, false) /\ sha256 raw = h /\
     x ∈ cfg_ExpectComposeFiles config /\ splitLines (bytes_of (ac_DockerComposeFile ac)) = splitLines (ex_Content x)).
Proof.
  destruct passed as (rep & s & Hc & Hp). exists rep, s. refine (conj Hc (conj Hp _)).
  destruct (published_or_said no_port checker None host 0 rep s Hc Hp) as [Hpub _]. apply Hpub. left. split; [reflexivity|discriminate].
Defined.

Lemma honest_deployment_passes_witness : exists rep s, Check no_port checker None host 5 = (Ok rep, s) /\ Pass rep = true.
Proof.
  apply (honest_deployment_passes no_port checker None host host files listing leaf [] compose 5).
  - vm_compute. reflexivity.
  - split.
    + intros n _. by eexists.
    + intros n w Hn. eexists _, ∅, _. cbn [endpoint_get endpoint].
      assert (List.find (fun n0 => String.eqb (bundle_url host n0) (bundle_url host n))
                [manifestName; quoteName; accountName; certName host] = Some n) as ->.
      { repeat (apply elem_of_cons in Hn as [->|Hn]; [vm_compute; reflexivity|]). by apply elem_of_nil in Hn. }
      split; [|reflexivity]. destruct (w =? 0); by repeat constructor.
    + done.
    + intros n Hn. repeat (apply elem_of_cons in Hn as [->|Hn]; [vm_compute; discriminate|]). by apply elem_of_nil in Hn.
  - split.
    + vm_compute. reflexivity.
    + vm_compute. reflexivity.
    + intros e Hn. repeat (apply elem_of_cons in Hn as [->|Hn]; [vm_compute; reflexivity|]). by apply elem_of_nil in Hn.
    + exists quote, measured. eexists. split_and!; vm_compute; reflexivity.
    + exists leaf, []. split; vm_compute; reflexivity.
    + exists (MkApp "gateway" text []), published. split_and!; [vm_compute; reflexivity|by left|vm_compute; reflexivity|].
      intros y Hy%list_elem_of_singleton. by subst y.
  - reflexivity.
Defined.
End witnesses.
