(* ===== verification/Identity.v ===== *)
(** * Identity: what the process remembers of the providers it verified
    ([client/route/provideridentity.go], the store)

    [identityStore] keeps one record per provider, written by two parties: a served
    request, and a sweep of the warmer, which gives way to a served record of another
    endpoint ([shieldedFrom]). Records lapse, and the store is bounded against a router
    that invents addresses. Every method runs under the store's mutex, so what goroutines
    do to it is a sequence of operations at their times ([history]); the order in which Go
    ranges over a map is the argument [range].

    The theorems: the store stays within its bound; a read returns the record written last
    for that provider, however its address is spelled, within its time and with nothing
    since that speaks against it; and such a record is found as long as fewer other
    providers than the store holds were written since. *)

From S2P Require Import Prelude GoBytes Walk Chain Ground.

Definition providerIdentityTTL : Z := 5 * Minute.
Definition maxProviderIdentities : Z := 1024.

Record identityEntry := MkIdEntry { ie_id : ProviderIdentity; ie_exp : Z; ie_served : bool }.
Record identityStore := MkIdStore { is_ttl : Z; is_max : Z; is_m : gmap string identityEntry }.

Definition shieldedFrom (e : identityEntry) (quoteURL : string) (now : Z) : bool :=
  ie_served e && (now <? ie_exp e) && negb (String.eqb (id_QuoteURL (ie_id e)) quoteURL).

Definition newIdentityStore (ttl max : Z) : identityStore :=
  MkIdStore ttl (if max <=? 0 then maxProviderIdentities else max) ∅.

Definition with_entries (m : gmap string identityEntry) (s : identityStore) : identityStore :=
  MkIdStore (is_ttl s) (is_max s) m.

Section store.
(** The order of Go's [range] over the map. *)
Context (range : gmap string identityEntry -> list (string * identityEntry)).

(** The oldest entry so far, "" before the first. *)
Definition older (acc : string * Z) (kv : string * identityEntry) : string * Z :=
  if String.eqb acc.1 "" || (ie_exp kv.2 <? acc.2) then (kv.1, ie_exp kv.2) else acc.
Definition oldest (m : gmap string identityEntry) : string := (fold_left older (range m) ("", 0)).1.

Definition makeRoomLocked (max now : Z) (m : gmap string identityEntry) : gmap string identityEntry :=
  let m := filter (fun kv => ~ ie_exp kv.2 < now) m in
  if Z.of_nat (size m) <? max then m else delete (oldest m) m.

(** A nil store records nowhere. *)
Definition record (now : Z) (id : ProviderIdentity) (served : bool) (s : option identityStore) : option identityStore :=
  let key := ProviderKey (id_Address id) in
  match s with
  | None => None
  | Some s =>
      Some (if String.eqb key "" || (is_ttl s <=? 0) then s
            else
              let replacing := is_m s !! key in
              if negb served && match replacing with
                                | Some cur => shieldedFrom cur (id_QuoteURL id) now
                                | None => false
                                end then s
              else
                let m := match replacing with
                         | None => if is_max s <=? Z.of_nat (size (is_m s)) then makeRoomLocked (is_max s) now (is_m s) else is_m s
                         | Some _ => is_m s
                         end in
                with_entries (<[key := MkIdEntry id (now + is_ttl s) served]> m) s)
  end.
Definition put (now : Z) (id : ProviderIdentity) (s : option identityStore) := record now id true s.
Definition putWarmed (now : Z) (id : ProviderIdentity) (s : option identityStore) := record now id false s.

Definition delWarmed (now : Z) (address quoteURL : string) (s : option identityStore) : option identityStore :=
  let key := ProviderKey address in
  match s with
  | None => None
  | Some s =>
      Some (if String.eqb key "" then s
            else match is_m s !! key with
                 | Some cur => if shieldedFrom cur quoteURL now then s else with_entries (delete key (is_m s)) s
                 | None => s
                 end)
  end.

Definition identity_get (now : Z) (address : string) (s : option identityStore) : option ProviderIdentity * option identityStore :=
  let key := ProviderKey address in
  match s with
  | None => (None, None)
  | Some s =>
      if String.eqb key "" then (None, Some s)
      else match is_m s !! key with
           | None => (None, Some s)
           | Some e => if ie_exp e <? now then (None, Some (with_entries (delete key (is_m s)) s))
                       else (Some (ie_id e), Some s)
           end
  end.

(** What goroutines do to the store. *)
Inductive idop :=
| Put (id : ProviderIdentity)
| PutWarmed (id : ProviderIdentity)
| DelWarmed (address quoteURL : string)
| Get (address : string).
Definition id_step (now : Z) (op : idop) (s : option identityStore) : option identityStore :=
  match op with
  | Put id => put now id s
  | PutWarmed id => putWarmed now id s
  | DelWarmed address url => delWarmed now address url s
  | Get address => (identity_get now address s).2
  end.
Definition history := list (Z * idop).
Definition id_run (h : history) (s : option identityStore) : option identityStore :=
  fold_left (fun s o => id_step o.1 o.2 s) h s.

(** ** What a history says of a provider *)

(** The record an operation writes, and whether a request wrote it. *)
Definition written (op : idop) : option (ProviderIdentity * bool) :=
  match op with Put id => Some (id, true) | PutWarmed id => Some (id, false) | _ => None end.
Definition op_key (op : idop) : string :=
  ProviderKey match op with Put id | PutWarmed id => id_Address id | DelWarmed a _ | Get a => a end.

(** An operation at [now] ends the record [id], written at [t0] for [ttl]: a later request
    to the same provider does, and a later sweep does unless the record is a request's, has
    not lapsed and is of another endpoint. *)
Definition ends (ttl t0 : Z) (id : ProviderIdentity) (served : bool) (now : Z) (op : idop) : bool :=
  let sweep url := negb (served && (now <? t0 + ttl) && negb (String.eqb (id_QuoteURL id) url)) in
  String.eqb (op_key op) (ProviderKey (id_Address id)) &&
  match op with
  | Put _ => true
  | PutWarmed id' => sweep (id_QuoteURL id')
  | DelWarmed _ url => sweep url
  | Get _ => false
  end.

(** [id] is what [h] says of its provider, since [t0]. *)
Definition stands (ttl t0 : Z) (id : ProviderIdentity) (served : bool) (h : history) : Prop :=
  exists before op later, h = before ++ (t0, op) :: later /\ written op = Some (id, served) /\
    Forall (fun o => ends ttl t0 id served o.1 o.2 = false) later.

Definition any_order : Prop := forall m, range m ≡ₚ map_to_list m.
Hypothesis Horder : any_order.

(** ** The bound *)

Lemma oldest_in l acc : Forall (fun kv => kv.1 <> "") l -> l <> [] \/ acc.1 <> "" ->
  let k := fold_left older l acc in
  (k = acc \/ exists e, (k.1, e) ∈ l /\ k.2 = ie_exp e) /\ k.1 <> "" /\
  (acc.1 <> "" -> k.2 <= acc.2) /\ forall kv, kv ∈ l -> k.2 <= ie_exp kv.2.
Proof.
  revert acc. induction l as [|[key e] l IH]; intros acc Hk Hne.
  { cbn. destruct Hne as [|Hne]; [done|]. split_and!; [by left|done|lia|]. intros kv Hin. by apply elem_of_nil in Hin. }
  apply Forall_cons in Hk as [Hkey Hk]. cbn [fst] in Hkey. cbn [fold_left].
  set (acc' := older acc (key, e)).
  assert (acc'.1 <> "" /\ acc'.2 <= ie_exp e /\ (acc.1 <> "" -> acc'.2 <= acc.2) /\ (acc' = acc \/ acc' = (key, ie_exp e))) as (A1 & A2 & A3 & A4).
  { unfold acc', older. cbn [fst snd]. destruct (String.eqb_spec acc.1 "") as [E|E]; cbn [orb].
    - split_and!; [done|cbn; lia|done|by right].
    - destruct (Z.ltb_spec (ie_exp e) acc.2); cbn; split_and!; try done; try lia; try (by right); by left. }
  destruct (IH acc' Hk (or_intror A1)) as (B1 & B2 & B3 & B4). specialize (B3 A1).
  split_and!; [|done| |].
  - destruct B1 as [->|(e' & Hin & E)].
    + destruct A4 as [->|E]; [by left|]. right. rewrite E. exists e. split; [left|done].
    + right. exists e'. split; [by right|done].
  - intros Ha. specialize (A3 Ha). lia.
  - intros kv [->|Hin]%elem_of_cons; [cbn; lia|by apply B4].
Qed.

Lemma in_range m k e : (k, e) ∈ range m <-> m !! k = Some e.
Proof. pose proof (Horder m : _ ≡ₚ _) as Hp. by rewrite Hp, elem_of_map_to_list. Qed.

Lemma oldest_spec m : m !! "" = None -> m <> ∅ ->
  exists e, m !! oldest m = Some e /\ forall k e', m !! k = Some e' -> ie_exp e <= ie_exp e'.
Proof.
  intros Hempty Hne. unfold oldest.
  destruct (oldest_in (range m) ("", 0)) as (B1 & B2 & _ & B4).
  - apply Forall_forall. intros [k e] Hin%in_range. cbn. congruence.
  - left. intros E. pose proof (Horder m : _ ≡ₚ _) as Hp. rewrite E in Hp. apply Permutation_nil_l in Hp.
    by apply Hne, map_to_list_empty_iff.
  - destruct B1 as [E|(e & Hin & E)]; [destruct B2; by rewrite E|]. apply in_range in Hin.
    exists e. split; [done|]. intros k e' Hl. rewrite <-E. apply (B4 (k, e')). by apply in_range.
Qed.

Lemma makeRoom_some max now m key e : makeRoomLocked max now m !! key = Some e -> m !! key = Some e /\ now <= ie_exp e.
Proof.
  unfold makeRoomLocked. intros Hl.
  assert (filter (fun kv : string * identityEntry => ~ ie_exp kv.2 < now) m !! key = Some e) as Hf.
  { destruct (_ <? _); [done|]. by apply lookup_delete_Some in Hl as [_ Hl]. }
  apply map_lookup_filter_Some in Hf as [? ?]. split; [done|]. cbn in *. lia.
Qed.

Lemma makeRoom_size max now m : m !! "" = None -> 0 < max -> Z.of_nat (size m) <= max ->
  Z.of_nat (size (makeRoomLocked max now m)) < max.
Proof.
  intros He Hmax Hs. unfold makeRoomLocked. set (f := filter _ m).
  assert (f ⊆ m) as Hsub by apply map_filter_subseteq.
  pose proof (map_subseteq_size _ _ Hsub). destruct (Z.ltb_spec (Z.of_nat (size f)) max) as [|Hge]; [done|].
  destruct (oldest_spec f) as (e & Hl & _).
  - destruct (f !! "") as [e|] eqn:E; [|done]. eapply lookup_weaken in E; [|exact Hsub]. congruence.
  - intros E. rewrite E, map_size_empty in Hge. lia.
  - rewrite map_size_delete_Some by (eexists; exact Hl).
    assert (size f <> 0)%nat by lia. lia.
Qed.

(** ** Steps *)

(** An operation that leaves an entry of its own key where it is. *)
Definition spares (e : identityEntry) (now : Z) (op : idop) : bool :=
  match op with
  | Put _ => false
  | PutWarmed id => shieldedFrom e (id_QuoteURL id) now
  | DelWarmed _ url => shieldedFrom e url now
  | Get _ => true
  end.

Lemma ends_spares ttl t0 e now op : ie_exp e = t0 + ttl -> op_key op = ProviderKey (id_Address (ie_id e)) ->
  ends ttl t0 (ie_id e) (ie_served e) now op = negb (spares e now op).
Proof.
  intros He Hk. unfold ends. rewrite Hk, String.eqb_refl. unfold spares, shieldedFrom. rewrite He.
  destruct op; reflexivity.
Qed.

(** Where an entry of the store after a step comes from. *)
Inductive came_from (now : Z) (op : idop) (s : identityStore) (key : string) (e : identityEntry) : Prop :=
| from_before : is_m s !! key = Some e -> (op_key op = key -> spares e now op = true) -> came_from now op s key e
| from_write id served : written op = Some (id, served) -> key = op_key op -> e = MkIdEntry id (now + is_ttl s) served ->
    came_from now op s key e.

Record sound (s : identityStore) : Prop := {
  so_key : is_m s !! "" = None;
  so_max : 0 < is_max s;
  so_size : Z.of_nat (size (is_m s)) <= is_max s;
  so_ttl : is_ttl s <= 0 -> is_m s = ∅
}.
Record stepped (now : Z) (op : idop) (s s' : identityStore) : Prop := {
  sp_ttl : is_ttl s' = is_ttl s;
  sp_max : is_max s' = is_max s;
  sp_sound : sound s';
  sp_from key e : is_m s' !! key = Some e -> came_from now op s key e
}.

Lemma stepped_same now op s : sound s -> (forall e, is_m s !! op_key op = Some e -> spares e now op = true) -> stepped now op s s.
Proof. intros Hs Hk. split; [done..|]. intros key e He. apply from_before; [done|]. intros <-. by apply Hk. Qed.

Lemma delete_sound key s : sound s -> sound (with_entries (delete key (is_m s)) s).
Proof.
  intros [S1 S2 S3 S4]. split; cbn.
  - by apply lookup_delete_None; right.
  - done.
  - pose proof (map_subseteq_size _ _ (delete_subseteq (is_m s) key)). lia.
  - intros Ht. rewrite (S4 Ht). apply delete_empty.
Qed.

Lemma stepped_delete now op s : sound s -> stepped now op s (with_entries (delete (op_key op) (is_m s)) s).
Proof.
  intros Hs. split; [done|done|by apply delete_sound|]. cbn. intros key e [Hne He]%lookup_delete_Some.
  by apply from_before.
Qed.

Lemma record_stepped now op s id served : sound s -> written op = Some (id, served) ->
  exists s', record now id served (Some s) = Some s' /\ stepped now op s s'.
Proof.
  intros Hs Hw. assert (op_key op = ProviderKey (id_Address id)) as Hk by (destruct op; cbn in Hw; simplify_eq; done).
  cbn [record]. set (key := ProviderKey (id_Address id)) in *. eexists. split; [reflexivity|].
  destruct Hs as [S1 S2 S3 S4].
  destruct (String.eqb_spec key "") as [E|E]; cbn [orb].
  { apply stepped_same; [done|]. rewrite Hk, E. intros e He. congruence. }
  destruct (Z.leb_spec (is_ttl s) 0) as [Ht|Ht].
  { apply stepped_same; [done|]. rewrite (S4 Ht). done. }
  destruct (negb served && _) eqn:Esh.
  { apply andb_true_iff in Esh as [E1 E2]. apply stepped_same; [done|]. rewrite Hk. intros e He. rewrite He in E2.
    destruct op; cbn in Hw; simplify_eq. done. }
  set (m := match is_m s !! key with Some _ => _ | None => _ end).
  assert (forall k e, m !! k = Some e -> is_m s !! k = Some e) as Hsub.
  { unfold m. intros k e. destruct (is_m s !! key); [done|]. destruct (_ <=? _); [|done].
    intros Hl. by apply makeRoom_some in Hl as [Hl _]. }
  split; [done|done| |].
  - split; cbn [is_m is_max is_ttl with_entries]; [|done| |lia].
    + rewrite lookup_insert_ne by done. destruct (m !! "") as [e|] eqn:El; [|done]. apply Hsub in El. congruence.
    + rewrite map_size_insert. destruct (m !! key) as [e|] eqn:El.
      * unfold m in El |- *. destruct (is_m s !! key); [done|]. destruct (_ <=? _); [|done].
        cbn. pose proof (makeRoom_size (is_max s) now _ S1 S2 S3). lia.
      * unfold m in El |- *. destruct (is_m s !! key) eqn:E0; [congruence|].
        destruct (Z.leb_spec (is_max s) (Z.of_nat (size (is_m s)))); [|lia].
        pose proof (makeRoom_size (is_max s) now _ S1 S2 S3). lia.
  - cbn [is_m with_entries]. intros k e He. destruct (decide (k = key)) as [->|Hne].
    + rewrite lookup_insert in He. rewrite decide_True in He by done. injection He as <-. by eapply from_write.
    + rewrite lookup_insert_ne in He by done. apply from_before; [by apply Hsub|]. rewrite Hk. congruence.
Qed.

Lemma step_stepped now op s : sound s -> exists s', id_step now op (Some s) = Some s' /\ stepped now op s s'.
Proof.
  intros Hs. destruct op as [id|id|address url|address].
  - by apply record_stepped.
  - by apply record_stepped.
  - assert (op_key (DelWarmed address url) = ProviderKey address) as Hk by done.
    cbn [id_step delWarmed]. cbv zeta. eexists. split; [reflexivity|]. destruct (String.eqb_spec (ProviderKey address) "") as [E|E].
    { apply stepped_same; [done|]. rewrite Hk, E, (so_key _ Hs). done. }
    destruct (is_m s !! ProviderKey address) as [cur|] eqn:El.
    + destruct (shieldedFrom cur url now) eqn:Esh.
      * apply stepped_same; [done|]. rewrite Hk, El. intros e [= ->]. done.
      * by apply (stepped_delete now (DelWarmed address url)).
    + apply stepped_same; [done|]. rewrite Hk. by rewrite El.
  - cbn [id_step identity_get]. cbv zeta. destruct (String.eqb_spec (ProviderKey address) ""); [eexists; split; [reflexivity|by apply stepped_same]|].
    destruct (is_m s !! ProviderKey address) as [e|]; [|eexists; split; [reflexivity|by apply stepped_same]].
    destruct (_ <? now); (eexists; split; [reflexivity|]); [|by apply stepped_same].
    by apply (stepped_delete now (Get address)).
Qed.

Lemma new_sound ttl max : sound (newIdentityStore ttl max).
Proof. split; cbn; [done| |rewrite map_size_empty|done]; destruct (Z.leb_spec max 0); unfold maxProviderIdentities; lia. Qed.

Lemma id_run_snoc h o s : id_run (h ++ [o]) s = id_step o.1 o.2 (id_run h s).
Proof. unfold id_run. by rewrite fold_left_app. Qed.

Lemma stands_snoc ttl t0 id served h now op : stands ttl t0 id served h -> ends ttl t0 id served now op = false ->
  stands ttl t0 id served (h ++ [(now, op)]).
Proof.
  intros (b & o & l & -> & Hw & Hf) He. exists b, o, (l ++ [(now, op)]).
  split_and!; [by rewrite <-app_assoc|done|]. apply Forall_app. split; [done|]. by constructor.
Qed.

(** A property of every record held, which the operations keep. *)
Definition all_held (P : ProviderIdentity -> Prop) (s : option identityStore) : Prop :=
  forall st key e, s = Some st -> is_m st !! key = Some e -> P (ie_id e).

Lemma all_held_record P now id served s : all_held P s -> P id -> all_held P (record now id served s).
Proof.
  destruct s as [s|]; [|done]. intros Hs Hid st key e [= <-]. cbv zeta.
  destruct (_ || _); [by apply Hs|]. destruct (_ && _); [by apply Hs|]. cbn [is_m with_entries].
  rewrite lookup_insert_Some. intros [[_ <-]|[_ Hl]]; [done|]. eapply Hs; [done|].
  destruct (is_m s !! _); [exact Hl|]. destruct (_ <=? _); [|exact Hl]. by eapply makeRoom_some in Hl as [Hl _].
Qed.
Lemma all_held_delete P key s : all_held P (Some s) -> all_held P (Some (with_entries (delete key (is_m s)) s)).
Proof. intros Hs st k e [= <-] Hl. cbn [is_m with_entries] in Hl. apply lookup_delete_Some in Hl as [_ Hl]. by eapply Hs. Qed.
Lemma all_held_del P now address url s : all_held P s -> all_held P (delWarmed now address url s).
Proof.
  destruct s as [s|]; [|done]. intros Hs. cbn [delWarmed]. destruct (String.eqb _ _); [done|].
  destruct (is_m s !! _) as [e|]; [|done]. destruct (shieldedFrom _ _ _); [done|by apply all_held_delete].
Qed.
Lemma all_held_get P now address s : all_held P s ->
  all_held P (identity_get now address s).2 /\ forall id, (identity_get now address s).1 = Some id -> P id.
Proof.
  destruct s as [s|]; [|done]. intros Hs. unfold identity_get. cbv zeta. destruct (String.eqb _ _); [done|].
  destruct (is_m s !! _) as [e|] eqn:El; [|done]. destruct (_ <? _); cbn [fst snd]; (split; [|done || intros id [= <-]; by eapply Hs]).
  - by apply all_held_delete.
  - done.
Qed.

(** Every entry is a record that stands. *)
Record remembers (h : history) (s : identityStore) : Prop := {
  rm_sound : sound s;
  rm_entry key e : is_m s !! key = Some e -> exists t0, ie_exp e = t0 + is_ttl s /\
    ProviderKey (id_Address (ie_id e)) = key /\ stands (is_ttl s) t0 (ie_id e) (ie_served e) h
}.

Lemma run_remembers h ttl max : exists s, id_run h (Some (newIdentityStore ttl max)) = Some s /\
  is_ttl s = ttl /\ is_max s = is_max (newIdentityStore ttl max) /\ remembers h s.
Proof.
  induction h as [|[now op] h IH] using rev_ind.
  { eexists. split; [reflexivity|]. split_and!; [done|done|]. split; [apply new_sound|]. done. }
  destruct IH as (s & Hr & Ht & Hm & [Hs He]). rewrite id_run_snoc, Hr.
  destruct (step_stepped now op s Hs) as (s' & Hst & [T M S F]). exists s'. split_and!; [done|congruence|congruence|].
  split; [done|]. intros key e Hl. rewrite T. destruct (F key e Hl) as [Hb Hsp|id served Hw Hk ->].
  - destruct (He key e Hb) as (t0 & E & Hk & Hst0). exists t0. split_and!; [done|done|]. apply stands_snoc; [done|].
    destruct (decide (op_key op = key)) as [E'|Hne].
    + rewrite (ends_spares _ _ _ _ _ E) by congruence. by rewrite (Hsp E').
    + unfold ends. by rewrite Hk, (proj2 (String.eqb_neq _ _) Hne).
  - exists now. cbn. split_and!; [done| |].
    + rewrite Hk. by destruct op; cbn in Hw; simplify_eq.
    + exists h, op, []. by split_and!.
Qed.

(** C25: a read is honest, and the store is bounded. After any history of requests, sweeps
    and reads, the store holds no more records than its bound; and if a read of an address
    returns a record, then it was written for that address, whatever its spelling, no longer
    than the time to live ago, and nothing since speaks against it: no later request to
    that provider, and no later sweep of it, except of another endpoint while the record of
    a request had not lapsed. *)
Theorem identity_honest h ttl max now address id :
  exists s, id_run h (Some (newIdentityStore ttl max)) = Some s /\
  Z.of_nat (size (is_m s)) <= (if max <=? 0 then maxProviderIdentities else max) /\
  ((identity_get now address (Some s)).1 = Some id ->
   exists t0 served, ProviderKey (id_Address id) = ProviderKey address /\ now <= t0 + ttl /\ stands ttl t0 id served h).
Proof.
  destruct (run_remembers h ttl max) as (s & Hr & Ht & Hm & [Hs He]). exists s. split_and!; [done| |].
  - pose proof (so_size _ Hs). rewrite Hm in *. done.
  - cbn. destruct (String.eqb _ _); [done|]. destruct (is_m s !! ProviderKey address) as [e|] eqn:El; [|done].
    destruct (Z.ltb_spec (ie_exp e) now) as [|Hnow]; [done|]. intros [= <-].
    destruct (He _ _ El) as (t0 & E & Hk & Hst). rewrite Ht in *. exists t0, (ie_served e). split_and!; [done|lia|done].
Qed.

(** ** What it takes to lose a record *)

(** The other providers written at [t0] or since. *)
Definition rivals (t0 : Z) (key : string) (h : history) : gset string :=
  list_to_set (map (fun o => op_key o.2)
    (List.filter (fun o => (t0 <=? o.1) && match written o.2 with Some _ => true | None => false end
                           && negb (String.eqb (op_key o.2) key)) h)).

Lemma elem_of_rivals t0 key h k : k ∈ rivals t0 key h <->
  exists t op, (t, op) ∈ h /\ t0 <= t /\ is_Some (written op) /\ op_key op = k /\ k <> key.
Proof.
  unfold rivals. rewrite elem_of_list_to_set, list_elem_of_In, in_map_iff. split.
  - intros ([t op] & <- & [Hin Hf]%filter_In). cbn [fst snd] in *. apply list_elem_of_In in Hin.
    rewrite !andb_true_iff in Hf. destruct Hf as [[Ht Hw] Hk]. exists t, op.
    split_and!; [done|lia|by destruct (written op)|done|]. by apply negb_true_iff, String.eqb_neq in Hk.
  - intros (t & op & Hin & Ht & [w Hw] & Hk & Hne). exists (t, op). split; [done|]. apply filter_In.
    cbn [fst snd]. rewrite Hw, Hk, (proj2 (String.eqb_neq _ _) Hne). split; [by apply list_elem_of_In|]. lia.
Qed.

Lemma rivals_app t0 key h h' : rivals t0 key h ⊆ rivals t0 key (h ++ h').
Proof. intros k. rewrite !elem_of_rivals. intros (t & op & Hin & H). exists t, op. rewrite elem_of_app. tauto. Qed.

(** Making room spares an entry while fewer rivals than places were written since. *)
Lemma makeRoom_keeps h s t0 now op e : remembers h s -> is_m s !! ProviderKey (id_Address (ie_id e)) = Some e ->
  ie_exp e = t0 + is_ttl s -> now <= ie_exp e -> t0 <= now -> is_Some (written op) -> is_m s !! op_key op = None ->
  Z.of_nat (size (rivals t0 (ProviderKey (id_Address (ie_id e))) (h ++ [(now, op)]))) < is_max s ->
  makeRoomLocked (is_max s) now (is_m s) !! ProviderKey (id_Address (ie_id e)) = Some e.
Proof.
  set (key := ProviderKey _). intros [Hs He] Hl Hexp Hn H0 Hw Hnew Hfew. unfold makeRoomLocked.
  set (f := filter _ _). assert (f !! key = Some e) as Hf by (apply map_lookup_filter_Some; cbn; split; [done|lia]).
  destruct (Z.ltb_spec (Z.of_nat (size f)) (is_max s)) as [|Hfull]; [done|].
  assert (f ⊆ is_m s) as Hsub by apply map_filter_subseteq.
  destruct (oldest_spec f) as (e' & Ho & Hold).
  - destruct (f !! "") as [x|] eqn:E; [|done]. eapply lookup_weaken in E; [|exact Hsub]. rewrite (so_key _ Hs) in E. done.
  - intros E. rewrite E, lookup_empty in Hf. done.
  - rewrite lookup_delete_ne; [done|]. intros Heq. rewrite Heq, Hf in Ho. injection Ho as <-.
    assert ({[op_key op]} ∪ dom (delete key f) ⊆ rivals t0 key (h ++ [(now, op)])) as Hin.
    { intros k [->%elem_of_singleton|Hk]%elem_of_union; apply elem_of_rivals.
      - exists now, op. split_and!; [set_solver|done|done|done|]. intros E. rewrite E in Hnew. congruence.
      - apply elem_of_dom in Hk as [x [Hne Hx]%lookup_delete_Some]. specialize (Hold _ _ Hx).
        destruct (He k x (lookup_weaken _ _ _ _ Hx Hsub)) as (te & E & Hk & b & ow & l & -> & Hwr & _).
        exists te, ow. split_and!; [set_solver|lia|by eexists| |done].
        rewrite <-Hk. destruct ow; cbn in Hwr; simplify_eq; done. }
    apply subseteq_size in Hin. rewrite size_union, size_singleton, size_dom, map_size_delete_Some in Hin; [|by eexists|].
    + assert (size f <> 0)%nat by (apply map_size_ne_0_lookup; eauto). lia.
    + intros k ->%elem_of_singleton [x [_ Hx]%lookup_delete_Some]%elem_of_dom.
      eapply lookup_weaken in Hx; [|exact Hsub]. congruence.
Qed.

Lemma step_keeps h s t0 now op e : remembers h s -> is_m s !! ProviderKey (id_Address (ie_id e)) = Some e ->
  ie_exp e = t0 + is_ttl s -> now <= ie_exp e -> t0 <= now -> ends (is_ttl s) t0 (ie_id e) (ie_served e) now op = false ->
  Z.of_nat (size (rivals t0 (ProviderKey (id_Address (ie_id e))) (h ++ [(now, op)]))) < is_max s ->
  exists s', id_step now op (Some s) = Some s' /\ is_m s' !! ProviderKey (id_Address (ie_id e)) = Some e.
Proof.
  set (key := ProviderKey (id_Address (ie_id e))). intros Hr Hl Hexp Hn H0 He Hfew.
  destruct (decide (op_key op = key)) as [Hk|Hk].
  - rewrite (ends_spares _ _ _ _ _ Hexp Hk) in He. apply negb_false_iff in He.
    destruct op as [id|id|a url|a]; cbn [spares] in He; [done|..].
    + change (op_key _) with (ProviderKey (id_Address id)) in Hk. rewrite <-Hk in Hl |- *. eexists. split; [reflexivity|].
      cbv zeta. destruct (_ || _); [done|]. by rewrite Hl, He.
    + change (op_key _) with (ProviderKey a) in Hk. rewrite <-Hk in Hl |- *. eexists. split; [reflexivity|].
      destruct (String.eqb _ _); [done|]. by rewrite Hl, He.
    + change (op_key _) with (ProviderKey a) in Hk. rewrite <-Hk in Hl |- *. exists s. split; [|done].
      unfold id_step, identity_get. destruct (String.eqb _ _); [done|]. rewrite Hl.
      destruct (Z.ltb_spec (ie_exp e) now); [lia|done].
  - assert (forall id served, written op = Some (id, served) -> exists s', record now id served (Some s) = Some s' /\ is_m s' !! key = Some e) as Hrec.
    { intros id served Hw. assert (op_key op = ProviderKey (id_Address id)) as Ho by (destruct op; cbn in Hw; simplify_eq; done).
      eexists. split; [reflexivity|]. cbv zeta. rewrite <-Ho. destruct (_ || _); [done|]. destruct (_ && _); [done|].
      cbn [is_m with_entries]. rewrite lookup_insert_ne by done. destruct (is_m s !! op_key op) eqn:Enew; [done|].
      destruct (_ <=? _); [|done]. by eapply makeRoom_keeps. }
    destruct op as [id|id|a url|a]; [by apply Hrec|by apply Hrec| |]; change (op_key _) with (ProviderKey a) in Hk.
    + eexists. split; [reflexivity|]. destruct (String.eqb _ _); [done|].
      destruct (is_m s !! ProviderKey a) as [x|]; [|done]. destruct (shieldedFrom _ _ _); [done|]. cbn. by rewrite lookup_delete_ne.
    + unfold id_step, identity_get. cbv zeta. destruct (String.eqb _ _); [by eexists|].
      destruct (is_m s !! ProviderKey a) as [x|]; [|by eexists]. destruct (_ <? _); [|by eexists].
      eexists. split; [reflexivity|]. cbn. by rewrite lookup_delete_ne.
Qed.

(** A record is found. If a provider was verified, with nothing at that time that
    shields an earlier record from it, then reading its address within the time to live
    finds the record, unless something since speaks against it or as many other providers
    were written since as the store holds: a router that invents addresses has to have them
    all verified first. *)
Theorem identity_kept ttl max before t0 op id served later now address :
  0 < ttl -> written op = Some (id, served) -> ProviderKey (id_Address id) = ProviderKey address -> ProviderKey address <> "" ->
  StronglySorted Z.le (map fst (before ++ (t0, op) :: later) ++ [now]) -> now <= t0 + ttl ->
  (served = true \/ forall t' id', stands ttl t' id' true before -> ProviderKey (id_Address id') = ProviderKey address ->
     t' + ttl <= t0 \/ id_QuoteURL id' = id_QuoteURL id) ->
  Forall (fun o => ends ttl t0 id served o.1 o.2 = false) later ->
  Z.of_nat (size (rivals t0 (ProviderKey address) (before ++ (t0, op) :: later))) < (if max <=? 0 then maxProviderIdentities else max) ->
  exists s, id_run (before ++ (t0, op) :: later) (Some (newIdentityStore ttl max)) = Some s /\
  (identity_get now address (Some s)).1 = Some id.
Proof.
  intros Httl Hw Haddr Hne Hsort Hnow Hfree Hf Hfew. rewrite <-Haddr in Hfew.
  set (e := MkIdEntry id (t0 + ttl) served).
  assert (exists s, id_run (before ++ (t0, op) :: later) (Some (newIdentityStore ttl max)) = Some s /\
            is_m s !! ProviderKey (id_Address id) = Some e) as (s & Hr & Hl).
  2:{ exists s. split; [done|]. cbn. rewrite <-Haddr, Hl. cbn.
      destruct (String.eqb_spec (ProviderKey (id_Address id)) ""); [congruence|]. destruct (Z.ltb_spec (t0 + ttl) now); [lia|done]. }
  assert (Forall (fun o : Z * idop => t0 <= o.1 <= now) later) as Htimes.
  { clear -Hsort. rewrite map_app in Hsort. cbn in Hsort. rewrite <-app_assoc in Hsort.
    apply StronglySorted_app in Hsort as (_ & _ & Hsort). cbn in Hsort. apply StronglySorted_inv in Hsort as [Hs H0].
    apply StronglySorted_app in Hs as (Hcross & _ & _). apply Forall_forall. intros o Hin.
    assert (o.1 ∈ map fst later) as Hin1 by (by apply list_elem_of_fmap_2). rewrite Forall_forall in H0.
    split; [apply H0; set_solver|]. apply Hcross; [done|set_solver]. }
  clear Hsort. induction later as [|[t1 op1] later IH] using rev_ind.
  - destruct (run_remembers before ttl max) as (s & Hr & Ht & Hm & [Hs He]). rewrite id_run_snoc, Hr.
    assert (id_step t0 op (Some s) = record t0 id served (Some s)) as Hst by (destruct op; cbn in Hw; simplify_eq; done).
    cbn [fst snd]. rewrite Hst. eexists. split; [reflexivity|].
    destruct (String.eqb_spec (ProviderKey (id_Address id)) ""); [congruence|]. destruct (Z.leb_spec (is_ttl s) 0); [lia|].
    cbn [orb]. destruct (negb served && _) eqn:Esh.
    + exfalso. apply andb_true_iff in Esh as [Hns Hsh]. apply negb_true_iff in Hns as ->. destruct Hfree as [|Hfree]; [done|].
      destruct (is_m s !! _) as [cur|] eqn:El; [|done]. destruct (He _ _ El) as (t' & E & Hk & Hst').
      unfold shieldedFrom in Hsh. rewrite !andb_true_iff in Hsh. destruct Hsh as [[Hc1 Hc2] Hc3]. rewrite Hc1, Ht in *.
      apply negb_true_iff, String.eqb_neq in Hc3. destruct (Hfree t' (ie_id cur) Hst') as [|]; [congruence|lia|done].
    + cbn. rewrite lookup_insert, decide_True by done. by rewrite Ht.
  - apply Forall_app in Hf as [Hf [He _]%Forall_cons]. apply Forall_app in Htimes as [Htimes [Ht1 _]%Forall_cons].
    rewrite app_comm_cons, app_assoc in Hfew |- *.
    destruct IH as (s & Hr & Hl); [done| |done|].
    { pose proof (subseteq_size _ _ (rivals_app t0 (ProviderKey (id_Address id)) (before ++ (t0, op) :: later) [(t1, op1)])). lia. }
    rewrite id_run_snoc, Hr. destruct (run_remembers (before ++ (t0, op) :: later) ttl max) as (s' & Hr' & Ht & Hm & Hrem).
    rewrite Hr in Hr'. injection Hr' as <-. cbn in Ht1, He.
    apply (step_keeps _ _ t0 t1 op1 e Hrem); [done|by rewrite Ht|cbn; lia|lia|by rewrite Ht|].
    rewrite Hm. exact Hfew.
Qed.
End store.

(** ** Witnesses *)

Module IdentityWitness.
Definition order (m : gmap string identityEntry) : list (string * identityEntry) := map_to_list m.
Lemma ordered : any_order order.
Proof. intros m. unfold order. reflexivity. Qed.

Definition seen (address url : string) (onchain : Verdict) : ProviderIdentity :=
  MkIdentity address "https://broker.test" url VerdictPass onchain VerdictPass "dstack-0.5.4".

(** A request found the chain against the endpoint the router named; a sweep passed the one
    the chain names; another provider was swept. *)
Definition refused : ProviderIdentity := seen "0xAb" "https://elsewhere.test/v1/quote" VerdictNoMatch.
Definition before : history := [(0, PutWarmed (seen "0xab" "https://broker.test/v1/quote" VerdictPass))].
Definition later : history :=
  [(10, PutWarmed (seen "0xab" "https://broker.test/v1/quote" VerdictPass)); (20, PutWarmed (seen "0xcd" "" VerdictPass));
   (30, DelWarmed "0xAB" "https://broker.test/v1/quote")].

Lemma identity_honest_witness : exists s,
  id_run order (before ++ (5, Put refused) :: later) (Some (newIdentityStore providerIdentityTTL 2)) = Some s /\
  (identity_get 40 "0XAB" (Some s)).1 = Some refused /\
  exists t0 served, 40 <= t0 + providerIdentityTTL /\
    stands providerIdentityTTL t0 refused served (before ++ (5, Put refused) :: later).
Proof.
  destruct (identity_honest order ordered (before ++ (5, Put refused) :: later) providerIdentityTTL 2 40 "0XAB" refused)
    as (s & Hr & _ & Hg).
  assert ((identity_get 40 "0XAB" (Some s)).1 = Some refused) as E by (rewrite <-Hr; vm_compute; reflexivity).
  exists s. split; [exact Hr|]. split; [exact E|]. destruct (Hg E) as (t0 & served & _ & Ht & Hs). eauto.
Defined.

Lemma identity_kept_witness : exists s,
  id_run order (before ++ (5, Put refused) :: later) (Some (newIdentityStore providerIdentityTTL 2)) = Some s /\
  (identity_get 40 "0XAB" (Some s)).1 = Some refused.
Proof.
  apply (identity_kept order ordered providerIdentityTTL 2 before 5 (Put refused) refused true later 40 "0XAB").
  - reflexivity.
  - reflexivity.
  - vm_compute; reflexivity.
  - vm_compute; discriminate.
  - repeat constructor; cbn; lia.
  - vm_compute; discriminate.
  - left. reflexivity.
  - repeat constructor.
  - vm_compute; reflexivity.
Defined.
End IdentityWitness.
