(* ===== verification/Warmer.v ===== *)
(** * Warmer: the background sweep over the fleet ([client/route/warmer.go]), and the two
    writers of the identity store

    [WarmOnce] lists the providers the router names ([listProviderAddrs]), and for each
    resolves the endpoint on chain, verifies its quote anew ([refreshQuote]), reads its
    signer from the chain, records or withdraws what a panel may say of it, and counts it
    ready or not; [WarmState] is what a deployment's readiness probe reads. The sweep runs
    on the state of [Ground] (caches, limiters, the world), beside the store of [Identity],
    the judge of [Judge] and the readiness it publishes. A goroutine's cancellation is
    [canceledBy] of the world, read wherever the code reads [ctx.Err()].

    The theorems: what a sweep publishes is what it prepared, each provider by its own
    evidence, and a sweep cut short publishes nothing; every record in the store is of a
    provider whose quote this process verified, with the chain's word when it says so,
    whichever of the two writers wrote it; a fleet that is well is found ready. *)

From S2P Require Import Prelude GoBytes GoJson GoDecode GoUrl Profile Envelope GoHttp Attest Walk Client RateLimit Endpoint Preview Chain Boot Ground Judge GoServe Identity.

(** [WithWarmServiceTypes]: the default when none is named. *)
Fixpoint distinct (seen : list string) (types : list string) : list string :=
  match types with
  | [] => []
  | t :: types =>
      if String.eqb t "" || contains seen t then distinct seen types else t :: distinct (t :: seen) types
  end.
Definition WithWarmServiceTypes (types current : list string) : list string :=
  match distinct [] types with [] => current | out => out end.

(** [providerListResponse]: the addresses of [data]. *)
Definition providerList_fields : list (string * (list string -> json -> result jerr (list string))) :=
  [("data", fun old j =>
      match j with
      | JArr l => structs_of (unmarshal_struct [("address", fun a j => set_string a j)]) "" old l
      | JNull => Ok []
      | _ => Err JType
      end)].

(** The addresses not seen before, up to case, in order; and what was seen. *)
Fixpoint fresh_addrs (seen : list string) (l : list string) : list string * list string :=
  match l with
  | [] => ([], seen)
  | a :: l =>
      if contains seen (to_lower a) then fresh_addrs seen l
      else let '(out, seen) := fresh_addrs (to_lower a :: seen) l in (a :: out, seen)
  end.

Inductive warmEvent :=
| WarmerSweep (how : string)
| WarmerSweepSucceeded
| WarmerReadyProviders (n : nat)
| WarmerProviderRefresh (how : string)
| WarmerSignerRefresh (how : string).

(** [At] and [Started] are [None] for the zero time. *)
Record WarmState := MkWarmState { ws_At : option Z; ws_Started : option Z; ws_Ready : nat; ws_Total : nat }.

Record sweeping (W : Type) := MkSweeping {
  w_g : gstate W;
  w_ids : option identityStore;
  w_ask : asking;
  w_state : WarmState;
  w_log : list warmEvent
}.
Arguments MkSweeping {W} _ _ _ _ _.
Arguments w_g {W} _.
Arguments w_ids {W} _.
Arguments w_ask {W} _.
Arguments w_state {W} _.
Arguments w_log {W} _.

Section warming.
Context {W : Type} `{World W} `{RouterOutside W} `{SignerRegistry W} `{Flights W} `{UrlLib}.
Context (r : Router) (warmServiceTypes : list string) (k : Checks) (kj : checks).
Context (range : gmap string identityEntry -> list (string * identityEntry)).
(** The deadline of the caller's context; how the judge's other goroutines move, how long
    a wait for them may take, and what becomes of the world meanwhile. *)
Context (deadline : Z) (turns : nat -> list move * Z) (patience : nat -> nat) (meanwhile : W -> W).
(** The facts of a verification that [Ground]'s record of them leaves to [Judge], and what
    other holders of the same verification have observed of its manifest. *)
Context (factsOf : quoteResult -> providerFacts) (seen : quoteResult -> option (gset string)).
Abbreviation state := (sweeping W).

Definition canceled (s : state) : bool := canceledBy (g_world (w_g s)).
Definition w_now (s : state) : Z := g_now (w_g s).
Definition with_g (g : gstate W) (s : state) : state := MkSweeping g (w_ids s) (w_ask s) (w_state s) (w_log s).
Definition with_ids (i : option identityStore) (s : state) : state := MkSweeping (w_g s) i (w_ask s) (w_state s) (w_log s).
Definition with_ask (a : asking) (s : state) : state := MkSweeping (w_g s) (w_ids s) a (w_state s) (w_log s).
Definition with_state (x : WarmState) (s : state) : state := MkSweeping (w_g s) (w_ids s) (w_ask s) x (w_log s).
Definition wlog (e : warmEvent) (s : state) : state :=
  MkSweeping (w_g s) (w_ids s) (w_ask s) (w_state s) (w_log s ++ [e]).
Definition with_respBind (b : option respBindStore) (g : gstate W) : gstate W :=
  MkG (g_quotes g) (g_pubkeys g) (g_quoteReverify g) (g_signerRevalidate g) b (g_log g) (g_world g).

(** ** Listing the fleet *)

Definition listProviderAddrsFor (serviceType : string) (g : gstate W) : cresult (list string) * gstate W :=
  let u := r_providersURL r +:+ "?service_type=" +:+ str_of (QueryEscape (bytes_of serviceType)) in
  match get_ok "list providers" deadline u g with
  | (Err err, g) => (Err err, g)
  | (Ok body, g) =>
      (l ← map_err EJson (unmarshal (unmarshal_struct providerList_fields []) body);
       Ok (fresh_addrs [] (List.filter (fun a => negb (String.eqb a "")) l)).1, g)
  end.

(** The addresses so far with what was seen of them, and how many types were listed;
    [Err] when the context was cancelled. *)
Fixpoint list_types (types : list string) (acc seenAddrs : list string) (ok : nat) (g : gstate W)
    : cresult (list string * nat) * gstate W :=
  match types with
  | [] => (Ok (acc, ok), g)
  | st :: types =>
      match listProviderAddrsFor st g with
      | (Err err, g) =>
          if canceledBy (g_world g) then (Err err, g) else list_types types acc seenAddrs ok g
      | (Ok got, g) =>
          let '(out, seenAddrs) := fresh_addrs seenAddrs got in
          list_types types (acc ++ out) seenAddrs (S ok) g
      end
  end.
Definition listProviderAddrs (g : gstate W) : cresult (list string) * gstate W :=
  match list_types warmServiceTypes [] [] 0 g with
  | (Err err, g) => (Err err, g)
  | (Ok (addrs, ok), g) =>
      (if Nat.eqb ok 0 then Err (EMsg "no service type could be enumerated") else Ok addrs, g)
  end.

(** ** One provider *)

Definition refreshQuote (v : Verifier) (endpoint : string) (g : gstate W) : (string * cresult quoteResult) * gstate W :=
  match deriveQuoteURL endpoint with
  | Err err => (("", Err err), g)
  | Ok quoteURL =>
      match verifyAndCache v quoteURL g with
      | (Ok res, g) => ((quoteURL, Ok res), g)
      | (Err err, g) =>
          ((quoteURL, Err err),
           if canceledBy (g_world g) then g else with_quotes (cache_del (g_quotes g) quoteURL) g)
      end
  end.

Definition cachedSignerVerdict (addr quoteSigner : string) (g : gstate W) : Verdict * gstate W :=
  if canceledBy (g_world g) || String.eqb quoteSigner "" then (VerdictUnavailable, g)
  else match AcknowledgedSigner addr (g_world g) with
       | (Err _, w) => (VerdictUnavailable, with_world w g)
       | (Ok got, w) => (if signerAgrees got quoteSigner then VerdictPass else VerdictUnavailable, with_world w g)
       end.

(** The chain's word, and whether the provider is still prepared. *)
Definition refreshSigner (addr quoteSigner : string) (prepared : bool) (s : state) : (Verdict * bool) * state :=
  let enforced := prepared && negb (ck_onchainEnforce k) in
  if negb (ck_registry k) then ((VerdictNotChecked, prepared), s)
  else match RefreshSigner addr (g_world (w_g s)) with
  | (Err _, w) =>
      let s := wlog (WarmerSignerRefresh "failed") (with_g (with_world w (w_g s)) s) in
      let '(onchain, g) := cachedSignerVerdict addr quoteSigner (w_g s) in
      ((onchain, enforced), with_g g s)
  | (Ok got, w) =>
      let s := with_g (with_world w (w_g s)) s in
      if negb (sg_Acknowledged got) || negb (String.eqb quoteSigner "") && negb (signerAgrees got quoteSigner) then
        ((VerdictNoMatch, enforced), wlog (WarmerSignerRefresh "mismatch") s)
      else if String.eqb quoteSigner "" then
        let s := wlog (WarmerSignerRefresh "unchecked") s in
        let '(onchain, g) := cachedSignerVerdict addr quoteSigner (w_g s) in
        ((onchain, prepared), with_g g s)
      else ((VerdictPass, prepared), wlog (WarmerSignerRefresh "ok") s)
  end.

(** What a verified provider leaves: the binding it advertises, its record, the judgement
    of its manifest; and, under provider enforce, whether it passes the gate. *)
Definition publish (addr endpoint : string) (res : quoteResult) (onchain : Verdict) (prepared : bool) (s : state)
    : bool * state :=
  let s := with_g (with_respBind ((fun b => rb_observe b addr (qf_respBind (qr_facts res))) <$> g_respBind (w_g s)) (w_g s)) s in
  let s := with_ids (putWarmed range (w_now s) (providerIdentityOf addr endpoint res onchain) (w_ids s)) s in
  let '(_, _, a) := observeBaseline kj turns (ProviderKey addr) addr (pf_manifest (factsOf res)) (seen res) (w_ask s) in
  let s := with_ask a s in
  if ch_enforce kj && prepared then
    let '(failed, _, _, a) := providerPasses kj turns patience addr (factsOf res) (w_ask s) in
    (match failed with [] => true | _ => false end,
     with_ask a (with_g (with_world (meanwhile (g_world (w_g s))) (w_g s)) s))
  else (prepared, s).

Context (endpoints : option (string -> W -> cresult ServiceInfo * W)).

Definition warm_provider (v : Verifier) (ServiceInfo : string -> W -> cresult ServiceInfo * W) (addr : string) (s : state)
    : bool * state :=
  let '(info, w) := ServiceInfo addr (g_world (w_g s)) in
  let s := with_g (with_world w (w_g s)) s in
  match info with
  | Err _ => (false, wlog (WarmerProviderRefresh "endpoint_failed") s)
  | Ok info =>
      if String.eqb (si_URL info) "" then (false, wlog (WarmerProviderRefresh "endpoint_failed") s)
      else
        let '((quoteURL, verified), g) := refreshQuote v (si_URL info) (w_g s) in
        let s := wlog (WarmerProviderRefresh (if is_ok verified then "ok" else "verify_failed")) (with_g g s) in
        let quoteSigner := match verified with Ok res => qr_signer res | Err _ => "" end in
        let '((onchain, prepared), s) := refreshSigner addr quoteSigner (is_ok verified) s in
        if canceled s then (prepared, s)
        else match verified with
             | Ok res => publish addr (si_URL info) res onchain prepared s
             | Err _ => (prepared, with_ids (delWarmed (w_now s) addr quoteURL (w_ids s)) s)
             end
  end.

(** ** The sweep *)

(** [None]: the sweep was cancelled. *)
Fixpoint sweep (v : Verifier) (info : string -> W -> cresult ServiceInfo * W) (addrs : list string) (ready : nat) (s : state)
    : option nat * state :=
  if canceled s then (None, s)
  else match addrs with
  | [] => (Some ready, s)
  | addr :: addrs =>
      let '(prepared, s) := warm_provider v info addr s in
      sweep v info addrs (if prepared then S ready else ready) s
  end.

Definition beginSweep (s : state) : state :=
  let x := w_state s in with_state (MkWarmState (ws_At x) (Some (w_now s)) (ws_Ready x) (ws_Total x)) s.
Definition finishSweep (ready total : nat) (s : state) : state :=
  with_state (MkWarmState (Some (w_now s)) (ws_Started (w_state s)) ready total) s.

Definition WarmOnce (s : state) : state :=
  match ck_verifier k, endpoints with
  | Some v, Some info =>
      let s := beginSweep s in
      match listProviderAddrs (w_g s) with
      | (Err _, g) =>
          let s := with_g g s in
          if canceled s then s
          else finishSweep 0 0 (wlog (WarmerReadyProviders 0) (wlog (WarmerSweep "list_failed") s))
      | (Ok addrs, g) =>
          match sweep v info addrs 0 (with_g g s) with
          | (None, s) => s
          | (Some ready, s) =>
              finishSweep ready (length addrs)
                (wlog (WarmerReadyProviders ready) (wlog WarmerSweepSucceeded (wlog (WarmerSweep "ok") s)))
          end
      end
  | _, _ => s
  end.

(** [RunWarmer]: a first sweep, then one at each tick until the context ends; [tick] waits
    for either, and [n] bounds the ticks that are looked at. *)
Context (tick : Z -> W -> bool * W).
Fixpoint tick_loop (n : nat) (interval : Z) (s : state) : state :=
  match n with
  | O => s
  | S n =>
      let '(ticked, w) := tick interval (g_world (w_g s)) in
      let s := with_g (with_world w (w_g s)) s in
      if ticked then tick_loop n interval (WarmOnce s) else s
  end.
Definition RunWarmer (n : nat) (interval : Z) (s : state) : state :=
  match ck_verifier k, endpoints with
  | Some _, Some _ => if interval <=? 0 then s else tick_loop n interval (WarmOnce s)
  | _, _ => s
  end.
End warming.

(** ** The readers and the writers of the store *)

Section panel.
Context {W : Type} `{World W} `{RouterOutside W} `{SignerRegistry W} `{Flights W} `{UrlLib}.
Context (k : Checks).
Abbreviation gs := (gstate W).

(** Some reading of the registry does not vouch for the signer. *)
Definition denied (addr signer : string) : Prop :=
  exists w got w', (AcknowledgedSigner addr w = (Ok got, w') \/ RefreshSigner addr w = (Ok got, w')) /\
    signerAgrees got signer = false.

(** What a record says was established: the quote was served at its URL and verified, and
    the chain said what the record says it did. *)
Definition vetted_record (id : ProviderIdentity) : Prop :=
  exists v address endpoint res onchain, ck_verifier k = Some v /\
    id = providerIdentityOf address endpoint res onchain /\ quote_of v endpoint res /\
    (onchain = VerdictPass -> vouches address (qr_signer res)) /\
    (onchain = VerdictNoMatch -> denied address (qr_signer res)) /\
    (onchain = VerdictNotChecked -> ck_registry k = false).
Definition vetted_event (e : gevent) : Prop := match e with EvIdentity id => vetted_record id | _ => True end.
Definition logs_ok (g : gs) : Prop := Forall vetted_event (g_log g).

(** *** What leaves the log alone *)

Lemma get_ok_log what deadline url (g : gs) : g_log (get_ok what deadline url g).2 = g_log g.
Proof. unfold get_ok. destruct (negb (url_ok url)); [done|]. by destruct (rt_do _ _ _) as [[resp|err] w]. Qed.
Lemma verifyQuoteAt_log v deadline url (g : gs) : g_log (verifyQuoteAt v deadline url g).2 = g_log g.
Proof.
  unfold verifyQuoteAt, fetchQuote. pose proof (get_ok_log "fetch provider quote" deadline url g) as Hq.
  destruct (get_ok _ _ _ _) as [[body|err] g1]; [|done]. cbn in Hq |- *.
  destruct (map_err _ (DecodeQuoteResponse body)) as [raw|]; [|done]. by cbn.
Qed.
Lemma verifyAndCacheFor_log gone v url (g : gs) : g_log (verifyAndCacheFor gone v url g).2 = g_log g.
Proof.
  unfold verifyAndCacheFor. pose proof (verifyQuoteAt_log v (g_now g + quoteVerifyTimeout) url g) as Hq.
  destruct (verifyQuoteAt _ _ _ _) as [[res|err] g1]; done.
Qed.
Lemma verifyAndCache_log v url (g : gs) : g_log (verifyAndCache v url g).2 = g_log g.
Proof. apply verifyAndCacheFor_log. Qed.
Lemma reverifiedProviderFor_log gone v endpoint (g : gs) : g_log (reverifiedProviderFor gone v endpoint g).2 = g_log g.
Proof.
  unfold reverifiedProviderFor. destruct (deriveQuoteURL endpoint) as [url|]; [|done]. unfold mayReverifyQuote.
  destruct (rl_allow _ _ _ _) as [[|] l]; [|done]. pose proof (verifyAndCacheFor_log gone v url (with_reverify l g)) as Hq.
  destruct (verifyAndCacheFor _ _ _ _) as [[res|err] g1]; done.
Qed.
Lemma verifiedProviderCached_log v endpoint (g : gs) : g_log (verifiedProviderCached v endpoint g).2 = g_log g.
Proof.
  unfold verifiedProviderCached. destruct (deriveQuoteURL endpoint) as [url|]; [|done].
  destruct (cache_get _ _ _); [done|]. pose proof (verifyAndCache_log v url g) as Hq.
  destruct (verifyAndCache _ _ _) as [[res|err] g1]; done.
Qed.
Lemma pubkey_log deadline url (g : gs) : g_log (pubkey deadline url g).2 = g_log g.
Proof.
  unfold pubkey. destruct (cache_get _ _ _); [done|]. pose proof (get_ok_log "fetch provider pubkey" deadline url g) as Hq.
  destruct (get_ok _ _ _ _) as [[body|err] g1]; [|done]. cbn in Hq. by destruct (_ ≫= _).
Qed.
Lemma freshPubkey_log deadline url stale (g : gs) : g_log (freshPubkey deadline url stale g).2 = g_log g.
Proof.
  unfold freshPubkey. rewrite pubkey_log. destruct stale as [stale|]; [|done].
  destruct (cache_get _ _ _) as [[e s]|]; [|done]. by destruct (bool_decide _).
Qed.
Lemma groundSignerOnChain_log addr signer (g : gs) : g_log (groundSignerOnChain k addr signer g).2 = g_log g.
Proof.
  unfold groundSignerOnChain. destruct (AcknowledgedSigner addr (g_world g)) as [[got|err] w]; [|done].
  destruct (_ && _); [|done]. destruct (rl_allow _ _ _ _) as [[|] l]; [|done].
  by destruct (RefreshSigner addr _) as [[got'|err] w'].
Qed.
Lemma groundKeys_log prov from (g : gs) : g_log (groundKeys k prov from g).2 = g_log g.
Proof.
  unfold groundKeys. pose proof (groundSignerOnChain_log (pp_Address prov) (keys_of from).2 g) as H1'.
  destruct (groundSignerOnChain _ _ _ _) as [[o e] g1]. cbn in H1'. destruct from as [v res [|]|ks]; try done.
  destruct (bool_decide _); [|done]. pose proof (reverifiedProviderFor_log leaves v (pp_Endpoint prov) g1) as H2'.
  fold (reverifiedProvider v (pp_Endpoint prov) g1) in H2'.
  destruct (reverifiedProvider _ _ _) as [[fresh|err] g2]; cbn in H2'; [|cbn; congruence].
  destruct (String.eqb _ _); [cbn; congruence|].
  pose proof (groundSignerOnChain_log (pp_Address prov) (qr_signer fresh) g2) as H3'.
  destruct (groundSignerOnChain _ _ _ _) as [[o' e'] g3]. cbn in *. congruence.
Qed.

(** *** What a request writes *)

Lemma grounded_word addr signer (g : gs) o e g' : groundSignerOnChain k addr signer g = ((o, e), g') ->
  (onchainVerdictOf (gr_outcome o) = VerdictPass -> vouches addr signer) /\
  (onchainVerdictOf (gr_outcome o) = VerdictNoMatch -> denied addr signer).
Proof.
  intros [_ Hok Hneg]%groundSignerOnChain_on. split; intros Hv.
  - apply Hok. by destruct (gr_outcome o).
  - destruct Hneg as (w & got & w' & Ha & Hr); [by destruct (gr_outcome o)|].
    exists w, got, w'. split; [|done]. destruct Hr as [|[? _]]; auto.
Qed.

Lemma groundKeys_word prov from (g : gs) from' o e g' : groundKeys k prov from g = ((from', o, e), g') ->
  (onchainVerdictOf (gr_outcome o) = VerdictPass -> vouches (pp_Address prov) (keys_of from').2) /\
  (onchainVerdictOf (gr_outcome o) = VerdictNoMatch -> denied (pp_Address prov) (keys_of from').2).
Proof.
  unfold groundKeys. destruct (groundSignerOnChain _ _ (keys_of from).2 _) as [[o1 e1] g1] eqn:E1. apply grounded_word in E1.
  destruct from as [v res [|]|ks]; [|by intros [= <- <- <- <-]..].
  destruct (bool_decide _); [|by intros [= <- <- <- <-]].
  destruct (reverifiedProvider _ _ _) as [[fresh|err] g2]; [|by intros [= <- <- <- <-]].
  destruct (String.eqb _ _); [by intros [= <- <- <- <-]|].
  destruct (groundSignerOnChain _ _ (qr_signer fresh) _) as [[o2 e2] g3] eqn:E2. apply grounded_word in E2.
  by intros [= <- <- <- <-].
Qed.

Context (between : gs -> gs).
Hypothesis others_fair : fair between.
Hypothesis others_log : forall g, logs_ok g -> logs_ok (between g).

Lemma freshProvider_logs v endpoint stale g : logs_ok g -> logs_ok (freshProvider between v endpoint stale g).2.
Proof.
  intros Hg. unfold freshProvider, logs_ok in *. pose proof (verifiedProviderCached_log v endpoint g) as E.
  destruct (verifiedProviderCached v endpoint g) as [[[res c]|err] g1]; cbn in E |- *; [|by rewrite E].
  destruct stale as [stale|]; cbn; [|by rewrite E]. destruct (_ || _); cbn; [by rewrite E|].
  destruct (deriveQuoteURL endpoint) as [url|]; cbn; [|by rewrite E]. rewrite <-E in Hg. apply others_log in Hg.
  pose proof (reverifiedProviderFor_log (fun _ => false) v endpoint (between g1)) as E2.
  fold (reverifiedDetached v endpoint (between g1)) in E2. rewrite <-E2 in Hg.
  destruct (reverifiedDetached v endpoint (between g1)) as [[fresh|err] g3]; cbn in *;
    (destruct (cache_get _ _ url) as [res'|]; [destruct (bool_decide _)|]); cbn; congruence || by rewrite <-E2.
Qed.

Lemma obtainKeys_logs deadline prov stale g : logs_ok g -> logs_ok (obtainKeys k between deadline prov stale g).2.
Proof.
  intros Hg. unfold obtainKeys. destruct (ck_verifier k) as [v|].
  - pose proof (freshProvider_logs v (pp_Endpoint prov) stale g Hg) as Hf.
    by destruct (freshProvider _ _ _ _ _) as [[[res c]|err] g1].
  - destruct (derivePubkeyURL _) as [url|]; [|done]. pose proof (freshPubkey_log deadline url stale g) as E.
    destruct (freshPubkey _ _ _ _) as [[ks|err] g1]; cbn in *; unfold logs_ok; by rewrite E.
Qed.

Lemma conclude_logs upstreamURL prov from onchain e g : logs_ok g -> keys_ok k prov from ->
  (onchain = VerdictPass -> vouches (pp_Address prov) (keys_of from).2) ->
  (onchain = VerdictNoMatch -> denied (pp_Address prov) (keys_of from).2) ->
  (onchain = VerdictNotChecked -> ck_registry k = false) ->
  logs_ok (conclude k upstreamURL prov from onchain e g).2.
Proof.
  intros Hg Hk Hp Hn Hc. unfold conclude. set (g1 := match from with FromQuote _ _ _ => _ | FromPubkey _ => _ end).
  assert (logs_ok g1) as Hg1.
  { unfold g1, logs_ok. destruct from as [v res c|ks]; [|done]. destruct Hk as [Hv Hq]. cbn [glog g_log].
    apply Forall_app. split; [exact Hg|]. constructor; [|constructor].
    exists v, (pp_Address prov), (pp_Endpoint prov), res, onchain. by split_and!. }
  by destruct e.
Qed.

Lemma materialize_logs upstreamURL deadline prov stale g : caches_ok k g -> logs_ok g ->
  logs_ok (materialize k between upstreamURL deadline prov stale g).2.
Proof.
  intros Hq Hg. unfold materialize. destruct (negb _); [done|]. destruct (String.eqb _ _); [done|].
  destruct (String.eqb _ _); [done|]. destruct (obtainKeys_ok k between others_fair deadline prov stale g Hq) as [Hq1 Hk].
  pose proof (obtainKeys_logs deadline prov stale g Hg) as Hl.
  destruct (obtainKeys k between deadline prov stale g) as [[from|err] g1]; cbn in Hq1, Hk, Hl; [|done].
  specialize (Hk from eq_refl). destruct (ck_registry k) eqn:Hreg; [|by apply conclude_logs].
  pose proof (groundKeys_log prov from g1) as E. destruct (groundKeys k prov from g1) as [[[from2 o] e] g2] eqn:Eg.
  destruct (groundKeys_ok _ _ _ _ _ _ _ _ Hq1 Hk Eg) as [_ [Hk2 _ _ _]]. apply groundKeys_word in Eg as [Hp Hn]. cbn in E.
  assert (logs_ok g2) as Hl2 by (unfold logs_ok; by rewrite E).
  apply conclude_logs; [|done..|by destruct (gr_outcome o)]. unfold logs_ok. cbn [glog g_log].
  apply Forall_app. split; [|by repeat constructor]. destruct (gr_revalidated o); [|done].
  apply Forall_app. split; [done|by repeat constructor].
Qed.
End panel.

(** ** One provider of a sweep *)

Lemma quote_signer `{RouterOutside W} `{UrlLib} v endpoint res : quote_of v endpoint res -> qr_signer res <> "".
Proof.
  intros (url & _ & raw & reply & _ & _ & Hv). unfold quoteResultOf in Hv.
  destruct (Verify v raw) as [d|] eqn:E; [|done]. cbn in Hv. injection Hv as <-. cbn [qr_signer].
  unfold Verify in E. inv_ok. destruct x0 as [m rd]. inv_ok. subst d. cbn [vd_SignerAddr].
  match goal with Hp : ParseReportData rd = Ok _ |- _ => apply ParseReportData_ok in Hp as (e & s & _ & _ & _ & ->) end. done.
Qed.

Section sweeps.
Context {W : Type} `{World W} `{RouterOutside W} `{SignerRegistry W} `{Flights W} `{UrlLib}.
Context (r : Router) (warmServiceTypes : list string) (k : Checks) (kj : checks).
Context (range : gmap string identityEntry -> list (string * identityEntry)).
Context (deadline : Z) (turns : nat -> list move * Z) (patience : nat -> nat) (meanwhile : W -> W).
Context (factsOf : quoteResult -> providerFacts) (seen : quoteResult -> option (gset string)).
Abbreviation state := (sweeping W).

(** Between two states of a process: the caches stay vetted, and so do the records. *)
Record honest_state (s : state) : Prop := {
  hs_caches : caches_ok k (w_g s);
  hs_log : logs_ok k (w_g s);
  hs_ids : all_held (vetted_record (W := W) k) (w_ids s)
}.

Lemma refreshQuote_ok v endpoint (g : gstate W) : quotes_ok v g ->
  quotes_ok v (refreshQuote v endpoint g).2 /\ g_log (refreshQuote v endpoint g).2 = g_log g /\
  forall url res, (refreshQuote v endpoint g).1 = (url, Ok res) -> quote_of v endpoint res.
Proof.
  intros Hq. unfold refreshQuote. destruct (deriveQuoteURL endpoint) as [url|] eqn:Hu; [|done].
  destruct (verifyAndCacheFor_ok leaves v url g Hq) as [Hq' Ha].
  fold (verifyAndCache v url g) in Hq', Ha. pose proof (verifyAndCache_log v url g) as El.
  destruct (verifyAndCache v url g) as [[res|err] g1]; cbn in Hq', Ha, El |- *.
  - split_and!; [done|done|]. intros u res' [= <- <-]. exists url. auto.
  - destruct (canceledBy _); cbn; (split_and!; [|done|done]); [done|].
    intros u res exp. cbn. unfold cache_del. cbn. intros Hl. apply lookup_delete_Some in Hl as [_ Hl]. by eapply Hq'.
Qed.

Lemma cachedSignerVerdict_ok addr signer (g : gstate W) :
  let o := cachedSignerVerdict addr signer g in
  g_quotes o.2 = g_quotes g /\ g_log o.2 = g_log g /\
  (o.1 = VerdictPass /\ vouches addr signer \/ o.1 = VerdictUnavailable).
Proof.
  unfold cachedSignerVerdict. destruct (_ || _); [by split_and!; [| |right]|].
  destruct (AcknowledgedSigner addr (g_world g)) as [[got|err] w] eqn:E; cbn; (split_and!; [done|done|]); [|by right].
  destruct (signerAgrees got signer) eqn:Ea; [|by right]. left. split; [done|]. exists (g_world g), got, w. auto.
Qed.

(** A live reading that vouches for the signer. *)
Definition vouched_live (addr signer : string) : Prop :=
  exists w got w', RefreshSigner addr w = (Ok got, w') /\ signerAgrees got signer = true.

Lemma refreshSigner_ok addr signer prepared s :
  let o := refreshSigner k addr signer prepared s in
  g_quotes (w_g o.2) = g_quotes (w_g s) /\ g_log (w_g o.2) = g_log (w_g s) /\
  w_ids o.2 = w_ids s /\ w_state o.2 = w_state s /\
  (o.1.1 = VerdictPass -> vouches addr signer) /\ (signer <> "" -> o.1.1 = VerdictNoMatch -> denied addr signer) /\
  (o.1.1 = VerdictNotChecked -> ck_registry k = false) /\
  (o.1.2 = true -> prepared = true /\ (ck_registry k = true -> ck_onchainEnforce k = true -> signer = "" \/ vouched_live addr signer)).
Proof.
  unfold refreshSigner. destruct (ck_registry k) eqn:Hreg; cbn [negb]; [|by split_and!].
  destruct (RefreshSigner addr (g_world (w_g s))) as [[got|err] w] eqn:E.
  - destruct (_ || _) eqn:Em.
    + cbn. split_and!; try done.
      * intros Hne _. exists (g_world (w_g s)), got, w. split; [auto|]. unfold signerAgrees in *.
        apply orb_true_iff in Em as [Em|Em]; [by destruct (sg_Acknowledged got)|].
        apply andb_true_iff in Em as [_ Em]. by apply negb_true_iff in Em.
      * intros [? Hx]%andb_true_iff. split; [done|]. intros _ Hen. by rewrite Hen in Hx.
    + apply orb_false_iff in Em as [_ Em]. destruct (String.eqb_spec signer "") as [->|Hne].
      * pose proof (cachedSignerVerdict_ok addr "" (with_world w (w_g s))) as Hc. cbn [w_g wlog with_g]. cbv zeta.
        destruct (cachedSignerVerdict _ _ _) as [o g]. cbn in *. destruct Hc as (Hq & Hl & Hv).
        split_and!; first [done | by destruct Hv as [[-> ?] | ->] | auto].
      * assert (signerAgrees got signer = true) as Ha by (by destruct (signerAgrees got signer)).
        cbn. split_and!; try done.
        -- intros _. exists (g_world (w_g s)), got, w. auto.
        -- intros Hp. split; [done|]. intros _ _. right. by exists (g_world (w_g s)), got, w.
  - pose proof (cachedSignerVerdict_ok addr signer (with_world w (w_g s))) as Hc. cbn [w_g wlog with_g]. cbv zeta.
    destruct (cachedSignerVerdict _ _ _) as [o g]. cbn in *. destruct Hc as (Hq & Hl & Hv).
    split_and!; try first [done | by destruct Hv as [[-> ?] | ->]].
    intros [? Hx]%andb_true_iff. split; [done|]. intros _ Hen. by rewrite Hen in Hx.
Qed.

(** What a provider was counted ready on. *)
Definition ready_by (v : Verifier) (info : string -> W -> cresult ServiceInfo * W) (addr : string) : Prop :=
  exists endpoint res, (exists w i w', info addr w = (Ok i, w') /\ si_URL i = endpoint) /\ endpoint <> "" /\
    quote_of v endpoint res /\
    (ck_registry k = true -> ck_onchainEnforce k = true -> vouched_live addr (qr_signer res)) /\
    (ch_enforce kj = true -> exists a, (providerPasses kj turns patience addr (factsOf res) a).1.1.1 = []).

Lemma publish_ok addr endpoint res onchain prepared s :
  honest_state s -> vetted_record (W := W) k (providerIdentityOf addr endpoint res onchain) ->
  let o := publish kj range turns patience meanwhile factsOf seen addr endpoint res onchain prepared s in
  honest_state o.2 /\ w_state o.2 = w_state s /\
  (o.1 = true -> prepared = true /\
    (ch_enforce kj = true -> exists a, (providerPasses kj turns patience addr (factsOf res) a).1.1.1 = [])).
Proof.
  intros [Hc Hl Hi] Hid. unfold publish. cbv zeta. destruct (observeBaseline _ _ _ _ _ _ _) as [[b o] a].
  assert (all_held (vetted_record (W := W) k) (putWarmed range (w_now s) (providerIdentityOf addr endpoint res onchain) (w_ids s)))
    as Hi' by (by apply all_held_record).
  destruct (ch_enforce kj) eqn:Ee; cbn [andb]; [destruct prepared|].
  - destruct (providerPasses _ _ _ _ _ _) as [[[failed rt] bl] a'] eqn:Ep. cbn. split_and!; [by split|done|].
    intros Hf. split; [done|]. intros _. eexists. rewrite Ep. by destruct failed.
  - cbn. split_and!; [by split|done|done].
  - cbn. split_and!; [by split|done|]. intros ->. done.
Qed.

Lemma warm_provider_ok v info addr s : ck_verifier k = Some v -> honest_state s ->
  let o := warm_provider k kj range turns patience meanwhile factsOf seen v info addr s in
  honest_state o.2 /\ w_state o.2 = w_state s /\ (o.1 = true -> canceled o.2 = true \/ ready_by v info addr).
Proof.
  intros Hv [Hc Hl Hi]. unfold warm_provider. destruct (info addr (g_world (w_g s))) as [[i|err] w] eqn:Ei; [|cbn; by split_and!].
  destruct (String.eqb_spec (si_URL i) "") as [|Hne]; [cbn; by split_and!|]. cbn [w_g with_g].
  destruct (refreshQuote_ok v (si_URL i) (with_world w (w_g s)) (Hc v Hv)) as (Hq & Hlog & Hres).
  destruct (refreshQuote v (si_URL i) (with_world w (w_g s))) as [[url verified] g]. cbn [fst snd] in Hq, Hlog, Hres.
  set (s1 := wlog _ _). set (signer := match verified with Ok res => qr_signer res | Err _ => "" end).
  pose proof (refreshSigner_ok addr signer (is_ok verified) s1) as Hs. cbv zeta in Hs.
  change (w_g s1) with g in Hs. change (w_ids s1) with (w_ids s) in Hs. change (w_state s1) with (w_state s) in Hs.
  destruct (refreshSigner k addr signer (is_ok verified) s1) as [[onchain prepared] s2]. cbn [fst snd] in Hs.
  destruct Hs as (Q & L & I & S & Vp & Vn & Vc & Pr).
  assert (honest_state s2) as Hs2.
  { split; [|unfold logs_ok; by rewrite L, Hlog|by rewrite I].
    intros v' Hv' u res exp. rewrite Q. assert (v' = v) as -> by congruence. by apply Hq. }
  assert (canceled s2 = false -> forall res, verified = Ok res -> quote_of v (si_URL i) res) as Hquote.
  { intros _ res ->. by eapply Hres. }
  destruct (canceled s2) eqn:Ec; [cbn; split_and!; [done|by rewrite S|by left]|].
  destruct verified as [res|err].
  - pose proof (Hquote eq_refl res eq_refl) as Hqo. pose proof (quote_signer _ _ _ Hqo) as Hsig.
    destruct (publish_ok addr (si_URL i) res onchain prepared s2 Hs2) as (P1 & P2 & P3).
    { exists v, addr, (si_URL i), res, onchain. split_and!; auto. }
    split_and!; [done|by rewrite P2, S|]. intros Ht. right. destruct (P3 Ht) as [Hp Hgate]. destruct (Pr Hp) as [_ Hchain].
    exists (si_URL i), res. split_and!; [by exists (g_world (w_g s)), i, w|done|done| |done].
    intros Hr He. by destruct (Hchain Hr He).
  - cbn. destruct Hs2 as [C2 L2 I2]. split_and!; [split; [done|done|by apply all_held_del]|by rewrite S|].
    intros Hp. by destruct (Pr Hp).
Qed.

Lemma sweep_ok v info addrs n s : ck_verifier k = Some v -> honest_state s ->
  let o := sweep k kj range turns patience meanwhile factsOf seen v info addrs n s in
  honest_state o.2 /\ w_state o.2 = w_state s /\
  match o.1 with
  | None => canceled o.2 = true
  | Some m => canceled o.2 = false /\
      exists ready, sublist ready addrs /\ m = (n + length ready)%nat /\ Forall (ready_by v info) ready
  end.
Proof.
  intros Hv. revert n s. induction addrs as [|addr addrs IH]; intros n s Hs; cbn [sweep].
  - destruct (canceled s) eqn:Ec; cbn; [done|]. split; [done|]. split; [done|]. split; [done|].
    exists []. split_and!; [constructor|cbn; lia|constructor].
  - destruct (canceled s) eqn:Ec; [by split_and!|].
    pose proof (warm_provider_ok v info addr s Hv Hs) as Hw. cbv zeta in Hw.
    destruct (warm_provider _ _ _ _ _ _ _ _ v info addr s) as [p s1]. cbn [fst snd] in Hw. destruct Hw as (H1' & S1 & P1).
    specialize (IH (if p then S n else n) s1 H1'). cbv zeta in IH |- *.
    destruct (sweep _ _ _ _ _ _ _ _ v info addrs _ s1) as [o s2] eqn:Es. cbn [fst snd] in *. destruct IH as (I1 & I2 & I3).
    split_and!; [done|by rewrite I2|]. destruct o as [m|]; [|done]. destruct I3 as [Hc (ready & Hsub & -> & Hf)]. split; [done|].
    destruct p; [|exists ready; split_and!; [by constructor|done|done]].
    destruct (P1 eq_refl) as [Hx|Hr].
    { destruct addrs; cbn in Es; rewrite Hx in Es; done. }
    exists (addr :: ready). split_and!; [by constructor|cbn; lia|by constructor].
Qed.
(** *** Listing *)

Lemma Forall_of_sublist {A} (P : A -> Prop) l l' : sublist l l' -> Forall P l' -> Forall P l.
Proof. induction 1; intros Hf; [constructor|apply Forall_cons in Hf as [? ?]; auto|apply Forall_cons in Hf as [_ ?]; auto]. Qed.

Lemma fresh_addrs_ok l : forall sn,
  let o := fresh_addrs sn l in
  sublist o.1 l /\ NoDup (map to_lower o.1) /\ (forall a, a ∈ o.1 -> to_lower a ∉ sn) /\
  (forall x, x ∈ o.2 <-> x ∈ sn \/ x ∈ map to_lower o.1) /\ (forall a, a ∈ l -> to_lower a ∈ o.2).
Proof.
  induction l as [|a l IH]; intros sn; cbn [fresh_addrs].
  { cbn. split_and!; [constructor|constructor| | |]; set_solver. }
  destruct (contains sn (to_lower a)) eqn:Ec.
  - apply contains_spec in Ec. destruct (IH sn) as (I1 & I2 & I3 & I4 & I5). cbv zeta.
    split_and!; [by constructor|done|done|done|]. intros b [->|Hb]%elem_of_cons; [|by apply I5]. apply I4. by left.
  - assert (to_lower a ∉ sn) as Hn by (rewrite <-contains_spec; congruence).
    destruct (IH (to_lower a :: sn)) as (I1 & I2 & I3 & I4 & I5).
    destruct (fresh_addrs (to_lower a :: sn) l) as [out sn']. cbn [fst snd map] in *.
    split_and!.
    + by constructor.
    + constructor; [|done]. intros (b & E & Hb)%list_elem_of_fmap. apply I3 in Hb. rewrite <-E in Hb. set_solver.
    + intros b [->|Hb]%elem_of_cons; [done|]. apply I3 in Hb. set_solver.
    + intros x. rewrite I4. set_solver.
    + intros b [->|Hb]%elem_of_cons; [|by apply I5]. apply I4. left. left.
Qed.

(** The router named the address in a reply to the question about one of the types. *)
Definition listed (a : string) : Prop :=
  exists st body l, st ∈ warmServiceTypes /\
    fetched (W := W) (r_providersURL r +:+ "?service_type=" +:+ str_of (QueryEscape (bytes_of st))) body /\
    unmarshal (unmarshal_struct providerList_fields []) body = Ok l /\ a ∈ l /\ a <> "".

Lemma listFor_ok st (g : gstate W) : st ∈ warmServiceTypes ->
  let o := listProviderAddrsFor r deadline st g in
  g_quotes o.2 = g_quotes g /\ g_log o.2 = g_log g /\ forall l, o.1 = Ok l -> Forall listed l.
Proof.
  intros Hst. unfold listProviderAddrsFor. set (u := _ +:+ _).
  pose proof (get_ok_quotes "list providers" deadline u g) as Eq. pose proof (get_ok_log "list providers" deadline u g) as El.
  destruct (get_ok _ _ _ _) as [[body|err] g1] eqn:E; cbn in Eq, El |- *; (split_and!; [done|done|]); [|done].
  apply get_ok_fetched in E as [Hf _]. intros l Hl.
  destruct (unmarshal _ body) as [raw|] eqn:Eu; cbn in Hl; [|done]. injection Hl as <-.
  destruct (fresh_addrs_ok (List.filter (fun a => negb (String.eqb a "")) raw) []) as (Hs & _).
  eapply Forall_of_sublist; [exact Hs|]. apply Forall_forall. intros a Ha.
  apply list_elem_of_In, filter_In in Ha as [Hin Hne]. apply list_elem_of_In in Hin.
  exists st, body, raw. split_and!; try done. by apply negb_true_iff, String.eqb_neq in Hne.
Qed.

Lemma list_types_ok types : types ⊆ warmServiceTypes -> forall acc sn n (g : gstate W),
  NoDup (map to_lower acc) -> (forall x, x ∈ sn <-> x ∈ map to_lower acc) -> Forall listed acc ->
  let o := list_types r deadline types acc sn n g in
  g_quotes o.2 = g_quotes g /\ g_log o.2 = g_log g /\
  forall addrs m, o.1 = Ok (addrs, m) -> NoDup (map to_lower addrs) /\ Forall listed addrs.
Proof.
  induction types as [|st types IH]; intros Ht acc sn n g Hd Hs Hl; cbn [list_types].
  { cbn. split_and!; [done|done|]. by intros addrs m [= <- <-]. }
  destruct (listFor_ok st g ltac:(set_solver)) as (Eq & El & Hres).
  destruct (listProviderAddrsFor r deadline st g) as [[got|err] g1]; cbn [fst snd] in Eq, El, Hres.
  - destruct (fresh_addrs_ok got sn) as (F1 & F2 & F3 & F4 & _). destruct (fresh_addrs sn got) as [out sn']. cbn [fst snd] in *.
    destruct (IH ltac:(set_solver) (acc ++ out) sn' (S n) g1) as (I1 & I2 & I3).
    + rewrite map_app. apply NoDup_app. split_and!; [done| |done].
      intros x Hx (b & -> & Hb)%list_elem_of_fmap. by apply (F3 b Hb), Hs.
    + intros x. rewrite F4, Hs, map_app, elem_of_app. done.
    + apply Forall_app. split; [done|]. eapply Forall_of_sublist; [exact F1|]. by apply Hres.
    + split_and!; congruence || done.
  - destruct (canceledBy (g_world g1)); [cbn; by split_and!|].
    destruct (IH ltac:(set_solver) acc sn n g1 Hd Hs Hl) as (I1 & I2 & I3). split_and!; congruence || done.
Qed.

Lemma listProviderAddrs_ok (g : gstate W) :
  let o := listProviderAddrs r warmServiceTypes deadline g in
  g_quotes o.2 = g_quotes g /\ g_log o.2 = g_log g /\
  forall addrs, o.1 = Ok addrs -> NoDup (map to_lower addrs) /\ Forall listed addrs.
Proof.
  unfold listProviderAddrs. destruct (list_types_ok warmServiceTypes (reflexivity _) [] [] 0 g) as (E1 & E2 & E3); [constructor|done|constructor|].
  destruct (list_types _ _ _ _ _ _ _) as [[[addrs n]|err] g1]; cbn in *; (split_and!; [done|done|]); [|done].
  intros l. destruct (Nat.eqb n 0); [done|]. intros [= <-]. by eapply E3.
Qed.

(** ** The sweep *)

Context (endpoints : option (string -> W -> cresult ServiceInfo * W)).
Definition once : state -> state :=
  WarmOnce r warmServiceTypes k kj range deadline turns patience meanwhile factsOf seen endpoints.

(** A sweep publishes what it prepared. A sweep that is cut short leaves the readiness
    it found; one that is not publishes, at its end, how many providers the router listed,
    each once however it is spelled, and how many of them are ready: for each of those an
    endpoint resolved on chain, a quote served there and verified, a live reading of the
    chain that vouches for the quote's signer where the chain is enforced, and a passed gate
    where the gate is; and the gauge says the same. If nothing could be listed, none is. *)
Theorem sweep_sound v info s : ck_verifier k = Some v -> endpoints = Some info -> honest_state s ->
  let s' := once s in
  if canceled s' then
    w_state s' = MkWarmState (ws_At (w_state s)) (Some (w_now s)) (ws_Ready (w_state s)) (ws_Total (w_state s))
  else exists addrs ready,
    w_state s' = MkWarmState (Some (w_now s')) (Some (w_now s)) (length ready) (length addrs) /\
    last (w_log s') = Some (WarmerReadyProviders (length ready)) /\
    NoDup (map to_lower addrs) /\ Forall listed addrs /\ sublist ready addrs /\ Forall (ready_by v info) ready.
Proof.
  intros Hv He [Hc Hl Hi]. unfold once, WarmOnce. rewrite Hv, He. cbv zeta.
  change (w_g (beginSweep s)) with (w_g s). destruct (listProviderAddrs_ok (w_g s)) as (Eq & El & Hlist).
  destruct (listProviderAddrs r warmServiceTypes deadline (w_g s)) as [[addrs|err] g]; cbn [fst snd] in Eq, El, Hlist.
  - assert (honest_state (with_g g (beginSweep s))) as H1'.
    { split; [|unfold logs_ok; cbn; by rewrite El|done]. intros v' Hv' u res exp. cbn. rewrite Eq. by apply Hc. }
    pose proof (sweep_ok v info addrs 0 _ Hv H1') as Hs. cbv zeta in Hs.
    destruct (sweep _ _ _ _ _ _ _ _ v info addrs 0 _) as [[m|] s2]; cbn [fst snd] in Hs; destruct Hs as (_ & Hst & Hs).
    + destruct Hs as (Hcc & ready & Hsub & -> & Hr). change (canceled (finishSweep _ _ _)) with (canceled s2). rewrite Hcc.
      destruct (Hlist addrs eq_refl) as [Hd Hall]. exists addrs, ready. split_and!; try done.
      * cbn. by rewrite Hst.
      * cbn. by rewrite last_snoc.
    + rewrite Hs. by rewrite Hst.
  - destruct (canceled (with_g g (beginSweep s))) eqn:Ec; [by rewrite Ec|].
    change (canceled (finishSweep _ _ _)) with (canceled (with_g g (beginSweep s))). rewrite Ec.
    exists [], []. split_and!; try done; [cbn; by rewrite last_snoc|constructor..].
Qed.

Lemma once_honest s : honest_state s -> honest_state (once s).
Proof.
  intros Hs. unfold once, WarmOnce. destruct (ck_verifier k) as [v|] eqn:Hv; [|done].
  destruct endpoints as [info|]; [|done]. cbv zeta. change (w_g (beginSweep s)) with (w_g s).
  destruct (listProviderAddrs_ok (w_g s)) as (Eq & El & _). destruct (listProviderAddrs _ _ _ _) as [[addrs|err] g]; cbn [fst snd] in *.
  all: assert (honest_state (with_g g (beginSweep s))) as H1' by
    (destruct Hs as [Hc Hl Hi]; split; [intros v' Hv' u res exp; cbn; rewrite Eq; by apply Hc|unfold logs_ok; cbn; by rewrite El|done]).
  - pose proof (sweep_ok v info addrs 0 _ Hv H1') as [Hx _].
    destruct (sweep _ _ _ _ _ _ _ _ _ _ _ _ _) as [[m|] s2]; [|done]. by destruct Hx as [? ? ?].
  - destruct (canceled _); [done|]. by destruct H1' as [? ? ?].
Qed.

(** ** A fleet that is well *)

(** A GET of the URL is answered with the body. *)
Definition answers_get (url : string) (body : bytes) : Prop :=
  url_ok url = true /\ forall dl w, exists resp w', rt_do dl (MkHttpRequest url ∅ []) w = (Ok resp, w') /\
    hs_Status resp = StatusOK /\ read_all_limited maxControlBodyBytes resp = Ok body.

Record well (v : Verifier) (info : string -> W -> cresult ServiceInfo * W) : Prop := {
  we_running w : canceledBy w = false;
  we_patient w : leaves w = false;
  we_types : warmServiceTypes <> [];
  we_list st : st ∈ warmServiceTypes -> exists body l,
    answers_get (r_providersURL r +:+ "?service_type=" +:+ str_of (QueryEscape (bytes_of st))) body /\
    unmarshal (unmarshal_struct providerList_fields []) body = Ok l;
  we_provider a : listed a -> exists endpoint url reply raw res,
    (forall w, exists i w', info a w = (Ok i, w') /\ si_URL i = endpoint) /\ endpoint <> "" /\
    deriveQuoteURL endpoint = Ok url /\ answers_get url reply /\
    DecodeQuoteResponse reply = Ok raw /\ quoteResultOf v raw reply = Ok res /\
    (ck_registry k = true -> forall w, exists got w', RefreshSigner a w = (Ok got, w') /\ signerAgrees got (qr_signer res) = true) /\
    (ch_enforce kj = true -> forall x, (providerPasses kj turns patience a (factsOf res) x).1.1.1 = [])
}.

Lemma get_answered what dl url body (g : gstate W) : answers_get url body -> (get_ok what dl url g).1 = Ok body.
Proof.
  intros [Hu Ha]. unfold get_ok. rewrite Hu. cbn [negb]. destruct (Ha dl (g_world g)) as (resp & w' & -> & Hst & Hr).
  cbn. rewrite Hr, Hst. done.
Qed.

Lemma well_lists v info : well v info -> forall types, types ⊆ warmServiceTypes -> forall acc sn n g,
  exists addrs, (list_types r deadline types acc sn n g).1 = Ok (addrs, (n + length types)%nat).
Proof.
  intros Hw types. induction types as [|st types IH]; intros Ht acc sn n g; cbn [list_types].
  { exists acc. by rewrite Nat.add_0_r. }
  destruct (we_list _ _ Hw st ltac:(set_solver)) as (body & l & Ha & Hl).
  pose proof (get_answered "list providers" deadline _ _ g Ha) as Hg. unfold listProviderAddrsFor.
  destruct (get_ok _ _ _ _) as [b g1]. cbn in Hg. subst b. rewrite Hl. cbn [map_err mbind result_bind].
  destruct (fresh_addrs sn _) as [out sn']. destruct (IH ltac:(set_solver) (acc ++ out) sn' (S n) g1) as [addrs E].
  exists addrs. rewrite E. do 2 f_equal. cbn. lia.
Qed.

Lemma well_provider v info addr s : well v info -> listed addr ->
  (warm_provider k kj range turns patience meanwhile factsOf seen v info addr s).1 = true.
Proof.
  intros Hw Ha. destruct (we_provider _ _ Hw addr Ha) as (endpoint & url & reply & raw & res & Hi & Hne & Hu & Hg & Hd & Hq & Hc & Hp).
  unfold warm_provider. destruct (Hi (g_world (w_g s))) as (i & w & -> & Ei). rewrite Ei, (proj2 (String.eqb_neq _ _) Hne).
  cbn [w_g with_g]. unfold refreshQuote. rewrite Hu.
  assert (forall g, (verifyAndCache v url g).1 = Ok res) as Hv.
  { intros g. unfold verifyAndCache, verifyAndCacheFor, verifyQuoteAt, fetchQuote. set (dl := g_now g + quoteVerifyTimeout).
    pose proof (get_answered "fetch provider quote" dl _ _ g Hg) as E. destruct (get_ok _ _ _ _) as [b g1]. cbn in E. subst b.
    rewrite Hd. cbn. rewrite Hq. by rewrite (we_patient _ _ Hw). }
  specialize (Hv (with_world w (w_g s))). destruct (verifyAndCache _ _ _) as [o g1]. cbn in Hv. subst o. cbn [is_ok].
  set (s1 := wlog _ _).
  assert (exists onchain s2, refreshSigner k addr (qr_signer res) true s1 = ((onchain, true), s2)) as (onchain & s2 & ->).
  { unfold refreshSigner. destruct (ck_registry k) eqn:Er; [|by eexists _, _]. cbn [negb].
    destruct (Hc eq_refl (g_world (w_g s1))) as (got & w' & -> & Hagree). pose proof (signerAgrees_acked _ _ Hagree) as ->.
    rewrite Hagree, andb_false_r. cbn [negb orb].
    assert (quote_of (W := W) v endpoint res) as Hqo.
    { exists url. split; [done|]. exists raw, reply. split; [|done]. destruct Hg as [_ Hg].
      destruct (Hg 0 w) as (resp & w'' & Hdo & Hst & Hr). by exists 0, w, resp, w''. }
    rewrite (proj2 (String.eqb_neq _ _) (quote_signer _ _ _ Hqo)). by eexists _, _. }
  cbn [fst snd]. unfold canceled. rewrite (we_running _ _ Hw). unfold publish. cbv zeta.
  destruct (observeBaseline _ _ _ _ _ _ _) as [[b o] a]. destruct (ch_enforce kj); [|done]. cbn [andb].
  match goal with |- context [providerPasses _ _ _ _ _ ?x] => pose proof (Hp eq_refl x) as Hx;
    destruct (providerPasses kj turns patience addr (factsOf res) x) as [[[failed rt] bl] a'] end.
  cbn in Hx |- *. by rewrite Hx.
Qed.

(** A fleet that is well is found ready. If the router lists its providers, the chain
    has an endpoint for each and vouches for the signer of the quote served there, the
    quotes verify and the gate passes, then a sweep publishes that every provider listed is
    ready. *)
Theorem healthy_fleet_ready v info s : ck_verifier k = Some v -> endpoints = Some info -> well v info ->
  exists n, let x := w_state (once s) in ws_Ready x = n /\ ws_Total x = n /\ is_Some (ws_At x) /\
  last (w_log (once s)) = Some (WarmerReadyProviders n).
Proof.
  intros Hv He Hw. unfold once, WarmOnce. rewrite Hv, He. cbv zeta. change (w_g (beginSweep s)) with (w_g s).
  destruct (listProviderAddrs_ok (w_g s)) as (_ & _ & Hlist). unfold listProviderAddrs in *.
  destruct (well_lists v info Hw warmServiceTypes (reflexivity _) [] [] 0 (w_g s)) as [addrs E].
  destruct (list_types _ _ _ _ _ _ _) as [o g]. cbn in E. subst o. cbn [fst snd] in Hlist.
  assert (Nat.eqb (0 + length warmServiceTypes) 0 = false) as E0.
  { pose proof (we_types _ _ Hw). by destruct warmServiceTypes. }
  cbn [Nat.add] in E0. cbn [Nat.add] in Hlist |- *. rewrite E0 in Hlist |- *.
  destruct (Hlist addrs eq_refl) as [_ Hall].
  assert (forall n s, exists s', sweep k kj range turns patience meanwhile factsOf seen v info addrs n s = (Some (n + length addrs)%nat, s')) as Hsw.
  { clear -Hall Hw. induction addrs as [|addr addrs IH]; intros n s; cbn [sweep]; unfold canceled; rewrite (we_running _ _ Hw).
    - exists s. by rewrite Nat.add_0_r.
    - apply Forall_cons in Hall as [Ha Hall]. pose proof (well_provider v info addr s Hw Ha) as Hp.
      destruct (warm_provider _ _ _ _ _ _ _ _ v info addr s) as [p s1]. cbn in Hp. subst p.
      destruct (IH Hall (S n) s1) as [s' ->]. exists s'. do 2 f_equal. cbn. lia. }
  destruct (Hsw 0%nat (with_g g (beginSweep s))) as [s' ->]. exists (length addrs). cbn.
  split_and!; [done|done|by eexists|]. by rewrite last_snoc.
Qed.

(** ** The panel *)

(** What [Router.ProviderIdentity] answers: the record, and the judge's word on what was
    read at the verification, as it is now. *)
Definition Router_ProviderIdentity (kept : ProviderIdentity -> providerFacts) (address : string) (s : state)
    : option (ProviderIdentity * runtimeVerdict * baselineVerdict) * state :=
  match identity_get (w_now s) address (w_ids s) with
  | (None, ids) => (None, with_ids ids s)
  | (Some id, ids) =>
      let '(rt, a) := judgeRuntime kj turns (pf_runtime (kept id)) false (w_ask s) in
      let '(bl, a) := judgeBaseline kj turns (id_Address id) (pf_manifest (kept id)) false a in
      (Some (id, rt, bl), with_ask a (with_ids ids s))
  end.

(** What happens to a process: sweeps, requests that turn a candidate into a provider and
    the records they make, reads, and the world going on. *)
Context (between : gstate W -> gstate W).
Inductive lives : state -> state -> Prop :=
| lives_sweep s : lives s (once s)
| lives_request s url dl prov stale : lives s (with_g (materialize k between url dl prov stale (w_g s)).2 s)
| lives_record s id : EvIdentity id ∈ g_log (w_g s) -> lives s (with_ids (put range (w_now s) id (w_ids s)) s)
| lives_read s kept address : lives s (Router_ProviderIdentity kept address s).2
| lives_world s w : lives s (with_g (with_world w (w_g s)) s).

(** C26: the panel is told the truth. In whatever order a process serves requests, sweeps
    the fleet and is asked, a provider's record says what was established about it: its
    quote was served at the URL the record names and passed the verifier this process has,
    with the record's verdict on the boot chain; where the record says that the chain
    acknowledges the signer, a reading of the registry for that address vouched for the
    signer of that quote, and where it says that it does not, a reading denied it. *)
Theorem panel_honest s s' kept address id rt bl :
  fair between -> (forall g, logs_ok k g -> logs_ok k (between g)) ->
  honest_state s -> rtc lives s s' -> (Router_ProviderIdentity kept address s').1 = Some (id, rt, bl) ->
  exists v addr endpoint res, ck_verifier k = Some v /\ quote_of (W := W) v endpoint res /\
    id = providerIdentityOf addr endpoint res (id_OnChainSigner id) /\
    (id_OnChainSigner id = VerdictPass -> vouches (W := W) addr (qr_signer res)) /\
    (id_OnChainSigner id = VerdictNoMatch -> denied (W := W) addr (qr_signer res)) /\
    (id_OnChainSigner id = VerdictNotChecked -> ck_registry k = false).
Proof.
  intros Hf Hlog Hs Hrun. assert (honest_state s') as [_ _ Hi].
  { induction Hrun as [|s s1 s2 Hstep _ IH]; [done|]. apply IH. clear IH. destruct Hstep as [s|s url dl prov stale|s id0 Hin|s kept0 address0|s w].
    - by apply once_honest.
    - destruct Hs as [Hc Hl Hi]. split; [by apply materialize_ok|by apply materialize_logs|done].
    - destruct Hs as [Hc Hl Hi]. split; [done|done|]. apply all_held_record; [done|].
      exact (proj1 (Forall_forall _ _) Hl _ Hin).
    - unfold Router_ProviderIdentity. pose proof (all_held_get (vetted_record (W := W) k) (w_now s) address0 (w_ids s) (hs_ids _ Hs)) as [Hg _].
      destruct Hs as [Hc Hl Hi]. destruct (identity_get _ _ _) as [[id0|] ids]; [|by split].
      destruct (judgeRuntime _ _ _ _ _) as [rt0 a]. destruct (judgeBaseline _ _ _ _ _ _) as [bl0 a']. by split.
    - by destruct Hs as [Hc Hl Hi]. }
  unfold Router_ProviderIdentity. pose proof (all_held_get (vetted_record (W := W) k) (w_now s') address (w_ids s') Hi) as [_ Hg].
  destruct (identity_get _ _ _) as [[id0|] ids]; [|done].
  destruct (judgeRuntime _ _ _ _ _) as [rt0 a]. destruct (judgeBaseline _ _ _ _ _ _) as [bl0 a']. intros [= -> -> ->].
  destruct (Hg id eq_refl) as (v & addr & endpoint & res & onchain & Hv & -> & Hq & H1' & H2' & H3').
  by exists v, addr, endpoint, res.
Qed.
End sweeps.

(** ** Witnesses *)

Module WarmerWitness.
Import GroundWitness.
Definition stranger : string := "0x00000000000000000000000000000000000000Cc".
(** The router's answer to the warmer: its providers, one of them twice. *)
Definition fleet (l : list string) : HttpResponse cerr :=
  MkHttpResponse 200 ∅ (print (jobject [("data", JArr (map (fun a => jobject [("address", jstr a)]) l))])) None.
Definition list_url : string := "https://router.example/v1/providers?service_type=chatbot".
Definition net (l : list string) : RouterOutside Z := {|
  url_ok := fun _ => true;
  rt_do := fun _ q w => (Ok (if String.eqb (hq_URL q) quote_url then quote_reply else fleet l), w + Second);
  rt_read := fun _ _ w => w;
  pause := fun d w => (true, w + d);
  rt_gate := fun _ => MkGate 0 None;
  set_gate := fun _ w => w |}.
Definition registered (a : string) (w : Z) : cresult ServiceInfo * Z :=
  if String.eqb (ProviderKey a) (ProviderKey addr) then (Ok (MkServiceInfo "https://p.example/v1" new_signer true), w)
  else (Err (EMsg "not registered"), w).
Definition no_checks : Judge.checks := MkChecks None None false.
Definition start : sweeping Z :=
  MkSweeping (at_zero cold) (Some (newIdentityStore providerIdentityTTL maxProviderIdentities))
    (MkAsking newReleaseJudge [] 0) (MkWarmState None None 0 0) [].
Definition no_facts (_ : quoteResult) : providerFacts := MkPF (MkRtFacts (Err RFailed) "" []) (MkMfFacts None "").
Definition swept (l : list string) (s : sweeping Z) : sweeping Z :=
  @once Z clock (net l) (chain_of new_signer) patient one_url router ["chatbot"] GroundWitness.checks no_checks
    IdentityWitness.order 0 (fun _ => ([], 0)) (fun _ => 0%nat) id no_facts (fun _ => None) (Some registered) s.
Definition twice : list string := [addr; to_lower addr; stranger].

Lemma start_honest l : @honest_state Z (net l) (chain_of new_signer) one_url GroundWitness.checks start.
Proof.
  split; [|constructor|].
  - intros v _ url res exp E. cbn in E. by rewrite lookup_empty in E.
  - intros st key e [= <-] Hl. cbn in Hl. by rewrite lookup_empty in Hl.
Qed.
Lemma two_found : w_state (swept twice start) = MkWarmState (Some (2 * Second)) (Some 0) 1 2.
Proof. vm_compute. reflexivity. Qed.

(** A sweep, and a panel that asks under another spelling. *)
Definition asked : option (ProviderIdentity * runtimeVerdict * baselineVerdict) * sweeping Z :=
  @Router_ProviderIdentity Z clock no_checks (fun _ => ([], 0)) (fun _ => no_facts old_quote) " 0X00000000000000000000000000000000000000BB"
    (swept twice start).
Definition answer : ProviderIdentity * runtimeVerdict * baselineVerdict := Eval vm_compute in
  match asked.1 with
  | Some a => a
  | None => (MkIdentity "" "" "" VerdictNoMatch VerdictNoMatch VerdictNoMatch "", MkRV VerdictNoMatch "" "" [], MkBV VerdictNoMatch "" [])
  end.
Lemma asked_answer :
  (@Router_ProviderIdentity Z clock no_checks (fun _ => ([], 0)) (fun _ => no_facts old_quote) " 0X00000000000000000000000000000000000000BB"
    (swept twice start)).1 = Some (answer.1.1, answer.1.2, answer.2).
Proof. vm_compute. reflexivity. Qed.

Definition providers_body : bytes := Eval vm_compute in hs_Body (fleet [addr]).
Lemma listed_only_addr a : @listed Z (net [addr]) router ["chatbot"] a -> a = addr.
Proof.
  intros (st & body & l & Hst & (dl & w & resp & w' & Hdo & _ & Hb) & Hl & Ha & _).
  apply list_elem_of_singleton in Hst as ->. cbn [net rt_do hq_URL] in Hdo.
  change (String.eqb _ quote_url) with false in Hdo. cbv iota in Hdo. injection Hdo as <- _.
  assert (body = providers_body) as -> by (vm_compute in Hb; injection Hb as <-; reflexivity).
  assert (l = [addr]) as -> by (vm_compute in Hl; injection Hl as <-; reflexivity).
  by apply list_elem_of_singleton in Ha.
Qed.
Lemma fleet_well : @well Z clock (net [addr]) (chain_of new_signer) patient one_url router ["chatbot"] GroundWitness.checks no_checks
  (fun _ => ([], 0)) (fun _ => 0%nat) no_facts verifier registered.
Proof.
  split; [done|done|done| |].
  - intros st ->%list_elem_of_singleton. exists providers_body, [addr]. split; [|vm_compute; reflexivity].
    split; [done|]. intros dl w. eexists _, _. split; [reflexivity|]. split; vm_compute; reflexivity.
  - intros a ->%listed_only_addr. exists "https://p.example/v1", quote_url, (hs_Body quote_reply), (bytes_of "new"), new_quote.
    split_and!; [|done|vm_compute; reflexivity| |vm_compute; reflexivity|vm_compute; reflexivity| |done].
    + intros w. exists (MkServiceInfo "https://p.example/v1" new_signer true), w. split; reflexivity.
    + split; [done|]. intros dl w. eexists _, _. split; [reflexivity|]. split; vm_compute; reflexivity.
    + intros _ w. exists (MkSigner new_signer true false false), w. split; [reflexivity|]. vm_compute. reflexivity.
Qed.
End WarmerWitness.

Section witnesses.
Import GroundWitness WarmerWitness.

Lemma panel_honest_witness : id_OnChainSigner answer.1.1 = VerdictPass /\
  exists v addr endpoint res, ck_verifier GroundWitness.checks = Some v /\
    @quote_of Z (net twice) one_url v endpoint res /\ @vouches Z (chain_of new_signer) addr (qr_signer res).
Proof.
  split; [reflexivity|].
  destruct (@panel_honest Z clock (net twice) (chain_of new_signer) patient one_url router ["chatbot"] GroundWitness.checks no_checks
    IdentityWitness.order 0 (fun _ => ([], 0)) (fun _ => 0%nat) id no_facts (fun _ => None) (Some registered) id
    start (swept twice start) (fun _ => no_facts old_quote) " 0X00000000000000000000000000000000000000BB"
    answer.1.1 answer.1.2 answer.2) as (v & a & endpoint & res & Hv & Hq & _ & Hp & _).
  - intros v s Hq. exact Hq.
  - intros g Hg. exact Hg.
  - apply start_honest.
  - eapply rtc_once, lives_sweep.
  - exact asked_answer.
  - exists v, a, endpoint, res. split; [exact Hv|]. split; [exact Hq|]. apply Hp. reflexivity.
Defined.

Lemma healthy_fleet_ready_witness : exists n, ws_Ready (w_state (swept [addr] start)) = n /\ ws_Total (w_state (swept [addr] start)) = n.
Proof.
  destruct (@healthy_fleet_ready Z clock (net [addr]) (chain_of new_signer) patient one_url router ["chatbot"] GroundWitness.checks no_checks
    IdentityWitness.order 0 (fun _ => ([], 0)) (fun _ => 0%nat) id no_facts (fun _ => None) (Some registered)
    verifier registered start eq_refl eq_refl fleet_well) as (n & E1 & E2 & _).
  exists n. split; [exact E1|exact E2].
Defined.

Lemma uncanceled (s : sweeping Z) : @canceled Z clock s = false.
Proof. reflexivity. Qed.

Lemma sweep_sound_witness : exists addrs ready : list string,
  ws_Ready (w_state (swept twice start)) = length ready /\ ws_Total (w_state (swept twice start)) = length addrs /\
  length ready = 1%nat /\ length addrs = 2%nat /\ sublist ready addrs.
Proof.
  pose proof (@sweep_sound Z clock (net twice) (chain_of new_signer) patient one_url router ["chatbot"] GroundWitness.checks no_checks
    IdentityWitness.order 0 (fun _ => ([], 0)) (fun _ => 0%nat) id no_facts (fun _ => None) (Some registered)
    verifier registered start eq_refl eq_refl (start_honest twice)) as Hs.
  cbv zeta in Hs. rewrite uncanceled in Hs. destruct Hs as (addrs & ready & Hw & _ & _ & _ & Hsub & _). exists addrs, ready.
  assert (w_state (swept twice start) = MkWarmState (Some (w_now (swept twice start))) (Some (w_now start)) (length ready) (length addrs))
    as Hw' by exact Hw. clear Hw. pose proof two_found as E. rewrite E in Hw' |- *. cbn [ws_Ready ws_Total].
  pose proof (f_equal ws_Ready Hw') as E1. pose proof (f_equal ws_Total Hw') as E2. cbn [ws_Ready ws_Total] in E1, E2.
  rewrite <-E1, <-E2. split_and!; [reflexivity..|exact Hsub].
Defined.
End witnesses.
