(* ===== verification/Direct.v ===== *)
(** * Direct: one fixed broker, and the fetch of its signatures ([client/route]: direct.go,
    sigfetch.go)

    [directResolver] offers the client the one provider it was built with, in the place of
    the router's candidates; its key is read as [Ground] reads a candidate's. The
    [SignatureFetcher] asks a provider's own endpoint for the signature of an answer, a few
    times over; it fills the slot [fetch_signature] of the client. The caller's context is
    [deadline] and [ctx_err], what [ctx.Err] says in a world.

    The theorems: with the client on top, every post goes to the broker's chat path, sealed
    under a key a verified quote of that broker vouched for; what a fetch returns was served
    at the provider's signature path for exactly that key, within a bounded time; and the
    key of an answer, which an untrusted hop names, stays one segment of that path. *)

From S2P Require Import Prelude GoBytes GoJson GoDecode GoUrl Profile Hpke Envelope GoHttp Attest Signature Walk Client Stream RateLimit Endpoint Preview Chain Ground Baseline GoServe.

Section resolver.
Context `{UrlLib}.

Record directResolver := MkDirect { d_providerURL : string; d_chatURL : string }.

Definition NewDirect (providerURL : string) : cresult directResolver :=
  _ ← refuse (String.eqb (trim_space providerURL) "") (EMsg "direct provider URL is required");
  base ← map_err (EWrap "direct provider URL") (deriveV1Base providerURL);
  Ok (MkDirect providerURL (base +:+ "/proxy/chat/completions")).

Context {W : Type} `{World W} `{RouterOutside W} `{Flights W}.
Context (k : Checks) (between : gstate W -> gstate W) (d : directResolver).

(** [directCandidates.materialize]. *)
Definition direct_materialize (deadline : Z) (stale : option PublicKey) (s : gstate W) : cresult Provider * gstate W :=
  let '(keys, s) :=
    match ck_verifier k with
    | Some v =>
        match freshProvider between v (d_providerURL d) stale s with
        | (Err err, s) => (Err err, s)
        | (Ok (res, _), s) => (Ok (qr_encPub res, qr_signer res), s)
        end
    | None =>
        match derivePubkeyURL (d_providerURL d) with
        | Err err => (Err (upstream 0 (EWrap "provider endpoint" err)), s)
        | Ok url => freshPubkey deadline url stale s
        end
    end in
  ('(encPub, signer) ← keys;
   Ok (MkProvider (d_chatURL d) encPub signer "" None (d_providerURL d) "" false), s).

Definition directCandidates : Candidates (gstate W) :=
  MkCandidates 1 (fun deadline _ => direct_materialize deadline None)
    (Some (fun deadline _ stale => direct_materialize deadline (Some stale))).

Definition direct_Resolve (ep : Endpoint) : cresult (Candidates (gstate W)) :=
  if negb (String.eqb (ep_Path ep) (ep_Path Chat)) then Err (EMsg "direct-broker mode serves only the chat endpoint")
  else Ok directCandidates.
End resolver.

(** ** Fetching a signature *)

Definition maxSignatureBytes : Z := 65536.
Definition sigFetchAttempts : nat := 3.
Definition sigFetchBackoff : Z := 200000000.
Definition sigFetchTimeout : Z := 15 * Second.

Definition validChatKey (s : string) : bool :=
  let n := length (bytes_of s) in
  Nat.leb 1 n && Nat.leb n 64 && forallb (fun c => alnum_byte c || Ascii.eqb c "_" || Ascii.eqb c "-") (bytes_of s).

Definition deriveSignatureURL `{UrlLib} (endpoint chatKey : string) : cresult string :=
  _ ← refuse (negb (validChatKey chatKey)) (EMsg "invalid chatKey");
  base ← deriveV1Base endpoint;
  Ok (base +:+ "/proxy/signature/" +:+ chatKey).

Definition ChatSignature_fields : list (string * (ChatSignature -> json -> result jerr ChatSignature)) :=
  [("text", fun '(MkChatSignature t s a g) j => v ← set_string t j; Ok (MkChatSignature v s a g));
   ("signature", fun '(MkChatSignature t s a g) j => v ← set_string s j; Ok (MkChatSignature t v a g));
   ("signing_address", fun '(MkChatSignature t s a g) j => v ← set_string a j; Ok (MkChatSignature t s v g));
   ("signing_algo", fun '(MkChatSignature t s a g) j => v ← set_string g j; Ok (MkChatSignature t s a v))].

(** [Decoder.Decode] of a body read up to a limit: the first value, whatever follows it. A
    value that only the end of the body ends is not read when the body ends in an error. *)
Definition decode_limited {E T} (dec : json -> result jerr T) (limit : Z) (resp : HttpResponse E) : result jerr T :=
  let torn := match hs_BodyErr resp with Some _ => Z.of_nat (length (hs_Body resp)) <? limit | None => false end in
  '(j, rest) ← decode_first (take_z limit (hs_Body resp));
  _ ← refuse (torn && match rest, j with [], JObj _ | [], JArr _ => false | [], _ => true | _, _ => false end) JSyntax;
  dec j.
Definition decode_signature : HttpResponse cerr -> result jerr ChatSignature :=
  decode_limited (unmarshal_struct ChatSignature_fields (MkChatSignature "" "" "" "")) maxSignatureBytes.

(** What [fetchOnce] may fail with; a build failure is [errRequestBuild]. *)
Inductive fetchFailure := FBuild | FTransport (e : cerr) | FStatus (status : Z) | FDecode (e : jerr).
Definition retryable (f : fetchFailure) : bool :=
  match f with
  | FTransport _ => true
  | FStatus n => (n =? 404) || (500 <=? n) && (n <=? 599)
  | _ => false
  end.
Definition failure_error (f : fetchFailure) : cerr :=
  match f with
  | FBuild => EMsg "build signature request"
  | FTransport e => EWrap "get signature" e
  | FStatus _ => EMsg "signature endpoint returned an error status"
  | FDecode e => EWrap "decode signature" (EJson e)
  end.

Section fetching.
Context {W : Type} `{World W} `{RouterOutside W} `{UrlLib}.
(** The deadline of the caller's context and what [ctx.Err] says of it, [Some true] being a
    deadline that passed; and the client's own bound on a request, if it has one. *)
Context (deadline : Z) (ctx_err : W -> option bool) (timeout : option Z).

Definition endedBy (w : W) : string :=
  match ctx_err w with Some true => "timeout" | _ => "canceled" end.

Definition fetchOnce (url : string) (w : W) : result fetchFailure ChatSignature * W :=
  if negb (url_ok url) then (Err FBuild, w)
  else
    let dl := match timeout with Some t => Z.min deadline (now w + t) | None => deadline end in
    match rt_do dl (MkHttpRequest url ∅ []) w with
    | (Err e, w) => (Err (FTransport e), w)
    | (Ok resp, w) =>
        if negb (hs_Status resp =? StatusOK) then (Err (FStatus (hs_Status resp)), w)
        else (map_err FDecode (decode_signature resp), rt_read dl resp w)
    end.

(** The attempts from the [attempt]-th on, [todo] of them; the outcome counted and the
    result. *)
Fixpoint fetch_attempts (url : string) (todo attempt : nat) (lastErr : cerr) (w : W) : (string * cresult ChatSignature) * W :=
  match todo with
  | O => (("failed", Err (EWrap "after its attempts" lastErr)), w)
  | S todo =>
      let '(waited, w) := match attempt with
                          | O => (true, w)
                          | S n => pause (Z.shiftl sigFetchBackoff (Z.of_nat n)) w
                          end in
      if negb waited then ((endedBy w, Err (EMsg "context done")), w)
      else
        match fetchOnce url w with
        | (Ok sig, w) => ((match attempt with O => "ok" | S _ => "ok_retried" end, Ok sig), w)
        | (Err f, w) =>
            let err := failure_error f in
            if retryable f && match ctx_err w with Some _ => true | None => false end then ((endedBy w, Err err), w)
            else if negb (retryable f) then ((match f with FBuild => "internal" | _ => "failed" end, Err err), w)
            else fetch_attempts url todo (S attempt) err w
        end
  end.

Definition FetchSignature (provider : Provider) (chatKey : string) (w : W) : (string * cresult ChatSignature) * W :=
  if String.eqb (p_Endpoint provider) "" then (("internal", Err (EMsg "no provider endpoint")), w)
  else match deriveSignatureURL (p_Endpoint provider) chatKey with
       | Err err => (("internal", Err err), w)
       | Ok url => fetch_attempts url sigFetchAttempts 0 (EMsg "") w
       end.
End fetching.

(** ** What a fetch returns *)

Section fetch_facts.
Context {W : Type} `{World W} `{RouterOutside W} `{UrlLib}.
Context (deadline : Z) (ctx_err : W -> option bool) (timeout : option Z).

(** A GET of the URL was answered 200 with a body that reads as the signature. *)
Definition served_signature (url : string) (sig : ChatSignature) : Prop :=
  exists dl w resp w', rt_do dl (MkHttpRequest url ∅ []) w = (Ok resp, w') /\ hs_Status resp = StatusOK /\
    decode_signature resp = Ok sig.

Lemma fetchOnce_served url w sig w' : fetchOnce deadline timeout url w = (Ok sig, w') -> served_signature url sig.
Proof.
  unfold fetchOnce. destruct (negb (url_ok url)); [done|]. cbv zeta. set (dl := match timeout with Some _ => _ | None => _ end).
  destruct (rt_do dl _ w) as [[resp|e] w1] eqn:E; [|done]. destruct (Z.eqb_spec (hs_Status resp) StatusOK) as [Es|]; [|done].
  cbn [negb]. intros Hd. apply (f_equal fst) in Hd. cbn in Hd. destruct (decode_signature _) eqn:Ed; [|done]. injection Hd as <-.
  by exists dl, w, resp, w1.
Qed.

Lemma attempts_served url todo : forall n e w o sig w',
  fetch_attempts deadline ctx_err timeout url todo n e w = ((o, Ok sig), w') -> served_signature url sig.
Proof.
  induction todo as [|todo IH]; intros n e w o sig w'; cbn [fetch_attempts]; [done|].
  destruct (match n with O => _ | S _ => _ end) as [waited w1]. destruct (negb waited); [done|].
  destruct (fetchOnce deadline timeout url w1) as [[s|f] w2] eqn:Ef.
  - intros [= _ <- _]. by eapply fetchOnce_served.
  - cbv zeta. destruct (retryable f && _); [done|]. destruct (negb (retryable f)); [done|]. apply IH.
Qed.

(** A key of an answer that is put in a path is one segment of it. *)
Lemma validChatKey_segment key c : validChatKey key = true -> c ∈ bytes_of key ->
  c <> "/"%char /\ c <> "."%char /\ c <> "%"%char /\ c <> "?"%char /\ c <> "#"%char.
Proof.
  unfold validChatKey. rewrite !andb_true_iff. intros [_ Hf] Hc. rewrite forallb_forall in Hf.
  apply list_elem_of_In in Hc. specialize (Hf c Hc). split_and!; intros ->; vm_compute in Hf; discriminate.
Qed.

(** *** Time *)

Context `{!RouterTiming}.

Lemma fetchOnce_time url w t : timeout = Some t -> 0 <= t ->
  now w <= now (fetchOnce deadline timeout url w).2 <= now w + t.
Proof.
  intros -> Ht. unfold fetchOnce. destruct (negb (url_ok url)); [cbn; lia|]. cbv zeta. set (dl := Z.min deadline (now w + t)).
  pose proof (rt_do_time dl (MkHttpRequest url ∅ []) w) as Hd.
  destruct (rt_do dl _ w) as [[resp|e] w1]; cbn in Hd |- *; [|lia].
  destruct (negb _); cbn; [lia|]. pose proof (rt_read_time dl resp w1). lia.
Qed.

(** The longest the pauses from the [n]-th attempt on may take. *)
Fixpoint pauses (todo n : nat) : Z :=
  match todo with
  | O => 0
  | S todo => match n with O => 0 | S m => Z.shiftl sigFetchBackoff (Z.of_nat m) end + pauses todo (S n)
  end.
Lemma pauses_nonneg todo : forall n, 0 <= pauses todo n.
Proof.
  induction todo as [|todo IH]; intros n; cbn [pauses]; [lia|]. specialize (IH (S n)).
  destruct n as [|m]; [lia|]. assert (0 <= Z.shiftl sigFetchBackoff (Z.of_nat m)) by (apply Z.shiftl_nonneg; done). lia.
Qed.

Lemma attempts_time url t : timeout = Some t -> 0 <= t -> forall todo n e w,
  now w <= now (fetch_attempts deadline ctx_err timeout url todo n e w).2 <= now w + Z.of_nat todo * t + pauses todo n.
Proof.
  intros Htm Ht todo. induction todo as [|todo IH]; intros n e w; cbn [fetch_attempts pauses]; [cbn; lia|].
  pose proof (pauses_nonneg todo (S n)) as Hnn.
  set (b := match n with O => 0 | S m => Z.shiftl sigFetchBackoff (Z.of_nat m) end).
  assert (0 <= b) as Hb by (unfold b; destruct n; [lia|]; by apply Z.shiftl_nonneg).
  set (pw := match n with O => (true, w) | S m => pause (Z.shiftl sigFetchBackoff (Z.of_nat m)) w end).
  assert (now w <= now pw.2 <= now w + b) as Hp.
  { unfold b, pw. destruct n as [|m]; [cbn; lia|]. apply pause_time. by apply Z.shiftl_nonneg. }
  destruct pw as [waited w1]. cbn [snd] in Hp. destruct (negb waited); [cbn; nia|].
  pose proof (fetchOnce_time url w1 t Htm Ht) as Hf. destruct (fetchOnce deadline timeout url w1) as [[s|f] w2]; cbn [snd] in Hf; [cbn; nia|].
  cbv zeta. destruct (retryable f && _); [cbn; nia|]. destruct (negb (retryable f)); [cbn; nia|].
  specialize (IH (S n) (failure_error f) w2). nia.
Qed.

(** C34: a signature comes from its provider, soon. A signature that is returned was read
    from a 200 answer to a GET of the provider's own signature path for exactly the key
    asked, which is one segment of that path whatever hop named it; and with the client's
    bound on a request, where round trips keep their deadlines and pauses their length
    ([RouterTiming]), a fetch takes no longer than its three requests and two pauses,
    whatever it comes to. *)
Theorem signature_fetched p chatKey w :
  let o := FetchSignature deadline ctx_err timeout p chatKey w in
  (forall sig, o.1.2 = Ok sig -> exists base, deriveV1Base (p_Endpoint p) = Ok base /\
     served_signature (base +:+ "/proxy/signature/" +:+ chatKey) sig /\
     (forall c, c ∈ bytes_of chatKey -> c <> "/"%char /\ c <> "."%char /\ c <> "%"%char /\ c <> "?"%char /\ c <> "#"%char)) /\
  (timeout = Some sigFetchTimeout -> now o.2 <= now w + 3 * sigFetchTimeout + 3 * sigFetchBackoff).
Proof.
  unfold FetchSignature. cbv zeta. destruct (String.eqb _ _).
  { split; [done|]. intros _. cbn. unfold sigFetchTimeout, sigFetchBackoff, Second. lia. }
  destruct (deriveSignatureURL (p_Endpoint p) chatKey) as [url|err] eqn:Eu.
  2:{ split; [done|]. intros _. cbn. unfold sigFetchTimeout, sigFetchBackoff, Second. lia. }
  unfold deriveSignatureURL in Eu. inv_ok.
  match goal with Hk : negb (validChatKey _) = false |- _ => apply negb_false_iff in Hk; rename Hk into Hkey end. split.
  - intros sig Hs. destruct (fetch_attempts _ _ _ _ _ _ _ _) as [[o r] w'] eqn:Ea. cbn in Hs. subst r.
    apply attempts_served in Ea. eexists. split_and!; [eassumption|congruence|]. intros c. by apply validChatKey_segment.
  - intros Etm. match goal with |- context [fetch_attempts _ _ _ ?u _ _ ?e _] =>
      pose proof (attempts_time u sigFetchTimeout Etm ltac:(done) sigFetchAttempts 0 e w) as Ht end.
    change (pauses sigFetchAttempts 0) with (3 * sigFetchBackoff) in Ht. change (Z.of_nat sigFetchAttempts) with 3 in Ht. lia.
Qed.
End fetch_facts.

(** ** The client on top *)

Section directed.
Context {W : Type} `{World W} `{RouterOutside W} `{SignerRegistry W} `{Flights W} `{UrlLib} `{Jcs} `{HpkeLib}.
Context (k : Checks) (between : gstate W -> gstate W) (others_fair : fair between).
Context (d : directResolver) (ep : Endpoint).
Context (deadline : Z) (ctx_err : W -> option bool) (timeout : option Z).

(** What a direct provider has behind it. *)
Record direct_offer (p : Provider) : Prop := {
  do_url : p_URL p = d_chatURL d;
  do_pin : p_Address p = "" /\ p_RouterProviderIdentity p = None /\ p_Model p = "" /\ p_BindResponse p = false;
  do_endpoint : p_Endpoint p = d_providerURL d;
  do_keys v : ck_verifier k = Some v ->
    exists res, quote_of (W := W) v (d_providerURL d) res /\ p_EncPubKey p = qr_encPub res /\ p_SignerAddr p = qr_signer res
}.

Lemma direct_materialize_ok dl stale (s : gstate W) : caches_ok k s ->
  caches_ok k (direct_materialize k between d dl stale s).2 /\
  (forall p, (direct_materialize k between d dl stale s).1 = Ok p -> direct_offer p).
Proof.
  intros Hq. unfold direct_materialize. destruct (ck_verifier k) as [v|] eqn:Hv.
  - destruct (freshProvider_ok between others_fair v (d_providerURL d) stale s (Hq v Hv)) as [Hq1 Ha].
    destruct (freshProvider between v (d_providerURL d) stale s) as [[[res c]|err] s1]; cbn in Hq1, Ha |- *;
      (split; [intros v' Hv'; rewrite Hv in Hv'; injection Hv' as <-; exact Hq1|]); [|done].
    intros p [= <-]. split; cbn; [done|by split_and!|done|]. intros v' E. assert (v' = v) as -> by congruence.
    exists res. split_and!; try done. by eapply Ha.
  - assert (forall s', caches_ok k s') as Hc by (intros s' v; congruence). split; [by apply Hc|].
    destruct (match derivePubkeyURL _ with Ok _ => _ | Err _ => _ end) as [[[e sg]|err] s1]; cbn; [|done].
    intros p [= <-]. split; cbn; [done|by split_and!|done|congruence].
Qed.

Definition vetted_direct (dl : Z) (stale : option PublicKey) : vetted k -> cresult Provider * vetted k :=
  lift k (direct_materialize k between d dl stale) (fun s Hs => proj1 (direct_materialize_ok dl stale s Hs)).
Definition vetted_directs : Candidates (vetted (W := W) k) :=
  MkCandidates 1 (fun dl _ => vetted_direct dl None) (Some (fun dl _ stale => vetted_direct dl (Some stale))).
Definition vetted_direct_Resolve (v : vetted k) : cresult (Candidates (vetted (W := W) k)) * vetted k :=
  (_ ← direct_Resolve k between d ep; Ok vetted_directs, v).
(** The fetcher in the client's slot; the outcome it counts is dropped. *)
Definition fetch_from (p : Provider) (chatKey : string) (s : gstate W) : cresult ChatSignature * gstate W :=
  let '((_, r), w) := FetchSignature deadline ctx_err timeout p chatKey (g_world s) in (r, with_world w s).
Lemma fetch_from_ok p chatKey s : caches_ok k s -> caches_ok k (fetch_from p chatKey s).2.
Proof. intros Hq. unfold fetch_from. by destruct (FetchSignature _ _ _ _ _ _) as [[o r] w]. Qed.

(** The rest of the outside, whatever it does. *)
Context (world_of : World (vetted (W := W) k)) (rest : Outside (vetted (W := W) k)) (cx : CallContext).
#[local] Instance direct_world : World (vetted (W := W) k) := world_of.
#[local] Instance direct_outside : Outside (vetted (W := W) k) := {|
  http_do := @http_do _ rest;
  body_read := @body_read _ rest;
  random := @random _ rest;
  fetch_signature := fun p key => lift k (fetch_from p key) (fetch_from_ok p key);
  resolve := fun _ _ => vetted_direct_Resolve
|}.

Lemma vetted_directs_offered p : offered vetted_directs p -> direct_offer p.
Proof.
  assert (forall dl stale v v', vetted_direct dl stale v = (Ok p, v') -> direct_offer p) as Hc.
  { intros dl stale v v' E. apply (f_equal fst) in E. cbn in E.
    by apply (direct_materialize_ok dl stale (vt_state k v) (vt_ok k v)). }
  intros [(dl & i & w & w' & _ & E)|(kr & dl & i & stale & w & w' & Hkr & E & _)]; [exact (Hc dl None w w' E)|].
  cbn in Hkr. injection Hkr as <-. exact (Hc dl (Some _) w w' E).
Qed.

(** C27: a direct gateway talks to its broker. With the client on top of the direct
    resolver built from a URL, every post of a buffered call, of a streamed call or of
    the submission of a job goes to the chat path of that URL's base, for the
    chat surface alone, sealed to the broker; with quote verification on, under the key and
    signer of a verified quote served at that URL. *)
Theorem direct_posts_attested url c req (v : vetted k) log : NewDirect url = Ok d ->
  (exists res s', Client.Complete c cx req v = (res, s') /\ log = st_log s') \/
  (exists res s', SubmitAsync c cx req v = (res, s') /\ log = st_log s') \/
  (exists (reads : StreamReads (vetted k)) onFrame res s',
     CompleteStream c cx onFrame req v = (res, s') /\ log = st_log s') ->
  forall p env h, EvPost p env h ∈ log ->
    ep_Path ep = ep_Path Chat /\
    (exists base, deriveV1Base url = Ok base /\ p_URL p = base +:+ "/proxy/chat/completions") /\
    (exists req' fields pub rnd, SealRequestFor (c_profile c) (p_EncPubKey p) req' (Some fields)
       (p_SignerAddr p) pub (c_unboundFields c) rnd = Ok env) /\
    forall v, ck_verifier k = Some v -> exists res, quote_of (W := W) v url res /\
      p_EncPubKey p = qr_encPub res /\ p_SignerAddr p = qr_signer res.
Proof.
  intros Hd Hlog p env h Hin. unfold NewDirect in Hd. inv_ok.
  match goal with Hb : deriveV1Base url = Ok _ |- _ => rename Hb into Hbase end.
  eapply call_posts in Hlog; [|exact Hin].
  destruct Hlog as (-> & (v0 & v1 & cands & Hr & Hoff) & req' & priv & pub & rnd & Hs & _).
  cbn in Hr. unfold vetted_direct_Resolve, direct_Resolve in Hr.
  destruct (String.eqb_spec (ep_Path ep) (ep_Path Chat)) as [Hep|]; [|done]. cbn in Hr. injection Hr as <- _.
  apply vetted_directs_offered in Hoff as [Hu _ _ Hk]. rewrite <-Hd in Hu, Hk. cbn [d_chatURL d_providerURL] in Hu, Hk. split_and!.
  - done.
  - eexists. split; [exact Hbase|done].
  - destruct (seal_ok _ _ _ _ _ _ _ Hs) as (_ & req2 & fields & _ & _ & _ & Hseal). eauto.
  - done.
Qed.
End directed.

(** ** Witnesses *)

Module DirectWitness.
Import GroundWitness.
Definition direct : directResolver := MkDirect "https://p.example/v1" "https://p.example/v1/proxy/chat/completions".
Lemma built : @NewDirect one_url "https://p.example/v1" = Ok direct.
Proof. vm_compute. reflexivity. Qed.

(** A broker that has no signature for its first tenth of a second. *)
Definition signature : ChatSignature := MkChatSignature "zg-sig-v1/plain:00:11" "0xff" "" "ecdsa".
Definition signature_reply : HttpResponse cerr :=
  MkHttpResponse 200 ∅ (print (jobject [("text", jstr "zg-sig-v1/plain:00:11"); ("signature", jstr "0xff"); ("signing_algo", jstr "ecdsa")])) None.
#[export] Instance broker : RouterOutside Z := {|
  url_ok := fun _ => true;
  rt_do := fun d q w => (Ok (if w <? 100000000 then MkHttpResponse 404 ∅ [] None else signature_reply), Z.max w (Z.min d (w + 1000000)));
  rt_read := fun _ _ w => w;
  pause := fun d w => (true, w + Z.max 0 d);
  rt_gate := fun _ => MkGate 0 None;
  set_gate := fun _ w => w |}.
Lemma broker_timed : @RouterTiming Z clock broker.
Proof. split; intros; cbn; lia. Qed.

Definition fetched_signature : (string * cresult ChatSignature) * Z :=
  @FetchSignature Z clock broker one_url (3600 * Second) (fun _ => None) (Some sigFetchTimeout)
    (MkProvider "" [] "" "" None "https://p.example/v1" "" false) "chat-1" 0.

(** The race with the end of the answer is absorbed by the second attempt. *)
Lemma fetched_late : fetched_signature.1 = ("ok_retried", Ok signature).
Proof. vm_compute. reflexivity. Qed.

#[export] Existing Instances EnvelopeWitness.identity_jcs Ideal.lib.
Definition direct_run : cresult Request * cstate (@vetted Z network GroundWitness.checks) :=
  @Client.Complete _ vetted_clock
    (@direct_outside Z clock network patient one_url GroundWitness.checks id id_fair direct Chat (3600 * Second) (fun _ => None) None silent) _ _
    client ctx (EnvelopeWitness.chat "hi") (MkVetted GroundWitness.checks (at_zero cold) cold_ok).
Definition direct_target : Provider :=
  MkProvider "https://p.example/v1/proxy/chat/completions" EnvelopeWitness.key new_signer "" None "https://p.example/v1" "" false.
Definition direct_post : option event := st_log direct_run.2 !! 0%nat.
Definition direct_env : Request := match direct_post with Some (EvPost _ env _) => env | _ => ∅ end.
Definition direct_header : Header := match direct_post with Some (EvPost _ _ h) => h | _ => ∅ end.
Lemma direct_posted : EvPost direct_target direct_env direct_header ∈ st_log direct_run.2.
Proof.
  apply (list_elem_of_lookup_2 _ 0).
  vm_cast_no_check (eq_refl (Some (EvPost direct_target direct_env direct_header))).
Qed.
End DirectWitness.

Section witnesses.
Import AttestWitness EnvelopeWitness GroundWitness DirectWitness.

Lemma direct_posts_attested_witness :
  exists base, @deriveV1Base one_url "https://p.example/v1" = Ok base /\ p_URL direct_target = base +:+ "/proxy/chat/completions".
Proof.
  destruct (@direct_posts_attested Z GroundWitness.clock network patient one_url _ _ GroundWitness.checks id id_fair direct Chat
              (3600 * Second) (fun _ => None) None vetted_clock silent ctx "https://p.example/v1" client (chat "hi")
              (MkVetted GroundWitness.checks (at_zero cold) cold_ok) (st_log direct_run.2) built
              (or_introl (ex_intro _ direct_run.1 (ex_intro _ direct_run.2 (conj (surjective_pairing direct_run) eq_refl))))
              direct_target direct_env direct_header direct_posted) as (_ & Hbase & _).
  exact Hbase.
Defined.

Lemma signature_fetched_witness :
  exists base, @deriveV1Base one_url "https://p.example/v1" = Ok base /\
    @served_signature Z broker (base +:+ "/proxy/signature/" +:+ "chat-1") signature /\ fetched_signature.2 <= 3 * sigFetchTimeout + 3 * sigFetchBackoff.
Proof.
  destruct (@signature_fetched Z GroundWitness.clock broker one_url (3600 * Second) (fun _ => None) (Some sigFetchTimeout) broker_timed
    (MkProvider "" [] "" "" None "https://p.example/v1" "" false) "chat-1" 0) as [Hs Ht].
  destruct (Hs signature (f_equal snd fetched_late)) as (base & Hb & Hsv & _). exists base. split; [exact Hb|]. split; [exact Hsv|].
  exact (Ht eq_refl).
Defined.
End witnesses.
