(* ===== verification/Provenance.v ===== *)
(** * Provenance: which builds of the broker are releases ([client/provenance])

    [registry] fetches the Sigstore bundles attached to a digest in an OCI registry, none of
    which is believed: manifests and blobs are checked by digest, bundles by Sigstore. A
    [Verifier] applies the policy to what Sigstore verified ([release_of]), against a trust
    root it keeps fresh ([current_trust]), and remembers its verdicts for as long as their
    status allows ([remember]). It is the release verifier the gate of [Judge] asks.

    Sigstore is a class of functions; the registry, TUF and the clock are a class over a
    world. A [Verifier]'s goroutines interleave between its lookups and its writes:
    [meanwhile] is what the others do then.

    The theorems: a build is called a release only on a bundle Sigstore verified, against
    the embedded root or one TUF delivered, for exactly that digest, signed by the release
    workflow on a tag at or above the minimum, and is not revoked, whatever the registry
    serves and however verdicts were remembered; an outage rejects nothing; versions are
    compared as numbers. *)

From S2P Require Import Prelude GoBytes GoHash GoJson GoDecode GoUrl GoText GoHttp GoServe Walk Preview Runtime Boot Review Baseline Judge Direct.

(** ** Text *)

(** A byte-wise stable sort by key, as [url.Values.Encode] walks its keys. *)
Fixpoint insert_pair (kv : string * string) (l : list (string * string)) : list (string * string) :=
  match l with
  | [] => [kv]
  | x :: r => if String.leb x.1 kv.1 then x :: insert_pair kv r else kv :: l
  end.
Definition sort_pairs (l : list (string * string)) : list (string * string) := fold_left (fun out kv => insert_pair kv out) l [].
Definition encode_query (l : list (string * string)) : string :=
  String.concat "&" (map (fun kv => str_of (QueryEscape (bytes_of kv.1)) +:+ "=" +:+ str_of (QueryEscape (bytes_of kv.2))) (sort_pairs l)).
Definition query_values (query : string) : list (string * string) :=
  map (fun kv => (str_of kv.1, str_of kv.2)) (omap query_pair (split_on "&" (bytes_of query))).
(** [Values.Set]. *)
Definition set_value (k v : string) (l : list (string * string)) : list (string * string) :=
  List.filter (fun kv => negb (String.eqb kv.1 k)) l ++ [(k, v)].

Definition lastSegment (s : string) : string :=
  match split_last "/" (bytes_of s) with Some (_, l) => str_of l | None => s end.

Definition isSHA256Digest (s : string) : bool :=
  match strip_prefix (bytes_of "sha256:") (bytes_of s) with
  | Some h => Nat.eqb (length h) 64 && forallb is_lower_hex h
  | None => false
  end.
Definition digestMatches (b : bytes) (digest : string) : bool :=
  String.eqb ("sha256:" +:+ str_of (hex_encode (sha256 b))) digest.

Definition dedupe_reasons (l : list string) : list string :=
  rev (fold_left (fun out s => if contains out s then out else s :: out) l []).

(** [releaseTag]: its three numbers. *)
Definition version_number (l : bytes) : bool :=
  match l with
  | [] => false
  | [c] => is_digit c
  | c :: r => is_digit c && negb (Ascii.eqb c "0") && forallb is_digit r
  end.
Definition releaseTag (s : string) : option (bytes * bytes * bytes) :=
  match strip_prefix (bytes_of "v") (bytes_of s) with
  | Some r =>
      match split_on "." r with
      | [a; b; c] => if version_number a && version_number b && version_number c then Some (a, b, c) else None
      | _ => None
      end
  | None => None
  end.

(** [strconv.Atoi] of digits with its error dropped: the largest int past the range. *)
Definition maxInt : Z := 9223372036854775807.
Definition atoi_clamped (l : bytes) : Z := Z.min maxInt (fold_left (fun n c => 10 * n + (bval c - 48)) l 0).
Definition numbers (t : bytes * bytes * bytes) : list Z :=
  [atoi_clamped t.1.1; atoi_clamped t.1.2; atoi_clamped t.2].
Fixpoint numbers_less (a b : list Z) : bool :=
  match a, b with
  | x :: a, y :: b => if x =? y then numbers_less a b else x <? y
  | _, _ => false
  end.
(** [None]: the index out of range of a text that is no tag. *)
Definition versionLess (a b : string) : option bool :=
  pa ← releaseTag a; pb ← releaseTag b; Some (numbers_less (numbers pa) (numbers pb)).

(** ** The policy *)

Record Revocation := MkRevocation { rv_Digest : string; rv_Why : string }.
Record Policy := MkPolicy {
  po_Repository : string;
  po_SourceRepository : string;
  po_Workflow : string;
  po_Issuer : string;
  po_MinimumVersion : string;
  po_Revoked : list Revocation;
  po_Comment : list string
}.
Definition Revocation_fields : list (string * (Revocation -> json -> result jerr Revocation)) :=
  [("digest", fun '(MkRevocation d w) j => v ← set_string d j; Ok (MkRevocation v w));
   ("reason", fun '(MkRevocation d w) j => v ← set_string w j; Ok (MkRevocation d v))].
Definition Policy_fields : list (string * (Policy -> json -> result jerr Policy)) :=
  [("repository", fun '(MkPolicy r s w i m x c) j => v ← set_string r j; Ok (MkPolicy v s w i m x c));
   ("source_repository", fun '(MkPolicy r s w i m x c) j => v ← set_string s j; Ok (MkPolicy r v w i m x c));
   ("workflow", fun '(MkPolicy r s w i m x c) j => v ← set_string w j; Ok (MkPolicy r s v i m x c));
   ("issuer", fun '(MkPolicy r s w i m x c) j => v ← set_string i j; Ok (MkPolicy r s w v m x c));
   ("minimum_version", fun '(MkPolicy r s w i m x c) j => v ← set_string m j; Ok (MkPolicy r s w i v x c));
   ("revoked", fun '(MkPolicy r s w i m x c) j =>
      v ← set_structs (strict_struct Revocation_fields) (MkRevocation "" "") x j; Ok (MkPolicy r s w i m v c));
   ("_comment", fun '(MkPolicy r s w i m x c) j => v ← set_strings c j; Ok (MkPolicy r s w i m x v))].

Inductive policyErr := PBadJSON (e : jerr) | PTrailing | PField (name : string) | PRevoked (digest : string).

Definition ParsePolicy (raw : bytes) : result policyErr Policy :=
  '(j, rest) ← map_err PBadJSON (decode_first raw);
  p ← map_err PBadJSON (strict_struct Policy_fields (MkPolicy "" "" "" "" "" [] []) j);
  _ ← refuse (more rest) PTrailing;
  _ ← refuse (String.eqb (po_Repository p) "" || str_contains (po_Repository p) "@" || str_contains (lastSegment (po_Repository p)) ":")
        (PField "repository");
  _ ← refuse (negb (has_prefix (po_SourceRepository p) "https://github.com/")
              || negb (Nat.eqb (length (split_on "/" (bytes_of (po_SourceRepository p)))) 5)) (PField "source_repository");
  _ ← refuse (negb (has_prefix (po_Workflow p) ".github/workflows/")) (PField "workflow");
  _ ← refuse (String.eqb (po_Issuer p) "") (PField "issuer");
  _ ← refuse (match releaseTag (po_MinimumVersion p) with Some _ => false | None => true end) (PField "minimum_version");
  _ ← each (fun r => refuse (negb (isSHA256Digest (rv_Digest r)) || String.eqb (trim_space (rv_Why r)) "") (PRevoked (rv_Digest r)))
        (po_Revoked p);
  Ok p.

Definition signerPrefix (p : Policy) : string := po_SourceRepository p +:+ "/" +:+ po_Workflow p +:+ "@".

(** ** The registry *)

Definition mediaIndex : string := "application/vnd.oci.image.index.v1+json".
Definition mediaManifest : string := "application/vnd.oci.image.manifest.v1+json".
Definition sigstoreBundlePrefix : string := "application/vnd.dev.sigstore.bundle".
Definition maxIndexBytes : Z := 4194304.
Definition maxManifestBytes : Z := 4194304.
Definition maxBundleBytes : Z := 1048576.
Definition maxReferrers : nat := 32.
Definition maxTokenBytes : Z := 65536.

(** The errors of the registry's client: the registry did not answer, or answered wrong. *)
Inductive regErr := Unavailable (why : string) | Broken (why : string).
Abbreviation gresult := (result regErr).

Record descriptor := MkDescriptor { de_MediaType : string; de_Digest : string }.
(** [Annotations] and the other fields are only checked for their types. *)
Definition string_map (j : json) : result jerr unit :=
  match j with
  | JNull => Ok tt
  | JObj l => each (fun kv => v ← set_string "" kv.2; Ok tt) l
  | _ => Err JType
  end.
Definition descriptor_fields : list (string * (descriptor -> json -> result jerr descriptor)) :=
  [("mediaType", fun '(MkDescriptor m d) j => v ← set_string m j; Ok (MkDescriptor v d));
   ("digest", fun '(MkDescriptor m d) j => v ← set_string d j; Ok (MkDescriptor m v));
   ("size", fun x j => _ ← set_int 0 j; Ok x);
   ("artifactType", fun x j => _ ← set_string "" j; Ok x);
   ("annotations", fun x j => _ ← string_map j; Ok x)].
Definition zeroDescriptor : descriptor := MkDescriptor "" "".
Definition set_descriptors : list descriptor -> json -> result jerr (list descriptor) :=
  set_structs (unmarshal_struct descriptor_fields) zeroDescriptor.
(** [index] is its [manifests]. *)
Definition index_fields : list (string * (list descriptor -> json -> result jerr (list descriptor))) :=
  [("manifests", set_descriptors)].
Record oci_manifest := MkManifest { mf_Subject : option descriptor; mf_Layers : list descriptor }.
Definition manifest_fields : list (string * (oci_manifest -> json -> result jerr oci_manifest)) :=
  [("subject", fun '(MkManifest s l) j =>
      match j with
      | JNull => Ok (MkManifest None l)
      | _ => v ← unmarshal_struct descriptor_fields (default zeroDescriptor s) j; Ok (MkManifest (Some v) l)
      end);
   ("layers", fun '(MkManifest s l) j => v ← set_descriptors l j; Ok (MkManifest s v))].
Definition token_fields : list (string * (string * string -> json -> result jerr (string * string))) :=
  [("token", fun t j => v ← set_string t.1 j; Ok (v, t.2));
   ("access_token", fun t j => v ← set_string t.2 j; Ok (t.1, v))].

(** [parseChallenge]: key and value pairs, as a map; each turn takes some of the text. *)
Fixpoint drop_comma (l : bytes) : bytes :=
  match l with
  | c :: r => if Ascii.eqb c " " || Ascii.eqb c "," then drop_comma r else l
  | [] => []
  end.
Fixpoint challenge_pairs (fuel : nat) (l : bytes) (out : gmap string string) : gmap string string :=
  match fuel with
  | O => out
  | S fuel =>
      match l with
      | [] => out
      | _ =>
          match split_first "=" (drop_comma l) with
          | None => out
          | Some (k, rest) =>
              let key := to_lower (trim_space (str_of k)) in
              match rest with
              | c :: quoted =>
                  if Ascii.eqb c (byte_of 34) then
                    match split_first (byte_of 34) quoted with
                    | None => out
                    | Some (v, l) => challenge_pairs fuel l (<[key := str_of v]> out)
                    end
                  else let '(v, l) := match split_first "," rest with Some vl => vl | None => (rest, []) end in
                       challenge_pairs fuel l (<[key := str_of v]> out)
              | [] => challenge_pairs fuel [] (<[key := ""]> out)
              end
          end
      end
  end.
Definition parseChallenge (s : string) : gmap string string := challenge_pairs (S (length (bytes_of s))) (bytes_of s) ∅.

Lemma drop_comma_length l : (length (drop_comma l) <= length l)%nat.
Proof. induction l as [|c l IH]; cbn; [done|]. destruct (_ || _); cbn; lia. Qed.

(** A turn of the loop takes some of the text, so its length is fuel enough. *)
Lemma challenge_enough n m l out : (length l < n)%nat -> (length l < m)%nat -> challenge_pairs n l out = challenge_pairs m l out.
Proof.
  revert m l out. induction n as [|n IH]; intros [|m] l out Hn Hm; [lia..|]. cbn [challenge_pairs]. destruct l as [|c0 l0]; [done|].
  pose proof (drop_comma_length (c0 :: l0)) as Hd. cbn [length] in *.
  destruct (split_first "=" _) as [[k rest]|] eqn:Es; [|done]. apply split_first_some in Es as [E _]. rewrite E, length_app in Hd. cbn in Hd.
  destruct rest as [|c quoted]; [apply IH; cbn; lia|]. cbn in Hd. destruct (Ascii.eqb c (byte_of 34)).
  - destruct (split_first (byte_of 34) quoted) as [[v l]|] eqn:Eq; [|done]. apply split_first_some in Eq as [-> _].
    rewrite length_app in Hd. cbn in Hd. apply IH; lia.
  - destruct (split_first "," (c :: quoted)) as [[v l]|] eqn:Eq; [|apply IH; cbn; lia]. apply split_first_some in Eq as [Eq _].
    apply (f_equal length) in Eq. rewrite length_app in Eq. cbn in Eq. apply IH; lia.
Qed.

(** What the registry's client and the verifier reach outside. *)
Class ProvenanceWorld (W : Type) := {
  pv_now : W -> Z;
  pv_url_ok : string -> bool;
  pv_do : Z -> HttpRequest -> W -> cresult (HttpResponse cerr) * W;
  (** [URL.String] of a URL under another query. *)
  url_with_query : URL -> string -> string
}.

Section registry.
Context {W : Type} `{ProvenanceWorld W} `{UrlLib}.
(** The deadline of one digest's fetches. *)
Context (deadline : Z).

(** The client's tokens, by host, beside the world. *)
Abbreviation state := (gmap string string * W)%type.

Definition token (host : string) (s : state) : string := default "" (s.1 !! host).

Definition authorize (host challenge : string) (s : state) : gresult unit * state :=
  let '(scheme, params) := match split_first " " (bytes_of challenge) with
                           | Some (a, b) => (str_of a, str_of b) | None => (challenge, "") end in
  if negb (equal_fold scheme "Bearer") then (Err (Unavailable "an authentication that is not Bearer"), s)
  else
    let p := parseChallenge params in
    match url_Parse (default "" (p !! "realm")) with
    | None => (Err (Unavailable "the token realm is not an HTTPS URL"), s)
    | Some realm =>
        if negb (String.eqb (u_Scheme realm) "https") || String.eqb (u_Host realm) "" then
          (Err (Unavailable "the token realm is not an HTTPS URL"), s)
        else
          let q := fold_left (fun q k => match p !! k with
                                         | Some v => if String.eqb v "" then q else set_value k v q
                                         | None => q
                                         end) ["service"; "scope"] (query_values (u_RawQuery realm)) in
          let u := url_with_query realm (encode_query q) in
          if negb (pv_url_ok u) then (Err (Broken "the token URL"), s)
          else match pv_do deadline (MkHttpRequest u ∅ []) s.2 with
               | (Err _, w) => (Err (Unavailable "token"), (s.1, w))
               | (Ok resp, w) =>
                   let s := (s.1, w) in
                   if negb (hs_Status resp =? StatusOK) then (Err (Unavailable "token: an error status"), s)
                   else match decode_limited (unmarshal_struct token_fields ("", "")) maxTokenBytes resp with
                        | Err _ => (Err (Unavailable "token"), s)
                        | Ok (t, access) =>
                            let tok := if String.eqb t "" then access else t in
                            if String.eqb tok "" then (Err (Unavailable "token: none issued"), s)
                            else (Ok tt, (<[host := tok]> s.1, w))
                        end
               end
    end.

Definition registry_header (host accept : string) (s : state) : Header :=
  let h := if String.eqb accept "" then ∅ else header_set "Accept" accept ∅ in
  if String.eqb (token host s) "" then h else header_set "Authorization" ("Bearer " +:+ token host s) h.

Definition StatusNotFound : Z := 404.
Definition StatusBadRequest : Z := 400.
Definition StatusUnauthorized : Z := 401.

(** The attempts of [get]: [first] is whether a challenge is still answered. *)
Fixpoint get_attempts (todo : nat) (first : bool) (host u accept : string) (limit : Z) (s : state)
    : gresult (bytes * Z) * state :=
  match todo with
  | O => (Err (Unavailable "the registry refused the credentials it issued"), s)
  | S todo =>
      if negb (pv_url_ok u) then (Err (Broken "the request's URL"), s)
      else match pv_do deadline (MkHttpRequest u (registry_header host accept s) []) s.2 with
      | (Err _, w) => (Err (Unavailable "transport"), (s.1, w))
      | (Ok resp, w) =>
          let s := (s.1, w) in
          match read_all_limited (limit + 1) resp with
          | Err _ => (Err (Unavailable "transport"), s)
          | Ok body =>
              if (hs_Status resp =? StatusUnauthorized) && first then
                match authorize host (header_get (hs_Header resp) "WWW-Authenticate") s with
                | (Err e, s) => (Err e, s)
                | (Ok _, s) => get_attempts todo false host u accept limit s
                end
              else if (hs_Status resp =? StatusOK) && (limit <? Z.of_nat (length body)) then (Err (Broken "too large"), s)
              else if (hs_Status resp =? StatusOK) || (hs_Status resp =? StatusNotFound) || (hs_Status resp =? StatusBadRequest)
              then (Ok (body, hs_Status resp), s)
              else (Err (Unavailable "an error status"), s)
          end
      end
  end.
Definition reg_get (host name path accept : string) (limit : Z) (s : state) : gresult (bytes * Z) * state :=
  get_attempts 2 true host ("https://" +:+ host +:+ "/v2/" +:+ name +:+ "/" +:+ path) accept limit s.

(** The index of the image's referrers, [None] when the registry has none. *)
Definition referrers (host name digest : string) (s : state) : gresult (option (list descriptor)) * state :=
  let read (r : bytes * Z) : gresult (option (list descriptor)) :=
    if negb (r.2 =? StatusOK) then Err (Unavailable "referrers: an error status")
    else l ← map_err (fun _ => Broken "the referrers index does not parse") (unmarshal (unmarshal_struct index_fields []) r.1);
         Ok (Some l) in
  match reg_get host name ("referrers/" +:+ digest) mediaIndex maxIndexBytes s with
  | (Err e, s) => (Err e, s)
  | (Ok r, s) =>
      if (r.2 =? StatusNotFound) || (r.2 =? StatusBadRequest) then
        match reg_get host name ("manifests/sha256-" +:+ trim_prefix digest "sha256:") (mediaIndex +:+ ", " +:+ mediaManifest)
                maxIndexBytes s with
        | (Err e, s) => (Err e, s)
        | (Ok r, s) => (if r.2 =? StatusNotFound then Ok None else read r, s)
        end
      else (read r, s)
  end.

(** The blobs of a manifest's layers that are bundles. *)
Fixpoint layer_bundles (host name : string) (layers : list descriptor) (out : list bytes) (s : state)
    : gresult (list bytes) * state :=
  match layers with
  | [] => (Ok out, s)
  | l :: layers =>
      if negb (has_prefix (de_MediaType l) sigstoreBundlePrefix) || negb (isSHA256Digest (de_Digest l)) then
        layer_bundles host name layers out s
      else match reg_get host name ("blobs/" +:+ de_Digest l) "" maxBundleBytes s with
      | (Err e, s) => (Err e, s)
      | (Ok (blob, status), s) =>
          if status =? StatusNotFound then layer_bundles host name layers out s
          else if negb (status =? StatusOK) then (Err (Unavailable "blob: an error status"), s)
          else layer_bundles host name layers (if digestMatches blob (de_Digest l) then out ++ [blob] else out) s
      end
  end.

Fixpoint attached_bundles (host name digest : string) (manifests : list descriptor) (out : list bytes) (s : state)
    : gresult (list bytes) * state :=
  match manifests with
  | [] => (Ok out, s)
  | d :: manifests =>
      if negb (isSHA256Digest (de_Digest d)) then attached_bundles host name digest manifests out s
      else match reg_get host name ("manifests/" +:+ de_Digest d) mediaManifest maxManifestBytes s with
      | (Err e, s) => (Err e, s)
      | (Ok (raw, status), s) =>
          if status =? StatusNotFound then attached_bundles host name digest manifests out s
          else if negb (status =? StatusOK) then (Err (Unavailable "manifest: an error status"), s)
          else if negb (digestMatches raw (de_Digest d)) then attached_bundles host name digest manifests out s
          else match unmarshal (unmarshal_struct manifest_fields (MkManifest None [])) raw with
               | Ok (MkManifest (Some subject) layers) =>
                   if String.eqb (de_Digest subject) digest then
                     match layer_bundles host name layers out s with
                     | (Err e, s) => (Err e, s)
                     | (Ok out, s) => attached_bundles host name digest manifests out s
                     end
                   else attached_bundles host name digest manifests out s
               | _ => attached_bundles host name digest manifests out s
               end
      end
  end.

Definition bundles (repository digest : string) (s : state) : gresult (list bytes) * state :=
  match split_first "/" (bytes_of repository) with
  | Some (host, (_ :: _) as name) =>
      match referrers (str_of host) (str_of name) digest s with
      | (Err e, s) => (Err e, s)
      | (Ok None, s) => (Ok [], s)
      | (Ok (Some manifests), s) =>
          attached_bundles (str_of host) (str_of name) digest (take maxReferrers manifests) [] s
      end
  | _ => (Err (Broken "names no registry host"), s)
  end.
End registry.

(** ** The verifier *)

Definition slsaProvenanceV1 : string := "https://slsa.dev/provenance/v1".
Definition rejectedTTL : Z := 3600000000000.
Definition unavailableTTL : Z := 300000000000.
Definition maxCachedVerdicts : nat := 1024.
Definition trustRefresh : Z := 86400000000000.
Definition trustRetry : Z := 600000000000.

(** The verified certificate, as far as it is read; and a verified bundle: its certificate
    and the predicate type of its statement, where it has them. *)
Record SignerCert := MkSignerCert {
  sc_SAN : string; sc_SourceRepositoryURI : string; sc_SourceRepositoryRef : string;
  sc_BuildTrigger : string; sc_RunnerEnvironment : string; sc_SourceRepositoryDigest : string
}.
Record VerificationResult := MkVerified { vr_Certificate : option SignerCert; vr_PredicateType : option string }.

(** sigstore-go: [verify.NewVerifier] with the options the code gives it, and [Verify] of a
    bundle for an artifact's digest under an who, an issuer and a pattern of names. *)
Class Sigstore := {
  TrustedMaterial : Type;
  SigVerifier : Type;
  SigBundle : Type;
  SigIdentity : Type;
  NewTrustedRootFromJSON : bytes -> option TrustedMaterial;
  sigstoreVerifier : TrustedMaterial -> option SigVerifier;
  UnmarshalBundle : bytes -> option SigBundle;
  NewShortCertificateIdentity : string -> string -> option SigIdentity;
  sig_Verify : SigVerifier -> SigBundle -> bytes -> SigIdentity -> option VerificationResult
}.

(** [regexp.QuoteMeta]. *)
Definition QuoteMeta (s : string) : string :=
  str_of (flat_map (fun c => if existsb (Ascii.eqb c) (bytes_of "\.+*?()|[]{}^$") then ["\"%char; c] else [c]) (bytes_of s)).

Definition rejected (why : string) : ReleaseVerdict := MkVerdict ReleaseRejected noRelease why.

(** [cachedVerdict]; [cv_until] is [None] for a verdict that is kept. *)
Record cachedVerdict := MkCached { cv_verdict : ReleaseVerdict; cv_until : option Z }.

Definition is_accepted (v : ReleaseVerdict) : bool := bool_decide (rv_Status v = ReleaseAccepted).
Definition expired (now : Z) (c : cachedVerdict) : bool :=
  match cv_until c with Some t => negb (now <? t) | None => false end.
Definition remembered (now : Z) (v : ReleaseVerdict) : cachedVerdict :=
  MkCached v (match rv_Status v with
              | ReleaseAccepted => None
              | ReleaseUnavailable => Some (now + unavailableTTL)
              | ReleaseRejected => Some (now + rejectedTTL)
              end).
Definition remember (now : Z) (digest : string) (v : ReleaseVerdict) (m : gmap string cachedVerdict)
    : gmap string cachedVerdict :=
  let c := remembered now v in
  match m !! digest with
  | Some _ => <[digest := c]> m
  | None =>
      let full (m : gmap string cachedVerdict) := Nat.leb maxCachedVerdicts (size m) in
      if full m then
        let m := filter (fun kv => expired now kv.2 = false) m in
        let m := if full m then filter (fun kv => is_accepted (cv_verdict kv.2) = true) m else m in
        if full m then m else <[digest := c]> m
      else <[digest := c]> m
  end.

Inductive buildErr := BadPolicy (e : policyErr) | BadRoot.
(** [newVerifier]: the policy and the embedded root it is built from. *)
Definition newVerifier `{Sigstore} (policy trustedRoot : bytes) : result buildErr (Policy * SigVerifier) :=
  p ← map_err BadPolicy (ParsePolicy policy);
  tr ← of_option (NewTrustedRootFromJSON trustedRoot) BadRoot;
  sv ← of_option (sigstoreVerifier tr) BadRoot;
  Ok (p, sv).

Section verifier.
Context `{Sigstore} {W : Type} `{ProvenanceWorld W} `{UrlLib}.
Context (p : Policy) (snapshot : SigVerifier) (fetchRoot : option (W -> option TrustedMaterial * W)) (timeout : Z).

(** [trust]. *)
Record trust := MkTrust { tr_sigstore : SigVerifier; tr_stale : string }.
Record pstate := MkP {
  ps_tokens : gmap string string;
  ps_cache : gmap string cachedVerdict;
  ps_trusted : option trust;
  ps_current : bool;
  ps_trustNext : option Z;
  ps_world : W
}.
Definition staleNote : string := "the current Sigstore trust root could not be fetched".

Definition current_trust (s : pstate) : trust * pstate :=
  let now := pv_now (ps_world s) in
  let trusted := default (MkTrust snapshot "") (ps_trusted s) in
  match fetchRoot with
  | Some fetch =>
      if match ps_trustNext s with Some t => now <? t | None => false end then
        (trusted, MkP (ps_tokens s) (ps_cache s) (Some trusted) (ps_current s) (ps_trustNext s) (ps_world s))
      else
        let '(tm, w) := fetch (ps_world s) in
        match tm ≫= sigstoreVerifier with
        | Some sv =>
            let t := MkTrust sv "" in
            (t, MkP (ps_tokens s) (ps_cache s) (Some t) true (Some (now + trustRefresh)) w)
        | None =>
            let t := if ps_current s then trusted else MkTrust (tr_sigstore trusted) staleNote in
            (t, MkP (ps_tokens s) (ps_cache s) (Some t) (ps_current s) (Some (now + trustRetry)) w)
        end
  | None => (trusted, MkP (ps_tokens s) (ps_cache s) (Some trusted) (ps_current s) (ps_trustNext s) (ps_world s))
  end.

(** [Verifier.release]: the policy on one verified bundle. *)
Definition release_of (digest : string) (res : VerificationResult) : result string BrokerRelease :=
  match vr_Certificate res with
  | None => Err "a bundle is not signed by a certificate"
  | Some c =>
      let prefix := signerPrefix p +:+ "refs/tags/" in
      let tag := trim_prefix (sc_SAN c) prefix in
      _ ← refuse (negb (has_prefix (sc_SAN c) prefix) || match releaseTag tag with Some _ => false | None => true end)
            "it is not signed by the release workflow on a release tag";
      _ ← refuse (negb (String.eqb (sc_SourceRepositoryURI c) (po_SourceRepository p))) "it was built from another repository";
      _ ← refuse (negb (String.eqb (sc_SourceRepositoryRef c) ("refs/tags/" +:+ tag))) "its certificate names another ref";
      _ ← refuse (negb (String.eqb (sc_BuildTrigger c) "push")) "its release workflow did not run on the tag push";
      _ ← refuse (negb (String.eqb (sc_RunnerEnvironment c) "github-hosted")) "it was not built on a GitHub-hosted runner";
      less ← of_option (versionLess tag (po_MinimumVersion p)) "a panic: not a release tag";
      _ ← refuse less "it is older than the minimum";
      _ ← refuse (match vr_PredicateType res with Some t => negb (String.eqb t slsaProvenanceV1) | None => true end)
            "its bundle is not SLSA provenance";
      Ok (MkRelease tag digest (sc_SourceRepositoryDigest c))
  end.

(** The loop over the bundles: the release, or the reasons and whether one did not verify. *)
Fixpoint judge_bundles (sv : SigVerifier) (digest : string) (want : bytes) (who : SigIdentity)
    (raws : list bytes) (reasons : list string) (unverified : bool) : BrokerRelease + (list string * bool) :=
  match raws with
  | [] => inr (reasons, unverified)
  | raw :: raws =>
      match UnmarshalBundle raw with
      | None => judge_bundles sv digest want who raws (reasons ++ ["an attached bundle does not parse"]) unverified
      | Some b =>
          match sig_Verify sv b want who with
          | None => judge_bundles sv digest want who raws (reasons ++ ["an attached bundle does not verify"]) true
          | Some res =>
              match release_of digest res with
              | Ok rel => inl rel
              | Err why => judge_bundles sv digest want who raws (reasons ++ [why]) unverified
              end
          end
      end
  end.

Definition sourceIdentity : option SigIdentity :=
  NewShortCertificateIdentity (po_Issuer p) ("^" +:+ QuoteMeta (po_SourceRepository p +:+ "/")).

Definition verifier_judge (digest : string) (raws : list bytes) (s : pstate) : ReleaseVerdict * pstate :=
  match raws with
  | [] => (rejected "the registry has no Sigstore bundle attached to it", s)
  | _ =>
      match hex_decode (bytes_of (trim_prefix digest "sha256:")), sourceIdentity with
      | None, _ => (rejected "not a sha256 digest", s)
      | _, None => (rejected "certificate who", s)
      | Some want, Some who =>
          let '(t, s) := current_trust s in
          (match judge_bundles (tr_sigstore t) digest want who raws [] false with
           | inl rel => MkVerdict ReleaseAccepted rel ""
           | inr (reasons, unverified) =>
               let why := String.concat "; " (dedupe_reasons reasons) in
               if unverified && negb (String.eqb (tr_stale t) "")
               then MkVerdict ReleaseUnavailable noRelease (why +:+ "; " +:+ tr_stale t)
               else rejected why
           end, s)
      end
  end.

(** What the process's other goroutines do to the verifier meanwhile. *)
Context (meanwhile : pstate -> pstate).

Definition check (digest : string) (s : pstate) : ReleaseVerdict * pstate :=
  match List.find (fun r => String.eqb (rv_Digest r) digest) (po_Revoked p) with
  | Some r => (rejected ("the build is revoked in the provenance policy: " +:+ rv_Why r), s)
  | None =>
      let '(raws, (tokens, w)) :=
        bundles (pv_now (ps_world s) + timeout) (po_Repository p) digest (ps_tokens s, ps_world s) in
      let s := meanwhile (MkP tokens (ps_cache s) (ps_trusted s) (ps_current s) (ps_trustNext s) w) in
      match raws with
      | Err (Unavailable why) => (MkVerdict ReleaseUnavailable noRelease why, s)
      | Err (Broken why) => (rejected why, s)
      | Ok raws => verifier_judge digest raws s
      end
  end.

(** [Verifier.Verify]. *)
Definition Provenance_Verify (repository digest : string) (s : pstate) : ReleaseVerdict * pstate :=
  if negb (String.eqb repository (po_Repository p)) then (rejected "the build is in another repository", s)
  else if negb (isSHA256Digest digest) then (rejected "not a sha256 digest", s)
  else match ps_cache s !! digest with
  | Some c =>
      if expired (pv_now (ps_world s)) c then
        let '(v, s) := check digest s in
        let s := meanwhile s in
        (v, MkP (ps_tokens s) (remember (pv_now (ps_world s)) digest v (ps_cache s)) (ps_trusted s) (ps_current s) (ps_trustNext s) (ps_world s))
      else (cv_verdict c, s)
  | None =>
      let '(v, s) := check digest s in
      let s := meanwhile s in
      (v, MkP (ps_tokens s) (remember (pv_now (ps_world s)) digest v (ps_cache s)) (ps_trusted s) (ps_current s) (ps_trustNext s) (ps_world s))
  end.
End verifier.

(** ** Digests and texts *)

Lemma sha256_digest digest : isSHA256Digest digest = true ->
  exists want, hex_decode (bytes_of (trim_prefix digest "sha256:")) = Some want /\
    bytes_of digest = bytes_of "sha256:" ++ hex_encode want /\ length want = 32%nat.
Proof.
  unfold isSHA256Digest, trim_prefix. destruct (strip_prefix _ _) as [h|] eqn:E; [|done]. intros Hh.
  destruct (hex_decode_lower 32 h) as (want & Hd & He & Hl); [exact Hh|]. rewrite bytes_of_str_of. exists want. split_and!; [done| |done].
  apply strip_prefix_spec in E. by rewrite He.
Qed.

Lemma prefixed s p : has_prefix s p = true -> s = p +:+ trim_prefix s p.
Proof.
  intros (r & Hr)%has_prefix_iff. apply bytes_of_inj. rewrite bytes_of_app. unfold trim_prefix.
  rewrite (proj2 (strip_prefix_spec _ _ _) Hr). by rewrite bytes_of_str_of.
Qed.
Lemma trimmed p t : has_prefix (p +:+ t) p = true /\ trim_prefix (p +:+ t) p = t.
Proof.
  split; [apply has_prefix_iff; exists (bytes_of t); by rewrite bytes_of_app|]. unfold trim_prefix.
  rewrite bytes_of_app, (proj2 (strip_prefix_spec _ _ _) eq_refl). apply str_of_bytes_of.
Qed.

(** ** Remembering *)

Lemma remember_lookup now digest v m :
  remember now digest v m !! digest = Some (remembered now v) \/ remember now digest v m !! digest = None.
Proof.
  unfold remember. destruct (m !! digest) as [x|] eqn:E; [left; apply lookup_insert_eq|].
  destruct (Nat.leb _ _); [|left; apply lookup_insert_eq].
  set (m1 := filter (fun kv => expired now kv.2 = false) m). assert (m1 !! digest = None) as H1'
    by (apply map_lookup_filter_None; by left).
  set (m2 := if Nat.leb maxCachedVerdicts (size m1) then filter (fun kv => is_accepted (cv_verdict kv.2) = true) m1 else m1).
  assert (m2 !! digest = None) as H2' by (unfold m2; case_match; [apply map_lookup_filter_None; by left|done]).
  clearbody m2. destruct (Nat.leb _ _); [by right|left; apply lookup_insert_eq].
Qed.

(** An acceptance is dropped for nobody's sake. *)
Lemma remember_others now digest v m d c : d <> digest -> m !! d = Some c -> cv_until c = None -> is_accepted (cv_verdict c) = true ->
  remember now digest v m !! d = Some c.
Proof.
  intros Hd Hm Hu Ha. unfold remember. destruct (m !! digest); [by rewrite lookup_insert_ne|].
  destruct (Nat.leb _ _); [|by rewrite lookup_insert_ne].
  set (m1 := filter (fun kv => expired now kv.2 = false) m).
  assert (m1 !! d = Some c) as H1' by (apply map_lookup_filter_Some; split; [done|]; unfold expired; cbn; by rewrite Hu).
  set (m2 := if Nat.leb maxCachedVerdicts (size m1) then filter (fun kv => is_accepted (cv_verdict kv.2) = true) m1 else m1).
  assert (m2 !! d = Some c) as H2' by (unfold m2; case_match; [by apply map_lookup_filter_Some|done]).
  clearbody m2. destruct (Nat.leb _ _); [done|]. by rewrite lookup_insert_ne.
Qed.

(** A check of a digest that ends after another check of it has been remembered takes its
    place, an acceptance's too. *)
Lemma slow_check_overwrites now digest v m c : m !! digest = Some c ->
  remember now digest v m !! digest = Some (remembered now v).
Proof. intros E. unfold remember. rewrite E. apply lookup_insert_eq. Qed.

(** ** What an acceptance rests on *)

Section facts.
Context `{Sigstore} {W : Type} `{ProvenanceWorld W} `{UrlLib}.
Context (p : Policy) (snapshot : SigVerifier) (fetchRoot : option (W -> option TrustedMaterial * W)) (timeout : Z).
Context (meanwhile : pstate (W := W) -> pstate (W := W)).

(** A root Sigstore's TUF delivered; and one that, or the embedded one. *)
Definition tuf_delivered (sv : SigVerifier) : Prop :=
  exists fetch w tm w', fetchRoot = Some fetch /\ fetch w = (Some tm, w') /\ sigstoreVerifier tm = Some sv.
Definition never_fetched : Prop := fetchRoot = None.
Definition genuine (sv : SigVerifier) : Prop := sv = snapshot \/ tuf_delivered sv.

(** The certificate of a release: the workflow of the policy's repository signed it on the
    tag, pushed, on a hosted runner; and the tag is no older than the minimum. *)
Record release_cert (c : SignerCert) (tag : string) : Prop := {
  rc_san : sc_SAN c = po_SourceRepository p +:+ "/" +:+ po_Workflow p +:+ "@refs/tags/" +:+ tag;
  rc_tag : is_Some (releaseTag tag);
  rc_source : sc_SourceRepositoryURI c = po_SourceRepository p;
  rc_ref : sc_SourceRepositoryRef c = "refs/tags/" +:+ tag;
  rc_push : sc_BuildTrigger c = "push";
  rc_hosted : sc_RunnerEnvironment c = "github-hosted";
  rc_floor : versionLess tag (po_MinimumVersion p) = Some false
}.

(** Sigstore verified a bundle as provenance of the digest, signed as a release. *)
Definition provenanced (repository digest : string) (rel : BrokerRelease) : Prop :=
  repository = po_Repository p /\ isSHA256Digest digest = true /\ (forall r, r ∈ po_Revoked p -> rv_Digest r <> digest) /\
  exists sv raw b want who res c tag, genuine sv /\ UnmarshalBundle raw = Some b /\
    bytes_of digest = bytes_of "sha256:" ++ hex_encode want /\ length want = 32%nat /\
    sourceIdentity p = Some who /\ sig_Verify sv b want who = Some res /\
    vr_Certificate res = Some c /\ release_cert c tag /\ vr_PredicateType res = Some slsaProvenanceV1 /\
    rel = MkRelease tag digest (sc_SourceRepositoryDigest c).

Lemma append_assoc (a b c : string) : (a +:+ b) +:+ c = a +:+ (b +:+ c).
Proof. apply bytes_of_inj. by rewrite !bytes_of_app, <-app_assoc. Qed.

Lemma release_ok digest res rel : release_of p digest res = Ok rel <->
  exists c tag, vr_Certificate res = Some c /\ release_cert c tag /\ vr_PredicateType res = Some slsaProvenanceV1 /\
    rel = MkRelease tag digest (sc_SourceRepositoryDigest c).
Proof.
  unfold release_of. set (san := fun tag => po_SourceRepository p +:+ "/" +:+ po_Workflow p +:+ "@refs/tags/" +:+ tag).
  assert (forall tag, (signerPrefix p +:+ "refs/tags/") +:+ tag = san tag) as Hsan
    by (intros tag; unfold signerPrefix, san; by rewrite !append_assoc).
  destruct (vr_Certificate res) as [c|]; [|split; [done|by intros (? & ? & ? & _)]]. cbv zeta. split.
  - intros E. inv_ok. bool_hyps. subst. exists c. eexists. split; [done|]. split; [|split; [|reflexivity]].
    + split; try done.
      * fold (san (trim_prefix (sc_SAN c) (signerPrefix p +:+ "refs/tags/"))). rewrite <-Hsan. by apply prefixed.
      * by destruct (releaseTag _).
    + destruct (vr_PredicateType res) as [t|]; [|done]. bool_hyps. by subst.
  - intros (c' & tag & [= <-] & [Hn Ht Hs Hr Hp Hh Hf] & Hv & ->). fold (san tag) in Hn. rewrite <-Hsan in Hn.
    destruct (trimmed (signerPrefix p +:+ "refs/tags/") tag) as [H1' H2']. rewrite Hn, H1', H2'. destruct Ht as [v Ht].
    rewrite Ht, Hs, Hr, Hp, Hh, Hf, Hv, !String.eqb_refl. reflexivity.
Qed.

(** What a refusal rests on: the registry's answer was beyond use, or each bundle in it
    does not parse, is refused by the policy, or does not verify, and then not because the
    embedded root stood in for the one TUF would have delivered. *)
Definition refused_bundle (sv : SigVerifier) (digest : string) (want : bytes) (who : SigIdentity) (raw : bytes) : Prop :=
  match UnmarshalBundle raw with
  | None => True
  | Some b =>
      match sig_Verify sv b want who with
      | None => tuf_delivered sv \/ never_fetched
      | Some res => exists why, release_of p digest res = Err why
      end
  end.
Definition refusal (digest : string) (s : pstate (W := W)) : Prop :=
  (exists r, r ∈ po_Revoked p /\ rv_Digest r = digest) \/
  match (bundles (pv_now (ps_world s) + timeout) (po_Repository p) digest (ps_tokens s, ps_world s)).1 with
  | Err (Unavailable _) => False
  | Err (Broken _) => True
  | Ok raws => sourceIdentity p = None \/ raws = [] \/ exists sv want who, genuine sv /\
      bytes_of digest = bytes_of "sha256:" ++ hex_encode want /\ sourceIdentity p = Some who /\
      Forall (refused_bundle sv digest want who) raws
  end.

(** What is true of a verdict on a digest of the policy's repository. *)
Definition grounded (digest : string) (v : ReleaseVerdict) : Prop :=
  rv_Status v = ReleaseAccepted -> provenanced (po_Repository p) digest (rv_Release v).

(** The verifier between two steps. *)
Record trust_ok (s : pstate (W := W)) : Prop := {
  to_current : ps_current s = true -> exists t, ps_trusted s = Some t /\ tuf_delivered (tr_sigstore t) /\ tr_stale t = "";
  to_snapshot : ps_current s = false -> forall t, ps_trusted s = Some t ->
    tr_sigstore t = snapshot /\ (never_fetched \/ tr_stale t = staleNote);
  to_next : is_Some (ps_trustNext s) -> is_Some (ps_trusted s)
}.
Definition cached_ok (digest : string) (c : cachedVerdict) : Prop :=
  isSHA256Digest digest = true /\ grounded digest (cv_verdict c) /\
  (cv_until c = None <-> rv_Status (cv_verdict c) = ReleaseAccepted).
Record cache_ok (m : gmap string cachedVerdict) : Prop := {
  co_size : (size m <= maxCachedVerdicts)%nat;
  co_verdicts : map_Forall cached_ok m
}.
Record state_ok (s : pstate (W := W)) : Prop := {
  so_cache : cache_ok (ps_cache s);
  so_trust : trust_ok s
}.

(** A new verifier. *)
Lemma new_ok tokens w : state_ok (MkP tokens ∅ None false None w).
Proof.
  split; split; cbn.
  - rewrite map_size_empty. unfold maxCachedVerdicts. lia.
  - apply map_Forall_empty.
  - done.
  - done.
  - by intros [? ?].
Qed.

Lemma trust_spec s t s' : trust_ok s -> current_trust snapshot fetchRoot s = (t, s') ->
  trust_ok s' /\ ps_cache s' = ps_cache s /\ genuine (tr_sigstore t) /\
  (tr_stale t = "" -> tuf_delivered (tr_sigstore t) \/ never_fetched).
Proof.
  intros Hok. assert (genuine (tr_sigstore (default (MkTrust snapshot "") (ps_trusted s)))) as Hg.
  { destruct Hok as [Hc Hs _]. destruct (ps_trusted s) as [t0|] eqn:Et; cbn; [|by left].
    destruct (ps_current s); [destruct (Hc eq_refl) as (? & [= <-] & ? & _); by right|left; by apply (Hs eq_refl)]. }
  pose proof Hok as [Hc Hs Hn]. destruct s as [tk ca tr cu nx w]. unfold current_trust. cbn in *.
  destruct fetchRoot as [fetch|] eqn:Ef.
  2:{ intros [= <- <-]. split; [|split_and!; by auto]. split; cbn; [| |eauto].
    - intros Ec. destruct (Hc Ec) as (t0 & -> & Ht). by exists t0.
    - intros Ec t0 [= <-]. destruct tr as [t0|]; cbn; [by apply Hs|by auto]. }
  assert (forall x, nx = Some x -> (pv_now w <? x) = true ->
    (default (MkTrust snapshot "") tr, MkP tk ca (Some (default (MkTrust snapshot "") tr)) cu nx w) = (t, s') ->
    trust_ok s' /\ ps_cache s' = ca /\ genuine (tr_sigstore t) /\ (tr_stale t = "" -> tuf_delivered (tr_sigstore t) \/ never_fetched)) as Hkeep.
  { intros x -> _ [= <- <-]. destruct (Hn (mk_is_Some _ _ eq_refl)) as [t0 ->]. cbn. split; [done|]. split_and!; [done..|].
    destruct cu; [destruct (Hc eq_refl) as (? & [= <-] & ? & _); by left|].
    destruct (Hs eq_refl t0 eq_refl) as [_ [|Hst]]; [by right|]. rewrite Hst. done. }
  case_match eqn:Edue; [destruct nx as [x|]; [by eapply Hkeep|done]|]. clear Hkeep.
  destruct (fetch w) as [tm w'] eqn:Ew. destruct (tm ≫= sigstoreVerifier) as [sv|] eqn:Esv; intros [= <- <-].
  - apply bind_Some in Esv as (x & -> & Hx). assert (tuf_delivered sv) as Hd by (exists fetch, w, x, w'; by rewrite Ef).
    split; [|split_and!; [done|by right|by left]]. split; cbn; [intros _; eauto|done|eauto].
  - destruct cu.
    + destruct (Hc eq_refl) as (t0 & -> & Hd & Hst). cbn. split; [|split_and!; [done|by right|by left]].
      split; cbn; [intros _; eauto|done|eauto].
    + cbn. split; [|split_and!; [done|done|done]]. split; cbn; [done| |eauto]. intros _ t0 [= <-]. cbn. split; [|by right].
      destruct tr as [t0|]; cbn; [by apply Hs|done].
Qed.

Lemma filter_ok (P : string * cachedVerdict -> Prop) `{!forall x, Decision (P x)} m : cache_ok m -> cache_ok (filter P m).
Proof.
  intros [Hz Hv]. pose proof (map_subseteq_size _ _ (map_filter_subseteq P m)) as Hle. split; [lia|].
  intros d c Hd. apply map_lookup_filter_Some in Hd as [Hd _]. by apply Hv.
Qed.

Lemma insert_ok digest c m : cached_ok digest c -> cache_ok m -> is_Some (m !! digest) \/ (size m < maxCachedVerdicts)%nat ->
  cache_ok (<[digest := c]> m).
Proof.
  intros Hc [Hz Hv] Hm. split; [|by apply map_Forall_insert_2]. rewrite map_size_insert.
  destruct (m !! digest) as [x|] eqn:E; cbn; [done|]. destruct Hm as [[? [=]]|Hm]. lia.
Qed.

Lemma remembered_ok now digest v : isSHA256Digest digest = true -> grounded digest v -> cached_ok digest (remembered now v).
Proof. intros Hd Hg. split; [done|]. split; [done|]. unfold remembered. cbn. by destruct (rv_Status v). Qed.

Lemma remember_ok now digest v m : isSHA256Digest digest = true -> grounded digest v -> cache_ok m ->
  cache_ok (remember now digest v m).
Proof.
  intros Hd Hg Hm. pose proof (remembered_ok now digest v Hd Hg) as Hc. unfold remember.
  destruct (m !! digest) as [x|] eqn:E; [apply insert_ok; by eauto|].
  destruct (Nat.leb_spec maxCachedVerdicts (size m)); [|by apply insert_ok; auto].
  set (m1 := filter (fun kv => expired now kv.2 = false) m). assert (cache_ok m1) as H1' by by apply filter_ok.
  set (m2 := if Nat.leb maxCachedVerdicts (size m1) then filter (fun kv => is_accepted (cv_verdict kv.2) = true) m1 else m1).
  assert (cache_ok m2) as H2' by (unfold m2; case_match; [by apply filter_ok|done]).
  destruct (Nat.leb_spec maxCachedVerdicts (size m2)); [done|]. apply insert_ok; by auto.
Qed.

(** ** Judging *)

Lemma judge_bundles_spec sv digest want who raws reasons unverified :
  match judge_bundles p sv digest want who raws reasons unverified with
  | inl rel => exists raw b res, UnmarshalBundle raw = Some b /\ sig_Verify sv b want who = Some res /\ release_of p digest res = Ok rel
  | inr (_, u) => tuf_delivered sv \/ never_fetched \/ u = false -> Forall (refused_bundle sv digest want who) raws
  end.
Proof.
  assert (forall raws reasons unverified, match judge_bundles p sv digest want who raws reasons unverified with
    | inl _ => True | inr (_, u) => unverified = true -> u = true end) as Hmono.
  { clear. induction raws as [|raw raws IH]; intros reasons unverified; cbn; [done|].
    destruct (UnmarshalBundle raw) as [b|]; [|apply IH]. destruct (sig_Verify _ _ _ _) as [res|].
    - destruct (release_of p digest res); [done|apply IH].
    - specialize (IH (reasons ++ ["an attached bundle does not verify"]) true). by case_match; [|destruct p0; auto]. }
  revert reasons unverified. induction raws as [|raw raws IH]; intros reasons unverified; cbn; [intros _; constructor|].
  destruct (UnmarshalBundle raw) as [b|] eqn:Eb.
  - destruct (sig_Verify sv b want who) as [res|] eqn:Ev.
    + destruct (release_of p digest res) as [rel|why] eqn:Er; [by exists raw, b, res|].
      specialize (IH (reasons ++ [why]) unverified). case_match; [done|]. destruct p0 as [x u]. intros Hu. constructor; [|by apply IH].
      unfold refused_bundle. rewrite Eb, Ev. by exists why.
    + specialize (IH (reasons ++ ["an attached bundle does not verify"]) true).
      specialize (Hmono raws (reasons ++ ["an attached bundle does not verify"]) true).
      case_match; [done|]. destruct p0 as [x u]. intros Hu. constructor; [|by apply IH].
      unfold refused_bundle. rewrite Eb, Ev. destruct Hu as [|[|Hu]]; [by left|by right|]. specialize (Hmono eq_refl). congruence.
  - specialize (IH (reasons ++ ["an attached bundle does not parse"]) unverified). case_match; [done|]. destruct p0 as [x u].
    intros Hu. constructor; [|by apply IH]. unfold refused_bundle. by rewrite Eb.
Qed.

Lemma judge_spec digest raws s v s' : trust_ok s -> isSHA256Digest digest = true ->
  (forall r, r ∈ po_Revoked p -> rv_Digest r <> digest) -> verifier_judge p snapshot fetchRoot digest raws s = (v, s') ->
  trust_ok s' /\ ps_cache s' = ps_cache s /\
  (rv_Status v = ReleaseAccepted -> provenanced (po_Repository p) digest (rv_Release v)) /\
  (rv_Status v = ReleaseRejected -> sourceIdentity p = None \/ raws = [] \/ exists sv want who, genuine sv /\
     bytes_of digest = bytes_of "sha256:" ++ hex_encode want /\ sourceIdentity p = Some who /\
     Forall (refused_bundle sv digest want who) raws).
Proof.
  intros Hs Hd Hrev. unfold verifier_judge. destruct raws as [|raw raws]; [intros [= <- <-]; cbn; split_and!; by auto|].
  destruct (sha256_digest _ Hd) as (want & -> & Hw & Hl).
  destruct (sourceIdentity p) as [who|] eqn:Ew; [|intros [= <- <-]; cbn; split_and!; by auto].
  destruct (current_trust snapshot fetchRoot s) as [t s1] eqn:Et. apply trust_spec in Et as (Hs1 & Hc1 & Hg & Hst); [|done].
  pose proof (judge_bundles_spec (tr_sigstore t) digest want who (raw :: raws) [] false) as Hj.
  destruct (judge_bundles _ _ _ _ _ _ _ _) as [rel|[why u]]; intros [= <- <-]; (split; [done|split; [done|]]); cbn [rv_Status rv_Release].
  - split; [|done]. intros _. destruct Hj as (r & b & res & Hb & Hv & (c & tag & Hc & Hcert & Hp & ->)%release_ok).
    split; [done|]. split; [done|]. split; [done|]. by exists (tr_sigstore t), r, b, want, who, res, c, tag.
  - destruct (u && negb (String.eqb (tr_stale t) "")) eqn:Eu; [done|]. split; [done|]. intros _. right. right.
    exists (tr_sigstore t), want, who. split; [done|]. split; [done|]. split; [done|]. apply Hj.
    apply andb_false_iff in Eu as [->|Eu]; [by right; right|]. bool_hyps. destruct (Hst Eu); by auto.
Qed.

(** What the verifier's other goroutines may do: anything that keeps it as it is between
    two steps. *)
Context (Hmeanwhile : forall s, state_ok s -> state_ok (meanwhile s)).

Lemma not_revoked digest : List.find (fun r => String.eqb (rv_Digest r) digest) (po_Revoked p) = None ->
  forall r, r ∈ po_Revoked p -> rv_Digest r <> digest.
Proof. intros E r Hr. pose proof (find_none _ _ E r) as Hn. by apply String.eqb_neq, Hn, list_elem_of_In. Qed.

Lemma check_spec digest s v s' : state_ok s -> isSHA256Digest digest = true ->
  check p snapshot fetchRoot timeout meanwhile digest s = (v, s') ->
  state_ok s' /\ grounded digest v /\ (rv_Status v = ReleaseRejected -> refusal digest s).
Proof.
  intros Hs Hd. unfold check, refusal. destruct (List.find _ _) as [r|] eqn:Er.
  - intros [= <- <-]. split; [done|]. split; [done|]. intros _. apply find_some in Er as [Hr He]. bool_hyps. left. exists r.
    by rewrite list_elem_of_In.
  - pose proof (not_revoked _ Er) as Hrev.
    destruct (bundles _ _ _ _) as [raws [tokens w]] eqn:Eb. cbn [fst].
    assert (state_ok (MkP tokens (ps_cache s) (ps_trusted s) (ps_current s) (ps_trustNext s) w)) as Hm
      by (destruct Hs as [Hca [Hc1 Hc2 Hc3]]; by split).
    apply Hmeanwhile in Hm. set (s0 := meanwhile _) in *. clearbody s0.
    destruct raws as [raws|[why|why]]; [|by intros [= <- <-]|intros [= <- <-]; split_and!; by auto].
    intros E. pose proof Hm as [Hca Htr]. apply judge_spec in E as (Ht & Hc & Ha & Hr); [|done..].
    split; [by split; [rewrite Hc|]|]. split; [done|]. intros Hx. right. by apply Hr.
Qed.

(** A verdict that is remembered still. *)
Definition holds_verdict (digest : string) (s : pstate (W := W)) (v : ReleaseVerdict) : Prop :=
  exists c, ps_cache s !! digest = Some c /\ cv_verdict c = v /\ expired (pv_now (ps_world s)) c = false.

Lemma Verify_spec digest s v s' : state_ok s -> isSHA256Digest digest = true ->
  Provenance_Verify p snapshot fetchRoot timeout meanwhile (po_Repository p) digest s = (v, s') ->
  state_ok s' /\ grounded digest v /\ (rv_Status v = ReleaseRejected -> holds_verdict digest s v \/ refusal digest s).
Proof.
  intros Hs Hd. unfold Provenance_Verify. rewrite String.eqb_refl, Hd. cbn [negb].
  assert (forall v1 s1, check p snapshot fetchRoot timeout meanwhile digest s = (v1, s1) ->
    (v1, let s2 := meanwhile s1 in MkP (ps_tokens s2) (remember (pv_now (ps_world s2)) digest v1 (ps_cache s2))
      (ps_trusted s2) (ps_current s2) (ps_trustNext s2) (ps_world s2)) = (v, s') ->
    state_ok s' /\ grounded digest v /\ (rv_Status v = ReleaseRejected -> holds_verdict digest s v \/ refusal digest s)) as Hfresh.
  { intros v1 s1 Ec [= <- <-]. apply check_spec in Ec as (H1' & Hg & Hr); [|done..]. split; [|split; [done|by auto]].
    apply Hmeanwhile in H1'. destruct H1' as [Hca [Hc1 Hc2 Hc3]]. split; [by apply remember_ok|by split]. }
  destruct (ps_cache s !! digest) as [c|] eqn:Ec.
  - case_match eqn:He; [destruct (check _ _ _ _ _ _ _) as [v1 s1]; by apply Hfresh|].
    intros [= <- <-]. split; [done|]. split; [|intros _; left; by exists c].
    destruct Hs as [[_ Hv] _]. by apply Hv in Ec as (_ & ? & _).
  - destruct (check _ _ _ _ _ _ _) as [v1 s1]. by apply Hfresh.
Qed.

(** What [Provenance_Verify] leaves, whatever it was asked. *)
Lemma Verify_kept repository digest s v s' : state_ok s ->
  Provenance_Verify p snapshot fetchRoot timeout meanwhile repository digest s = (v, s') -> state_ok s'.
Proof.
  intros Hs E. destruct (String.eqb_spec repository (po_Repository p)) as [->|Hr].
  - destruct (isSHA256Digest digest) eqn:Hd; [by apply (Verify_spec digest s v s')|].
    unfold Provenance_Verify in E. rewrite String.eqb_refl, Hd in E. by injection E as _ <-.
  - unfold Provenance_Verify in E. rewrite (proj2 (String.eqb_neq _ _) Hr) in E. by injection E as _ <-.
Qed.

(** The states a verifier can be in. *)
Inductive verifier_reached : pstate (W := W) -> Prop :=
| reached_new tokens w : verifier_reached (MkP tokens ∅ None false None w)
| reached_verify repository digest s : verifier_reached s ->
    verifier_reached (Provenance_Verify p snapshot fetchRoot timeout meanwhile repository digest s).2.

Lemma reached_ok s : verifier_reached s -> state_ok s.
Proof.
  induction 1 as [tokens w|repository digest s _ IH]; [apply new_ok|].
  destruct (Provenance_Verify _ _ _ _ _ _ _ _) as [v s'] eqn:E. by eapply Verify_kept.
Qed.

(** An acceptance of whatever it is asked about. *)
Lemma verdict_grounded repository digest s v s' : state_ok s ->
  Provenance_Verify p snapshot fetchRoot timeout meanwhile repository digest s = (v, s') ->
  rv_Status v = ReleaseAccepted -> provenanced repository digest (rv_Release v).
Proof.
  intros Hs E Ha. destruct (String.eqb_spec repository (po_Repository p)) as [->|Hn].
  - destruct (isSHA256Digest digest) eqn:Hd.
    + apply Verify_spec in E as (_ & Hg & _); [|done..]. by apply Hg.
    + unfold Provenance_Verify in E. rewrite String.eqb_refl, Hd in E. by injection E as <- _.
  - unfold Provenance_Verify in E. rewrite (proj2 (String.eqb_neq _ _) Hn) in E. by injection E as <- _.
Qed.

(** C29: only releases are accepted. Whatever the registry serves, however the trust root was
    fetched and refreshed, whatever was remembered and whatever the verifier's other
    goroutines do between its steps, it answers that a digest is a release only if a bundle
    about exactly that digest was verified by Sigstore under the root embedded or one its
    TUF delivered, signed by the policy's release workflow running on a release tag no
    older than the minimum, pushed, on a hosted runner, as SLSA provenance, and the digest
    is not revoked; and the release it names is that tag's. *)
Theorem only_releases_accepted repository digest s v s' : verifier_reached s ->
  Provenance_Verify p snapshot fetchRoot timeout meanwhile repository digest s = (v, s') ->
  rv_Status v = ReleaseAccepted -> provenanced repository digest (rv_Release v).
Proof. intros Hr. by apply verdict_grounded, reached_ok. Qed.

(** C30: an outage rejects nothing. A well-formed digest of the policy's repository is
    rejected only by a verdict that is remembered and has not expired, or because it is
    revoked, or because of what the registry answered just now: an answer beyond use, or one
    in which no bundle is a release's: each does not parse, or was verified and is refused
    by the policy, or does not verify under a root that TUF delivered. A registry that does
    not answer, and a bundle the embedded root that stands in for TUF does not verify,
    leave the check undone instead. *)
Theorem rejections_grounded digest s v s' : verifier_reached s -> isSHA256Digest digest = true ->
  Provenance_Verify p snapshot fetchRoot timeout meanwhile (po_Repository p) digest s = (v, s') ->
  rv_Status v = ReleaseRejected -> holds_verdict digest s v \/ refusal digest s.
Proof. intros Hr Hd E Ha. apply Verify_spec in E as (_ & _ & Hg); [|by apply reached_ok|done]. by apply Hg. Qed.

(** What a verifier remembers. It never remembers more than 1024 verdicts, each of a
    sha256 digest and an acceptance only of a release; it keeps one for ever exactly if it is
    an acceptance. *)
Theorem memory_kept s : verifier_reached s ->
  (size (ps_cache s) <= maxCachedVerdicts)%nat /\
  forall digest c, ps_cache s !! digest = Some c ->
    isSHA256Digest digest = true /\ grounded digest (cv_verdict c) /\
    (cv_until c = None <-> rv_Status (cv_verdict c) = ReleaseAccepted).
Proof. intros Hr. apply reached_ok in Hr as [[Hz Hv] _]. split; [done|]. exact Hv. Qed.

Lemma judge_bundles_finds sv digest want who raws raw b res rel reasons unverified : raw ∈ raws ->
  UnmarshalBundle raw = Some b -> sig_Verify sv b want who = Some res -> release_of p digest res = Ok rel ->
  exists rel', judge_bundles p sv digest want who raws reasons unverified = inl rel'.
Proof.
  intros Hin Hb Hv Hr. revert reasons unverified. induction raws as [|x raws IH]; intros reasons unverified; [by apply elem_of_nil in Hin|].
  cbn. apply elem_of_cons in Hin as [<-|Hin]; [rewrite Hb, Hv, Hr; eauto|].
  destruct (UnmarshalBundle x) as [y|]; [|by apply IH]. destruct (sig_Verify sv y want who) as [z|]; [|by apply IH].
  destruct (release_of p digest z) as [r|why]; [eauto|by apply IH].
Qed.

(** C31: one release's bundle is enough. Let a build of the policy's repository be neither
    revoked nor remembered, and let the fetch of its attachments succeed (which reads at
    most [maxReferrers] of them, and fails on one longer than [maxBundleBytes]) and return
    a bundle that verifies under the root in use and is a release's: then the build is
    accepted, whatever else the fetch returned, and is remembered so for good if there is
    room. *)
Theorem one_bundle_enough digest s raws tokens w raw b want who res rel v s' :
  isSHA256Digest digest = true -> (forall r, r ∈ po_Revoked p -> rv_Digest r <> digest) -> ps_cache s !! digest = None ->
  bundles (pv_now (ps_world s) + timeout) (po_Repository p) digest (ps_tokens s, ps_world s) = (Ok raws, (tokens, w)) ->
  raw ∈ raws -> UnmarshalBundle raw = Some b -> sourceIdentity p = Some who ->
  bytes_of digest = bytes_of "sha256:" ++ hex_encode want ->
  sig_Verify (tr_sigstore (current_trust snapshot fetchRoot
    (meanwhile (MkP tokens (ps_cache s) (ps_trusted s) (ps_current s) (ps_trustNext s) w))).1) b want who = Some res ->
  release_of p digest res = Ok rel ->
  Provenance_Verify p snapshot fetchRoot timeout meanwhile (po_Repository p) digest s = (v, s') ->
  rv_Status v = ReleaseAccepted /\ forall c, ps_cache s' !! digest = Some c -> c = MkCached v None.
Proof.
  intros Hd Hrev Hc Eb Hin Hb Hw Hwant Hv Hr. unfold Provenance_Verify. rewrite String.eqb_refl, Hd, Hc. cbn [negb]. unfold check.
  destruct (List.find _ _) as [r|] eqn:Er; [apply find_some in Er as [Hx He]; bool_hyps; apply list_elem_of_In in Hx; by apply Hrev in Hx|].
  rewrite Eb. unfold verifier_judge. destruct raws as [|x raws]; [by apply elem_of_nil in Hin|].
  destruct (sha256_digest _ Hd) as (w1 & -> & Hw1 & _). rewrite Hwant in Hw1. apply app_inv_head, hex_encode_inj in Hw1 as <-. rewrite Hw.
  destruct (current_trust _ _ _) as [t s1]. cbn [fst] in Hv.
  destruct (judge_bundles_finds _ _ _ _ _ _ _ _ _ [] false Hin Hb Hv Hr) as [rel' ->]. intros [= <- <-]. split; [done|].
  cbn [ps_cache ps_world]. set (s2 := meanwhile s1). intros c Hl.
  destruct (remember_lookup (pv_now (ps_world s2)) digest (MkVerdict ReleaseAccepted rel' "") (ps_cache s2)) as [Hl'|Hl'];
    rewrite Hl' in Hl; by simplify_eq.
Qed.
End facts.

(** ** What the registry's client brings *)

Section attached.
Context {W : Type} `{ProvenanceWorld W} `{UrlLib} (deadline : Z).
Abbreviation state := (gmap string string * W)%type.

Lemma get_attempts_ok n first host u accept limit (s : state) body status s' :
  get_attempts deadline n first host u accept limit s = (Ok (body, status), s') ->
  (status = StatusOK -> Z.of_nat (length body) <= limit) /\ status ∈ [StatusOK; StatusNotFound; StatusBadRequest].
Proof.
  revert first s. induction n as [|n IH]; intros first s; cbn [get_attempts]; [done|].
  destruct (negb _); [done|]. destruct (pv_do _ _ _) as [[resp|] w]; [|done].
  destruct (read_all_limited _ _) as [b|]; [|done]. destruct (_ && first).
  - destruct (authorize _ _ _ _) as [[[]|] s1]; [|done]. apply IH.
  - destruct ((hs_Status resp =? StatusOK) && _) eqn:El; [done|].
    destruct ((hs_Status resp =? StatusOK) || _ || _) eqn:Es; [|done]. intros [= <- <- <-]. split.
    + intros E. rewrite E in El. cbn in El. lia.
    + apply orb_true_iff in Es as [[Es|Es]%orb_true_iff|Es]; apply Z.eqb_eq in Es; rewrite Es; set_solver.
Qed.

(** A blob attached to a digest: a layer with a bundle's media type of a manifest whose
    subject is the digest, in the registry's index for it; each named by its own digest. *)
Record attachment (manifests : list descriptor) (digest : string) (blob : bytes) : Prop := {
  at_blob : exists d raw subject layers l,
    d ∈ manifests /\ digestMatches raw (de_Digest d) = true /\
    unmarshal (unmarshal_struct manifest_fields (MkManifest None [])) raw = Ok (MkManifest (Some subject) layers) /\
    de_Digest subject = digest /\ l ∈ layers /\ has_prefix (de_MediaType l) sigstoreBundlePrefix = true /\
    digestMatches blob (de_Digest l) = true;
  at_size : Z.of_nat (length blob) <= maxBundleBytes
}.

Lemma layer_bundles_ok host name layers (P : bytes -> Prop) out (s : state) res s' :
  (forall l blob, l ∈ layers -> has_prefix (de_MediaType l) sigstoreBundlePrefix = true ->
     digestMatches blob (de_Digest l) = true -> Z.of_nat (length blob) <= maxBundleBytes -> P blob) ->
  Forall P out -> layer_bundles deadline host name layers out s = (Ok res, s') -> Forall P res.
Proof.
  revert out s. induction layers as [|l layers IH]; intros out s HP Hout; cbn [layer_bundles]; [by intros [= <- <-]|].
  assert (forall l' blob, l' ∈ layers -> has_prefix (de_MediaType l') sigstoreBundlePrefix = true ->
     digestMatches blob (de_Digest l') = true -> Z.of_nat (length blob) <= maxBundleBytes -> P blob) as HP'
    by (intros l' blob Hl; apply HP; by right).
  destruct (negb _ || _) eqn:Eg; [by apply IH|]. bool_hyps.
  destruct (reg_get _ _ _ _ _ _ _) as [[[blob status]|] s1] eqn:Er; [|done].
  apply get_attempts_ok in Er as [Hz _]. destruct (status =? StatusNotFound); [by apply IH|].
  destruct (Z.eqb_spec status StatusOK); cbn [negb]; [|done]. apply IH; [done|].
  destruct (digestMatches blob (de_Digest l)) eqn:Ed; [|done]. apply Forall_app. split; [done|]. constructor; [|done].
  eapply HP; [by left|done|done|auto].
Qed.

Lemma attached_bundles_ok host name digest manifests (P : bytes -> Prop) out (s : state) res s' :
  (forall blob, attachment manifests digest blob -> P blob) ->
  Forall P out -> attached_bundles deadline host name digest manifests out s = (Ok res, s') -> Forall P res.
Proof.
  revert out s. induction manifests as [|d manifests IH]; intros out s HP Hout; cbn [attached_bundles]; [by intros [= <- <-]|].
  assert (forall blob, attachment manifests digest blob -> P blob) as HP'.
  { intros blob [(d' & raw & sub & layers & l & Hd & Hrest) Hz]. apply HP. split; [|done].
    exists d', raw, sub, layers, l. split; [by right|done]. }
  destruct (negb _); [by apply IH|]. destruct (reg_get _ _ _ _ _ _ _) as [[[raw status]|] s1]; [|done].
  destruct (status =? StatusNotFound); [by apply IH|]. destruct (negb (status =? StatusOK)); [done|].
  destruct (digestMatches raw (de_Digest d)) eqn:Ed; cbn [negb]; [|by apply IH].
  destruct (unmarshal _ raw) as [[[sub|] layers]|] eqn:Eu; [|by apply IH..].
  destruct (String.eqb_spec (de_Digest sub) digest); [|by apply IH].
  destruct (layer_bundles _ _ _ _ _ _) as [[out'|] s2] eqn:El; [|done]. apply IH; [done|].
  eapply layer_bundles_ok; [|exact Hout|exact El]. intros l blob Hl Hm Hb Hz. apply HP. split; [|done].
  exists d, raw, sub, layers, l. split_and!; [by left|done..].
Qed.

(** What [bundles] brings back are attachments of the digest, out of the first thirty-two
    of the index the registry answered with, each within its bound. *)
Theorem bundles_attached repository digest (s : state) raws s' :
  bundles deadline repository digest s = (Ok raws, s') -> raws <> [] ->
  exists host name manifests s1, bytes_of repository = bytes_of host ++ "/"%char :: bytes_of name /\
    referrers deadline host name digest s = (Ok (Some manifests), s1) /\
    Forall (attachment (take maxReferrers manifests) digest) raws.
Proof.
  unfold bundles. destruct (split_first "/" _) as [[host [|c name]]|] eqn:Es; [done| |done].
  destruct (referrers _ _ _ _ _) as [[[manifests|]|] s1] eqn:Er; [|by intros [= <- _]|done].
  intros E _. exists (str_of host), (str_of (c :: name)), manifests, s1. split; [|split; [done|]].
  - rewrite !bytes_of_str_of. by apply split_first_some in Es as [-> _].
  - eapply attached_bundles_ok; [|constructor|exact E]. done.
Qed.
End attached.

(** ** Versions *)

Lemma digit_of k : 0 <= k < 10 ->
  is_digit (byte_of (48 + k)) = true /\ bval (byte_of (48 + k)) - 48 = k /\ Ascii.eqb (byte_of (48 + k)) "0" = (k =? 0).
Proof.
  apply (zrange_forall 10 (fun k => is_digit (byte_of (48 + k)) = true /\ bval (byte_of (48 + k)) - 48 = k /\
    Ascii.eqb (byte_of (48 + k)) "0" = (k =? 0))). repeat constructor.
Qed.

Definition digits_value (l : bytes) : Z := fold_left (fun n c => 10 * n + (bval c - 48)) l 0.

Lemma itoa_fuel_digits n z : 1 <= z < 10 ^ Z.of_nat n ->
  digits_value (itoa_fuel n z) = z /\
  exists c r, itoa_fuel n z = c :: r /\ is_digit c = true /\ Ascii.eqb c "0" = false /\ forallb is_digit r = true.
Proof.
  revert z. induction n as [|n IH]; intros z Hz; [cbn in Hz; lia|]. rewrite Nat2Z.inj_succ, Z.pow_succ_r in Hz by lia.
  cbn [itoa_fuel]. pose proof (Z.div_mod z 10 ltac:(lia)) as Hdm. pose proof (Z.mod_pos_bound z 10 ltac:(lia)) as Hm.
  destruct (digit_of (z mod 10) Hm) as (Hd & Hv & H0'). unfold digits_value in *. rewrite fold_left_app. cbn [fold_left].
  destruct (Z.ltb_spec z 10).
  - rewrite Z.mod_small in * by lia. cbn [app fold_left]. split; [lia|]. eexists _, []. split; [done|]. split_and!; [done| |done].
    rewrite H0'. by apply Z.eqb_neq; lia.
  - destruct (IH (z / 10)) as (Hf & c & r & E & Hc & Hn & Hr); [split; [apply Z.div_le_lower_bound|apply Z.div_lt_upper_bound]; lia|].
    rewrite Hf, E. split; [lia|]. eexists c, _. split; [done|]. split_and!; [done..|]. rewrite forallb_app, Hr. cbn. by rewrite Hd.
Qed.

Lemma itoa_number z : 0 <= z <= maxInt -> version_number (itoa z) = true /\ atoi_clamped (itoa z) = z.
Proof.
  unfold maxInt. intros Hz. unfold itoa. destruct (Z.ltb_spec z 0); [lia|]. destruct (decide (z = 0)) as [->|Hn]; [done|].
  destruct (itoa_fuel_digits 20 z) as (Hv & c & r & E & Hc & H0' & Hr); [change (10 ^ Z.of_nat 20) with 100000000000000000000; lia|].
  unfold atoi_clamped. fold (digits_value (itoa_fuel 20 z)). rewrite Hv. unfold maxInt. split; [|lia]. rewrite E. cbn.
  destruct r; [done|]. by rewrite Hc, H0', Hr.
Qed.

Lemma number_no_dot l : version_number l = true -> "."%char ∉ l.
Proof.
  intros Hl Hin. assert (forallb is_digit l = true) as Hd.
  { destruct l as [|c [|d r]]; cbn [version_number forallb] in *; [done|by rewrite Hl|].
    apply andb_true_iff in Hl as [[-> _]%andb_true_iff ->]. done. }
  rewrite forallb_forall in Hd. apply list_elem_of_In in Hin. by apply Hd in Hin.
Qed.

(** A release's tag. *)
Definition tag_of (v : Z * Z * Z) : string :=
  str_of (bytes_of "v" ++ itoa v.1.1 ++ "."%char :: itoa v.1.2 ++ "."%char :: itoa v.2).
Definition in_int (v : Z * Z * Z) : Prop := 0 <= v.1.1 <= maxInt /\ 0 <= v.1.2 <= maxInt /\ 0 <= v.2 <= maxInt.
Definition earlier_release (v w : Z * Z * Z) : Prop :=
  v.1.1 < w.1.1 \/ (v.1.1 = w.1.1 /\ (v.1.2 < w.1.2 \/ (v.1.2 = w.1.2 /\ v.2 < w.2))).

Lemma tag_numbers v : in_int v -> exists t, releaseTag (tag_of v) = Some t /\ numbers t = [v.1.1; v.1.2; v.2].
Proof.
  destruct v as [[x y] z]. intros (Hx & Hy & Hz). cbn [fst snd] in *.
  destruct (itoa_number x Hx) as [Vx Ax], (itoa_number y Hy) as [Vy Ay], (itoa_number z Hz) as [Vz Az].
  exists (itoa x, itoa y, itoa z). split; [|by unfold numbers; cbn [fst snd]; rewrite Ax, Ay, Az].
  unfold releaseTag, tag_of. cbn [fst snd]. rewrite bytes_of_str_of, (proj2 (strip_prefix_spec _ _ _) eq_refl).
  rewrite !split_on_app, split_on_piece by by apply number_no_dot. by rewrite Vx, Vy, Vz.
Qed.

(** Releases are ordered by their numbers. The tag of any three numbers an int holds is
    a release's tag, and of two such tags one is the older exactly when its numbers, compared
    as numbers and in turn, are the smaller. *)
Theorem versions_ordered v w : in_int v -> in_int w ->
  is_Some (releaseTag (tag_of v)) /\ exists b, versionLess (tag_of v) (tag_of w) = Some b /\ (b = true <-> earlier_release v w).
Proof.
  intros Hv Hw. destruct (tag_numbers v Hv) as (t & Et & Nt), (tag_numbers w Hw) as (u & Eu & Nu). split; [by rewrite Et|].
  assert (versionLess (tag_of v) (tag_of w) = Some (numbers_less (numbers t) (numbers u))) as -> by (unfold versionLess; by rewrite Et, Eu).
  rewrite Nt, Nu. eexists. split; [reflexivity|]. unfold earlier_release. cbn [numbers_less].
  destruct (Z.eqb_spec v.1.1 w.1.1) as [->|]; [|lia]. destruct (Z.eqb_spec v.1.2 w.1.2) as [->|]; [|lia].
  destruct (Z.eqb_spec v.2 w.2) as [->|]; lia.
Qed.

(** ** Outages *)

Section outage.
Context `{Sigstore} {W : Type} `{ProvenanceWorld W} `{UrlLib}.
Context (p : Policy) (snapshot : SigVerifier) (fetchRoot : option (W -> option TrustedMaterial * W)) (timeout : Z).
Context (meanwhile : pstate (W := W) -> pstate (W := W)).

(** A registry that does not answer, or only with an error. *)
Definition registry_down : Prop := forall deadline r w,
  match (pv_do deadline r w).1 with
  | Ok resp => hs_Status resp ∉ [StatusOK; StatusBadRequest; StatusUnauthorized; StatusNotFound]
  | Err _ => True
  end.

Lemma down_get deadline host name path accept limit s : registry_down ->
  pv_url_ok ("https://" +:+ host +:+ "/v2/" +:+ name +:+ "/" +:+ path) = true ->
  exists why s', reg_get deadline host name path accept limit s = (Err (Unavailable why), s').
Proof.
  intros Hdown Hu. unfold reg_get. cbn [get_attempts]. rewrite Hu. cbn [negb].
  pose proof (Hdown deadline (MkHttpRequest ("https://" +:+ host +:+ "/v2/" +:+ name +:+ "/" +:+ path) (registry_header host accept s) []) s.2) as Hd.
  destruct (pv_do _ _ _) as [[resp|] w]; cbn in Hd; [|eauto].
  destruct (read_all_limited _ _) as [b|]; [|eauto]. rewrite !not_elem_of_cons in Hd. destruct Hd as (N1 & N2 & N3 & N4 & _).
  apply Z.eqb_neq in N1, N2, N3, N4. rewrite N1, N2, N3, N4. cbn. eauto.
Qed.

(** An outage is said to be one. While the registry does not answer, or answers only with
    an error, a build that is not revoked and not remembered is reported as one that could
    not be checked, and that is remembered for five minutes at most. *)
Theorem outage_unavailable digest host name s v s' : registry_down ->
  split_first "/" (bytes_of (po_Repository p)) = Some (bytes_of host, bytes_of name) -> name <> "" ->
  pv_url_ok ("https://" +:+ host +:+ "/v2/" +:+ name +:+ "/" +:+ "referrers/" +:+ digest) = true ->
  isSHA256Digest digest = true -> (forall r, r ∈ po_Revoked p -> rv_Digest r <> digest) -> ps_cache s !! digest = None ->
  Provenance_Verify p snapshot fetchRoot timeout meanwhile (po_Repository p) digest s = (v, s') ->
  rv_Status v = ReleaseUnavailable /\
  forall c, ps_cache s' !! digest = Some c -> c = MkCached v (Some (pv_now (ps_world s') + unavailableTTL)).
Proof.
  intros Hdown Hs Hn Hu Hd Hrev Hc. unfold Provenance_Verify. rewrite String.eqb_refl, Hd, Hc. cbn [negb]. unfold check.
  destruct (List.find _ _) as [r|] eqn:Er; [apply find_some in Er as [Hr He]; bool_hyps; apply list_elem_of_In in Hr; by apply Hrev in Hr|].
  unfold bundles. rewrite Hs. destruct (bytes_of name) as [|c nm] eqn:En; [by destruct name|]. rewrite <-En, !str_of_bytes_of.
  unfold referrers. edestruct (down_get (pv_now (ps_world s) + timeout) host name ("referrers/" +:+ digest) mediaIndex maxIndexBytes
    (ps_tokens s, ps_world s) Hdown Hu) as (why & [tk w] & Eg). rewrite Eg. intros [= <- <-]. split; [done|]. cbn [ps_cache ps_world].
  set (s2 := meanwhile (meanwhile _)). intros c' Hc'.
  destruct (remember_lookup (pv_now (ps_world s2)) digest (MkVerdict ReleaseUnavailable noRelease why) (ps_cache s2)) as [Hl|Hl];
    rewrite Hl in Hc'; by simplify_eq.
Qed.
End outage.

(** ** The gate, over this verifier *)

Section gated.
Context `{Sigstore} {W : Type} `{ProvenanceWorld W} `{UrlLib}.
Context (p : Policy) (snapshot : SigVerifier) (fetchRoot : option (W -> option TrustedMaterial * W)) (timeout : Z).
Context (meanwhile : pstate (W := W) -> pstate (W := W)).
Context (Hmeanwhile : forall s, state_ok p snapshot fetchRoot s -> state_ok p snapshot fetchRoot (meanwhile s)).

(** An answer the verifier gives at some time. *)
Definition verified_as (repository digest : string) (v : ReleaseVerdict) : Prop :=
  exists s, verifier_reached p snapshot fetchRoot timeout meanwhile s /\
    (Provenance_Verify p snapshot fetchRoot timeout meanwhile repository digest s).1 = v.
(** A release of the policy's repository. *)
Definition released (repository digest : string) : Prop := exists rel, provenanced p snapshot fetchRoot repository digest rel.

Lemma accepted_released repository digest : accepted_build verified_as repository digest -> released repository digest.
Proof.
  intros (v & (s & Hs & Hv) & Ha). destruct (Provenance_Verify _ _ _ _ _ _ _ _) as [v' s'] eqn:E. cbn in Hv. subst v'.
  eexists. eapply (verdict_grounded p snapshot fetchRoot timeout meanwhile Hmeanwhile); [by eapply reached_ok|exact E|done].
Qed.

Lemma clean_runtime_mono (P Q : string -> string -> Prop) st signer encPub : (forall r d, P r d -> Q r d) ->
  clean_runtime P st signer encPub -> clean_runtime Q st signer encPub.
Proof.
  intros HPQ [He Hk Hu Hi Him]. split; [done..|]. intros im Em. destruct (Him im Em) as (Ha & Hs & Hp). split; [by apply HPQ|done].
Qed.

Lemma is_deployment_mono {S} (rels : option (Verifying S)) (P Q : string -> string -> Prop) dep blocks top : (forall r d, P r d -> Q r d) ->
  is_deployment rels P dep blocks top -> is_deployment rels Q dep blocks top.
Proof.
  intros HPQ [Ho Hs Hn Ht Htn]. split; [done| |done..]. intros want Hw. destruct (Hs want Hw) as (got & Hg & Hname & Hserv).
  exists got. split; [done|]. split; [done|]. revert Hserv. unfold service_is.
  repeat case_match; naive_solver.
Qed.

(** C28: what the gateway seals to runs releases. Let the gate ask this verifier: its judge be
    in any state it can reach on the verifier's answers, its goroutines moving between the
    steps of the gate however they do. If the gate lets a provider through, then its booted
    manifest is, service by service and section by section, the deployment recorded for its
    address, each image the record lets move being a release by its provenance; and what
    the log read of it says was done since holds nothing unknown, undecided or forbidden,
    and the build it says runs, if it names one, is such a release too and has the keys the
    quote carries. *)
Theorem sealed_to_releases k turns patience address reply rtmr3 facts offered pr s s' :
  (forall n, Forall (honest verified_as) (turns n).1) -> reachable verified_as (as_judge s) ->
  rf_state (pf_runtime facts) = recovered (Some (ReadRuntimeState reply rtmr3)) ->
  ch_enforce k = true -> gated k turns patience address facts offered s = (Ok pr, s') ->
  offered = Ok pr /\
  (exists st, ReadRuntimeState reply rtmr3 = Ok st /\
     clean_runtime released st (rf_signer (pf_runtime facts)) (rf_encPub (pf_runtime facts))) /\
  exists b contract review dep, ch_baseline k = Some (b, contract) /\ mf_review (pf_manifest facts) = Some review /\
    For b contract address = Some dep /\ cr_LoadErr review = None /\
    is_deployment (judged k turns false) released dep (cr_Blocks review) (cr_TopLevel review).
Proof.
  intros Ht Hr Hf Hk Eg. eapply gate_sound in Eg as (Ho & (st & Hst & Hc) & b & contract & review & dep & Hb & Hrev & Hfor & Hl & Hd);
    [|done..]. split; [done|]. split.
  - exists st. split; [done|]. eapply clean_runtime_mono; [|exact Hc]. apply accepted_released.
  - exists b, contract, review, dep. split_and!; [done..|]. eapply is_deployment_mono; [|exact Hd]. apply accepted_released.
Qed.
End gated.

(** ** Witnesses *)

Module ProvenanceWitness.
Import JudgeWitness ReviewWitness.
Definition source : string := "https://github.com/0gfoundation/broker".
Definition policy_text : bytes :=
  print (jobject [("repository", jstr broker); ("source_repository", jstr source); ("workflow", jstr ".github/workflows/build.yml");
                  ("issuer", jstr "https://token.actions.githubusercontent.com"); ("minimum_version", jstr "v0.5.4");
                  ("revoked", JArr []); ("_comment", JArr [])]).
Definition the_policy : Policy :=
  MkPolicy broker source ".github/workflows/build.yml" "https://token.actions.githubusercontent.com" "v0.5.4" [] [].
Example policy_parsed : ParsePolicy policy_text = Ok the_policy.
Proof. vm_compute. reflexivity. Qed.

(** Sigstore: the embedded root and TUF's, and a bundle is the tag it was signed on. *)
Definition signed_on (tag : string) : VerificationResult :=
  MkVerified (Some (MkSignerCert (source +:+ "/.github/workflows/build.yml@refs/tags/" +:+ tag) source ("refs/tags/" +:+ tag)
                      "push" "github-hosted" "c0ffee")) (Some slsaProvenanceV1).
Definition want : bytes := default [] (hex_decode (bytes_of (trim_prefix RuntimeWitness.digest "sha256:"))).
#[export] Instance sigstore : Sigstore := {|
  TrustedMaterial := unit;
  SigVerifier := bool;
  SigBundle := string;
  SigIdentity := string * string;
  NewTrustedRootFromJSON := fun _ => Some tt;
  sigstoreVerifier := fun _ => Some true;
  UnmarshalBundle := fun raw => Some (str_of raw);
  NewShortCertificateIdentity := fun issuer pattern => Some (issuer, pattern);
  sig_Verify := fun sv b w the_signer => if bool_decide (w = want) then Some (signed_on b) else None
|}.

(** A registry that hands out a token, and holds a bundle for one build. *)
Definition named (raw : bytes) : string := "sha256:" +:+ str_of (hex_encode (sha256 raw)).
Definition bundle : bytes := bytes_of "v0.10.0".
Definition attached : bytes :=
  print (jobject [("subject", jobject [("digest", jstr RuntimeWitness.digest)]);
                  ("layers", JArr [jobject [("mediaType", jstr "application/vnd.dev.sigstore.bundle.v0.3+json"); ("digest", jstr (named bundle))]])]).
Definition index_json : bytes := print (jobject [("manifests", JArr [jobject [("digest", jstr (named attached))]])]).
Definition from_registry (l : list (string * bytes)) (u : string) : HttpResponse cerr :=
  match List.find (fun kv => String.eqb ("https://ghcr.io/v2/0gfoundation/broker/" +:+ kv.1) u) l with
  | Some (_, body) => MkHttpResponse 200 ∅ body None
  | None => MkHttpResponse 404 ∅ [] None
  end.
Definition registry_files : list (string * bytes) :=
  [("manifests/sha256-" +:+ trim_prefix RuntimeWitness.digest "sha256:", index_json); ("manifests/" +:+ named attached, attached);
   ("blobs/" +:+ named bundle, bundle)].
Definition challenge : string := "Bearer realm=https://ghcr.io/token,service=ghcr.io,scope=repository:0gfoundation/broker:pull".
Definition token_url : string := "https://ghcr.io/token?scope=repository%3A0gfoundation%2Fbroker%3Apull&service=ghcr.io".
#[export] Instance token_urls : UrlLib :=
  fun s => if String.eqb s "https://ghcr.io/token" then Some (MkURL "https" "" false "ghcr.io" "/token" "" false "/token") else None.
#[export] Instance ghcr : ProvenanceWorld Z := {|
  pv_now := id;
  pv_url_ok := fun _ => true;
  pv_do := fun _ q w =>
    (Ok (if String.eqb (hq_URL q) token_url then MkHttpResponse 200 ∅ (print (jobject [("token", jstr "t")])) None
         else if String.eqb (header_get (hq_Header q) "Authorization") "Bearer t" then from_registry registry_files (hq_URL q)
         else MkHttpResponse 401 (header_set "WWW-Authenticate" challenge ∅) [] None), w + 1000000);
  url_with_query := fun u q => "https://" +:+ u_Host u +:+ u_Path u +:+ "?" +:+ q
|}.
Definition tuf : option (Z -> option unit * Z) := Some (fun w => (Some tt, w)).
Definition new_verifier : pstate := MkP ∅ ∅ None false None 0.
Definition ask_verifier (digest : string) (s : pstate) : ReleaseVerdict * pstate :=
  @Provenance_Verify sigstore Z ghcr token_urls the_policy false tuf 10000000000 id broker digest s.
Definition accepted : ReleaseVerdict := MkVerdict ReleaseAccepted (MkRelease "v0.10.0" RuntimeWitness.digest "c0ffee") "".
Lemma verified_release : (ask_verifier RuntimeWitness.digest new_verifier).1 = accepted.
Proof. vm_compute. reflexivity. Qed.
End ProvenanceWitness.

Section witnesses.
Import JudgeWitness ReviewWitness ProvenanceWitness.
Abbreviation root := RuntimeWitness.digest.

Lemma fresh_reached : @verifier_reached sigstore Z ghcr token_urls the_policy false tuf 10000000000 id new_verifier.
Proof. apply reached_new. Qed.
Lemma unmoved : forall s, @state_ok sigstore Z the_policy false tuf s -> @state_ok sigstore Z the_policy false tuf (id s).
Proof. done. Qed.

Definition the_signer : string * string := default ("", "") (@sourceIdentity sigstore the_policy).
Definition root_brought : gresult (list bytes) * (gmap string string * Z) := @bundles Z ghcr token_urls 10000000000 broker root (∅, 0).
Lemma root_read : @bundles Z ghcr token_urls 10000000000 broker root (∅, 0) = (Ok [bundle], (root_brought.2.1, root_brought.2.2)).
Proof. vm_compute. reflexivity. Qed.

Lemma only_releases_accepted_witness :
  (ask_verifier root new_verifier).1 = accepted /\ @provenanced sigstore Z the_policy false tuf broker root (rv_Release accepted).
Proof.
  split; [exact verified_release|].
  exact (@only_releases_accepted sigstore Z ghcr token_urls the_policy false tuf 10000000000 id unmoved broker root new_verifier
           accepted (ask_verifier root new_verifier).2 fresh_reached (pair_of _ _ verified_release) eq_refl).
Defined.

Lemma one_bundle_enough_witness : rv_Status (ask_verifier root new_verifier).1 = ReleaseAccepted.
Proof.
  refine (proj1 (@one_bundle_enough sigstore Z ghcr token_urls the_policy false tuf 10000000000 id root new_verifier [bundle]
    root_brought.2.1 root_brought.2.2 bundle "v0.10.0" want the_signer (signed_on "v0.10.0") (rv_Release accepted)
    (ask_verifier root new_verifier).1 (ask_verifier root new_verifier).2 _ _ _ _ _ _ _ _ _ _ _)).
  - vm_compute. reflexivity.
  - intros r Hr. by apply elem_of_nil in Hr.
  - reflexivity.
  - exact root_read.
  - by left.
  - vm_compute. reflexivity.
  - reflexivity.
  - vm_compute. reflexivity.
  - vm_compute. reflexivity.
  - vm_compute. reflexivity.
  - exact (surjective_pairing _).
Defined.

(** A build the registry holds no bundle for. *)
Definition unattached : string := "sha256:" +:+ str_of (repeat "0"%char 64).
Lemma unattached_rejected : rv_Status (ask_verifier unattached new_verifier).1 = ReleaseRejected.
Proof. vm_compute. reflexivity. Qed.
Lemma rejections_grounded_witness :
  @holds_verdict sigstore Z ghcr unattached new_verifier (ask_verifier unattached new_verifier).1 \/
  @refusal sigstore Z ghcr token_urls the_policy false tuf 10000000000 unattached new_verifier.
Proof.
  apply (@rejections_grounded sigstore Z ghcr token_urls the_policy false tuf 10000000000 id unmoved unattached new_verifier
           (ask_verifier unattached new_verifier).1 (ask_verifier unattached new_verifier).2).
  - exact fresh_reached.
  - vm_compute. reflexivity.
  - exact (surjective_pairing _).
  - exact unattached_rejected.
Defined.

Lemma memory_kept_witness : size (ps_cache (ask_verifier unattached (ask_verifier root new_verifier).2).2) = 2%nat /\
  (size (ps_cache (ask_verifier unattached (ask_verifier root new_verifier).2).2) <= maxCachedVerdicts)%nat.
Proof.
  split; [vm_compute; reflexivity|].
  apply (@memory_kept sigstore Z ghcr token_urls the_policy false tuf 10000000000 id unmoved). unfold ask_verifier.
  do 2 apply reached_verify. exact fresh_reached.
Defined.

(** The registry under maintenance. *)
Definition dark : ProvenanceWorld Z := {|
  pv_now := fun w => w;
  pv_url_ok := fun _ => true;
  pv_do := fun _ _ w => (Ok (MkHttpResponse 503 ∅ [] None), w);
  url_with_query := fun _ _ => ""
|}.
Definition verify_dark : ReleaseVerdict * pstate :=
  @Provenance_Verify sigstore Z dark token_urls the_policy false tuf 10000000000 id broker root new_verifier.
Lemma outage_unavailable_witness : rv_Status verify_dark.1 = ReleaseUnavailable.
Proof.
  refine (proj1 (@outage_unavailable sigstore Z dark token_urls the_policy false tuf 10000000000 id root "ghcr.io" "0gfoundation/broker"
           new_verifier verify_dark.1 verify_dark.2 _ _ _ _ _ _ _ _)).
  - intros deadline r w. cbn. apply (bool_decide_unpack _). vm_compute. exact I.
  - vm_compute. reflexivity.
  - done.
  - reflexivity.
  - vm_compute. reflexivity.
  - intros r Hr. by apply elem_of_nil in Hr.
  - reflexivity.
  - exact (surjective_pairing _).
Defined.

Lemma bundles_attached_witness : exists manifests, Forall (attachment (take maxReferrers manifests) root) [bundle].
Proof.
  destruct (@bundles_attached Z ghcr token_urls 10000000000 broker root (∅, 0) [bundle] _ root_read) as
    (host & name & manifests & s1 & _ & _ & Hf); [done|]. exists manifests. exact Hf.
Defined.

Lemma versions_ordered_witness : versionLess (tag_of (0, 10, 0)) (tag_of (0, 9, 99)) = Some false /\
  exists b, versionLess (tag_of (0, 9, 99)) (tag_of (0, 10, 0)) = Some b /\ (b = true <-> earlier_release (0, 9, 99) (0, 10, 0)).
Proof.
  split; [vm_compute; reflexivity|]. apply (versions_ordered (0, 9, 99) (0, 10, 0)); unfold in_int, maxInt; cbn; lia.
Defined.

(** The gate of [JudgeWitness], its verifier's answer being this one's. *)
Abbreviation answered := (@verified_as sigstore Z ghcr token_urls the_policy false tuf 10000000000 id).
Definition provenance_turns (n : nat) : list move * Z := ([MAnswer 0 broker root accepted; MRelease], 0).
Lemma provenance_passed :
  (gated k provenance_turns (fun _ => 4%nat) BaselineWitness.spelled facts (Ok the_provider) start).1 = Ok the_provider.
Proof. vm_compute. reflexivity. Qed.
Lemma runtime_read : @ReadRuntimeState token_urls RuntimeWitness.reply RuntimeWitness.register = Ok RuntimeWitness.state.
Proof. vm_cast_no_check (eq_refl (@ReadRuntimeState token_urls RuntimeWitness.reply RuntimeWitness.register)). Qed.
Lemma sealed_to_releases_witness :
  exists b contract review dep, ch_baseline k = Some (b, contract) /\ mf_review (pf_manifest facts) = Some review /\
    For b contract BaselineWitness.spelled = Some dep /\ cr_LoadErr review = None /\
    is_deployment (judged k provenance_turns false) (@released sigstore Z the_policy false tuf) dep (cr_Blocks review) (cr_TopLevel review).
Proof.
  refine (proj2 (proj2 (@sealed_to_releases sigstore Z ghcr token_urls the_policy false tuf 10000000000 id unmoved k provenance_turns
    (fun _ => 4%nat) BaselineWitness.spelled RuntimeWitness.reply RuntimeWitness.register facts (Ok the_provider) the_provider start
    _ _ _ _ _ (pair_of _ _ provenance_passed)))).
  - intros n. constructor; [|repeat constructor]. exists new_verifier. split; [exact fresh_reached|exact verified_release].
  - apply reach_new.
  - rewrite runtime_read. reflexivity.
  - reflexivity.
Defined.
End witnesses.
