(* ===== verification/Platform.v ===== *)
(** * Platform: collateral, the guest agent and published releases
      ([client/dcap], [client/dstack], [client/release])

    [NewQuoteParser] puts go-tdx-guest's verification in front of [Attest]'s parser, over a
    getter of Intel's collateral that may be redirected to a mirror and cached. [FetchInfo],
    [FetchAppCompose] and [GetQuote] ask the CVM's guest agent; [PublishFile] and the two
    identity-file functions hand its identity to the other containers. [FetchComposeAssets]
    reads the published manifests that code identity is compared with.

    go-tdx-guest, the agent, GitHub and the faults of the file system are parameters.

    The theorems: collateral is used no longer than its time after it was fetched, and a
    failed fetch never; a reader of a published file sees the old one or the whole new one;
    an identity that is written is read back; a published manifest is one served for an
    asset of that name of a release that is no draft and no prerelease. *)

From S2P Require Import Prelude GoBytes GoJson GoDecode GoUrl GoText Profile Hpke GoHttp Attest Walk Preview Runtime Boot Baseline GoServe.

(** ** Collateral and the quote parser ([client/dcap]) *)

Abbreviation collateral := (Header * bytes)%type.
Abbreviation getter S := (string -> S -> cresult collateral * S).

Definition intelPCSBase : string := "https://api.trustedservices.intel.com".

(** [pccsRewriteGetter]: its base is what [newPCCSRewriteGetter] leaves of the one given. *)
Definition pccs_Get {S} (base : string) (inner : getter S) : getter S := fun u =>
  inner (match strip_prefix (bytes_of intelPCSBase) (bytes_of u) with
         | Some rest => base +:+ str_of rest
         | None => u
         end).
Definition newPCCSRewriteGetter {S} (base : string) (inner : getter S) : getter S := pccs_Get (trim_right_slash base) inner.

Record collateralEntry := MkCollateral { ce_header : Header; ce_body : bytes; ce_exp : Z }.
Abbreviation cache := (gmap string collateralEntry).

(** [cachingGetter]; [meanwhile] is what the process's other goroutines do between the
    lookup and the store. *)
Definition caching_Get {S} (now : S -> Z) (meanwhile : cache * S -> cache * S) (ttl : Z) (inner : getter S) : getter (cache * S) :=
  fun u s =>
  let fetch :=
    let '(r, w) := inner u s.2 in
    let '(m, w) := meanwhile (s.1, w) in
    match r with
    | Ok (header, body) => (Ok (header, body), (<[u := MkCollateral header body (now w + ttl)]> m, w))
    | Err e => (Err e, (m, w))
    end in
  match s.1 !! u with
  | Some e => if now s.2 <? ce_exp e then (Ok (ce_header e, ce_body e), s) else fetch
  | None => fetch
  end.

(** [Config]. *)
Record DcapConfig (S : Type) := MkDcap {
  cf_Getter : option (getter S);
  cf_Now : option Z;
  cf_SkipRevocation : bool;
  cf_PCCSBaseURL : string;
  cf_CollateralTTL : Z
}.
Arguments MkDcap {S} _ _ _ _ _.
Arguments cf_Getter {S} _.
Arguments cf_Now {S} _.
Arguments cf_SkipRevocation {S} _.
Arguments cf_PCCSBaseURL {S} _.
Arguments cf_CollateralTTL {S} _.

(** A getter that keeps no cache. *)
Definition uncached {S} (g : getter S) : getter (cache * S) := fun u s => let '(r, w) := g u s.2 in (r, (s.1, w)).

(** [Config.effectiveGetter]; [library] is go-tdx-guest's own getter. *)
Definition effectiveGetter {S} (now : S -> Z) (meanwhile : cache * S -> cache * S) (library : getter S) (cfg : DcapConfig S)
    : option (getter (cache * S)) :=
  if match cf_Getter cfg with Some _ => false | None => true end && String.eqb (cf_PCCSBaseURL cfg) "" && (cf_CollateralTTL cfg <=? 0)
  then None
  else
    let inner := default library (cf_Getter cfg) in
    let inner := if String.eqb (cf_PCCSBaseURL cfg) "" then inner else newPCCSRewriteGetter (cf_PCCSBaseURL cfg) inner in
    Some (if 0 <? cf_CollateralTTL cfg then caching_Get now meanwhile (cf_CollateralTTL cfg) inner else uncached inner).

(** [verify.Options], as far as they are set; and [verify.TimeSet]. *)
Record TimeSet := MkTimeSet { ts_PckCertChain : Z; ts_TcbInfo : Z; ts_QeIdentity : Z; ts_PckCrl : Z; ts_RootCaCrl : Z }.
Record Options (S : Type) := MkOptions {
  op_GetCollateral : bool;
  op_CheckRevocations : bool;
  op_Getter : option (getter S);
  op_Now : option TimeSet
}.
Arguments MkOptions {S} _ _ _ _.

Definition dcap_options {S} (getter : option (getter (cache * S))) (cfg : DcapConfig S) : Options (cache * S) :=
  MkOptions true (negb (cf_SkipRevocation cfg)) getter ((fun t => MkTimeSet t t t t t) <$> cf_Now cfg).

(** [NewQuoteParser], over [verify.RawTdxQuote]: [None] is its success. *)
Definition NewQuoteParser {S} (RawTdxQuote : bytes -> Options (cache * S) -> cache * S -> option string * (cache * S))
    (now : S -> Z) (meanwhile : cache * S -> cache * S) (library : getter S) (cfg : DcapConfig S) (raw : bytes) (s : cache * S)
    : aresult (Measurement * bytes) * (cache * S) :=
  let '(e, s) := RawTdxQuote raw (dcap_options (effectiveGetter now meanwhile library cfg) cfg) s in
  (match e with
   | Some why => Err (AParse why)
   | None => body ← ParseTDXQuoteBody raw; Ok (qb_Measurement body, qb_ReportData body)
   end, s).

(** ** The guest agent ([client/dstack]) *)

Definition DefaultSocket : string := "/var/run/dstack.sock".
Definition maxResponseBytes : Z := 4194304.
Definition maxIDLen : nat := 128.

Record Info := MkInfo { in_InstanceID : string; in_AppID : string; in_AppName : string; in_ComposeHash : string }.
Definition Info_fields : list (string * (Info -> json -> result jerr Info)) :=
  [("instance_id", fun '(MkInfo i a n c) j => v ← set_string i j; Ok (MkInfo v a n c));
   ("app_id", fun '(MkInfo i a n c) j => v ← set_string a j; Ok (MkInfo i v n c));
   ("app_name", fun '(MkInfo i a n c) j => v ← set_string n j; Ok (MkInfo i a v c));
   ("compose_hash", fun '(MkInfo i a n c) j => v ← set_string c j; Ok (MkInfo i a n v))].

Definition validID (s : string) : bool :=
  negb (String.eqb s "") && Nat.leb (length (bytes_of s)) maxIDLen && forallb is_lower_hex (bytes_of s).

Inductive agentErr := GTransport (e : cerr) | GStatus | GRead (e : cerr) | GTooLarge | GDecode (what : string) (e : jerr)
  | GNoInstance | GNoTCB | GNoCompose | GNoQuote | GFile.

(** The checks of the identity, which is read in two places. *)
Definition usable (info : Info) : result agentErr Info :=
  _ ← refuse (negb (validID (in_InstanceID info))) GNoInstance;
  Ok (if validID (in_AppID info) then info else MkInfo (in_InstanceID info) "" (in_AppName info) (in_ComposeHash info)).
Definition decode_info (body : bytes) : result agentErr Info :=
  info ← map_err (GDecode "Info") (unmarshal (unmarshal_struct Info_fields (MkInfo "" "" "" "")) body);
  usable info.

Section agent.
Context {W : Type}.
(** An exchange with the agent behind a socket. *)
Context (agent : string -> HttpRequest -> W -> cresult (HttpResponse cerr) * W).

Definition dstack_post (socket method : string) (body : bytes) (w : W) : result agentErr bytes * W :=
  let socket := if String.eqb socket "" then DefaultSocket else socket in
  match agent socket (MkHttpRequest ("http://dstack-guest-agent/" +:+ method) (header_set "Content-Type" "application/json" ∅) body) w with
  | (Err e, w) => (Err (GTransport e), w)
  | (Ok resp, w) =>
      (_ ← refuse (negb (hs_Status resp =? StatusOK)) GStatus;
       b ← map_err GRead (read_all_limited (maxResponseBytes + 1) resp);
       _ ← refuse (maxResponseBytes <? Z.of_nat (length b)) GTooLarge;
       Ok b, w)
  end.

Definition FetchInfo (socket : string) (w : W) : result agentErr Info * W :=
  let '(r, w) := dstack_post socket "Info" (bytes_of "{}") w in (body ← r; decode_info body, w).

Definition FetchAppCompose (socket : string) (w : W) : result agentErr bytes * W :=
  let '(r, w) := dstack_post socket "Info" (bytes_of "{}") w in
  (body ← r;
   tcb ← map_err (GDecode "Info") (unmarshal (unmarshal_struct [("tcb_info", fun _ j => Ok (Some j))] None) body);
   tcbInfo ← map_err (GDecode "tcb_info") (UnwrapJSONString (raw_bytes tcb));
   _ ← refuse (Nat.eqb (length (trim_space_bytes tcbInfo)) 0 || String.eqb (str_of (trim_space_bytes tcbInfo)) "null") GNoTCB;
   app ← map_err (GDecode "tcb_info") (unmarshal (unmarshal_struct [("app_compose", set_string)] "") tcbInfo);
   _ ← refuse (String.eqb app "") GNoCompose;
   Ok (bytes_of app), w).

Definition quote_request (reportData : bytes) : bytes := print (jobject [("report_data", jstr (str_of (hex_encode reportData)))]).
Definition GetQuote (socket : string) (reportData : bytes) (w : W) : result agentErr bytes * W :=
  let '(r, w) := dstack_post socket "GetQuote" (quote_request reportData) w in
  (body ← r;
   q ← map_err (GDecode "GetQuote") (unmarshal (unmarshal_struct [("quote", set_string)] "") body);
   quote ← of_option (hex_decode (bytes_of (trim_prefix q "0x"))) GNoQuote;
   _ ← refuse (Nat.eqb (length quote) 0) GNoQuote;
   Ok quote, w).
End agent.

(** *** The identity file *)

(** The files a reader of the shared volume sees, and their modes. *)
Abbreviation files := (gmap string (bytes * Z)).
Definition publishedFileMode : Z := 420.
Definition temporaryMode : Z := 384.

(** The calls of [PublishFile] that can fail. *)
Inductive fsStep := FMkdirAll | FCreateTemp | FWrite | FClose | FChmod | FRename.

Section publish.
(** What fails, how much of the text a failing write leaves, and the temporary's name. *)
Context (fails : fsStep -> bool) (written : nat) (tmp : string).

(** [PublishFile]: its result, and the files as they are after each of its calls, every
    byte of the write among them. *)
Definition PublishFile (path : string) (body : bytes) (fs : files) : result fsStep unit * list files :=
  let temp (n : nat) := <[tmp := (take n body, temporaryMode)]> fs in
  let whole := <[tmp := (body, temporaryMode)]> fs in
  let readable := <[tmp := (body, publishedFileMode)]> fs in
  let removed := delete tmp fs in
  if fails FMkdirAll then (Err FMkdirAll, [fs])
  else if fails FCreateTemp then (Err FCreateTemp, [fs])
  else if fails FWrite then (Err FWrite, map temp (seq 0 (S (Nat.min written (length body)))) ++ [removed])
  else let writing := map temp (seq 0 (S (length body))) in
  if fails FClose then (Err FClose, writing ++ [removed])
  else if fails FChmod then (Err FChmod, writing ++ [whole; removed])
  else if fails FRename then (Err FRename, writing ++ [whole; readable; removed])
  else (Ok tt, writing ++ [whole; readable; <[path := (body, publishedFileMode)]> (delete tmp fs)]).

(** [json.MarshalIndent] of an object of strings, two spaces deep. *)
Definition indented_member (kv : bytes * bytes) : bytes :=
  newline :: bytes_of "  " ++ quoted kv.1 ++ bytes_of ": " ++ quoted kv.2.
Definition indented (l : list (bytes * bytes)) : bytes :=
  bytes_of "{" ++ join (bytes_of ",") (map indented_member l) ++ newline :: bytes_of "}".
Definition info_members (info : Info) : list (bytes * bytes) :=
  map (fun kv => (bytes_of kv.1, quote (bytes_of kv.2)))
    [("instance_id", in_InstanceID info); ("app_id", in_AppID info); ("app_name", in_AppName info); ("compose_hash", in_ComposeHash info)].
Definition WriteIdentityFile (path : string) (info : Info) (fs : files) : result fsStep unit * list files :=
  PublishFile path (indented (info_members info) ++ [newline]) fs.
End publish.

Definition ReadIdentityFile (path : string) (fs : files) : result agentErr Info :=
  match fs !! path with
  | Some (body, _) => decode_info body
  | None => Err GFile
  end.

(** ** Published releases ([client/release]) *)

Definition DefaultRepo : string := "0gfoundation/0g-pc-e2ee".
Definition DefaultAsset : string := "docker-compose.release.yml".
Definition DefaultAPIBase : string := "https://api.github.com".
Definition maxAssetBytes : Z := 1048576.
Definition StatusForbidden : Z := 403.

Record Asset := MkAsset { as_Tag : string; as_URL : string; as_Content : bytes }.
Record ghRelease := MkGhRelease {
  gr_TagName : string; gr_HTMLURL : string; gr_Draft : bool; gr_Prerelease : bool; gr_Assets : list (string * string)
}.
Definition ghAsset_fields : list (string * (string * string -> json -> result jerr (string * string))) :=
  [("name", fun a j => v ← set_string a.1 j; Ok (v, a.2));
   ("browser_download_url", fun a j => v ← set_string a.2 j; Ok (a.1, v))].
Definition ghRelease_fields : list (string * (ghRelease -> json -> result jerr ghRelease)) :=
  [("tag_name", fun '(MkGhRelease t h d p a) j => v ← set_string t j; Ok (MkGhRelease v h d p a));
   ("html_url", fun '(MkGhRelease t h d p a) j => v ← set_string h j; Ok (MkGhRelease t v d p a));
   ("draft", fun '(MkGhRelease t h d p a) j => v ← set_bool d j; Ok (MkGhRelease t h v p a));
   ("prerelease", fun '(MkGhRelease t h d p a) j => v ← set_bool p j; Ok (MkGhRelease t h d v a));
   ("assets", fun '(MkGhRelease t h d p a) j =>
      v ← set_structs (unmarshal_struct ghAsset_fields) ("", "") a j; Ok (MkGhRelease t h d p v))].

(** [Config], but for the client. *)
Record ReleaseConfig := MkReleaseConfig { rl_HTTP : bool; rl_Repo : string; rl_Asset : string; rl_APIBase : string }.
Definition orDefault (v def : string) : string := if String.eqb (trim_space v) "" then def else v.

Definition wrap64 (z : Z) : Z := (z + 2 ^ 63) mod 2 ^ 64 - 2 ^ 63.

Inductive ghErr := HURL | HDo (e : cerr) | HRead (e : cerr) | HRateLimit | HStatus | HTooLarge | HJSON (e : jerr).
Inductive relErr := ENoHTTP | ERepo | ECount | EList (e : ghErr) | EDownload (tag : string) (e : ghErr) | ENone.

Section releases.
Context {W : Type} (getenv : string -> string) (url_valid : string -> bool).
Context (github : HttpRequest -> W -> cresult (HttpResponse cerr) * W).

Definition githubToken : string :=
  match List.find (fun v => negb (String.eqb v "")) (map (fun k => trim_space (getenv k)) ["GITHUB_TOKEN"; "GH_TOKEN"]) with
  | Some v => v | None => "" end.
Definition gh_request (url : string) : HttpRequest :=
  let h := header_set "X-GitHub-Api-Version" "2022-11-28" (header_set "Accept" "application/vnd.github+json" ∅) in
  MkHttpRequest url (if String.eqb githubToken "" then h else header_set "Authorization" ("Bearer " +:+ githubToken) h) [].

Definition ghBytes (url : string) (w : W) : result ghErr bytes * W :=
  if negb (url_valid url) then (Err HURL, w)
  else match github (gh_request url) w with
  | (Err e, w) => (Err (HDo e), w)
  | (Ok resp, w) =>
      (body ← map_err HRead (read_all_limited (maxAssetBytes + 1) resp);
       _ ← refuse ((hs_Status resp =? StatusForbidden) && String.eqb (header_get (hs_Header resp) "X-RateLimit-Remaining") "0") HRateLimit;
       _ ← refuse (negb (hs_Status resp =? StatusOK)) HStatus;
       _ ← refuse (maxAssetBytes <? Z.of_nat (length body)) HTooLarge;
       Ok body, w)
  end.

Definition ghJSON (url : string) (w : W) : result ghErr (list ghRelease) * W :=
  let '(r, w) := ghBytes url w in
  (body ← r;
   map_err HJSON (unmarshal (set_structs (unmarshal_struct ghRelease_fields) (MkGhRelease "" "" false false []) []) body), w).

(** The asset of a release, and the loop; the second result is the tags warned of. *)
Definition asset_url (asset : string) (r : ghRelease) : string :=
  match List.find (fun a => String.eqb a.1 asset) (gr_Assets r) with Some a => a.2 | None => "" end.
Fixpoint fetch_assets (asset : string) (count : Z) (releases : list ghRelease) (out : list Asset) (notes : list string) (w : W)
    : result relErr (list Asset) * list string * W :=
  match releases with
  | [] => (Ok out, notes, w)
  | r :: releases =>
      if Z.of_nat (length out) =? count then (Ok out, notes, w)
      else if gr_Draft r || gr_Prerelease r then fetch_assets asset count releases out notes w
      else if String.eqb (asset_url asset r) "" then fetch_assets asset count releases out (notes ++ [gr_TagName r]) w
      else match ghBytes (asset_url asset r) w with
      | (Err e, w) => (Err (EDownload (gr_TagName r) e), notes, w)
      | (Ok body, w) => fetch_assets asset count releases (out ++ [MkAsset (gr_TagName r) (gr_HTMLURL r) body]) notes w
      end
  end.

Definition releases_url (cfg : ReleaseConfig) (owner name : bytes) (count : Z) : string :=
  orDefault (rl_APIBase cfg) DefaultAPIBase +:+ "/repos/" +:+ str_of (PathEscape owner) +:+ "/" +:+ str_of (PathEscape name)
  +:+ "/releases?per_page=" +:+ str_of (itoa (Z.min (wrap64 (count * 2)) 100)).

Definition FetchComposeAssets (cfg : ReleaseConfig) (count : Z) (w : W) : result relErr (list Asset) * list string * W :=
  if negb (rl_HTTP cfg) then (Err ENoHTTP, [], w)
  else match split_first "/" (bytes_of (trim_space (orDefault (rl_Repo cfg) DefaultRepo))) with
  | Some ((_ :: _) as owner, (_ :: _) as name) =>
      if count <=? 0 then (Err ECount, [], w)
      else match ghJSON (releases_url cfg owner name count) w with
      | (Err e, w) => (Err (EList e), [], w)
      | (Ok releases, w) =>
          let '(r, notes, w) := fetch_assets (orDefault (rl_Asset cfg) DefaultAsset) count releases [] [] w in
          (out ← r; _ ← refuse (Nat.eqb (length out) 0) ENone; Ok out, notes, w)
      end
  | _ => (Err ERepo, [], w)
  end.
End releases.

(** ** Collateral *)

Section window.
Context {W : Type} (now : W -> Z) (ttl lag : Z) (library : getter W).
(** The getter beneath the cache, with a record of what it brought and when. *)
Abbreviation fetched := (string * collateral * Z)%type.
Abbreviation recorded := (W * list fetched)%type.
Definition recording : getter recorded := fun u s =>
  match library u s.1 with
  | (Ok x, w) => (Ok x, (w, (u, x, now w) :: s.2))
  | (Err e, w) => (Err e, (w, s.2))
  end.
Context (meanwhile : cache * recorded -> cache * recorded).
Definition caching : getter (cache * recorded) := caching_Get (fun s => now s.1) meanwhile ttl recording.

(** Each entry is what its URL brought, and is used for the cache's time after that, and
    after a wait for the lock. *)
Definition window_ok (s : cache * recorded) : Prop :=
  forall u e, s.1 !! u = Some e ->
    exists t, (u, (ce_header e, ce_body e), t) ∈ s.2.2 /\ ce_exp e <= t + ttl + lag.
(** The other goroutines only get too, and the wait for the lock is at most [lag]. *)
Context (Hkeeps : forall s, window_ok s -> window_ok (meanwhile s)).
Context (Hgrows : forall s x, x ∈ s.2.2 -> x ∈ (meanwhile s).2.2).
Context (Hlag : forall s, now (meanwhile s).2.1 <= now s.2.1 + lag).

Inductive collected : cache * recorded -> Prop :=
| collected_new w : collected (∅, (w, []))
| collected_get u s : collected s -> collected (caching u s).2
| collected_wait m w w' log : collected (m, (w, log)) -> collected (m, (w', log)).

Lemma window_log m w log log' : (forall x, x ∈ log -> x ∈ log') -> window_ok (m, (w, log)) -> forall w', window_ok (m, (w', log')).
Proof. intros Hl Hw w' u e He. destruct (Hw u e He) as (t & Ht & Hx). exists t. split; [by apply Hl|done]. Qed.

Lemma caching_spec u s r s' : window_ok s -> caching u s = (r, s') ->
  window_ok s' /\
  match r with
  | Ok x => (s' = s /\ exists t, (u, x, t) ∈ s.2.2 /\ now s.2.1 < t + ttl + lag) \/ (library u s.2.1).1 = Ok x
  | Err e => (library u s.2.1).1 = Err e
  end.
Proof.
  intros Hs. destruct s as [m [w log]]. unfold caching, caching_Get. cbn [fst snd].
  set (fetch := let '(r, w0) := recording u (w, log) in _).
  assert (fetch = (r, s') -> window_ok s' /\
    match r with
    | Ok x => (s' = (m, (w, log)) /\ exists t, (u, x, t) ∈ log /\ now w < t + ttl + lag) \/ (library u w).1 = Ok x
    | Err e => (library u w).1 = Err e
    end) as Hfetch.
  { unfold fetch, recording. cbn [fst snd]. destruct (library u w) as [[[h b]|e] w1]; cbn [fst].
    - set (s1 := (m, (w1, (u, (h, b), now w1) :: log))).
      assert (window_ok s1) as H1' by (eapply window_log; [|exact Hs]; intros x Hx; by right).
      assert ((u, (h, b), now w1) ∈ s1.2.2) as Hin by by left.
      pose proof (Hkeeps _ H1') as H2'. pose proof (Hgrows _ _ Hin) as Hin'. pose proof (Hlag s1) as Hl. cbn [s1 fst snd] in Hl.
      fold s1. destruct (meanwhile s1) as [m2 [w2 log2]]. cbn [fst snd] in *. intros [= <- <-]. split; [|by right].
      intros u' e He. cbn [fst] in He. destruct (decide (u' = u)) as [->|Hne].
      + rewrite lookup_insert_eq in He. injection He as <-. exists (now w1). cbn. split; [done|lia].
      + rewrite lookup_insert_ne in He by done. by apply H2'.
    - set (s1 := (m, (w1, log))). assert (window_ok s1) as H1' by (eapply window_log; [|exact Hs]; done).
      pose proof (Hkeeps _ H1') as H2'. fold s1. destruct (meanwhile s1) as [m2 [w2 log2]]. by intros [= <- <-]. }
  destruct (m !! u) as [e|] eqn:Em; [|exact Hfetch]. destruct (Z.ltb_spec (now w) (ce_exp e)); [|exact Hfetch].
  intros [= <- <-]. split; [done|]. left. split; [done|]. destruct (Hs u e Em) as (t & Ht & Hx). exists t. split; [done|]. cbn. lia.
Qed.

Lemma collected_ok s : collected s -> window_ok s.
Proof.
  induction 1 as [w|u s _ IH|m w w' log _ IH].
  - intros u e He. cbn in He. by rewrite lookup_empty in He.
  - destruct (caching u s) as [r s'] eqn:E. by apply caching_spec in E as [? _].
  - eapply window_log; [|exact IH]. done.
Qed.

(** C32: how old collateral may be. What the cache answers was brought from that very URL,
    either just now or less than the cache's time, and one wait for its lock, ago; and a
    failure is only ever the failure of a fetch made just now. So a revocation is seen
    within that window. *)
Theorem collateral_window u s r s' : collected s -> caching u s = (r, s') ->
  match r with
  | Ok x => (s' = s /\ exists t, (u, x, t) ∈ s.2.2 /\ now s.2.1 < t + ttl + lag) \/ (library u s.2.1).1 = Ok x
  | Err e => (library u s.2.1).1 = Err e
  end.
Proof. intros Hs E. apply collected_ok in Hs. by apply caching_spec in E as [_ ?]. Qed.
End window.

(** A redirected getter asks the mirror for the same path and query, and of other hosts
    what it was asked. *)
Lemma pccs_redirects {S} base (inner : getter S) rest u s :
  newPCCSRewriteGetter base inner (intelPCSBase +:+ rest) s = inner (trim_right_slash base +:+ rest) s /\
  (has_prefix u intelPCSBase = false -> newPCCSRewriteGetter base inner u s = inner u s).
Proof.
  unfold newPCCSRewriteGetter, pccs_Get. split.
  - by rewrite bytes_of_app, (proj2 (strip_prefix_spec _ _ _) eq_refl), str_of_bytes_of.
  - unfold has_prefix. by destruct (strip_prefix _ _).
Qed.

(** What [Attest]'s verifier accepts over this parser, go-tdx-guest verified, with the
    revocation lists unless they are waived. *)
Lemma dcap_verified {S} RawTdxQuote (now : S -> Z) meanwhile library cfg policy raw (s : cache * S) vd :
  Verify (New policy [WithQuoteParser (Some (fun raw => (NewQuoteParser RawTdxQuote now meanwhile library cfg raw s).1))]) raw = Ok vd ->
  exists getter s' body rd,
    RawTdxQuote raw (MkOptions true (negb (cf_SkipRevocation cfg)) getter ((fun t => MkTimeSet t t t t t) <$> cf_Now cfg)) s = (None, s') /\
    ParseTDXQuoteBody raw = Ok body /\ ParseReportData (qb_ReportData body) = Ok rd /\
    vd_EncPub vd = rd_EncPub rd /\ vd_SignerAddr vd = rd_SignerAddr rd.
Proof.
  unfold Verify, New, WithQuoteParser. cbn [fold_left v_parse v_policy v_mode]. intros E.
  apply bind_ok in E as ([] & _ & E). apply bind_ok in E as ([m rd] & Hp & E). unfold NewQuoteParser, dcap_options in Hp.
  destruct (RawTdxQuote raw _ s) as [[why|] s'] eqn:Er; [done|]. cbn [fst] in Hp. inv_ok. simplify_eq.
  eexists _, s', _, _. split; [exact Er|]. by split_and!.
Qed.

(** ** The identity file *)

Section published.
Context (fails : fsStep -> bool) (written : nat) (tmp : string).

(** Publishing is atomic. Whatever fails, and wherever a reader looks in, the file is
    the one that was there or the whole new one, readable by all; it is the new one at the
    end exactly if publishing says it succeeded; and no temporary stays behind. *)
Lemma publish_atomic path body fs r seen : tmp <> path -> fs !! tmp = None ->
  PublishFile fails written tmp path body fs = (r, seen) ->
  Forall (fun f => f !! path = fs !! path \/ f !! path = Some (body, publishedFileMode)) seen /\
  last seen = Some (match r with Ok _ => <[path := (body, publishedFileMode)]> fs | Err _ => fs end).
Proof.
  intros Hne Ht. set (fine := fun f : files => _ \/ _). unfold PublishFile. rewrite (delete_id fs tmp Ht).
  assert (forall v : bytes * Z, fine (<[tmp := v]> fs)) as Hi by (intros v; left; by rewrite lookup_insert_ne).
  assert (fine fs) as Hfs by by left. assert (fine (<[path := (body, publishedFileMode)]> fs)) as Hn by (right; apply lookup_insert_eq).
  assert (forall n, Forall fine (map (fun k => <[tmp := (take k body, temporaryMode)]> fs) (seq 0 n))) as Hw
    by (intros n; apply Forall_forall; intros f (k & -> & _)%list_elem_of_fmap; apply Hi).
  pose proof (Hw (S (Nat.min written (length body)))) as Hcut. specialize (Hw (S (length body))).
  set (cut := map _ (seq 0 (S (Nat.min _ _)))) in *. set (writing := map _ (seq 0 (S (length body)))) in *. clearbody cut writing.
  repeat match goal with |- context [if fails ?s then _ else _] => destruct (fails s) end; intros [= <- <-].
  1, 2: by split; [by apply Forall_singleton|].
  all: split; [rewrite Forall_app, !Forall_cons; split_and!; by auto using Forall_nil_2|by rewrite last_app_cons].
Qed.
End published.

(** Indented text reads back. *)
Lemma pval_spaced m v X : str_ok v = true -> pval (S m) (" "%char :: quoted v ++ X) = Some (JStr v, X).
Proof.
  intros Hv. unfold quoted. rewrite <-app_comm_cons, <-app_assoc. cbn [pval].
  change (skip_ws (" "%char :: quote_char :: v ++ [quote_char] ++ X)) with (quote_char :: v ++ quote_char :: X).
  cbv beta iota. rewrite Ascii.eqb_refl. by rewrite scan_str_quoted.
Qed.

Lemma pmembers_member m n k v Y : str_ok k = true -> str_ok v = true ->
  pmembers (pval (S m)) (S n) (indented_member (k, v) ++ Y) =
  match skip_ws Y with
  | c :: r =>
      if Ascii.eqb c "," then '(ms, r) ← pmembers (pval (S m)) n r; Some ((k, JStr v) :: ms, r)
      else if Ascii.eqb c "}" then Some ([(k, JStr v)], r)
      else None
  | [] => None
  end.
Proof.
  intros Hk Hv. unfold indented_member. cbn [fst snd]. unfold quoted at 1.
  replace ((newline :: bytes_of "  " ++ (quote_char :: k ++ [quote_char]) ++ bytes_of ": " ++ quoted v) ++ Y)
    with (newline :: " "%char :: " "%char :: quote_char :: k ++ quote_char :: ":"%char :: " "%char :: quoted v ++ Y)
    by (cbn [app bytes_of list_ascii_of_string]; do 3 f_equal; rewrite <-!app_assoc; reflexivity).
  cbn [pmembers].
  assert (forall q, skip_ws (newline :: " "%char :: " "%char :: quote_char :: q) = quote_char :: q) as -> by done.
  cbv beta iota. rewrite Ascii.eqb_refl, scan_str_quoted by done. cbn [mbind option_bind].
  assert (forall q, skip_ws (":"%char :: q) = ":"%char :: q) as -> by done. cbv beta iota.
  rewrite Ascii.eqb_refl, pval_spaced by done. reflexivity.
Qed.

Lemma pmembers_indented m l n X : l <> [] -> Forall (fun kv => str_ok kv.1 = true /\ str_ok kv.2 = true) l -> (length l <= n)%nat ->
  pmembers (pval (S m)) n (join (bytes_of ",") (map indented_member l) ++ newline :: "}"%char :: X)
  = Some (map (fun kv => (kv.1, JStr kv.2)) l, X).
Proof.
  intros Hne H. revert n Hne. induction H as [|[k v] l [Hk Hv] _ IH]; intros n Hne Hn; [done|]. cbn in Hk, Hv.
  destruct n as [|n]; [cbn in Hn; lia|]. destruct l as [|kv' l].
  - cbn [map join]. rewrite pmembers_member by done. reflexivity.
  - specialize (IH n ltac:(done) ltac:(cbn in *; lia)).
    change (join (bytes_of ",") (map indented_member ((k, v) :: kv' :: l)))
      with (indented_member (k, v) ++ ","%char :: join (bytes_of ",") (map indented_member (kv' :: l))).
    rewrite <-app_assoc, pmembers_member by done. cbn [app].
    assert (forall q, skip_ws (","%char :: q) = ","%char :: q) as -> by done. cbv beta iota. rewrite Ascii.eqb_refl. by rewrite IH.
Qed.

Lemma parse_indented l : l <> [] -> Forall (fun kv => str_ok kv.1 = true /\ str_ok kv.2 = true) l ->
  parse (indented l ++ [newline]) = Some (JObj (map (fun kv => (kv.1, JStr kv.2)) l)).
Proof.
  intros Hne Hl. unfold parse, indented. set (text := bytes_of "{" ++ _).
  assert (exists n, length (text ++ [newline]) = S (S n) /\ (length l <= S n)%nat) as (n & -> & Hn).
  { exists (length (text ++ [newline]) - 2)%nat. unfold text. rewrite !length_app. cbn [length bytes_of list_ascii_of_string].
    assert (length l <= length (join [","%char] (map indented_member l)))%nat; [|lia].
    clear. induction l as [|kv [|kv' l] IH]; [cbn; lia|cbn; lia|].
    change (join [","%char] (map indented_member (kv :: kv' :: l)))
      with (indented_member kv ++ ","%char :: join [","%char] (map indented_member (kv' :: l))).
    rewrite length_app. cbn [length] in *. lia. }
  unfold text. destruct l as [|[k v] l]; [done|].
  assert (exists q, join (bytes_of ",") (map indented_member ((k, v) :: l)) ++ [newline; "}"%char; newline] = newline :: " "%char :: " "%char :: quote_char :: q) as [q Hq].
  { cbn [map join]. destruct (map indented_member l); cbn; eauto. }
  replace ((bytes_of "{" ++ join (bytes_of ",") (map indented_member ((k, v) :: l)) ++ newline :: bytes_of "}") ++ [newline])
    with ("{"%char :: newline :: " "%char :: " "%char :: quote_char :: q) by (rewrite <-Hq, <-!app_assoc; reflexivity).
  assert (forall n r, pval (S n) ("{"%char :: newline :: r) =
    match skip_ws (newline :: r) with
    | c' :: r' => if Ascii.eqb c' "}" then Some (JObj [], r') else '(ms, r) ← pmembers (pval n) n (newline :: r); Some (JObj ms, r)
    | [] => None end) as -> by reflexivity.
  assert (skip_ws (newline :: " "%char :: " "%char :: quote_char :: q) = quote_char :: q) as -> by done. cbv beta iota.
  change (Ascii.eqb quote_char "}") with false. cbv iota. rewrite <-Hq.
  change [newline; "}"%char; newline] with (newline :: "}"%char :: [newline]).
  rewrite pmembers_indented; [|done|done|cbn in *; lia].
  cbn [mbind option_bind]. change (skip_ws [newline]) with (@nil ascii). rewrite bool_decide_true by done.
  replace (jdepth _ <=? maxNestingDepth)%N with true; [done|]. symmetry. apply N.leb_le. cbn [jdepth].
  set (g := fold_right _ _ _). assert (g = 0%N) as ->; [|done]. unfold g.
  generalize ((k, v) :: l). clear. induction l as [|[a b] l IH]; [done|]. cbn [map fold_right]. rewrite IH. done.
Qed.

Lemma validID_utf8 s : validID s = true -> utf8_str s = true.
Proof.
  unfold validID. intros H. bool_hyps. apply utf8_ok_ascii, Forall_forall. intros c Hc.
  match goal with Hf : forallb _ _ = true |- _ => rewrite forallb_forall in Hf; apply list_elem_of_In, Hf in Hc end.
  unfold is_lower_hex, is_digit, in_range in Hc. lia.
Qed.

(** An identity whose texts are valid UTF-8. *)
Definition printable (info : Info) : Prop :=
  utf8_str (in_InstanceID info) = true /\ utf8_str (in_AppID info) = true /\
  utf8_str (in_AppName info) = true /\ utf8_str (in_ComposeHash info) = true.

Lemma decode_info_written info : printable info -> decode_info (indented (info_members info) ++ [newline]) = usable info.
Proof.
  intros (Hi & Ha & Hn & Hc). unfold decode_info, unmarshal. rewrite parse_indented.
  - destruct info as [i a n c]. cbn [info_members map fst snd in_InstanceID in_AppID in_AppName in_ComposeHash] in *.
    change (bytes_of "instance_id") with (jkey "instance_id"). change (bytes_of "app_id") with (jkey "app_id").
    change (bytes_of "app_name") with (jkey "app_name"). change (bytes_of "compose_hash") with (jkey "compose_hash").
    fold (jstr i) (jstr a) (jstr n) (jstr c). cbn [unmarshal_struct].
    do 4 (erewrite set_members_exact; [|done|reflexivity]; cbn [snd]; rewrite set_string_jstr by done; cbn [mbind result_bind]).
    reflexivity.
  - done.
  - apply Forall_map, Forall_forall. intros kv Hkv. cbn [fst snd]. split; [|apply str_ok_quote].
    revert kv Hkv. apply Forall_forall. repeat constructor.
Qed.

(** C33: an identity is handed over whole. Whatever of the write fails, and whenever a reader
    reads, it gets the identity that was there or the one written, its identifiers held to
    their shape; and the one written, once the write has succeeded. *)
Theorem identity_handed_over fails written tmp path info fs r seen : tmp <> path -> fs !! tmp = None -> printable info ->
  WriteIdentityFile fails written tmp path info fs = (r, seen) ->
  Forall (fun f => ReadIdentityFile path f = ReadIdentityFile path fs \/ ReadIdentityFile path f = usable info) seen /\
  exists f, last seen = Some f /\
    ReadIdentityFile path f = match r with Ok _ => usable info | Err _ => ReadIdentityFile path fs end.
Proof.
  intros Hne Ht Hp E. apply publish_atomic in E as [Hall Hlast]; [|done..]. pose proof (decode_info_written info Hp) as Hd. split.
  - eapply Forall_impl; [exact Hall|]. intros f [Hf|Hf]; [left|right]; unfold ReadIdentityFile; by rewrite Hf.
  - eexists. split; [exact Hlast|]. destruct r; [|done]. unfold ReadIdentityFile. by rewrite lookup_insert_eq.
Qed.

(** ** Published releases *)

Section assets.
Context {W : Type} (getenv : string -> string) (url_valid : string -> bool).
Context (github : HttpRequest -> W -> cresult (HttpResponse cerr) * W).

(** A text GitHub served whole for a URL, within the bound. *)
Definition github_served (url : string) (body : bytes) : Prop :=
  exists w resp w', github (gh_request getenv url) w = (Ok resp, w') /\ hs_Status resp = StatusOK /\
    read_all resp = Ok body /\ Z.of_nat (length body) <= maxAssetBytes.

Lemma take_z_all n (l : bytes) : Z.of_nat (length l) <= n -> take_z n l = l.
Proof.
  revert n. induction l as [|c l IH]; intros n Hn; cbn in *; [done|]. destruct (Z.leb_spec n 0); [lia|]. by rewrite IH by lia.
Qed.

Lemma ghBytes_ok url w body w' : ghBytes getenv url_valid github url w = (Ok body, w') -> github_served url body.
Proof.
  unfold ghBytes. destruct (negb (url_valid url)); [done|]. destruct (github _ w) as [[resp|] w1] eqn:Eg; [|done].
  intros E. apply (f_equal fst) in E. cbn [fst] in E. apply bind_ok in E as (b & Hb & E). apply map_err_ok in Hb.
  apply bind_ok in E as ([] & _ & E). apply bind_ok in E as ([] & Hs & E). apply bind_ok in E as ([] & Hl & E).
  apply refuse_ok in Hs, Hl. injection E as ->. bool_hyps. apply Z.ltb_ge in Hl.
  exists w, resp, w1. split; [done|]. split; [lia|]. split; [|done]. revert Hb. unfold read_all_limited.
  destruct (Z.leb_spec (maxAssetBytes + 1) (Z.of_nat (length (hs_Body resp)))); [|done].
  intros [= Hb]. pose proof (take_z_length (maxAssetBytes + 1) (hs_Body resp)) as Ht. rewrite Hb in Ht. lia.
Qed.

Definition published_release (r : ghRelease) : Prop := gr_Draft r = false /\ gr_Prerelease r = false.
(** A manifest of a release: its name and page, and what was served for the first of its
    assets of that name. *)
Definition asset_of (asset : string) (r : ghRelease) (a : Asset) : Prop :=
  published_release r /\ as_Tag a = gr_TagName r /\ as_URL a = gr_HTMLURL r /\ asset_url asset r <> "" /\
  github_served (asset_url asset r) (as_Content a).

Lemma fetch_assets_ok asset count releases out notes w res notes' w' :
  Z.of_nat (length out) <= count -> fetch_assets getenv url_valid github asset count releases out notes w = (Ok res, notes', w') ->
  Z.of_nat (length res) <= count /\
  exists more chosen, res = out ++ more /\ sublist chosen releases /\ Forall2 (asset_of asset) chosen more.
Proof.
  revert out notes w. induction releases as [|r releases IH]; intros out notes w Hc; cbn [fetch_assets].
  - intros [= <- _ _]. split; [done|]. exists [], []. rewrite app_nil_r. split; [done|]. split; [constructor|constructor].
  - assert (forall out0 notes0 w0, Z.of_nat (length out0) <= count ->
      fetch_assets getenv url_valid github asset count releases out0 notes0 w0 = (Ok res, notes', w') -> Z.of_nat (length res) <= count /\
      exists more chosen, res = out0 ++ more /\ sublist chosen (r :: releases) /\ Forall2 (asset_of asset) chosen more) as Hskip.
    { intros out0 notes0 w0 Hc0 E. apply IH in E as (Hl & more & chosen & -> & Hs & Hf); [|done]. split; [done|].
      exists more, chosen. split; [done|]. split; [by apply sublist_cons|done]. }
    destruct (Z.eqb_spec (Z.of_nat (length out)) count).
    { intros [= <- _ _]. split; [done|]. exists [], []. rewrite app_nil_r. split; [done|]. split; [apply sublist_nil_l|constructor]. }
    destruct (gr_Draft r || gr_Prerelease r) eqn:Ed; [by apply Hskip|]. destruct (String.eqb_spec (asset_url asset r) ""); [by apply Hskip|].
    destruct (ghBytes _ _ _ _ _) as [[body|] w1] eqn:Eg; [|done]. apply ghBytes_ok in Eg. intros E.
    apply IH in E as (Hl & more & chosen & -> & Hs & Hf); [|rewrite length_app; cbn; lia]. split; [done|].
    exists (MkAsset (gr_TagName r) (gr_HTMLURL r) body :: more), (r :: chosen). rewrite <-app_assoc. split; [done|]. split; [by apply sublist_skip|].
    constructor; [|done]. apply orb_false_iff in Ed. by split_and!.
Qed.

(** What counts as published. The manifests that code identity is compared with are, in
    the order of GitHub's list of the repository's releases and no more than were asked
    for, at least one, each what GitHub served for the asset of that name of a release that
    is no draft and no prerelease, under that release's tag. *)
Theorem assets_published cfg count w out notes w' :
  FetchComposeAssets getenv url_valid github cfg count w = (Ok out, notes, w') ->
  out <> [] /\ Z.of_nat (length out) <= count /\
  exists owner name body releases chosen,
    github_served (releases_url cfg owner name count) body /\
    unmarshal (set_structs (unmarshal_struct ghRelease_fields) (MkGhRelease "" "" false false []) []) body = Ok releases /\
    sublist chosen releases /\ Forall2 (asset_of (orDefault (rl_Asset cfg) DefaultAsset)) chosen out.
Proof.
  unfold FetchComposeAssets. destruct (negb (rl_HTTP cfg)); [done|].
  destruct (split_first "/" _) as [[[|o owner] [|n name]]|]; try done. destruct (Z.leb_spec count 0); [done|].
  unfold ghJSON. destruct (ghBytes _ _ _ _ _) as [[body|] w1] eqn:Eg; cbn [mbind result_bind]; [|done].
  destruct (map_err HJSON _) as [releases|] eqn:Em; [|done]. apply map_err_ok in Em. apply ghBytes_ok in Eg.
  destruct (fetch_assets _ _ _ _ _ _ _ _ _) as [[[res|] notes1] w2] eqn:Ef; cbn [mbind result_bind]; [|done].
  intros E. apply (f_equal (fun x => x.1.1)) in E. cbn [fst] in E. apply bind_ok in E as ([] & Hn & [= ->]).
  apply refuse_ok in Hn. apply fetch_assets_ok in Ef as (Hl & more & chosen & -> & Hs & Hf); [|cbn; lia]. split; [by destruct more|].
  split; [done|]. by exists (o :: owner), (n :: name), body, releases, chosen.
Qed.
End assets.

(** ** Witnesses *)

Module PlatformWitness.
(** Intel's service, whose body says when it was asked; and a cache of an hour. *)
Definition intel : getter Z := fun u w => if String.eqb u "https://down" then (Err (EMsg "no route"), w + 1) else (Ok (∅, itoa w), w + 1).
Definition tcb_url : string := "https://api.trustedservices.intel.com/tdx/certification/v4/tcb?fmspc=00".
Definition at_first : cache * (Z * list (string * collateral * Z)) := (∅, (100, [])).
Definition hour : getter (cache * (Z * list (string * collateral * Z))) := caching id 3600 intel id.
Definition asked_once : cache * (Z * list (string * collateral * Z)) := (hour tcb_url at_first).2.
Definition at_time (t : Z) : cache * (Z * list (string * collateral * Z)) := (asked_once.1, (t, asked_once.2.2)).
Example within_the_hour : (hour tcb_url (at_time 3000)).1 = Ok (∅, bytes_of "100").
Proof. vm_compute. reflexivity. Qed.
Example after_the_hour : (hour tcb_url (at_time 3701)).1 = Ok (∅, bytes_of "3701").
Proof. vm_compute. reflexivity. Qed.

(** A disk whose rename fails. *)
Definition no_rename (s : fsStep) : bool := match s with FRename => true | _ => false end.
Definition ours : Info := MkInfo "0a0b" "not an id" "gateway <blue>" "c0ffee".
Definition volume : files := <["/id/cvm.json" := (bytes_of "stale", 420)]> ∅.
Definition handed (fails : fsStep -> bool) : result fsStep unit * list files :=
  WriteIdentityFile fails 3 "/id/.publish-1" "/id/cvm.json" ours volume.
Example handed_text : indented (info_members (MkInfo "0a" "" "x" "")) =
  bytes_of "{" ++ newline :: bytes_of "  " ++ quoted (bytes_of "instance_id") ++ bytes_of ": " ++ quoted (bytes_of "0a") ++ bytes_of ","
  ++ newline :: bytes_of "  " ++ quoted (bytes_of "app_id") ++ bytes_of ": " ++ quoted [] ++ bytes_of ","
  ++ newline :: bytes_of "  " ++ quoted (bytes_of "app_name") ++ bytes_of ": " ++ quoted (bytes_of "x") ++ bytes_of ","
  ++ newline :: bytes_of "  " ++ quoted (bytes_of "compose_hash") ++ bytes_of ": " ++ quoted [] ++ newline :: bytes_of "}".
Proof. vm_compute. reflexivity. Qed.

(** GitHub, with a draft, a release without a manifest and one with. *)
Definition release_json (tag : string) (draft : bool) (assets : list json) : json :=
  jobject [("tag_name", jstr tag); ("html_url", jstr ("https://github.com/r/" +:+ tag)); ("draft", JBool draft);
           ("prerelease", JBool false); ("assets", JArr assets)].
Definition manifest_json : json :=
  jobject [("name", jstr DefaultAsset); ("browser_download_url", jstr "https://github.com/d/1")].
Definition served_list : bytes :=
  print (JArr [release_json "draft-1" true [manifest_json]; release_json "release-2" false []; release_json "release-1" false [manifest_json]]).
Definition list_at : string := "https://api.github.com/repos/0gfoundation/0g-pc-e2ee/releases?per_page=10".
Definition hub (q : HttpRequest) (w : unit) : cresult (HttpResponse cerr) * unit :=
  (Ok (if String.eqb (hq_URL q) list_at then MkHttpResponse 200 ∅ served_list None
       else if String.eqb (hq_URL q) "https://github.com/d/1" then MkHttpResponse 200 ∅ (bytes_of "services: {}") None
       else MkHttpResponse 404 ∅ [] None), w).
Definition found : result relErr (list Asset) * list string * unit :=
  FetchComposeAssets (fun _ => "") (fun _ => true) hub (MkReleaseConfig true "" "" "") 5 tt.
Definition the_manifest : Asset := MkAsset "release-1" "https://github.com/r/release-1" (bytes_of "services: {}").
Lemma found_one : found = (Ok [the_manifest], ["release-2"], tt).
Proof. vm_compute. reflexivity. Qed.
End PlatformWitness.

Section witnesses.
Import PlatformWitness.

Lemma at_time_collected t : collected id 3600 intel id (at_time t).
Proof.
  unfold at_time. apply (collected_wait id 3600 intel id _ asked_once.2.1). rewrite <-!surjective_pairing.
  apply (collected_get id 3600 intel id tcb_url at_first). apply collected_new.
Qed.
Lemma unlagged (s : cache * (Z * list (string * collateral * Z))) : id (id s).2.1 <= id s.2.1 + 0.
Proof. unfold id. lia. Qed.
Lemma remembered_answer : hour tcb_url (at_time 3000) = (Ok (∅, bytes_of "100"), at_time 3000).
Proof. vm_cast_no_check (eq_refl (hour tcb_url (at_time 3000))). Qed.
Lemma collateral_window_witness : exists t, (tcb_url, (∅, bytes_of "100"), t) ∈ (at_time 3000).2.2 /\ 3000 < t + 3600 + 0.
Proof.
  destruct (@collateral_window Z id 3600 0 intel id (fun s H => H) (fun s x H => H) unlagged
              tcb_url (at_time 3000) (Ok (∅, bytes_of "100")) (at_time 3000) (at_time_collected 3000) remembered_answer) as [[_ Ht]|Hl].
  - exact Ht.
  - revert Hl. vm_compute. discriminate.
Defined.

Lemma identity_handed_over_witness :
  Forall (fun f => ReadIdentityFile "/id/cvm.json" f = ReadIdentityFile "/id/cvm.json" volume \/
                   ReadIdentityFile "/id/cvm.json" f = Ok (MkInfo "0a0b" "" "gateway <blue>" "c0ffee")) (handed no_rename).2.
Proof.
  apply (identity_handed_over no_rename 3 "/id/.publish-1" "/id/cvm.json" ours volume (handed no_rename).1 (handed no_rename).2).
  - discriminate.
  - vm_compute. reflexivity.
  - repeat split.
  - exact (surjective_pairing _).
Defined.

Lemma assets_published_witness : exists owner name body releases chosen,
  github_served (fun _ => "") hub (releases_url (MkReleaseConfig true "" "" "") owner name 5) body /\
  unmarshal (set_structs (unmarshal_struct ghRelease_fields) (MkGhRelease "" "" false false []) []) body = Ok releases /\
  sublist chosen releases /\ Forall2 (asset_of (fun _ => "") hub (orDefault "" DefaultAsset)) chosen [the_manifest].
Proof.
  exact (proj2 (proj2 (@assets_published unit (fun _ => "") (fun _ => true) hub (MkReleaseConfig true "" "" "") 5 tt [the_manifest]
           ["release-2"] tt found_one))).
Defined.
End witnesses.
