(* ===== verification/Front.v ===== *)
(** * Front: the OpenAI-compatible front end ([client/openaiproxy])

    What stands between an HTTP caller and [Client]: the credential gate and the cookie
    it may stand in for, the origin allowlist, the in-flight ceiling and the body's
    deadline, the handlers of the sealed surfaces, the poll of an async job, the error
    envelope and the access log. A handler takes a request and a state (the world, the
    response being written, what left the process) to the next state; a panic is a flag
    after which only deferred work runs. Metrics are not modelled.

    The theorems: what gets past the gate; which origins are let in; what a successful
    answer carries and where it came from; what a poll can tell its caller; that an error
    relays nothing it should not; and that the log is blind to a job's key. *)

From Stdlib Require Import SpecFloat.
From S2P Require Import Prelude GoBytes GoJson GoDecode GoUrl GoText GoHttp GoServe.
From S2P Require Import Profile Hpke Envelope Response RespBind Async Signature Walk Client Stream Endpoint.

Definition MaxRequestBytes : Z := 10485760.
Definition headerProvider : string := "X-Provider".
Definition passthroughResponseHeaders : list string :=
  ["ZG-Failure-Source"; "X-ZG-Failure-Source"; "Retry-After"; "X-Request-ID"; "X-RateLimit-Limit-Requests";
   "X-RateLimit-Remaining-Requests"; "X-RateLimit-Reset-Requests"; "X-RateLimit-Limit-Day";
   "X-RateLimit-Remaining-Day"; "X-RateLimit-Reset-Day"].
Definition maxEchoBodyBytes : Z := 8192.
Definition AsyncJobsPrefix : string := "/v1/async/jobs/".
Definition maxPollResponseBytes : Z := 50331648.
Definition HeaderE2EE : string := "X-0G-E2EE".
Definition E2EEValueSealed : string := "sealed".
Definition E2EEValueNone : string := "none".
Definition HeaderGatewayInstance : string := "X-0G-Gateway-Instance".
Definition requestIDHeader : string := "X-Request-Id".
Definition healthzPath : string := "/healthz".
Definition maxForwardedRequestIDLen : nat := 128.

(** ** Outside *)

(** Why the form of a request's body is not read: its content type ([multipartBoundary]),
    or a surface's rule. *)
Inductive form_err := FHeader | FNotMultipart (mediaType : string) | FNoBoundary | FRule (e : prerr).

(** The sentences of errors and statuses, which no code reads. *)
Class Wording := {
  say : cerr -> string;
  say_form : form_err -> string;
  say_wire : werr -> string;
  StatusText : Z -> string
}.

(** [mime.ParseMediaType], and the parts [mime/multipart] finds for a boundary. *)
Class MimeLib := {
  ParseMediaType : string -> option (string * gmap string string);
  multipart_parts : bytes -> string -> list form_part
}.

(** A poll sent to the router, under its base URL. *)
Record PollRequest := MkPollRequest { pq_Path : list string; pq_RawQuery : string; pq_Header : Header }.

(** [jitter]: [rand.IntN(retryAfterSpreadSeconds)]; [mint]: eight random bytes, unless the
    source fails; [held], [hold]: the slots taken of the in-flight ceiling; [reaches]:
    whether a deadline can be set on the connection; [relay]: a round trip of the reverse
    proxy to the router; [poll]: a poll's round trip, [None] when it cannot be built;
    [write_fails]: whether the client is gone when an event is written. *)
Class FrontWorld (W : Type) := {
  jitter : W -> Z * W;
  mint : W -> option bytes * W;
  held : W -> Z;
  hold : Z -> W -> W;
  reaches : W -> bool;
  relay : ServerRequest -> W -> cresult (HttpResponse cerr) * W;
  poll : PollRequest -> W -> option (cresult (HttpResponse cerr)) * W;
  flushes : W -> bool;
  write_fails : bytes -> W -> option cerr * W
}.

(** One line of the access log. *)
Inductive LogLevel := LevelInfo | LevelWarn | LevelError.
Record LogLine := MkLogLine {
  ln_level : LogLevel; ln_id : string; ln_method : string; ln_path : string; ln_status : Z;
  ln_duration : Z; ln_bytes : Z; ln_pinned : bool; ln_stream : bool; ln_shed : bool
}.

(** What leaves the process: a request handed to the cleartext proxy, a poll, what the
    client does for a sealed request, a line of the log. *)
Inductive fevent :=
| FForward (r : ServerRequest)
| FPoll (q : PollRequest)
| FClient (e : event)
| FLine (l : LogLine).

Record fstate (W : Type) := MkF {
  f_world : W;
  f_writer : Writer;
  f_log : list fevent;
  f_shed : bool;
  f_panic : bool
}.
Arguments MkF {W} _ _ _ _ _.
Arguments f_world {W} _.
Arguments f_writer {W} _.
Arguments f_log {W} _.
Arguments f_shed {W} _.
Arguments f_panic {W} _.

Abbreviation Handler W := (ServerRequest -> fstate W -> fstate W).

Section state.
Context {W : Type}.
Definition on_writer (f : Writer -> Writer) (s : fstate W) : fstate W :=
  MkF (f_world s) (f (f_writer s)) (f_log s) (f_shed s) (f_panic s).
Definition on_f_world (f : W -> W) (s : fstate W) : fstate W :=
  MkF (f (f_world s)) (f_writer s) (f_log s) (f_shed s) (f_panic s).
Definition f_emit (l : list fevent) (s : fstate W) : fstate W :=
  MkF (f_world s) (f_writer s) (f_log s ++ l) (f_shed s) (f_panic s).
Definition set_shed (b : bool) (s : fstate W) : fstate W :=
  MkF (f_world s) (f_writer s) (f_log s) b (f_panic s).
Definition panic (s : fstate W) : fstate W := MkF (f_world s) (f_writer s) (f_log s) (f_shed s) true.
Definition set_header (k v : string) (s : fstate W) : fstate W := on_writer (on_header (header_set k v)) s.
Definition add_header (k v : string) (s : fstate W) : fstate W := on_writer (on_header (header_add k v)) s.
Definition write_header (code : Z) (s : fstate W) : fstate W := on_writer (WriteHeader code) s.
Definition write (b : bytes) (s : fstate W) : fstate W := on_writer (Write b) s.
(** A call outside. *)
Definition ask {A} (call : W -> A * W) (s : fstate W) : A * fstate W :=
  let '(a, w) := call (f_world s) in (a, on_f_world (fun _ => w) s).
End state.

(** ** JSON an answer is made of *)

Definition obj (l : list (string * json)) : json := json_of_map (list_to_map l).

(** A number decoded to a double and written back ([floatEncoder]). *)
Definition json_float (x : f64) : bytes :=
  match x with
  | S754_finite sg p e =>
      let '(d, k) := shortest p e 16 1 in
      let '(d, k) := strip_zeros 20 d k in
      let ds := itoa d in
      let nd := Z.of_nat (length ds) in
      let dp := nd + k in
      let x := dp - 1 in
      (if sg then bytes_of "-" else []) ++
      (if (x <? -6) || (21 <=? x) then
         take 1 ds ++ (if nd <=? 1 then [] else bytes_of "." ++ drop 1 ds) ++ bytes_of "e" ++
         (if x <? 0 then bytes_of "-" else bytes_of "+") ++ itoa (Z.abs x)
       else if dp <=? 0 then bytes_of "0." ++ repeat "0"%char (Z.to_nat (- dp)) ++ ds
       else if nd <=? dp then ds ++ repeat "0"%char (Z.to_nat (dp - nd))
       else take (Z.to_nat dp) ds ++ bytes_of "." ++ drop (Z.to_nat dp) ds)
  | S754_zero sg => (if sg then bytes_of "-" else []) ++ bytes_of "0"
  | _ => []
  end.

(** A value decoded into [any] and marshalled again; [None] where a number is no double. *)
Fixpoint any_json (j : json) : option json :=
  match j with
  | JNum lit => x ← f64_of_lit lit; Some (JNum (json_float x))
  | JStr raw => Some (jstr (unquote_str raw))
  | JArr l =>
      (fix go l := match l with
                   | [] => Some (JArr [])
                   | j :: l => j ← any_json j; r ← go l;
                               match r with JArr l => Some (JArr (j :: l)) | _ => None end
                   end) l
  | JObj l =>
      m ← (fix go l (m : gmap string json) := match l with
                   | [] => Some m
                   | kv :: l => j ← any_json kv.2; go l (<[unquote_str kv.1 := j]> m)
                   end) l ∅;
      Some (json_of_map m)
  | _ => Some j
  end.

(** Into a [map[string]any] that may already hold members; [null] makes it nil. *)
Definition set_any_map (old : option (gmap string json)) (j : json)
    : result jerr (option (gmap string json)) :=
  match j with
  | JNull => Ok None
  | JObj l =>
      m ← of_option (fold_left (fun m kv => m ← m; j ← any_json kv.2; Some (<[unquote_str kv.1 := j]> m))
                       l (Some (default ∅ old))) JType;
      Ok (Some m)
  | _ => Err JType
  end.

(** ** Credentials ([auth.go], [proxy.go]) *)

Definition inferenceKeyPrefix : string := "sk-".
Definition mgmtKeyPrefix : string := "mk-".

Definition credential (h : Header) : string :=
  let auth := header_get h "Authorization" in
  if negb (String.eqb auth "") then auth
  else let apiKey := header_get h "x-api-key" in
       if negb (String.eqb apiKey "") then "Bearer " +:+ apiKey else "".

Definition bearerToken (h : Header) : string :=
  let auth := header_get h "Authorization" in
  if negb (String.eqb auth "") then
    match split_first " " (bytes_of auth) with
    | Some (scheme, tok) => if equal_fold (str_of scheme) "bearer" then trim_space (str_of tok) else ""
    | None => ""
    end
  else let apiKey := header_get h "x-api-key" in
       if negb (String.eqb apiKey "") then trim_space apiKey else "".

(** [strings.ToLower], as far as what becomes ASCII: U+212A and U+0130 lower to [k], [i]. *)
Fixpoint lower_text (l : bytes) : bytes :=
  match l with
  | a :: ((b :: ((c :: r3) as r2)) as r1) =>
      if (bval a =? 226) && (bval b =? 132) && (bval c =? 170) then "k"%char :: lower_text r3
      else if (bval a =? 196) && (bval b =? 176) then "i"%char :: lower_text r2
      else lower a :: lower_text r1
  | [a; b] => if (bval a =? 196) && (bval b =? 176) then ["i"%char] else [lower a; lower b]
  | [a] => [lower a]
  | [] => []
  end.
Definition ToLower (s : string) : string := str_of (lower_text (bytes_of s)).

Definition routingHeaderPrefix : string := "x-0g-".
Definition attributionHeaders : list string := ["http-referer"; "x-title"; "x-session-id"; "x-claude-code-session-id"].
Definition routing_header (k : string) : bool :=
  let lk := ToLower k in has_prefix lk routingHeaderPrefix || contains attributionHeaders lk.
Definition routingHeaders (h : Header) : Header := filter (fun kv => routing_header kv.1 = true) h.

(** ** Origins ([cors.go]) *)

Definition DefaultAllowedOriginsCSV : string :=
  "https://0g.ai,https://*.0g.ai,http://localhost:3000,http://localhost:5173".

(** The text before the first ["*."], and after its star. *)
Definition star_split (p : string) : option (string * string) :=
  match cut_sub (bytes_of "*.") (bytes_of p) with
  | Some (pre, suf) => Some (str_of pre, "." +:+ str_of suf)
  | None => None
  end.
Definition origin_match (origin p : string) : bool :=
  String.eqb p "*" || equal_fold origin p
  || match star_split p with
     | Some (prefix, suffix) =>
         has_prefix (ToLower origin) (ToLower prefix) && has_suffix (ToLower origin) (ToLower suffix)
     | None => false
     end.
Definition originAllowed (origin : string) (patterns : list string) : bool :=
  existsb (origin_match origin) patterns.

Definition ParseOrigins (csv : string) : list string :=
  List.filter (fun p => negb (String.eqb p ""))
    (map (fun part => trim_space (str_of part)) (split_on "," (bytes_of csv))).

Inductive origin_err := OScheme | ONoHost | OSpace | OPath | OWildcard.
Definition validateOrigin (o : string) : result origin_err unit :=
  if String.eqb o "*" then Ok tt
  else
    host ← (if has_prefix o "http://" then Ok (trim_prefix o "http://")
            else if has_prefix o "https://" then Ok (trim_prefix o "https://")
            else Err OScheme);
    _ ← refuse (String.eqb host "") ONoHost;
    _ ← refuse (existsb (fun c => (bval c =? 32) || (bval c =? 9)) (bytes_of o)) OSpace;
    _ ← refuse (contains_any_of "/?#" host) OPath;
    if str_contains host "*" then
      let rest := trim_prefix host "*." in
      refuse (negb (has_prefix host "*.") || String.eqb rest "" || str_contains rest "*") OWildcard
    else Ok tt.
Definition ValidateOrigins (origins : list string) : result origin_err unit := each validateOrigin origins.

Definition corsAllowMethods : string := "GET, POST, PUT, PATCH, DELETE, OPTIONS".
Definition corsAllowHeaderNames : list string :=
  ["Origin"; "Content-Type"; "Authorization"; "x-api-key"; "X-Request-Id"; "X-0G-Source-Id"; "HTTP-Referer";
   "X-Title"; "X-0G-Provider-Address"; "X-0G-Provider-Identity"; "X-0G-Provider-Sort";
   "X-0G-Provider-Trust-Mode"; "X-0G-Provider-Allow-Fallbacks"; "X-0G-Provider-Require-Parameters";
   "X-0G-Provider-Max-Price-Usd-Prompt"; "X-0G-Provider-Max-Price-Usd-Completion";
   "X-0G-Provider-Max-Price-Usd-Image"].
Fixpoint comma_join (l : list string) : string :=
  match l with [] => "" | [x] => x | x :: l => x +:+ ", " +:+ comma_join l end.
Definition corsAllowHeaders : string := comma_join corsAllowHeaderNames.
Definition corsMaxAge : string := "43200".
Definition corsExposeHeaders : string :=
  comma_join (["ZG-Res-Key"; headerProvider; HeaderGatewayInstance; HeaderE2EE] ++ passthroughResponseHeaders).

Definition isHeaderToken (s : string) : bool := is_token_text (bytes_of s).

Fixpoint extra_headers (seen : list string) (names : list string) : list string :=
  match names with
  | [] => []
  | name :: names =>
      let l := ToLower name in
      if String.eqb l "" || contains (map ToLower corsAllowHeaderNames) l || contains seen l
         || negb (isHeaderToken name)
      then extra_headers seen names
      else name :: extra_headers (l :: seen) names
  end.
Definition allowHeadersFor (requested : string) : string :=
  if String.eqb requested "" then corsAllowHeaders
  else match extra_headers [] (map (fun p => trim_space (str_of p)) (split_on "," (bytes_of requested))) with
       | [] => corsAllowHeaders
       | extra => corsAllowHeaders +:+ ", " +:+ comma_join extra
       end.

Definition StripCORSHeaders (h : Header) : Header :=
  filter (fun kv => has_prefix (canonical_key kv.1) "Access-Control-" = false) h.

(** ** Errors as answers ([proxy.go]) *)

(** [errors.As] for [*Error]: the first in the chain. *)
Fixpoint as_core (err : cerr) : option (string * Z * bytes * Header * cerr) :=
  match err with
  | EStage stage status _ body header => Some (stage, status, body, header, err)
  | EWrap _ err => as_core err
  | _ => None
  end.

Definition upstreamHeader (err : cerr) : Header :=
  match as_core err with Some (_, _, _, header, _) => header | None => ∅ end.

Definition truncate (s : bytes) (n : Z) : bytes :=
  if Z.of_nat (length s) <=? n then s
  else take_z n s ++ map byte_of [226; 128; 166] ++ bytes_of "(truncated)".

Definition error_field : list (string * (option (gmap string json) -> json -> result jerr (option (gmap string json)))) :=
  [("error", set_any_map)].
Definition parseUpstreamErrorObject (body : bytes) : option (gmap string json) :=
  match body with
  | [] => None
  | _ =>
      match unmarshal (unmarshal_struct error_field None) body with
      | Ok (Some m) =>
          match m !! "message" with
          | Some (JStr raw) => match unquote raw with [] => None | _ => Some m end
          | _ => None
          end
      | _ => None
      end
  end.

Record options := MkOptions { verboseUpstreamErrors : bool }.

Definition error_body (source msg : string) : gmap string json :=
  list_to_map [("error", obj [("message", jstr msg); ("type", jstr (source +:+ "_error"))]);
               ("_0g", obj [("source", jstr source)])].

Section front.
Context {W : Type} `{World W} `{FrontWorld W} `{Wording}.

Definition errorEnvelope (o : options) (err : cerr) : gmap string json :=
  match as_core err with
  | None => error_body "gateway" (say err)
  | Some (stage, status, body, _, e) =>
      let attribution := [("source", jstr (Source stage))] ++
        (if status =? 0 then [] else [("upstream_status", json_of_int status)]) in
      let synthesized :=
        let attribution := attribution ++
          (if verboseUpstreamErrors o && negb (Nat.eqb (length body) 0)
           then [("upstream_body", JStr (quote (truncate body maxEchoBodyBytes)))] else []) in
        list_to_map [("error", obj [("message", jstr (say e)); ("type", jstr (Source stage +:+ "_error"))]);
                     ("_0g", obj attribution)] in
      if String.eqb stage StageUpstream then
        match parseUpstreamErrorObject body with
        | Some m => list_to_map [("error", json_of_map m); ("_0g", obj attribution)]
        | None => synthesized
        end
      else synthesized
  end.

Definition writeErrorObject (code : Z) (body : gmap string json) (s : fstate W) : fstate W :=
  write (marshal_map body ++ [newline]) (write_header code (set_header "Content-Type" "application/json" s)).
Definition WriteError (status : Z) (source msg : string) (s : fstate W) : fstate W :=
  writeErrorObject status (error_body source msg) s.
Definition writeGatewayError (code : Z) (msg : string) (s : fstate W) : fstate W :=
  WriteError code "gateway" msg s.

Definition statusFor (err : cerr) : Z :=
  match as_core err with
  | Some (stage, status, _, _, _) =>
      if negb (status =? 0) then status
      else if String.eqb stage StageRequest then 400
      else if String.eqb stage StageInternal then 500
      else 502
  | None => 502
  end.

Definition setPassthrough (src : Header) (s : fstate W) : fstate W :=
  fold_left (fun s name => fold_left (fun s v => add_header name v s) (header_values src name) s)
    passthroughResponseHeaders s.
Definition writeError (o : options) (err : cerr) (s : fstate W) : fstate W :=
  writeErrorObject (statusFor err) (errorEnvelope o err) (setPassthrough (upstreamHeader err) s).

(** [core.ResponseMeta]: what the client recorded of the exchange it returned. *)
Definition meta_of (log : list event) : option (string * string * Header) :=
  fold_left (fun m e => match e with EvMeta k p h => Some (k, p, h) | _ => m end) log None.
Definition setResKey (meta : option (string * string * Header)) (s : fstate W) : fstate W :=
  match meta with Some (k, _, _) => if String.eqb k "" then s else set_header headerResKey k s | None => s end.
Definition setProvider (meta : option (string * string * Header)) (s : fstate W) : fstate W :=
  match meta with Some (_, p, _) => if String.eqb p "" then s else set_header headerProvider p s | None => s end.
Definition meta_header (meta : option (string * string * Header)) : Header :=
  match meta with Some (_, _, h) => h | None => ∅ end.

Definition readBodyError (err : option body_err) (s : fstate W) : fstate W :=
  match err with
  | None => writeGatewayError 413 "request body too large" s
  | Some BodyDeadline => writeGatewayError 408 "request body not received in time" s
  | Some BodyBroken => writeGatewayError 400 "read request body" s
  end.

(** ** Around a handler ([auth.go], [cookie.go], [cors.go], [limit.go], [bodyread.go],
    [e2eemark.go], [instance.go]) *)

Definition RequireInferenceCredential (h : Handler W) : Handler W := fun r s =>
  let tok := bearerToken (r_Header r) in
  if String.eqb tok "" then WriteError 401 "gateway" "missing API key" s
  else if has_prefix tok mgmtKeyPrefix then
    WriteError 403 "gateway" "management keys cannot be used for inference; use an inference API key (sk-…)" s
  else h r s.

Definition cookieCredentialName : string := "jwt".
Definition AcceptCookieCredential (origins : list string) (h : Handler W) : Handler W := fun r s =>
  if negb (String.eqb (credential (r_Header r)) "") then h r s
  else match Cookie cookieCredentialName (r_Header r) with
       | None => h r s
       | Some cookie =>
           if String.eqb cookie "" then h r s
           else let origin := header_get (r_Header r) "Origin" in
                if String.eqb origin "" || negb (originAllowed origin origins) then
                  WriteError 403 "gateway"
                    "origin not allowed for cookie authentication; send the credential as an Authorization bearer header instead" s
                else h (with_Header (header_set "Authorization" ("Bearer " +:+ cookie) (r_Header r)) r) s
       end.

Definition CORS (origins : list string) (allowCredentials : bool) (h : Handler W) : Handler W := fun r s =>
  let origin := header_get (r_Header r) "Origin" in
  let preflight := String.eqb (r_Method r) "OPTIONS"
                   && negb (String.eqb (header_get (r_Header r) "Access-Control-Request-Method") "") in
  if String.eqb origin "" then h r s
  else
    let s := add_header "Vary" "Origin" s in
    if negb (originAllowed origin origins) then
      if preflight then WriteError 403 "gateway" "origin not allowed" s else h r s
    else
      let s := set_header "Access-Control-Allow-Origin" origin s in
      let s := if allowCredentials then set_header "Access-Control-Allow-Credentials" "true" s else s in
      if preflight then
        let s := add_header "Vary" "Access-Control-Request-Method" s in
        let s := add_header "Vary" "Access-Control-Request-Headers" s in
        let s := set_header "Access-Control-Allow-Methods" corsAllowMethods s in
        let s := set_header "Access-Control-Allow-Headers"
                   (allowHeadersFor (header_get (r_Header r) "Access-Control-Request-Headers")) s in
        write_header 204 (set_header "Access-Control-Max-Age" corsMaxAge s)
      else h r (set_header "Access-Control-Expose-Headers" corsExposeHeaders s).

Definition MarkE2EE (value : string) (h : Handler W) : Handler W := fun r s =>
  h r (set_header HeaderE2EE value s).
Definition StampInstance (instanceID : string) (h : Handler W) : Handler W :=
  if String.eqb instanceID "" then h else fun r s => h r (set_header HeaderGatewayInstance instanceID s).

Definition retryAfterMinSeconds : Z := 2.
Definition retryAfterSpreadSeconds : Z := 4.
Definition retryAfterSeconds (w : W) : Z * W := let '(n, w) := jitter w in (retryAfterMinSeconds + n, w).

(** The slot is taken before [h] and given back after it, panic or not. *)
Definition LimitInFlight (maxInFlight : Z) (h : Handler W) : Handler W :=
  if maxInFlight <=? 0 then h
  else fun r s =>
    if held (f_world s) <? maxInFlight then
      let s := h r (on_f_world (fun w => hold (held w + 1) w) s) in
      on_f_world (fun w => hold (held w - 1) w) s
    else
      let '(n, s) := ask retryAfterSeconds (set_shed true s) in
      WriteError 503 "gateway" "gateway at capacity; retry shortly"
        (set_header "Retry-After" (str_of (itoa n)) s).

(** A request with no body has nothing for the deadline to cut. *)
Definition BoundBodyRead (d : Z) (h : Handler W) : Handler W :=
  if d <=? 0 then h
  else fun r s => h (if reaches (f_world s) then read_until (now (f_world s) + d) r else r) s.

(** ** The access log ([accesslog.go]) *)

Definition validForwardedID (v : string) : bool :=
  negb (String.eqb v "") && Nat.leb (String.length v) maxForwardedRequestIDLen
  && forallb (fun c => (32 <=? bval c) && (bval c <=? 126)) (bytes_of v).
Definition requestID (r : ServerRequest) (w : W) : string * W :=
  let v := header_get (r_Header r) requestIDHeader in
  if validForwardedID v then (v, w)
  else let '(b, w) := mint w in
       (match b with Some b => str_of (hex_encode b) | None => "unknown" end, w).

Definition RedactJobPath (path : string) : string :=
  let n := String.length AsyncJobsPrefix in
  let b := bytes_of path in
  if Nat.leb (length b) n || negb (equal_fold (str_of (take n b)) AsyncJobsPrefix) then path
  else match split_first "." (drop n b) with
       | Some (job, _) => str_of (take n b ++ job ++ bytes_of ".<redacted>")
       | None => path
       end.

Definition level_of (shed : bool) (status : Z) : LogLevel :=
  if shed then LevelWarn
  else if 500 <=? status then LevelError
  else if 400 <=? status then LevelWarn
  else LevelInfo.

(** Every request but a health probe ends in one line; a panic ends it without one. *)
Definition LogRequests (h : Handler W) : Handler W := fun r s =>
  if String.eqb (r_Path r) healthzPath then h r s
  else
    let '(id, s) := ask (requestID r) s in
    let s := set_shed false (set_header requestIDHeader id s) in
    let start := now (f_world s) in
    let s' := h r s in
    if f_panic s' then s'
    else f_emit [FLine (MkLogLine (level_of (f_shed s') (status_of (f_writer s'))) id (r_Method r)
                          (RedactJobPath (r_Path r)) (status_of (f_writer s'))
                          (now (f_world s') - start)
                          (Z.of_nat (length (w_Out (f_writer s'))) - Z.of_nat (length (w_Out (f_writer s))))
                          (negb (String.eqb (header_get (r_Header r) headerProviderPin) ""))
                          (String.eqb (header_get (w_Header (f_writer s')) "Content-Type") "text/event-stream")
                          (f_shed s'))] s'.
End front.

(** ** The sealed surfaces ([Register], [registerAsync]) *)

Definition isMultipartForm `{MimeLib} (contentType : string) : bool :=
  match ParseMediaType contentType with
  | Some (mediaType, _) => String.eqb mediaType "multipart/form-data"
  | None => has_prefix (ToLower (trim_space contentType)) "multipart/"
  end.

(** [multipartBoundary] ([client/endpoint/speech.go]), then the surface's decoder. *)
Definition multipartBoundary `{MimeLib} (contentType : string) : result form_err string :=
  '(mediaType, params) ← of_option (ParseMediaType contentType) FHeader;
  _ ← refuse (negb (has_prefix mediaType "multipart/")) (FNotMultipart mediaType);
  let boundary := default "" (params !! "boundary") in
  _ ← refuse (String.eqb boundary "") FNoBoundary;
  Ok boundary.
Definition DecodeMultipart `{MimeLib} (decode : list form_part -> presult Request) (body : bytes)
    (contentType : string) : result form_err Request :=
  boundary ← multipartBoundary contentType;
  map_err FRule (decode (multipart_parts body boundary)).

(** A field's name between quotation marks. *)
Definition name_text (s : string) : string := str_of (quoted (bytes_of s)).

Definition streamRequested (req : Request) : option bool :=
  match req !! "stream" with
  | None => Some false
  | Some raw => match set_bool false raw with Ok b => Some b | Err _ => None end
  end.
Definition wantsURLFormat (req : Request) : bool :=
  match req !! "response_format" with
  | Some raw => match unmarshal_string raw with Ok f => String.eqb f "url" | Err _ => false end
  | None => false
  end.

Section surfaces.
Context {W : Type} `{World W} `{Outside W} `{StreamReads W} `{FrontWorld W} `{Wording} `{MimeLib} `{Jcs} `{HpkeLib}.

Definition decode_body (ep : Endpoint) (body : bytes) (contentType : string) : result string Request :=
  match ep_DecodeMultipart ep with
  | Some decode =>
      if isMultipartForm contentType then map_err say_form (DecodeMultipart decode body contentType)
      else m ← map_err (fun _ => "request body is not a JSON object") (unmarshal unmarshal_map body); Ok (nil_map m)
  | None => m ← map_err (fun _ => "request body is not a JSON object") (unmarshal unmarshal_map body); Ok (nil_map m)
  end.

Definition call_context (r : ServerRequest) : CallContext :=
  MkCallContext (routingHeaders (r_Header r)) (credential (r_Header r)) true.

(** A call of the client: its world and its log become the handler's. *)
Definition client_call {A} (call : W -> A * cstate W) (s : fstate W) : A * list event * fstate W :=
  let '(a, cs) := call (f_world s) in
  (a, st_log cs, f_emit (map FClient (st_log cs)) (on_f_world (fun _ => st_world cs) s)).

(** *** Streaming *)

(** The world of a streamed call: the client's, with what was written and whether the
    header was ([wroteHeader]). *)
Record serving := MkServing { sv_Out : bytes; sv_Wrote : bool }.

Definition lifted {A} (call : W -> A * W) (ws : W * serving) : A * (W * serving) :=
  let '(a, w) := call ws.1 in (a, (w, ws.2)).
Definition lift_cands (cands : Candidates W) : Candidates (W * serving) :=
  MkCandidates (cd_Len cands) (fun t i => lifted (cd_Provider cands t i))
    (kr ← cd_RefreshProvider cands; Some (fun t i k => lifted (kr t i k))).
Definition serving_world : World (W * serving) :=
  {| now ws := now ws.1; canceledBy ws := canceledBy ws.1 |}.
Definition serving_outside : Outside (W * serving) := {|
  http_do q := lifted (http_do q);
  body_read resp ws := (body_read resp ws.1, ws.2);
  random := lifted random;
  fetch_signature p k := lifted (fetch_signature p k);
  resolve profile req ws := let '(r, ws) := lifted (resolve profile req) ws in (lift_cands <$> r, ws)
|}.
Definition serving_reads : StreamReads (W * serving) := fun resp i => lifted (event_read resp i).

(** [writeSSEEvent]'s bytes. *)
Definition sse_text (name : string) (payload : bytes) : bytes :=
  (if String.eqb name "" then [] else bytes_of "event: " ++ bytes_of name ++ [newline]) ++
  bytes_of "data: " ++ payload ++ [newline; newline].

(** The frame callback. A write that fails broke the connection: what it still put there
    is not counted as sent. *)
Definition serve_frame (ep : Endpoint) (frame : Response) (ws : W * serving) : option cerr * (W * serving) :=
  match ResponseEventName (ep_Profile ep) frame with
  | Err e => (Some (EWire e), ws)
  | Ok name =>
      let b := sse_text name (marshal_map frame) in
      let '(err, w) := write_fails b ws.1 in
      (err, (w, MkServing (match err with Some _ => sv_Out ws.2 | None => sv_Out ws.2 ++ b end) true))
  end.

(** The header goes out with the first frame; the client has recorded its metadata by
    then, and records it once. *)
Definition stream_header (meta : option (string * string * Header)) (s : fstate W) : fstate W :=
  let s := setProvider meta (setResKey meta (setPassthrough (meta_header meta) s)) in
  write_header 200 (set_header "X-Accel-Buffering" "no" (set_header "Cache-Control" "no-cache"
    (set_header "Content-Type" "text/event-stream" s))).

Definition serveStream (ep : Endpoint) (c : Client) (o : options) (req : Request) (r : ServerRequest)
    (s : fstate W) : fstate W :=
  if negb (flushes (f_world s)) then writeGatewayError 500 "streaming not supported by server" s
  else
    let call w := CompleteStream (W := W * serving) (H := serving_world) (H0 := serving_outside)
                    (H1 := serving_reads) c (call_context r) (serve_frame ep) req (w, MkServing [] false) in
    let '(res, cs) := call (f_world s) in
    let log := st_log cs in
    let sv := (st_world cs).2 in
    let s := f_emit (map FClient log) (on_f_world (fun _ => (st_world cs).1) s) in
    let s := if sv_Wrote sv then write (sv_Out sv) (stream_header (meta_of log) s) else s in
    match res with
    | Err EPanic => panic s
    | Err err =>
        if negb (sv_Wrote sv) then writeError o err s
        else
          let envelope := errorEnvelope o err in
          let typed := ResponseFramesAreTyped (ep_Profile ep) in
          let event := sse_text (if typed then "error" else "")
                         (marshal_map (if typed then <["type" := jstr "error"]> envelope else envelope)) in
          let '(e, s) := ask (write_fails event) s in
          match e with Some _ => s | None => write event s end
    | Ok _ =>
        let s := if sv_Wrote sv then s else stream_header (meta_of log) s in
        if ResponseFramesAreTyped (ep_Profile ep) then s
        else let finish := bytes_of "data: [DONE]" ++ [newline; newline] in
             let '(e, s) := ask (write_fails finish) s in
             match e with Some _ => s | None => write finish s end
    end.

(** *** One buffered request *)

Definition Register (ep : Endpoint) (c : Client) (o : options) : Handler W := fun r s =>
  match read_max MaxRequestBytes r with
  | Err err => readBodyError err s
  | Ok body =>
      match decode_body ep body (header_get (r_Header r) "Content-Type") with
      | Err msg => writeGatewayError 400 msg s
      | Ok req =>
          match streamRequested req with
          | None => writeGatewayError 400 ("field " +:+ name_text "stream" +:+ " must be a boolean") s
          | Some stream =>
              if stream && negb (ep_Streams ep) then
                writeGatewayError 400 ("field " +:+ name_text "stream" +:+ " is not supported for POST "
                  +:+ ep_Path ep +:+ ": the response is a single JSON object") s
              else match preSeal ep req with
                   | Err e => writeGatewayError 400 (say_form (FRule e)) s
                   | Ok req =>
                       if stream then serveStream ep c o req r s
                       else
                         let '(res, log, s) := client_call (Complete c (call_context r) req) s in
                         match res with
                         | Err EPanic => panic s
                         | Err err => writeError o err s
                         | Ok resp =>
                             let meta := meta_of log in
                             let s := setProvider meta (setResKey meta (setPassthrough (meta_header meta) s)) in
                             write (marshal_map resp) (set_header "Content-Type" "application/json" s)
                         end
                   end
          end
      end
  end.

(** [cleartext]: where a request it will not seal goes ([WithCleartext]), its body as it
    was read. *)
Definition registerAsync (ep : Endpoint) (c : Client) (o : options) (cleartext : option (Handler W))
    : Handler W := fun r s =>
  match read_max MaxRequestBytes r with
  | Err err => readBodyError err s
  | Ok body =>
      match unmarshal unmarshal_map body with
      | Ok (Some req) =>
          match (if wantsURLFormat req then cleartext else None) with
          | Some h => h r s
          | None =>
              match streamRequested req with
              | None => writeGatewayError 400 ("field " +:+ name_text "stream" +:+ " must be a boolean") s
              | Some true =>
                  writeGatewayError 400 ("field " +:+ name_text "stream" +:+ " is not supported for POST "
                    +:+ ep_Path ep +:+ ": the response is a job id") s
              | Some false =>
                  match preSeal ep req with
                  | Err e => writeGatewayError 400 (say_form (FRule e)) s
                  | Ok req =>
                      let '(res, log, s) := client_call (SubmitAsync c (call_context r) req) s in
                      match res with
                      | Err EPanic => panic s
                      | Err err => writeError o err s
                      | Ok (resp, status) =>
                          let meta := meta_of log in
                          let s := setProvider meta (setPassthrough (meta_header meta) s) in
                          write (marshal_map resp)
                            (write_header status (set_header "Content-Type" "application/json" s))
                      end
                  end
              end
          end
      | _ => writeGatewayError 400 "request body is not a JSON object" s
      end
  end.

(** The handler a row is mounted with. *)
Definition surface (ep : Endpoint) (c : Client) (o : options) (cleartext : option (Handler W)) : Handler W :=
  if ep_Async ep then registerAsync ep c o cleartext else Register ep c o.
End surfaces.

(** ** The poll of an async job ([async.go]) *)

Definition HasJobKey (r : ServerRequest) : bool := HasUserJobIDKey (path_value "id" r).

(** [knownCode]: [^[a-z0-9_]{1,64}$]. *)
Definition knownCode (s : string) : bool :=
  let b := bytes_of s in
  Nat.leb 1 (length b) && Nat.leb (length b) 64
  && forallb (fun c => is_lower c || is_digit c || Ascii.eqb c "_") b.

(** [knownJobFailure]: [^(upstream_error(:[1-5][0-9]{2})?|timeout|broker_error)$]. *)
Definition knownJobFailure (s : string) : bool :=
  contains ["upstream_error"; "timeout"; "broker_error"] s
  || match strip_prefix (bytes_of "upstream_error:") (bytes_of s) with
     | Some [a; b; c] => in_range a 49 53 && is_digit b && is_digit c
     | _ => false
     end.

Definition asyncErrorBody (source code msg : string) : gmap string json :=
  list_to_map [("error", obj [("message", jstr msg); ("type", jstr (source +:+ "_error")); ("code", jstr code)]);
               ("_0g", obj [("source", jstr source)])].

Definition code_field : list (string * (string -> json -> result jerr string)) := [("code", set_string)].
Definition poll_error_fields : list (string * (string -> json -> result jerr string)) :=
  [("error", fun old j => unmarshal_struct code_field old j)].

(** A member decoded into an empty string; what it is when it is no string. *)
Definition string_member (frame : Response) (k : string) : string :=
  match frame !! k with Some raw => match unmarshal_string raw with Ok v => v | Err _ => "" end | None => "" end.

Section poll.
Context {W : Type} `{World W} `{FrontWorld W} `{Wording} `{Jcs} `{HpkeLib}.

Definition asyncPollAnswer (userJobID jobID : string) (ephPriv : PrivateKey) (status : Z) (body : bytes)
    : Z * gmap string json :=
  if (status <? 200) || (299 <? status) then
    let code := match unmarshal (unmarshal_struct poll_error_fields "") body with
                | Ok code => if knownCode code then code else "upstream_error"
                | Err _ => "upstream_error"
                end in
    (status, asyncErrorBody "upstream" code ("the router answered the poll with " +:+ StatusText status))
  else match unmarshal unmarshal_map body with
  | Ok (Some frame) =>
      let jobStatus := string_member frame "status" in
      let sealed := has_key frame e2eeKey in
      if sealed && String.eqb jobStatus AsyncStatusCompleted then
        match OpenAsyncImageResult ephPriv frame jobID with
        | Err _ => (502, asyncErrorBody "upstream" "e2ee_verification_failed"
                      "the job result failed end-to-end verification and was refused")
        | Ok opened => (StatusOK, <["jobId" := jstr userJobID]> opened)
        end
      else if sealed then
        (502, asyncErrorBody "upstream" "e2ee_malformed" "a sealed frame was returned for a job that is not completed")
      else if String.eqb jobStatus AsyncStatusCompleted then
        (502, asyncErrorBody "upstream" "e2ee_downgrade" "the job result was not end-to-end encrypted and was refused")
      else
        let jobStatus := if knownCode jobStatus then jobStatus else "unknown" in
        let out := list_to_map [("jobId", jstr userJobID); ("status", jstr jobStatus)] in
        let stamp (out : gmap string json) k :=
          match frame !! k with
          | Some raw => match unmarshal_string raw with
                        | Ok ts => if Nat.leb (String.length ts) 64 then <[k := jstr ts]> out else out
                        | Err _ => out
                        end
          | None => out
          end in
        let out := stamp (stamp out "createdAt") "updatedAt" in
        let out := if String.eqb jobStatus "failed" then
                     let msg := string_member frame "errorMessage" in
                     let msg := if knownJobFailure msg then msg
                                else if String.eqb msg "broker restarted" then "broker_error"
                                else "job_failed" in
                     <["errorMessage" := jstr msg]> out
                   else out in
        (StatusOK, out)
  | _ => (502, asyncErrorBody "upstream" "invalid_poll_response" "poll response is not a JSON object")
  end.

Definition writeAsyncError (status : Z) (source code msg : string) (s : fstate W) : fstate W :=
  writeErrorObject status (asyncErrorBody source code msg) s.

Definition poll_header (r : ServerRequest) : Header :=
  let h := match credential (r_Header r) with "" => ∅ | cred => header_set "Authorization" cred ∅ end in
  header_set "Accept" "application/json" h.

Definition AsyncJobPoll : Handler W := fun r s =>
  let userJobID := path_value "id" r in
  match ParseUserJobID userJobID with
  | Err e => writeAsyncError 400 "gateway" "invalid_job_id" ("job id: " +:+ say_wire e) s
  | Ok (jobID, ephPriv) =>
      let q := MkPollRequest [AsyncJobsPrefix; jobID] (r_RawQuery r) (poll_header r) in
      let '(answer, s) := ask (poll q) s in
      match answer with
      | None => writeAsyncError 500 "gateway" "internal_error" "build poll request" s
      | Some (Err _) => writeAsyncError 502 "upstream" "upstream_error" "upstream request failed" (f_emit [FPoll q] s)
      | Some (Ok resp) =>
          let s := f_emit [FPoll q] s in
          match read_all_limited (maxPollResponseBytes + 1) resp with
          | Ok body =>
              if maxPollResponseBytes <? Z.of_nat (length body) then
                writeAsyncError 502 "upstream" "upstream_error" "poll response unreadable or too large" s
              else
                let '(status, out) := asyncPollAnswer userJobID jobID ephPriv (hs_Status resp) body in
                let ra := header_get (hs_Header resp) "Retry-After" in
                let s := if negb (String.eqb ra "") && (status =? StatusOK) then set_header "Retry-After" ra s else s in
                writeErrorObject status out s
          | Err _ => writeAsyncError 502 "upstream" "upstream_error" "poll response unreadable or too large" s
          end
      end
  end.
End poll.

(** ** What gets past the gate *)

(** What the gate hands on for [r]: [r] itself, or, where the caller gave no credential
    of its own, [r] with the cookie's as its bearer, from an origin that is let in. *)
Definition entrant (origins : list string) (r r' : ServerRequest) : Prop :=
  r' = r \/
  exists cookie, credential (r_Header r) = "" /\ Cookie cookieCredentialName (r_Header r) = Some cookie /\
    cookie <> "" /\ header_get (r_Header r) "Origin" <> "" /\
    originAllowed (header_get (r_Header r) "Origin") origins = true /\
    r' = with_Header (header_set "Authorization" ("Bearer " +:+ cookie) (r_Header r)) r.

(** An answer the front end gives itself: nothing went out, and the world stood still. *)
Definition refused {W} (codes : list Z) (s s' : fstate W) : Prop :=
  f_world s' = f_world s /\ f_log s' = f_log s /\ f_panic s' = f_panic s /\
  (w_Sent (f_writer s) = None -> status_of (f_writer s') ∈ codes).

Lemma writeErrorObject_refused {W} code body (s : fstate W) codes :
  code ∈ codes -> refused codes s (writeErrorObject code body s).
Proof.
  intros Hc. split_and!; [done..|]. destruct s as [w [wh ws wo] log sh pa]. cbn. intros ->. exact Hc.
Qed.
Lemma WriteError_refused {W} code source msg (s : fstate W) codes :
  code ∈ codes -> refused codes s (WriteError code source msg s).
Proof. apply writeErrorObject_refused. Qed.

Lemma bearer_credential h : bearerToken h <> "" -> credential h <> "".
Proof.
  unfold bearerToken, credential. destruct (String.eqb_spec (header_get h "Authorization") "") as [|Hne]; cbn [negb]; [|done].
  destruct (String.eqb_spec (header_get h "x-api-key") "") as [|Hne]; cbn [negb]; [done|]. by intros _.
Qed.

(** The door. Whatever a caller sends, a handler behind the cookie conversion and the
    credential gate runs only on a request that carries a credential, one that is not a
    management key; and that request is the caller's own, unless the caller gave no
    credential of its own but the session cookie, from an origin on the allowlist, in
    which case it is the caller's with that cookie as its bearer. Anything else is
    answered 401 or 403 on the spot: nothing leaves the process and no other state
    changes. *)
Theorem front_door {W} origins (h : Handler W) r s :
  (exists r', entrant origins r r' /\ credential (r_Header r') <> "" /\
     bearerToken (r_Header r') <> "" /\ has_prefix (bearerToken (r_Header r')) mgmtKeyPrefix = false /\
     AcceptCookieCredential origins (RequireInferenceCredential h) r s = h r' s) \/
  refused [401; 403] s (AcceptCookieCredential origins (RequireInferenceCredential h) r s).
Proof.
  assert (forall r', entrant origins r r' ->
    (exists r'', entrant origins r r'' /\ credential (r_Header r'') <> "" /\
       bearerToken (r_Header r'') <> "" /\ has_prefix (bearerToken (r_Header r'')) mgmtKeyPrefix = false /\
       RequireInferenceCredential h r' s = h r'' s) \/
    refused [401; 403] s (RequireInferenceCredential h r' s)) as Hgate.
  { intros r' He. unfold RequireInferenceCredential.
    destruct (String.eqb_spec (bearerToken (r_Header r')) "") as [|Hne]; [right; apply WriteError_refused; set_solver|].
    destruct (has_prefix _ _) eqn:Em; [right; apply WriteError_refused; set_solver|].
    left. exists r'. split_and!; try done. by apply bearer_credential. }
  unfold AcceptCookieCredential. destruct (String.eqb_spec (credential (r_Header r)) "") as [Hc|]; cbn [negb];
    [|apply Hgate; by left].
  destruct (Cookie _ _) as [cookie|] eqn:Ec; [|apply Hgate; by left].
  destruct (String.eqb_spec cookie "") as [|Hne]; [apply Hgate; by left|].
  destruct (String.eqb_spec (header_get (r_Header r) "Origin") "") as [|Ho]; cbn [orb];
    [right; apply WriteError_refused; set_solver|].
  destruct (originAllowed _ _) eqn:Ea; cbn [negb]; [|right; apply WriteError_refused; set_solver].
  apply Hgate. right. exists cookie. split_and!; done.
Qed.

(** ** The ceiling *)

(** Handlers inside the ceiling, by name, and the slots taken: the semaphore the requests
    share, with a move per request that enters or leaves. *)
Record ceiling := MkCeiling { cl_held : Z; cl_inside : gset nat }.
Definition cl_enter (n : Z) (t : nat) (c : ceiling) : option ceiling :=
  if cl_held c <? n then Some (MkCeiling (cl_held c + 1) ({[t]} ∪ cl_inside c)) else None.
Definition cl_leave (t : nat) (c : ceiling) : ceiling := MkCeiling (cl_held c - 1) (cl_inside c ∖ {[t]}).
Inductive ceiling_reach (n : Z) : ceiling -> Prop :=
| CStart : ceiling_reach n (MkCeiling 0 ∅)
| CEnter t c c' : ceiling_reach n c -> t ∉ cl_inside c -> cl_enter n t c = Some c' -> ceiling_reach n c'
| CLeave t c : ceiling_reach n c -> t ∈ cl_inside c -> ceiling_reach n (cl_leave t c).

(** No slot is lost or made up: the slots taken are the handlers inside, and no more than
    the ceiling; so a request is shed exactly when that many are being served. *)
Lemma ceiling_kept n c :
  0 <= n -> ceiling_reach n c ->
  cl_held c = Z.of_nat (size (cl_inside c)) /\ cl_held c <= n /\
  forall t, cl_enter n t c = None <-> Z.of_nat (size (cl_inside c)) = n.
Proof.
  intros Hn Hr. assert (cl_held c = Z.of_nat (size (cl_inside c)) /\ cl_held c <= n) as [Hs Hle].
  { induction Hr as [|t c c' Hr [Hs Hle] Ht He|t c Hr [Hs Hle] Ht].
    - cbn. rewrite size_empty. lia.
    - unfold cl_enter in He. destruct (Z.ltb_spec (cl_held c) n); [|done]. injection He as <-. cbn.
      rewrite size_union by set_solver. rewrite size_singleton. lia.
    - cbn. pose proof (size_difference (cl_inside c) {[t]} ltac:(set_solver)) as E.
      rewrite size_singleton in E. assert (size (cl_inside c) <> 0)%nat by (apply size_non_empty_iff; set_solver). lia. }
  split_and!; [done..|]. intros t. unfold cl_enter. destruct (Z.ltb_spec (cl_held c) n); split; intros; [done|lia|lia|done].
Qed.

(** ** The log and a job's key *)

(** What the log prints of a polled job's path is the same whatever the key in it. *)
Lemma redaction_blind prefix job key key' :
  equal_fold prefix AsyncJobsPrefix = true -> String.length prefix = String.length AsyncJobsPrefix ->
  "."%char ∉ bytes_of job ->
  RedactJobPath (prefix +:+ job +:+ "." +:+ key) = RedactJobPath (prefix +:+ job +:+ "." +:+ key') /\
  RedactJobPath (prefix +:+ job +:+ "." +:+ key) = prefix +:+ job +:+ ".<redacted>".
Proof.
  intros Hf Hl Hd.
  assert (forall k, RedactJobPath (prefix +:+ job +:+ "." +:+ k) = prefix +:+ job +:+ ".<redacted>") as Hk; [|rewrite !Hk; done].
  intros k. unfold RedactJobPath. rewrite !bytes_of_app. cbn zeta.
  rewrite <-Hl, length_bytes_of. rewrite take_app_length, drop_app_length.
  rewrite str_of_bytes_of, Hf. cbn [negb]. rewrite orb_false_r.
  destruct (Nat.leb_spec (length (bytes_of prefix ++ bytes_of job ++ bytes_of "." ++ bytes_of k)) (length (bytes_of prefix))) as [Hc|_].
  { rewrite !length_app in Hc. cbn in Hc. lia. }
  change (bytes_of "." ++ bytes_of k) with ("."%char :: bytes_of k). rewrite split_first_app by done.
  apply bytes_of_inj. by rewrite bytes_of_str_of, !bytes_of_app.
Qed.

(** ** Which origins are let in *)

Lemma lower_text_dot l : lower_text ("."%char :: l) = "."%char :: lower_text l.
Proof. destruct l as [|b [|c l]]; [done| |]; by cbn. Qed.

(** A text that begins and ends like two others, where none of the second fits in the first. *)
Lemma meet_apart (c : ascii) pre suf x y :
  c ∉ pre -> pre ++ x = y ++ c :: suf -> exists l, x = l ++ c :: suf.
Proof.
  revert y. induction pre as [|a pre IH]; intros y Hc E; [by exists y|].
  rewrite not_elem_of_cons in Hc. destruct Hc as [Hne Hc]. destruct y as [|b y]; cbn in E.
  - by injection E as <- _.
  - injection E as -> E. by eapply IH.
Qed.

Lemma has_suffix_iff s p : has_suffix s p = true <-> exists r, bytes_of s = r ++ bytes_of p.
Proof.
  unfold has_suffix. destruct (strip_prefix _ _) as [r|] eqn:E.
  - apply strip_prefix_spec in E. split; [|done]. intros _. exists (rev r).
    apply (f_equal (@rev ascii)) in E. by rewrite rev_app_distr, !rev_involutive in E.
  - split; [done|]. intros [r Hr]. rewrite Hr, rev_app_distr in E.
    assert (strip_prefix (rev (bytes_of p)) (rev (bytes_of p) ++ rev r) = Some (rev r)) as H' by by apply strip_prefix_spec.
    congruence.
Qed.

Lemma cut_star_none l : "*"%char ∉ l -> cut_sub (bytes_of "*.") l = None.
Proof.
  intros Hn. apply cut_sub_none. intros (a & b & ->). apply Hn. rewrite !elem_of_app. right. left. by left.
Qed.
Lemma cut_star a b : "*"%char ∉ a -> cut_sub (bytes_of "*.") (a ++ bytes_of "*." ++ b) = Some (a, b).
Proof.
  intros Hn. apply cut_sub_iff. split; [done|]. intros x' y' E.
  destruct (decide (length a <= length x')%nat) as [|Hlt]; [done|]. exfalso. apply Hn.
  apply (f_equal (fun l => l !! length x')) in E.
  rewrite lookup_app_l in E by lia. rewrite lookup_app_r, Nat.sub_diag in E by lia. cbn in E.
  by apply list_elem_of_lookup_2 in E.
Qed.
Lemma str_contains_star s : str_contains s "*" = true <-> "*"%char ∈ bytes_of s.
Proof.
  unfold str_contains. change (bytes_of "*") with ["*"%char]. destruct (cut_sub _ _) as [[a b]|] eqn:E.
  - split; [|done]. intros _. apply cut_sub_some in E. rewrite E, !elem_of_app. right. left. by left.
  - split; [done|]. intros (a & b & Hb)%list_elem_of_split. apply cut_sub_none in E. destruct E.
    exists a, b. by rewrite Hb.
Qed.

Definition scheme_of : list string := ["http://"; "https://"].

Lemma scheme_no_star scheme : scheme ∈ scheme_of -> "*"%char ∉ bytes_of scheme.
Proof.
  intros [-> | ->%list_elem_of_singleton]%elem_of_cons; apply (bool_decide_unpack _); by vm_compute.
Qed.
Lemma star_split_at scheme domain :
  scheme ∈ scheme_of -> star_split (scheme +:+ "*." +:+ domain) = Some (scheme, "." +:+ domain).
Proof.
  intros Hs. unfold star_split. rewrite !bytes_of_app, cut_star by by apply scheme_no_star.
  by rewrite !str_of_bytes_of.
Qed.

(** A pattern startup accepts: a scheme and a host, or a scheme and ["*."] before a domain. *)
Lemma validated p :
  validateOrigin p = Ok tt -> p <> "*" ->
  star_split p = None \/
  exists scheme domain, p = scheme +:+ "*." +:+ domain /\ scheme ∈ scheme_of /\ domain <> "" /\
    ("*"%char ∉ bytes_of domain) /\ star_split p = Some (scheme, "." +:+ domain).
Proof.
  unfold validateOrigin. intros Hv Hne. destruct (String.eqb_spec p "*"); [done|].
  apply bind_ok in Hv as (host & Hh & Hv). inv_ok.
  assert (exists scheme, scheme ∈ scheme_of /\ p = scheme +:+ host) as (scheme & Hs & ->).
  { assert (forall q, has_prefix p q = true -> p = q +:+ trim_prefix p q) as Hq.
    { intros q (r & Hr)%has_prefix_iff. apply bytes_of_inj. rewrite bytes_of_app. unfold trim_prefix.
      rewrite (proj2 (strip_prefix_spec _ _ _) Hr). by rewrite bytes_of_str_of. }
    destruct (has_prefix p "http://") eqn:E1; [injection Hh as <-; exists "http://"; split; [set_solver|by apply Hq]|].
    destruct (has_prefix p "https://") eqn:E2; [|done]. injection Hh as <-. exists "https://".
    split; [set_solver|by apply Hq]. }
  destruct (str_contains host "*") eqn:Ec.
  - inv_ok. bool_hyps. apply has_prefix_iff in H2 as [r Hr]. right. exists scheme, (str_of r).
    assert (host = "*." +:+ str_of r) as ->.
    { apply bytes_of_inj. by rewrite bytes_of_app, bytes_of_str_of. }
    unfold trim_prefix in *. rewrite bytes_of_app, bytes_of_str_of in *.
    rewrite (proj2 (strip_prefix_spec _ _ _) eq_refl) in *. split_and!; [done..| |by apply star_split_at].
    intros Hin. rewrite (proj2 (str_contains_star _)) in H3; [done|by rewrite bytes_of_str_of].
  - left. unfold star_split. rewrite bytes_of_app, cut_star_none; [done|]. rewrite elem_of_app.
    intros [?|?]; [by eapply scheme_no_star|]. by rewrite (proj2 (str_contains_star host)) in Ec.
Qed.

(** The origins a pattern lets in. *)
Definition lets_in (o p : string) : Prop :=
  equal_fold o p = true \/
  exists scheme domain label, p = scheme +:+ "*." +:+ domain /\ scheme ∈ scheme_of /\ domain <> "" /\
    ("*"%char ∉ bytes_of domain) /\ ToLower o = scheme +:+ label +:+ "." +:+ ToLower domain.

Lemma origin_match_iff o p :
  validateOrigin p = Ok tt -> p <> "*" -> origin_match o p = true <-> lets_in o p.
Proof.
  intros Hv Hne. unfold origin_match, lets_in. destruct (String.eqb_spec p "*"); [done|]. cbn [orb].
  destruct (equal_fold o p); cbn [orb]; [split; [by left|done]|].
  assert (forall scheme domain, scheme ∈ scheme_of ->
    has_prefix (ToLower o) (ToLower scheme) && has_suffix (ToLower o) (ToLower ("." +:+ domain)) = true <->
    exists label, ToLower o = scheme +:+ label +:+ "." +:+ ToLower domain) as Hm.
  { intros scheme domain Hs.
    assert (ToLower scheme = scheme /\ ("."%char ∉ bytes_of scheme)) as [-> Hd].
    { apply elem_of_cons in Hs as [-> | ->%list_elem_of_singleton];
        (split; [done|apply (bool_decide_unpack _); by vm_compute]). }
    assert (bytes_of (ToLower ("." +:+ domain)) = "."%char :: bytes_of (ToLower domain)) as Hdom.
    { unfold ToLower. rewrite !bytes_of_str_of. apply lower_text_dot. }
    rewrite andb_true_iff, has_prefix_iff, has_suffix_iff, Hdom. split.
    - intros [[x Hx] [y Hy]]. rewrite Hx in Hy. apply meet_apart in Hy as [l ->]; [|done].
      exists (str_of l). apply bytes_of_inj. by rewrite Hx, !bytes_of_app, bytes_of_str_of.
    - intros [label ->]. rewrite !bytes_of_app. split; [by eexists|]. eexists. by rewrite (assoc_L (++)). }
  destruct (validated p Hv Hne) as [Hstar|(scheme & domain & -> & Hs & Hdne & Hst & _)]; [rewrite Hstar|].
  - split; [done|]. intros [?|(scheme & domain & label & -> & Hs & Hdne & Hst & E)]; [done|].
    rewrite star_split_at in Hstar by done. done.
  - rewrite star_split_at by done. rewrite Hm by done. split.
    + intros [label E]. right. by exists scheme, domain, label.
    + intros [?|(scheme' & domain' & label & E' & Hs' & _ & _ & E)]; [done|].
      apply (f_equal star_split) in E'. rewrite !star_split_at in E' by done. injection E' as -> E'.
      change (domain = domain') in E'. rewrite E'. by exists label.
Qed.

(** The origin allowlist lets in what it names. With patterns startup accepts and no
    bare star among them, a request's origin is let in exactly when some pattern names it
    up to case, or some pattern is a scheme and a starred domain and the origin is that
    scheme, anything, a dot and that domain, up to case; never the bare domain, never the
    other scheme. *)
Theorem origin_exact origins o :
  ValidateOrigins origins = Ok tt -> "*" ∉ origins ->
  originAllowed o origins = true <-> exists p, p ∈ origins /\ lets_in o p.
Proof.
  unfold ValidateOrigins, originAllowed. intros Hv%each_ok Hs. rewrite Forall_forall in Hv.
  rewrite existsb_exists. setoid_rewrite <-list_elem_of_In.
  split; intros (p & Hp & Hm); exists p; (split; [done|]); apply (origin_match_iff o p (Hv p Hp)); try done;
    by intros ->.
Qed.

(** ** What a poll tells its caller *)

(** A status body: where the job is, in the shapes these fields have, and nothing else. *)
Definition told_member (k : string) (v : json) : Prop :=
  (k ∈ ["createdAt"; "updatedAt"] /\ exists ts, v = jstr ts /\ (String.length ts <= 64)%nat) \/
  (k = "errorMessage" /\ exists m, v = jstr m /\ (knownJobFailure m = true \/ m = "job_failed")).
Record told_status (uid st : string) (out : gmap string json) : Prop := {
  ts_job : out !! "jobId" = Some (jstr uid);
  ts_status : out !! "status" = Some (jstr st);
  ts_rest : forall k v, out !! k = Some v -> k = "jobId" \/ k = "status" \/ told_member k v
}.

Lemma told_insert uid st out k v : told_status uid st out -> told_member k v -> told_status uid st (<[k := v]> out).
Proof.
  intros [Hj Hs Hr] Hm.
  assert (k <> "jobId" /\ k <> "status") as [Hnj Hns].
  { destruct Hm as [[Hk _]|[-> _]]; [|done]. apply elem_of_cons in Hk as [-> | ->%list_elem_of_singleton]; done. }
  split; [by rewrite lookup_insert_ne|by rewrite lookup_insert_ne|]. intros k' v'.
  destruct (decide (k = k')) as [<-|Hne]; [rewrite lookup_insert_eq; intros [= <-]; tauto|].
  rewrite lookup_insert_ne by done. apply Hr.
Qed.

(** An error: a short code and a sentence of the front end's own. *)
Definition poll_sentences `{Wording} (status : Z) : list string :=
  [("the router answered the poll with " +:+ StatusText status)%string;
   "the job result failed end-to-end verification and was refused";
   "a sealed frame was returned for a job that is not completed";
   "the job result was not end-to-end encrypted and was refused";
   "poll response is not a JSON object"; "build poll request"; "upstream request failed";
   "poll response unreadable or too large"].
Definition told_error `{Wording} (status : Z) (out : gmap string json) : Prop :=
  exists source code msg, out = asyncErrorBody source code msg /\ knownCode code = true /\
    source ∈ ["gateway"; "upstream"] /\ msg ∈ poll_sentences status.

(** The answer written: its status, and a JSON object as its body. *)
Definition gave {W} (s s' : fstate W) (code : Z) (out : gmap string json) : Prop :=
  status_of (f_writer s') = code /\ w_Out (f_writer s') = w_Out (f_writer s) ++ marshal_map out ++ [newline].

Section polls.
Context {W : Type} `{World W} `{FrontWorld W} `{Wording} `{Jcs} `{HpkeLib}.

Lemma asyncPollAnswer_told uid jid priv status body code out :
  asyncPollAnswer uid jid priv status body = (code, out) ->
  (exists frame opened, unmarshal unmarshal_map body = Ok (Some frame) /\
     OpenAsyncImageResult priv frame jid = Ok opened /\
     code = StatusOK /\ out = <["jobId" := jstr uid]> opened) \/
  (code = StatusOK /\ exists st, told_status uid st out /\ knownCode st = true /\ st <> AsyncStatusCompleted) \/
  (code <> StatusOK /\ told_error status out).
Proof.
  assert (forall c msg, knownCode c = true -> msg ∈ poll_sentences status ->
    told_error status (asyncErrorBody "upstream" c msg)) as He
    by (intros c msg Hc Hm; exists "upstream", c, msg; set_solver).
  unfold asyncPollAnswer, StatusOK in *.
  destruct ((status <? 200) || (299 <? status)) eqn:Est.
  { intros [= <- <-]. right; right. split; [lia|]. apply He; [|by left].
    destruct (unmarshal _ _) as [c|]; [|done]. by destruct (knownCode c) eqn:Ek. }
  destruct (unmarshal unmarshal_map body) as [[frame|]|]; [|intros [= <- <-]; right; right; (split; [lia|]);
    apply He; [done|by do 4 right; left]..].
  set (st := string_member frame "status").
  destruct (has_key frame e2eeKey); cbn [andb].
  { destruct (String.eqb st AsyncStatusCompleted).
    - destruct (OpenAsyncImageResult priv frame jid) as [opened|] eqn:Eo; intros [= <- <-].
      + left. by exists frame, opened.
      + right; right. split; [lia|]. apply He; [done|by do 1 right; left].
    - intros [= <- <-]. right; right. split; [lia|]. apply He; [done|by do 2 right; left]. }
  destruct (String.eqb_spec st AsyncStatusCompleted) as [|Hst].
  { intros [= <- <-]. right; right. split; [lia|]. apply He; [done|by do 3 right; left]. }
  intros [= <- <-]. right; left. split; [done|].
  set (st' := if knownCode st then st else "unknown").
  assert (knownCode st' = true /\ st' <> AsyncStatusCompleted) as [Hk Hne].
  { unfold st'. destruct (knownCode st) eqn:Ek; [done|]. by split. }
  exists st'. split; [|done].
  assert (forall out k, k ∈ ["createdAt"; "updatedAt"] -> told_status uid st' out ->
    told_status uid st' (match frame !! k with
      | Some raw => match unmarshal_string raw with
                    | Ok ts => if Nat.leb (String.length ts) 64 then <[k := jstr ts]> out else out
                    | Err _ => out
                    end
      | None => out
      end)) as Hstamp.
  { intros o k Hkk Ho. destruct (frame !! k) as [raw|]; [|done]. destruct (unmarshal_string raw) as [ts|]; [|done].
    destruct (Nat.leb_spec (String.length ts) 64); [|done]. apply told_insert; [done|]. left. eauto. }
  assert (told_status uid st' (list_to_map [("jobId", jstr uid); ("status", jstr st')])) as Hbase.
  { split; [done|done|]. intros k v. cbn. destruct (decide (k = "jobId")) as [->|]; [tauto|].
    rewrite lookup_insert_ne by done. destruct (decide (k = "status")) as [->|]; [tauto|].
    by rewrite lookup_insert_ne. }
  pose proof (Hstamp _ "updatedAt" ltac:(by right; left) (Hstamp _ "createdAt" ltac:(by left) Hbase)) as Hs.
  destruct (String.eqb st' "failed"); [|exact Hs]. apply told_insert; [exact Hs|]. right. split; [done|].
  eexists. split; [done|]. destruct (knownJobFailure (string_member frame "errorMessage")) eqn:Ef; [by left|].
  destruct (String.eqb _ _); [by left|by right].
Qed.

Lemma writeErrorObject_gave code out (s : fstate W) :
  w_Sent (f_writer s) = None -> gave s (writeErrorObject code out s) code out.
Proof. destruct s as [w [wh ws wo] log sh pa]. cbn. intros ->. done. Qed.

(** What the caller of a poll may be told. *)
Definition poll_outcome (uid jobID : string) (priv : PrivateKey) (q : PollRequest) (w : W)
    (code : Z) (out : gmap string json) : Prop :=
  (exists resp w' body frame opened, poll q w = (Some (Ok resp), w') /\
     200 <= hs_Status resp <= 299 /\ read_all resp = Ok body /\
     unmarshal unmarshal_map body = Ok (Some frame) /\ OpenAsyncImageResult priv frame jobID = Ok opened /\
     code = StatusOK /\ out = <["jobId" := jstr uid]> opened) \/
  (code = StatusOK /\ exists st, told_status uid st out /\ knownCode st = true /\ st <> AsyncStatusCompleted) \/
  (code <> StatusOK /\ exists status, told_error status out).

Lemma fault_outcome uid jobID priv q w source c msg code :
  knownCode c = true -> source ∈ ["gateway"; "upstream"] -> msg ∈ poll_sentences 0 -> code <> StatusOK ->
  poll_outcome uid jobID priv q w code (asyncErrorBody source c msg).
Proof. intros. right. right. split; [done|]. exists 0, source, c, msg. done. Qed.

Lemma answer_outcome uid jobID priv q w w' resp body code out :
  poll q w = (Some (Ok resp), w') -> read_all_limited (maxPollResponseBytes + 1) resp = Ok body ->
  Z.of_nat (length body) <= maxPollResponseBytes ->
  asyncPollAnswer uid jobID priv (hs_Status resp) body = (code, out) ->
  poll_outcome uid jobID priv q w code out.
Proof.
  intros Hq Hr Hl Ha.
  destruct (asyncPollAnswer_told _ _ _ _ _ _ _ Ha) as [(frame & opened & Hu & Ho & Hc & Hout)|[Ht|[Hc Ht]]];
    [|by right; left|right; right; eauto].
  left. exists resp, w', body, frame, opened.
  assert (200 <= hs_Status resp <= 299).
  { unfold asyncPollAnswer in Ha. destruct ((hs_Status resp <? 200) || (299 <? hs_Status resp)) eqn:E; [|lia].
    injection Ha as Ec _. unfold StatusOK in *. lia. }
  assert (read_all resp = Ok body); [|done].
  unfold read_all_limited in Hr. destruct (Z.leb_spec (maxPollResponseBytes + 1) (Z.of_nat (length (hs_Body resp)))) as [Hlen|]; [|done].
  injection Hr as <-. unfold maxPollResponseBytes in *. rewrite take_z_length in Hl by lia. lia.
Qed.

(** C13: a poll is safe on both sides. Whatever the router answers to a poll of a sealed
    job, the router is sent the broker's job id, the query and the caller's credential,
    never the key in the caller's id; and what the caller gets is one of three things: a
    result that opened under that key as the answer to that very job, out of the router's
    own reply, under the id the caller polled; a status body, which names no finished job
    and carries nothing but short tokens and timestamps; or an error of the front end's own
    words with a short code. A result in the clear is never passed on, nor one that does
    not open. *)
Theorem poll_safe (r : ServerRequest) (s : fstate W) :
  w_Sent (f_writer s) = None ->
  refused [400] s (AsyncJobPoll r s) \/
  exists jobID priv code out, ParseUserJobID (path_value "id" r) = Ok (jobID, priv) /\
    (let q := MkPollRequest [AsyncJobsPrefix; jobID] (r_RawQuery r) (poll_header r) in
     (f_log (AsyncJobPoll r s) = f_log s \/ f_log (AsyncJobPoll r s) = f_log s ++ [FPoll q]) /\
     gave s (AsyncJobPoll r s) code out /\
     poll_outcome (path_value "id" r) jobID priv q (f_world s) code out).
Proof.
  intros Hsent. unfold AsyncJobPoll. destruct (ParseUserJobID _) as [[jobID priv]|e] eqn:Ep.
  2: { left. apply writeErrorObject_refused. by left. }
  right. exists jobID, priv. unfold ask, writeAsyncError.
  set (q := MkPollRequest _ _ _). destruct (poll q (f_world s)) as [answer w] eqn:Eq.
  assert (forall s1 : fstate W, w_Sent (f_writer s1) = None -> w_Out (f_writer s1) = w_Out (f_writer s) ->
    forall code out, gave s (writeErrorObject code out s1) code out) as Hgave.
  { intros s1 Hs1 Ho1 code out. destruct (writeErrorObject_gave code out s1 Hs1). split; [done|]. by rewrite <-Ho1. }
  destruct answer as [[resp|e]|].
  - destruct (read_all_limited _ resp) as [body|] eqn:Er.
    + destruct (Z.ltb_spec maxPollResponseBytes (Z.of_nat (length body))) as [Hlong|Hshort].
      * eexists 502, _. split_and!; [done|by right|by apply Hgave|].
        apply fault_outcome; [done|by right; left|by apply (list_elem_of_lookup_2 _ 7)|done].
      * destruct (asyncPollAnswer _ _ _ _ _) as [code out] eqn:Ea. exists code, out.
        split_and!; [done|right; by destruct (_ && _)|apply Hgave; by destruct (_ && _)|].
        by eapply answer_outcome.
    + eexists 502, _. split_and!; [done|by right|by apply Hgave|].
      apply fault_outcome; [done|by right; left|by apply (list_elem_of_lookup_2 _ 7)|done].
  - eexists 502, _. split_and!; [done|by right|by apply Hgave|].
    apply fault_outcome; [done|by right; left|by apply (list_elem_of_lookup_2 _ 6)|done].
  - eexists 500, _. split_and!; [done|by left|by apply Hgave|].
    apply fault_outcome; [done|by left|by apply (list_elem_of_lookup_2 _ 5)|done].
Qed.
End polls.

Lemma OpenAsyncImageResult_clear `{Jcs} `{HpkeLib} priv frame id out :
  OpenAsyncImageResult priv frame id = Ok out ->
  has_key frame e2eeKey = true /\ string_member frame "status" = AsyncStatusCompleted.
Proof.
  unfold OpenAsyncImageResult. intros Ho. inv_ok. bool_hyps. subst. split.
  - match goal with H : Response_E2EE frame = Ok _ |- _ => unfold Response_E2EE in H; inv_ok end.
    unfold has_key. match goal with H : frame !! e2eeKey = Some _ |- _ => by rewrite H end.
  - match goal with H : cleartextString frame fieldStatus = Ok _ |- _ => apply cleartextString_ok in H as (_ & raw & Hr & Hu) end.
    unfold string_member. change fieldStatus with "status" in *. by rewrite Hr, Hu.
Qed.

(** C14: a job comes home. When the enclave seals a job's result to the key the client
    submitted under, and the router hands that frame back to a poll of the id the client
    was given, the caller gets the enclave's own result, under its own id. *)
Theorem job_comes_home {W} `{World W} `{FrontWorld W} `{Wording} `{Jcs} `{HpkeLaws} priv pub b result rnd frame
    id uid (r : ServerRequest) (s : fstate W) h w' :
  keypair priv pub -> map_ok result -> DeriveResponseBind priv = Ok b ->
  SealAsyncImageResult pub result b rnd = Ok frame -> cleartextString result fieldJobID = Ok id ->
  UserJobID id priv = Ok uid -> path_value "id" r = uid ->
  Z.of_nat (length (marshal_map frame)) <= maxPollResponseBytes ->
  poll (MkPollRequest [AsyncJobsPrefix; id] (r_RawQuery r) (poll_header r)) (f_world s)
    = (Some (Ok (MkHttpResponse StatusOK h (marshal_map frame) None)), w') ->
  w_Sent (f_writer s) = None ->
  gave s (AsyncJobPoll r s) StatusOK (<["jobId" := jstr uid]> (compact <$> result)).
Proof.
  intros Hkey Hok Hb Hs Hid Hu Hp Hlen Hpoll Hsent.
  pose proof (async_result_roundtrip _ _ _ _ _ _ _ Hkey Hok Hb Hs Hid) as Hopen.
  assert (map_ok frame) as Hframe.
  { unfold SealAsyncImageResult in Hs. inv_ok. assert (Forall (fun s => utf8_str s = true) asyncImageResultUnbound) as Hun by by repeat constructor.
    edestruct bound_response_parts as (_ & ? & ? & ? & _ & _ & _ & _ & _ & Hm);
      [exact Hkey|exact Hok|exact Hun|exact Hb|eassumption|done]. }
  apply UserJobID_ok in Hu as (Hv & Hl & Hu).
  assert (ParseUserJobID uid = Ok (id, priv)) as Hparse.
  { apply ParseUserJobID_ok. exists (b64_encode priv). subst uid. rewrite bytes_of_str_of.
    split_and!; [apply split_last_app, b64_no_sep|done|apply b64_decode_encode|done]. }
  unfold AsyncJobPoll. rewrite Hp, Hparse. unfold ask. rewrite Hpoll.
  unfold read_all_limited. cbn [hs_Body hs_BodyErr]. rewrite (proj2 (Z.leb_gt _ _)) by lia.
  unfold read_all. cbn [hs_Body hs_BodyErr]. rewrite (proj2 (Z.ltb_ge _ _)) by lia.
  destruct (OpenAsyncImageResult_clear _ _ _ _ Hopen) as [Hkk Hst].
  unfold asyncPollAnswer. cbn [hs_Status]. change ((StatusOK <? 200) || (299 <? StatusOK)) with false.
  rewrite unmarshal_marshal_map by done. rewrite Hkk, Hst. cbn [andb]. rewrite String.eqb_refl, Hopen.
  destruct (writeErrorObject_gave StatusOK (<["jobId" := jstr uid]> (compact <$> result))
    (let ra := header_get h "Retry-After" in
     if negb (String.eqb ra "") && (StatusOK =? StatusOK)
     then set_header "Retry-After" ra (f_emit [FPoll (MkPollRequest [AsyncJobsPrefix; id] (r_RawQuery r) (poll_header r))] (on_f_world (fun _ => w') s))
     else f_emit [FPoll (MkPollRequest [AsyncJobsPrefix; id] (r_RawQuery r) (poll_header r))] (on_f_world (fun _ => w') s))) as [G1 G2].
  { cbn zeta. by destruct (_ && _). }
  split; [exact G1|]. cbn zeta in G2 |- *. destruct (_ && _); exact G2.
Qed.

(** ** Witnesses *)

Module FrontWitness.
Import EnvelopeWitness ResponseWitness RespBindWitness AsyncWitness.

#[export] Instance words : Wording :=
  {| say _ := "error"; say_form _ := "form"; say_wire _ := "wire"; StatusText _ := "status" |}.
#[export] Instance ticks : World Z := {| now w := w; canceledBy _ := false |}.
(** The router hands back the sealed frame to a poll of [job-1]; the world counts slots. *)
Definition answer_frame : HttpResponse cerr := MkHttpResponse StatusOK ∅ (marshal_map image_frame) None.
#[export] Instance floor : FrontWorld Z := {|
  jitter w := (1, w); mint w := (Some (repeat "a"%char 8), w); held w := w; hold n _ := n;
  reaches _ := true; relay _ w := (Ok (MkHttpResponse 404 ∅ [] None), w);
  poll q w := (if bool_decide (pq_Path q = [AsyncJobsPrefix; "job-1"]) then Some (Ok answer_frame) else None, w);
  flushes _ := true; write_fails _ w := (None, w)
|}.

Definition caller (h : Header) : ServerRequest :=
  MkServerRequest "GET" (AsyncJobsPrefix +:+ user_id) "" "" h [] (0, None) {[ "id" := user_id ]}.
Definition fresh : fstate Z := MkF 0 new_writer [] false false.

Example cookie_from_home :
  let h := header_set "Cookie" "a=1; jwt=tok" (header_set "Origin" "https://chat.0g.ai" ∅) in
  let s := AcceptCookieCredential (ParseOrigins DefaultAllowedOriginsCSV)
             (RequireInferenceCredential (fun r s => set_header "Seen" (credential (r_Header r)) s)) (caller h) fresh in
  header_get (w_Header (f_writer s)) "Seen" = "Bearer tok".
Proof. vm_compute. reflexivity. Qed.
Example cookie_from_elsewhere :
  let h := header_set "Cookie" "a=1; jwt=tok" (header_set "Origin" "https://0g.ai.evil.com" ∅) in
  status_of (f_writer (AcceptCookieCredential (ParseOrigins DefaultAllowedOriginsCSV)
             (RequireInferenceCredential (fun r s => s)) (caller h) fresh)) = 403.
Proof. vm_compute. reflexivity. Qed.
Example redacted : RedactJobPath "/V1/async/jobs/job-1.secret/x" = "/V1/async/jobs/job-1.<redacted>".
Proof. vm_compute. reflexivity. Qed.
Example one_origin : validateOrigin "https://0g.ai/" = Err OPath /\ validateOrigin "https://*.0g.ai" = Ok tt.
Proof. by vm_compute. Qed.

Lemma defaults_valid : ValidateOrigins (ParseOrigins DefaultAllowedOriginsCSV) = Ok tt.
Proof. vm_compute. reflexivity. Qed.
Lemma defaults_named : "*" ∉ ParseOrigins DefaultAllowedOriginsCSV.
Proof. apply (bool_decide_unpack _). vm_compute. exact I. Qed.

Lemma origin_exact_witness :
  originAllowed "https://Chat.0G.ai" (ParseOrigins DefaultAllowedOriginsCSV) = true <->
  exists p, p ∈ ParseOrigins DefaultAllowedOriginsCSV /\ lets_in "https://Chat.0G.ai" p.
Proof. exact (origin_exact _ _ defaults_valid defaults_named). Defined.

Lemma poll_safe_witness :
  refused [400] fresh (AsyncJobPoll (caller ∅) fresh) \/
  exists jobID priv code out, ParseUserJobID (path_value "id" (caller ∅)) = Ok (jobID, priv) /\
    (let q := MkPollRequest [AsyncJobsPrefix; jobID] "" (poll_header (caller ∅)) in
     (f_log (AsyncJobPoll (caller ∅) fresh) = [] \/ f_log (AsyncJobPoll (caller ∅) fresh) = [FPoll q]) /\
     gave fresh (AsyncJobPoll (caller ∅) fresh) code out /\
     poll_outcome (path_value "id" (caller ∅)) jobID priv q 0 code out).
Proof. exact (poll_safe (caller ∅) fresh eq_refl). Defined.

Lemma frame_short : Z.of_nat (length (marshal_map image_frame)) <= maxPollResponseBytes.
Proof. vm_compute. discriminate. Qed.
Lemma router_answers :
  poll (MkPollRequest [AsyncJobsPrefix; "job-1"] "" (poll_header (caller ∅))) 0
  = (Some (Ok (MkHttpResponse StatusOK ∅ (marshal_map image_frame) None)), 0).
Proof. cbn. rewrite bool_decide_true by done. done. Qed.

Lemma job_comes_home_witness :
  gave fresh (AsyncJobPoll (caller ∅) fresh) StatusOK (<["jobId" := jstr user_id]> (compact <$> image_result)).
Proof.
  exact (job_comes_home _ _ _ _ _ _ _ _ (caller ∅) fresh ∅ 0 keypair_eph image_result_ok bind_derived image_sealed
    image_job user_id_built eq_refl frame_short router_answers eq_refl).
Defined.
End FrontWitness.
