(* ===== verification/Serving.v ===== *)
(** * Serving: what the sealed surfaces let out ([client/openaiproxy/proxy.go], [async.go])

    The theorems about [Front.surface]: the handlers composed with the client's calls. A
    streamed call is followed step by step: a relation that every step of
    [CompleteStream] keeps holds of the whole ([CompleteStream_rel]), and is used twice,
    for what it posts and for what it writes to the caller.

    The theorems: a surface lets nothing out that is not sealed; a successful answer is
    the provider's, under the provider's name; a stream's bytes are the frames delivered,
    in order. *)

From S2P Require Import Prelude GoBytes GoJson GoDecode GoHttp GoServe.
From S2P Require Import Profile Hpke Envelope Response RespBind Async Signature Walk Client Stream Endpoint Front.

(** ** Step by step *)

Section steps.
Context {W : Type} `{World W} `{Outside W} `{StreamReads W} `{Jcs} `{HpkeLib}.
Context (c : Client) (cx : CallContext) (onFrame : Response -> W -> option cerr * W).
Context (quiet : W -> W -> Prop) (R : cstate W -> cstate W -> Prop).

(** A candidate list whose calls are quiet. *)
Definition quiet_cands (cands : Candidates W) : Prop :=
  (forall t i w, quiet w (cd_Provider cands t i w).2) /\
  (forall kr, cd_RefreshProvider cands = Some kr -> forall t i k w, quiet w (kr t i k w).2).

(** Calls outside are quiet; [R] composes and holds of quiet steps, of entries in the log,
    of posts that are sealed and of deliveries. *)
Record stream_rel (req : Request) : Prop := {
  sr_http q w : quiet w (http_do q w).2;
  sr_body resp w : quiet w (body_read resp w);
  sr_random w : quiet w (random w).2;
  sr_sig p k w : quiet w (fetch_signature p k w).2;
  sr_read resp i w : quiet w (event_read resp i w).2;
  sr_resolve w cands w' : resolve (c_profile c) req w = (Ok cands, w') -> quiet_cands cands;
  sr_resolve_quiet w : quiet w (resolve (c_profile c) req w).2;
  sr_quiet_refl w : quiet w w;
  sr_trans s1 s2 s3 : R s1 s2 -> R s2 s3 -> R s1 s3;
  sr_still s s' : st_log s' = st_log s -> quiet (st_world s) (st_world s') -> R s s';
  sr_emit e s : undelivered e -> (forall p env h, e <> EvPost p env h) -> R s (emit true e s);
  sr_post p priv pub rnd env s : seal c p req priv pub rnd = Ok env ->
    (exists (w w' : W) cands, resolve (c_profile c) req w = (Ok cands, w') /\ offered cands p) ->
    R s (emit true (EvPost p env (requestHeader cx p)) s);
  sr_deliver out s : R s (outside (onFrame out) (log_event (EvDeliver out) s)).2
}.

Context (req : Request) (HR : stream_rel req).

Lemma sr_refl s : R s s.
Proof. apply (sr_still _ HR); [done|apply (sr_quiet_refl _ HR)]. Qed.
Lemma sr_metric e s : undelivered e -> (forall p env h, e <> EvPost p env h) -> R s (metric c e s).
Proof. intros. unfold metric. destruct (c_metrics c); [by apply (sr_emit _ HR)|apply sr_refl]. Qed.
Lemma sr_then s1 s2 s3 : R s1 s2 -> R s2 s3 -> R s1 s3.
Proof. apply (sr_trans _ HR). Qed.
Lemma sr_outside {A} (call : W -> A * W) s a s' :
  (forall w, quiet w (call w).2) -> outside call s = (a, s') -> R s s'.
Proof.
  intros Hq. unfold outside. specialize (Hq (st_world s)). destruct (call _) as [x w].
  intros [= _ <-]. by apply (sr_still _ HR).
Qed.
Lemma sr_world f s : (forall w, quiet w (f w)) -> R s (on_world f s).
Proof. intros Hq. apply (sr_still _ HR); [done|apply Hq]. Qed.

Lemma verifyStream_rel p h b s r s' : verifyStream c p h b s = (r, s') -> R s s'.
Proof.
  unfold verifyStream. destruct (Text b) as [t|]; [|intros [= _ <-]; apply sr_refl].
  destruct (fetchSig p h s) as [r0 s1] eqn:E.
  assert (R s s1) as H1'.
  { unfold fetchSig in E. destruct (String.eqb _ _); [injection E as _ <-; apply sr_refl|].
    destruct (outside _ s) as [x s2] eqn:Eo. injection E as _ <-. eapply sr_outside; [|exact Eo]. apply (sr_sig _ HR). }
  destruct r0 as [sig|]; [destruct (VerifyBoundText _ _ _ _ _)|]; intros [= _ <-]; try exact H1';
    (eapply sr_then; [exact H1'|by apply sr_metric]).
Qed.

Lemma streamEnd_rel p resp ps s r s' : streamEnd c p resp ps s = (r, s') -> R s s'.
Proof.
  unfold streamEnd. destruct (negb _); [intros [= _ <-]; apply sr_refl|].
  destruct (pm_binder ps) as [b|]; [|intros [= _ <-]; apply sr_refl].
  destruct (verifyStream _ _ _ _ _) as [[[]|] s1] eqn:E; intros [= _ <-]; by eapply verifyStream_rel.
Qed.

Lemma deliver_rel p resp start ps out s e s' : deliver c cx onFrame p resp start ps out s = (e, s') -> R s s'.
Proof.
  unfold deliver. set (s1 := if pm_committed ps then s else _).
  assert (R s s1) as H1'.
  { unfold s1. destruct (pm_committed ps); [apply sr_refl|]. apply (sr_then _ (metric c (EvFirstFrame (now (st_world s) - start)) s)); [by apply sr_metric|].
    unfold recordMeta, log_event. destruct (cx_meta cx); [by apply (sr_emit _ HR)|apply sr_refl]. }
  intros E. eapply sr_then; [exact H1'|]. pose proof (sr_deliver _ HR out s1) as Hd. by rewrite E in Hd.
Qed.

Lemma frameStep_rel p priv resp start ps data s x s' :
  frameStep c cx onFrame p priv resp start ps data s = (x, s') -> R s s'.
Proof.
  assert (R s (metric c EvOpenFailure s)) as Hm by by apply sr_metric.
  unfold frameStep. cbv zeta.
  destruct (unmarshal _ _) as [m|]; [|intros [= _ <-]; apply sr_refl].
  destruct (Response_E2EE _) as [fe|]; [|intros [= _ <-]; apply sr_refl].
  destruct (match pm_opener ps with Some o => Ok o | None => _ end) as [o|]; [|intros [= _ <-]; exact Hm].
  destruct (OpenFrame _ _) as [[out|] o']; [|intros [= _ <-]; exact Hm].
  destruct (match pm_binder ps with None => _ | Some b => _ end) as [b|]; [|intros [= _ <-]; apply sr_refl].
  destruct (deliver _ _ _ _ _ _ _ _ _) as [[e|] s1] eqn:E; intros [= _ <-]; by eapply deliver_rel.
Qed.

Lemma pump_rel fuel p priv resp start serr lines ps s r s' :
  pump c cx onFrame fuel p priv resp start serr lines ps s = Some (r, s') -> R s s'.
Proof.
  revert lines ps s. induction fuel as [|fuel IH]; intros lines ps s; [done|]. cbn [pump].
  destruct (readStep resp serr lines ps s) as [[[r0 lines'] ps'] s1] eqn:Er.
  assert (R s s1) as H1'.
  { unfold readStep in Er. destruct (outside _ s) as [cut s2] eqn:Eo.
    apply sr_outside in Eo; [|apply (sr_read _ HR)]. destruct cut; [by injection Er as _ _ _ <-|].
    destruct (next_event _ _ _). by injection Er as _ _ _ <-. }
  destruct r0 as [data|[e|]].
  - case_bool_decide.
    + destruct (streamEnd _ _ _ _ _) as [x s2] eqn:Ee. intros [= _ <-]. eapply sr_then; [exact H1'|by eapply streamEnd_rel].
    + destruct (frameStep _ _ _ _ _ _ _ _ _ _) as [[x|ps2] s2] eqn:Ef; apply frameStep_rel in Ef.
      * intros [= _ <-]. by eapply sr_then.
      * intros Hp%IH. eapply sr_then; [exact H1'|by eapply sr_then].
  - intros [= _ <-]. exact H1'.
  - destruct (streamEnd _ _ _ _ _) as [x s2] eqn:Ee. intros [= _ <-]. eapply sr_then; [exact H1'|by eapply streamEnd_rel].
Qed.

Lemma streamResponse_rel p env priv start resp s r s' :
  streamResponse c cx onFrame p env priv start resp s = (r, s') -> R s s'.
Proof.
  unfold streamResponse. destruct (negb _); [intros [= _ <-]; apply sr_world, (sr_body _ HR)|].
  destruct (negb _); [intros [= _ <-]; apply sr_world, (sr_body _ HR)|].
  destruct (if verifyEnabled c then _ else _) as [b|]; [|intros [= _ <-]; apply sr_refl].
  destruct (scanLines _ _ _ _) as [lines serr].
  destruct (pump _ _ _ _ _ _ _ _ _ _ _ _) as [[x s1]|] eqn:E; intros [= _ <-]; [by eapply pump_rel|apply sr_refl].
Qed.

Lemma streamAttempt_rel pub priv p s r s' :
  (exists (w w' : W) cands, resolve (c_profile c) req w = (Ok cands, w') /\ offered cands p) ->
  streamAttempt c cx onFrame req pub priv p s = (r, s') -> R s s'.
Proof.
  intros Hoff. unfold streamAttempt. destruct (outside random s) as [rnd s1] eqn:E; apply sr_outside in E; [|apply (sr_random _ HR)].
  destruct (seal _ _ _ _ _ _) as [env|err] eqn:Es; [|by intros [= _ <-]].
  unfold streamOnce. destruct (doRequest cx p env s1) as [rr s2] eqn:Ed.
  assert (R s s2) as H2'.
  { unfold doRequest in Ed. apply sr_outside in Ed; [|apply (sr_http _ HR)]. eapply sr_then; [exact E|]. eapply sr_then; [|exact Ed].
    by eapply (sr_post _ HR). }
  destruct rr as [resp|err].
  - destruct (streamResponse _ _ _ _ _ _ _ _ _) as [[o r0] s3] eqn:Er. apply streamResponse_rel in Er.
    intros [= _ <-]. eapply sr_then; [exact H2'|]. eapply sr_then; [exact Er|by apply sr_metric].
  - intros [= _ <-]. eapply sr_then; [exact H2'|by apply sr_metric].
Qed.

Lemma CompleteStream_rel w r s' :
  CompleteStream c cx onFrame req w = (r, s') -> R (MkState w (MkWalk 0 (c_resolveBudgetTO c)) noErr []) s'.
Proof.
  unfold CompleteStream. set (s0 := MkState _ _ _ _).
  destruct (outside _ s0) as [[cands|err] s1] eqn:E; pose proof E as E0; apply sr_outside in E; try apply (sr_resolve_quiet _ HR);
    [|by intros [= _ <-]].
  destruct (outside random s1) as [rnd s2] eqn:E2; apply sr_outside in E2; [|apply (sr_random _ HR)].
  destruct (GenerateRecipientKey rnd) as [[priv pub]|]; [|intros [= _ <-]; by eapply sr_then].
  assert (exists w', resolve (c_profile c) req w = (Ok cands, w')) as [w' Hres].
  { unfold outside in E0. destruct (resolve _ _ _) as [rr w1] eqn:Er. injection E0 as -> _. cbn in Er. eauto. }
  destruct (sr_resolve _ HR _ _ _ Hres) as [Hqp Hqk].
  intros Hw. eapply sr_then; [exact E|]. eapply sr_then; [exact E2|].
  assert (forall a b x, R a b -> R a (with_walk x b)) as Hww
    by (intros; eapply sr_then; [done|by apply (sr_still _ HR), (sr_quiet_refl _ HR)]).
  eapply sr_then; [|eapply (walkLoop_rel _ _ cands R); [| |exact Hw]; [|lia]];
    [by apply (sr_still _ HR), (sr_quiet_refl _ HR)|]. split.
  - apply sr_refl.
  - apply sr_then.
  - intros i s r0 s1'. unfold walk_provider, charged. destruct (_ <=? _); [intros [= _ <-]; apply sr_refl|].
    destruct (cd_Provider _ _ _ _) as [x wx] eqn:Ep. intros [= _ <-]. apply (sr_still _ HR); [done|].
    pose proof (Hqp (now (st_world s) + (limit (st_walk s) - cw_spent (st_walk s))) i (st_world s)) as Hx. by rewrite Ep in Hx.
  - intros i kr stale s r0 s1' Hkr. unfold walk_refresh, charged. destruct (_ <=? _); [intros [= _ <-]; apply sr_refl|].
    destruct (kr _ _ _ _) as [x wx] eqn:Ep. intros [= _ <-]. apply (sr_still _ HR); [done|].
    pose proof (Hqk kr Hkr (now (st_world s) + (limit (st_walk s) - cw_spent (st_walk s))) i stale (st_world s)) as Hx.
    by rewrite Ep in Hx.
  - intros t e s. by apply (sr_still _ HR), (sr_quiet_refl _ HR).
  - intros on e s He. destruct on; [|apply sr_refl]. apply (sr_emit _ HR); by destruct e.
  - intros p s r0 s1' Hp Ha. apply streamAttempt_rel in Ha; [|eauto]. by destruct r0; [|apply Hww].
Qed.
End steps.

(** ** What a surface lets out *)

(** A post lets out an envelope sealed for its provider, with nothing in it the client
    seals, under the headers that pin it there. *)
Definition kept_secret `{Jcs} `{HpkeLib} (c : Client) (cx : CallContext) (e : event) : Prop :=
  match e with
  | EvPost p env h =>
      h = requestHeader cx p /\
      (exists req priv pub rnd, seal c p req priv pub rnd = Ok env) /\
      forall f, f ∈ c_sealFields c \/ f ∈ DefaultSealedFieldsFor (c_profile c) \/ f = fieldBind ->
        f <> e2eeKey -> env !! f = None
  | _ => True
  end.

Lemma kept_secret_seal `{Jcs} `{HpkeLib} c cx p req priv pub rnd env :
  seal c p req priv pub rnd = Ok env -> kept_secret c cx (EvPost p env (requestHeader cx p)).
Proof. intros Hs. split_and!; [done|eauto|]. intros f. by eapply seal_hides. Qed.

Lemma sealed_post_secret {W} `{World W} `{Outside W} `{Jcs} `{HpkeLib} c cx req e :
  sealed_post (W := W) c cx req e -> kept_secret c cx e.
Proof. destruct e; try done. intros (-> & _ & req' & priv & pub & rnd & Hs & _). by eapply kept_secret_seal. Qed.

Lemma CompleteStream_secret {W} `{World W} `{Outside W} `{StreamReads W} `{Jcs} `{HpkeLib} c cx onFrame req
    (w : W) r s' :
  CompleteStream c cx onFrame req w = (r, s') -> Forall (kept_secret c cx) (st_log s').
Proof.
  intros Hc. eapply (CompleteStream_rel c cx onFrame (fun _ _ => True) (grows (kept_secret c cx)) req) in Hc.
  { destruct Hc as (l & Hl & HF). by rewrite Hl. }
  split; try done.
  - apply grows_trans.
  - intros s s1 Hl _. eapply grows_log; [exact Hl|apply grows_refl].
  - intros e s _ Hne. apply grows_emit; [|apply grows_refl]. destruct e; try done. by destruct (Hne provider env header).
  - intros p priv pub rnd env s Hs _. apply grows_emit; [by eapply kept_secret_seal|apply grows_refl].
  - intros out s. destruct (outside _ _) as [e s1] eqn:E. apply outside_log in E.
    eapply grows_log; [exact E|]. apply grows_emit; [done|apply grows_refl].
Qed.

Section surfaces.
Context {W : Type} `{World W} `{Outside W} `{StreamReads W} `{FrontWorld W} `{Wording} `{MimeLib} `{Jcs} `{HpkeLib}.

(** The log grew by what the client did, and the client kept its secrets. *)
Definition let_out (c : Client) (cx : CallContext) (s s' : fstate W) : Prop :=
  exists l, f_log s' = f_log s ++ map FClient l /\ Forall (kept_secret c cx) l.

Lemma let_out_none c cx s s' : f_log s' = f_log s -> let_out c cx s s'.
Proof. intros E. exists []. by rewrite app_nil_r. Qed.

(** Only the header map was written to. *)
Record headed (s s' : fstate W) : Prop := {
  hd_sent : w_Sent (f_writer s') = w_Sent (f_writer s);
  hd_out : w_Out (f_writer s') = w_Out (f_writer s);
  hd_log : f_log s' = f_log s
}.
Lemma setPassthrough_headed src (s : fstate W) : headed s (setPassthrough src s).
Proof.
  assert (forall (f : string -> fstate W -> fstate W) l (s : fstate W), (forall v s, headed s (f v s)) ->
    headed s (fold_left (fun s v => f v s) l s)) as Hfold.
  { intros f l s0 Hf. revert s0. induction l as [|v l IH]; intros s0; [done|]. cbn [fold_left].
    destruct (Hf v s0) as [E1 E2 E3], (IH (f v s0)) as [E4 E5 E6]. split; congruence. }
  unfold setPassthrough. apply (Hfold (fun name s => fold_left (fun s v => add_header name v s) (header_values src name) s)).
  intros name s0. by apply (Hfold (fun v s => add_header name v s)).
Qed.
Lemma setResKey_headed m (s : fstate W) : headed s (setResKey m s).
Proof. unfold setResKey. destruct m as [[[k ?] ?]|]; [|done]. by destruct (String.eqb k ""). Qed.
Lemma setProvider_headed m (s : fstate W) : headed s (setProvider m s).
Proof. unfold setProvider. destruct m as [[[? p] ?]|]; [|done]. by destruct (String.eqb p ""). Qed.
Lemma setPassthrough_log src (s : fstate W) : f_log (setPassthrough src s) = f_log s.
Proof. apply setPassthrough_headed. Qed.
Lemma setResKey_log m (s : fstate W) : f_log (setResKey m s) = f_log s.
Proof. apply setResKey_headed. Qed.
Lemma setProvider_log m (s : fstate W) : f_log (setProvider m s) = f_log s.
Proof. apply setProvider_headed. Qed.
Lemma writeError_log o err (s : fstate W) : f_log (writeError o err s) = f_log s.
Proof. apply (setPassthrough_log _ s). Qed.
(** The same of a writer's other two fields, through the three of them. *)
Lemma meta_headed m src (s : fstate W) : headed s (setProvider m (setResKey m (setPassthrough src s))).
Proof.
  destruct (setPassthrough_headed src s) as [E1 E2 E3], (setResKey_headed m (setPassthrough src s)) as [E4 E5 E6],
    (setProvider_headed m (setResKey m (setPassthrough src s))) as [E7 E8 E9].
  split; congruence.
Qed.
Lemma stream_header_log m (s : fstate W) : f_log (stream_header m s) = f_log s.
Proof.
  unfold stream_header, write_header, set_header, on_writer. cbn [f_log].
  by rewrite setProvider_log, setResKey_log, setPassthrough_log.
Qed.

Lemma serveStream_out ep c o req r (s : fstate W) : let_out c (call_context r) s (serveStream ep c o req r s).
Proof.
  unfold serveStream. destruct (negb _); [by apply let_out_none|].
  set (call := CompleteStream _ _ _ _ _). destruct call as [res cs] eqn:E.
  apply CompleteStream_secret in E. exists (st_log cs). split; [|exact E]. clear E call.
  set (s1 := f_emit _ _). assert (f_log s1 = f_log s ++ map FClient (st_log cs)) as Hl by done.
  set (s2 := if sv_Wrote _ then _ else s1). assert (f_log s2 = f_log s1) as Hl2.
  { unfold s2, write, on_writer. destruct (sv_Wrote _); [|done]. cbn [f_log]. by rewrite stream_header_log. }
  rewrite <-Hl, <-Hl2. clearbody s2.
  assert (forall (b : bytes) (s2 : fstate W), f_log (let '(e, s) := ask (write_fails b) s2 in match e with Some _ => s | None => write b s end) = f_log s2) as Hw.
  { intros b s3. unfold ask. destruct (write_fails b _) as [[e|] w]; done. }
  destruct res as [[]|err].
  - destruct (ResponseFramesAreTyped _); [|rewrite Hw]; by destruct (sv_Wrote _); rewrite ?stream_header_log.
  - destruct err; try done; (destruct (negb _); [by rewrite writeError_log|cbv zeta; by rewrite Hw]).
Qed.

Lemma client_call_out {A} (call : W -> A * cstate W) c cx (s : fstate W) a log s1 :
  (forall w a cs, call w = (a, cs) -> Forall (kept_secret c cx) (st_log cs)) ->
  client_call call s = (a, log, s1) -> f_log s1 = f_log s ++ map FClient log /\ Forall (kept_secret c cx) log.
Proof.
  unfold client_call. intros Hc. destruct (call (f_world s)) as [x cs] eqn:E. intros [= _ <- <-].
  split; [done|]. by eapply Hc.
Qed.

Lemma Register_out ep c o r (s : fstate W) : let_out c (call_context r) s (Register ep c o r s).
Proof.
  unfold Register. destruct (read_max _ r) as [body|e]; [|by apply let_out_none; destruct e as [[]|]].
  destruct (decode_body _ _ _) as [req|e]; [|by apply let_out_none].
  destruct (streamRequested req) as [stream|]; [|by apply let_out_none].
  destruct (stream && _); [by apply let_out_none|]. destruct (preSeal ep req) as [req'|e]; [|by apply let_out_none].
  destruct stream; [apply serveStream_out|].
  destruct (client_call _ s) as [[res log] s1] eqn:E.
  eapply (client_call_out _ c (call_context r)) in E as [Hl HF].
  2: { intros w a cs Hc%Complete_posts. eapply Forall_impl; [exact Hc|]. intros e. apply sealed_post_secret. }
  exists log. split; [|exact HF]. rewrite <-Hl. destruct res as [resp|err].
  - cbv zeta. unfold write, set_header, on_writer. cbn [f_log]. by rewrite setProvider_log, setResKey_log, setPassthrough_log.
  - destruct err; try done; by rewrite writeError_log.
Qed.

(** A submit that goes to the cleartext handler instead. *)
Definition sent_clear (ep : Endpoint) (r : ServerRequest) : Prop :=
  ep_Async ep = true /\ exists body req, read_max MaxRequestBytes r = Ok body /\
    unmarshal unmarshal_map body = Ok (Some req) /\ wantsURLFormat req = true.

Lemma registerAsync_out ep c o clear r (s : fstate W) :
  ep_Async ep = true ->
  let_out c (call_context r) s (registerAsync ep c o clear r s) \/
  sent_clear ep r /\ exists h, clear = Some h /\ registerAsync ep c o clear r s = h r s.
Proof.
  intros Ha. unfold registerAsync. destruct (read_max _ r) as [body|e] eqn:Eb; [|by left; apply let_out_none; destruct e as [[]|]].
  destruct (unmarshal unmarshal_map body) as [[req|]|] eqn:Em; [|by left; apply let_out_none..].
  destruct (if wantsURLFormat req then clear else None) as [h|] eqn:Ew.
  { right. destruct (wantsURLFormat req) eqn:E; [|done]. split; [split; [done|]; eauto|eauto]. }
  left. destruct (streamRequested req) as [[]|]; [by apply let_out_none| |by apply let_out_none].
  destruct (preSeal ep req) as [req'|e]; [|by apply let_out_none].
  destruct (client_call _ s) as [[res log] s1] eqn:E.
  eapply (client_call_out _ c (call_context r)) in E as [Hl HF].
  2: { intros w a cs Hc%SubmitAsync_posts. eapply Forall_impl; [exact Hc|]. intros e. apply sealed_post_secret. }
  exists log. split; [|exact HF]. rewrite <-Hl. destruct res as [[resp status]|err].
  - cbv zeta. unfold write, write_header, set_header, on_writer. cbn [f_log]. by rewrite setProvider_log, setPassthrough_log.
  - destruct err; try done; by rewrite writeError_log.
Qed.

(** Everything a surface lets out, buffered, streamed or submitted, is kept secret, but
    for a submit asking for urls. *)
Lemma surface_out ep c o clear r (s : fstate W) :
  let_out c (call_context r) s (surface ep c o clear r s) \/
  sent_clear ep r /\ exists h, clear = Some h /\ surface ep c o clear r s = h r s.
Proof.
  unfold surface. destruct (ep_Async ep) eqn:Ea; [by apply registerAsync_out|left; apply Register_out].
Qed.

(** ** A buffered answer *)

Lemma meta_of_app l l' :
  meta_of (l ++ l') = match meta_of l' with Some m => Some m | None => meta_of l end.
Proof.
  unfold meta_of. rewrite fold_left_app. generalize (fold_left (fun m e => match e with EvMeta k p h => Some (k, p, h) | _ => m end) l None).
  intros m. induction l' as [|e l' IH] using rev_ind; [done|]. rewrite !fold_left_app, IH. cbn. by destruct e.
Qed.

(** What the client recorded last is the exchange it returns. *)
Lemma completeOnce_meta c cx req pub priv p (s : cstate W) out s' :
  cx_meta cx = true -> completeOnce c cx req pub priv p s = (Done out, s') ->
  exists k h, meta_of (st_log s') = Some (k, p_Address p, h).
Proof.
  intros Hm. unfold completeOnce. destruct (outside random s) as [rnd s1].
  destruct (seal _ _ _ _ _ _) as [env|err]; [|by destruct err].
  destruct (doRequest _ _ _ _) as [[resp|err] s2]; [|done]. unfold completeResponse, report.
  destruct (negb _); [done|]. destruct (read_all resp); [|done]. destruct (unmarshal _ _); [|done].
  destruct (openSealed _ _ _ _); [|done]. destruct (if verifyEnabled c then _ else _) as [[[]|] s3]; [done|].
  intros [= <- <-]. unfold recordMeta, log_event, metric. rewrite Hm, !emit_log, !meta_of_app.
  exists (header_get (hs_Header resp) headerResKey), (hs_Header resp). by destruct (c_metrics c).
Qed.

Lemma Complete_from c cx req (w : W) out s' :
  cx_meta cx = true -> Complete c cx req w = (Ok out, s') ->
  exists p priv env rnd pub (w0 w1 : W) cands, resolve (c_profile c) req w0 = (Ok cands, w1) /\ offered cands p /\
    seal c p req priv pub rnd = Ok env /\ exchange (W := W) c cx env p priv out /\
    exists k h, meta_of (st_log s') = Some (k, p_Address p, h).
Proof.
  intros Hm. unfold Complete. destruct (outside _ _) as [[cands|err] s1] eqn:E; [|done].
  destruct (outside random s1) as [rnd0 s2]. destruct (GenerateRecipientKey rnd0) as [[priv pub]|] eqn:Eg; [|done].
  intros (p & s3 & Hoff & Hc)%walkLoop_done; [|lia]. pose proof (completeOnce_meta _ _ _ _ _ _ _ _ _ Hm Hc) as Hmeta.
  apply completeOnce_done in Hc as (rnd & env & Hs & Hx). unfold outside in E.
  destruct (resolve _ _ _) as [rr w1] eqn:Er. injection E as -> _. eauto 20.
Qed.

Lemma writeError_gave o err (s s1 : fstate W) :
  w_Sent (f_writer s) = None -> f_writer s1 = f_writer s ->
  gave s (writeError o err s1) (statusFor err) (errorEnvelope o err).
Proof.
  intros Hs E. unfold writeError. destruct (setPassthrough_headed (upstreamHeader err) s1) as [E1 E2 _].
  destruct (writeErrorObject_gave (statusFor err) (errorEnvelope o err) (setPassthrough (upstreamHeader err) s1))
    as [G1 G2]; [by rewrite E1, E|]. split; [exact G1|]. by rewrite G2, E2, E.
Qed.

(** An answer is its provider's. A request to a surface that is not asked to stream is
    refused on the spot, or is prepared by the surface's rule and given to the client: if
    the client fails, the caller gets the error's own status and envelope; if it answers,
    the caller gets 200 and exactly the object that was decrypted from the response to a
    post of that request, sealed to a provider the router offered, and the answer names
    that provider and no other. *)
Theorem buffered_answer ep c o r (s : fstate W) :
  w_Sent (f_writer s) = None ->
  (forall body req, read_max MaxRequestBytes r = Ok body ->
     decode_body ep body (header_get (r_Header r) "Content-Type") = Ok req -> streamRequested req <> Some true) ->
  refused [400; 408; 413] s (Register ep c o r s) \/
  exists body req sealed, read_max MaxRequestBytes r = Ok body /\
    decode_body ep body (header_get (r_Header r) "Content-Type") = Ok req /\ preSeal ep req = Ok sealed /\
    (f_panic (Register ep c o r s) = true \/
     (exists err, (Complete c (call_context r) sealed (f_world s)).1 = Err err /\
        gave s (Register ep c o r s) (statusFor err) (errorEnvelope o err)) \/
     (exists resp p priv env rnd pub (w w' : W) cands,
        status_of (f_writer (Register ep c o r s)) = StatusOK /\
        w_Out (f_writer (Register ep c o r s)) = w_Out (f_writer s) ++ marshal_map resp /\
        resolve (c_profile c) sealed w = (Ok cands, w') /\ offered cands p /\
        seal c p sealed priv pub rnd = Ok env /\ exchange (W := W) c (call_context r) env p priv resp /\
        (p_Address p <> "" ->
         header_get (sent_header (f_writer (Register ep c o r s))) headerProvider = p_Address p))).
Proof.
  intros Hs Hns. unfold Register. destruct (read_max _ r) as [body|e] eqn:Eb.
  2: { left. destruct e as [[]|]; apply WriteError_refused; set_solver. }
  destruct (decode_body _ _ _) as [req|e] eqn:Ed; [|left; apply WriteError_refused; set_solver].
  destruct (streamRequested req) as [[]|] eqn:Est; [by destruct (Hns _ _ eq_refl Ed Est)| |left; apply WriteError_refused; set_solver].
  cbn [andb]. destruct (preSeal ep req) as [sealed|e] eqn:Ep; [|left; apply WriteError_refused; set_solver].
  right. exists body, req, sealed. split_and!; [done|done|done|].
  unfold client_call. destruct (Complete c (call_context r) sealed (f_world s)) as [[resp|err] cs] eqn:Ec.
  - right. right. apply Complete_from in Ec as (p & priv & env & rnd & pub & w & w' & cands & Hres & Hoff & Hsl & Hx & k & h & Hmeta); [|done].
    exists resp, p, priv, env, rnd, pub, w, w', cands. rewrite Hmeta. set (m := Some (k, p_Address p, h)).
    destruct (meta_headed m (meta_header m) (f_emit (map FClient (st_log cs)) (on_f_world (fun _ => st_world cs) s))) as [Hsent Hout _].
    cbn [f_writer f_emit on_f_world] in Hsent, Hout. rewrite Hs in Hsent.
    unfold write, set_header, on_writer, Write, WriteHeader, on_header.
    cbn [f_writer w_Sent w_Out w_Header]. rewrite Hsent. cbn [w_Sent w_Out w_Header status_of sent_header].
    split_and!; [done|by rewrite Hout|done..|]. intros Hne.
    rewrite header_get_set_ne by (by vm_compute). unfold setProvider at 1, m at 1.
    rewrite (proj2 (String.eqb_neq _ _) Hne). apply header_get_set.
  - destruct err; try (by left);
      (right; left; eexists; split; [done|]; by apply (writeError_gave o _ s)).
Qed.
(** ** A streamed answer *)

(** The bytes of one frame ([writeSSEEvent]), of the end mark and of an error event. *)
Definition frame_text (ep : Endpoint) (f : Response) : bytes :=
  sse_text (ok_or "" (ResponseEventName (ep_Profile ep) f)) (marshal_map f).
Definition end_mark : bytes := bytes_of "data: [DONE]" ++ [newline; newline].
Definition error_event (ep : Endpoint) (envelope : gmap string json) : bytes :=
  let typed := ResponseFramesAreTyped (ep_Profile ep) in
  sse_text (if typed then "error" else "") (marshal_map (if typed then <["type" := jstr "error"]> envelope else envelope)).

(** What a step writes: the texts of frames it delivered, in the order it delivered them. *)
Definition wrote (ep : Endpoint) (s s' : cstate (W * serving)) : Prop :=
  exists fs ws, delivered (st_log s') = delivered (st_log s) ++ fs /\ (ws `sublist_of` fs) /\
    sv_Out (st_world s').2 = sv_Out (st_world s).2 ++ concat (map (frame_text ep) ws) /\
    (sv_Wrote (st_world s').2 = false -> sv_Wrote (st_world s).2 = false /\ ws = []) /\
    (sv_Wrote (st_world s').2 = true -> sv_Wrote (st_world s).2 = true \/ fs <> []).

Lemma wrote_trans ep s1 s2 s3 : wrote ep s1 s2 -> wrote ep s2 s3 -> wrote ep s1 s3.
Proof.
  intros (f1 & w1 & D1 & S1 & O1 & W1 & V1) (f2 & w2 & D2 & S2 & O2 & W2 & V2). exists (f1 ++ f2), (w1 ++ w2). split_and!.
  - by rewrite D2, D1, app_assoc.
  - by apply sublist_app.
  - by rewrite O2, O1, map_app, concat_app, app_assoc.
  - intros E. destruct (W2 E) as [E' ->]. by destruct (W1 E') as [E'' ->].
  - intros E. destruct (V2 E) as [[?|Hne]%V1|Hne]; [by left|right; by destruct f1|right; by destruct f1, f2].
Qed.
Lemma wrote_none ep s s' :
  delivered (st_log s') = delivered (st_log s) -> (st_world s').2 = (st_world s).2 -> wrote ep s s'.
Proof.
  intros D E. exists [], []. split_and!; [by rewrite app_nil_r|done|by rewrite E, app_nil_r|by rewrite E|rewrite E; by left].
Qed.

Lemma lifted_quiet {A} (call : W -> A * W) ws : (lifted call ws).2.2 = ws.2.
Proof. unfold lifted. by destruct (call ws.1). Qed.

Lemma serve_frame_wrote ep out (s : cstate (W * serving)) :
  wrote ep s (outside (serve_frame ep out) (log_event (EvDeliver out) s)).2.
Proof.
  destruct (outside _ _) as [e s1] eqn:E. pose proof E as Hl. apply outside_log in Hl. cbn [snd].
  assert (delivered (st_log s1) = delivered (st_log s) ++ [out]) as Hd
    by (rewrite Hl; unfold log_event; by rewrite emit_log, delivered_app).
  unfold outside in E. destruct (serve_frame _ _ _) as [e' ws'] eqn:Ef. injection E as <- <-. cbn [st_world].
  unfold serve_frame in Ef. destruct (ResponseEventName _ _) as [name|err] eqn:En.
  2: { exists [out], []. injection Ef as <- <-. split_and!; [exact Hd|apply sublist_nil_l|by rewrite app_nil_r|done|by left]. }
  destruct (write_fails _ _) as [[err|] w']; injection Ef as <- <-.
  - exists [out], []. split_and!; [exact Hd|apply sublist_nil_l|by rewrite app_nil_r|done|by right].
  - exists [out], [out]. split_and!; [exact Hd|done| |done|by right]. cbn [concat map]. unfold frame_text. rewrite En. cbn [ok_or]. by rewrite app_nil_r.
Qed.

Lemma CompleteStream_wrote ep c cx req ws r s' :
  CompleteStream (W := W * serving) (H := serving_world) (H0 := serving_outside) (H1 := serving_reads)
    c cx (serve_frame ep) req ws = (r, s') ->
  wrote ep (MkState ws (MkWalk 0 (c_resolveBudgetTO c)) noErr []) s'.
Proof.
  intros Hc. eapply (CompleteStream_rel (W := W * serving) (H := serving_world) (H0 := serving_outside)
    (H1 := serving_reads) c cx (serve_frame ep) (fun a b => b.2 = a.2) (wrote ep) req) in Hc; [exact Hc|]. split.
  - intros q w. apply lifted_quiet.
  - done.
  - intros w. apply lifted_quiet.
  - intros p k w. apply lifted_quiet.
  - intros resp i w. apply lifted_quiet.
  - intros w cands w'. cbn. unfold lifted. destruct (resolve _ _ _) as [[cs|] w1]; intros [= <- _]. split.
    + intros t i w2. apply lifted_quiet.
    + intros kr. cbn. destruct (cd_RefreshProvider cs); intros [= <-] t i k w2. apply lifted_quiet.
  - intros w. cbn. unfold lifted. by destruct (resolve _ _ _).
  - done.
  - apply wrote_trans.
  - intros s s1 El E. apply wrote_none; [by rewrite El|done].
  - intros e s He _. apply wrote_none; [|done]. by apply delivered_emit.
  - intros p priv pub rnd env s _ _. apply wrote_none; [|done]. by apply delivered_emit.
  - intros out s. apply serve_frame_wrote.
Qed.
(** The exchange a streamed call was served from, or none. *)
Definition streamed_from (c : Client) (cx : CallContext) (req : Request) (outs : list Response) (whole : Prop) : Prop :=
  exists (w w' : W) cands p priv pub rnd env frames,
    resolve (c_profile c) req w = (Ok cands, w') /\ offered cands p /\
    seal c p req priv pub rnd = Ok env /\ stream_exchange (W := W) c cx env p priv frames outs /\
    (whole -> stream_complete (W := W) c env p frames).

Lemma streamed_down ep c cx req (w : W) r cs :
  (forall b w e, (write_fails b w).1 = Some e -> isKeyMismatch e = false) ->
  CompleteStream (W := W * serving) (H := serving_world) (H0 := serving_outside) (H1 := serving_reads)
    c cx (serve_frame ep) req (w, MkServing [] false) = (r, cs) ->
  (delivered (st_log cs) = [] /\ r <> Ok tt) \/ streamed_from c cx req (delivered (st_log cs)) (r = Ok tt).
Proof.
  intros Hw Hc. apply CompleteStream_delivers in Hc as [Hn|Hx].
  { by left. }
  - right. destruct Hx as (w0 & w1 & cands & p & rnd0 & priv & pub & rnd & env & frames & Hres & Hoff & _ & Hs & Hx & Hcomp).
    cbn in Hres. unfold lifted in Hres. destruct (resolve _ _ _) as [[cs0|] w2] eqn:Er; [|done]. injection Hres as <- <-.
    exists w0.1, w2, cs0, p, priv, pub, rnd, env, frames. split_and!; [done| |done| |].
    + destruct Hoff as [(t & i & [u1 s1] & [u2 s2] & Hi & Hp)|(kr & t & i & k & [u1 s1] & [u2 s2] & Hkr & Hp & Hk)].
      * left. exists t, i, u1, u2. cbn in Hp. unfold lifted in Hp. cbn in Hp.
        destruct (cd_Provider _ _ _ _). by injection Hp as -> ->.
      * cbn in Hkr. destruct (cd_RefreshProvider cs0) as [kr0|] eqn:Ek; [|done]. injection Hkr as <-.
        right. exists kr0, t, i, k, u1, u2. unfold lifted in Hp. cbn in Hp.
        destruct (kr0 _ _ _ _). by injection Hp as -> ->.
    + destruct Hx as [(u1 & u2 & resp & read & Hh & Hrest) Hop]. split; [|exact Hop].
      cbn in Hh. unfold lifted in Hh. destruct (http_do _ _) as [a b] eqn:Ehd. injection Hh as -> _. eauto 10.
    + intros Hr. destruct (Hcomp Hr) as [Hf Hv]. split; [done|]. intros He.
      destruct (Hv He) as (u1 & u2 & k & sg & Hsg & Hver). cbn in Hsg. unfold lifted in Hsg.
      destruct (fetch_signature _ _ _) as [a b] eqn:Ehd. injection Hsg as -> _. eauto 10.
  - intros f [u sv] e. unfold serve_frame. destruct (ResponseEventName _ _) as [name|]; [|by intros [= <-]].
    cbn [fst]. specialize (Hw (sse_text name (marshal_map f)) u). destruct (write_fails _ u) as [x u']. apply Hw.
Qed.
(** Where a stream's answer stands: begun with 200, [b] written since. *)
Definition begun (s s' : fstate W) (b : bytes) : Prop :=
  (exists h, w_Sent (f_writer s') = Some (StatusOK, h)) /\ w_Out (f_writer s') = w_Out (f_writer s) ++ b.

Lemma stream_header_begun meta (s s1 : fstate W) :
  w_Sent (f_writer s) = None -> f_writer s1 = f_writer s -> begun s (stream_header meta s1) [].
Proof.
  intros Hs E. destruct (meta_headed meta (meta_header meta) s1) as [E1 E2 _]. rewrite E in E1, E2.
  unfold stream_header, write_header, set_header, on_writer, on_header, WriteHeader. cbn [f_writer w_Sent w_Out w_Header].
  rewrite E1, Hs. split; cbn [w_Sent w_Out]; [eauto|by rewrite E2, app_nil_r].
Qed.
Lemma write_begun (s s1 : fstate W) b b' : begun s s1 b -> begun s (write b' s1) (b ++ b').
Proof.
  intros [[h Hh] Ho]. unfold write, on_writer, Write, WriteHeader. rewrite Hh. cbn [f_writer w_Sent w_Out w_Header].
  split; cbn [f_writer w_Sent w_Out]; [rewrite Hh; eauto|by rewrite Ho, app_assoc].
Qed.
(** One more event, if the caller is still there. *)
Lemma event_begun (s s1 : fstate W) b b' :
  begun s s1 b ->
  let s2 := let '(e, s) := ask (write_fails b') s1 in match e with Some _ => s | None => write b' s end in
  exists tail, begun s s2 (b ++ tail) /\ (tail = [] \/ tail = b').
Proof.
  intros Hb. unfold ask. destruct (write_fails _ _) as [[e|] w].
  - exists []. rewrite app_nil_r. split; [exact Hb|by left].
  - exists b'. split; [by apply (write_begun s)|by right].
Qed.

Lemma streamed_weaken c cx req outs (whole whole' : Prop) :
  (whole' -> whole) -> streamed_from c cx req outs whole -> streamed_from c cx req outs whole'.
Proof.
  intros Hw (w & w' & cands & p & priv & pub & rnd & env & frames & ? & ? & ? & ? & Hc).
  exists w, w', cands, p, priv, pub, rnd, env, frames. split_and!; auto.
Qed.

(** A stream as its caller sees it: the frames [ws] of those delivered, then at most one
    closing event, the end mark if the stream was whole and an error if it was cut. *)
Definition stream_seen (ep : Endpoint) (c : Client) (o : options) (cx : CallContext) (req : Request)
    (s s' : fstate W) : Prop :=
  exists outs ws tail whole,
    streamed_from c cx req outs (whole = true) /\ (ws `sublist_of` outs) /\
    status_of (f_writer s') = StatusOK /\
    w_Out (f_writer s') = w_Out (f_writer s) ++ concat (map (frame_text ep) ws) ++ tail /\
    (tail = [] \/
     if whole then ResponseFramesAreTyped (ep_Profile ep) = false /\ tail = end_mark
     else exists err, tail = error_event ep (errorEnvelope o err)).

Section seen.
Context (ep : Endpoint) (c : Client) (o : options) (cx : CallContext) (req : Request) (s : fstate W).
Context (fs ws : list Response) (Hws : sublist ws fs).

Lemma begun_seen s2 tail (whole : bool) :
  streamed_from c cx req fs (whole = true) -> begun s s2 (concat (map (frame_text ep) ws) ++ tail) ->
  (tail = [] \/
   if whole then ResponseFramesAreTyped (ep_Profile ep) = false /\ tail = end_mark
   else exists err, tail = error_event ep (errorEnvelope o err)) ->
  stream_seen ep c o cx req s s2.
Proof. intros Hsf [[h Hh] Ho] Ht. exists fs, ws, tail, whole. unfold status_of. rewrite Hh. by split_and!. Qed.

(** The end of a stream that was begun. *)
Lemma end_seen s2 (res : cresult unit) :
  streamed_from c cx req fs (res = Ok tt) -> begun s s2 (concat (map (frame_text ep) ws)) ->
  let event b s := let '(e, s) := ask (write_fails b) s in match e with Some _ => s | None => write b s end in
  match res with
  | Ok _ => stream_seen ep c o cx req s (if ResponseFramesAreTyped (ep_Profile ep) then s2 else event end_mark s2)
  | Err err => stream_seen ep c o cx req s (event (error_event ep (errorEnvelope o err)) s2)
  end.
Proof.
  intros Hsf Hb. cbv zeta. destruct res as [[]|err].
  - apply (streamed_weaken _ _ _ _ _ (true = true)) in Hsf; [|done]. destruct (ResponseFramesAreTyped _) eqn:Et.
    + eapply begun_seen; [exact Hsf|rewrite app_nil_r; exact Hb|by left].
    + destruct (event_begun s s2 _ end_mark Hb) as (tail & Hb' & Ht).
      eapply begun_seen; [exact Hsf|exact Hb'|destruct Ht; [by left|by right]].
  - apply (streamed_weaken _ _ _ _ _ (false = true)) in Hsf; [|done].
    destruct (event_begun s s2 _ (error_event ep (errorEnvelope o err)) Hb) as (tail & Hb' & Ht).
    eapply begun_seen; [exact Hsf|exact Hb'|destruct Ht; [by left|right; by exists err]].
Qed.
End seen.

(** C12: a stream is its provider's. A caller that streams gets a panic's nothing, or the
    error's own status and envelope when no frame was begun, or status 200 and then, in
    the order of delivery, the texts of frames opened from the response to one post, sealed
    to a provider the router offered; after them comes at most one closing event, an error
    or the end mark, and the end mark only when that provider's stream was whole: its final
    frame came and, when responses are verified, its signer signed exactly that request
    and those frames. *)
Theorem streamed_answer ep c o req r (s : fstate W) :
  flushes (f_world s) = true -> w_Sent (f_writer s) = None ->
  (forall b w e, (write_fails b w).1 = Some e -> isKeyMismatch e = false) ->
  let s' := serveStream ep c o req r s in
  f_panic s' = true \/ (exists err, gave s s' (statusFor err) (errorEnvelope o err)) \/
  stream_seen ep c o (call_context r) req s s'.
Proof.
  intros Hf Hs Hwe. cbv zeta. unfold serveStream. rewrite Hf. cbn [negb]. set (call := CompleteStream _ _ _ _ _).
  destruct call as [res cs] eqn:E. pose proof E as Ed. apply streamed_down in Ed; [|exact Hwe].
  apply CompleteStream_wrote in E as (fs & ws & D & S & O & W0 & W1). clear call.
  cbn [st_log delivered omap app st_world snd sv_Out sv_Wrote] in D, O, W0, W1.
  change (delivered (st_log cs) = fs) in D. rewrite D in Ed.
  set (s1 := f_emit _ _). assert (f_writer s1 = f_writer s) as Es1 by done. clearbody s1.
  pose proof (stream_header_begun (meta_of (st_log cs)) s s1 Hs Es1) as Hb. destruct (sv_Wrote (st_world cs).2).
  - apply write_begun with (b' := sv_Out (st_world cs).2) in Hb. rewrite O in Hb |- *. cbn [app] in Hb |- *.
    destruct Ed as [[-> _]|Hsf]; [by destruct (W1 eq_refl) as [|]|].
    pose proof (end_seen ep c o _ req s fs ws S _ res Hsf Hb) as Hseen.
    destruct res as [[]|err]; [right; right; exact Hseen|]. destruct err; try (by left); right; right; exact Hseen.
  - destruct (W0 eq_refl) as [_ ->]. destruct res as [[]|err].
    + destruct Ed as [[_ []]|Hsf]; [done|]. right. right. exact (end_seen ep c o _ req s fs [] S _ (Ok tt) Hsf Hb).
    + destruct err; try (by left); right; left; (eexists; by apply (writeError_gave o _ s)).
Qed.
End surfaces.

(** ** Witnesses *)

Module ServingWitness.
Import EnvelopeWitness ResponseWitness RespBindWitness ClientWitness StreamWitness.
#[export] Existing Instances FrontWitness.words FrontWitness.floor.
#[export] Existing Instance ClientWitness.clock.
#[export] Instance no_forms : MimeLib := {| ParseMediaType _ := None; multipart_parts _ _ := [] |}.

Definition buffered : Request := <["stream" := JBool false]> (chat "hi").
Definition post : ServerRequest :=
  MkServerRequest "POST" "/v1/chat/completions" "" ""
    (header_set "Content-Type" "application/json" (header_set "Authorization" "Bearer token" ∅))
    [(0, marshal_map buffered)] (0, None) ∅.
Definition fresh : fstate Z := MkF 0 new_writer [] false false.
Definition quiet_options : options := MkOptions false.

Lemma post_body body req :
  read_max MaxRequestBytes post = Ok body ->
  decode_body Chat body (header_get (r_Header post) "Content-Type") = Ok req -> streamRequested req <> Some true.
Proof.
  assert (read_max MaxRequestBytes post = Ok (marshal_map buffered)) as -> by (vm_compute; reflexivity).
  intros [= <-].
  assert (decode_body Chat (marshal_map buffered) (header_get (r_Header post) "Content-Type") = Ok (compact <$> buffered))
    as -> by (vm_compute; reflexivity).
  intros [= <-]. vm_compute. discriminate.
Qed.

Example answered :
  let w := f_writer (Register (H0 := toy) Chat client quiet_options post fresh) in
  status_of w = 200 /\ w_Out w = marshal_map (compact <$> answer) /\
  header_get (sent_header w) headerProvider = "0xprovider".
Proof. vm_cast_no_check (conj (eq_refl 200) (conj (eq_refl (marshal_map (compact <$> answer))) (eq_refl "0xprovider"))). Qed.
Example streamed :
  let w := f_writer (serveStream (H0 := streaming) Chat client quiet_options request post fresh) in
  status_of w = 200 /\
  w_Out w = concat (map (frame_text Chat) [compact <$> answer; compact <$> answer]) ++ end_mark.
Proof.
  vm_cast_no_check (conj (eq_refl 200)
    (eq_refl (concat (map (frame_text Chat) [compact <$> answer; compact <$> answer]) ++ end_mark))).
Qed.
End ServingWitness.

Section witnesses.
Import EnvelopeWitness ResponseWitness RespBindWitness ClientWitness StreamWitness ServingWitness.

Lemma buffered_answer_witness :
  refused [400; 408; 413] fresh (Register (H0 := toy) Chat client quiet_options post fresh) \/
  exists body req sealed, read_max MaxRequestBytes post = Ok body /\
    decode_body Chat body (header_get (r_Header post) "Content-Type") = Ok req /\ preSeal Chat req = Ok sealed.
Proof.
  destruct (buffered_answer (H0 := toy) Chat client quiet_options post fresh eq_refl post_body)
    as [Hr|(body & req & sealed & Hb & Hd & Hp & _)].
  - exact (or_introl Hr).
  - exact (or_intror (ex_intro _ body (ex_intro _ req (ex_intro _ sealed (conj Hb (conj Hd Hp)))))).
Defined.

Lemma streamed_answer_witness :
  let s' := serveStream (H0 := streaming) Chat client quiet_options request post fresh in
  f_panic s' = true \/ (exists err, gave fresh s' (statusFor err) (errorEnvelope quiet_options err)) \/
  stream_seen (H0 := streaming) Chat client quiet_options (call_context post) request fresh s'.
Proof.
  refine (streamed_answer (H0 := streaming) Chat client quiet_options request post fresh eq_refl eq_refl _).
  intros b w e. discriminate.
Defined.
End witnesses.
