(* ===== verification/Catalog.v ===== *)
(** * Catalog: the gateway's cache of public reads ([client/cmd/gateway/catalogcache.go])

    A single-flight cache in front of the cleartext proxy. An entry is shared by the
    reader that leads (it sends the one request upstream), by the readers that wait for
    it and by the map it is published in, so entries live in a store and the maps hold
    their names. [recorder] is the response writer the leader's handler writes to.
    [acquire] and [settle] are critical sections; [cat_step] lets the goroutines of a
    server interleave them, and [wrap] composes them for one request.

    The theorems: what the cache keeps in every state it can reach ([catalog_invariant]);
    that what a reader is replayed is an answer the router gave to that very question
    ([replay_honest]); that the leader's own client sees what it would have without the
    cache ([leader_unaffected]). *)

From Stdlib Require Import SpecFloat.
From S2P Require Import Prelude GoBytes GoDecode GoUrl GoText GoHttp GoServe Walk Front.

Definition cacheableCatalogPaths : list string :=
  ["/v1/models"; "/v1/providers"; "/v1/service-types"; "/status"; "/status/blockchain"; "/v1/stats/usage";
   "/v1/stats/summary"; "/v1/stats/activity"; "/v1/apps/top"; "/tkx-usage.json"].
(** Ten seconds, in nanoseconds. *)
Definition defaultCatalogCacheTTL : Z := 10000000000.
Definition catalogCacheMaxEntries : nat := 256.
Definition catalogCacheMaxBody : Z := 8388608.

(** [strconv.ParseFloat]. *)
Class FloatLib := { ParseFloat : string -> option f64 }.

(** ** What a handler does to its response writer *)

Inductive wop := OSet (k v : string) | OAdd (k v : string) | OStatus (code : Z) | OWrite (b : bytes).
Definition run_op (w : Writer) (o : wop) : Writer :=
  match o with
  | OSet k v => on_header (header_set k v) w
  | OAdd k v => on_header (header_add k v) w
  | OStatus code => WriteHeader code w
  | OWrite b => Write b w
  end.
Definition run_ops (l : list wop) (w : Writer) : Writer := fold_left run_op l w.

(** What a handler did, and whether it panicked after it. *)
Record answered := MkAnswered { an_ops : list wop; an_panic : bool }.

(** Every value of a header, added to another. *)
Definition add_all (src dst : Header) : Header :=
  map_fold (fun name vs dst => fold_left (fun h v => header_add name v h) vs dst) dst src.

(** ** The recorder *)

Record recorder := MkRecorder {
  rc_w : Writer; rc_limit : Z; rc_header : Header; rc_status : Z; rc_buf : bytes;
  rc_overflow : bool; rc_flushed : bool
}.
Definition newCatalogRecorder (w : Writer) (limit : Z) : recorder := MkRecorder w limit ∅ 0 [] false false.

Definition on_rc_header (f : Header -> Header) (rc : recorder) : recorder :=
  MkRecorder (rc_w rc) (rc_limit rc) (f (rc_header rc)) (rc_status rc) (rc_buf rc) (rc_overflow rc) (rc_flushed rc).
Definition rc_WriteHeader (status : Z) (rc : recorder) : recorder :=
  if rc_status rc =? 0
  then MkRecorder (rc_w rc) (rc_limit rc) (rc_header rc) status (rc_buf rc) (rc_overflow rc) (rc_flushed rc)
  else rc.
Definition rc_Write (p : bytes) (rc : recorder) : recorder :=
  let rc := if rc_status rc =? 0 then rc_WriteHeader StatusOK rc else rc in
  if rc_overflow rc then
    MkRecorder (Write p (rc_w rc)) (rc_limit rc) (rc_header rc) (rc_status rc) (rc_buf rc) true (rc_flushed rc)
  else if rc_limit rc <? Z.of_nat (length (rc_buf rc)) + Z.of_nat (length p) then
    let w := WriteHeader (rc_status rc) (on_header (add_all (rc_header rc)) (rc_w rc)) in
    MkRecorder (Write p (Write (rc_buf rc) w)) (rc_limit rc) (rc_header rc) (rc_status rc) [] true true
  else MkRecorder (rc_w rc) (rc_limit rc) (rc_header rc) (rc_status rc) (rc_buf rc ++ p) false (rc_flushed rc).
Definition rc_flush (rc : recorder) : recorder :=
  if rc_flushed rc then rc
  else
    let rc := if rc_status rc =? 0 then rc_WriteHeader StatusOK rc else rc in
    let w := WriteHeader (rc_status rc) (on_header (add_all (rc_header rc)) (rc_w rc)) in
    MkRecorder (Write (rc_buf rc) w) (rc_limit rc) (rc_header rc) (rc_status rc) (rc_buf rc) (rc_overflow rc) true.
Definition rec_op (rc : recorder) (o : wop) : recorder :=
  match o with
  | OSet k v => on_rc_header (header_set k v) rc
  | OAdd k v => on_rc_header (header_add k v) rc
  | OStatus code => rc_WriteHeader code rc
  | OWrite b => rc_Write b rc
  end.

Definition bodyIsWhole (rc : recorder) : bool :=
  let declared := header_get (rc_header rc) "Content-Length" in
  if String.eqb declared "" then true
  else match Atoi (bytes_of declared) with
       | None => true
       | Some n => n =? Z.of_nat (length (rc_buf rc))
       end.

(** The leader's handler run on a recorder, flushed if it came to its end. *)
Definition recorded (w : Writer) (a : answered) : recorder :=
  let rc := fold_left rec_op (an_ops a) (newCatalogRecorder w catalogCacheMaxBody) in
  if an_panic a then rc else rc_flush rc.

(** ** The cache *)

Record catalogEntry := MkEntry {
  ce_ready : bool; ce_status : Z; ce_header : Header; ce_body : bytes; ce_bypass : bool; ce_expires : Z
}.
Definition newEntry : catalogEntry := MkEntry false 0 ∅ [] false 0.

(** [cc_store] holds every entry made, by name; the maps hold names, as the code's hold
    pointers. *)
Record catalogCache := MkCatalog {
  cc_ttl : Z;
  cc_inflight : gmap string nat;
  cc_entries : gmap string nat;
  cc_store : gmap nat catalogEntry;
  cc_next : nat
}.
Definition newCatalogCache (ttl : Z) : option catalogCache :=
  if ttl <=? 0 then None else Some (MkCatalog ttl ∅ ∅ ∅ 0).

Definition entry_of (id : nat) (c : catalogCache) : catalogEntry := default newEntry (cc_store c !! id).

(** The entry to use, and whether it is the caller's to fill. *)
Definition acquire (key : string) (now : Z) (c : catalogCache) : (nat * bool) * catalogCache :=
  match cc_inflight c !! key with
  | Some id => ((id, false), c)
  | None =>
      let lead (entries : gmap string nat) :=
        ((cc_next c, true), MkCatalog (cc_ttl c) (<[key := cc_next c]> (cc_inflight c)) entries
                              (<[cc_next c := newEntry]> (cc_store c)) (S (cc_next c))) in
      match cc_entries c !! key with
      | Some id => if now <? ce_expires (entry_of id c) then ((id, false), c) else lead (delete key (cc_entries c))
      | None => lead (cc_entries c)
      end
  end.

Definition evictExpiredLocked (now : Z) (c : catalogCache) : gmap string nat :=
  filter (fun kv => (now <? ce_expires (entry_of kv.2 c)) = true) (cc_entries c).

Definition replayableCatalogHeaders : list string :=
  ["Content-Type"; "Content-Encoding"; "Vary"; "Cache-Control"; "ETag"; "Last-Modified"].
Definition snapshotCatalogHeader (h : Header) : Header :=
  fold_left (fun out name => match header_values h name with [] => out | v => <[name := v]> out end)
    replayableCatalogHeaders ∅.

Definition replayable (rc : recorder) (completed : bool) : bool :=
  completed && negb (rc_overflow rc) && negb (rc_status rc =? 0) && bodyIsWhole rc.
Definition settled (rc : recorder) (completed : bool) (e : catalogEntry) : catalogEntry :=
  if replayable rc completed
  then MkEntry (ce_ready e) (rc_status rc) (snapshotCatalogHeader (rc_header rc)) (rc_buf rc) (ce_bypass e) (ce_expires e)
  else MkEntry (ce_ready e) (ce_status e) (ce_header e) (ce_body e) true (ce_expires e).
Definition expiring (t : Z) (e : catalogEntry) : catalogEntry :=
  MkEntry (ce_ready e) (ce_status e) (ce_header e) (ce_body e) (ce_bypass e) t.

Definition settle (key : string) (id : nat) (rc : recorder) (completed : bool) (now : Z) (c : catalogCache)
    : catalogCache :=
  let e := settled rc completed (entry_of id c) in
  let c := MkCatalog (cc_ttl c) (delete key (cc_inflight c)) (cc_entries c) (<[id := e]> (cc_store c)) (cc_next c) in
  if replayable rc completed && (rc_status rc =? StatusOK) then
    let entries := if Nat.leb catalogCacheMaxEntries (size (cc_entries c)) then evictExpiredLocked now c
                   else cc_entries c in
    if Nat.ltb (size entries) catalogCacheMaxEntries then
      MkCatalog (cc_ttl c) (cc_inflight c) (<[key := id]> entries)
        (<[id := expiring (now + cc_ttl c) e]> (cc_store c)) (cc_next c)
    else MkCatalog (cc_ttl c) (cc_inflight c) entries (cc_store c) (cc_next c)
  else c.

(** [close(e.ready)]. *)
Definition close_ready (id : nat) (c : catalogCache) : catalogCache :=
  let e := entry_of id c in
  MkCatalog (cc_ttl c) (cc_inflight c) (cc_entries c)
    (<[id := MkEntry true (ce_status e) (ce_header e) (ce_body e) (ce_bypass e) (ce_expires e)]> (cc_store c)) (cc_next c).

(** ** One request *)

Definition acceptsGzip `{FloatLib} (accept : string) : bool :=
  (fix part (l : list bytes) : bool :=
     match l with
     | [] => false
     | p :: l =>
         let p := bytes_of (trim_space (str_of p)) in
         let '(coding, params) := match split_first ";" p with Some cp => cp | None => (p, []) end in
         if negb (equal_fold (trim_space (str_of coding)) "gzip") then part l
         else (fix param (l : list bytes) : bool :=
                 match l with
                 | [] => true
                 | q :: l =>
                     match split_first "=" (bytes_of (trim_space (str_of q))) with
                     | Some (name, value) =>
                         if equal_fold (trim_space (str_of name)) "q" then
                           match ParseFloat (trim_space (str_of value)) with
                           | None => true
                           | Some q => SFltb (S754_zero false) q
                           end
                         else param l
                     | None => param l
                     end
                 end) (split_on ";" params)
     end) (split_on "," (bytes_of accept)).

(** The question an answer is kept for, and the request that asks it. *)
Definition catalog_key `{FloatLib} (r : ServerRequest) : string :=
  r_Path r +:+ "?" +:+ r_RawQuery r +:+
  (if acceptsGzip (header_get (r_Header r) "Accept-Encoding") then str_of (byte_of 0 :: bytes_of "gzip") else "").
Definition catalog_request `{FloatLib} (r : ServerRequest) : ServerRequest :=
  let h := r_Header r in
  with_Header (if acceptsGzip (header_get h "Accept-Encoding") then header_set "Accept-Encoding" "gzip" h
               else header_del "Accept-Encoding" h) r.

Definition replayCatalog (e : catalogEntry) (w : Writer) : Writer :=
  Write (ce_body e) (WriteHeader (ce_status e) (on_header (add_all (ce_header e)) w)).

(** The cache of a server, and the wait of a reader for an entry another one fills: the
    other goroutines move in between, until it is ready or the client gives up. *)
Class CatalogWorld (W : Type) := {
  catalog : W -> catalogCache;
  set_catalog : catalogCache -> W -> W;
  await : nat -> W -> bool * W
}.

Section serve.
Context {W : Type} `{World W} `{CatalogWorld W} `{FloatLib}.

(** A handler by what it does to the writer it is given. *)
Abbreviation Source := (ServerRequest -> fstate W -> answered * fstate W).
Definition serve (next : Source) : Handler W := fun r s =>
  let '(a, s) := next r s in
  let s := on_writer (run_ops (an_ops a)) s in
  if an_panic a then panic s else s.

Definition fill (key : string) (id : nat) (next : Source) : Handler W := fun r s =>
  let '(a, s) := next r s in
  let rc := recorded (f_writer s) a in
  let s := on_writer (fun _ => rc_w rc) s in
  let s := on_f_world (fun w => set_catalog (close_ready id
             (settle key id rc (negb (an_panic a)) (now w) (catalog w))) w) s in
  if an_panic a then panic s else s.

(** Without a cache, [next] as it is. The leader's request upstream is its own, and does
    not end with its client's. *)
Definition wrap (cached : bool) (next : Source) : Handler W :=
  if negb cached then serve next
  else fun r s =>
    if negb (String.eqb (r_Method r) "GET") || negb (contains cacheableCatalogPaths (r_Path r)) then serve next r s
    else
      let key := catalog_key r in
      let r := catalog_request r in
      let '((id, leader), c) := acquire key (now (f_world s)) (catalog (f_world s)) in
      let s := on_f_world (set_catalog c) s in
      if leader then fill key id next r s
      else
        let '(ready, s) := if ce_ready (entry_of id c) then (true, s) else ask (await id) s in
        if negb ready then s
        else let e := entry_of id (catalog (f_world s)) in
             if ce_bypass e then serve next r s else on_writer (replayCatalog e) s.
End serve.

(** ** The goroutines of a server *)

Inductive happening :=
| HLead (id : nat) (key : string) (t : Z)
| HSettle (id : nat) (key : string) (t : Z) (a : answered)
| HReplay (id : nat) (key : string) (asked : Z) (e : catalogEntry)
| HBypass (id : nat) (key : string).

(** [gs_leading]: the requests upstream, by the entry each fills; [gs_closing]: entries
    settled and not announced yet; [gs_waiting]: readers parked on an entry, with the
    question and when they asked it. *)
Record server := MkServer {
  gs_now : Z;
  gs_cache : catalogCache;
  gs_leading : gmap nat string;
  gs_closing : gset nat;
  gs_waiting : list (nat * string * Z);
  gs_past : list happening
}.

Definition outcome (a : answered) : recorder * bool := (recorded new_writer a, negb (an_panic a)).

(** A status on the wire is not zero. *)
Definition valid_op (o : wop) : Prop := match o with OStatus code => 100 <= code | _ => True end.

Inductive cat_step : server -> server -> Prop :=
| step_lead now c c' id key leading closing waiting past :
    acquire key now c = ((id, true), c') ->
    cat_step (MkServer now c leading closing waiting past)
      (MkServer now c' (<[id := key]> leading) closing waiting (past ++ [HLead id key now]))
| step_join now c c' id key leading closing waiting past :
    acquire key now c = ((id, false), c') ->
    cat_step (MkServer now c leading closing waiting past)
      (MkServer now c' leading closing (waiting ++ [(id, key, now)]) past)
| step_settle now c id key a leading closing waiting past :
    leading !! id = Some key -> Forall valid_op (an_ops a) ->
    cat_step (MkServer now c leading closing waiting past)
      (MkServer now (settle key id (outcome a).1 (outcome a).2 now c) (delete id leading)
         ({[ id ]} ∪ closing) waiting (past ++ [HSettle id key now a]))
| step_close now c id leading closing waiting past :
    id ∈ closing ->
    cat_step (MkServer now c leading closing waiting past)
      (MkServer now (close_ready id c) leading (closing ∖ {[ id ]}) waiting past)
| step_wake now c id key asked leading closing w1 w2 past :
    ce_ready (entry_of id c) = true ->
    cat_step (MkServer now c leading closing (w1 ++ (id, key, asked) :: w2) past)
      (MkServer now c leading closing (w1 ++ w2)
         (past ++ [if ce_bypass (entry_of id c) then HBypass id key else HReplay id key asked (entry_of id c)]))
| step_leave now c x leading closing w1 w2 past :
    cat_step (MkServer now c leading closing (w1 ++ x :: w2) past)
      (MkServer now c leading closing (w1 ++ w2) past)
| step_tick now d c leading closing waiting past :
    0 <= d ->
    cat_step (MkServer now c leading closing waiting past)
      (MkServer (now + d) c leading closing waiting past).

Definition idle_server (ttl now : Z) : server := MkServer now (MkCatalog ttl ∅ ∅ ∅ 0) ∅ ∅ [] [].
Inductive cat_reach (ttl now : Z) : server -> Prop :=
| reach_idle : cat_reach ttl now (idle_server ttl now)
| reach_step s s' : cat_reach ttl now s -> cat_step s s' -> cat_reach ttl now s'.

(** ** What the recorder holds *)

Lemma run_ops_sent l w s : w_Sent w = Some s -> w_Sent (run_ops l w) = Some s.
Proof.
  revert w. induction l as [|o l IH]; intros w Hw; [done|]. apply IH.
  destruct o; cbn; unfold Write, WriteHeader; by rewrite ?Hw.
Qed.

(** [rc], after some writes onto [w], when a plain writer would be at [p]. *)
Record tracks (w : Writer) (limit : Z) (rc : recorder) (p : Writer) : Prop := {
  tk_limit : rc_limit rc = limit;
  tk_header : rc_header rc = w_Header p;
  tk_sent : match w_Sent p with
            | Some (code, _) => 100 <= code /\ rc_status rc = code
            | None => rc_status rc = 0 /\ rc_overflow rc = false /\ w_Out p = []
            end;
  tk_out : if rc_overflow rc
           then rc_flushed rc = true /\ limit < Z.of_nat (length (w_Out p)) /\
                w_Out (rc_w rc) = w_Out w ++ w_Out p /\
                exists h, w_Sent (rc_w rc) = Some (rc_status rc, h)
           else rc_flushed rc = false /\ Z.of_nat (length (w_Out p)) <= limit /\
                rc_buf rc = w_Out p /\ rc_w rc = w
}.

Lemma tracks_status w limit rc p code :
  100 <= code -> tracks w limit rc p -> tracks w limit (rc_WriteHeader code rc) (WriteHeader code p).
Proof.
  intros Hc [E1 E2 E3 E4]. unfold rc_WriteHeader, WriteHeader. destruct (w_Sent p) as [[c h]|] eqn:Ep.
  - destruct E3 as [Hge E3]. rewrite E3. destruct (Z.eqb_spec c 0); [lia|]. split; rewrite ?Ep; done.
  - destruct E3 as (E3 & E5 & E6). rewrite E3. cbn [Z.eqb]. rewrite E5 in E4. split; cbn; rewrite ?E5; done.
Qed.

Lemma tracks_write w limit rc p b :
  w_Sent w = None -> tracks w limit rc p -> tracks w limit (rc_Write b rc) (Write b p).
Proof.
  intros Hw Ht. unfold rc_Write. cbv zeta.
  assert (tracks w limit (if rc_status rc =? 0 then rc_WriteHeader StatusOK rc else rc) (WriteHeader StatusOK p)) as Ht'.
  { destruct (Z.eqb_spec (rc_status rc) 0) as [E|Hne]; [by apply tracks_status|].
    destruct Ht as [E1 E2 E3 E4]. unfold WriteHeader. destruct (w_Sent p) as [[c h]|] eqn:Ep; [|by destruct E3].
    split; rewrite ?Ep; done. }
  revert Ht'. generalize (if rc_status rc =? 0 then rc_WriteHeader StatusOK rc else rc). clear Ht rc. intros rc Ht.
  unfold Write. assert (exists c h, w_Sent (WriteHeader StatusOK p) = Some (c, h)) as (c & h & Ep)
    by (unfold WriteHeader; destruct (w_Sent p) as [[c h]|] eqn:E; rewrite ?E; eauto).
  generalize dependent (WriteHeader StatusOK p). clear p. intros p [E1 E2 E3 E4] Ep. rewrite Ep in E3. destruct E3 as [Hge E3].
  destruct (rc_overflow rc) eqn:Eo.
  - destruct E4 as (Ef & Hlen & Ho & h' & Hs). split; cbn [rc_limit rc_header rc_status rc_overflow rc_flushed rc_w w_Header w_Sent w_Out].
    + done.
    + done.
    + by rewrite Ep.
    + unfold Write, WriteHeader. rewrite Hs. cbn [w_Sent w_Out]. rewrite length_app. split_and!; [done|lia| |rewrite Hs; eauto].
      by rewrite Ho, app_assoc.
  - destruct E4 as (Ef & Hlen & Hb & Hrw). rewrite E1, Hb, Hrw.
    destruct (Z.ltb_spec limit (Z.of_nat (length (w_Out p)) + Z.of_nat (length b))) as [Hlong|Hshort].
    + split; cbn [rc_limit rc_header rc_status rc_overflow rc_flushed rc_w w_Header w_Sent w_Out]; [done|done|by rewrite Ep|].
      unfold Write, WriteHeader, on_header. cbn [w_Sent w_Out w_Header]. rewrite Hw. cbn [w_Sent w_Out w_Header].
      rewrite length_app, app_assoc. split_and!; [done|lia|done|eauto].
    + split; cbn [rc_limit rc_header rc_status rc_overflow rc_flushed rc_w rc_buf w_Header w_Sent w_Out]; [done|done|by rewrite Ep|].
      rewrite length_app. split_and!; [done|lia|done|done].
Qed.

Lemma tracks_header w limit rc p f : tracks w limit rc p -> tracks w limit (on_rc_header f rc) (on_header f p).
Proof. intros [E1 E2 E3 E4]. split; cbn; [done|by rewrite E2|done|done]. Qed.

Lemma tracks_ops w limit l :
  w_Sent w = None -> 0 <= limit -> Forall valid_op l ->
  tracks w limit (fold_left rec_op l (newCatalogRecorder w limit)) (run_ops l new_writer).
Proof.
  intros Hw Hlimit Hl. unfold run_ops.
  assert (tracks w limit (newCatalogRecorder w limit) new_writer) as Ht by (split; done).
  revert Ht. generalize (newCatalogRecorder w limit) new_writer. induction Hl as [|o l Ho _ IH]; intros rc p Ht; [done|].
  cbn [fold_left]. apply IH. destruct o; cbn [rec_op run_op].
  - by apply tracks_header.
  - by apply tracks_header.
  - by apply tracks_status.
  - by apply tracks_write.
Qed.

(** The answer that a handler gives on a writer of its own. *)
Definition said (a : answered) : Writer := run_ops (an_ops a) new_writer.

(** What can be replayed is a whole answer, short enough. *)
Lemma replayable_said a rc completed :
  Forall valid_op (an_ops a) -> outcome a = (rc, completed) -> replayable rc completed = true ->
  an_panic a = false /\ rc_status rc = status_of (said a) /\ rc_buf rc = w_Out (said a) /\
  rc_header rc = w_Header (said a) /\ Z.of_nat (length (w_Out (said a))) <= catalogCacheMaxBody.
Proof.
  intros Hv [= <- <-]. unfold replayable, recorded, said. destruct (an_panic a); [done|]. cbn [negb andb].
  pose proof (tracks_ops new_writer catalogCacheMaxBody (an_ops a) eq_refl ltac:(done) Hv) as [_ E2 E3 E4].
  revert E2 E3 E4. generalize (fold_left rec_op (an_ops a) (newCatalogRecorder new_writer catalogCacheMaxBody)).
  generalize (run_ops (an_ops a) new_writer). intros p rc E2 E3 E4. unfold rc_flush.
  destruct (rc_overflow rc) eqn:Eo.
  { destruct E4 as (-> & _). by rewrite Eo. }
  destruct E4 as (-> & Hlen & Hb & _). destruct (w_Sent p) as [[c h]|] eqn:Ep; unfold status_of; rewrite Ep.
  - destruct E3 as [Hge E3]. destruct (Z.eqb_spec (rc_status rc) 0); [lia|]. cbn. by intros _.
  - destruct E3 as (E3 & _ & _). rewrite E3. cbn. unfold rc_WriteHeader. rewrite E3. cbn. by intros _.
Qed.

(** A handler on a writer that has been written to before, but for its header. *)
Lemma run_ops_from l w p :
  match w_Sent w, w_Sent p with Some (c, _), Some (c', _) => c = c' | None, None => True | _, _ => False end ->
  status_of (run_ops l w) = status_of (run_ops l p) /\
  exists b, w_Out (run_ops l w) = w_Out w ++ b /\ w_Out (run_ops l p) = w_Out p ++ b.
Proof.
  revert w p. induction l as [|o l IH]; intros w p Hs.
  - split; [|by exists []; rewrite !app_nil_r]. unfold status_of. cbn. by destruct (w_Sent w) as [[]|], (w_Sent p) as [[]|].
  - cbn [run_ops fold_left]. assert (exists b, w_Out (run_op w o) = w_Out w ++ b /\ w_Out (run_op p o) = w_Out p ++ b) as (b0 & Hb & Hb').
    { exists (match o with OWrite b => b | _ => [] end). destruct o; cbn; rewrite ?app_nil_r; try done;
        unfold WriteHeader; by destruct (w_Sent w) as [[]|], (w_Sent p) as [[]|]. }
    destruct (IH (run_op w o) (run_op p o)) as (E & b & Hw & Hp).
    { destruct o; cbn; try done; unfold WriteHeader; destruct (w_Sent w) as [[]|] eqn:E1, (w_Sent p) as [[]|] eqn:E2; by rewrite ?E1, ?E2. }
    split; [exact E|]. exists (b0 ++ b). rewrite !app_assoc, <-Hb, <-Hb'. by split.
Qed.

(** The leader's client gets the status and the body it would have got without the cache. *)
Lemma leader_unaffected w a :
  w_Sent w = None -> Forall valid_op (an_ops a) -> an_panic a = false ->
  status_of (rc_w (recorded w a)) = status_of (run_ops (an_ops a) w) /\
  w_Out (rc_w (recorded w a)) = w_Out (run_ops (an_ops a) w).
Proof.
  intros Hw Hv Hp. unfold recorded. rewrite Hp.
  pose proof (tracks_ops w catalogCacheMaxBody (an_ops a) Hw ltac:(done) Hv) as [_ E2 E3 E4].
  destruct (run_ops_from (an_ops a) w new_writer) as (Es & b & Hb & Hb'); [by rewrite Hw|]. cbn [new_writer w_Out app] in Hb'.
  rewrite Es, Hb, <-Hb'. revert E2 E3 E4.
  generalize (fold_left rec_op (an_ops a) (newCatalogRecorder w catalogCacheMaxBody)) (run_ops (an_ops a) new_writer).
  clear - Hw. intros rc p E2 E3 E4. unfold rc_flush, status_of. destruct (rc_overflow rc) eqn:Eo.
  - destruct E4 as (-> & _ & Ho & h & Hs). rewrite Hs. split; [|done].
    destruct (w_Sent p) as [[c h']|]; [by destruct E3|by destruct E3 as (_ & ? & _)].
  - destruct E4 as (-> & _ & Hb & Hrw). cbv zeta.
    assert ((if rc_status rc =? 0 then rc_WriteHeader StatusOK rc else rc)
            = MkRecorder (rc_w rc) (rc_limit rc) (rc_header rc) (match w_Sent p with Some (c, _) => c | None => StatusOK end)
                (rc_buf rc) (rc_overflow rc) (rc_flushed rc)) as ->.
    { destruct rc as [rw rl rh rs rb ro rf]. cbn in *. destruct (w_Sent p) as [[c h]|].
      - destruct E3 as [Hge ->]. by destruct (Z.eqb_spec c 0); [lia|].
      - by destruct E3 as (-> & _). }
    cbn [rc_w rc_buf rc_status rc_header]. unfold Write, WriteHeader, on_header. rewrite Hrw, Hb. cbn [w_Sent]. rewrite Hw.
    by cbn [w_Sent w_Out].
Qed.

(** ** What the cache keeps *)

(** The fields a reader is replayed. *)
Definition same_answer (e e' : catalogEntry) : Prop :=
  ce_status e = ce_status e' /\ ce_header e = ce_header e' /\ ce_body e = ce_body e' /\ ce_bypass e = ce_bypass e'.

Lemma entry_store id c e : cc_store c !! id = Some e -> entry_of id c = e.
Proof. unfold entry_of. by intros ->. Qed.

Lemma settle_same key id rc completed now c :
  same_answer (entry_of id (settle key id rc completed now c)) (settled rc completed (entry_of id c)).
Proof.
  unfold settle. cbv zeta. destruct (replayable rc completed && _); [destruct (Nat.ltb _ _)|];
    unfold entry_of; cbn [cc_store]; by rewrite lookup_insert_eq.
Qed.
Lemma settle_other key id rc completed now c id' :
  id' <> id -> cc_store (settle key id rc completed now c) !! id' = cc_store c !! id'.
Proof.
  intros Hne. unfold settle. cbv zeta. destruct (replayable rc completed && _); [destruct (Nat.ltb _ _)|]; cbn [cc_store];
    by rewrite !lookup_insert_ne.
Qed.
Lemma settle_ready key id rc completed now c :
  ce_ready (entry_of id (settle key id rc completed now c)) = ce_ready (entry_of id c).
Proof.
  unfold settle. cbv zeta. destruct (replayable rc completed && _); [destruct (Nat.ltb _ _)|];
    unfold entry_of at 1; cbn [cc_store]; rewrite lookup_insert_eq; unfold settled, expiring; by destruct (replayable _ _).
Qed.
Lemma settle_inflight key id rc completed now c :
  cc_inflight (settle key id rc completed now c) = delete key (cc_inflight c).
Proof. unfold settle. cbv zeta. by destruct (replayable rc completed && _); [destruct (Nat.ltb _ _)|]. Qed.
Lemma settle_next key id rc completed now c : cc_next (settle key id rc completed now c) = cc_next c.
Proof. unfold settle. cbv zeta. by destruct (replayable rc completed && _); [destruct (Nat.ltb _ _)|]. Qed.
Lemma settle_ttl key id rc completed now c : cc_ttl (settle key id rc completed now c) = cc_ttl c.
Proof. unfold settle. cbv zeta. by destruct (replayable rc completed && _); [destruct (Nat.ltb _ _)|]. Qed.

(** What is published was there, or is the entry settled, for a whole 200. *)
Lemma settle_entries key id rc completed now c key' id' :
  cc_entries (settle key id rc completed now c) !! key' = Some id' ->
  cc_entries c !! key' = Some id' \/
  key' = key /\ id' = id /\ replayable rc completed = true /\ rc_status rc = StatusOK /\
  ce_expires (entry_of id (settle key id rc completed now c)) = now + cc_ttl c.
Proof.
  unfold settle. cbv zeta. set (c1 := MkCatalog _ _ _ _ _).
  set (entries := if Nat.leb _ _ then _ else _).
  assert (forall k i, entries !! k = Some i -> cc_entries c !! k = Some i) as Hsub.
  { intros k i. unfold entries. destruct (Nat.leb _ _); [|done]. unfold evictExpiredLocked. by intros [? _]%map_lookup_filter_Some. }
  destruct (replayable rc completed && _) eqn:Ek; [|by left]. apply andb_true_iff in Ek as [Hr Hst%Z.eqb_eq].
  destruct (Nat.ltb _ _); cbn [cc_entries]; [|intros Hk; left; by apply Hsub].
  intros [[<- <-]|[Hne Hk]]%lookup_insert_Some; [right|left; by apply Hsub].
  split_and!; [done|done|done|done|]. unfold entry_of at 1. cbn [cc_store]. by rewrite lookup_insert_eq.
Qed.
Lemma settle_size key id rc completed now c :
  (size (cc_entries c) <= catalogCacheMaxEntries)%nat ->
  (size (cc_entries (settle key id rc completed now c)) <= catalogCacheMaxEntries)%nat.
Proof.
  intros Hc. unfold settle. cbv zeta. set (c1 := MkCatalog _ _ _ _ _).
  set (entries := if Nat.leb _ _ then _ else _).
  assert (size entries <= size (cc_entries c))%nat as Hsub.
  { unfold entries. destruct (Nat.leb _ _); [|done]. apply (map_size_filter _ (cc_entries c1)). }
  destruct (replayable rc completed && _); [|done].
  destruct (Nat.ltb_spec (size entries) catalogCacheMaxEntries) as [Hlt|Hge]; cbn [cc_entries]; [|lia].
  destruct (entries !! key) eqn:E.
  - rewrite map_size_insert_Some by eauto. lia.
  - rewrite map_size_insert_None by done. lia.
Qed.

(** An answer fit to be kept: a whole 200. *)
Definition keepable (a : answered) : Prop :=
  replayable (outcome a).1 (outcome a).2 = true /\ rc_status (outcome a).1 = StatusOK.

(** When a reader asked: before the entry was settled, or within its time. *)
Definition timely (ttl t : Z) (a : answered) (asked : Z) : Prop :=
  asked <= t \/ keepable a /\ asked < t + ttl.

(** A reader's replay is the answer to its question. *)
Definition honest (ttl : Z) (past : list happening) (x : happening) : Prop :=
  match x with
  | HReplay id key asked e =>
      exists t a, HSettle id key t a ∈ past /\ Forall valid_op (an_ops a) /\
        replayable (outcome a).1 (outcome a).2 = true /\
        same_answer e (settled (outcome a).1 (outcome a).2 newEntry) /\ timely ttl t a asked
  | _ => True
  end.

Record kept (ttl : Z) (s : server) : Prop := {
  kp_ttl : cc_ttl (gs_cache s) = ttl;
  (* one leader for each question in flight *)
  kp_lead key id : cc_inflight (gs_cache s) !! key = Some id <-> gs_leading s !! id = Some key;
  kp_unfilled id key : gs_leading s !! id = Some key -> (id < cc_next (gs_cache s))%nat /\ cc_store (gs_cache s) !! id = Some newEntry;
  kp_settled id key t a : HSettle id key t a ∈ gs_past s ->
    t <= gs_now s /\ (id < cc_next (gs_cache s))%nat /\ gs_leading s !! id = None /\ Forall valid_op (an_ops a) /\
    same_answer (entry_of id (gs_cache s)) (settled (outcome a).1 (outcome a).2 newEntry) /\
    (id ∈ gs_closing s \/ ce_ready (entry_of id (gs_cache s)) = true);
  kp_closing id : id ∈ gs_closing s -> exists key t a, HSettle id key t a ∈ gs_past s;
  kp_entries key id : cc_entries (gs_cache s) !! key = Some id ->
    exists t a, HSettle id key t a ∈ gs_past s /\ keepable a /\ ce_expires (entry_of id (gs_cache s)) = t + ttl;
  kp_size : (size (cc_entries (gs_cache s)) <= catalogCacheMaxEntries)%nat;
  kp_wait id key asked : (id, key, asked) ∈ gs_waiting s ->
    asked <= gs_now s /\
    (gs_leading s !! id = Some key \/ exists t a, HSettle id key t a ∈ gs_past s /\ timely ttl t a asked);
  kp_past x : x ∈ gs_past s -> honest ttl (gs_past s) x
}.

Lemma acquire_lead key now c id c' :
  acquire key now c = ((id, true), c') ->
  id = cc_next c /\ cc_inflight c !! key = None /\ cc_inflight c' = <[key := id]> (cc_inflight c) /\
  (forall k i, cc_entries c' !! k = Some i -> cc_entries c !! k = Some i) /\
  (size (cc_entries c') <= size (cc_entries c))%nat /\
  cc_store c' = <[id := newEntry]> (cc_store c) /\ cc_next c' = S (cc_next c) /\ cc_ttl c' = cc_ttl c.
Proof.
  unfold acquire. destruct (cc_inflight c !! key) eqn:Ei; [done|].
  destruct (cc_entries c !! key) as [e|] eqn:Ee; [destruct (now <? _); [done|]|]; intros [= <- <-]; cbn; split_and!; try done.
  - intros k i [_ ?]%lookup_delete_Some. done.
  - rewrite map_size_delete, Ee. lia.
Qed.
Lemma acquire_join key now c id c' :
  acquire key now c = ((id, false), c') ->
  c' = c /\ (cc_inflight c !! key = Some id \/ cc_entries c !! key = Some id /\ now < ce_expires (entry_of id c)).
Proof.
  unfold acquire. destruct (cc_inflight c !! key) eqn:Ei; [intros [= <- <-]; auto|].
  destruct (cc_entries c !! key) as [e|] eqn:Ee; [|done]. destruct (Z.ltb_spec now (ce_expires (entry_of e c))) as [Hlt|]; [|done].
  intros [= <- <-]. auto.
Qed.

(** A past that has grown is as honest. *)
Lemma honest_grows ttl past l x : honest ttl past x -> honest ttl (past ++ l) x.
Proof.
  destruct x; try done. intros (t & a & Hin & Hrest). exists t, a. split; [apply elem_of_app; by left|done].
Qed.

Lemma settled_id (past : list happening) x id key t a :
  HSettle id key t a ∈ past ++ [x] -> (forall id key t a, x <> HSettle id key t a) -> HSettle id key t a ∈ past.
Proof. intros [Hin|Hin%list_elem_of_singleton]%elem_of_app Hx; [done|]. by destruct (Hx id key t a). Qed.

Section steps.
Context (ttl : Z).

Lemma kept_idle now : kept ttl (idle_server ttl now).
Proof. split; cbn; try done; intros; rewrite ?lookup_empty in *; first [done | by split | rewrite map_size_empty; apply Nat.le_0_l | set_solver]. Qed.

Lemma kept_lead now c c' id key leading closing waiting past :
  acquire key now c = ((id, true), c') ->
  kept ttl (MkServer now c leading closing waiting past) ->
  kept ttl (MkServer now c' (<[id := key]> leading) closing waiting (past ++ [HLead id key now])).
Proof.
  intros (-> & Hnone & Ei & Esub & Esz & Es & En & Et)%acquire_lead [K1 K2 K3 K4 Kc K5 K6 K7 K8]. cbn in *.
  assert (leading !! cc_next c = None) as Hfree.
  { destruct (leading !! cc_next c) as [k|] eqn:E; [|done]. apply K3 in E as [? _]. lia. }
  assert (forall id, id <> cc_next c -> entry_of id c' = entry_of id c) as Hent.
  { intros id Hne. unfold entry_of. by rewrite Es, lookup_insert_ne. }
  assert (forall id k t a, HSettle id k t a ∈ past ++ [HLead (cc_next c) key now] -> HSettle id k t a ∈ past) as Hset
    by (intros id k t a Hin; by eapply settled_id).
  split; cbn.
  - by rewrite Et.
  - intros k id. rewrite Ei. destruct (decide (id = cc_next c)) as [->|Hid].
    + rewrite lookup_insert_eq. destruct (decide (k = key)) as [->|Hk]; [by rewrite lookup_insert_eq|].
      rewrite lookup_insert_ne by done. split; [intros Hx%K2; congruence|congruence].
    + rewrite (lookup_insert_ne leading) by done. destruct (decide (k = key)) as [->|Hk].
      * rewrite lookup_insert_eq. split; [congruence|]. intros Hx%K2. congruence.
      * rewrite lookup_insert_ne by done. apply K2.
  - intros id k [[<- <-]|[Hne Hx]]%lookup_insert_Some; rewrite En, Es.
    + split; [lia|by rewrite lookup_insert_eq].
    + apply K3 in Hx as [? ?]. split; [lia|]. by rewrite lookup_insert_ne.
  - intros id k t a (? & ? & ? & ? & ? & ?)%Hset%K4. assert (id <> cc_next c) by lia. rewrite En, Hent by done.
    rewrite lookup_insert_ne by done. split_and!; auto.
  - intros id (k & t & a & Hin)%Kc. exists k, t, a. apply elem_of_app. by left.
  - intros k id (t & a & Hin & Hk & He)%Esub%K5. exists t, a. split; [apply elem_of_app; by left|]. split; [done|].
    apply K4 in Hin as (_ & ? & _). rewrite Hent by lia. done.
  - lia.
  - intros id k asked [Ha [Hl|(t & a & Hin & Ht)]]%K7; (split; [done|]).
    + left. rewrite lookup_insert_ne; [done|]. intros <-. congruence.
    + right. exists t, a. split; [apply elem_of_app; by left|done].
  - intros x [Hx| ->%list_elem_of_singleton]%elem_of_app; [|done]. by apply honest_grows, K8.
Qed.

Lemma kept_join now c c' id key leading closing waiting past :
  acquire key now c = ((id, false), c') ->
  kept ttl (MkServer now c leading closing waiting past) ->
  kept ttl (MkServer now c' leading closing (waiting ++ [(id, key, now)]) past).
Proof.
  intros (-> & Hj)%acquire_join [K1 K2 K3 K4 Kc K5 K6 K7 K8]. cbn in *. split; cbn; try done.
  intros id' k asked [Hin|[= -> -> ->]%list_elem_of_singleton]%elem_of_app; [by apply K7|].
  split; [lia|]. destruct Hj as [Hj|[Hj Hlt]].
  - left. by apply K2.
  - right. apply K5 in Hj as (t & a & Hin & Hk & He). exists t, a. split; [done|]. right. split; [done|]. by rewrite <-He.
Qed.

Lemma kept_settle now c id key a leading closing waiting past :
  leading !! id = Some key -> Forall valid_op (an_ops a) ->
  kept ttl (MkServer now c leading closing waiting past) ->
  kept ttl (MkServer now (settle key id (outcome a).1 (outcome a).2 now c) (delete id leading)
         ({[ id ]} ∪ closing) waiting (past ++ [HSettle id key now a])).
Proof.
  intros Hl Hv [K1 K2 K3 K4 Kc K5 K6 K7 K8]. cbn in *. pose proof (K3 _ _ Hl) as [Hnext Hnew].
  assert (entry_of id c = newEntry) as Hen by by apply entry_store.
  assert (forall i, i <> id -> entry_of i (settle key id (outcome a).1 (outcome a).2 now c) = entry_of i c) as Hent.
  { intros i Hne. unfold entry_of. by rewrite settle_other. }
  assert (forall i k t b, HSettle i k t b ∈ past -> i <> id) as Hold.
  { intros i k t b Hin ->. apply K4 in Hin as (_ & _ & Hn & _). congruence. }
  split; cbn.
  - by rewrite settle_ttl.
  - intros k i. rewrite settle_inflight. split.
    + intros [Hne Hx%K2]%lookup_delete_Some. rewrite lookup_delete_ne; [done|]. intros ->. congruence.
    + intros [Hne Hx]%lookup_delete_Some. rewrite lookup_delete_ne; [by apply K2|]. intros ->.
      apply K2 in Hx. apply K2 in Hl. congruence.
  - intros i k [Hne Hx]%lookup_delete_Some. apply K3 in Hx as [? ?]. rewrite settle_next, settle_other by done. done.
  - intros i k t b [Hin|[= -> -> -> ->]%list_elem_of_singleton]%elem_of_app.
    + pose proof (Hold _ _ _ _ Hin) as Hne. apply K4 in Hin as (? & ? & ? & ? & ? & Hr). rewrite settle_next, Hent by done.
      split_and!; try done; [by rewrite lookup_delete_ne|]. destruct Hr; [left; set_solver|by right].
    + rewrite settle_next. split_and!; try done; [by rewrite lookup_delete_eq| |left; set_solver].
      rewrite <-Hen. apply settle_same.
  - intros i [->%elem_of_singleton|Hi]%elem_of_union.
    + exists key, now, a. apply elem_of_app. right. by apply list_elem_of_singleton.
    + apply Kc in Hi as (k & t & b & Hin). exists k, t, b. apply elem_of_app. by left.
  - intros k i [Hx|(-> & -> & Hr & Hst & He)]%settle_entries.
    + apply K5 in Hx as (t & b & Hin & Hk & He). exists t, b. rewrite Hent by by eapply Hold.
      split; [apply elem_of_app; by left|done].
    + exists now, a. split; [apply elem_of_app; right; by apply list_elem_of_singleton|]. split; [by split|]. by rewrite He, K1.
  - by apply settle_size.
  - intros i k asked [Ha [Hx|(t & b & Hin & Ht)]]%K7; (split; [done|]).
    + destruct (decide (i = id)) as [->|Hne]; [|left; by rewrite lookup_delete_ne].
      right. exists now, a. split; [|by left]. rewrite Hl in Hx. injection Hx as ->.
      apply elem_of_app. right. by apply list_elem_of_singleton.
    + right. exists t, b. split; [apply elem_of_app; by left|done].
  - intros x [Hx| ->%list_elem_of_singleton]%elem_of_app; [|done]. by apply honest_grows, K8.
Qed.
Lemma kept_close now c id leading closing waiting past :
  id ∈ closing -> kept ttl (MkServer now c leading closing waiting past) ->
  kept ttl (MkServer now (close_ready id c) leading (closing ∖ {[ id ]}) waiting past).
Proof.
  intros Hc [K1 K2 K3 K4 Kc K5 K6 K7 K8]. cbn in *.
  assert (entry_of id (close_ready id c) = let e := entry_of id c in
    MkEntry true (ce_status e) (ce_header e) (ce_body e) (ce_bypass e) (ce_expires e)) as Heq
    by (unfold close_ready, entry_of; cbn; by rewrite lookup_insert_eq).
  assert (forall i, i <> id -> entry_of i (close_ready id c) = entry_of i c) as Hent
    by (intros i Hne; unfold close_ready, entry_of; cbn; by rewrite lookup_insert_ne).
  split; cbn; try done.
  - intros i k Hi. split; [by eapply K3|]. destruct (decide (i = id)) as [->|Hne].
    + apply Kc in Hc as (k' & t & a & Hin). apply K4 in Hin as (_ & _ & Hn & _). congruence.
    + rewrite lookup_insert_ne by done. by eapply K3.
  - intros i k t a Hin. apply K4 in Hin as (? & ? & ? & ? & Hsame & Hr). split_and!; try done.
    + destruct (decide (i = id)) as [->|Hne]; [by rewrite Heq|by rewrite Hent].
    + destruct (decide (i = id)) as [->|Hne]; [right; by rewrite Heq|]. rewrite Hent by done. destruct Hr; [left; set_solver|by right].
  - intros i [Hi _]%elem_of_difference. by apply Kc.
  - intros k i (t & a & Hin & Hk & He)%K5. exists t, a. split_and!; try done.
    destruct (decide (i = id)) as [->|Hne]; [by rewrite Heq|by rewrite Hent].
Qed.

Lemma kept_wake now c id key asked leading closing w1 w2 past :
  ce_ready (entry_of id c) = true ->
  kept ttl (MkServer now c leading closing (w1 ++ (id, key, asked) :: w2) past) ->
  kept ttl (MkServer now c leading closing (w1 ++ w2)
         (past ++ [if ce_bypass (entry_of id c) then HBypass id key else HReplay id key asked (entry_of id c)])).
Proof.
  intros Hready [K1 K2 K3 K4 Kc K5 K6 K7 K8]. cbn in *. set (x := if ce_bypass _ then _ else _).
  assert (forall i k t a, HSettle i k t a ∈ past ++ [x] -> HSettle i k t a ∈ past) as Hset.
  { intros i k t a Hin. eapply settled_id; [exact Hin|]. unfold x. by destruct (ce_bypass _). }
  assert (forall i k t a, HSettle i k t a ∈ past -> HSettle i k t a ∈ past ++ [x]) as Hset'
    by (intros; apply elem_of_app; by left).
  split; cbn; try done.
  - intros i k t a Hin%Hset. by apply K4 in Hin.
  - intros i (k & t & a & Hin)%Kc. eauto.
  - intros k i (t & a & Hin & Hrest)%K5. eauto.
  - intros i k asked' Hin. assert ((i, k, asked') ∈ w1 ++ (id, key, asked) :: w2) as [Ha Hw]%K7.
    { apply elem_of_app in Hin as [?|?]; apply elem_of_app; [by left|right; by right]. }
    split; [done|]. destruct Hw as [?|(t & a & Hs & Ht)]; [by left|right; eauto].
  - intros y [Hy|Hy%list_elem_of_singleton]%elem_of_app; [by apply honest_grows, K8|]. subst y. unfold x.
    destruct (ce_bypass (entry_of id c)) eqn:Eb; [done|].
    destruct (K7 id key asked) as [_ [Hl|(t & a & Hs & Ht)]]; [apply elem_of_app; right; by left| |].
    + apply K3 in Hl as [_ Hnew%entry_store]. by rewrite Hnew in Hready.
    + pose proof (K4 _ _ _ _ Hs) as (_ & _ & _ & Hv & Hsame & _). exists t, a. split_and!; try done; [by apply Hset'|].
      destruct Hsame as (_ & _ & _ & Hb). rewrite Eb in Hb. unfold settled in Hb. by destruct (replayable _ _).
Qed.

Lemma kept_step s s' : kept ttl s -> cat_step s s' -> kept ttl s'.
Proof.
  intros Hk Hstep. destruct Hstep.
  - by eapply kept_lead.
  - by eapply kept_join.
  - by apply kept_settle.
  - by apply kept_close.
  - by apply kept_wake.
  - destruct Hk as [K1 K2 K3 K4 Kc K5 K6 K7 K8]. split; cbn in *; try done. intros i k asked Hin. apply K7.
    apply elem_of_app in Hin as [?|?]; apply elem_of_app; [by left|right; by right].
  - destruct Hk as [K1 K2 K3 K4 Kc K5 K6 K7 K8]. split; cbn in *; try done.
    + intros i k t a Hin. apply K4 in Hin as (? & Hrest). split; [lia|done].
    + intros i k asked Hin. apply K7 in Hin as (? & Hrest). split; [lia|done].
Qed.

Lemma kept_reach now s : cat_reach ttl now s -> kept ttl s.
Proof. induction 1 as [|s s' _ IH Hs]; [apply kept_idle|by eapply kept_step]. Qed.
End steps.

(** C18: one question, one leader. However the goroutines of a server interleave, at most
    one request upstream that is to fill an entry is in flight for a question (once its
    entry turns out one to bypass, each reader that waited for it asks on its own, past
    the cache, and those requests are not bounded); a reader that waits, waits for the
    leader of its own question or for an entry that is settled, so none is left waiting
    once the leader is through; what is published is a whole 200 within the size limit,
    good for the time the cache keeps it and no longer; and the cache never publishes
    more than [catalogCacheMaxEntries] answers. *)
Theorem catalog_invariant ttl start s :
  cat_reach ttl start s ->
  (forall id id' key, gs_leading s !! id = Some key -> gs_leading s !! id' = Some key -> id = id') /\
  (forall id key asked, (id, key, asked) ∈ gs_waiting s ->
     gs_leading s !! id = Some key \/ id ∈ gs_closing s \/ ce_ready (entry_of id (gs_cache s)) = true) /\
  (forall key id, cc_entries (gs_cache s) !! key = Some id ->
     let e := entry_of id (gs_cache s) in
     ce_status e = StatusOK /\ ce_bypass e = false /\ Z.of_nat (length (ce_body e)) <= catalogCacheMaxBody /\
     ce_expires e <= gs_now s + ttl) /\
  (size (cc_entries (gs_cache s)) <= catalogCacheMaxEntries)%nat.
Proof.
  intros [K1 K2 K3 K4 Kc K5 K6 K7 K8]%kept_reach. split_and!; [| | |done].
  - intros id id' key Hx%K2 Hy%K2. congruence.
  - intros id key asked [_ [Hl|(t & a & Hin & _)]]%K7; [by left|]. apply K4 in Hin as (_ & _ & _ & _ & _ & Hr). by right.
  - intros key id (t & a & Hin & [Hr Hst] & He)%K5. cbv zeta. apply K4 in Hin as (Ht & _ & _ & Hv & (E1 & _ & E3 & E4) & _).
    rewrite He, E1, E3, E4. unfold settled. rewrite Hr. cbn [ce_status ce_body ce_bypass newEntry].
    destruct (outcome a) as [rc completed] eqn:Eo. cbn [fst snd] in *.
    destruct (replayable_said a rc completed Hv Eo Hr) as (_ & _ & Hb & _ & Hlen). rewrite Hb.
    split_and!; [done|done|done|lia].
Qed.


(** ** The question a key stands for *)

Lemma pivot_inj {A} (x : A) l1 l2 r1 r2 :
  (x ∉ l1) -> (x ∉ l2) -> l1 ++ x :: r1 = l2 ++ x :: r2 -> l1 = l2 /\ r1 = r2.
Proof.
  revert l2. induction l1 as [|y l1 IH]; intros [|z l2] H1 H2; cbn.
  - intros [= ->]. done.
  - intros [= <- _]. destruct H2. by left.
  - intros [= -> _]. destruct H1. by left.
  - intros [= -> E]. destruct (IH l2) as [-> ->]; [set_solver..|done|done].
Qed.

Lemma catalog_paths_plain p : p ∈ cacheableCatalogPaths -> ("?"%char ∉ bytes_of p).
Proof.
  revert p. apply Forall_forall. apply (bool_decide_unpack _). vm_compute. exact I.
Qed.

(** Requests the cache treats as one ask for the same path with the same query, and take
    the same encoding; a query is printable, as on any request line. *)
Lemma catalog_key_exact `{FloatLib} r r' :
  r_Path r ∈ cacheableCatalogPaths -> r_Path r' ∈ cacheableCatalogPaths ->
  (byte_of 0 ∉ bytes_of (r_RawQuery r)) -> (byte_of 0 ∉ bytes_of (r_RawQuery r')) ->
  catalog_key r = catalog_key r' ->
  r_Path r = r_Path r' /\ r_RawQuery r = r_RawQuery r' /\
  acceptsGzip (header_get (r_Header r) "Accept-Encoding") = acceptsGzip (header_get (r_Header r') "Accept-Encoding").
Proof.
  intros Hp Hp' Hq Hq' E. unfold catalog_key in E. apply (f_equal bytes_of) in E. rewrite !bytes_of_app in E.
  change (bytes_of "?") with ["?"%char] in E. cbn [app] in E.
  apply pivot_inj in E as [Ep E]; [|by apply catalog_paths_plain..]. apply bytes_of_inj in Ep. split; [done|].
  assert (bytes_of (str_of (byte_of 0 :: bytes_of "gzip")) = byte_of 0 :: bytes_of "gzip") as Hz by (vm_compute; reflexivity).
  destruct (acceptsGzip _), (acceptsGzip _); rewrite ?Hz in E; cbn [app] in E.
  - apply pivot_inj in E as [E _]; [|done..]. apply bytes_of_inj in E. done.
  - rewrite app_nil_r in E. destruct Hq'. rewrite <-E. apply elem_of_app. right. by left.
  - rewrite app_nil_r in E. destruct Hq. rewrite E. apply elem_of_app. right. by left.
  - rewrite !app_nil_r in E. by apply bytes_of_inj in E.
Qed.

(** ** Witnesses *)

Module CatalogWitness.
Definition models : answered :=
  MkAnswered [OAdd "Content-Type" "application/json"; OAdd "Set-Cookie" "s=1"; OStatus 200; OWrite (bytes_of "{}")] false.
Definition torn : answered := MkAnswered [OAdd "Content-Length" "5"; OStatus 200; OWrite (bytes_of "{}")] false.
Definition kept_entry : catalogEntry :=
  MkEntry true 200 {[ "Content-Type" := ["application/json"] ]} (bytes_of "{}") false defaultCatalogCacheTTL.
(** Two readers ask at once; the second is replayed what the first was answered. *)
Lemma shared : exists s, cat_reach defaultCatalogCacheTTL 0 s /\ HReplay 0 "k" 0 kept_entry ∈ gs_past s.
Proof.
  eexists. split.
  - eapply reach_step; [eapply reach_step; [eapply reach_step; [eapply reach_step; [eapply reach_step; [apply reach_idle|]|]|]|]|].
    + eapply (step_lead _ _ _ _ "k"). reflexivity.
    + eapply (step_join _ _ _ _ "k"). reflexivity.
    + eapply (step_settle _ _ 0%nat "k" models); [reflexivity|]. by repeat constructor.
    + eapply (step_close _ _ 0%nat). set_solver.
    + eapply (step_wake _ _ 0%nat "k" 0 _ _ [] []). vm_compute. reflexivity.
  - apply elem_of_app. right. apply list_elem_of_singleton. vm_compute. reflexivity.
Qed.
Example torn_not_kept : replayable (outcome torn).1 (outcome torn).2 = false.
Proof. vm_compute. reflexivity. Qed.
End CatalogWitness.

Section witnesses.
Import CatalogWitness.

Lemma catalog_invariant_witness :
  exists s, HReplay 0 "k" 0 kept_entry ∈ gs_past s /\ (size (cc_entries (gs_cache s)) <= catalogCacheMaxEntries)%nat.
Proof.
  destruct shared as (s & Hr & Hin).
  exact (ex_intro _ s (conj Hin (proj2 (proj2 (proj2 (catalog_invariant _ _ s Hr)))))).
Defined.
End witnesses.
