(* ===== verification/Gateway.v ===== *)
(** * Gateway: the server ([client/cmd/gateway]: [main.go], [sealmodels.go],
      [routerproxy.go], [evidences.go], [freshevidence.go], [inflight.go])

    [newHandler] mounts the sealed surfaces, the polls of async jobs, the probes and the
    cleartext proxy to the router on one [ServeMux], behind the guard that folds the
    spellings of a surface's path, the origin policy and the access log. [sealModels] says
    which models are sealed and [dispatch] reads a request's model to decide.

    The theorems: a request to a sealed surface leaves only sealed, unless its model was
    read and is one that is not sealed, or it asks for urls ([sealed_stays_sealed]); the
    key half of a job id never leaves ([job_key_stays]); what the list of sealed models
    means ([seal_list_exact]); the bounds of the in-flight ceiling ([in_flight_bounds]). *)

From S2P Require Import Prelude GoBytes GoJson GoDecode GoUrl GoText GoHttp GoServe.
From S2P Require Import Profile Hpke Envelope Response RespBind Async Walk Client Stream Endpoint Front Serving Catalog.

(** ** The in-flight ceiling ([inflight.go]) *)

Definition inFlightPerCPU : Z := 256.
Definition maxDefaultInFlight : Z := 512.
Definition minDefaultInFlight : Z := 32.
Definition perRequestPeakFactor : Z := 3.
Definition memBudgetDivisor : Z := 2.
Definition perRequestPeakBytes : Z := perRequestPeakFactor * MaxRequestBytes.

(** Arithmetic of a 64-bit [int]. *)
Definition wrap_int (z : Z) : Z := (z + 2 ^ 63) mod 2 ^ 64 - 2 ^ 63.

Definition computeMaxInFlight (cpus memLimit : Z) : Z :=
  let cpus := if cpus <? 1 then 1 else cpus in
  let n := wrap_int (inFlightPerCPU * cpus) in
  let n := if maxDefaultInFlight <? n then maxDefaultInFlight else n in
  if (0 <? memLimit) && (memLimit <? int64_max) then
    let fromMem := memLimit / memBudgetDivisor / perRequestPeakBytes in
    let fromMem := if fromMem <? minDefaultInFlight then minDefaultInFlight else fromMem in
    if fromMem <? n then fromMem else n
  else n.

(** ** A nonce ([client/freshquote]) *)

Definition NonceBytes : nat := 32.
Definition ParseNonce (s : string) : result string string :=
  _ ← refuse (negb (Nat.eqb (String.length s) (2 * NonceBytes))) "nonce must be 64 hex characters";
  b ← of_option (hex_decode (bytes_of s)) "nonce must be hex";
  Ok (str_of (hex_encode b)).

(** ** Which models are sealed ([sealmodels.go]) *)

(** [strings.ToLower]. *)
Class CaseLib := { toLower : string -> string }.

Record sealModels := MkSeal {
  sm_off : bool;
  sm_allow : gset string;
  sm_surfaces : gmap string string
}.
Definition sealModelsAll : string := "*".
Definition surfaceWildcard : string := ":*".

Inductive seal_err := SealNotAlone | SealUnknown (unknown known : list string).

Definition seal_entries `{CaseLib} (csv : string) : list string :=
  List.filter (fun m => negb (String.eqb m ""))
    (map (fun part => toLower (trim_space (str_of part))) (split_on "," (bytes_of csv))).

Definition rows_of (serviceType : string) : list Endpoint :=
  List.filter (fun ep => String.eqb (ep_ServiceType ep) serviceType) All.
(** One entry of the list; the unknown ones are kept for the error. *)
Definition seal_entry (acc : sealModels * list string) (m : string) : sealModels * list string :=
  let '(s, unknown) := acc in
  if has_suffix m surfaceWildcard then
    match rows_of (trim_suffix m surfaceWildcard) with
    | [] => (s, unknown ++ [m])
    | rows => (MkSeal (sm_off s) (sm_allow s)
                 (fold_left (fun t ep => <[ep_Path ep := m]> t) rows (sm_surfaces s)), unknown)
    end
  else (MkSeal (sm_off s) ({[ m ]} ∪ sm_allow s) (sm_surfaces s), unknown).

Definition known_types : list string :=
  fold_left (fun known ep => let e := ep_ServiceType ep +:+ surfaceWildcard in
                             if contains known e then known else known ++ [e]) All [].

Definition parseSealModels `{CaseLib} (csv : string) : result seal_err sealModels :=
  match seal_entries csv with
  | [] => Ok (MkSeal true ∅ ∅)
  | (e :: rest) as entries =>
      if negb (Nat.eqb (length rest) 0) && contains entries sealModelsAll then Err SealNotAlone
      else if String.eqb e sealModelsAll then Ok (MkSeal false ∅ ∅)
      else match fold_left seal_entry entries (MkSeal false ∅ ∅, []) with
           | (s, []) => Ok s
           | (_, unknown) => Err (SealUnknown unknown known_types)
           end
  end.

Definition seals_all (s : sealModels) : bool := Nat.eqb (size (sm_allow s)) 0 && Nat.eqb (size (sm_surfaces s)) 0.
Definition seals `{CaseLib} (s : sealModels) (model : string) : bool :=
  if seals_all s then true else bool_decide (toLower model ∈ sm_allow s).

Definition maxPassthroughBytes : Z := 20971520.
Definition maxModelFieldBytes : Z := 512.
Definition fieldModel : string := "model".

Inductive reason := unreadable_body | body_too_large | body_not_json | no_model_field | multipart_unreadable.

Definition isMultipartContentType (ct : string) : bool :=
  has_prefix (ToLower (trim_space ct)) "multipart/form-data".

Definition modelOfMultipart `{MimeLib} (body : bytes) (contentType : string) : result reason string :=
  match ParseMediaType contentType with
  | None => Err multipart_unreadable
  | Some (_, params) =>
      let boundary := default "" (params !! "boundary") in
      if String.eqb boundary "" then Err multipart_unreadable
      else
        (fix walk (parts : list form_part) : result reason string :=
           match parts with
           | [] => Err no_model_field
           | Malformed :: _ => Err multipart_unreadable
           | Part name _ content :: parts =>
               if negb (String.eqb name fieldModel) then walk parts
               else match content with
                    | None => Err multipart_unreadable
                    | Some v =>
                        if maxModelFieldBytes <? Z.of_nat (length v) then Err multipart_unreadable
                        else let m := trim_space (str_of v) in
                             if String.eqb m "" then Err no_model_field else Ok m
                    end
           end) (multipart_parts body boundary)
  end.

Definition probe_fields : list (string * (string -> json -> result jerr string)) := [("model", set_string)].
Definition modelOf `{MimeLib} (body : bytes) (contentType : string) (readErr : option body_err) (n : Z)
    : result reason string :=
  match readErr with
  | Some _ => Err unreadable_body
  | None =>
      if maxPassthroughBytes <? n then Err body_too_large
      else if isMultipartContentType contentType then modelOfMultipart body contentType
      else match unmarshal (unmarshal_struct probe_fields "") body with
           | Err _ => Err body_not_json
           | Ok model => if String.eqb (trim_space model) "" then Err no_model_field else Ok model
           end
  end.

Section gateway.
Context {W : Type} `{World W} `{Outside W} `{StreamReads W} `{FrontWorld W} `{CatalogWorld W}.
Context `{Wording} `{MimeLib} `{Jcs} `{HpkeLib} `{FloatLib} `{CaseLib}.
Abbreviation Source := (ServerRequest -> fstate W -> answered * fstate W).

(** The body is read to decide and handed on as it arrived. *)
Definition dispatch (m : sealModels) (sealed cleartext : Handler W) : Handler W :=
  if seals_all m then sealed
  else fun r s =>
    match sm_surfaces m !! r_Path r with
    | Some _ => sealed r s
    | None =>
        let '(buf, err) := read_limit (maxPassthroughBytes + 1) r in
        match modelOf buf (header_get (r_Header r) "Content-Type") err (Z.of_nat (length buf)) with
        | Err _ => sealed r s
        | Ok model => if seals m model then sealed r s else cleartext r s
        end
    end.

(** ** The proxy to the router ([routerproxy.go]) *)

Inductive proxy_err := ProxyTransport | KeylessPollSealed | KeylessPollUnreadable.

(** [WriteError], by what it does to the writer. *)
Definition error_ops (status : Z) (source msg : string) : list wop :=
  [OSet "Content-Type" "application/json"; OStatus status; OWrite (marshal_map (error_body source msg) ++ [newline])].
Definition header_ops (h : Header) : list wop := concat (map (fun kv => map (OAdd kv.1) kv.2) (map_to_list h)).

(** [httputil.ReverseProxy]: one round trip, the answer's headers added, its status and
    its body written; a body that breaks aborts the answer. [relay] is the round trip of a
    request prepared for the router. *)
Definition reverse_proxy (rewrite : ServerRequest -> ServerRequest)
    (modify : HttpResponse cerr -> result proxy_err (HttpResponse cerr)) (on_error : proxy_err -> list wop) : Source :=
  fun r s =>
    let out := rewrite r in
    let '(answer, s) := ask (relay out) (f_emit [FForward out] s) in
    match match answer with Ok resp => modify resp | Err _ => Err ProxyTransport end with
    | Ok resp => (MkAnswered (header_ops (hs_Header resp) ++ [OStatus (hs_Status resp); OWrite (hs_Body resp)])
                    (match hs_BodyErr resp with Some _ => true | None => false end), s)
    | Err e => (MkAnswered (on_error e) false, s)
    end.

Definition strip_router (resp : HttpResponse cerr) : result proxy_err (HttpResponse cerr) :=
  Ok (MkHttpResponse (hs_Status resp) (header_del HeaderE2EE (StripCORSHeaders (hs_Header resp)))
        (hs_Body resp) (hs_BodyErr resp)).
Definition router_failed (e : proxy_err) : list wop := error_ops 502 "upstream" "upstream request failed".
Definition newRouterProxy : Source := reverse_proxy id strip_router router_failed.

Definition maxKeylessPollBytes : Z := 50331648.
Definition keyless_modify (resp : HttpResponse cerr) : result proxy_err (HttpResponse cerr) :=
  resp ← strip_router resp;
  let ce := header_get (hs_Header resp) "Content-Encoding" in
  _ ← refuse (negb (String.eqb ce "") && negb (equal_fold ce "identity")) KeylessPollUnreadable;
  body ← map_err (fun _ => KeylessPollUnreadable) (read_all_limited (maxKeylessPollBytes + 1) resp);
  _ ← refuse (maxKeylessPollBytes <? Z.of_nat (length body)) KeylessPollUnreadable;
  _ ← refuse (match unmarshal unmarshal_map body with Ok (Some top) => has_key top e2eeKey | _ => false end)
        KeylessPollSealed;
  Ok (MkHttpResponse (hs_Status resp)
        (header_set "Content-Length" (str_of (itoa (Z.of_nat (length body)))) (hs_Header resp)) body None).
Definition keyless_failed (e : proxy_err) : list wop :=
  match e with
  | KeylessPollSealed => error_ops 502 "gateway"
      "this job's result is end-to-end encrypted; poll it with the job id the submit returned, which carries its key"
  | KeylessPollUnreadable => error_ops 502 "upstream" "poll response unreadable or too large"
  | ProxyTransport => router_failed e
  end.
Definition newKeylessPollProxy : Source :=
  reverse_proxy (fun r => with_Header (header_del "Accept-Encoding" (r_Header r)) r) keyless_modify keyless_failed.

(** ** The guard ([main.go]) *)

Definition canonicalPath (path : string) (h : Handler W) : Handler W := fun r s => h (with_Path path "" r) s.

(** The first surface whose path, or a path under it, is spelled; the rest is verbatim. *)
Fixpoint fold_spelling (surfaces : list string) (r : ServerRequest) : ServerRequest :=
  match surfaces with
  | [] => r
  | surface :: surfaces =>
      let p := bytes_of (r_Path r) in
      let n := String.length surface in
      if equal_fold (r_Path r) surface then with_Path surface "" r
      else if Nat.ltb n (length p) && equal_fold (str_of (take (S n) p)) (surface +:+ "/")
      then with_Path (surface +:+ str_of (drop n p)) "" r
      else fold_spelling surfaces r
  end.
Definition sealedNamespaceGuard (surfaces : list string) (mux : Handler W) : Handler W :=
  fun r s => mux (fold_spelling surfaces r) s.

(** ** [ServeMux.ServeHTTP] *)

Definition http_error (code : Z) (msg : string) (s : fstate W) : fstate W :=
  let s := on_writer (on_header (header_del "Content-Length")) s in
  let s := set_header "X-Content-Type-Options" "nosniff" (set_header "Content-Type" "text/plain; charset=utf-8" s) in
  write (bytes_of msg ++ [newline]) (write_header code s).
(** But for the note a browser is shown with it. *)
Definition redirect (code : Z) (loc : string) (s : fstate W) : fstate W := write_header code (set_header "Location" loc s).
Definition mux_serve {A} (m : list (Pattern * A)) (serve_at : A -> Handler W) : Handler W := fun r s =>
  match mux_route m r with
  | Routed a values => serve_at a (with_PathValues values r) s
  | Redirected code loc => redirect code loc s
  | MethodNotAllowed allow => http_error 405 "Method Not Allowed" (set_header "Allow" (comma_join allow) s)
  | NotFound => http_error 404 "404 page not found" s
  | BadRequest => write_header 400 (set_header "Connection" "close" s)
  end.

(** ** The handler ([newHandler]) *)

Record entryPolicy := MkPolicy {
  openOrigins : bool;
  pol_sealModels : sealModels;
  catalogCacheTTL : Z;
  bodyReadTimeout : Z
}.
(** A minute, in nanoseconds. *)
Definition defaultBodyReadTimeout : Z := 60000000000.
Definition bodyRead (p : entryPolicy) : Z := if bodyReadTimeout p =? 0 then defaultBodyReadTimeout else bodyReadTimeout p.
Definition catalog_cached (p : entryPolicy) : bool :=
  let ttl := if catalogCacheTTL p =? 0 then defaultCatalogCacheTTL else catalogCacheTTL p in
  match newCatalogCache ttl with Some _ => true | None => false end.
Definition credentialsAllowed (p : entryPolicy) : bool := negb (openOrigins p).
Definition sealingOn (p : entryPolicy) : bool := negb (sm_off (pol_sealModels p)).

(** [g_identity]: this CVM's self-description as far as it is known, and whether that is
    all of it; [g_providers]: what it verified of its providers, served from memory;
    [g_files]: the file server of the evidence bundle; [g_quoter]: the quoter's answer to a
    nonce; [g_ready]: what is missing to serve a sealed request. *)
Record gateway := MkGateway {
  g_clients : gmap string Client;
  g_origins : list string;
  g_instanceID : string;
  g_files : option (Handler W);
  g_maxInFlight : Z;
  g_identity : option (W -> option bytes * bool);
  g_providers : option (Handler W);
  g_ready : W -> option string * W;
  g_quoter : option (string -> W -> cresult (HttpResponse cerr) * W);
  g_policy : entryPolicy
}.

(** Where a pattern of the outer mux leads. *)
Inductive spot :=
| Namespace | Sealed | SealedSlash (path : string) | Unserved (path : string)
| JobsOther | JobPoll | Healthz | Readyz | Identity | Providers | CatchAll.

Definition surfaces : list string := map ep_Path All ++ ["/v1/async/jobs"].

(** The mux's patterns; [served] says which rows this build has a client for. *)
Definition row_patterns (sealing : bool) (served : string -> bool) (path : string) : list (Pattern * spot) :=
  [(pattern (path +:+ "/"), Namespace); (pattern path, Namespace)] ++
  if negb sealing then []
  else if served path
       then [(pattern ("POST " +:+ path), Sealed); (pattern ("POST " +:+ path +:+ "/{$}"), SealedSlash path)]
       else [(pattern ("POST " +:+ path), Unserved path); (pattern ("POST " +:+ path +:+ "/{$}"), Unserved path)].
Definition identityPath : string := "/v1/gateway/identity".
Definition providerIdentityPath : string := "/v1/providers/{address}/identity".
Definition registrations (sealing : bool) (served : string -> bool) (identity providers : bool)
    : list (Pattern * spot) :=
  concat (map (row_patterns sealing served) (map ep_Path All)) ++
  [(pattern AsyncJobsPrefix, JobsOther); (pattern ("GET " +:+ AsyncJobsPrefix +:+ "{id}"), JobPoll);
   (pattern "GET /healthz", Healthz); (pattern "GET /readyz", Readyz)] ++
  (if identity then [(pattern ("GET " +:+ identityPath), Identity)] else []) ++
  (if providers then [(pattern ("GET " +:+ providerIdentityPath), Providers)] else []) ++
  [(pattern "/", CatchAll)].

Definition some {A} (o : option A) : bool := match o with Some _ => true | None => false end.

Section handler.
Context (g : gateway).

Definition passthrough : Handler W := MarkE2EE E2EEValueNone (serve newRouterProxy).
Definition cachedPassthrough : Handler W := MarkE2EE E2EEValueNone (wrap (catalog_cached (g_policy g)) newRouterProxy).

(** The inner mux of the sealed surfaces. *)
Definition served (path : string) : bool := some (g_clients g !! path).
Definition sealed_rows (served : string -> bool) : list (Pattern * string) :=
  map (fun path => (pattern ("POST " +:+ path), path)) (List.filter served (map ep_Path All)).
Definition row_of (path : string) : option Endpoint := List.find (fun ep => String.eqb (ep_Path ep) path) All.
Definition sealed_mux : Handler W :=
  mux_serve (sealed_rows served) (fun path r s =>
    match row_of path, g_clients g !! path with
    | Some ep, Some c => surface ep c (MkOptions false) (Some passthrough) r s
    | _, _ => s
    end).

Definition gated_routes : list (Pattern * bool) :=
  [(pattern ("GET " +:+ AsyncJobsPrefix +:+ "{id}"), true); (pattern "/", false)].
Definition gated : Handler W :=
  mux_serve gated_routes
    (fun poll : bool => if poll then AsyncJobPoll
                        else dispatch (pol_sealModels (g_policy g)) sealed_mux passthrough).
Definition sealedGate : Handler W :=
  let gate := RequireInferenceCredential (LimitInFlight (g_maxInFlight g) (BoundBodyRead (bodyRead (g_policy g)) gated)) in
  MarkE2EE E2EEValueSealed
    (if credentialsAllowed (g_policy g) then AcceptCookieCredential (g_origins g) gate else gate).
Definition keylessPoll : Handler W := MarkE2EE E2EEValueNone (serve newKeylessPollProxy).

Definition jobs_other : Handler W := fun r s =>
  if str_contains (trim_prefix (r_Path r) AsyncJobsPrefix) "." then
    WriteError 400 "gateway" ("a job id carrying a key is polled with GET " +:+ AsyncJobsPrefix
      +:+ "{id} only; this request is refused rather than forwarded") s
  else passthrough r s.
Definition job_poll : Handler W := fun r s => if HasJobKey r then sealedGate r s else keylessPoll r s.
Definition readyz : Handler W := fun r s =>
  let s := set_header "Content-Type" "text/plain" s in
  let '(missing, s) := ask (g_ready g) s in
  match missing with
  | Some err => write (bytes_of ("not ready: " +:+ err) ++ [newline]) (write_header 503 s)
  | None => write (bytes_of "ready" ++ [newline]) s
  end.

Definition identityCompleteMaxAge : string := "public, max-age=300".
Definition identityHandler (doc : W -> option bytes * bool) : Handler W := fun _ s =>
  match doc (f_world s) with
  | (None, _) => WriteError 503 "gateway" "gateway identity is not available yet" s
  | (Some body, complete) =>
      let s := add_header "Vary" "Origin" (set_header "Content-Type" "application/json" s) in
      write body (set_header "Cache-Control" (if complete then identityCompleteMaxAge else "no-cache") s)
  end.

Definition serve_spot (at_ : spot) : Handler W :=
  match at_ with
  | Namespace => passthrough
  | Sealed => sealedGate
  | SealedSlash path => canonicalPath path sealedGate
  | Unserved path => fun _ s => WriteError 501 "gateway" ("sealed POST " +:+ path +:+ " is not served by this gateway build") s
  | JobsOther => jobs_other
  | JobPoll => job_poll
  | Healthz => fun _ s => write (bytes_of "ok" ++ [newline]) (set_header "Content-Type" "text/plain" s)
  | Readyz => readyz
  | Identity => match g_identity g with Some doc => identityHandler doc | None => fun _ s => s end
  | Providers => default (fun _ s => s) (g_providers g)
  | CatchAll => cachedPassthrough
  end.
Definition mux : Handler W :=
  mux_serve (registrations (sealingOn (g_policy g)) served (some (g_identity g)) (some (g_providers g))) serve_spot.

(** ** The evidence bundle ([evidences.go]) and fresh evidence ([freshevidence.go]) *)

Definition evidencePrefix : string := "/evidences/".
Definition evidenceAllowMethods : string := "GET, HEAD, OPTIONS".
Definition evidenceAllowHeaders : string := "Content-Type, Range, If-None-Match, If-Modified-Since".
Definition evidenceMaxAge : string := "43200".
Definition evidenceRoute (next : Handler W) : Handler W :=
  match g_files g with
  | None => next
  | Some files => fun r s =>
      if negb (String.eqb (r_Path r) (trim_suffix evidencePrefix "/")) && negb (has_prefix (r_Path r) evidencePrefix)
      then next r s
      else
        let s := set_header "Access-Control-Expose-Headers" HeaderGatewayInstance
                   (set_header "Access-Control-Allow-Origin" "*" s) in
        if String.eqb (r_Method r) "OPTIONS" then
          write_header 204 (set_header "Access-Control-Max-Age" evidenceMaxAge
            (set_header "Access-Control-Allow-Headers" evidenceAllowHeaders
              (set_header "Access-Control-Allow-Methods" evidenceAllowMethods s)))
        else if negb (String.eqb (r_Method r) "GET") && negb (String.eqb (r_Method r) "HEAD") then
          WriteError 405 "gateway" "evidence bundle is read-only" (set_header "Allow" evidenceAllowMethods s)
        else if String.eqb (r_Path r) (trim_suffix evidencePrefix "/") then redirect 301 evidencePrefix s
        else files r (set_header "Cache-Control" "no-cache" s)
  end.

Definition freshEvidencePath : string := "/evidence".
Definition freshEvidenceMaxBody : Z := 1048576.
Definition quoted_evidence (quoter : string -> W -> cresult (HttpResponse cerr) * W) (r : ServerRequest)
    (s : fstate W) : fstate W :=
  match ParseNonce (query_get "nonce" (r_RawQuery r)) with
  | Err msg => WriteError 400 "gateway" msg s
  | Ok nonce =>
      let '(answer, s) := ask (quoter nonce) s in
      match answer with
      | Err _ => WriteError 502 "gateway" "quoter unreachable" s
      | Ok resp =>
          let status := hs_Status resp in
          if status =? 429 then
            WriteError 429 "gateway" "too many concurrent quote requests" (set_header "Retry-After" "1" s)
          else if status =? 503 then WriteError 503 "gateway" "certificate not issued yet" s
          else if negb (status =? StatusOK) then
            WriteError 502 "gateway" ("quoter returned " +:+ str_of (itoa status)) s
          else match read_all_limited (freshEvidenceMaxBody + 1) resp with
               | Ok body =>
                   if freshEvidenceMaxBody <? Z.of_nat (length body)
                   then WriteError 502 "gateway" "quoter reply unreadable" s
                   else write body (set_header "Content-Type" "application/json" s)
               | Err _ => WriteError 502 "gateway" "quoter reply unreadable" s
               end
      end
  end.
Definition freshEvidenceRoute (next : Handler W) : Handler W :=
  match g_quoter g with
  | None => next
  | Some quoter => fun r s =>
      if negb (String.eqb (r_Path r) freshEvidencePath) then next r s
      else
        let s := set_header "Cache-Control" "no-store" (set_header "Access-Control-Expose-Headers" HeaderGatewayInstance
                   (set_header "Access-Control-Allow-Origin" "*" s)) in
        if String.eqb (r_Method r) "GET" then quoted_evidence quoter r s
        else if String.eqb (r_Method r) "OPTIONS" then
          write_header 204 (set_header "Access-Control-Max-Age" evidenceMaxAge
            (set_header "Access-Control-Allow-Methods" "GET, OPTIONS" s))
        else WriteError 405 "gateway" "GET only" (set_header "Allow" "GET, OPTIONS" s)
  end.

Definition guarded : Handler W := sealedNamespaceGuard surfaces mux.
Definition newHandler : Handler W :=
  LogRequests (StampInstance (g_instanceID g) (evidenceRoute (freshEvidenceRoute
    (CORS (g_origins g) (credentialsAllowed (g_policy g)) guarded)))).
End handler.
End gateway.

(** ** Spellings *)

Definition is_ascii (c : ascii) : Prop := bval c < 128.
#[export] Instance is_ascii_dec c : Decision (is_ascii c).
Proof. unfold is_ascii. apply _. Defined.

Lemma fold_two a b : fold_ascii [a; b] = if (bval a =? 197) && (bval b =? 191) then ["S"%char] else [upper a; upper b].
Proof. done. Qed.
Lemma fold_three a b c r :
  fold_ascii (a :: b :: c :: r)
  = if (bval a =? 226) && (bval b =? 132) && (bval c =? 170) then "K"%char :: fold_ascii r
    else if (bval a =? 197) && (bval b =? 191) then "S"%char :: fold_ascii (c :: r)
    else upper a :: fold_ascii (b :: c :: r).
Proof. done. Qed.

Lemma fold_s a b r : bval a = 197 -> bval b = 191 -> fold_ascii (a :: b :: r) = "S"%char :: fold_ascii r.
Proof. intros Ea Eb. destruct r as [|c r]; [rewrite fold_two|rewrite fold_three]; by rewrite Ea, Eb. Qed.
Lemma fold_k a b c r :
  bval a = 226 -> bval b = 132 -> bval c = 170 -> fold_ascii (a :: b :: c :: r) = "K"%char :: fold_ascii r.
Proof. intros Ea Eb Ec. by rewrite fold_three, Ea, Eb, Ec. Qed.

Lemma fold_cons a l :
  fold_ascii (a :: l) = upper a :: fold_ascii l \/
  (exists b c r, l = b :: c :: r /\ bval a = 226 /\ bval b = 132 /\ bval c = 170) \/
  (exists b r, l = b :: r /\ bval a = 197 /\ bval b = 191).
Proof.
  destruct l as [|b [|c r]]; [by left|rewrite fold_two|rewrite fold_three].
  - destruct (Z.eqb_spec (bval a) 197), (Z.eqb_spec (bval b) 191); cbn [andb]; [|by left..]. right. right. by exists b, [].
  - destruct (Z.eqb_spec (bval a) 226), (Z.eqb_spec (bval b) 132), (Z.eqb_spec (bval c) 170); cbn [andb];
      try (by right; left; exists b, c, r);
      (destruct (Z.eqb_spec (bval a) 197), (Z.eqb_spec (bval b) 191); cbn [andb]; [|by left..]; right; right; by exists b, (c :: r)).
Qed.

Lemma fold_cons_ascii a l : is_ascii a -> fold_ascii (a :: l) = upper a :: fold_ascii l.
Proof.
  unfold is_ascii. intros Ha.
  destruct (fold_cons a l) as [?|[(? & ? & ? & _ & E & _)|(? & ? & _ & E & _)]]; [done|lia|lia].
Qed.
Lemma fold_app_ascii x l : Forall is_ascii x -> fold_ascii (x ++ l) = fold_ascii x ++ fold_ascii l.
Proof.
  induction 1 as [|a x Ha _ IH]; [done|]. cbn [app]. by rewrite !fold_cons_ascii, IH.
Qed.

Lemma upper_ascii a : is_ascii (upper a) -> is_ascii a.
Proof.
  revert a. apply (all_bytes_forall (fun a => is_ascii (upper a) -> is_ascii a)). vm_compute. reflexivity.
Qed.

(** What folds to ASCII within a cut folds to it without. *)
Lemma fold_take k l : Forall is_ascii (fold_ascii (take k l)) -> fold_ascii (take k l) `prefix_of` fold_ascii l.
Proof.
  remember (length l) as n eqn:Hn. revert k l Hn. induction (lt_wf n) as [n _ IH]. intros k l Hn Ha.
  destruct k as [|k]; [apply prefix_nil|]. destruct l as [|a l]; [done|]. cbn [take] in *.
  destruct (fold_cons a (take k l)) as [E|[(b & c & r & El & Ea & Eb & Ec)|(b & r & El & Ea & Eb)]].
  - rewrite E in Ha |- *. apply Forall_cons in Ha as [Hu Ha]. apply upper_ascii in Hu. rewrite (fold_cons_ascii a l) by done.
    apply prefix_cons. eapply IH; [|reflexivity|exact Ha]. cbn in Hn. lia.
  - destruct k as [|[|k]], l as [|b' [|c' l]]; try done. cbn [take] in El, Ha |- *. injection El as <- <- <-.
    rewrite fold_k in Ha |- * by done. rewrite (fold_k a b' c' l) by done. apply Forall_cons in Ha as [_ Ha]. apply prefix_cons.
    eapply IH; [|reflexivity|exact Ha]. cbn in Hn. lia.
  - destruct k as [|k], l as [|b' l]; try done. cbn [take] in El, Ha |- *. injection El as <- <-.
    rewrite fold_s in Ha |- * by done. rewrite (fold_s a b' l) by done. apply Forall_cons in Ha as [_ Ha]. apply prefix_cons.
    eapply IH; [|reflexivity|exact Ha]. cbn in Hn. lia.
Qed.

Lemma fold_length l : (length (fold_ascii l) <= length l)%nat.
Proof.
  remember (length l) as n eqn:Hn. revert l Hn. induction (lt_wf n) as [n _ IH]. intros l ->. destruct l as [|a l]; [done|].
  destruct (fold_cons a l) as [E|[(b & c & r & -> & Ea & Eb & Ec)|(b & r & -> & Ea & Eb)]].
  - rewrite E. cbn. apply le_n_S. eapply IH; [|reflexivity]. cbn. lia.
  - rewrite fold_k by done. cbn. assert (length (fold_ascii r) <= length r)%nat; [|lia]. eapply IH; [|reflexivity]. cbn. lia.
  - rewrite fold_s by done. cbn. assert (length (fold_ascii r) <= length r)%nat; [|lia]. eapply IH; [|reflexivity]. cbn. lia.
Qed.

(** What folds to ASCII of its own length is ASCII. *)
Lemma fold_even l :
  Forall is_ascii (fold_ascii l) -> length (fold_ascii l) = length l -> Forall is_ascii l /\ fold_ascii l = map upper l.
Proof.
  induction l as [|a l IH]; intros Ha Hl; [done|].
  destruct (fold_cons a l) as [E|[(b & c & r & -> & Ea & Eb & Ec)|(b & r & -> & Ea & Eb)]].
  - rewrite E in Ha, Hl |- *. apply Forall_cons in Ha as [Hu Ha]. injection Hl as Hl. destruct (IH Ha Hl) as [Hal ->].
    split; [|done]. constructor; [by apply upper_ascii|done].
  - rewrite fold_k in Hl by done. pose proof (fold_length r). cbn in Hl. lia.
  - rewrite fold_s in Hl by done. pose proof (fold_length r). cbn in Hl. lia.
Qed.

Lemma equal_fold_iff a b : equal_fold a b = true <-> fold_ascii (bytes_of a) = fold_ascii (bytes_of b).
Proof. apply bool_decide_eq_true. Qed.

(** The surface a path is first held against, by what the path folds to. *)
Definition under (s : string) (y : bytes) : bool := bool_decide (fold_ascii (bytes_of (s +:+ "/")) `prefix_of` y).
Fixpoint first_spelled (l : list string) (y : bytes) : option string :=
  match l with
  | [] => None
  | s :: l => if bool_decide (fold_ascii (bytes_of s) = y) || under s y then Some s else first_spelled l y
  end.
Definition plain_text (s : string) : bool := forallb (fun c => bval c <? 128) (bytes_of (s +:+ "/")).

Lemma upper_is_ascii a : is_ascii a -> is_ascii (upper a).
Proof.
  revert a. apply (all_bytes_forall (fun a => is_ascii a -> is_ascii (upper a))). vm_compute. reflexivity.
Qed.
Lemma plain_fold s : plain_text s = true ->
  Forall is_ascii (bytes_of (s +:+ "/")) /\ fold_ascii (bytes_of (s +:+ "/")) = map upper (bytes_of (s +:+ "/")) /\
  Forall is_ascii (fold_ascii (bytes_of (s +:+ "/"))).
Proof.
  unfold plain_text. rewrite forallb_forall. intros Hp.
  assert (Forall is_ascii (bytes_of (s +:+ "/"))) as Ha.
  { apply Forall_forall. intros c Hc. apply Z.ltb_lt, Hp. by apply list_elem_of_In. }
  assert (fold_ascii (bytes_of (s +:+ "/")) = map upper (bytes_of (s +:+ "/"))) as Hf.
  { revert Ha. clear. induction 1 as [|a l Ha _ IH]; [done|]. by rewrite fold_cons_ascii, IH. }
  split_and!; [done|done|]. rewrite Hf. apply Forall_map. eapply Forall_impl; [exact Ha|]. intros c. apply upper_is_ascii.
Qed.

Lemma not_under s p : plain_text s = true -> under s (fold_ascii (bytes_of p)) = false ->
  equal_fold (str_of (take (S (String.length s)) (bytes_of p))) (s +:+ "/") = false.
Proof.
  intros Hp Hu. apply not_true_is_false. intros E%equal_fold_iff. rewrite bytes_of_str_of in E.
  apply bool_decide_eq_false in Hu. destruct Hu. rewrite <-E. apply fold_take. rewrite E. by apply plain_fold.
Qed.

Lemma fold_spelling_exact l r s :
  forallb plain_text l = true -> first_spelled l (fold_ascii (bytes_of s)) = Some s ->
  equal_fold (r_Path r) s = true -> fold_spelling l r = with_Path s "" r.
Proof.
  intros Hp Hf He%equal_fold_iff. induction l as [|s0 l IH]; [done|]. cbn in Hp, Hf. apply andb_true_iff in Hp as [Hp0 Hp].
  cbn [fold_spelling]. destruct (equal_fold (r_Path r) s0) eqn:E0.
  - apply equal_fold_iff in E0. rewrite He in E0. rewrite (bool_decide_true _ (eq_sym E0)) in Hf. by injection Hf as ->.
  - destruct (bool_decide _) eqn:Eb.
    { apply bool_decide_eq_true in Eb. apply not_true_iff_false in E0. destruct E0. apply equal_fold_iff. by rewrite He. }
    cbn [orb] in Hf. destruct (under s0 _) eqn:Eu.
    { injection Hf as ->. by rewrite bool_decide_true in Eb. }
    rewrite not_under, andb_false_r by (try done; by rewrite He). by apply IH.
Qed.

Lemma upper_slash c : "/"%char = upper c -> c :: [] = bytes_of "/".
Proof. revert c. apply (all_bytes_forall (fun c => "/"%char = upper c -> [c] = bytes_of "/")). vm_compute. reflexivity. Qed.

Lemma fold_spelling_under l r s pre rest :
  forallb plain_text l = true ->
  bytes_of (r_Path r) = pre ++ rest -> length pre = S (String.length s) ->
  equal_fold (str_of pre) (s +:+ "/") = true ->
  first_spelled l (fold_ascii (bytes_of (r_Path r))) = Some s -> equal_fold (r_Path r) s = false ->
  fold_spelling l r = with_Path (s +:+ "/" +:+ str_of rest) "" r.
Proof.
  intros Hp Er Hl Hpre. revert Hp. induction l as [|s0 l IH]; [done|]. cbn [forallb first_spelled fold_spelling].
  intros [Hp0 Hp]%andb_true_iff Hf Hne.
  destruct (equal_fold (r_Path r) s0) eqn:E0.
  { apply equal_fold_iff in E0 as E1. rewrite (bool_decide_true _ (eq_sym E1)) in Hf. injection Hf as ->. congruence. }
  rewrite (bool_decide_false (fold_ascii _ = _)) in Hf
    by (intros E; apply not_true_iff_false in E0; apply E0, equal_fold_iff; done).
  cbn [orb] in Hf. destruct (under s0 _) eqn:Eu; [|rewrite not_under, andb_false_r by done; by apply IH].
  injection Hf as ->. rewrite Er, <-Hl, take_app_length, Hpre, length_app. cbn [andb].
  destruct (Nat.ltb_spec (String.length s) (length pre + length rest)); [|lia]. cbn [andb]. f_equal. f_equal.
  apply equal_fold_iff in Hpre. rewrite bytes_of_str_of in Hpre.
  destruct (plain_fold _ Hp0) as (Ha & Hup & Hfa). rewrite Hup in Hpre, Hfa.
  destruct (fold_even pre) as [Hpa Hpu]; [by rewrite Hpre|rewrite Hpre, length_map, bytes_of_app, length_app, <-length_bytes_of; cbn; lia|].
  apply bytes_of_inj. rewrite !bytes_of_app, !bytes_of_str_of.
  rewrite Hpre, bytes_of_app, map_app in Hpu. change (map upper (bytes_of "/")) with ["/"%char] in Hpu.
  destruct pre as [|c pre] using rev_ind; [done|]. rewrite map_app in Hpu. cbn [map] in Hpu.
  apply app_inj_tail in Hpu as [_ Hc]. rewrite length_app in Hl. cbn in Hl.
  assert (length pre = String.length s) as <- by lia. rewrite <-app_assoc, drop_app_length. f_equal. f_equal.
  by apply upper_slash.
Qed.

(** ** Where the mux sends a surface's requests *)

(** Routing reads a request's method and path only; the query is for redirects. *)
Definition bare (method path raw : string) : ServerRequest := MkServerRequest method path raw "" ∅ [] (0, None) ∅.
Lemma mux_route_bare {A} (m : list (Pattern * A)) r a values :
  mux_route m (bare (r_Method r) (r_Path r) (r_RawPath r)) = Routed a values -> mux_route m r = Routed a values.
Proof.
  unfold mux_route. change (EscapedPath (bare _ _ _)) with (EscapedPath r). cbn [r_Method r_Path r_RawQuery bare].
  destruct (String.eqb (r_Path r) "*"); [done|]. destruct (negb (exact_match _ _) && _ && _); [done|].
  by destruct (_ && negb (String.eqb _ _)).
Qed.

Fixpoint sublists {A} (l : list A) : list (list A) :=
  match l with [] => [[]] | x :: l => let r := sublists l in map (cons x) r ++ r end.
Lemma filter_sublists {A} (f : A -> bool) l : List.filter f l ∈ sublists l.
Proof.
  induction l as [|x l IH]; cbn; [by left|]. apply elem_of_app. destruct (f x); [left|by right].
  by apply list_elem_of_fmap_2.
Qed.

Definition paths : list string := map ep_Path All.
Lemma served_filter f p : p ∈ paths -> f p = contains (List.filter f paths) p.
Proof.
  intros Hp. apply eq_true_iff_eq. rewrite contains_spec, list_elem_of_In, filter_In, <-list_elem_of_In. naive_solver.
Qed.

(** A build is told by the rows it serves. *)
Lemma registrations_served sealing f i p :
  registrations sealing f i p = registrations sealing (contains (List.filter f paths)) i p.
Proof.
  unfold registrations. do 2 f_equal. apply map_ext_in. intros path Hp. unfold row_patterns.
  rewrite (served_filter f) by by apply list_elem_of_In. done.
Qed.

Definition same_spot (a b : spot) : bool :=
  match a, b with
  | Sealed, Sealed => true
  | SealedSlash p, SealedSlash q | Unserved p, Unserved q => String.eqb p q
  | _, _ => false
  end.
Definition leads (m : list (Pattern * spot)) (path : string) (a : spot) : bool :=
  match mux_route m (bare "POST" path "") with Routed b values => same_spot a b && bool_decide (values = ∅) | _ => false end.
Lemma surface_routes_checked :
  forallb (fun l => forallb (fun i => forallb (fun p =>
    let m := registrations true (contains l) i p in
    forallb (fun path => leads m path (if contains l path then Sealed else Unserved path) &&
                         leads m (path +:+ "/") (if contains l path then SealedSlash path else Unserved path)) paths)
    [true; false]) [true; false]) (sublists paths) = true.
Proof. vm_cast_no_check (eq_refl true). Qed.

Lemma sealed_routes_checked :
  forallb (fun l => forallb (fun path =>
    match mux_route (sealed_rows (contains l)) (bare "POST" path "") with
    | Routed q values => String.eqb q path && bool_decide (values = ∅)
    | _ => false
    end) (List.filter (contains l) paths)) (sublists paths) = true.
Proof. vm_cast_no_check (eq_refl true). Qed.
Lemma gated_routes_checked :
  forallb (fun path => match mux_route gated_routes (bare "POST" path "") with
                       | Routed poll values => negb poll && bool_decide (values = ∅)
                       | _ => false end) paths = true.
Proof. vm_cast_no_check (eq_refl true). Qed.

(** A request for a surface as the mux gets it from the guard. *)
Record at_surface (path : string) (r : ServerRequest) : Prop := {
  as_path : r_Path r = path;
  as_raw : r_RawPath r = "";
  as_post : r_Method r = "POST"
}.

Lemma leads_route m path a r : leads m path a = true -> at_surface path r -> mux_route m r = Routed a ∅.
Proof.
  unfold leads. intros Hl [E1 E2 E3]. apply mux_route_bare. rewrite E1, E2, E3. revert Hl.
  destruct (mux_route _ _) as [b values| | | |]; try done. intros [Hs Hv]%andb_true_iff. apply bool_decide_eq_true in Hv as ->.
  f_equal. destruct a, b; cbn in Hs; try done; by apply String.eqb_eq in Hs as ->.
Qed.
Lemma surface_route path f i p r :
  path ∈ paths ->
  (at_surface path r -> mux_route (registrations true f i p) r = Routed (if f path then Sealed else Unserved path) ∅) /\
  (at_surface (path +:+ "/") r ->
   mux_route (registrations true f i p) r = Routed (if f path then SealedSlash path else Unserved path) ∅).
Proof.
  intros Hin. rewrite registrations_served, (served_filter f) by done.
  pose proof surface_routes_checked as Hc. rewrite forallb_forall in Hc.
  specialize (Hc _ (proj1 (list_elem_of_In _ _) (filter_sublists f paths))). rewrite forallb_forall in Hc.
  specialize (Hc i ltac:(by destruct i; auto with datatypes)). rewrite forallb_forall in Hc.
  specialize (Hc p ltac:(by destruct p; auto with datatypes)). cbv zeta in Hc. rewrite forallb_forall in Hc.
  apply list_elem_of_In in Hin. specialize (Hc _ Hin). apply andb_true_iff in Hc as [H1' H2'].
  split; by apply leads_route.
Qed.
Lemma sealed_route path f r :
  path ∈ paths -> f path = true -> at_surface path r -> mux_route (sealed_rows f) r = Routed path ∅.
Proof.
  intros Hin Hf [E1 E2 E3]. apply mux_route_bare. rewrite E1, E2, E3.
  assert (sealed_rows f = sealed_rows (contains (List.filter f paths))) as ->.
  { unfold sealed_rows. f_equal. apply filter_ext_in. intros q Hq. apply served_filter. by apply list_elem_of_In. }
  pose proof sealed_routes_checked as Hc. rewrite forallb_forall in Hc.
  specialize (Hc _ (proj1 (list_elem_of_In _ _) (filter_sublists f paths))). rewrite forallb_forall in Hc.
  specialize (Hc path). rewrite filter_In, <-(served_filter f) in Hc by done.
  specialize (Hc (conj (proj1 (list_elem_of_In _ _) Hin) Hf)). revert Hc.
  destruct (mux_route _ _) as [q values| | | |]; try done. intros [->%String.eqb_eq Hv]%andb_true_iff.
  by apply bool_decide_eq_true in Hv as ->.
Qed.
Lemma gated_route path r : path ∈ paths -> at_surface path r -> mux_route gated_routes r = Routed false ∅.
Proof.
  intros Hin [E1 E2 E3]. apply mux_route_bare. rewrite E1, E2, E3.
  pose proof gated_routes_checked as Hc. rewrite forallb_forall in Hc. apply list_elem_of_In in Hin. specialize (Hc _ Hin).
  revert Hc. destruct (mux_route _ _) as [[] values| | | |]; try done. cbn. by intros ->%bool_decide_eq_true.
Qed.

Lemma row_of_path ep : ep ∈ All -> row_of (ep_Path ep) = Some ep.
Proof. revert ep. apply Forall_forall. repeat constructor. Qed.

(** ** What a handler lets out *)

Section emits.
Context {W : Type} `{World W} `{FrontWorld W} `{Wording}.
Definition emits (P : fevent -> Prop) (s s' : fstate W) : Prop := exists l, f_log s' = f_log s ++ l /\ Forall P l.

Lemma emits_none P s s' : f_log s' = f_log s -> emits P s s'.
Proof. intros E. exists []. by rewrite app_nil_r. Qed.
Lemma emits_from P s s1 s' : f_log s1 = f_log s -> emits P s1 s' -> emits P s s'.
Proof. intros E (l & Hl & HF). exists l. by rewrite Hl, E. Qed.
Lemma emits_then P s s1 s' : f_log s' = f_log s1 -> emits P s s1 -> emits P s s'.
Proof. intros E (l & Hl & HF). exists l. by rewrite E, Hl. Qed.

(** [Q] holds of the requests a wrapper makes of one it holds of. *)
Record kept_by_wrapping (Q : ServerRequest -> Prop) : Prop := {
  kw_header r h : Q r -> Q (with_Header h r);
  kw_body r b e : Q r -> Q (with_Body b e r)
}.

Context (P : fevent -> Prop) (Q : ServerRequest -> Prop) (HQ : kept_by_wrapping Q).
Context (h : Handler W) (Hh : forall r s, Q r -> emits P s (h r s)).

Lemma MarkE2EE_emits v r s : Q r -> emits P s (MarkE2EE v h r s).
Proof. intros Hq. unfold MarkE2EE. by eapply emits_from, Hh. Qed.
Lemma StampInstance_emits v r s : Q r -> emits P s (StampInstance v h r s).
Proof. intros Hq. unfold StampInstance. destruct (String.eqb v ""); [by apply Hh|by eapply emits_from, Hh]. Qed.
Lemma RequireInferenceCredential_emits r s : Q r -> emits P s (RequireInferenceCredential h r s).
Proof.
  intros Hq. unfold RequireInferenceCredential. destruct (String.eqb _ ""); [by apply emits_none|].
  destruct (has_prefix _ _); [by apply emits_none|by apply Hh].
Qed.
Lemma AcceptCookieCredential_emits o r s : Q r -> emits P s (AcceptCookieCredential o h r s).
Proof.
  intros Hq. unfold AcceptCookieCredential. destruct (negb _); [by apply Hh|]. destruct (Cookie _ _); [|by apply Hh].
  destruct (String.eqb _ ""); [by apply Hh|]. destruct (_ || _); [by apply emits_none|]. by apply Hh, (kw_header _ HQ).
Qed.
Lemma LimitInFlight_emits n r s : Q r -> emits P s (LimitInFlight n h r s).
Proof.
  intros Hq. unfold LimitInFlight. destruct (n <=? 0); [by apply Hh|]. destruct (_ <? _).
  - eapply emits_then; [|eapply emits_from; [|apply Hh]]; done.
  - unfold ask. destruct (retryAfterSeconds _). by apply emits_none.
Qed.
Lemma BoundBodyRead_emits d r s : Q r -> emits P s (BoundBodyRead d h r s).
Proof.
  intros Hq. unfold BoundBodyRead. destruct (d <=? 0); [by apply Hh|]. apply Hh. destruct (reaches _); [|done].
  unfold read_until. destruct (_ || _); [by apply (kw_body _ HQ)|done].
Qed.
Lemma CORS_emits o a r s : Q r -> emits P s (CORS o a h r s).
Proof.
  intros Hq. unfold CORS. destruct (String.eqb _ ""); [by apply Hh|]. cbv zeta.
  destruct (negb (originAllowed _ _)); [destruct (_ && _); [by apply emits_none|by eapply emits_from, Hh]|].
  destruct (_ && _); [apply emits_none; by destruct a|]. eapply emits_from; [|by apply Hh]. by destruct a.
Qed.
(** The log's own line comes last. *)
Lemma LogRequests_emits r s :
  (forall l, ln_path l = RedactJobPath (r_Path r) -> P (FLine l)) -> Q r -> emits P s (LogRequests h r s).
Proof.
  intros Hline Hq. unfold LogRequests. destruct (String.eqb _ _); [by apply Hh|].
  destruct (ask _ s) as [id s1] eqn:Ea. assert (f_log s1 = f_log s) as E1
    by (unfold ask in Ea; destruct (requestID _ _); by injection Ea as _ <-).
  cbv zeta. set (s2 := set_shed false _). destruct (Hh r s2 Hq) as (l & Hl & HF).
  destruct (f_panic (h r s2)); [exists l; by rewrite Hl; cbn; rewrite E1|].
  exists (l ++ [FLine (MkLogLine (level_of (f_shed (h r s2)) (status_of (f_writer (h r s2)))) id (r_Method r)
                          (RedactJobPath (r_Path r)) (status_of (f_writer (h r s2)))
                          (now (f_world (h r s2)) - now (f_world s2))
                          (Z.of_nat (length (w_Out (f_writer (h r s2)))) - Z.of_nat (length (w_Out (f_writer s2))))
                          (negb (String.eqb (header_get (r_Header r) headerProviderPin) ""))
                          (String.eqb (header_get (w_Header (f_writer (h r s2))) "Content-Type") "text/event-stream")
                          (f_shed (h r s2)))]).
  split; [cbn; rewrite Hl; cbn; by rewrite E1, app_assoc|].
  apply Forall_app. split; [done|]. repeat constructor. by apply Hline.
Qed.
End emits.

(** ** Sealed surfaces *)

(** A path spelled up to case, with or without a slash after it; [q] is what [p] stands for. *)
Definition spells (p path q : string) : Prop :=
  (equal_fold p path = true /\ q = path) \/
  (equal_fold p (path +:+ "/") = true /\ String.length p = S (String.length path) /\ q = path +:+ "/").

Definition clash (x : string) (y : bytes) : bool := negb (bool_decide (fold_ascii (bytes_of x) `prefix_of` y)).
Definition spelled_as (path q : string) : bool := bool_decide (first_spelled surfaces (fold_ascii (bytes_of q)) = Some path).
Lemma spellings_checked :
  forallb (fun path => spelled_as path path) paths = true /\
  forallb (fun path => spelled_as path (path +:+ "/")) paths = true /\
  forallb (fun path => negb (equal_fold (path +:+ "/") path)) paths = true /\
  forallb (fun path => clash "/evidence" (fold_ascii (bytes_of path))) paths = true /\
  forallb (fun path => clash "/evidence" (fold_ascii (bytes_of (path +:+ "/")))) paths = true /\
  forallb plain_text surfaces = true.
Proof. split_and!; vm_cast_no_check (eq_refl true). Qed.
Lemma forallb_at {A} (f : A -> bool) l x : forallb f l = true -> x ∈ l -> f x = true.
Proof. intros Hf Hx%list_elem_of_In. by apply (proj1 (forallb_forall f l)). Qed.
Lemma spelled_as_first path q : spelled_as path q = true -> first_spelled surfaces (fold_ascii (bytes_of q)) = Some path.
Proof. apply bool_decide_eq_true_1. Qed.

Lemma spells_folds p path q r :
  path ∈ paths -> spells p path q -> r_Path r = p -> fold_spelling surfaces r = with_Path q "" r.
Proof.
  destruct spellings_checked as (C1 & C2 & C3 & _ & _ & Hp). intros Hin Hs Hr.
  apply forallb_at with (x := path), spelled_as_first in C1; [|exact Hin].
  apply forallb_at with (x := path), spelled_as_first in C2; [|exact Hin].
  apply forallb_at with (x := path) in C3; [|exact Hin]. apply negb_true_iff in C3.
  destruct Hs as [[He ->]|(He & Hl & ->)].
  - apply fold_spelling_exact; [exact Hp|exact C1|by rewrite Hr].
  - apply equal_fold_iff in He as He'. rewrite (fold_spelling_under surfaces r path (bytes_of p) []).
    + f_equal.
    + exact Hp.
    + by rewrite Hr, app_nil_r.
    + by rewrite <-length_bytes_of.
    + by rewrite str_of_bytes_of.
    + rewrite Hr, He'. exact C2.
    + rewrite Hr. apply not_true_iff_false. rewrite equal_fold_iff, He', <-equal_fold_iff. by apply not_true_iff_false.
Qed.

(** No spelling of a surface is one of the evidence paths, which a prefix tells. *)
Definition no_evidence (p : string) : Prop := has_prefix p "/evidence" = false.
Lemma spells_no_evidence p path q : path ∈ paths -> spells p path q -> no_evidence p.
Proof.
  destruct spellings_checked as (_ & _ & _ & Hy & Hy' & _). intros Hin Hs.
  apply forallb_at with (x := path) in Hy; [|exact Hin]. apply forallb_at with (x := path) in Hy'; [|exact Hin].
  unfold clash in Hy, Hy'. rewrite negb_true_iff, bool_decide_eq_false in Hy, Hy'.
  apply not_true_is_false. intros [rest Hr]%has_prefix_iff.
  assert (fold_ascii (bytes_of "/evidence") `prefix_of` fold_ascii (bytes_of p)) as Hpre.
  { rewrite Hr, fold_app_ascii; [by apply prefix_app_r|]. apply (bool_decide_unpack _). vm_compute. exact I. }
  destruct Hs as [[He%equal_fold_iff _]|(He%equal_fold_iff & _)]; rewrite He in Hpre; done.
Qed.

Section sealed.
Context {W : Type} `{World W} `{Outside W} `{StreamReads W} `{FrontWorld W} `{CatalogWorld W}.
Context `{Wording} `{MimeLib} `{Jcs} `{HpkeLib} `{FloatLib} `{CaseLib}.
Context (g : gateway (W := W)).

Lemma evidenceRoute_emits P h r (s : fstate W) :
  no_evidence (r_Path r) -> emits P s (h r s) -> emits P s (evidenceRoute g h r s).
Proof.
  intros Hn Hh. unfold evidenceRoute. destruct (g_files g); [|done].
  destruct (String.eqb_spec (r_Path r) (trim_suffix evidencePrefix "/")) as [E|_].
  { exfalso. unfold no_evidence in Hn. rewrite E in Hn. by vm_compute in Hn. }
  destruct (has_prefix (r_Path r) evidencePrefix) eqn:E; [|done]. exfalso.
  apply has_prefix_iff in E as [rest Hr]. apply not_true_iff_false in Hn. apply Hn, has_prefix_iff.
  exists (bytes_of "s/" ++ rest). by rewrite Hr.
Qed.
Lemma freshEvidenceRoute_emits P h r (s : fstate W) :
  no_evidence (r_Path r) -> emits P s (h r s) -> emits P s (freshEvidenceRoute g h r s).
Proof.
  intros Hn Hh. unfold freshEvidenceRoute. destruct (g_quoter g); [|done].
  destruct (String.eqb_spec (r_Path r) freshEvidencePath) as [E|_]; [|done].
  exfalso. unfold no_evidence in Hn. rewrite E in Hn. by vm_compute in Hn.
Qed.

Lemma passthrough_emits P r (s : fstate W) : P (FForward r) -> emits P s (passthrough r s).
Proof.
  intros HP. exists [FForward r]. split; [|by repeat constructor]. unfold passthrough, MarkE2EE, serve, newRouterProxy, reverse_proxy, ask.
  cbn [id]. destruct (relay _ _) as [answer w]. destruct (match answer with Ok resp => _ | Err _ => _ end) as [resp|e]; [|done].
  cbn. by destruct (hs_BodyErr resp).
Qed.

(** The request was to be sent in the clear: its model was read, and is not one the
    deployment seals; or it is an async submit that asks for urls. *)
Definition decided_clear (ep : Endpoint) (r : ServerRequest) : Prop :=
  sent_clear ep r \/
  (seals_all (pol_sealModels (g_policy g)) = false /\ sm_surfaces (pol_sealModels (g_policy g)) !! ep_Path ep = None /\
   exists model, seals (pol_sealModels (g_policy g)) model = false /\
     let '(buf, err) := read_limit (maxPassthroughBytes + 1) r in
     modelOf buf (header_get (r_Header r) "Content-Type") err (Z.of_nat (length buf)) = Ok model).

(** What may leave for a request to a sealed surface. *)
Definition leaves_sealed (ep : Endpoint) (e : fevent) : Prop :=
  match e with
  | FForward r => decided_clear ep r
  | FClient e => exists c cx, g_clients g !! ep_Path ep = Some c /\ kept_secret c cx e
  | FPoll _ => False
  | FLine _ => True
  end.

Section surface.
Context (ep : Endpoint) (Hep : ep ∈ All).

Lemma in_paths : ep_Path ep ∈ paths.
Proof. by apply list_elem_of_fmap_2. Qed.

Lemma at_surface_wrapping : kept_by_wrapping (at_surface (ep_Path ep)).
Proof. split; [intros r h [E1 E2 E3]|intros r b e [E1 E2 E3]]; by split. Qed.

Lemma sealed_mux_emits r (s : fstate W) :
  served g (ep_Path ep) = true -> at_surface (ep_Path ep) r -> emits (leaves_sealed ep) s (sealed_mux g r s).
Proof.
  intros Hs Hr. unfold sealed_mux, mux_serve. rewrite (sealed_route (ep_Path ep)) by (done || apply in_paths).
  rewrite row_of_path by done. unfold served in Hs. destruct (g_clients g !! ep_Path ep) as [c|] eqn:Ec; [|done].
  destruct (surface_out ep c (MkOptions false) (Some passthrough) (with_PathValues ∅ r) s) as [(l & Hl & HF)|[Hclear (h & [= <-] & ->)]].
  - exists (map FClient l). split; [done|]. apply Forall_map. eapply Forall_impl; [exact HF|]. intros e He. cbn. eauto.
  - apply passthrough_emits. by left.
Qed.

Lemma gated_emits r (s : fstate W) :
  served g (ep_Path ep) = true -> at_surface (ep_Path ep) r -> emits (leaves_sealed ep) s (gated g r s).
Proof.
  intros Hs Hr. unfold gated, mux_serve. rewrite (gated_route (ep_Path ep)) by (done || apply in_paths).
  assert (at_surface (ep_Path ep) (with_PathValues ∅ r)) as Hr' by by destruct Hr.
  revert Hr'. generalize (with_PathValues ∅ r). clear r Hr. intros r Hr. unfold dispatch.
  destruct (seals_all _) eqn:Ea; [by apply sealed_mux_emits|]. rewrite (as_path _ _ Hr).
  destruct (sm_surfaces _ !! _) eqn:Es; [by apply sealed_mux_emits|].
  destruct (read_limit _ r) as [buf err] eqn:Er. destruct (modelOf _ _ _ _) as [model|] eqn:Em; [|by apply sealed_mux_emits].
  destruct (seals _ model) eqn:Ese; [by apply sealed_mux_emits|]. apply passthrough_emits. right.
  split_and!; [done|done|]. exists model. split; [done|]. by rewrite Er.
Qed.

Lemma sealedGate_emits r (s : fstate W) :
  served g (ep_Path ep) = true -> at_surface (ep_Path ep) r -> emits (leaves_sealed ep) s (sealedGate g r s).
Proof.
  intros Hs. pose proof at_surface_wrapping as HQ. revert r s. unfold sealedGate. cbv zeta.
  assert (forall r (s : fstate W), at_surface (ep_Path ep) r -> emits (leaves_sealed ep) s
    (RequireInferenceCredential (LimitInFlight (g_maxInFlight g) (BoundBodyRead (bodyRead (g_policy g)) (gated g))) r s)) as Hg.
  { intros r s. apply RequireInferenceCredential_emits. clear r s. intros r s. apply LimitInFlight_emits. clear r s. intros r s.
    apply BoundBodyRead_emits; [done|]. clear r s. intros r s. by apply gated_emits. }
  intros r s. apply MarkE2EE_emits. clear r s. intros r s. destruct (credentialsAllowed _); [|by apply Hg].
  by apply AcceptCookieCredential_emits.
Qed.
End surface.

(** C15: what is to be sealed is sealed. When the deployment seals, a POST to a sealed surface,
    however its path is capitalised or its slashes are encoded, lets nothing out but what
    the surface's client posts, sealed and without the fields it seals, and the line of the
    log; unless its model was read off the body and is one the deployment does not seal, or
    it is an async submit that asks for urls: only then is it handed to the router in the
    clear, and a surface this build has no client for is refused. *)
Theorem sealed_stays_sealed ep r q (s : fstate W) :
  ep ∈ All -> sealingOn (g_policy g) = true -> r_Method r = "POST" -> spells (r_Path r) (ep_Path ep) q ->
  emits (leaves_sealed ep) s (newHandler g r s).
Proof.
  intros Hep Hon Hm Hsp. pose proof (in_paths ep Hep) as Hin.
  assert (no_evidence (r_Path r)) as Hne by by eapply spells_no_evidence.
  pose (Q := fun r' => r_Path r' = r_Path r /\ r_Method r' = "POST").
  unfold newHandler. apply (LogRequests_emits _ Q); [|by intros|done]. intros r1 s1 Hq.
  apply (StampInstance_emits _ Q); [|done]. clear r1 s1 Hq. intros r1 s1 [Hp1 Hm1].
  apply evidenceRoute_emits; [by rewrite Hp1|]. apply freshEvidenceRoute_emits; [by rewrite Hp1|].
  apply (CORS_emits _ Q); [|done]. clear r1 s1 Hp1 Hm1. intros r1 s1 [Hp1 Hm1].
  unfold guarded, sealedNamespaceGuard. rewrite (spells_folds (r_Path r1) (ep_Path ep) q) by (done || by rewrite Hp1).
  assert (at_surface q (with_Path q "" r1)) as Hr by by split.
  revert Hr. generalize (with_Path q "" r1). clear r1 Hp1 Hm1. intros r1 Hr.
  unfold mux, mux_serve. rewrite Hon. destruct (surface_route (ep_Path ep) (served g) (some (g_identity g)) (some (g_providers g)) r1 Hin)
    as [Hexact Hslash].
  destruct Hsp as [[_ ->]|(_ & _ & ->)]; [rewrite Hexact by done|rewrite Hslash by done]; destruct (served g _) eqn:Es; cbn [serve_spot];
    try by apply emits_none.
  - apply sealedGate_emits; [done|done|]. by destruct Hr.
  - unfold canonicalPath. apply sealedGate_emits; [done|done|]. by destruct Hr.
Qed.
End sealed.

(** ** The path of a polled job *)

Lemma plain_no_percent c : path_plain c = true -> Ascii.eqb c "%" = false.
Proof. revert c. apply (all_bytes_forall (fun c => path_plain c = true -> Ascii.eqb c "%" = false)). vm_compute. reflexivity. Qed.
Lemma escaped_byte c :
  hex_val (upper_hex (bval c / 16)) = Some (bval c / 16) /\ hex_val (upper_hex (bval c mod 16)) = Some (bval c mod 16).
Proof.
  revert c. apply (all_bytes_forall (fun c => hex_val (upper_hex (bval c / 16)) = Some (bval c / 16) /\
    hex_val (upper_hex (bval c mod 16)) = Some (bval c mod 16))). vm_compute. reflexivity.
Qed.
Lemma path_unescape_escape l : path_unescape (path_escape l) = Some l.
Proof.
  induction l as [|c l IH]; [done|]. cbn [path_escape].
  assert (forall rest, path_unescape rest = Some l ->
    path_unescape ((if path_plain c then [c] else ["%"%char; upper_hex (bval c / 16); upper_hex (bval c mod 16)]) ++ rest)
    = Some (c :: l)) as Hc; [|by apply Hc].
  intros rest Hr. destruct (path_plain c) eqn:Ep.
  - cbn [app path_unescape]. rewrite (plain_no_percent c Ep), Hr. done.
  - destruct (escaped_byte c) as [E1 E2]. cbn [app path_unescape]. change (Ascii.eqb "%" "%") with true. cbv iota.
    rewrite E1, E2, Hr. cbn [mbind option_bind]. rewrite <-(Z.div_mod (bval c) 16) by lia. by rewrite byte_of_bval.
Qed.
Lemma path_escape_app a b : path_escape (a ++ b) = path_escape a ++ path_escape b.
Proof. induction a as [|c a IH]; [done|]. cbn [app path_escape]. by rewrite IH, app_assoc. Qed.

(** The jobs' prefix, and its text as a path that folds to it. *)
Definition jobs_path (rest : bytes) : string := AsyncJobsPrefix +:+ str_of rest.
Definition jobs_segs (rest : bytes) : list string := end_slash (split_on "/" (path_escape rest)).

Lemma EscapedPath_jobs rest r :
  r_Path r = jobs_path rest -> r_RawPath r = "" -> EscapedPath r = AsyncJobsPrefix +:+ str_of (path_escape rest).
Proof.
  intros Hp Hraw. unfold EscapedPath. rewrite Hraw. cbn [String.eqb negb andb].
  destruct (String.eqb_spec (r_Path r) "*") as [E|_]; [by rewrite Hp in E|]. rewrite Hp. unfold jobs_path.
  rewrite bytes_of_app, bytes_of_str_of, path_escape_app. apply bytes_of_inj.
  rewrite bytes_of_str_of, bytes_of_app, bytes_of_str_of. f_equal.
Qed.
Lemma path_segs_jobs x :
  path_segs (AsyncJobsPrefix +:+ str_of x) = "v1" :: "async" :: "jobs" :: end_slash (split_on "/" x).
Proof.
  unfold path_segs. rewrite bytes_of_app, bytes_of_str_of.
  change (bytes_of AsyncJobsPrefix) with ("/"%char :: bytes_of "v1" ++ "/"%char :: bytes_of "async" ++ "/"%char :: bytes_of "jobs" ++ ["/"%char]).
  cbn [app]. rewrite <-!app_assoc. cbn [app]. rewrite <-!app_assoc. cbn [app]. rewrite <-!app_assoc. cbn [app].
  rewrite !split_on_app by (apply (bool_decide_unpack _); vm_compute; exact I).
  destruct (split_on_cons "/" x) as (p & ps & ->). cbn [end_slash]. done.
Qed.
Lemma jobs_segs_nonempty rest : jobs_segs rest <> [].
Proof. unfold jobs_segs. destruct (split_on_cons "/" (path_escape rest)) as ([|c p] & [|q ps] & ->); done. Qed.
Lemma jobs_segs_one rest seg : jobs_segs rest = [seg] -> seg <> "/" -> seg = str_of rest.
Proof.
  unfold jobs_segs. intros E Hne. pose proof (join_split "/" (path_escape rest)) as Hj.
  destruct (split_on_cons "/" (path_escape rest)) as (p & ps & Es). rewrite Es in E, Hj.
  destruct ps as [|q ps].
  - destruct p as [|c p]; cbn in E; [by injection E as <-|]. injection E as <-. unfold seg_text.
    cbn in Hj. rewrite Hj, path_unescape_escape. done.
  - exfalso. destruct p as [|c p]; cbn [end_slash] in E; destruct (split_on_cons "/" (path_escape rest)) as (? & ? & _);
      destruct q as [|d q], ps as [|r ps]; done.
Qed.

Section jobs_routes.
Context {A : Type}.

Lemma match_path_nil (segs : list string) : match_path (A := A) segs [] = None.
Proof. induction segs as [|s segs IH]; [done|]. cbn. rewrite IH. by destruct (String.eqb s "/"). Qed.

(** Below the jobs' prefix, in a mux with no wildcard on the way. *)
Definition down (s : string) (n : node A) : node A := child (is_lit s) n.
Definition jobs_node (n : node A) : node A := down "jobs" (down "async" (down "v1" n)).
Definition no_wild (n : node A) : bool :=
  match child is_wild n, child is_multi n with [], [] => true | _, _ => false end.
Lemma match_down s segs (n : node A) : no_wild n = true -> match_path (s :: segs) n = match_path segs (down s n).
Proof.
  unfold no_wild, down. intros Hn. cbn [match_path]. destruct (child is_wild n) as [|? ?]; [|done].
  destruct (child is_multi n) as [|? ?]; [|done]. rewrite match_path_nil. destruct (match_path segs _); [done|].
  by destruct (String.eqb s "/").
Qed.
Definition jobs_clear (n : node A) : bool := no_wild n && no_wild (down "v1" n) && no_wild (down "async" (down "v1" n)).
Lemma match_jobs_clear segs n :
  jobs_clear n = true -> match_path ("v1" :: "async" :: "jobs" :: segs) n = match_path segs (jobs_node n).
Proof. unfold jobs_clear. intros [[H1 H2]%andb_true_iff H3]%andb_true_iff. by rewrite !match_down. Qed.

(** One wildcard takes one piece; a trailing slash takes all there is. *)
Lemma match_wild name (x : Pattern * A) segs :
  match_path segs [([SWild name], x)]
  = match segs with [seg] => if String.eqb seg "/" then None else Some (x, [seg]) | _ => None end.
Proof.
  destruct segs as [|s segs]; [done|]. cbn [match_path child omap list_omap fst snd is_lit is_wild is_multi].
  rewrite match_path_nil. destruct (String.eqb s "/"); [by destruct segs|]. destruct segs as [|t segs]; [done|].
  cbn [match_path child omap list_omap fst snd]. rewrite !match_path_nil. by destruct (String.eqb t "/").
Qed.
Lemma match_multi (x : Pattern * A) segs : segs <> [] -> match_path segs [([SMulti], x)] = Some (x, []).
Proof.
  destruct segs as [|s segs]; [done|]. intros _. cbn [match_path child omap list_omap fst snd is_lit is_wild is_multi].
  rewrite match_path_nil. by destruct (String.eqb s "/").
Qed.
Lemma match_jobs_multi (x : Pattern * A) segs n :
  segs <> [] -> jobs_node n = [([SMulti], x)] -> match_path ("v1" :: "async" :: "jobs" :: segs) n = Some (x, []).
Proof.
  intros Hne Hn. change (child (is_lit "jobs") (child (is_lit "async") (child (is_lit "v1") n)) = [([SMulti], x)]) in Hn.
  cbn [match_path]. by rewrite Hn, (match_multi x segs Hne).
Qed.
End jobs_routes.

(** What is checked of a mux: its methods, and what is below the jobs' prefix for each. *)
Definition poll_node {A} (is_poll : A -> bool) (n : node A) : bool :=
  match n with
  | [([SWild k], (pt, a))] => String.eqb k "id" && is_poll a && bool_decide (wild_names (pt_Segs pt) = ["id"])
                              && negb (existsb is_multi (pt_Segs pt))
  | _ => false
  end.
Definition is_jobs_other (a : spot) : bool := match a with JobsOther => true | _ => false end.
Definition is_job_poll (a : spot) : bool := match a with JobPoll => true | _ => false end.
Definition rest_node (n : node spot) : bool :=
  match n with [([SMulti], (pt, a))] => is_jobs_other a && bool_decide (wild_names (pt_Segs pt) = []) | _ => false end.
Definition jobs_mux (m : list (Pattern * spot)) : bool :=
  forallb (fun x => contains ["GET"; "POST"; ""] (pt_Method x.1)) m &&
  jobs_clear (method_node "GET" m) && poll_node is_job_poll (jobs_node (method_node "GET" m)) &&
  jobs_clear (method_node "POST" m) && match jobs_node (method_node "POST" m) with [] => true | _ => false end &&
  rest_node (jobs_node (method_node "" m)).
Lemma jobs_checked :
  forallb (fun sealing => forallb (fun l => forallb (fun i => forallb (fun p =>
    jobs_mux (registrations sealing (contains l) i p)) [true; false]) [true; false]) (sublists paths)) [true; false] = true.
Proof. vm_cast_no_check (eq_refl true). Qed.
Lemma bool_in b : b ∈ [true; false].
Proof. destruct b; [left|right; left]. Qed.
Lemma registrations_jobs sealing f i p : jobs_mux (registrations sealing f i p) = true.
Proof.
  rewrite registrations_served. pose proof jobs_checked as Hc.
  pose proof (forallb_at _ _ _ Hc (bool_in sealing)) as H1. cbv beta in H1.
  pose proof (forallb_at _ _ _ H1 (filter_sublists f paths)) as H2. cbv beta in H2.
  pose proof (forallb_at _ _ _ H2 (bool_in i)) as H3. cbv beta in H3.
  exact (forallb_at _ _ _ H3 (bool_in p)).
Qed.

Lemma other_method {A} method (m : list (Pattern * A)) l :
  forallb (fun x => contains l (pt_Method x.1)) m = true -> (method ∉ l) -> method_node method m = [].
Proof.
  intros Hf Hm. unfold method_node. replace (List.filter _ m) with (@nil (Pattern * A)); [done|].
  induction m as [|x m IH]; [done|]. cbn [forallb List.filter] in Hf |- *. apply andb_true_iff in Hf as [Hx%contains_spec Hf].
  destruct (String.eqb_spec (pt_Method x.1) method) as [E|]; [by rewrite E in Hx|by apply IH].
Qed.

(** Where the mux sends a request below the jobs' prefix, unless it redirects it: to the
    poll, if it is a GET of one piece, else to the rest of the namespace. *)
Definition one_piece (segs : list string) (v : gmap string string) : Prop :=
  exists seg, segs = [seg] /\ seg <> "/" /\ v = {[ "id" := seg ]}.

Lemma poll_match {A} (is_poll : A -> bool) (n : node A) segs x ms :
  poll_node is_poll n = true -> match_path segs n = Some (x, ms) ->
  is_poll x.2 = true /\ negb (existsb is_multi (pt_Segs x.1)) = true /\
  one_piece segs (list_to_map (zip (wild_names (pt_Segs x.1)) ms)).
Proof.
  unfold poll_node. destruct n as [|[[|[|k|] [|? ?]] [pt a]] [|? ?]]; try done.
  rewrite !andb_true_iff, bool_decide_eq_true. intros [[[->%String.eqb_eq Ha] Hw] Hm]. rewrite match_wild.
  destruct segs as [|seg [|? ?]]; try done. destruct (String.eqb_spec seg "/"); [done|]. intros [= <- <-]. cbn [fst snd].
  split_and!; [done|done|]. exists seg. rewrite Hw. by split_and!.
Qed.

Lemma mux_match_jobs m method segs x ms :
  jobs_mux m = true -> segs <> [] ->
  (forall path, path_segs path = "v1" :: "async" :: "jobs" :: segs -> mux_match m method path = Some (x, ms) ->
    (x.2 = JobsOther /\ list_to_map (zip (wild_names (pt_Segs x.1)) ms) = (∅ : gmap string string)) \/
    (x.2 = JobPoll /\ method ∈ ["GET"; "HEAD"] /\ one_piece segs (list_to_map (zip (wild_names (pt_Segs x.1)) ms)))).
Proof.
  unfold jobs_mux. rewrite !andb_true_iff. intros [[[[[Hm Hcg] Hg] Hcp] Hp] Hr] Hne path Hpath. unfold mux_match. rewrite Hpath.
  assert (forall r, match_path ("v1" :: "async" :: "jobs" :: segs) (method_node "GET" m) = Some r ->
    r.1.2 = JobPoll /\ one_piece segs (list_to_map (zip (wild_names (pt_Segs r.1.1)) r.2))) as HG.
  { intros [y ys] Hy. rewrite match_jobs_clear in Hy by done. apply (poll_match is_job_poll) in Hy as (Hy & _ & Ho); [|done].
    split; [|done]. cbn. by destruct (y.2). }
  assert (forall r, match_path ("v1" :: "async" :: "jobs" :: segs) (method_node "" m) = Some r ->
    r.1.2 = JobsOther /\ list_to_map (zip (wild_names (pt_Segs r.1.1)) r.2) = (∅ : gmap string string)) as HR.
  { intros r Hy. unfold rest_node in Hr. destruct (jobs_node (method_node "" m)) as [|[[|[?|?|] [|? ?]] [pt a]] [|? ?]] eqn:En; try done.
    apply andb_true_iff in Hr as [Ha Hw%bool_decide_eq_true]. rewrite (match_jobs_multi _ _ _ Hne En) in Hy. injection Hy as <-.
    cbn [fst snd]. rewrite Hw. split; [|done]. by destruct a. }
  assert (match_path ("v1" :: "async" :: "jobs" :: segs) (method_node "POST" m) = None) as HP.
  { rewrite match_jobs_clear by done. destruct (jobs_node (method_node "POST" m)); [apply match_path_nil|done]. }
  destruct (decide (method = "GET")) as [->|Hget].
  { destruct (match_path _ (method_node "GET" m)) as [r|]; [|].
    - intros [= ->]. right. destruct (HG _ eq_refl) as [Hx Ho]. split_and!; [exact Hx|by left|exact Ho].
    - change (String.eqb "GET" "HEAD") with false. cbv iota. intros Hx. left. exact (HR _ Hx). }
  destruct (decide (method = "HEAD")) as [->|Hhead].
  { rewrite (other_method "HEAD" m _ Hm), match_path_nil by (apply (bool_decide_unpack _); vm_compute; exact I).
    change (String.eqb "HEAD" "HEAD") with true. cbv iota.
    destruct (match_path _ (method_node "GET" m)) as [r|]; [|].
    - intros [= ->]. right. destruct (HG _ eq_refl) as [Hx Ho]. split_and!; [exact Hx|by right; left|exact Ho].
    - intros Hx. left. exact (HR _ Hx). }
  rewrite (proj2 (String.eqb_neq method "HEAD") Hhead).
  destruct (decide (method = "POST")) as [->|Hpost]; [rewrite HP; intros Hx; left; exact (HR _ Hx)|].
  destruct (decide (method = "")) as [->|Hany].
  { destruct (match_path _ (method_node "" m)) as [r|]; [intros [= ->]; left; exact (HR _ eq_refl)|done]. }
  rewrite (other_method method m _ Hm), match_path_nil by (rewrite !not_elem_of_cons; split_and!; [done..|apply not_elem_of_nil]).
  intros Hx. left. exact (HR _ Hx).
Qed.

Lemma mux_route_found {A} (m : list (Pattern * A)) r a v :
  mux_route m r = Routed a v ->
  (String.eqb (r_Method r) "CONNECT" = false -> clean_path (EscapedPath r) = EscapedPath r) /\ r_Path r <> "*" /\
  exists x ms, mux_match m (r_Method r) (EscapedPath r) = Some (x, ms) /\ a = x.2 /\
    v = list_to_map (zip (wild_names (pt_Segs x.1)) ms).
Proof.
  unfold mux_route. destruct (String.eqb_spec (r_Path r) "*") as [|Hstar]; [done|].
  destruct (negb (exact_match _ _) && _ && _); [done|].
  destruct (String.eqb (r_Method r) "CONNECT") eqn:Ec; cbn [negb andb].
  - destruct (mux_match _ _ _) as [[x ms]|]; [|by destruct (allowed_methods _ _)]. intros [= <- <-]. split_and!; [done|done|eauto].
  - destruct (String.eqb_spec (clean_path (EscapedPath r)) (EscapedPath r)) as [E|]; cbn [negb]; [|done]. rewrite E.
    destruct (mux_match _ _ _) as [[x ms]|]; [|by destruct (allowed_methods _ _)]. intros [= <- <-]. split_and!; [done|done|eauto].
Qed.
Lemma mux_route_to {A} (m : list (Pattern * A)) r x ms :
  String.eqb (r_Method r) "CONNECT" = false -> clean_path (EscapedPath r) = EscapedPath r -> r_Path r <> "*" ->
  negb (existsb is_multi (pt_Segs x.1)) = true -> mux_match m (r_Method r) (EscapedPath r) = Some (x, ms) ->
  mux_route m r = Routed x.2 (list_to_map (zip (wild_names (pt_Segs x.1)) ms)).
Proof.
  intros Hc Hp Hs Hm Hf. unfold mux_route. rewrite Hc, Hp, Hf, (proj2 (String.eqb_neq _ _) Hs), String.eqb_refl.
  unfold exact_match at 1. rewrite Hm. done.
Qed.

(** A job's poll goes on to the poll inside the gate too. *)
Lemma gated_poll_checked :
  jobs_clear (method_node "GET" gated_routes) = true /\ poll_node id (jobs_node (method_node "GET" gated_routes)) = true /\
  method_node "HEAD" gated_routes = [].
Proof. vm_compute. done. Qed.
Lemma gated_match_poll method segs path seg :
  method ∈ ["GET"; "HEAD"] -> segs = [seg] -> seg <> "/" -> path_segs path = "v1" :: "async" :: "jobs" :: segs ->
  exists x ms, mux_match gated_routes method path = Some (x, ms) /\ x.2 = true /\
    negb (existsb is_multi (pt_Segs x.1)) = true /\
    list_to_map (zip (wild_names (pt_Segs x.1)) ms) = ({[ "id" := seg ]} : gmap string string).
Proof.
  intros Hm -> Hne Hpath. destruct gated_poll_checked as (Hc & Hp & Hh).
  assert (exists x ms, match_path ("v1" :: "async" :: "jobs" :: [seg]) (method_node "GET" gated_routes) = Some (x, ms)) as (x & ms & Hx).
  { rewrite match_jobs_clear by done. pose proof Hp as Hp'. unfold poll_node in Hp'.
    destruct (jobs_node _) as [|[[|[|k|] [|? ?]] [pt a]] [|? ?]]; try done. rewrite match_wild.
    rewrite (proj2 (String.eqb_neq _ _) Hne). eauto. }
  exists x, ms. assert (mux_match gated_routes method path = Some (x, ms)) as ->.
  { unfold mux_match. rewrite Hpath. apply elem_of_cons in Hm as [->|Hm]; [by rewrite Hx|].
    apply list_elem_of_singleton in Hm as ->. rewrite Hh, match_path_nil. change (String.eqb "HEAD" "HEAD") with true. by rewrite Hx. }
  split; [done|]. rewrite match_jobs_clear in Hx by done. apply (poll_match id) in Hx as (Ha & Hmu & (seg' & [= <-] & _ & Hv)); [|done].
  by split_and!.
Qed.

Lemma str_contains_dot s : "."%char ∈ bytes_of s -> str_contains s "." = true.
Proof.
  intros (a & b & Hb)%list_elem_of_split. unfold str_contains. change (bytes_of ".") with ["."%char].
  destruct (cut_sub _ _) as [[x y]|] eqn:E; [done|]. apply cut_sub_none in E. destruct E. exists a, b. by rewrite Hb.
Qed.

(** ** The key of a polled job *)

Definition jobs_base : string := "/v1/async/jobs".
Definition jobs_fold : bytes := fold_ascii (bytes_of (jobs_base +:+ "/")).

Lemma first_spelled_skip l s y :
  (forall s0, s0 ∈ l -> fold_ascii (bytes_of s0) <> y /\ under s0 y = false) ->
  first_spelled (l ++ [s]) y = if bool_decide (fold_ascii (bytes_of s) = y) || under s y then Some s else None.
Proof.
  induction l as [|s0 l IH]; intros Hl; [done|]. cbn [app first_spelled].
  destruct (Hl s0) as [Hne Hu]; [by left|]. rewrite (bool_decide_false _ Hne), Hu. apply IH. intros s1 Hs. apply Hl. by right.
Qed.
Definition apart (x y : bytes) : bool := negb (bool_decide (x `prefix_of` y)) && negb (bool_decide (y `prefix_of` x)).
Lemma apart_neither x y z : apart x y = true -> ~ (x `prefix_of` (y ++ z)).
Proof.
  unfold apart. rewrite andb_true_iff, !negb_true_iff, !bool_decide_eq_false. intros [H1 H2] Hp.
  destruct (prefix_weak_total x y (y ++ z) Hp (prefix_app_r _ _ _ (reflexivity y))); done.
Qed.
Lemma jobs_apart :
  forallb (fun s => apart (fold_ascii (bytes_of s)) jobs_fold && apart (fold_ascii (bytes_of (s +:+ "/"))) jobs_fold) paths = true /\
  apart (fold_ascii (bytes_of "/evidence")) jobs_fold = true.
Proof. split; vm_cast_no_check (eq_refl true). Qed.

Lemma first_spelled_jobs x : first_spelled surfaces (jobs_fold ++ x) = Some jobs_base.
Proof.
  change surfaces with (paths ++ [jobs_base]). rewrite first_spelled_skip.
  - unfold under. rewrite (bool_decide_true (prefix _ _)); [by rewrite orb_true_r|]. by exists x.
  - intros s0 Hs. pose proof (forallb_at _ _ _ (proj1 jobs_apart) Hs) as Ha. cbv beta in Ha. apply andb_true_iff in Ha as [Ha Hb].
    split; [intros E; eapply apart_neither; [exact Ha|]; by rewrite E|].
    apply bool_decide_eq_false. by apply apart_neither.
Qed.

(** A path below the jobs' prefix up to case, and what the guard makes of it. *)
Section below.
Context (pre : string) (rest : bytes).
Context (Hf : equal_fold pre AsyncJobsPrefix = true) (Hl : String.length pre = String.length AsyncJobsPrefix).

Lemma below_fold x : fold_ascii (bytes_of pre ++ x) = jobs_fold ++ fold_ascii x.
Proof.
  pose proof (proj1 (equal_fold_iff _ _) Hf) as E. change (fold_ascii (bytes_of AsyncJobsPrefix)) with jobs_fold in E.
  destruct (fold_even (bytes_of pre)) as [Ha _].
  - rewrite E. apply (bool_decide_unpack _). vm_compute. exact I.
  - rewrite E. rewrite <-length_bytes_of, Hl. reflexivity.
  - by rewrite fold_app_ascii, E.
Qed.
Lemma below_spelling r : r_Path r = pre +:+ str_of rest -> fold_spelling surfaces r = with_Path (jobs_path rest) "" r.
Proof.
  intros Hr. assert (bytes_of (r_Path r) = bytes_of pre ++ rest) as Hb by by rewrite Hr, bytes_of_app, bytes_of_str_of.
  rewrite (fold_spelling_under surfaces r jobs_base (bytes_of pre) rest).
  - done.
  - exact (proj2 (proj2 (proj2 (proj2 (proj2 spellings_checked))))).
  - exact Hb.
  - by rewrite <-length_bytes_of, Hl.
  - by rewrite str_of_bytes_of.
  - rewrite Hb, below_fold. apply first_spelled_jobs.
  - apply not_true_iff_false. rewrite equal_fold_iff, Hb, below_fold. intros E. apply (f_equal length) in E.
    rewrite length_app in E. change (length jobs_fold) with 15%nat in E.
    change (length (fold_ascii (bytes_of jobs_base))) with 14%nat in E. lia.
Qed.
Lemma below_no_evidence : no_evidence (pre +:+ str_of rest).
Proof.
  apply not_true_is_false. intros [x Hx]%has_prefix_iff. rewrite bytes_of_app in Hx.
  apply (f_equal fold_ascii) in Hx. rewrite below_fold, fold_app_ascii in Hx; [|apply (bool_decide_unpack _); vm_compute; exact I].
  apply (apart_neither _ _ (fold_ascii (bytes_of (str_of rest))) (proj2 jobs_apart)). rewrite Hx. by apply prefix_app_r.
Qed.
End below.

Section jobs.
Context {W : Type} `{World W} `{Outside W} `{StreamReads W} `{FrontWorld W} `{CatalogWorld W}.
Context `{Wording} `{MimeLib} `{Jcs} `{HpkeLib} `{FloatLib} `{CaseLib}.
Context (g : gateway (W := W)).

(** What may leave for a request whose path carries a job's key, [shown] being the path
    without it. *)
Definition leaves_keyless (shown : string) (e : fevent) : Prop :=
  match e with
  | FForward _ | FClient _ => False
  | FPoll q => exists id, pq_Path q = [AsyncJobsPrefix; id] /\ ("."%char ∉ bytes_of id)
  | FLine l => ln_path l = shown
  end.

Lemma AsyncJobPoll_emits shown r (s : fstate W) : emits (leaves_keyless shown) s (AsyncJobPoll r s).
Proof.
  unfold AsyncJobPoll. destruct (ParseUserJobID _) as [[jobID priv]|] eqn:Ep; [|by apply emits_none].
  set (q := MkPollRequest _ _ _). assert (leaves_keyless shown (FPoll q)) as Hq.
  { exists jobID. split; [done|]. apply ParseUserJobID_ok in Ep as (seg & _ & Hv & _).
    apply validateJobID_ok in Hv as (_ & _ & Hc). rewrite forallb_forall in Hc. intros Hin%list_elem_of_In%Hc. done. }
  assert (forall s1 s2 : fstate W, f_log s1 = f_log s -> f_log s2 = f_log (f_emit [FPoll q] s1) ->
    emits (leaves_keyless shown) s s2) as Hdone.
  { intros s1 s2 E1 E2. exists [FPoll q]. rewrite E2. cbn. rewrite E1. split; [done|by repeat constructor]. }
  unfold ask. destruct (poll q _) as [[[resp|err]|] w]; [|by eapply Hdone; [|done]|by apply emits_none].
  set (s1 := on_f_world _ s). destruct (read_all_limited _ _) as [body|]; [|by apply (Hdone s1)].
  destruct (_ <? _); [by apply (Hdone s1)|]. destruct (asyncPollAnswer _ _ _ _ _) as [status out]. cbv zeta.
  apply (Hdone s1); [done|]. by destruct (_ && _).
Qed.

(** A poll of a job that has come through the outer mux. *)
Record polls (rest : bytes) (r : ServerRequest) : Prop := {
  pl_path : r_Path r = jobs_path rest;
  pl_raw : r_RawPath r = "";
  pl_method : r_Method r ∈ ["GET"; "HEAD"];
  pl_clean : clean_path (EscapedPath r) = EscapedPath r;
  pl_one : exists seg, jobs_segs rest = [seg] /\ seg <> "/"
}.
Lemma polls_wrapping rest : kept_by_wrapping (polls rest).
Proof. split; [intros r h [E1 E2 E3 E4 E5]|intros r b e [E1 E2 E3 E4 E5]]; by split. Qed.

Lemma gated_poll_emits shown rest r (s : fstate W) : polls rest r -> emits (leaves_keyless shown) s (gated g r s).
Proof.
  intros [E1 E2 E3 E4 (seg & Es & Hne)]. unfold gated, mux_serve.
  assert (path_segs (EscapedPath r) = "v1" :: "async" :: "jobs" :: jobs_segs rest) as Hseg
    by (rewrite (EscapedPath_jobs rest) by done; apply path_segs_jobs).
  destruct (gated_match_poll (r_Method r) (jobs_segs rest) (EscapedPath r) seg E3 Es Hne Hseg) as (x & ms & Hx & Ha & Hmu & Hv).
  rewrite (mux_route_to _ _ x ms); [rewrite Ha; apply AsyncJobPoll_emits| |done| |done|done].
  - destruct (String.eqb_spec (r_Method r) "CONNECT") as [E|]; [|done]. rewrite E in E3. by apply elem_of_cons in E3 as [|?%list_elem_of_singleton].
  - by rewrite E1.
Qed.
Lemma sealedGate_poll_emits shown rest r (s : fstate W) : polls rest r -> emits (leaves_keyless shown) s (sealedGate g r s).
Proof.
  pose proof (polls_wrapping rest) as HQ. revert r s. unfold sealedGate. cbv zeta.
  assert (forall r (s : fstate W), polls rest r -> emits (leaves_keyless shown) s
    (RequireInferenceCredential (LimitInFlight (g_maxInFlight g) (BoundBodyRead (bodyRead (g_policy g)) (gated g))) r s)) as Hg.
  { intros r s. apply RequireInferenceCredential_emits. clear r s. intros r s. apply LimitInFlight_emits. clear r s. intros r s.
    apply BoundBodyRead_emits; [done|]. clear r s. intros r s. by apply gated_poll_emits. }
  intros r s. apply MarkE2EE_emits. clear r s. intros r s. destruct (credentialsAllowed _); [|by apply Hg].
  by apply AcceptCookieCredential_emits.
Qed.

Lemma mux_job_emits shown rest r (s : fstate W) :
  r_Path r = jobs_path rest -> r_RawPath r = "" -> ("."%char ∈ rest) -> emits (leaves_keyless shown) s (mux g r s).
Proof.
  intros E1 E2 Hdot. unfold mux, mux_serve. destruct (mux_route _ r) as [a v| | | |] eqn:Er; try by apply emits_none.
  apply mux_route_found in Er as (Hclean & Hstar & x & ms & Hx & -> & ->).
  assert (path_segs (EscapedPath r) = "v1" :: "async" :: "jobs" :: jobs_segs rest) as Hseg
    by (rewrite (EscapedPath_jobs rest) by done; apply path_segs_jobs).
  destruct (mux_match_jobs _ _ _ _ _ (registrations_jobs _ _ _ _) (jobs_segs_nonempty rest) _ Hseg Hx)
    as [[-> _]|(-> & Hm & seg & Es & Hne & ->)]; cbn [serve_spot].
  - unfold jobs_other. cbn [r_Path with_PathValues]. rewrite E1. unfold jobs_path, trim_prefix.
    rewrite bytes_of_app, bytes_of_str_of, (proj2 (strip_prefix_spec _ _ _) eq_refl), str_contains_dot; [by apply emits_none|].
    by rewrite bytes_of_str_of.
  - unfold job_poll, HasJobKey, path_value. cbn [r_PathValues with_PathValues]. rewrite lookup_singleton_eq. cbn [default from_option]; unfold id.
    rewrite (jobs_segs_one rest seg Es Hne). unfold HasUserJobIDKey. rewrite bytes_of_str_of.
    rewrite (proj2 (existsb_exists _ _)).
    + apply sealedGate_poll_emits with (rest := rest). split; [done|done|exact Hm| |eauto].
      apply Hclean. destruct (String.eqb_spec (r_Method r) "CONNECT") as [E|]; [|done]. rewrite E in Hm.
      by apply elem_of_cons in Hm as [|?%list_elem_of_singleton].
    + exists "."%char. split; [by apply list_elem_of_In|done].
Qed.

(** C16: a job's key stays. A request whose decoded path is the jobs' namespace
    [/v1/async/jobs/] in any capitals, and after it a job id with its key, is never handed
    to the router, whatever its method and whatever follows the key: what may leave is the
    poll of the id without its key and a log line that shows the path cut at the key. (A
    path that reaches the namespace through an encoded dot segment is not of this form:
    [unfolded_job].) *)
Theorem job_key_stays pre job key r (s : fstate W) :
  r_Path r = pre +:+ job +:+ "." +:+ key -> equal_fold pre AsyncJobsPrefix = true ->
  String.length pre = String.length AsyncJobsPrefix -> ("."%char ∉ bytes_of job) ->
  emits (leaves_keyless (pre +:+ job +:+ ".<redacted>")) s (newHandler g r s).
Proof.
  intros Hp Hf Hl Hd. set (rest := bytes_of (job +:+ "." +:+ key)).
  assert (r_Path r = pre +:+ str_of rest) as Hr by (unfold rest; by rewrite str_of_bytes_of).
  assert (no_evidence (r_Path r)) as Hne by (rewrite Hr; by apply below_no_evidence).
  pose (Q := fun r' => r_Path r' = r_Path r). unfold newHandler. apply (LogRequests_emits _ Q); [| |done].
  - intros r1 s1 Hp1. apply (StampInstance_emits _ Q); [|done]. clear r1 s1 Hp1. intros r1 s1 Hp1.
    apply evidenceRoute_emits; [by rewrite Hp1|]. apply freshEvidenceRoute_emits; [by rewrite Hp1|].
    apply (CORS_emits _ Q); [|done]. clear r1 s1 Hp1. intros r1 s1 Hp1.
    unfold guarded, sealedNamespaceGuard. rewrite (below_spelling pre rest Hf Hl) by by rewrite Hp1.
    apply mux_job_emits with (rest := rest); [done|done|]. unfold rest. rewrite !bytes_of_app, !elem_of_app. right. left. by left.
  - intros l Hln. cbn. rewrite Hln, Hp. by apply redaction_blind.
Qed.
End jobs.

(** ** The list of sealed models *)

Lemma trim_suffix_spec s p : has_suffix s p = true -> s = trim_suffix s p +:+ p.
Proof.
  intros Hs. pose proof Hs as [r Hr]%has_suffix_iff. apply bytes_of_inj. rewrite bytes_of_app, Hr. f_equal.
  unfold trim_suffix. rewrite Hr, rev_app_distr.
  assert (strip_prefix (rev (bytes_of p)) (rev (bytes_of p) ++ rev r) = Some (rev r)) as -> by by apply strip_prefix_spec.
  by rewrite rev_involutive, bytes_of_str_of.
Qed.
Lemma has_suffix_app s p : has_suffix (s +:+ p) p = true.
Proof. apply has_suffix_iff. exists (bytes_of s). apply bytes_of_app. Qed.
Lemma trim_suffix_app s p : trim_suffix (s +:+ p) p = s.
Proof.
  pose proof (trim_suffix_spec _ _ (has_suffix_app s p)) as E. apply (f_equal bytes_of) in E. rewrite !bytes_of_app in E.
  apply app_inv_tail in E. by apply bytes_of_inj.
Qed.

Definition of_type (m : string) : bool := has_suffix m surfaceWildcard.
Definition rows_named (m : string) : list Endpoint := rows_of (trim_suffix m surfaceWildcard).

Lemma rows_fold rows t m p :
  is_Some (fold_left (fun (t : gmap string string) ep => <[ep_Path ep := m]> t) rows t !! p) <->
  is_Some (t !! p) \/ exists ep, ep ∈ rows /\ ep_Path ep = p.
Proof.
  revert t. induction rows as [|ep rows IH]; intros t; cbn [fold_left].
  - split; [by left|]. intros [?|(ep & Hin & _)]; [done|]. by apply elem_of_nil in Hin.
  - rewrite IH. split.
    + intros [Hs|(ep' & Hin & He)]; [|right; exists ep'; by split; [right|]].
      destruct (decide (ep_Path ep = p)) as [He|Hne]; [right; exists ep; by split; [left|]|].
      left. by rewrite lookup_insert_ne in Hs.
    + intros [Hs|(ep' & [->|Hin]%elem_of_cons & He)]; [|left; rewrite He, lookup_insert_eq; by eexists|right; eauto].
      left. destruct (decide (ep_Path ep = p)) as [He|Hne]; [rewrite He, lookup_insert_eq; by eexists|by rewrite lookup_insert_ne].
Qed.

Lemma seal_fold l s u s' u' :
  fold_left seal_entry l (s, u) = (s', u') ->
  sm_off s' = sm_off s /\
  (forall m, m ∈ sm_allow s' <-> m ∈ sm_allow s \/ m ∈ l /\ of_type m = false) /\
  (forall p, is_Some (sm_surfaces s' !! p) <->
     is_Some (sm_surfaces s !! p) \/ exists m ep, m ∈ l /\ of_type m = true /\ ep ∈ rows_named m /\ ep_Path ep = p) /\
  (u' = [] <-> u = [] /\ forall m, m ∈ l -> of_type m = true -> rows_named m <> []).
Proof.
  revert s u. induction l as [|m l IH]; intros s u; cbn [fold_left].
  { intros [= <- <-]. split_and!; [done|set_solver| |set_solver]. intros p. split; [by left|].
    intros [?|(m & ep & Hm & _)]; [done|]. by apply elem_of_nil in Hm. }
  unfold seal_entry at 2. fold (of_type m). fold (rows_named m). destruct (of_type m) eqn:Ew.
  - destruct (rows_named m) as [|r rows] eqn:Er; intros Hf; apply IH in Hf as (H1 & H2 & H3 & H4); cbn [sm_off sm_allow sm_surfaces] in *.
    + split_and!; [done| | |].
      * intros x. rewrite H2, elem_of_cons. split; [naive_solver|]. intros [?|[[->|?] ?]]; [by left|congruence|by right].
      * intros p. rewrite H3. split; [intros [?|(x & ep & ? & ?)]; [by left|right; exists x, ep; by split; [right|]]|].
        intros [?|(x & ep & [->|?]%elem_of_cons & ? & Hin & ?)]; [by left| |right; eauto 10]. rewrite Er in Hin. by apply elem_of_nil in Hin.
      * rewrite H4. split; [intros [Hu _]; by destruct u|]. intros [_ Hx]. by destruct (Hx m (list_elem_of_here _ _) Ew).
    + split_and!; [done| | |].
      * intros x. rewrite H2, elem_of_cons. split; [naive_solver|]. intros [?|[[->|?] ?]]; [by left|congruence|by right].
      * intros p. rewrite H3, rows_fold. split.
        -- intros [[?|(ep & Hin & He)]|(x & ep & ? & ?)]; [by left| |right; exists x, ep; by split; [right|]].
           right. exists m, ep. split_and!; [by left|done|by rewrite Er|done].
        -- intros [?|(x & ep & [->|?]%elem_of_cons & ? & Hin & ?)]; [by left; left| |right; eauto 10].
           left. right. exists ep. by rewrite Er in Hin.
      * rewrite H4. split; intros [Hu Hx]; (split; [done|]).
        -- intros x [->|Hin]%elem_of_cons Hw; [by rewrite Er|by apply Hx].
        -- intros x Hin. apply Hx. by right.
  - intros Hf; apply IH in Hf as (H1 & H2 & H3 & H4); cbn [sm_off sm_allow sm_surfaces] in *. split_and!; [done| | |].
    + intros x. rewrite H2, elem_of_union, elem_of_singleton, elem_of_cons. naive_solver.
    + intros p. rewrite H3. split; [intros [?|(x & ep & ? & ?)]; [by left|right; exists x, ep; by split; [right|]]|].
      intros [?|(x & ep & [->|?]%elem_of_cons & ? & Hin & ?)]; [by left|congruence|right; eauto 10].
    + rewrite H4. split; intros [Hu Hx]; (split; [done|]).
      * intros x [->|Hin]%elem_of_cons Hw; [congruence|by apply Hx].
      * intros x Hin. apply Hx. by right.
Qed.

Lemma rows_named_spec m ep :
  of_type m = true -> (ep ∈ rows_named m <-> ep ∈ All /\ ep_ServiceType ep +:+ surfaceWildcard = m).
Proof.
  intros Hm. unfold rows_named, rows_of. rewrite list_elem_of_In, filter_In, <-list_elem_of_In, String.eqb_eq.
  split; intros [Hin E]; (split; [done|]).
  - rewrite E. symmetry. by apply trim_suffix_spec.
  - rewrite <-E. symmetry. apply trim_suffix_app.
Qed.
Lemma paths_apart ep ep' : ep ∈ All -> ep' ∈ All -> ep_Path ep = ep_Path ep' -> ep = ep'.
Proof. intros Hin Hin' E. apply row_of_path in Hin, Hin'. rewrite E in Hin. congruence. Qed.

Lemma some_unknown (entries : list string) :
  ~ (forall m, m ∈ entries -> of_type m = true -> rows_named m <> []) ->
  exists m, m ∈ entries /\ of_type m = true /\ forall ep, ep ∈ All -> ep_ServiceType ep +:+ surfaceWildcard <> m.
Proof.
  intros Hn. destruct (decide (Exists (fun m => of_type m = true /\ length (rows_named m) = 0%nat) entries)) as [He|He].
  - apply Exists_exists in He as (m & Hin & Hw & Hr%nil_length_inv). exists m. split_and!; [done|done|]. intros ep Hep E.
    assert (ep ∈ rows_named m) as Hi by by apply rows_named_spec. rewrite Hr in Hi. by apply elem_of_nil in Hi.
  - destruct Hn. intros m Hin Hw Hr. destruct He. apply Exists_exists. exists m. by rewrite Hr.
Qed.

(** The list of sealed models says what it reads. A value of nothing but separators turns
    sealing off; the lone star seals every model; any other list seals exactly the models
    it names, up to case, and whole surfaces exactly where it names their service type; a
    star among other entries is refused, and so is a service type no surface has: nothing
    is left in the clear that the list reads as sealing. *)
Theorem seal_list_exact `{CaseLib} csv :
  let entries := seal_entries csv in
  match parseSealModels csv with
  | Ok s =>
      (sm_off s = true <-> entries = []) /\
      (entries <> [] ->
       (forall model, seals s model = true <->
          entries = [sealModelsAll] \/ toLower model ∈ entries /\ of_type (toLower model) = false) /\
       forall ep, ep ∈ All ->
         (is_Some (sm_surfaces s !! ep_Path ep) <-> ep_ServiceType ep +:+ surfaceWildcard ∈ entries))
  | Err _ =>
      (sealModelsAll ∈ entries /\ (2 <= length entries)%nat) \/
      exists m, m ∈ entries /\ of_type m = true /\ forall ep, ep ∈ All -> ep_ServiceType ep +:+ surfaceWildcard <> m
  end.
Proof.
  cbv zeta. unfold parseSealModels. destruct (seal_entries csv) as [|e rest] eqn:Ee; [by split|].
  destruct (negb _ && contains (e :: rest) sealModelsAll) eqn:Ea.
  { left. apply andb_true_iff in Ea as [Hl%negb_true_iff%Nat.eqb_neq Hc%contains_spec]. split; [done|]. cbn. lia. }
  destruct (String.eqb_spec e sealModelsAll) as [->|Hne].
  { assert (rest = []) as ->.
    { destruct rest as [|x rest]; [done|]. cbn in Ea. discriminate Ea. }
    split; [done|]. intros _. split; [intros model; split; [by left|done]|]. intros ep Hep. cbn. split; [by intros [? ?]|].
    intros E%list_elem_of_singleton. apply (f_equal (length ∘ bytes_of)) in E. cbn in E.
    rewrite bytes_of_app, length_app in E. cbn in E. lia. }
  destruct (fold_left seal_entry (e :: rest) (MkSeal false ∅ ∅, [])) as [s u] eqn:Ef.
  apply seal_fold in Ef as (H1 & H2 & H3 & H4). cbn [sm_off sm_allow sm_surfaces] in *.
  set (entries := e :: rest) in *. assert (entries <> [sealModelsAll]) as Hstar by (unfold entries; congruence).
  destruct u as [|x u].
  - destruct H4 as [H4 _]. destruct (H4 eq_refl) as [_ Hrows]. rewrite H1. split; [split; [done|intros E; discriminate E]|]. intros _.
    assert (seals_all s = false) as Hall.
    { unfold seals_all. apply not_true_iff_false. rewrite andb_true_iff, !Nat.eqb_eq. intros [Hza%size_empty_inv Hzs%map_size_empty_inv].
      destruct (of_type e) eqn:Ew.
      - assert (e ∈ entries) as Hin by by left. pose proof (Hrows e Hin Ew) as Hr. destruct (rows_named e) as [|ep rows] eqn:Er; [done|].
        assert (is_Some (sm_surfaces s !! ep_Path ep)) as Hs.
        { apply H3. right. exists e, ep. split_and!; [done|done|rewrite Er; by left|done]. }
        rewrite Hzs, lookup_empty in Hs. by destruct Hs.
      - assert (e ∈ sm_allow s) as Hin by (apply H2; right; split; [by left|done]). set_solver. }
    split.
    + intros model. unfold seals. rewrite Hall, bool_decide_eq_true, H2. set_solver.
    + intros ep Hep. rewrite H3, lookup_empty. split.
      * intros [Hn|(m & ep' & Hm & Hw & Hr & Hpath)]; [by destruct Hn|]. apply rows_named_spec in Hr as [Hep' E]; [|done].
        assert (ep' = ep) as -> by by apply paths_apart. by rewrite E.
      * intros Hin. right. eexists _, ep. split_and!; [exact Hin|apply has_suffix_app| |done].
        apply rows_named_spec; [apply has_suffix_app|done].
  - right. assert (~ (forall m, m ∈ entries -> of_type m = true -> rows_named m <> [])) as Hn.
    { intros Hx. discriminate (proj2 H4 (conj eq_refl Hx)). }
    by apply some_unknown.
Qed.

(** ** The bounds of the ceiling *)

(** The ceiling in bounds. The default in-flight ceiling lies between 32 and 512, never
    above 256 for each processor; and under a memory limit either it is the floor, or all
    the requests it admits fit in the share of the limit they are given. *)
Theorem in_flight_bounds cpus memLimit :
  cpus < 2 ^ 55 ->
  let n := computeMaxInFlight cpus memLimit in
  minDefaultInFlight <= n <= maxDefaultInFlight /\ n <= inFlightPerCPU * Z.max 1 cpus /\
  (0 < memLimit < int64_max -> n = minDefaultInFlight \/ n * perRequestPeakBytes <= memLimit / memBudgetDivisor).
Proof.
  intros Hc. cbv zeta. unfold computeMaxInFlight. cbv zeta. set (k := if cpus <? 1 then 1 else cpus).
  assert (1 <= k /\ k < 2 ^ 55 /\ k = Z.max 1 cpus) as (Hk1 & Hk2 & Hk) by (unfold k; destruct (Z.ltb_spec cpus 1); lia).
  assert (wrap_int (inFlightPerCPU * k) = inFlightPerCPU * k) as ->.
  { unfold wrap_int, inFlightPerCPU. rewrite Z.mod_small; lia. }
  rewrite <-Hk. set (n := if maxDefaultInFlight <? inFlightPerCPU * k then maxDefaultInFlight else inFlightPerCPU * k).
  assert (256 <= n <= maxDefaultInFlight /\ n <= inFlightPerCPU * k) as [Hn1 Hn2]
    by (unfold n, maxDefaultInFlight, inFlightPerCPU; destruct (Z.ltb_spec 512 (256 * k)); lia).
  unfold minDefaultInFlight, maxDefaultInFlight in *. clearbody n. destruct (Z.ltb_spec 0 memLimit), (Z.ltb_spec memLimit int64_max); cbn [andb];
    [|split_and!; lia..].
  set (share := memLimit / memBudgetDivisor). set (m := share / perRequestPeakBytes).
  assert (m * perRequestPeakBytes <= share) as Hm.
  { unfold m. rewrite Z.mul_comm. by apply Z.mul_div_le. }
  destruct (Z.ltb_spec m 32) as [Hsmall|Hbig].
  - destruct (Z.ltb_spec 32 n); [|lia]. split_and!; try lia.
  - destruct (Z.ltb_spec m n); split_and!; try lia. intros _. right.
    assert (0 < perRequestPeakBytes) by done. nia.
Qed.

(** ** Witnesses *)

Module GatewayWitness.
Import EnvelopeWitness ResponseWitness RespBindWitness ClientWitness StreamWitness ServingWitness.
#[export] Instance shelf : CatalogWorld Z :=
  {| catalog _ := MkCatalog defaultCatalogCacheTTL ∅ ∅ ∅ 0; set_catalog _ w := w; await _ w := (true, w) |}.
#[export] Instance decimals : FloatLib := {| ParseFloat _ := None |}.
#[export] Instance cases : CaseLib := {| toLower := ToLower |}.

(** A deployment that seals every model and serves one surface. *)
Definition policy : entryPolicy := MkPolicy false (MkSeal false ∅ ∅) 0 0.
Definition entry : gateway (W := Z) :=
  MkGateway {[ "/v1/chat/completions" := client ]} (ParseOrigins DefaultAllowedOriginsCSV) "cvm-1" None 64 None None
    (fun w => (None, w)) None policy.

(** The surface, shouted, its last slash encoded. *)
Definition shouted : ServerRequest :=
  MkServerRequest "POST" "/V1/CHAT/completions/" "/V1/CHAT/completions%2F" "" (r_Header post) (r_Body post) (r_BodyEnd post) ∅.
Lemma shouted_spells : spells (r_Path shouted) (ep_Path Chat) "/v1/chat/completions/".
Proof. right. vm_compute. done. Qed.
Example shouted_sealed :
  let w := f_writer (newHandler (H0 := toy) entry shouted fresh) in
  status_of w = 200 /\ w_Out w = marshal_map (compact <$> answer) /\ header_get (sent_header w) HeaderE2EE = "sealed".
Proof. vm_cast_no_check (conj (eq_refl 200) (conj (eq_refl (marshal_map (compact <$> answer))) (eq_refl "sealed"))). Qed.

(** Spellings the guard does not fold: percent-encoded dots and slashes inside the path,
    and a letter that folds to [s] before the last slash. Their requests go to the
    catch-all, which is the proxy in the clear. *)
Definition unfolded : list string :=
  ["/v1/%2e/chat/completions"; "/v1/%2Fchat/completions"; "/v1/chat/completion%C5%BF/"].
Example unfolded_forwarded :
  map (fun raw => match set_path raw (bare "POST" "" "") with
                  | Some r => match mux_route (registrations true (fun _ => true) true true) (fold_spelling surfaces r) with
                              | Routed CatchAll _ => true | _ => false end
                  | None => false end) unfolded = [true; true; true].
Proof. vm_compute. reflexivity. Qed.

(** So with a job's path: behind an encoded dot segment the id goes to the router with its
    key, and the log line shows the key too. *)
Example unfolded_job :
  match set_path "/v1/%2e/async/jobs/job-1.SECRET" (bare "GET" "" "") with
  | Some r => Some (match mux_route (registrations true (fun _ => true) true true) (fold_spelling surfaces r) with
                    | Routed CatchAll _ => true | _ => false end, RedactJobPath (r_Path r))
  | None => None end = Some (true, "/v1/./async/jobs/job-1.SECRET").
Proof. vm_compute. reflexivity. Qed.

(** A poll with its key, shouted and with something after it. *)
Definition keyed : ServerRequest :=
  MkServerRequest "DELETE" "/V1/async/jobs/job-1.SECRET/x" "" "" ∅ [] (0, None) ∅.
Definition listed : string := "embedding:*, Qwen3:8b,,".
End GatewayWitness.

Section witnesses.
Import EnvelopeWitness ResponseWitness RespBindWitness ClientWitness StreamWitness ServingWitness GatewayWitness.

Lemma sealed_stays_sealed_witness :
  emits (leaves_sealed entry Chat) fresh (newHandler (H0 := toy) entry shouted fresh).
Proof.
  exact (sealed_stays_sealed (H0 := toy) entry Chat shouted _ fresh (list_elem_of_here _ _) eq_refl eq_refl shouted_spells).
Defined.
Lemma job_key_stays_witness :
  emits (leaves_keyless "/V1/async/jobs/job-1.<redacted>") fresh (newHandler (H0 := toy) entry keyed fresh).
Proof.
  refine (job_key_stays (H0 := toy) entry "/V1/async/jobs/" "job-1" "SECRET/x" keyed fresh eq_refl eq_refl eq_refl _).
  apply (bool_decide_unpack _). vm_compute. exact I.
Defined.
Lemma in_flight_bounds_witness :
  computeMaxInFlight 4 8589934592 = 136 /\ minDefaultInFlight <= computeMaxInFlight 4 8589934592.
Proof. split; [vm_compute; reflexivity|]. exact (proj1 (proj1 (in_flight_bounds 4 8589934592 eq_refl))). Defined.
Example listed_seals :
  match parseSealModels listed with
  | Ok s => seals s "QWEN3:8B" && negb (seals s "other") && some (sm_surfaces s !! "/v1/embeddings")
            && negb (some (sm_surfaces s !! "/v1/chat/completions"))
  | Err _ => false
  end = true.
Proof. vm_compute. reflexivity. Qed.
End witnesses.
